(* ===== verification/_CoqProject ===== *)
-Q . S2P
Prelude.v
Io.v
Frame.v
Hello.v
Ring.v
BTree.v
Vsock.v
VsockConn.v
VsockMux.v
Queue.v
Virtio.v
VirtioProofs.v
Block.v
BlockProofs.v
BlockDevice.v
NetDevice.v
Balloon.v
VsockDev.v
VsockDevProofs.v
Text.v
Cas.v
CasProofs.v
Nbd.v
StoreServer.v
Substitute.v
SubstituteProofs.v
HeadRewrite.v
Config.v
Secrets.v
SessionTypes.v
Sessions.v
SessionSteps.v
SessionLinks.v
SessionStreams.v
SessionLive.v
SessionKills.v
SessionSweep.v
SessionServer.v
Hub.v
HubProofs.v
HubRegistry.v
FsWire.v
Fs.v
FsProofs.v
FsReply.v
FsHost.v
FsNodes.v
Children.v
Idle.v
Seccomp.v
Node.v
NodeInv.v
NodeNames.v
NodeShut.v
NodeSlots.v
NodeProofs.v
SandboxFiles.v
SandboxCrash.v
SandboxSwap.v
Services.v
ServicesProofs.v
ServicesResults.v
Seal.v
SealProofs.v
WorkDisk.v
