(* ===== verification/Prelude.v ===== *)
(** * Verification of the core of shuru

    shuru runs microVM sandboxes. A host process boots a guest under KVM or
    the Virtualization framework, serves its disk, its sockets and its
    network, and talks to an agent in the guest. This library models the
    parts that carry state and protocols, one file per part, and proves what
    makes each of them correct. Paths below are under [src/crates/].

    ** Parts and files

    - [Prelude] (this file): results and the [?] operator, machine-width
      integers with wrap-around, lengths and slices over [Z], bytes, the
      shared lemmas, tactics and hints. [Io] and [Text]: what the sources use
      of [std::io] and [str].
    - [Frame], [Hello]: [shuru-proto/src/frame.rs] and [hello.rs], the framing
      of every host to guest connection, and the handshake that opens it.
    - [Ring]: [shuru-guest/src/sessions/ring.rs], the bounded output of a
      session, replayed to a client that attaches again.
    - [SessionTypes], [Sessions]: [shuru-guest/src/sessions/event_loop.rs] and
      [mod.rs], the thread that runs every session over epoll, with the
      kernel as a script of answers. [SessionSteps] breaks its handlers into
      small steps, so that a property is proved once per step; [SessionLinks],
      [SessionStreams], [SessionLive], [SessionKills] and [SessionSweep] do so
      for the tables, the bytes, the registrations, kills and old sessions,
      and [SessionServer] states the results.
    - [Vsock], [VsockConn], [VsockMux]: [shuru-linux/src/kvm/vsock/connection.rs],
      the packets, credit and connections of a virtio vsock device and the
      multiplexer over them; [BTree] is the ordered map it uses.
    - [Queue]: [vsock/queue.rs], a virtqueue in guest memory that the guest
      may fill with anything. [VsockDev], [VsockDevProofs]: [kvm/vsock.rs],
      the device over the queues and the multiplexer.
    - [Virtio], [VirtioProofs]: the MMIO transport of [kvm/devices.rs], with
      its registers, queues, interrupt line and snapshots, over an interface
      for the device behind it. [Block], [BlockProofs], [BlockDevice]: the
      disk of [devices.rs] and [block_ranges.rs]. [NetDevice]: its network
      card. [Balloon]: [kvm/balloon.rs].
    - [FsWire], [Fs]: [kvm/virtio_fs.rs], a host directory served to the guest
      over FUSE, with the host's file system as a parameter. [FsProofs] holds
      the invariant of every request, [FsReply] the bytes of requests and
      replies, [FsNodes] the references of the guest, and [FsHost] a host to
      try them on.
    - [Children]: [shuru-guest/src/children.rs], the guest's children and
      their reaping. [Services]: [services.rs], the processes an image
      declares, with the threads that start, watch, restart and stop them as
      steps that interleave; [ServicesProofs] keeps the invariant of it and
      [ServicesResults] states the results.
    - [Seal], [SealProofs]: [disk.rs] and [ext4.rs] of the guest, which freeze
      its root for a lease, with [save_disk] of [shuru-vm/src/sandbox.rs] and
      [publish] of [checkpoint.rs], which copy the disk meanwhile. Host, guest
      and watchdog are steps that interleave with the writes of the guest.
      [WorkDisk]: [workdisk.rs], how the disk of a VM is cloned and copied.
    - [Hub], [HubProofs]: [shuru-node/src/serve/hub.rs], one guest connection
      per session fanned out to its clients; [HubRegistry]: the map of hubs
      and its locks. [Idle]: [serve/idle.rs] and [shuru-proxy/src/flows.rs],
      when a sandbox is stopped as unused. [Node]: [serve/sandboxes.rs], the
      sandboxes of a host, with the tasks of the requests, the thread of each
      VM and the shutdown as steps that interleave; [NodeInv], [NodeNames],
      [NodeShut] and [NodeSlots] keep its invariants (locks and VMs, names,
      permits, slots and boots) and [NodeProofs] states the results.
      [SandboxFiles]: the file system calls with which [sandboxes.rs] makes,
      restores, parks and removes a sandbox; [SandboxCrash] and [SandboxSwap]:
      what a crash leaves of them.
      [Seccomp]: [shuru-node/src/seccomp.rs], the system calls the VMM and
      the network process may make.
    - [Cas], [CasProofs]: [shuru-store/src/cas.rs] and [backend.rs], a disk of
      content-addressed chunks over parents and a base image. [Nbd]:
      [nbd.rs], the block protocol it is served with. [StoreServer]:
      [lib.rs], how a server opens a disk and saves a checkpoint.
    - [Substitute], [SubstituteProofs], [HeadRewrite]:
      [shuru-proxy/src/substitute.rs] and the relay of [proxy.rs], which swap
      secrets into the request heads of the guest. [Config]: [config.rs], the
      policy. [Secrets]: [secrets.rs], which secrets a connection gets and the
      cache of minted values.

    The parts meet in interfaces: [Io.Read] and [Io.Write] for streams,
    [Vsock.RxBuffers] with [RxLaws] between the multiplexer and the device's
    receive batch, guest memory in [Queue], [Virtio.VirtioBackend] with
    [VirtioLaws] between the transport and its devices, [Cas.ChunkStore] with
    [ChunkStoreLaws] between the disk and its store, and [Nbd.NbdBackend] with
    [NbdDisk] between the server and its disk. Clients are proved against the
    laws, implementations discharge them.

    ** How the code is read

    Definitions keep the names of the functions, with the type in front where
    a name occurs twice ([Ring_push] is [Ring::push]). A method that changes
    its object takes and returns it; a fallible function returns [result] or
    [option]. Integers are [Z]; where the code wraps (the release profile) the
    definition says [wrap]. A loop is a fixpoint over the data, or over fuel
    when the data does not shrink by one; the comment at each says which
    measure the fuel is, and the theorems give enough of it: [nbd_session_ends],
    [fill_terminates], [descriptors_safe], [process_safe], [turn_settles] and
    [only_heads_rewritten] prove that the fuel the code's callers get never
    runs out. The loops of the devices go down the descriptors of a chain,
    which [chain] bounds by the size of a queue. A socket is a script of what
    the environment answers. Code outside the repository (blake3, httparse,
    base64, serde_json, guest memory of vm-memory, the host's file system) is
    a parameter.

    ** What is proved

    - Framing: frames and fixed payloads read back as written, the two parsers
      agree, and what the reader accepts is what the writer sends. The
      handshake accepts exactly the peer that knows the token.
    - Output: after any output the ring holds its newest bytes, and replays
      exactly what a reader asks for.
    - Sessions: after any commands, events and answers of the kernel, tables
      and descriptors fit together, each client has been sent all output from
      its offset and then the exit code, input reaches the process in order,
      every turn ends, nothing that is left to do lacks a wakeup, kills are
      answered once and in time, and the sweep keeps the newest sessions.
    - Sockets: whatever the interleaving of guest packets, host readiness and
      buffers, the bytes of both directions arrive in order and complete,
      within the credit; ports are fresh, resets are not lost, turns are fair,
      and every loop ends, also over memory the guest controls.
    - Disk: reads show and writes change exactly the bytes they name, through
      dirty chunks, index, parents and base image; flushing, growing and
      saving keep the disk; a checkpoint opens again as the disk it was saved
      from; and the block server applies requests in order.
    - Devices: whatever a guest writes to registers, queues and memory, the
      transport's state stays in order and a snapshot restores it; a
      read-only disk does not change, reads and writes move exactly the bytes
      they name between disk and buffers, frames are what the guest queued,
      and the balloon gives back only pages the guest named.
    - Shared directories: every path handed to the host is below the
      directory, a read-only one is never changed, descriptors and inodes are
      bounded and not leaked, and reads, writes and reference counts are exact.
    - Hubs: every client of a session gets its output without gap or repeat
      and its input comes from one owner; a session has at most one guest
      connection, however starts, attaches and cancellations interleave.
    - Life cycle: a wait status and a signal reach the child they are for,
      and only a sandbox that is unused is stopped as idle. However requests
      interleave, a sandbox has one VM and a slot one user, boots tell runs
      apart, what is deleted stays so, a shutdown leaves no VM, and nothing
      waits for itself.
    - Crashes: whatever calls fail and wherever the host crashes, a sandbox is
      made or removed whole or not at all, a parked copy is whole, and a
      restored disk is never under the boot before.
    - Services: none has two processes at a time, none that restarts is given
      up, commands wait for those that do not until their own check passed,
      and a shutdown ends, leaving only what was killed or had failed.
    - Saves: whatever the guest writes meanwhile and whichever replies are
      lost, an image that is published is the disk of a frozen root with no
      journal to replay, and a frozen root is thawed within its lease; a copy
      that leaves zeros out is the whole disk.
    - Confinement: the two filters allow, refuse and kill exactly the calls
      they are meant to, x32 and foreign calls too.
    - Secrets: only heads change, however the bytes are cut into reads;
      secrets reach only their hosts and their scope; the cache serves live
      values of the current table.

    The findings are theorems too: [truncated_length_is_end],
    [write_past_end_is_forgotten], [bad_chunk_size_is_skipped],
    [stale_value_outlives_update], [renamed_file_is_lost],
    [usage_can_be_of_another], [crash_loses_import],
    [failed_service_outlives_shutdown] and [hung_check_holds_commands].

    ** What is not modelled

    Threads and locks beyond the order of the operations they protect (in
    [HubRegistry], [Node], [Services] and [Seal] the locks themselves). What only hands
    work to code outside the repository: KVM and processor state, the network
    stack and DNS (smoltcp, tokio, rustls, simple-dns), HTTP and JSON (serde,
    httparse), the macOS backend. What is mostly system calls: the spawning of
    processes in the guest and of jails on the host, mounts, file transfer and
    port forwarding of the guest. And user interfaces: the command line, the
    desktop and the screen. *)

From Stdlib Require Export ZArith Lia.
From Stdlib Require Import Strings.Byte.
From stdpp Require Export prelude.

#[export] Set Default Goal Selector "!".
Open Scope Z_scope.

(** ** Results

    Fallible Rust code returns [Result<T, E>]; the model keeps the two
    constructors and threads errors with [let?], the [?] operator. *)

Inductive result (A E : Type) : Type :=
  | Ok (a : A)
  | Err (e : E).
Arguments Ok {A E} a.
Arguments Err {A E} e.

(** [std::io::ErrorKind], the kinds the sources build or test. *)
Inductive ErrorKind :=
  | UnexpectedEof | InvalidData | PermissionDenied | WouldBlock | Interrupted
  | WriteZero | OutOfMemory | ConnectionRefused | TimedOut | BrokenPipe | Unsupported
  | Other.

#[export] Instance ErrorKind_eq_dec : EqDecision ErrorKind.
Proof. solve_decision. Defined.

Declare Scope shuru_scope.
Delimit Scope shuru_scope with shuru.
Open Scope shuru_scope.

Notation "'let?' x ':=' e 'in' k" :=
  (match e with Ok x => k | Err err => Err err end)
  (at level 10, x pattern, e at level 100, k at level 200)
  : shuru_scope.

(** [Option::?]: an early [return None]. *)
Notation "'let!' x ':=' e 'in' k" :=
  (match e with Some x => k | None => None end)
  (at level 10, x pattern, e at level 100, k at level 200)
  : shuru_scope.

(** ** Machine integers

    A [w]-bit unsigned integer is a [Z] in [0, 2^w); arithmetic that wraps
    writes the reduction out. *)

Definition wrap (w z : Z) : Z := z mod 2 ^ w.
Definition in_width (w z : Z) : Prop := 0 <= z < 2 ^ w.
Definition wrapping_add (w a b : Z) : Z := wrap w (a + b).
Definition wrapping_sub (w a b : Z) : Z := wrap w (a - b).
Definition saturating_sub (a b : Z) : Z := Z.max 0 (a - b).
Definition checked_add (w a b : Z) : option Z :=
  if a + b <? 2 ^ w then Some (a + b) else None.
Definition checked_mul (w a b : Z) : option Z :=
  if a * b <? 2 ^ w then Some (a * b) else None.

#[export] Instance in_width_dec w z : Decision (in_width w z).
Proof. unfold in_width. apply _. Defined.

Create HintDb shuru.
Create Rewrite HintDb shuru.
Create Rewrite HintDb zlen.

Lemma wrap_in_width w z : 0 <= w -> in_width w (wrap w z).
Proof. intros. apply Z.mod_pos_bound. lia. Qed.

Lemma wrap_small w z : in_width w z -> wrap w z = z.
Proof. apply Z.mod_small. Qed.

Lemma wrap_wrap w z : wrap w (wrap w z) = wrap w z.
Proof. unfold wrap. apply Zmod_mod. Qed.

(** Subtraction of two counters that were wrapped independently is the
    wrapped difference: what makes free running counters comparable. *)
Lemma wrapping_sub_wrap w a b :
  wrapping_sub w (wrap w a) (wrap w b) = wrap w (a - b).
Proof. unfold wrapping_sub, wrap. symmetry. apply Zminus_mod. Qed.

Lemma wrapping_add_wrap w a b :
  wrapping_add w (wrap w a) b = wrap w (a + b).
Proof. unfold wrapping_add, wrap. apply Zplus_mod_idemp_l. Qed.

#[export] Hint Resolve wrap_in_width wrap_small : shuru.
#[export] Hint Rewrite wrap_wrap wrapping_sub_wrap wrapping_add_wrap : shuru.

(** ** Lists addressed by machine integers

    Offsets and lengths are [usize] and [u64] values, so lists are measured
    and cut with [Z]. *)

Definition zlen {A} (l : list A) : Z := Z.of_nat (length l).
Definition ztake {A} (n : Z) (l : list A) : list A := take (Z.to_nat n) l.
Definition zdrop {A} (n : Z) (l : list A) : list A := drop (Z.to_nat n) l.
(** [&l[from..to]] for bounds the caller has checked. *)
Definition zslice {A} (from to : Z) (l : list A) : list A :=
  ztake (to - from) (zdrop from l).
Definition znth {A} (l : list A) (i : Z) : option A :=
  if i <? 0 then None else l !! Z.to_nat i.

Section zlists.
Context {A : Type}.
Implicit Types (l : list A) (n m : Z).

Lemma zlen_nil : zlen (@nil A) = 0.
Proof. done. Qed.

Lemma zlen_cons x l : zlen (x :: l) = 1 + zlen l.
Proof. unfold zlen. simpl. lia. Qed.

Lemma zlen_app l1 l2 : zlen (l1 ++ l2) = zlen l1 + zlen l2.
Proof. unfold zlen. rewrite length_app. lia. Qed.

Lemma zlen_nonneg l : 0 <= zlen l.
Proof. unfold zlen. lia. Qed.

Lemma zlen_zero l : zlen l = 0 <-> l = [].
Proof. unfold zlen. destruct l; simpl; split; intros; try done; lia. Qed.

Lemma zlen_take n l : zlen (ztake n l) = Z.max 0 (Z.min n (zlen l)).
Proof. unfold zlen, ztake. rewrite length_take. lia. Qed.

Lemma zlen_drop n l : zlen (zdrop n l) = Z.max 0 (zlen l - Z.max 0 n).
Proof. unfold zlen, zdrop. rewrite length_drop. lia. Qed.

Lemma zlen_reverse l : zlen (reverse l) = zlen l.
Proof. unfold zlen. by rewrite length_reverse. Qed.

Lemma zlen_replicate (n : nat) (x : A) : zlen (replicate n x) = Z.of_nat n.
Proof. unfold zlen. by rewrite length_replicate. Qed.

Lemma ztake_zdrop n l : ztake n l ++ zdrop n l = l.
Proof. apply take_drop. Qed.

Lemma ztake_ge n l : zlen l <= n -> ztake n l = l.
Proof. unfold zlen, ztake. intros. apply take_ge. lia. Qed.

Lemma zdrop_ge n l : zlen l <= n -> zdrop n l = [].
Proof. unfold zlen, zdrop. intros. apply drop_ge. lia. Qed.

Lemma ztake_nonpos n l : n <= 0 -> ztake n l = [].
Proof. unfold ztake. intros. by replace (Z.to_nat n) with 0%nat by lia. Qed.

Lemma zdrop_nonpos n l : n <= 0 -> zdrop n l = l.
Proof. unfold zdrop. intros. by replace (Z.to_nat n) with 0%nat by lia. Qed.

Lemma ztake_app_le n l1 l2 : n <= zlen l1 -> ztake n (l1 ++ l2) = ztake n l1.
Proof. unfold zlen, ztake. intros. apply take_app_le. lia. Qed.

Lemma ztake_app_exact n l1 l2 : n = zlen l1 -> ztake n (l1 ++ l2) = l1.
Proof. intros ->. rewrite ztake_app_le, ztake_ge; done || lia. Qed.

Lemma zdrop_app_le n l1 l2 : n <= zlen l1 -> zdrop n (l1 ++ l2) = zdrop n l1 ++ l2.
Proof. unfold zlen, zdrop. intros. apply drop_app_le. lia. Qed.

Lemma zdrop_app_ge n l1 l2 : zlen l1 <= n -> zdrop n (l1 ++ l2) = zdrop (n - zlen l1) l2.
Proof.
  unfold zlen, zdrop. intros. rewrite drop_app_ge by lia. f_equal. lia.
Qed.

Lemma zdrop_app_exact n l1 l2 : n = zlen l1 -> zdrop n (l1 ++ l2) = l2.
Proof. intros ->. rewrite zdrop_app_ge, zdrop_nonpos; done || lia. Qed.

Lemma ztake_app_ge n l1 l2 :
  zlen l1 <= n -> ztake n (l1 ++ l2) = l1 ++ ztake (n - zlen l1) l2.
Proof.
  unfold zlen, ztake. intros. rewrite take_app_ge by lia. do 2 f_equal. lia.
Qed.

Lemma zdrop_zdrop n m l : 0 <= n -> 0 <= m -> zdrop n (zdrop m l) = zdrop (m + n) l.
Proof. unfold zdrop. intros. rewrite drop_drop. f_equal. lia. Qed.

Lemma ztake_ztake n m l : ztake n (ztake m l) = ztake (Z.min n m) l.
Proof.
  unfold ztake. rewrite take_take. f_equal. lia.
Qed.

Lemma zdrop_ztake n m l : 0 <= n -> zdrop n (ztake m l) = ztake (m - n) (zdrop n l).
Proof.
  unfold zdrop, ztake. intros. rewrite skipn_firstn_comm. f_equal. lia.
Qed.

Lemma ztake_plus n m l :
  0 <= n -> 0 <= m -> ztake (n + m) l = ztake n l ++ ztake m (zdrop n l).
Proof.
  unfold ztake, zdrop. intros. rewrite Z2Nat.inj_add by lia.
  rewrite <-(take_drop (Z.to_nat n) l) at 1.
  rewrite take_app. rewrite length_take.
  destruct (decide (Z.to_nat n <= length l)%nat).
  - rewrite Nat.min_l by lia. rewrite take_ge by (rewrite length_take; lia).
    do 2 f_equal. lia.
  - rewrite !(drop_ge l) by lia. rewrite !take_nil. rewrite take_ge; [done|].
    rewrite length_take. lia.
Qed.

Lemma zlen_slice from to l :
  0 <= from -> from <= to -> to <= zlen l -> zlen (zslice from to l) = to - from.
Proof. intros. unfold zslice. rewrite zlen_take, zlen_drop. lia. Qed.

Lemma zslice_app_r from to l1 l2 :
  zlen l1 <= from -> zslice from to (l1 ++ l2) = zslice (from - zlen l1) (to - zlen l1) l2.
Proof. intros. unfold zslice. rewrite zdrop_app_ge by done. f_equal. lia. Qed.

Lemma zslice_app_exact n l1 l2 : n = zlen l1 -> zslice 0 n (l1 ++ l2) = l1.
Proof.
  intros. unfold zslice. rewrite zdrop_nonpos by done. apply ztake_app_exact. lia.
Qed.

(** The middle of three parts. *)
Lemma zslice_middle from to l1 l2 l3 :
  from = zlen l1 -> to = from + zlen l2 -> zslice from to (l1 ++ l2 ++ l3) = l2.
Proof.
  intros -> ->. rewrite zslice_app_r by lia. rewrite Z.sub_diag.
  replace (zlen l1 + zlen l2 - zlen l1) with (zlen l2) by lia. by apply zslice_app_exact.
Qed.

Lemma zslice_cat a b c l :
  0 <= a -> a <= b -> b <= c -> zslice a b l ++ zslice b c l = zslice a c l.
Proof.
  intros. unfold zslice. replace (c - a) with ((b - a) + (c - b)) by lia.
  rewrite ztake_plus, zdrop_zdrop by lia. do 3 f_equal. lia.
Qed.

Lemma znth_lt_Some l i x : znth l i = Some x -> 0 <= i < zlen l.
Proof.
  unfold znth, zlen. destruct (i <? 0) eqn:E; [done|].
  intros H%lookup_lt_Some. lia.
Qed.

Lemma znth_Some l i : 0 <= i < zlen l -> exists x, znth l i = Some x.
Proof.
  intros. unfold znth, zlen in *. destruct (i <? 0) eqn:E; [lia|].
  apply lookup_lt_is_Some. lia.
Qed.

Lemma znth_ge l i : zlen l <= i -> znth l i = None.
Proof.
  unfold znth, zlen. intros. case_match; [done|]. apply lookup_ge_None_2. lia.
Qed.

Lemma znth_app l1 l2 i :
  0 <= i -> znth (l1 ++ l2) i = if i <? zlen l1 then znth l1 i else znth l2 (i - zlen l1).
Proof.
  intros. unfold znth, zlen. rewrite (proj2 (Z.ltb_ge i 0)) by lia.
  destruct (Z.ltb_spec i (Z.of_nat (length l1))).
  - apply lookup_app_l. lia.
  - rewrite lookup_app_r, (proj2 (Z.ltb_ge _ 0)) by lia. f_equal. lia.
Qed.

Lemma znth_ztake n l i :
  0 <= i -> znth (ztake n l) i = if i <? n then znth l i else None.
Proof.
  intros. unfold znth, ztake. rewrite (proj2 (Z.ltb_ge i 0)) by lia.
  destruct (Z.ltb_spec i n).
  - apply lookup_take_lt. lia.
  - apply lookup_take_ge. lia.
Qed.

Lemma znth_drop n l i : 0 <= i -> 0 <= n -> znth (zdrop n l) i = znth l (n + i).
Proof.
  intros. unfold znth, zdrop. rewrite !(proj2 (Z.ltb_ge _ 0)) by lia.
  rewrite lookup_drop. f_equal. lia.
Qed.

Lemma znth_replicate (n : nat) (x : A) i :
  znth (replicate n x) i = if (0 <=? i) && (i <? Z.of_nat n) then Some x else None.
Proof.
  unfold znth. destruct (Z.ltb_spec i 0).
  - by rewrite (proj2 (Z.leb_gt _ _)) by lia.
  - rewrite (proj2 (Z.leb_le _ _)) by lia. simpl. destruct (Z.ltb_spec i (Z.of_nat n)).
    + apply lookup_replicate_2. lia.
    + apply lookup_replicate_None. lia.
Qed.

Lemma znth_zdrop l i x : znth l i = Some x -> zdrop i l = x :: zdrop (i + 1) l.
Proof.
  intros H. pose proof (znth_lt_Some _ _ _ H).
  unfold znth, zdrop in *. destruct (i <? 0) eqn:E; [done|].
  replace (Z.to_nat (i + 1)) with (S (Z.to_nat i)) by lia.
  by apply drop_S.
Qed.
End zlists.

#[export] Hint Rewrite @zlen_nil @zlen_cons @zlen_app @zlen_take @zlen_drop
  @zlen_reverse @zlen_replicate : zlen.

(** Linear arithmetic with the lengths of composed lists unfolded. *)
Ltac zlen_lia :=
  autorewrite with zlen in *;
  repeat match goal with
         | |- context [@zlen ?A ?l] =>
             lazymatch goal with
             | _ : 0 <= @zlen A l |- _ => fail
             | _ => pose proof (@zlen_nonneg A l)
             end
         | _ : context [@zlen ?A ?l] |- _ =>
             lazymatch goal with
             | _ : 0 <= @zlen A l |- _ => fail
             | _ => pose proof (@zlen_nonneg A l)
             end
         end; lia.

(** Case analysis on the first boolean test or match of the goal. *)
Ltac case_test :=
  match goal with
  | |- context [if ?b then _ else _] => destruct b eqn:?
  end.

Ltac case_test_in H :=
  match type of H with
  | context [if ?b then _ else _] => destruct b eqn:?
  end.

(** Turns boolean comparisons of the context into propositions. *)
Ltac bool_to_prop :=
  repeat match goal with
         | H : (_ && _)%bool = true |- _ => apply andb_true_iff in H as [? ?]
         | H : (_ || _)%bool = false |- _ => apply orb_false_iff in H as [? ?]
         | H : (_ || _)%bool = true |- _ => apply orb_true_iff in H
         | H : (_ && _)%bool = false |- _ => apply andb_false_iff in H
         | H : negb _ = true |- _ => apply negb_true_iff in H
         | H : negb _ = false |- _ => apply negb_false_iff in H
         | H : (_ =? _) = true |- _ => apply Z.eqb_eq in H
         | H : (_ =? _) = false |- _ => apply Z.eqb_neq in H
         | H : (_ <? _) = true |- _ => apply Z.ltb_lt in H
         | H : (_ <? _) = false |- _ => apply Z.ltb_ge in H
         | H : (_ <=? _) = true |- _ => apply Z.leb_le in H
         | H : (_ <=? _) = false |- _ => apply Z.leb_gt in H
         | H : bool_decide _ = true |- _ => apply bool_decide_eq_true in H
         | H : bool_decide _ = false |- _ => apply bool_decide_eq_false in H
         end.

(** ** Bytes and their integer encodings *)

Abbreviation byte := Corelib.Init.Byte.byte.
Abbreviation bytes := (list byte).

#[export] Instance byte_eq_dec : EqDecision byte := Byte.byte_eq_dec.
#[export] Instance byte_inhabited : Inhabited byte := populate x00.

Definition b2z (b : byte) : Z := Z.of_N (Byte.to_N b).
(** [z as u8]. *)
Definition z2b (z : Z) : byte := default x00 (Byte.of_N (Z.to_N (wrap 8 z))).

(** [uN::to_le_bytes], [from_le_bytes], [to_be_bytes], [from_be_bytes], on
    [n] bytes. *)
Fixpoint le_bytes (n : nat) (z : Z) : bytes :=
  match n with
  | O => []
  | S n => z2b z :: le_bytes n (z / 256)
  end.

Fixpoint le_val (l : bytes) : Z :=
  match l with
  | [] => 0
  | b :: l => b2z b + 256 * le_val l
  end.

Definition be_bytes (n : nat) (z : Z) : bytes := reverse (le_bytes n z).
Definition be_val (l : bytes) : Z := le_val (reverse l).

Lemma b2z_range b : 0 <= b2z b < 256.
Proof. destruct b; vm_compute; split; congruence. Qed.

Lemma b2z_z2b z : b2z (z2b z) = wrap 8 z.
Proof.
  unfold b2z, z2b. pose proof (wrap_in_width 8 z ltac:(lia)) as [Hl Hu].
  destruct (Byte.of_N (Z.to_N (wrap 8 z))) eqn:E; simpl.
  - apply Byte.to_of_N in E. rewrite E. lia.
  - apply Byte.of_N_None_iff in E. lia.
Qed.

Lemma z2b_b2z b : z2b (b2z b) = b.
Proof. by destruct b. Qed.

Lemma b2z_inj a b : b2z a = b2z b -> a = b.
Proof. intros H. by rewrite <-(z2b_b2z a), H, z2b_b2z. Qed.

Lemma length_le_bytes n z : length (le_bytes n z) = n.
Proof. revert z. induction n; simpl; auto. Qed.

Lemma zlen_le_bytes n z : zlen (le_bytes n z) = Z.of_nat n.
Proof. unfold zlen. by rewrite length_le_bytes. Qed.

Lemma zlen_be_bytes n z : zlen (be_bytes n z) = Z.of_nat n.
Proof. unfold be_bytes. by rewrite zlen_reverse, zlen_le_bytes. Qed.

Lemma le_val_range l : 0 <= le_val l < 256 ^ zlen l.
Proof.
  induction l as [|b l IH]; simpl; [done|].
  rewrite zlen_cons, Z.pow_add_r by zlen_lia.
  pose proof (b2z_range b). lia.
Qed.

Lemma be_val_range l : 0 <= be_val l < 256 ^ zlen l.
Proof. unfold be_val. rewrite <-(zlen_reverse l). apply le_val_range. Qed.

Lemma le_val_le_bytes n z : le_val (le_bytes n z) = z mod 256 ^ Z.of_nat n.
Proof.
  revert z. induction n as [|n IH]; intros z; simpl le_val.
  - by rewrite Z.mod_1_r.
  - rewrite IH, b2z_z2b. unfold wrap. change (2 ^ 8) with 256.
    rewrite Nat2Z.inj_succ, Z.pow_succ_r by lia.
    rewrite Z.rem_mul_r; lia.
Qed.

Lemma le_bytes_le_val l : le_bytes (length l) (le_val l) = l.
Proof.
  induction l as [|b l IH]; simpl; [done|].
  pose proof (b2z_range b). f_equal.
  - apply b2z_inj. rewrite b2z_z2b. unfold wrap. change (2 ^ 8) with 256.
    rewrite (Z.mul_comm 256), Z_mod_plus_full. apply Z.mod_small. lia.
  - rewrite (Z.mul_comm 256), Z_div_plus_full, Z.div_small by lia. done.
Qed.

Lemma be_val_be_bytes n z : be_val (be_bytes n z) = z mod 256 ^ Z.of_nat n.
Proof.
  unfold be_val, be_bytes. rewrite reverse_involutive. apply le_val_le_bytes.
Qed.

Lemma be_bytes_be_val l : be_bytes (length l) (be_val l) = l.
Proof.
  unfold be_val, be_bytes. rewrite <-(length_reverse l), le_bytes_le_val.
  apply reverse_involutive.
Qed.

Lemma le_val_small n z : in_width (8 * Z.of_nat n) z -> le_val (le_bytes n z) = z.
Proof.
  intros H. rewrite le_val_le_bytes. change 256 with (2 ^ 8).
  rewrite <-Z.pow_mul_r by lia. by apply Z.mod_small.
Qed.

Lemma le_bytes_val n l : zlen l = Z.of_nat n -> le_bytes n (le_val l) = l.
Proof.
  unfold zlen. intros H. replace n with (length l) by lia. apply le_bytes_le_val.
Qed.

Lemma be_val_small n z : in_width (8 * Z.of_nat n) z -> be_val (be_bytes n z) = z.
Proof.
  intros H. rewrite be_val_be_bytes. change 256 with (2 ^ 8).
  rewrite <-Z.pow_mul_r by lia. by apply Z.mod_small.
Qed.

#[export] Hint Rewrite zlen_le_bytes zlen_be_bytes : zlen.

Arguments zlen : simpl never.
Arguments ztake : simpl never.
Arguments zdrop : simpl never.
Arguments zslice : simpl never.
Arguments wrap : simpl never.
Arguments le_bytes : simpl never.
Arguments be_bytes : simpl never.
Arguments le_val : simpl never.
Arguments be_val : simpl never.
