(* ===== verification/Io.v ===== *)
(** * Byte streams

    The part of [std::io] the sources use: [Read::read_exact],
    [Write::write_all] and [Write::flush], as interfaces. Code that takes
    [impl Read] or [impl Write] is a definition over the operational class;
    its theorems are proved against the classes of laws, which the in-memory
    streams ([&[u8]], [Cursor], [Vec<u8>]) satisfy. *)

From S2P Require Import Prelude.

(** [read_exact(&mut buf)] with a buffer of [n] bytes. *)
Class Read (R : Type) := read_exact : R -> Z -> result (bytes * R) ErrorKind.

Class Write (W : Type) := {
  write_all : W -> bytes -> result W ErrorKind;
  flush : W -> result W ErrorKind;
}.

(** A source that holds some bytes and then ends. *)
Class ReadLaws (R : Type) `{Read R} := {
  pending : R -> bytes;
  read_exact_ok r n :
    0 <= n <= zlen (pending r) ->
    exists r', read_exact r n = Ok (ztake n (pending r), r') /\
               pending r' = zdrop n (pending r);
  read_exact_eof r n :
    zlen (pending r) < n -> read_exact r n = Err UnexpectedEof;
}.

(** A sink that takes every byte. *)
Class WriteLaws (W : Type) `{Write W} := {
  written : W -> bytes;
  write_all_ok w b :
    exists w', write_all w b = Ok w' /\ written w' = written w ++ b;
  flush_ok w : flush w = Ok w;
}.

(** ** In-memory streams *)

#[export] Instance slice_read : Read bytes := fun r n =>
  if n <=? zlen r then Ok (ztake n r, zdrop n r) else Err UnexpectedEof.

#[export] Instance vec_write : Write bytes := {|
  write_all w b := Ok (w ++ b);
  flush w := Ok w;
|}.

#[export, refine] Instance slice_read_laws : ReadLaws bytes := {| pending r := r |}.
Proof.
  - intros r n ?. eexists. unfold read_exact, slice_read.
    rewrite (proj2 (Z.leb_le _ _)) by lia. done.
  - intros r n ?. unfold read_exact, slice_read.
    by rewrite (proj2 (Z.leb_gt _ _)) by lia.
Defined.

#[export, refine] Instance vec_write_laws : WriteLaws bytes := {| written w := w |}.
Proof. all: simpl; eauto. Defined.

(** A connected stream: what the peer has sent and not been read yet, and
    what was written to the peer. *)
Record Duplex := MkDuplex { input : bytes; output : bytes }.

#[export] Instance duplex_read : Read Duplex := fun s n =>
  let? (b, i) := read_exact (input s) n in Ok (b, MkDuplex i (output s)).

#[export] Instance duplex_write : Write Duplex := {|
  write_all s b := Ok (MkDuplex (input s) (output s ++ b));
  flush s := Ok s;
|}.

#[export, refine] Instance duplex_read_laws : ReadLaws Duplex := {| pending := input |}.
Proof.
  - intros [i o] n H. simpl in *. exists (MkDuplex (zdrop n i) o).
    unfold read_exact, duplex_read, read_exact, slice_read. simpl.
    by rewrite (proj2 (Z.leb_le _ _)) by lia.
  - intros [i o] n H. simpl in *.
    unfold read_exact, duplex_read, read_exact, slice_read. simpl.
    by rewrite (proj2 (Z.leb_gt _ _)) by lia.
Defined.

#[export, refine] Instance duplex_write_laws : WriteLaws Duplex := {| written := output |}.
Proof. all: simpl; eauto. Defined.

(** Reads leave what was written alone, and writes what is pending. *)
Lemma duplex_read_output (s s' : Duplex) n b :
  read_exact s n = Ok (b, s') -> output s' = output s.
Proof.
  unfold read_exact, duplex_read, read_exact, slice_read.
  case_test; intros [= <- <-]. done.
Qed.
