(* ===== verification/Frame.v ===== *)
(** * The frame protocol between host and guest

    [crates/shuru-proto/src/frame.rs]: a frame is
    [[u32 BE length][u8 type][payload]], the length counting the type byte.
    [write_frame] and [read_frame] work on streams, [try_parse] on a buffer
    that may not hold a whole frame yet. *)

From Stdlib Require Import Strings.Byte.
From S2P Require Import Prelude Io.

(** ** Message types *)

Definition HELLO : byte := x08.
Definition HELLO_OK : byte := x09.
Definition STDIN : byte := x01.
Definition STDOUT : byte := x02.
Definition STDERR : byte := x03.
Definition RESIZE : byte := x04.
Definition EXIT : byte := x05.
Definition ERROR : byte := x06.
Definition KILL : byte := x07.
Definition STDIN_EOF : byte := x0a.
Definition EXEC_REQ : byte := x10.
Definition MOUNT_REQ : byte := x11.
Definition MOUNT_RESP : byte := x12.
Definition READ_FILE_REQ : byte := x13.
Definition READ_FILE_RESP : byte := x14.
Definition WRITE_FILE_REQ : byte := x15.
Definition WRITE_FILE_DATA : byte := x16.
Definition WRITE_FILE_RESP : byte := x17.
Definition FWD_REQ : byte := x20.
Definition FWD_RESP : byte := x21.
Definition PORTS_WATCH_REQ : byte := x22.
Definition PORT_EVENT : byte := x23.
Definition WATCH_REQ : byte := x30.
Definition WATCH_EVENT : byte := x31.
Definition WATCH_DETAIL : byte := x32.
Definition MKDIR_REQ : byte := x40.
Definition FS_OK_RESP : byte := x41.
Definition READ_DIR_REQ : byte := x42.
Definition READ_DIR_RESP : byte := x43.
Definition STAT_REQ : byte := x44.
Definition STAT_RESP : byte := x45.
Definition REMOVE_REQ : byte := x46.
Definition RENAME_REQ : byte := x48.
Definition COPY_REQ : byte := x4a.
Definition CHMOD_REQ : byte := x4c.
Definition CHOWN_REQ : byte := x4d.
Definition DISCARD_REQ : byte := x4e.
Definition DISCARD_RESP : byte := x4f.
Definition DOWNLOAD_REQ : byte := x50.
Definition DOWNLOAD_PROGRESS : byte := x51.
Definition SHUTDOWN_REQ : byte := x60.
Definition SHUTDOWN_RESP : byte := x61.
Definition SEAL_REQ : byte := x62.
Definition SEAL_RESP : byte := x63.
Definition THAW_REQ : byte := x64.
Definition THAW_RESP : byte := x65.
Definition TRIM_REQ : byte := x66.
Definition TRIM_RESP : byte := x67.
Definition KILL_REQ : byte := x18.
Definition KILL_RESP : byte := x19.
Definition RESTORE_REQ : byte := x68.
Definition RESTORE_RESP : byte := x69.
Definition SERVICE_ENV_REQ : byte := x6a.
Definition SERVICE_ENV_RESP : byte := x6b.
Definition SESSION_START : byte := x70.
Definition SESSION_ATTACH : byte := x71.
Definition SESSION_INFO : byte := x72.
Definition SESSION_LIST : byte := x73.
Definition SESSION_LIST_RESP : byte := x74.
Definition SESSION_KILL : byte := x75.
Definition SESSION_KILL_EVENT : byte := x76.

(** Every message type of the protocol. *)
Definition message_types : list byte :=
  [HELLO; HELLO_OK; STDIN; STDOUT; STDERR; RESIZE; EXIT; ERROR; KILL;
   STDIN_EOF; EXEC_REQ; MOUNT_REQ; MOUNT_RESP; READ_FILE_REQ;
   READ_FILE_RESP; WRITE_FILE_REQ; WRITE_FILE_DATA; WRITE_FILE_RESP;
   FWD_REQ; FWD_RESP; PORTS_WATCH_REQ; PORT_EVENT; WATCH_REQ; WATCH_EVENT;
   WATCH_DETAIL; MKDIR_REQ; FS_OK_RESP; READ_DIR_REQ; READ_DIR_RESP;
   STAT_REQ; STAT_RESP; REMOVE_REQ; RENAME_REQ; COPY_REQ; CHMOD_REQ;
   CHOWN_REQ; DISCARD_REQ; DISCARD_RESP; DOWNLOAD_REQ; DOWNLOAD_PROGRESS;
   SHUTDOWN_REQ; SHUTDOWN_RESP; SEAL_REQ; SEAL_RESP; THAW_REQ; THAW_RESP;
   TRIM_REQ; TRIM_RESP; KILL_REQ; KILL_RESP; RESTORE_REQ; RESTORE_RESP;
   SERVICE_ENV_REQ; SERVICE_ENV_RESP; SESSION_START; SESSION_ATTACH;
   SESSION_INFO; SESSION_LIST; SESSION_LIST_RESP; SESSION_KILL;
   SESSION_KILL_EVENT].

(** The largest frame, its type byte included. *)
Definition MAX_FRAME : Z := Z.shiftl 1 20.
Definition FILE_CHUNK : Z := 256 * 1024.

(** ** Streams *)

(** [len] is a [u32]: the payload length is cast and the sum wraps. *)
Definition frame_bytes (msg_type : byte) (payload : bytes) : bytes :=
  let len := wrapping_add 32 1 (wrap 32 (zlen payload)) in
  be_bytes 4 len ++ [msg_type] ++ payload.

Definition write_frame `{Write W} (w : W) (msg_type : byte) (payload : bytes)
    : result W ErrorKind :=
  let? w := write_all w (frame_bytes msg_type payload) in
  flush w.

(** [Ok (None, _)] is the end of the stream. *)
Definition read_frame `{Read R} (r : R)
    : result (option (byte * bytes) * R) ErrorKind :=
  match read_exact r 4 with
  | Err UnexpectedEof => Ok (None, r)
  | Err e => Err e
  | Ok (len_buf, r) =>
      let len := be_val len_buf in
      if (len =? 0) || (MAX_FRAME <? len) then Err InvalidData else
      let? (type_buf, r) := read_exact r 1 in
      let payload_len := len - 1 in
      let? (payload, r) :=
        (if 0 <? payload_len then read_exact r payload_len else Ok ([], r)) in
      Ok (Some (hd x00 type_buf, payload), r)
  end.

(** [serde_json::to_vec] is [to_vec]; its failure becomes an I/O error. *)
Definition send_json `{Write W} {M} (to_vec : M -> option bytes)
    (w : W) (msg_type : byte) (msg : M) : result W ErrorKind :=
  match to_vec msg with
  | None => Err Other
  | Some payload => write_frame w msg_type payload
  end.

(** ** Buffers *)

Definition try_parse (buf : bytes) : option (byte * Z * Z) :=
  if zlen buf <? 5 then None else
  let len := be_val (ztake 4 buf) in
  if (len =? 0) || (MAX_FRAME <? len) then None else
  let total := 4 + len in
  if zlen buf <? total then None else
  let! msg_type := znth buf 4 in
  Some (msg_type, 5, total).

(** ** Payloads *)

(** The two's complement reading of a 32-bit word. *)
Definition as_i32 (z : Z) : Z := if z <? 2 ^ 31 then z else z - 2 ^ 32.

Definition resize_payload (rows cols : Z) : bytes :=
  be_bytes 2 rows ++ be_bytes 2 cols.

Definition parse_resize (payload : bytes) : option (Z * Z) :=
  if zlen payload <? 4 then None else
  Some (be_val (zslice 0 2 payload), be_val (zslice 2 4 payload)).

Definition exit_payload (code : Z) : bytes := be_bytes 4 (wrap 32 code).

Definition parse_exit_code (payload : bytes) : option Z :=
  if zlen payload <? 4 then None else
  Some (as_i32 (be_val (zslice 0 4 payload))).

Arguments frame_bytes : simpl never.

(** ** Lemmas *)

Lemma frame_len_small (payload : bytes) :
  1 + zlen payload <= MAX_FRAME ->
  wrapping_add 32 1 (wrap 32 (zlen payload)) = 1 + zlen payload.
Proof.
  intros H. unfold MAX_FRAME in H. change (Z.shiftl 1 20) with 1048576 in H.
  pose proof (zlen_nonneg payload).
  assert (in_width 32 (zlen payload)) by (unfold in_width; lia).
  rewrite (wrap_small 32 (zlen payload)) by done.
  apply wrap_small. unfold in_width. lia.
Qed.

Lemma be_val_u32 z : in_width 32 z -> be_val (be_bytes 4 z) = z.
Proof. intros. rewrite be_val_be_bytes. by apply Z.mod_small. Qed.

Lemma be_val_u16 z : in_width 16 z -> be_val (be_bytes 2 z) = z.
Proof. intros. rewrite be_val_be_bytes. by apply Z.mod_small. Qed.

Lemma write_frame_written `{HW : WriteLaws W} (w : W) t p :
  exists w', write_frame w t p = Ok w' /\ written w' = written w ++ frame_bytes t p.
Proof.
  unfold write_frame. destruct (write_all_ok w (frame_bytes t p)) as (w' & -> & ?).
  exists w'. by rewrite flush_ok.
Qed.

Lemma zlen_frame_bytes t p : zlen (frame_bytes t p) = 5 + zlen p.
Proof. unfold frame_bytes. zlen_lia. Qed.

(** What [read_frame] answers, by what the stream still holds. *)
Definition read_outcome (p : bytes) : result (option (byte * bytes)) ErrorKind :=
  if zlen p <? 4 then Ok None else
  let len := be_val (ztake 4 p) in
  if (len =? 0) || (MAX_FRAME <? len) then Err InvalidData else
  if zlen p <? 4 + len then Err UnexpectedEof else
  Ok (Some (hd x00 (zdrop 4 p), zslice 5 (4 + len) p)).

Section reading.
Context `{HR : ReadLaws R}.
Implicit Types r : R.

Lemma read_frame_outcome r :
  match read_outcome (pending r) with
  | Ok None => read_frame r = Ok (None, r)
  | Ok (Some f) =>
      exists r', read_frame r = Ok (Some f, r') /\
                 pending r' = zdrop (4 + be_val (ztake 4 (pending r))) (pending r)
  | Err e => read_frame r = Err e
  end.
Proof.
  unfold read_outcome, read_frame. set (p := pending r).
  destruct (zlen p <? 4) eqn:E4; bool_to_prop.
  { by rewrite read_exact_eof by (fold p; lia). }
  destruct (read_exact_ok r 4) as (r1 & -> & P1); [fold p; lia|]. fold p in P1.
  fold p. set (len := be_val (ztake 4 p)).
  destruct ((len =? 0) || (MAX_FRAME <? len)) eqn:Elen; [done|]. bool_to_prop.
  pose proof (be_val_range (ztake 4 p)) as Hr; fold len in Hr.
  destruct (zlen p <? 4 + len) eqn:Etot; bool_to_prop.
  - destruct (decide (zlen p = 4)) as [?|?].
    { rewrite read_exact_eof; [done|]. rewrite P1. zlen_lia. }
    destruct (read_exact_ok r1 1) as (r2 & -> & P2); [rewrite P1; zlen_lia|].
    rewrite (proj2 (Z.ltb_lt _ _)) by lia.
    rewrite read_exact_eof; [done|]. rewrite P2, P1. zlen_lia.
  - destruct (read_exact_ok r1 1) as (r2 & -> & P2); [rewrite P1; zlen_lia|].
    rewrite P1 in *. rewrite zdrop_zdrop in P2 by lia.
    assert (Hhd : hd x00 (ztake 1 (zdrop 4 p)) = hd x00 (zdrop 4 p)).
    { unfold ztake. by destruct (zdrop 4 p). }
    rewrite Hhd. unfold zslice. destruct (0 <? len - 1) eqn:E1; bool_to_prop.
    + destruct (read_exact_ok r2 (len - 1)) as (r3 & -> & P3); [rewrite P2; zlen_lia|].
      exists r3. rewrite P3, P2, zdrop_zdrop by lia. change (4 + 1) with 5.
      replace (4 + len - 5) with (len - 1) by lia.
      by replace (5 + (len - 1)) with (4 + len) by lia.
    + exists r2. replace len with 1 by lia. change (4 + 1 - 5) with 0.
      by rewrite ztake_nonpos by lia.
Qed.

Lemma read_frame_encoded r t p rest :
  1 + zlen p <= MAX_FRAME ->
  pending r = frame_bytes t p ++ rest ->
  exists r', read_frame r = Ok (Some (t, p), r') /\ pending r' = rest.
Proof.
  intros Hp Hr. pose proof (read_frame_outcome r) as Hs. rewrite Hr in Hs.
  pose proof (zlen_frame_bytes t p) as Hl.
  assert (Hlen : be_val (ztake 4 (frame_bytes t p ++ rest)) = 1 + zlen p).
  { unfold frame_bytes. rewrite frame_len_small by done.
    rewrite <-app_assoc, ztake_app_exact by zlen_lia.
    apply be_val_u32. unfold in_width, MAX_FRAME in *.
    change (Z.shiftl 1 20) with 1048576 in *. zlen_lia. }
  unfold read_outcome in Hs. rewrite Hlen in Hs.
  rewrite (proj2 (Z.ltb_ge _ _)) in Hs by zlen_lia.
  rewrite (proj2 (Z.eqb_neq _ _)) in Hs by zlen_lia.
  rewrite (proj2 (Z.ltb_ge MAX_FRAME _)) in Hs by lia. cbn [orb] in Hs.
  rewrite (proj2 (Z.ltb_ge _ _)) in Hs by zlen_lia.
  destruct Hs as (r' & Hf & Hp'). exists r'.
  replace (4 + (1 + zlen p)) with (zlen (frame_bytes t p)) in * by lia.
  rewrite zdrop_app_exact in Hp' by done. split; [|done].
  rewrite Hf. do 3 f_equal. unfold zslice, frame_bytes.
  rewrite <-!app_assoc, !zdrop_app_exact by zlen_lia.
  rewrite (zdrop_app_ge 5) by zlen_lia. rewrite zlen_be_bytes.
  rewrite (zdrop_app_exact _ [t]) by done.
  by rewrite ztake_app_exact by zlen_lia.
Qed.
End reading.

(** A client that writes several frames, and one that reads frames until the
    stream ends. *)
Fixpoint write_frames `{Write W} (w : W) (fs : list (byte * bytes)) : result W ErrorKind :=
  match fs with
  | [] => Ok w
  | (t, p) :: fs => let? w := write_frame w t p in write_frames w fs
  end.

Fixpoint read_frames `{Read R} (fuel : nat) (r : R) : result (list (byte * bytes)) ErrorKind :=
  match fuel with
  | O => Err Other
  | S fuel =>
      let? (f, r) := read_frame r in
      match f with
      | None => Ok []
      | Some f => let? fs := read_frames fuel r in Ok (f :: fs)
      end
  end.

Definition frame_fits (f : byte * bytes) : Prop := 1 + zlen (snd f) <= MAX_FRAME.

Lemma write_frames_written `{HW : WriteLaws W} fs : forall w : W,
  exists w', write_frames w fs = Ok w' /\
             written w' = written w ++ concat (map (fun f => frame_bytes f.1 f.2) fs).
Proof.
  induction fs as [|[t p] fs IH]; intros w; simpl.
  - exists w. by rewrite app_nil_r.
  - destruct (write_frame_written w t p) as (w1 & -> & H1).
    destruct (IH w1) as (w2 & -> & H2). exists w2.
    rewrite H2, H1. by rewrite <-app_assoc.
Qed.

Lemma read_frames_encoded `{HR : ReadLaws R} fs : forall r : R,
  Forall frame_fits fs ->
  pending r = concat (map (fun f => frame_bytes f.1 f.2) fs) ->
  read_frames (S (length fs)) r = Ok fs.
Proof.
  induction fs as [|[t p] fs IH]; intros r Hfs Hr; simpl length.
  - simpl in *. pose proof (read_frame_outcome r) as Hs. rewrite Hr in Hs.
    simpl in Hs. by rewrite Hs.
  - apply Forall_cons_1 in Hfs as [Hf Hfs]. simpl map in Hr. simpl concat in Hr. change (read_frames (S (S (length fs))) r) with
      (let? (f, r) := read_frame r in
       match f with
       | None => Ok []
       | Some f => let? fs := read_frames (S (length fs)) r in Ok (f :: fs)
       end).
    destruct (read_frame_encoded r t p _ Hf Hr) as (r' & -> & Hr').
    by rewrite (IH r').
Qed.

Lemma slice_read_frame_outcome (buf : bytes) t p rest :
  read_frame buf = Ok (Some (t, p), rest) <->
  read_outcome buf = Ok (Some (t, p)) /\ rest = zdrop (4 + be_val (ztake 4 buf)) buf.
Proof.
  pose proof (read_frame_outcome (R:=bytes) buf) as Hs. simpl pending in Hs.
  split.
  - intros Hf. destruct (read_outcome buf) as [[f|]|e]; try congruence.
    destruct Hs as (r' & Hf' & Hr'). rewrite Hf in Hf'. by injection Hf' as -> ->.
  - intros [Ho ->]. rewrite Ho in Hs. by destruct Hs as (r' & -> & ->).
Qed.

(** ** Properties *)

(** any sequence of frames that fit, written one after the other to a
    sink that takes every byte, is read back frame by frame from a stream
    that holds what was written, and the stream then ends. *)
Theorem frames_roundtrip `{HW : WriteLaws W, HR : ReadLaws R} (w : W) fs :
  Forall frame_fits fs ->
  exists w', write_frames w fs = Ok w' /\
    forall r : R, pending r = zdrop (zlen (written w)) (written w') ->
      read_frames (S (length fs)) r = Ok fs.
Proof.
  intros Hfs. destruct (write_frames_written fs w) as (w' & Hw & Hb).
  exists w'. split; [done|]. intros r Hr. apply read_frames_encoded; [done|].
  by rewrite Hr, Hb, zdrop_app_exact.
Qed.

Lemma frames_roundtrip_witness :
  exists w', write_frames ([x42] : bytes) [(STDOUT, [x68; x69]); (EXIT, exit_payload 3)] = Ok w' /\
    forall r : bytes, pending r = zdrop (zlen (written ([x42] : bytes))) (written w') ->
      read_frames 3 r = Ok [(STDOUT, [x68; x69]); (EXIT, exit_payload 3)].
Proof.
  apply (frames_roundtrip (W:=bytes) (R:=bytes)).
  repeat constructor; vm_compute; congruence.
Defined.

(** a frame [read_frame] accepts is the encoding of that frame: the bytes
    consumed are exactly what [write_frame] sends for it, and its payload is
    below the frame limit. *)
Theorem read_frame_inverse `{HR : ReadLaws R} (r r' : R) t p :
  read_frame r = Ok (Some (t, p), r') ->
  pending r = frame_bytes t p ++ pending r' /\ frame_fits (t, p).
Proof.
  intros Hf. pose proof (read_frame_outcome r) as Hs.
  set (q := pending r) in *. unfold read_outcome in Hs.
  destruct (zlen q <? 4) eqn:E4; [congruence|]. bool_to_prop.
  set (len := be_val (ztake 4 q)) in *.
  destruct ((len =? 0) || (MAX_FRAME <? len)) eqn:Elen; [congruence|]. bool_to_prop.
  destruct (zlen q <? 4 + len) eqn:Etot; [congruence|]. bool_to_prop.
  destruct Hs as (r1 & Hf' & Hr1). rewrite Hf in Hf'. injection Hf' as Ht Hp <-.
  pose proof (be_val_range (ztake 4 q)) as Hlen. fold len in Hlen.
  assert (zlen p = len - 1) as Hpl by (subst p; rewrite zlen_slice; lia).
  unfold frame_fits. cbn [snd]. split; [|lia].
  unfold frame_bytes. rewrite frame_len_small, Hpl by lia.
  replace (1 + (len - 1)) with len by lia. rewrite Hr1.
  assert (be_bytes 4 len = ztake 4 q) as ->.
  { unfold len. replace 4%nat with (length (ztake 4 q)); [apply be_bytes_be_val|].
    apply Nat2Z.inj. change (Z.of_nat 4) with 4. fold (zlen (ztake 4 q)). zlen_lia. }
  destruct (znth_Some q 4) as [x Hx]; [lia|]. pose proof (znth_zdrop _ _ _ Hx) as Hd.
  rewrite Hd in Ht. simpl in Ht. subst x. change (4 + 1) with 5 in Hd.
  rewrite <-!app_assoc, <-(ztake_zdrop 4 q) at 1. f_equal. rewrite Hd. simpl. f_equal.
  subst p. unfold zslice. rewrite <-(ztake_zdrop (4 + len - 5) (zdrop 5 q)) at 1.
  f_equal. rewrite zdrop_zdrop by lia. f_equal. lia.
Qed.

Lemma read_frame_inverse_witness :
  read_frame ([x00; x00; x00; x02; x05; x07; x09] : bytes) = Ok (Some (EXIT, [x07]), [x09]) /\
  pending ([x00; x00; x00; x02; x05; x07; x09] : bytes) = frame_bytes EXIT [x07] ++ [x09].
Proof.
  assert (H : read_frame ([x00; x00; x00; x02; x05; x07; x09] : bytes)
              = Ok (Some (EXIT, [x07]), [x09])) by (vm_compute; reflexivity).
  split; [exact H|]. exact (proj1 (read_frame_inverse (R:=bytes) _ _ _ _ H)).
Defined.

(** the buffer parser and the stream reader agree. [try_parse] finds a
    frame in a buffer exactly when [read_frame] reads one from it, the
    payload is the slice between the offsets it returns, and the second
    offset is where the next frame starts. *)
Theorem try_parse_read_frame (buf : bytes) t start total :
  try_parse buf = Some (t, start, total) <->
  start = 5 /\ total = 4 + be_val (ztake 4 buf) /\
  read_frame buf = Ok (Some (t, zslice start total buf), zdrop total buf).
Proof.
  unfold try_parse. split.
  - destruct (zlen buf <? 5) eqn:E5; [done|]. bool_to_prop.
    set (len := be_val (ztake 4 buf)).
    destruct ((len =? 0) || (MAX_FRAME <? len)) eqn:El; [done|].
    destruct (zlen buf <? 4 + len) eqn:Et; [done|].
    destruct (znth buf 4) as [x|] eqn:Ex; [|done]. intros [= <- <- <-].
    split_and!; [done..|]. apply slice_read_frame_outcome. split; [|done].
    unfold read_outcome. fold len. rewrite El, Et.
    rewrite (proj2 (Z.ltb_ge _ _)) by lia. by rewrite (znth_zdrop _ _ _ Ex).
  - intros (-> & -> & Hf). apply slice_read_frame_outcome in Hf as [Hf _].
    unfold read_outcome in Hf. destruct (zlen buf <? 4) eqn:E4; [done|].
    set (len := be_val (ztake 4 buf)) in *.
    destruct ((len =? 0) || (MAX_FRAME <? len)) eqn:El; [done|].
    destruct (zlen buf <? 4 + len) eqn:Et; [done|]. bool_to_prop.
    pose proof (be_val_range (ztake 4 buf)) as Hlen. fold len in Hlen.
    rewrite (proj2 (Z.ltb_ge _ _)) by lia.
    destruct (znth_Some buf 4) as [x Hx]; [lia|]. rewrite Hx.
    rewrite (znth_zdrop _ _ _ Hx) in Hf. by injection Hf as ->.
Qed.

(** [write_frame] does not check the limit the reader enforces. A frame
    over it is sent whole, and the peer refuses it as invalid data. *)
Theorem oversized_frame_rejected `{HW : WriteLaws W, HR : ReadLaws R} (w : W) t p :
  MAX_FRAME < 1 + zlen p < 2 ^ 32 ->
  exists w', write_frame w t p = Ok w' /\
    forall r : R, pending r = zdrop (zlen (written w)) (written w') ->
      read_frame r = Err InvalidData.
Proof.
  intros Hp. destruct (write_frame_written w t p) as (w' & Hw & Hb).
  exists w'. split; [done|]. intros r Hr. rewrite Hb, zdrop_app_exact in Hr by done.
  pose proof (read_frame_outcome r) as Hs. rewrite Hr in Hs. unfold read_outcome in Hs.
  assert (Hlen : be_val (ztake 4 (frame_bytes t p)) = 1 + zlen p).
  { unfold frame_bytes. rewrite (wrap_small 32 (zlen p)) by (unfold in_width; zlen_lia).
    unfold wrapping_add. rewrite wrap_small by (unfold in_width; zlen_lia).
    rewrite ztake_app_exact by zlen_lia. apply be_val_u32. unfold in_width. zlen_lia. }
  rewrite Hlen in Hs. pose proof (zlen_frame_bytes t p).
  rewrite (proj2 (Z.ltb_ge _ _)) in Hs by zlen_lia.
  rewrite (proj2 (Z.ltb_lt MAX_FRAME _)), orb_true_r in Hs by lia. done.
Qed.

Lemma oversized_frame_rejected_witness :
  exists w', write_frame ([] : bytes) STDOUT (replicate (Z.to_nat MAX_FRAME) x00) = Ok w' /\
    forall r : bytes, pending r = zdrop (zlen (written ([] : bytes))) (written w') ->
      read_frame r = Err InvalidData.
Proof.
  apply (oversized_frame_rejected (W:=bytes) (R:=bytes)).
  rewrite zlen_replicate. change MAX_FRAME with 1048576. lia.
Defined.

(** a stream that ends inside the length prefix reads as a clean end, not
    as an error. *)
Theorem truncated_length_is_end `{HR : ReadLaws R} (r : R) :
  zlen (pending r) < 4 -> read_frame r = Ok (None, r).
Proof.
  intros Hp. pose proof (read_frame_outcome r) as Hs. unfold read_outcome in Hs.
  by rewrite (proj2 (Z.ltb_lt _ _)) in Hs.
Qed.

Lemma truncated_length_is_end_witness :
  zlen (pending ([x00; x00; x00] : bytes)) < 4 /\
  read_frame ([x00; x00; x00] : bytes) = Ok (None, [x00; x00; x00]).
Proof. split; [done|]. apply (truncated_length_is_end (R:=bytes)). done. Defined.

(** a RESIZE payload carries any pair of 16-bit sizes and an EXIT payload
    any 32-bit signed code, whatever follows them in the buffer. *)
Theorem control_payloads_roundtrip rows cols code rest :
  in_width 16 rows -> in_width 16 cols -> - 2 ^ 31 <= code < 2 ^ 31 ->
  parse_resize (resize_payload rows cols ++ rest) = Some (rows, cols) /\
  parse_exit_code (exit_payload code ++ rest) = Some code.
Proof.
  intros Hr Hc He. unfold parse_resize, resize_payload, parse_exit_code, exit_payload.
  rewrite !(proj2 (Z.ltb_ge _ _)) by zlen_lia. split.
  - unfold zslice. rewrite zdrop_nonpos, <-app_assoc, ztake_app_exact by zlen_lia.
    rewrite zdrop_app_exact, ztake_app_exact by zlen_lia. by rewrite !be_val_u16.
  - unfold zslice. rewrite zdrop_nonpos, ztake_app_exact by zlen_lia.
    rewrite be_val_u32 by (apply wrap_in_width; lia). f_equal.
    unfold as_i32, wrap. destruct (Z.leb_spec 0 code).
    + rewrite Z.mod_small by lia. by rewrite (proj2 (Z.ltb_lt _ _)) by lia.
    + rewrite <-(Z_mod_plus_full code 1), Z.mod_small by lia.
      rewrite (proj2 (Z.ltb_ge _ _)) by lia. lia.
Qed.

Lemma control_payloads_roundtrip_witness :
  parse_resize (resize_payload 24 80 ++ [x00]) = Some (24, 80) /\
  parse_exit_code (exit_payload (-1) ++ [x00]) = Some (-1).
Proof. apply control_payloads_roundtrip; unfold in_width; lia. Defined.

(** no two message types of the protocol share a code. *)
Theorem message_types_distinct : NoDup message_types.
Proof. apply (bool_decide_unpack _). vm_compute. reflexivity. Qed.
