(* ===== verification/Hello.v ===== *)
(** * The identity handshake and the restore message

    [crates/shuru-proto/src/hello.rs]: the host proves it knows the token of
    the guest before anything else is read, the guest answers with its
    instance and the protocol version, and a restored guest takes a new
    identity from a fixed size [Restore] record. *)

From Stdlib Require Import Strings.Byte.
From S2P Require Import Prelude Io Frame.

Definition PROTOCOL_VERSION : Z := 7.

Record Identity := MkIdentity { token : bytes; instance : bytes }.

(** The array types of the fields. *)
Definition Identity_wf (i : Identity) : Prop :=
  zlen (token i) = 32 /\ zlen (instance i) = 16.

#[export] Instance Identity_eq_dec : EqDecision Identity.
Proof. solve_decision. Defined.

Definition rejected : ErrorKind := PermissionDenied.

(** [read_hello::<N>]: a frame of a known kind and length, read without
    trusting the length the peer sent. *)
Definition read_hello `{Read T} (N : Z) (stream : T) (kind : byte)
    : result (bytes * T) ErrorKind :=
  let? (header, stream) := read_exact stream 5 in
  if negb (be_val (ztake 4 header) =? wrapping_add 32 (wrap 32 N) 1)
     || negb (bool_decide (znth header 4 = Some kind))
  then Err rejected else
  read_exact stream N.

(** The outcome and the stream after it. *)
Definition Identity_accept `{Read T, Write T} (self : Identity) (stream : T)
    : result unit ErrorKind * T :=
  match read_hello 32 stream HELLO with
  | Err e => (Err e, stream)
  | Ok (tok, stream) =>
      if negb (bool_decide (token self = tok)) then (Err rejected, stream) else
      let reply := instance self ++ le_bytes 4 PROTOCOL_VERSION in
      match write_frame stream HELLO_OK reply with
      | Ok stream => (Ok tt, stream)
      | Err e => (Err e, stream)
      end
  end.

(** [connect] in two halves, so that the peer can act between them: the
    host sends its token, and then reads the answer. *)
Definition Identity_connect_send `{Write T} (self : Identity) (stream : T)
    : result T ErrorKind :=
  write_frame stream HELLO (token self).

Definition Identity_connect_recv `{Read T} (self : Identity) (stream : T)
    : result unit ErrorKind :=
  let? (reply, _) := read_hello 20 stream HELLO_OK in
  if negb (bool_decide (ztake 16 reply = instance self))
     || negb (bool_decide (zdrop 16 reply = le_bytes 4 PROTOCOL_VERSION))
  then Err rejected else Ok tt.

Definition Identity_connect `{Read T, Write T} (self : Identity) (stream : T)
    : result unit ErrorKind :=
  let? stream := Identity_connect_send self stream in
  Identity_connect_recv self stream.

(** ** Restore *)

Record Restore := MkRestore {
  identity : Identity;
  realtime_ns : Z;
  seed : bytes;
}.

Definition Restore_LEN : Z := 32 + 16 + 8 + 32.

Definition as_i64 (z : Z) : Z := if z <? 2 ^ 63 then z else z - 2 ^ 64.

Definition Restore_encode (r : Restore) : bytes :=
  token (identity r) ++ instance (identity r)
  ++ le_bytes 8 (wrap 64 (realtime_ns r)) ++ seed r.

Definition Restore_decode (payload : bytes) : option Restore :=
  if negb (zlen payload =? Restore_LEN) then None else
  Some {| identity := {| token := zslice 0 32 payload;
                         instance := zslice 32 48 payload |};
          realtime_ns := as_i64 (le_val (zslice 48 56 payload));
          seed := zslice 56 Restore_LEN payload |}.

Definition Restore_wf (r : Restore) : Prop :=
  Identity_wf (identity r) /\ - 2 ^ 63 <= realtime_ns r < 2 ^ 63 /\ zlen (seed r) = 32.

(** ** Lemmas *)

Section hello.
Context `{HR : ReadLaws T}.
Implicit Types s : T.

(** [read_hello] accepts exactly the frame [write_frame] sends for a
    payload of that length. *)
Lemma read_hello_spec N s kind p s' :
  0 <= N < 2 ^ 31 ->
  read_hello N s kind = Ok (p, s') ->
  zlen p = N /\ pending s = frame_bytes kind p ++ pending s'.
Proof.
  intros HN. unfold read_hello. set (q := pending s).
  destruct (decide (5 <= zlen q)) as [Hq|Hq];
    [|rewrite read_exact_eof; [done|fold q; lia]].
  destruct (read_exact_ok s 5) as (s1 & -> & P1); [fold q; lia|]. fold q. fold q in P1.
  unfold wrapping_add. rewrite (wrap_small 32 N) by (unfold in_width; lia).
  rewrite wrap_small by (unfold in_width; lia).
  case_test; [done|]. bool_to_prop.
  rename H0 into Hlen, H1 into Hkind. rewrite ztake_ztake in Hlen. change (Z.min 4 5) with 4 in Hlen.
  destruct (decide (N <= zlen (pending s1))) as [HN'|HN'];
    [|rewrite read_exact_eof; [done|lia]].
  destruct (read_exact_ok s1 N) as (s2 & -> & P2); [lia|].
  intros [= <- <-]. split; [zlen_lia|].
  unfold frame_bytes. replace (zlen (ztake N (pending s1))) with N by zlen_lia.
  unfold wrapping_add. rewrite (wrap_small 32 N) by (unfold in_width; lia).
  rewrite wrap_small by (unfold in_width; lia).
  replace (1 + N) with (N + 1) by lia. rewrite <-Hlen.
  assert (be_bytes 4 (be_val (ztake 4 q)) = ztake 4 q) as ->.
  { replace 4%nat with (length (ztake 4 q)) at 1; [apply be_bytes_be_val|].
    apply Nat2Z.inj. change (Z.of_nat 4) with 4. fold (zlen (ztake 4 q)). zlen_lia. }
  rewrite P2, <-!app_assoc, ztake_zdrop, P1.
  rewrite <-(ztake_zdrop 4 q) at 1. f_equal.
  pose proof (znth_zdrop _ _ _ Hkind) as Hz. rewrite zdrop_ztake in Hz by lia.
  rewrite <-(ztake_zdrop (5 - 4) (zdrop 4 q)). rewrite Hz, zdrop_zdrop by lia.
  rewrite zdrop_ge by zlen_lia. done.
Qed.

Lemma read_hello_frame s kind p rest :
  zlen p < 2 ^ 31 -> pending s = frame_bytes kind p ++ rest ->
  exists s', read_hello (zlen p) s kind = Ok (p, s') /\ pending s' = rest.
Proof.
  intros Hp Hs. unfold read_hello. pose proof (zlen_nonneg p).
  destruct (read_exact_ok s 5) as (s1 & -> & P1).
  { rewrite Hs, zlen_app, zlen_frame_bytes. zlen_lia. }
  rewrite Hs in *. unfold frame_bytes in *.
  set (L := wrapping_add 32 1 (wrap 32 (zlen p))) in *.
  assert (HL : L = zlen p + 1).
  { unfold L, wrapping_add. rewrite (wrap_small 32 (zlen p)), wrap_small; unfold in_width; lia. }
  replace ((be_bytes 4 L ++ [kind] ++ p) ++ rest)
    with ((be_bytes 4 L ++ [kind]) ++ p ++ rest) in * by (by rewrite <-!app_assoc).
  rewrite zdrop_app_exact in P1 by zlen_lia.
  rewrite (ztake_app_exact 5) by zlen_lia.
  rewrite ztake_app_exact, be_val_u32 by (unfold in_width; zlen_lia).
  assert (wrapping_add 32 (wrap 32 (zlen p)) 1 = L) as ->.
  { unfold L, wrapping_add. f_equal. lia. }
  rewrite Z.eqb_refl. rewrite (bool_decide_eq_true_2 (znth _ _ = _)).
  2: { unfold znth. cbn -[be_bytes]. rewrite lookup_app_r; rewrite ?length_reverse, ?length_le_bytes; done. }
  cbn [negb orb]. destruct (read_exact_ok s1 (zlen p)) as (s2 & -> & P2).
  { rewrite P1. zlen_lia. }
  exists s2. rewrite P2, P1, ztake_app_exact, zdrop_app_exact by done. done.
Qed.
End hello.

Lemma read_hello_output N (s s' : Duplex) kind p :
  read_hello N s kind = Ok (p, s') -> output s' = output s.
Proof.
  unfold read_hello. destruct (read_exact s 5) as [[h s1]|] eqn:E; [|done].
  case_test; [done|]. intros H.
  rewrite (duplex_read_output _ _ _ _ H). by eapply duplex_read_output.
Qed.

Definition hello_reply (i : Identity) : bytes := instance i ++ le_bytes 4 PROTOCOL_VERSION.

Lemma duplex_write_frame (s : Duplex) t p :
  write_frame s t p = Ok (MkDuplex (input s) (output s ++ frame_bytes t p)).
Proof. done. Qed.

(** A refused peer learns nothing: the guest has written nothing to it. *)
Lemma accept_err_silent i (s s' : Duplex) e :
  Identity_accept i s = (Err e, s') -> output s' = output s.
Proof.
  unfold Identity_accept. destruct (read_hello 32 s HELLO) as [[tok s1]|] eqn:E.
  - case_test; [|done]. intros [= _ <-]. by eapply read_hello_output.
  - by intros [= _ <-].
Qed.

Lemma accept_iff i (s s' : Duplex) :
  Identity_wf i ->
  Identity_accept i s = (Ok tt, s') <->
  input s = frame_bytes HELLO (token i) ++ input s' /\
  output s' = output s ++ frame_bytes HELLO_OK (hello_reply i).
Proof.
  intros [Ht Hi]. unfold Identity_accept. split.
  - destruct (read_hello 32 s HELLO) as [[tok s1]|] eqn:E; [|done].
    pose proof (read_hello_output _ _ _ _ _ E) as Ho.
    apply read_hello_spec in E as [_ E]; [|lia].
    case_test; [done|]. bool_to_prop. subst tok.
    rewrite duplex_write_frame. intros [= <-]. simpl in *. by rewrite Ho.
  - intros [Hin Hout].
    destruct (read_hello_frame (T:=Duplex) s HELLO (token i) (input s'))
      as (s1 & E & Hp); [lia|done|]. rewrite Ht in E. rewrite E.
    rewrite bool_decide_eq_true_2 by done. cbn [negb]. rewrite duplex_write_frame.
    rewrite (read_hello_output _ _ _ _ _ E). simpl in Hp. rewrite Hp.
    destruct s'; simpl in *. by rewrite Hout.
Qed.

Lemma connect_recv_iff i (s : Duplex) :
  Identity_wf i ->
  Identity_connect_recv i s = Ok tt <->
  exists rest, input s = frame_bytes HELLO_OK (hello_reply i) ++ rest.
Proof.
  intros [Ht Hi]. unfold Identity_connect_recv. split.
  - destruct (read_hello 20 s HELLO_OK) as [[reply s1]|] eqn:E; [|done].
    apply read_hello_spec in E as [_ E]; [|lia].
    case_test; [done|]. bool_to_prop. intros _. exists (input s1).
    assert (reply = hello_reply i) as ->; [|done].
    unfold hello_reply. rewrite <-(ztake_zdrop 16 reply). congruence.
  - intros [rest Hin].
    destruct (read_hello_frame (T:=Duplex) s HELLO_OK (hello_reply i) rest)
      as (s1 & E & Hp); [unfold hello_reply; zlen_lia|done|].
    replace (zlen (hello_reply i)) with 20 in E by (unfold hello_reply; zlen_lia).
    rewrite E. unfold hello_reply.
    rewrite ztake_app_exact, zdrop_app_exact by done.
    by rewrite !bool_decide_eq_true_2.
Qed.

Lemma frame_bytes_inj t p1 p2 r1 r2 :
  zlen p1 = zlen p2 ->
  frame_bytes t p1 ++ r1 = frame_bytes t p2 ++ r2 -> p1 = p2 /\ r1 = r2.
Proof.
  intros Hl. unfold frame_bytes. rewrite Hl, <-!app_assoc. intros H.
  apply app_inv_head, app_inv_head in H. by apply app_inj_1 in H; [|unfold zlen in *; lia].
Qed.

(** ** Properties *)

(** C9: the handshake authenticates both ends. A host and a guest with well
    formed identities, connected by two streams, agree: the guest lets the
    host in exactly when the host sent the token of the guest, and the host
    takes the guest for its own exactly when, besides, the instances are the
    same. *)
Theorem handshake_authenticates host guest rest :
  Identity_wf host -> Identity_wf guest ->
  exists sent, Identity_connect_send host (MkDuplex [] []) = Ok sent /\
    let '(accepted, s) := Identity_accept guest (MkDuplex (output sent ++ rest) []) in
    (accepted = Ok tt <-> token host = token guest) /\
    (Identity_connect_recv host (MkDuplex (output s) []) = Ok tt <-> host = guest).
Proof.
  intros Hh Hg. eexists. split; [apply duplex_write_frame|]. cbn [input output app].
  destruct (Identity_accept guest _) as [acc s] eqn:E.
  rewrite connect_recv_iff by done. cbn [input].
  destruct Hh as [Hht Hhi], Hg as [Hgt Hgi]. destruct acc as [[]|e].
  - apply accept_iff in E as [Hin Hout]; [|done]. cbn [input output] in *.
    rewrite app_nil_l in Hout.
    apply frame_bytes_inj in Hin as [Htok _]; [|lia]. split; [done|]. split.
    + intros [r Hr]. rewrite Hout, <-(app_nil_r (frame_bytes _ (hello_reply guest))) in Hr.
      apply frame_bytes_inj in Hr as [Hr _]; [|unfold hello_reply; zlen_lia].
      apply app_inj_1 in Hr as [Hr _]; [|unfold zlen in *; lia].
      destruct host, guest; simpl in *; congruence.
    + intros ->. exists []. by rewrite app_nil_r.
  - assert (token host <> token guest) as Hne.
    { intros Heq. assert (HE : Identity_accept guest
        (MkDuplex (frame_bytes HELLO (token host) ++ rest) [])
        = (Ok tt, MkDuplex rest (frame_bytes HELLO_OK (hello_reply guest)))).
      { apply accept_iff; [done|]. cbn [input output]. by rewrite Heq, app_nil_l. }
      congruence. }
    split; [split; [done|congruence]|].
    rewrite (accept_err_silent _ _ _ _ E). cbn [output]. split.
    + intros [r Hr]. apply (f_equal zlen) in Hr.
      rewrite zlen_app, zlen_frame_bytes in Hr. zlen_lia.
    + intros ->. done.
Qed.

Definition witness_identity (b : byte) : Identity :=
  MkIdentity (replicate 32 b) (replicate 16 x07).

Lemma handshake_authenticates_witness :
  exists sent, Identity_connect_send (witness_identity x2a) (MkDuplex [] []) = Ok sent /\
    let '(accepted, s) := Identity_accept (witness_identity x2a)
                            (MkDuplex (output sent ++ [x00]) []) in
    (accepted = Ok tt <-> token (witness_identity x2a) = token (witness_identity x2a)) /\
    (Identity_connect_recv (witness_identity x2a) (MkDuplex (output s) []) = Ok tt
     <-> witness_identity x2a = witness_identity x2a).
Proof. apply handshake_authenticates; split; reflexivity. Defined.

(** a peer the guest refuses gets no byte from it, whatever it sent. *)
Theorem refused_peer_gets_nothing i (s : Duplex) :
  (Identity_accept i s).1 <> Ok tt -> output (Identity_accept i s).2 = output s.
Proof.
  destruct (Identity_accept i s) as [[[]|e] s'] eqn:E; [done|].
  intros _. by eapply accept_err_silent.
Qed.

Lemma refused_peer_gets_nothing_witness :
  output (Identity_accept (witness_identity x2a)
            (MkDuplex (frame_bytes HELLO (replicate 32 x2b)) [x01])).2 = [x01].
Proof.
  apply (refused_peer_gets_nothing (witness_identity x2a)
           (MkDuplex (frame_bytes HELLO (replicate 32 x2b)) [x01])).
  vm_compute. congruence.
Defined.

(** a restore record survives its wire form, and the wire form is the
    only payload that decodes to it: in particular no other length does. *)
Theorem restore_roundtrip r payload :
  Restore_wf r -> Restore_decode payload = Some r <-> payload = Restore_encode r.
Proof.
  intros ((Ht & Hi) & Hn & Hs). unfold Restore_decode, Restore_encode, Restore_LEN.
  change (32 + 16 + 8 + 32) with 88. split.
  - destruct (zlen payload =? 88) eqn:E; [|done]. bool_to_prop. intros [= <-]. cbn [identity token instance seed realtime_ns] in *.
    rewrite <-(ztake_zdrop 32 payload) at 1. f_equal.
    rewrite <-(ztake_zdrop (48 - 32) (zdrop 32 payload)) at 1. f_equal.
    rewrite zdrop_zdrop by lia. change (32 + (48 - 32)) with 48.
    rewrite <-(ztake_zdrop (56 - 48) (zdrop 48 payload)) at 1.
    rewrite zdrop_zdrop by lia. change (48 + (56 - 48)) with 56. f_equal.
    + fold (zslice 48 56 payload). set (q := zslice 48 56 payload).
      assert (Hq : zlen q = 8) by (unfold q; rewrite zlen_slice; lia).
      pose proof (le_val_range q) as Hv. rewrite Hq in Hv.
      assert (wrap 64 (as_i64 (le_val q)) = le_val q) as ->.
      { unfold as_i64, wrap. case_test; bool_to_prop; [apply Z.mod_small; lia|].
        rewrite <-(Z_mod_plus_full _ 1), Z.mod_small; lia. }
      replace 8%nat with (length q) by (unfold zlen in Hq; lia).
      by rewrite le_bytes_le_val.
    + unfold zslice. by rewrite ztake_ge by zlen_lia.
  - intros ->. rewrite (proj2 (Z.eqb_eq _ _)) by zlen_lia. cbn [negb].
    unfold zslice. rewrite zdrop_nonpos, ztake_app_exact by lia.
    rewrite (zdrop_app_exact 32), ztake_app_exact by lia.
    rewrite (app_assoc (token _) (instance _)), (zdrop_app_exact 48), ztake_app_exact by zlen_lia.
    rewrite app_assoc, (zdrop_app_exact 56), ztake_ge by zlen_lia.
    rewrite le_val_le_bytes. change (256 ^ Z.of_nat 8) with (2 ^ 64).
    fold (wrap 64 (wrap 64 (realtime_ns r))). rewrite wrap_wrap.
    destruct r as [[t i] ns sd]; simpl in *. do 2 f_equal.
    unfold as_i64, wrap. destruct (Z.leb_spec 0 ns).
    + rewrite Z.mod_small by lia. by rewrite (proj2 (Z.ltb_lt _ _)) by lia.
    + rewrite <-(Z_mod_plus_full ns 1), Z.mod_small by lia.
      rewrite (proj2 (Z.ltb_ge _ _)) by lia. lia.
Qed.

Definition witness_restore : Restore :=
  MkRestore (witness_identity x2a) (-5) (replicate 32 x09).

Lemma restore_roundtrip_witness :
  Restore_decode (Restore_encode witness_restore) = Some witness_restore.
Proof.
  apply restore_roundtrip; [|reflexivity].
  split; [split; reflexivity|]. split; [|reflexivity].
  cbn [witness_restore realtime_ns]. lia.
Defined.
