(* ===== verification/Ring.v ===== *)
(** * The output ring of an exec session

    [crates/shuru-guest/src/sessions/ring.rs]: the newest bytes of stdout and
    stderr as one sequence, each at an offset counted from the start of the
    session, with the stream of each run kept apart from the bytes.

    The abstract view is the whole output so far, [hist], a list of bytes
    tagged with their stream; [ring_inv] says that a ring holds a suffix of
    it. Offsets are [u64] counters of bytes written; they are not wrapped,
    which is faithful up to [2^64] bytes of output. *)

From Stdlib Require Import Strings.Byte.
From S2P Require Import Prelude Io Frame.

Definition BUFFER : Z := Z.shiftl 1 20.
Definition MAX_RUNS : Z := 16 * 1024.

Record Ring := MkRing {
  ring_bytes : bytes;
  ring_runs : list (byte * Z);
  ring_start : Z;
  ring_end : Z;
}.

Definition Ring_new : Ring := MkRing [] [] 0 0.

(** The [while left > 0] loop of [drop_front] over the runs. *)
Fixpoint drop_runs (runs : list (byte * Z)) (left : Z) : list (byte * Z) :=
  match runs with
  | [] => []
  | (s, len) :: rest =>
      if left <=? 0 then runs
      else if len <=? left then drop_runs rest (left - len)
      else (s, len - left) :: rest
  end.

Definition drop_front (self : Ring) (n : Z) : Ring :=
  MkRing (zdrop n (ring_bytes self)) (drop_runs (ring_runs self) n)
         (ring_start self + n) (ring_end self).

(** [match self.runs.back_mut()]: extend the last run or open a new one. *)
Fixpoint push_run (runs : list (byte * Z)) (stream : byte) (n : Z) : list (byte * Z) :=
  match runs with
  | [] => [(stream, n)]
  | [(s, len)] => if bool_decide (s = stream) then [(s, len + n)] else [(s, len); (stream, n)]
  | run :: rest => run :: push_run rest stream n
  end.

(** [while self.runs.len() > MAX_RUNS]: one run goes per iteration, so the
    number of runs is fuel enough. *)
Fixpoint trim_runs (fuel : nat) (self : Ring) : Ring :=
  match fuel with
  | O => self
  | S fuel =>
      if MAX_RUNS <? zlen (ring_runs self) then
        match ring_runs self with
        | [] => self
        | (_, oldest) :: _ => trim_runs fuel (drop_front self oldest)
        end
      else self
  end.

Definition Ring_push (self : Ring) (stream : byte) (data : bytes) : Ring :=
  if bool_decide (data = []) then self else
  let self := MkRing (ring_bytes self ++ data)
                     (push_run (ring_runs self) stream (zlen data))
                     (ring_start self) (ring_end self + zlen data) in
  let over := saturating_sub (ring_end self - ring_start self) BUFFER in
  let self := drop_front self over in
  trim_runs (length (ring_runs self)) self.

Definition Ring_room (self : Ring) (stream : byte) (keep : Z) : Z :=
  let room := saturating_sub (keep + BUFFER) (ring_end self) in
  let new_run := negb (bool_decide (fst <$> last (ring_runs self) = Some stream)) in
  match ring_runs self with
  | (_, first) :: _ =>
      if new_run && (MAX_RUNS <=? zlen (ring_runs self))
         && (keep <? ring_start self + first)
      then 0 else room
  | [] => room
  end.

(** [as_slices] splits the deque at its wrap point [cut], which depends on
    the allocation and is arbitrary here. *)
Definition Ring_copy (cut : Z) (self : Ring) (from len : Z) (out : bytes) : bytes :=
  let a := ztake cut (ring_bytes self) in
  let b := zdrop cut (ring_bytes self) in
  let end_ := from + len in
  let out := if from <? zlen a then out ++ zslice from (Z.min end_ (zlen a)) a else out in
  if zlen a <? end_
  then out ++ zslice (saturating_sub from (zlen a)) (end_ - zlen a) b
  else out.

(** The [while run_end > at && left > 0] loop of [frames]. *)
Fixpoint frames_run (fuel : nat) (cut : Z) (self : Ring) (stream : byte)
    (run_start len at_ left_ : Z) (out : bytes) : Z * Z * bytes :=
  match fuel with
  | O => (at_, left_, out)
  | S fuel =>
      if (at_ <? run_start + len) && (0 <? left_) then
        let skip := at_ - run_start in
        let take := Z.min (Z.min (len - skip) left_) (MAX_FRAME - 1) in
        let out := out ++ be_bytes 4 (wrapping_add 32 (wrap 32 take) 1) ++ [stream] in
        let out := Ring_copy cut self (run_start - ring_start self + skip) take out in
        frames_run fuel cut self stream run_start len (at_ + take) (left_ - take) out
      else (at_, left_, out)
  end.

(** Every iteration but the last takes [MAX_FRAME - 1] bytes of the run. *)
Definition frames_fuel (len : Z) : nat := Z.to_nat (len / (MAX_FRAME - 1) + 2).

Fixpoint frames_loop (runs : list (byte * Z)) (cut : Z) (self : Ring)
    (run_start at_ left_ : Z) (out : bytes) : Z * bytes :=
  match runs with
  | [] => (at_, out)
  | (stream, len) :: rest =>
      if left_ =? 0 then (at_, out) else
      let '(at_, left_, out) :=
        frames_run (frames_fuel len) cut self stream run_start len at_ left_ out in
      frames_loop rest cut self (run_start + len) at_ left_ out
  end.

Definition Ring_frames (cut : Z) (self : Ring) (from max : Z) (out : bytes) : Z * bytes :=
  frames_loop (ring_runs self) cut self (ring_start self)
              (Z.max from (ring_start self)) max out.

(** ** The abstract view *)

Definition tag (stream : byte) (data : bytes) : list (byte * byte) :=
  map (pair stream) data.

(** The bytes of a ring with their streams. *)
Fixpoint tagged (runs : list (byte * Z)) (bs : bytes) : list (byte * byte) :=
  match runs with
  | [] => []
  | (s, n) :: rest => tag s (ztake n bs) ++ tagged rest (zdrop n bs)
  end.

Fixpoint total (runs : list (byte * Z)) : Z :=
  match runs with
  | [] => 0
  | (_, n) :: rest => n + total rest
  end.

Definition run_pos (r : byte * Z) : Prop := 0 < snd r.

Record ring_inv (r : Ring) (hist : list (byte * byte)) : Prop := {
  inv_end : ring_end r = zlen hist;
  inv_start : 0 <= ring_start r <= ring_end r;
  inv_pos : Forall run_pos (ring_runs r);
  inv_total : total (ring_runs r) = zlen (ring_bytes r);
  inv_len : zlen (ring_bytes r) = ring_end r - ring_start r;
  inv_tagged : tagged (ring_runs r) (ring_bytes r) = zdrop (ring_start r) hist;
  inv_buffer : ring_end r - ring_start r <= BUFFER;
  inv_runs : zlen (ring_runs r) <= MAX_RUNS;
}.

(** ** Runs *)

Lemma zlen_tag s d : zlen (tag s d) = zlen d.
Proof. unfold zlen, tag. by rewrite length_map. Qed.

Lemma tag_app s d1 d2 : tag s (d1 ++ d2) = tag s d1 ++ tag s d2.
Proof. apply map_app. Qed.

Lemma ztake_tag n s d : ztake n (tag s d) = tag s (ztake n d).
Proof. unfold ztake, tag. apply firstn_map. Qed.

Lemma zdrop_tag n s d : zdrop n (tag s d) = tag s (zdrop n d).
Proof. unfold zdrop, tag. apply skipn_map. Qed.

#[local] Hint Rewrite zlen_tag : zlen.

Lemma total_nonneg runs : Forall run_pos runs -> 0 <= total runs.
Proof. induction 1 as [|[s n] rest Hp _ IH]; unfold run_pos in *; simpl in *; lia. Qed.

Lemma zlen_tagged runs : forall bs,
  Forall run_pos runs -> total runs = zlen bs -> zlen (tagged runs bs) = zlen bs.
Proof.
  induction runs as [|[s n] rest IH]; intros bs Hp Ht; simpl in *.
  - by rewrite <-Ht.
  - apply Forall_cons_1 in Hp as [Hn Hp]. unfold run_pos in Hn. simpl in Hn.
    pose proof (total_nonneg _ Hp). rewrite zlen_app, IH by (done || zlen_lia). zlen_lia.
Qed.

Lemma push_run_spec runs s d : forall bs,
  Forall run_pos runs -> total runs = zlen bs -> 0 < zlen d ->
  let runs' := push_run runs s (zlen d) in
  Forall run_pos runs' /\ total runs' = total runs + zlen d /\
  tagged runs' (bs ++ d) = tagged runs bs ++ tag s d.
Proof.
  induction runs as [|[s0 n] rest IH]; intros bs Hp Ht Hd; simpl in *.
  - destruct bs as [|b bs]; [|zlen_lia]. simpl.
    split_and!; [by repeat constructor|lia|]. by rewrite ztake_ge, app_nil_r by lia.
  - apply Forall_cons_1 in Hp as [Hn Hp]. unfold run_pos in Hn; simpl in Hn.
    destruct rest as [|run rest].
    + simpl in Ht. rewrite Z.add_0_r in Ht. case_bool_decide; simpl; subst.
      * split_and!; [by repeat constructor; unfold run_pos; simpl; lia|lia|].
        rewrite (ztake_ge _ bs), (ztake_ge _ (bs ++ d)) by zlen_lia.
        by rewrite !app_nil_r, tag_app.
      * split_and!; [by repeat constructor|lia|].
        rewrite ztake_app_exact, zdrop_app_exact by done.
        rewrite (ztake_ge _ bs), (ztake_ge _ d) by lia. by rewrite !app_nil_r.
    + pose proof (total_nonneg _ Hp).
      destruct (IH (zdrop n bs)) as (Hp' & Ht' & Htag); [done|zlen_lia|done|].
      split_and!; [by constructor| |].
      * cbn [total]. rewrite Ht'. cbn [total]. lia.
      * cbn [tagged]. rewrite ztake_app_le, zdrop_app_le by lia.
        rewrite Htag. by rewrite <-app_assoc.
Qed.

Lemma zlen_push_run runs s n : zlen (push_run runs s n) <= zlen runs + 1.
Proof.
  induction runs as [|[s0 m] [|run rest] IH]; simpl in *; [done| |].
  - case_bool_decide; zlen_lia.
  - rewrite !(zlen_cons (s0, m)). lia.
Qed.

Lemma drop_runs_spec runs : forall bs n,
  Forall run_pos runs -> total runs = zlen bs -> 0 <= n <= total runs ->
  let runs' := drop_runs runs n in
  Forall run_pos runs' /\ total runs' = total runs - n /\ zlen runs' <= zlen runs /\
  tagged runs' (zdrop n bs) = zdrop n (tagged runs bs).
Proof.
  induction runs as [|[s m] rest IH]; intros bs n Hp Ht Hn; cbn [drop_runs].
  { simpl in *. destruct bs; [|zlen_lia]. split_and!; [done|lia|lia|].
    by rewrite !zdrop_nonpos by lia. }
  destruct (n <=? 0) eqn:E0; bool_to_prop.
  { rewrite !zdrop_nonpos by lia. split_and!; [done|lia|lia|done]. }
  apply Forall_cons_1 in Hp as [Hm Hp]. unfold run_pos in Hm.
  cbn [total tagged snd] in *. pose proof (total_nonneg _ Hp).
  destruct (m <=? n) eqn:Em; bool_to_prop.
  - destruct (IH (zdrop m bs) (n - m)) as (H1 & H2 & H3 & H4);
      [done|zlen_lia|lia|]. split_and!; [done|lia|zlen_lia|].
    rewrite zdrop_app_ge by zlen_lia.
    rewrite zlen_tag, zlen_take. replace (n - Z.max 0 (Z.min m (zlen bs))) with (n - m) by lia.
    rewrite <-H4, zdrop_zdrop by lia. do 2 f_equal. lia.
  - split_and!; [constructor; [unfold run_pos; simpl; lia|done]|simpl; lia|zlen_lia|].
    cbn [tagged]. rewrite zdrop_app_le by zlen_lia.
    rewrite zdrop_tag, zdrop_ztake, zdrop_zdrop by lia. do 3 f_equal. lia.
Qed.

(** Dropping the oldest run removes that run and nothing else. *)
Lemma drop_runs_first s m rest : 0 < m -> drop_runs ((s, m) :: rest) m = rest.
Proof.
  intros. simpl. rewrite (proj2 (Z.leb_gt _ _)), Z.leb_refl, Z.sub_diag by lia.
  by destruct rest as [|[]].
Qed.

(** The invariant without its two size bounds, which hold at the end of a
    push but not in its middle. *)
Record ring_pre (r : Ring) (hist : list (byte * byte)) : Prop := {
  pre_end : ring_end r = zlen hist;
  pre_start : 0 <= ring_start r <= ring_end r;
  pre_pos : Forall run_pos (ring_runs r);
  pre_total : total (ring_runs r) = zlen (ring_bytes r);
  pre_len : zlen (ring_bytes r) = ring_end r - ring_start r;
  pre_tagged : tagged (ring_runs r) (ring_bytes r) = zdrop (ring_start r) hist;
}.

Lemma ring_inv_pre r hist : ring_inv r hist -> ring_pre r hist.
Proof. by intros []. Qed.

Lemma drop_front_pre r hist n :
  ring_pre r hist -> 0 <= n <= ring_end r - ring_start r ->
  ring_pre (drop_front r n) hist.
Proof.
  intros [He Hs Hp Ht Hl Hg] Hn.
  destruct (drop_runs_spec (ring_runs r) (ring_bytes r) n) as (H1 & H2 & _ & H4);
    [done|done|lia|].
  split; simpl; [done|lia|done|zlen_lia|zlen_lia|].
  rewrite H4, Hg, zdrop_zdrop by lia. done.
Qed.

Lemma trim_runs_spec fuel : forall r hist,
  ring_pre r hist -> zlen (ring_runs r) <= MAX_RUNS + Z.of_nat fuel ->
  let r' := trim_runs fuel r in
  ring_pre r' hist /\ zlen (ring_runs r') <= MAX_RUNS /\ ring_end r' = ring_end r /\
  ring_start r <= ring_start r' /\
  (r' = r \/ MAX_RUNS < zlen (ring_runs r)).
Proof.
  induction fuel as [|fuel IH]; intros r hist Hpre Hf; cbn [trim_runs].
  { split_and!; [done|lia|done|lia|by left]. }
  destruct (MAX_RUNS <? zlen (ring_runs r)) eqn:E; bool_to_prop.
  2: { split_and!; [done|lia|done|lia|by left]. }
  destruct (ring_runs r) as [|[s m] rest] eqn:Er.
  { unfold MAX_RUNS in E. zlen_lia. }
  pose proof (pre_pos _ _ Hpre) as Hp. rewrite Er in Hp.
  apply Forall_cons_1 in Hp as [Hm Hp]. unfold run_pos in Hm. simpl in Hm.
  pose proof (total_nonneg _ Hp) as Hrest.
  pose proof (pre_total _ _ Hpre) as Ht. rewrite Er in Ht. cbn [total] in Ht.
  pose proof (pre_len _ _ Hpre) as Hl.
  destruct (IH (drop_front r m) hist) as (H1 & H2 & H3 & H4 & _).
  { apply drop_front_pre; [done|lia]. }
  { simpl. rewrite Er, drop_runs_first by lia. zlen_lia. }
  simpl in H3, H4. split_and!; [done|done|done|lia|by right].
Qed.

Lemma push_run_cases runs s n :
  (fst <$> last runs = Some s /\ zlen (push_run runs s n) = zlen runs) \/
  (fst <$> last runs <> Some s /\ push_run runs s n = runs ++ [(s, n)]).
Proof.
  induction runs as [|[s0 m] [|run rest] IH].
  - by right.
  - simpl. case_bool_decide; subst; [left|right]; split; try done; simpl; congruence.
  - change (push_run ((s0, m) :: run :: rest) s n)
      with ((s0, m) :: push_run (run :: rest) s n).
    change (last ((s0, m) :: run :: rest)) with (last (run :: rest)).
    destruct IH as [[? H]|[? ->]]; [left|right]; split; try done.
    rewrite !(zlen_cons (s0, m)). lia.
Qed.

Lemma zlen_drop_runs runs : forall n, zlen (drop_runs runs n) <= zlen runs.
Proof.
  induction runs as [|[s m] rest IH]; intros n; simpl; [lia|].
  repeat case_test; rewrite ?zlen_cons; try lia. specialize (IH (n - m)). lia.
Qed.

(** A drop that leaves every run in place cuts the first one short. *)
Lemma drop_runs_kept s m rest n :
  0 <= n -> zlen (drop_runs ((s, m) :: rest) n) = zlen ((s, m) :: rest) ->
  drop_runs ((s, m) :: rest) n = (s, m - n) :: rest.
Proof.
  intros Hn. simpl. repeat case_test; bool_to_prop; intros Hz.
  - replace n with 0 by lia. by rewrite Z.sub_0_r.
  - pose proof (zlen_drop_runs rest (n - m)). zlen_lia.
  - done.
Qed.

(** ** Pushing *)

(** The ring of a push before its runs are trimmed. *)
Definition pushed (self : Ring) (stream : byte) (data : bytes) : Ring :=
  drop_front
    (MkRing (ring_bytes self ++ data) (push_run (ring_runs self) stream (zlen data))
            (ring_start self) (ring_end self + zlen data))
    (saturating_sub (ring_end self + zlen data - ring_start self) BUFFER).

Lemma Ring_push_nonempty self s d :
  d <> [] -> Ring_push self s d =
             trim_runs (length (ring_runs (pushed self s d))) (pushed self s d).
Proof. intros. unfold Ring_push. by rewrite bool_decide_eq_false_2. Qed.

Lemma pushed_pre r hist s d :
  ring_pre r hist -> 0 < zlen d ->
  ring_pre (pushed r s d) (hist ++ tag s d) /\
  ring_start (pushed r s d) = Z.max (ring_start r) (ring_end r + zlen d - BUFFER).
Proof.
  intros [He Hs Hp Ht Hl Hg] Hd.
  destruct (push_run_spec (ring_runs r) s d (ring_bytes r)) as (H1 & H2 & H3); try done.
  split; [|simpl; unfold saturating_sub; lia]. apply drop_front_pre.
  - split; simpl; [zlen_lia|lia|done|zlen_lia|zlen_lia|].
    rewrite H3, Hg, zdrop_app_le by lia. done.
  - simpl. unfold saturating_sub, BUFFER. change (Z.shiftl 1 20) with 1048576. lia.
Qed.

Lemma push_inv r hist s d :
  ring_inv r hist -> ring_inv (Ring_push r s d) (hist ++ tag s d).
Proof.
  intros Hinv. destruct (decide (d = [])) as [->|Hd].
  { unfold Ring_push. by rewrite bool_decide_eq_true_2, app_nil_r. }
  assert (0 < zlen d) by (destruct d; [done|]; zlen_lia).
  rewrite Ring_push_nonempty by done.
  destruct (pushed_pre r hist s d) as [Hpre Hst]; [by apply ring_inv_pre|done|].
  assert (ring_end (pushed r s d) = ring_end r + zlen d) as Hend by done.
  destruct (trim_runs_spec (length (ring_runs (pushed r s d))) _ _ Hpre)
    as (H1 & H2 & H3 & H4 & _).
  { unfold zlen, MAX_RUNS. lia. }
  destruct H1. split; try done. rewrite H3, Hend. lia.
Qed.

Lemma trim_one fuel r hist s m rest :
  ring_pre r hist -> ring_runs r = (s, m) :: rest -> zlen rest = MAX_RUNS ->
  trim_runs (S fuel) r = drop_front r m.
Proof.
  intros Hpre Er Hz. pose proof (pre_pos _ _ Hpre) as Hp. rewrite Er in Hp.
  apply Forall_cons_1 in Hp as [Hm _]. unfold run_pos in Hm; simpl in Hm.
  cbn [trim_runs]. rewrite Er, (proj2 (Z.ltb_lt _ _)) by zlen_lia.
  destruct fuel as [|fuel]; [done|]. cbn [trim_runs drop_front ring_runs].
  rewrite Er, drop_runs_first by lia. by rewrite (proj2 (Z.ltb_ge _ _)) by lia.
Qed.

Lemma push_keeps r hist s d keep :
  ring_inv r hist -> ring_start r <= keep -> zlen d <= Ring_room r s keep ->
  ring_start (Ring_push r s d) <= keep.
Proof.
  intros Hinv Hk Hroom. destruct (decide (d = [])) as [->|Hd].
  { unfold Ring_push. by rewrite bool_decide_eq_true_2. }
  assert (0 < zlen d) by (destruct d; [done|]; zlen_lia).
  rewrite Ring_push_nonempty by done.
  destruct (pushed_pre r hist s d) as [Hpre Hst]; [by apply ring_inv_pre|done|].
  pose proof (inv_runs _ _ Hinv) as Hmax.
  assert (Hsat : zlen d <= saturating_sub (keep + BUFFER) (ring_end r)).
  { unfold Ring_room in Hroom. destruct (ring_runs r) as [|[??]?]; [done|].
    case_test_in Hroom; [|done]. unfold saturating_sub. lia. }
  unfold saturating_sub in Hsat.
  destruct (trim_runs_spec (length (ring_runs (pushed r s d))) _ _ Hpre)
    as (_ & _ & _ & _ & [->|Htrim]); [unfold zlen, MAX_RUNS; lia|lia|].
  unfold pushed in Htrim. cbn [drop_front ring_runs] in Htrim.
  set (over := saturating_sub (ring_end r + zlen d - ring_start r) BUFFER) in *.
  pose proof (zlen_drop_runs (push_run (ring_runs r) s (zlen d)) over) as Hle.
  destruct (push_run_cases (ring_runs r) s (zlen d)) as [[_ Hz]|[Hlast Hz]]; [lia|].
  assert (zlen (ring_runs r) = MAX_RUNS) as Hlen by (rewrite Hz in *; zlen_lia).
  destruct (ring_runs r) as [|[s0 m] rest] eqn:Er; [unfold MAX_RUNS in *; zlen_lia|].
  unfold Ring_room in Hroom. rewrite Er in Hroom.
  rewrite bool_decide_eq_false_2, Hlen, Z.leb_refl in Hroom by done. cbn [negb andb] in Hroom.
  case_test_in Hroom; [lia|]. bool_to_prop.
  assert (ring_runs (pushed r s d) = (s0, m - over) :: rest ++ [(s, zlen d)]) as Hr2.
  { unfold pushed. cbn [drop_front ring_runs]. rewrite Er, Hz. fold over.
    rewrite <-app_comm_cons. apply drop_runs_kept; [unfold over, saturating_sub; lia|].
    rewrite Hz, <-app_comm_cons in *. zlen_lia. }
  rewrite Hr2. cbn [length]. rewrite (trim_one _ _ _ _ _ _ Hpre Hr2) by zlen_lia.
  cbn [drop_front ring_start pushed]. fold over. lia.
Qed.

(** ** Reading frames *)

Lemma zslice_app {A} (a b : list A) f e :
  0 <= f <= e ->
  zslice f e (a ++ b) =
    (if f <? zlen a then zslice f (Z.min e (zlen a)) a else []) ++
    (if zlen a <? e then zslice (saturating_sub f (zlen a)) (e - zlen a) b else []).
Proof.
  intros Hf. unfold zslice, saturating_sub. repeat case_test; bool_to_prop.
  - rewrite zdrop_app_le, ztake_app_ge by zlen_lia. rewrite zlen_drop. f_equal.
    + by rewrite ztake_ge by zlen_lia.
    + rewrite (zdrop_nonpos (Z.max _ _)) by lia. f_equal. lia.
  - rewrite zdrop_app_le, ztake_app_le by zlen_lia. rewrite app_nil_r. f_equal. lia.
  - rewrite zdrop_app_ge by lia. rewrite app_nil_l. f_equal; [lia|]. f_equal. lia.
  - by rewrite ztake_nonpos by lia.
Qed.

Lemma Ring_copy_spec cut r from len out :
  0 <= from -> 0 <= len ->
  Ring_copy cut r from len out = out ++ zslice from (from + len) (ring_bytes r).
Proof.
  intros. unfold Ring_copy.
  rewrite <-(f_equal (zslice from (from + len)) (ztake_zdrop cut (ring_bytes r))).
  rewrite zslice_app by lia. repeat case_test; by rewrite ?app_nil_l, ?app_nil_r, ?app_assoc.
Qed.

Definition frames_of (fs : list (byte * bytes)) : bytes :=
  concat (map (fun f => frame_bytes f.1 f.2) fs).
Definition tags_of (fs : list (byte * bytes)) : list (byte * byte) :=
  concat (map (fun f => tag f.1 f.2) fs).

(** A frame with some payload. *)
Definition full_frame (f : byte * bytes) : Prop := frame_fits f /\ snd f <> [].

Lemma frames_run_spec fuel : forall cut r s rs len at_ left_ out,
  ring_start r <= rs -> rs <= at_ -> 0 <= left_ ->
  rs - ring_start r + len <= zlen (ring_bytes r) ->
  left_ = 0 \/ rs + len - at_ <= Z.of_nat fuel * (MAX_FRAME - 1) ->
  let n := Z.min left_ (Z.max 0 (rs + len - at_)) in
  exists fs,
    frames_run fuel cut r s rs len at_ left_ out
      = (at_ + n, left_ - n, out ++ frames_of fs) /\
    Forall full_frame fs /\
    tags_of fs = tag s (ztake n (zdrop (at_ - ring_start r) (ring_bytes r))).
Proof.
  induction fuel as [|fuel IH]; intros cut r s rs len at_ left_ out Hs Ha Hl Hb Hf n.
  { exists []. replace n with 0 by (unfold n; lia). cbn [frames_run].
    rewrite Z.add_0_r, Z.sub_0_r, ztake_nonpos by lia. by rewrite app_nil_r. }
  cbn [frames_run]. destruct ((at_ <? rs + len) && (0 <? left_)) eqn:E; bool_to_prop.
  2: { exists []. replace n with 0 by (unfold n; destruct E; bool_to_prop; lia).
       rewrite Z.add_0_r, Z.sub_0_r, ztake_nonpos by lia. by rewrite app_nil_r. }
  change MAX_FRAME with 1048576 in *. change (1048576 - 1) with 1048575 in *.
  set (take_ := Z.min (Z.min (len - (at_ - rs)) left_) 1048575).
  rewrite Ring_copy_spec by (unfold take_; lia).
  replace (rs - ring_start r + (at_ - rs)) with (at_ - ring_start r) by lia.
  set (p := zslice (at_ - ring_start r) (at_ - ring_start r + take_) (ring_bytes r)).
  assert (Hp : zlen p = take_) by (unfold p; rewrite zlen_slice; unfold take_; lia).
  destruct (IH cut r s rs len (at_ + take_) (left_ - take_)
              ((out ++ be_bytes 4 (wrapping_add 32 (wrap 32 take_) 1) ++ [s]) ++ p))
    as (fs & -> & Hfs & Htag); [unfold take_; lia..|].
  exists ((s, p) :: fs). set (n' := Z.min (left_ - take_) _) in *.
  assert (Hn : n = take_ + n') by (unfold n, n', take_; lia).
  split_and!.
  - rewrite Hn. f_equal; [f_equal; lia|].
    unfold frames_of. cbn [map concat fst snd]. unfold frame_bytes at 2. rewrite Hp.
    assert (wrapping_add 32 1 (wrap 32 take_) = wrapping_add 32 (wrap 32 take_) 1) as ->
      by (unfold wrapping_add; f_equal; lia).
    by rewrite <-!app_assoc.
  - constructor; [|done]. split; unfold frame_fits; cbn [snd].
    + rewrite Hp. change MAX_FRAME with 1048576. unfold take_. lia.
    + intros Hnil. rewrite Hnil in Hp. change (zlen (@nil byte)) with 0 in Hp. unfold take_ in Hp. lia.
  - unfold tags_of in *. cbn [map concat fst snd]. rewrite Htag, <-tag_app. f_equal.
    rewrite Hn, ztake_plus by (unfold n', take_; lia). unfold p, zslice. f_equal.
    { f_equal. lia. }
    rewrite zdrop_zdrop by (unfold take_; lia). do 2 f_equal. lia.
Qed.

Lemma frames_of_app fs1 fs2 : frames_of (fs1 ++ fs2) = frames_of fs1 ++ frames_of fs2.
Proof. unfold frames_of. by rewrite map_app, concat_app. Qed.

Lemma tags_of_app fs1 fs2 : tags_of (fs1 ++ fs2) = tags_of fs1 ++ tags_of fs2.
Proof. unfold tags_of. by rewrite map_app, concat_app. Qed.

Lemma frames_fuel_enough len : 0 <= len -> len <= Z.of_nat (frames_fuel len) * (MAX_FRAME - 1).
Proof.
  intros. unfold frames_fuel. change (MAX_FRAME - 1) with 1048575.
  pose proof (Z.div_mod len 1048575). pose proof (Z.mod_pos_bound len 1048575).
  pose proof (Z.div_pos len 1048575). rewrite Z2Nat.id; lia.
Qed.

Lemma frames_loop_spec runs : forall cut r rs at_ left_ out,
  Forall run_pos runs -> ring_start r <= rs -> 0 <= left_ ->
  rs - ring_start r + total runs = zlen (ring_bytes r) ->
  left_ = 0 \/ rs <= at_ ->
  let n := Z.min left_ (Z.max 0 (rs + total runs - at_)) in
  exists fs,
    frames_loop runs cut r rs at_ left_ out = (at_ + n, out ++ frames_of fs) /\
    Forall full_frame fs /\
    tags_of fs = ztake n (zdrop (at_ - rs)
                           (tagged runs (zdrop (rs - ring_start r) (ring_bytes r)))).
Proof.
  induction runs as [|[s len] rest IH]; intros cut r rs at_ left_ out Hp Hs Hl Hb Ha n.
  { exists []. cbn [total] in *. replace n with 0 by (unfold n; lia).
    rewrite Z.add_0_r, ztake_nonpos by lia. simpl. by rewrite app_nil_r. }
  cbn [frames_loop]. destruct (left_ =? 0) eqn:E0; bool_to_prop.
  { exists []. replace n with 0 by (unfold n; lia).
    rewrite Z.add_0_r, ztake_nonpos by lia. by rewrite app_nil_r. }
  apply Forall_cons_1 in Hp as [Hm Hp]. unfold run_pos in Hm. simpl in Hm.
  pose proof (total_nonneg _ Hp) as Hrest. cbn [total tagged] in *.
  pose proof (frames_fuel_enough len ltac:(lia)) as Hfuel.
  destruct (frames_run_spec (frames_fuel len) cut r s rs len at_ left_ out)
    as (fs1 & -> & Hf1 & Ht1); [lia..|].
  set (n1 := Z.min left_ (Z.max 0 (rs + len - at_))) in *.
  destruct (IH cut r (rs + len) (at_ + n1) (left_ - n1) (out ++ frames_of fs1))
    as (fs2 & -> & Hf2 & Ht2); [done|lia|lia|lia|lia|].
  set (n2 := Z.min (left_ - n1) _) in *.
  assert (Hn : n = n1 + n2) by (unfold n, n1, n2; lia).
  exists (fs1 ++ fs2). rewrite frames_of_app, tags_of_app, <-app_assoc, Hn.
  split_and!; [f_equal; lia|by apply Forall_app|].
  rewrite Ht1, Ht2. set (bs := zdrop (rs - ring_start r) (ring_bytes r)) in *.
  assert (Hbs : zlen bs = len + total rest) by (unfold bs; zlen_lia).
  replace (zdrop (rs + len - ring_start r) (ring_bytes r)) with (zdrop len bs)
    by (unfold bs; rewrite zdrop_zdrop by lia; f_equal; lia).
  replace (zdrop (at_ - ring_start r) (ring_bytes r)) with (zdrop (at_ - rs) bs)
    by (unfold bs; rewrite zdrop_zdrop by lia; f_equal; lia).
  destruct (Z.le_gt_cases (at_ - rs) len).
  - rewrite zdrop_app_le, zdrop_tag, zdrop_ztake by zlen_lia.
    rewrite ztake_plus by (unfold n1, n2; lia). f_equal.
    + rewrite ztake_app_le, ztake_tag, ztake_ztake by (unfold n1; zlen_lia).
      do 2 f_equal. unfold n1. lia.
    + destruct (Z.eq_dec n2 0) as [->|]; [by rewrite !ztake_nonpos by lia|].
      assert (n1 = rs + len - at_) by (unfold n1, n2 in *; lia).
      rewrite zdrop_app_exact by zlen_lia. do 2 f_equal.
      rewrite zdrop_nonpos by lia. done.
  - assert (n1 = 0) as -> by (unfold n1; lia). rewrite ztake_nonpos by lia.
    rewrite (zdrop_app_ge (at_ - rs)) by zlen_lia. rewrite zlen_tag, zlen_take.
    unfold tag at 1. cbn [map app]. rewrite Z.add_0_l. do 2 f_equal. lia.
Qed.

Lemma Ring_frames_spec cut r hist from max out :
  ring_inv r hist -> 0 <= max ->
  let at0 := Z.max from (ring_start r) in
  let n := Z.min max (Z.max 0 (ring_end r - at0)) in
  exists fs,
    Ring_frames cut r from max out = (at0 + n, out ++ frames_of fs) /\
    Forall full_frame fs /\ tags_of fs = ztake n (zdrop at0 hist).
Proof.
  intros [He Hs Hp Ht Hl Hg _ _] Hmax at0 n. unfold Ring_frames. fold at0.
  destruct (frames_loop_spec (ring_runs r) cut r (ring_start r) at0 max out)
    as (fs & -> & Hf & Htag); [done|lia|lia|lia|unfold at0; lia|].
  replace (ring_start r + total (ring_runs r)) with (ring_end r) in * by lia.
  fold n in Htag |- *. exists fs. split_and!; [done|done|]. rewrite Htag.
  rewrite Z.sub_diag, (zdrop_nonpos 0), Hg by lia.
  rewrite zdrop_zdrop by (unfold at0; lia). do 2 f_equal. lia.
Qed.

Definition Ring_of (parts : list (byte * bytes)) : Ring :=
  fold_left (fun r p => Ring_push r p.1 p.2) parts Ring_new.

Lemma Ring_of_inv parts : ring_inv (Ring_of parts) (tags_of parts).
Proof.
  assert (forall r hist, ring_inv r hist ->
    ring_inv (fold_left (fun r p => Ring_push r p.1 p.2) parts r) (hist ++ tags_of parts)) as H.
  { induction parts as [|[s d] parts IH]; intros r hist Hinv; simpl.
    - by rewrite app_nil_r.
    - unfold tags_of in *. simpl. rewrite app_assoc. by apply IH, push_inv. }
  apply (H _ []). split; simpl; unfold zlen, BUFFER, MAX_RUNS; simpl; try done; lia.
Qed.

(** ** Properties *)

(** C8: after any sequence of outputs, the ring holds exactly a suffix of all
    of it, each byte with its stream, within the byte and run limits. *)
Theorem ring_holds_newest_output parts : ring_inv (Ring_of parts) (tags_of parts).
Proof. apply Ring_of_inv. Qed.

(** a push that opens no run past the limit drops only what does not fit
    in the buffer: the ring keeps the newest [BUFFER] bytes. *)
Theorem push_drops_least r hist s d :
  ring_inv r hist -> zlen (ring_runs r) < MAX_RUNS -> d <> [] ->
  ring_start (Ring_push r s d) = Z.max (ring_start r) (ring_end r + zlen d - BUFFER).
Proof.
  intros Hinv Hr Hd. assert (0 < zlen d) by (destruct d; [done|]; zlen_lia).
  rewrite Ring_push_nonempty by done.
  destruct (pushed_pre r hist s d) as [Hpre Hst]; [by apply ring_inv_pre|done|].
  destruct (trim_runs_spec (length (ring_runs (pushed r s d))) _ _ Hpre)
    as (_ & _ & _ & _ & [->|Htrim]); [unfold zlen, MAX_RUNS; lia|done|].
  unfold pushed in Htrim. cbn [drop_front ring_runs] in Htrim.
  pose proof (zlen_push_run (ring_runs r) s (zlen d)) as H1.
  pose proof (zlen_drop_runs (push_run (ring_runs r) s (zlen d))
    (saturating_sub (ring_end r + zlen d - ring_start r) BUFFER)) as H2. lia.
Qed.

Definition witness_ring : Ring := Ring_of [(STDOUT, [x68; x69]); (STDERR, [x21])].

Lemma push_drops_least_witness : ring_start (Ring_push witness_ring STDOUT [x0a]) = 0.
Proof.
  rewrite (push_drops_least witness_ring (tags_of [(STDOUT, [x68; x69]); (STDERR, [x21])]));
    [reflexivity|apply Ring_of_inv|reflexivity|done].
Defined.

(** flow control is sound. Output within [room] for a reader that has
    taken everything before [keep] drops no byte at or after [keep], neither
    for the byte limit nor for the run limit. *)
Theorem room_never_drops_kept r hist s d keep :
  ring_inv r hist -> ring_start r <= keep -> zlen d <= Ring_room r s keep ->
  ring_start (Ring_push r s d) <= keep.
Proof. apply push_keeps. Qed.

Lemma room_never_drops_kept_witness :
  0 < Ring_room witness_ring STDOUT 1 /\
  ring_start (Ring_push witness_ring STDOUT [x0a; x0b]) <= 1.
Proof.
  split; [reflexivity|].
  apply (room_never_drops_kept witness_ring (tags_of [(STDOUT, [x68; x69]); (STDERR, [x21])])).
  - apply Ring_of_inv.
  - vm_compute. congruence.
  - vm_compute. congruence.
Defined.

(** replay is exact. [frames] from an offset appends whole frames, each
    within the frame limit, that a peer reads back as the next bytes of the
    session from that offset, in order and on their streams, at most [max] of
    them and all that there are if they fit; it returns the offset reached. *)
Theorem frames_replay_output cut r hist from max out :
  ring_inv r hist -> 0 <= max ->
  let at0 := Z.max from (ring_start r) in
  let n := Z.min max (Z.max 0 (ring_end r - at0)) in
  exists fs,
    Ring_frames cut r from max out = (at0 + n, out ++ frames_of fs) /\
    read_frames (S (length fs)) (frames_of fs) = Ok fs /\
    tags_of fs = ztake n (zdrop at0 hist).
Proof.
  intros Hinv Hmax at0 n.
  destruct (Ring_frames_spec cut r hist from max out Hinv Hmax) as (fs & H1 & H2 & H3).
  exists fs. split_and!; [done| |done]. apply (read_frames_encoded (R:=bytes)); [|done].
  eapply Forall_impl; [exact H2|]. by intros f [].
Qed.

Lemma frames_replay_output_witness :
  exists fs,
    Ring_frames 1 witness_ring 1 10 [] = (3, frames_of fs) /\
    read_frames (S (length fs)) (frames_of fs) = Ok fs /\
    tags_of fs = [(STDOUT, x69); (STDERR, x21)].
Proof.
  apply (frames_replay_output 1 witness_ring
           (tags_of [(STDOUT, [x68; x69]); (STDERR, [x21])]) 1 10 []).
  - apply Ring_of_inv.
  - vm_compute. congruence.
Defined.
