(* ===== verification/BTree.v ===== *)
(** * Ordered maps

    [std::collections::BTreeMap] with integer keys, as the sources use it:
    lookups, insertion, removal, iteration in key order and the next key
    after a bound. The map is its entries in key order, so iteration order is
    part of the value. *)

From Stdlib Require Import Sorted.
From S2P Require Import Prelude.

Abbreviation btree V := (list (Z * V)).

Section btree.
Context {V : Type}.
Implicit Types (m : btree V) (k : Z) (v : V).

Fixpoint bt_get m k : option V :=
  match m with
  | [] => None
  | (k', v) :: m => if k =? k' then Some v else bt_get m k
  end.

Fixpoint bt_insert m k v : btree V :=
  match m with
  | [] => [(k, v)]
  | (k', v') :: m' =>
      if k <? k' then (k, v) :: m
      else if k =? k' then (k, v) :: m'
      else (k', v') :: bt_insert m' k v
  end.

Fixpoint bt_remove m k : btree V :=
  match m with
  | [] => []
  | (k', v) :: m => if k =? k' then m else (k', v) :: bt_remove m k
  end.

(** [range((Excluded(k), Unbounded)).next()], the key. *)
Fixpoint bt_next_after m k : option Z :=
  match m with
  | [] => None
  | (k', _) :: m => if k <? k' then Some k' else bt_next_after m k
  end.

(** [first_key_value()], the key. *)
Definition bt_first m : option Z := fst <$> head m.

Definition bt_keys m : list Z := map fst m.
Definition bt_ok m : Prop := StronglySorted Z.lt (bt_keys m).

Lemma bt_get_None m k : bt_get m k = None <-> k ∉ bt_keys m.
Proof.
  induction m as [|[k' v] m IH]; simpl; [set_solver|].
  destruct (k =? k') eqn:E; bool_to_prop; subst; set_solver.
Qed.

Lemma bt_get_Some_key m k v : bt_get m k = Some v -> k ∈ bt_keys m.
Proof.
  intros H. destruct (decide (k ∈ bt_keys m)) as [|Hn]; [done|].
  apply bt_get_None in Hn. congruence.
Qed.

Lemma bt_get_Some_elem m k v : bt_get m k = Some v -> (k, v) ∈ m.
Proof.
  induction m as [|[k' v'] m IH]; simpl; [done|].
  destruct (k =? k') eqn:E; bool_to_prop.
  - intros [= ->]. subst. set_solver.
  - set_solver.
Qed.

Lemma bt_ok_cons k v m :
  bt_ok ((k, v) :: m) <-> bt_ok m /\ Forall (Z.lt k) (bt_keys m).
Proof.
  unfold bt_ok. simpl. split; [inversion 1; done|intros [? ?]; by constructor].
Qed.

Lemma bt_ok_get m k v : bt_ok m -> (k, v) ∈ m -> bt_get m k = Some v.
Proof.
  induction m as [|[k' v'] m IH]; [set_solver|].
  rewrite bt_ok_cons. intros [Hok Hlt] [[= <- <-]|Hin]%elem_of_cons; simpl.
  - by rewrite Z.eqb_refl.
  - destruct (k =? k') eqn:E; bool_to_prop; [subst|by apply IH].
    rewrite Forall_forall in Hlt. specialize (Hlt k').
    assert (k' ∈ bt_keys m) as Hk by (apply list_elem_of_fmap; by exists (k', v)).
    specialize (Hlt Hk). lia.
Qed.

Lemma bt_get_insert m k v k' :
  bt_get (bt_insert m k v) k' = if k' =? k then Some v else bt_get m k'.
Proof.
  induction m as [|[k0 v0] m IH]; simpl.
  - done.
  - destruct (k <? k0) eqn:E1; [done|]. destruct (k =? k0) eqn:E2; bool_to_prop.
    + subst. simpl. by destruct (k' =? k0).
    + simpl. rewrite IH. destruct (k' =? k0) eqn:E3, (k' =? k) eqn:E4; bool_to_prop;
        try done. lia.
Qed.

Lemma bt_keys_insert m k v k' : k' ∈ bt_keys (bt_insert m k v) <-> k' = k \/ k' ∈ bt_keys m.
Proof.
  induction m as [|[k0 v0] m IH]; simpl; [set_solver|].
  destruct (k <? k0); [simpl; set_solver|].
  destruct (k =? k0) eqn:E; bool_to_prop; subst; simpl; set_solver.
Qed.

Lemma bt_keys_remove m k k' : k' ∈ bt_keys (bt_remove m k) -> k' ∈ bt_keys m.
Proof.
  induction m as [|[k0 v0] m IH]; simpl; [done|].
  destruct (k =? k0); simpl; set_solver.
Qed.

Lemma bt_insert_ok m k v : bt_ok m -> bt_ok (bt_insert m k v).
Proof.
  induction m as [|[k0 v0] m IH]; simpl.
  - intros _. by repeat constructor.
  - intros Hok. pose proof Hok as [Hm Hlt]%bt_ok_cons.
    destruct (k <? k0) eqn:E1; bool_to_prop.
    + apply bt_ok_cons. split; [done|]. simpl. constructor; [done|].
      eapply Forall_impl; [exact Hlt|]. intros; simpl in *; lia.
    + destruct (k =? k0) eqn:E2; bool_to_prop; [by subst|].
      apply bt_ok_cons. split; [by apply IH|].
      apply Forall_forall. intros k' [->|H]%bt_keys_insert; [lia|].
      by apply (proj1 (Forall_forall _ _) Hlt).
Qed.

Lemma bt_remove_ok m k : bt_ok m -> bt_ok (bt_remove m k).
Proof.
  induction m as [|[k0 v0] m IH]; simpl; [done|].
  rewrite bt_ok_cons. intros [Hm Hlt]. destruct (k =? k0); [done|].
  apply bt_ok_cons. split; [by apply IH|].
  apply Forall_forall. intros k' H%bt_keys_remove.
  by apply (proj1 (Forall_forall _ _) Hlt).
Qed.

Lemma bt_get_remove m k k' :
  bt_ok m -> bt_get (bt_remove m k) k' = if k' =? k then None else bt_get m k'.
Proof.
  induction m as [|[k0 v0] m IH]; simpl; [by destruct (k' =? k)|].
  rewrite bt_ok_cons. intros [Hm Hlt]. destruct (k =? k0) eqn:E; bool_to_prop.
  - subst. destruct (k' =? k0) eqn:E'; bool_to_prop; [|done]. subst.
    apply bt_get_None. intros H. pose proof (proj1 (Forall_forall _ _) Hlt _ H). simpl in *. lia.
  - simpl. rewrite IH by done. destruct (k' =? k0) eqn:E1, (k' =? k) eqn:E2; bool_to_prop;
      try done. lia.
Qed.

Lemma zlen_bt_remove m k v : bt_get m k = Some v -> zlen (bt_remove m k) = zlen m - 1.
Proof.
  induction m as [|[k0 v0] m IH]; simpl; [done|].
  destruct (k =? k0); intros H; rewrite ?zlen_cons; [lia|]. rewrite IH by done. lia.
Qed.

Lemma zlen_bt_insert_new m k v : bt_get m k = None -> zlen (bt_insert m k v) = zlen m + 1.
Proof.
  induction m as [|[k0 v0] m IH]; simpl; [done|].
  destruct (k =? k0) eqn:E; intros H; [done|].
  destruct (k <? k0); rewrite ?zlen_cons; [lia|]. rewrite IH by done. lia.
Qed.

Lemma bt_remove_absent m k : bt_get m k = None -> bt_remove m k = m.
Proof.
  induction m as [|[k0 v0] m IH]; simpl; [done|].
  destruct (k =? k0); [done|]. intros. f_equal. auto.
Qed.

(** Putting an entry back, changed or not, leaves the keys as they were. *)
Lemma bt_keys_update m k v v' :
  bt_ok m -> bt_get m k = Some v -> bt_keys (bt_insert (bt_remove m k) k v') = bt_keys m.
Proof.
  induction m as [|[k0 v0] m IH]; simpl; [done|].
  rewrite bt_ok_cons. intros [Hm Hlt]. destruct (k =? k0) eqn:E; bool_to_prop.
  - subst. intros _. destruct m as [|[k1 v1] m]; simpl; [done|].
    simpl in Hlt. apply Forall_cons_1 in Hlt as [Hlt _]. simpl in Hlt.
    by rewrite (proj2 (Z.ltb_lt _ _)).
  - intros Hg. pose proof (proj1 (Forall_forall _ _) Hlt _ (bt_get_Some_key _ _ _ Hg)).
    simpl in *. rewrite (proj2 (Z.ltb_ge _ _)), (proj2 (Z.eqb_neq _ _)) by lia.
    simpl. f_equal. by apply IH.
Qed.

Lemma zlen_bt_keys m : zlen (bt_keys m) = zlen m.
Proof. unfold zlen, bt_keys. by rewrite length_map. Qed.

Lemma bt_next_after_Some m k k' :
  bt_ok m -> bt_next_after m k = Some k' ->
  k < k' /\ k' ∈ bt_keys m /\ forall j, j ∈ bt_keys m -> k < j -> k' <= j.
Proof.
  induction m as [|[k0 v0] m IH]; simpl; [done|].
  rewrite bt_ok_cons. intros [Hm Hlt]. destruct (k <? k0) eqn:E; bool_to_prop.
  - intros [= <-]. split_and!; [done|set_solver|].
    intros j [->|Hj]%elem_of_cons _; [lia|].
    pose proof (proj1 (Forall_forall _ _) Hlt _ Hj). simpl in *. lia.
  - intros H. destruct (IH Hm H) as (H1 & H2 & H3). split_and!; [done|set_solver|].
    intros j [->|Hj]%elem_of_cons Hkj; [lia|auto].
Qed.

Lemma bt_next_after_None m k j : bt_next_after m k = None -> j ∈ bt_keys m -> j <= k.
Proof.
  induction m as [|[k0 v0] m IH]; simpl; [set_solver|].
  destruct (k <? k0) eqn:E; bool_to_prop; [done|].
  intros H [->|Hj]%elem_of_cons; [done|auto].
Qed.

Lemma bt_first_Some m k : bt_ok m -> bt_first m = Some k ->
  k ∈ bt_keys m /\ forall j, j ∈ bt_keys m -> k <= j.
Proof.
  destruct m as [|[k0 v0] m]; [done|]. rewrite bt_ok_cons. intros [Hm Hlt] [= <-]. simpl.
  split; [set_solver|]. intros j [->|Hj]%elem_of_cons; [lia|].
  pose proof (proj1 (Forall_forall _ _) Hlt _ Hj). simpl in *. lia.
Qed.

Lemma bt_insert_remove m k v : bt_ok m -> bt_insert (bt_remove m k) k v = bt_insert m k v.
Proof.
  induction m as [|[k0 v0] m IH]; simpl; [done|].
  rewrite bt_ok_cons. intros [Hm Hlt]. destruct (k =? k0) eqn:E; bool_to_prop.
  - subst. rewrite (proj2 (Z.ltb_ge _ _)) by lia.
    destruct m as [|[k1 v1] m]; simpl; [done|].
    apply Forall_cons_1 in Hlt as [Hlt _]. simpl in Hlt. by rewrite (proj2 (Z.ltb_lt _ _)).
  - simpl. destruct (k <? k0) eqn:E1; bool_to_prop.
    + f_equal. f_equal. apply bt_remove_absent, bt_get_None. intros Hin.
      pose proof (proj1 (Forall_forall _ _) Hlt _ Hin). simpl in *. lia.
    + rewrite (proj2 (Z.eqb_neq _ _)) by lia. f_equal. by apply IH.
Qed.

Lemma bt_insert_same m k v : bt_ok m -> bt_get m k = Some v -> bt_insert m k v = m.
Proof.
  induction m as [|[k0 v0] m IH]; simpl; [done|].
  rewrite bt_ok_cons. intros [Hm Hlt]. destruct (k =? k0) eqn:E; bool_to_prop.
  - intros [= ->]. subst. by rewrite (proj2 (Z.ltb_ge _ _)) by lia.
  - intros Hg. pose proof (proj1 (Forall_forall _ _) Hlt _ (bt_get_Some_key _ _ _ Hg)).
    simpl in *. rewrite (proj2 (Z.ltb_ge _ _)) by lia. f_equal. by apply IH.
Qed.

Lemma zlen_bt_insert_update m k v v' :
  bt_ok m -> bt_get m k = Some v -> zlen (bt_insert m k v') = zlen m.
Proof.
  intros Hok Hg. rewrite <-(bt_insert_remove _ _ _ Hok).
  rewrite <-!zlen_bt_keys. by erewrite bt_keys_update.
Qed.

Lemma bt_keys_insert_update m k v v' :
  bt_ok m -> bt_get m k = Some v -> bt_keys (bt_insert m k v') = bt_keys m.
Proof. intros Hok Hg. rewrite <-(bt_insert_remove _ _ _ Hok). by eapply bt_keys_update. Qed.
End btree.
