(* ===== verification/Vsock.v ===== *)
(** * The vsock connections and their multiplexer

    [crates/shuru-linux/src/kvm/vsock/connection.rs]: packet headers, credit,
    one host socket per guest stream, and the mux that owns them. Guest data
    goes to the host socket, directly or through a bounded queue; host data
    stays in the socket until the guest posts a buffer and has credit.

    The host socket is a kernel object. Its model holds what the program can
    observe of it: the outcomes of the coming [send] and [readv] calls are a
    script chosen by the environment, what was sent is recorded, and what the
    host end wrote is there to be read. Deadlines are milliseconds, and the
    reading of the clock is an argument. *)

From Stdlib Require Import Strings.Byte.
From S2P Require Import Prelude BTree.

Definition HEADER_LEN : Z := 44.
Definition BUFFER_SIZE : Z := 256 * 1024.
Definition MAX_PACKET : Z := 64 * 1024.
Definition MAX_TURN : Z := 128 * 1024.
Definition MAX_CONNECTIONS : Z := 1024.
Definition MAX_PENDING_RESETS : Z := 256.
Definition HANDSHAKE_TIMEOUT : Z := 2000.
Definition HOST_CID : Z := 2.
Definition GUEST_CID : Z := 3.
Definition STREAM : Z := 1.
Definition REQUEST : Z := 1.
Definition RESPONSE : Z := 2.
Definition RST : Z := 3.
Definition SHUTDOWN : Z := 4.
Definition RW : Z := 5.
Definition CREDIT_UPDATE : Z := 6.
Definition CREDIT_REQUEST : Z := 7.
Definition RECEIVE : Z := 1.
Definition SEND : Z := 2.

(** ** Headers *)

Record Header := MkHeader {
  src_cid : Z; dst_cid : Z; src_port : Z; dst_port : Z; h_len : Z;
  kind : Z; op : Z; flags : Z; buf_alloc : Z; fwd_cnt : Z;
}.

#[export] Instance Header_eq_dec : EqDecision Header.
Proof. solve_decision. Defined.

Definition Header_decode (bs : bytes) : option Header :=
  if zlen bs <? HEADER_LEN then None else
  Some {| src_cid := le_val (zslice 0 8 bs);
          dst_cid := le_val (zslice 8 16 bs);
          src_port := le_val (zslice 16 20 bs);
          dst_port := le_val (zslice 20 24 bs);
          h_len := le_val (zslice 24 28 bs);
          kind := le_val (zslice 28 30 bs);
          op := le_val (zslice 30 32 bs);
          flags := le_val (zslice 32 36 bs);
          buf_alloc := le_val (zslice 36 40 bs);
          fwd_cnt := le_val (zslice 40 44 bs) |}.

Definition Header_encode (h : Header) : bytes :=
  le_bytes 8 (src_cid h) ++ le_bytes 8 (dst_cid h)
  ++ le_bytes 4 (src_port h) ++ le_bytes 4 (dst_port h) ++ le_bytes 4 (h_len h)
  ++ le_bytes 2 (kind h) ++ le_bytes 2 (op h)
  ++ le_bytes 4 (flags h) ++ le_bytes 4 (buf_alloc h) ++ le_bytes 4 (fwd_cnt h).

(** The widths of the fields. *)
Definition Header_wf (h : Header) : Prop :=
  in_width 64 (src_cid h) /\ in_width 64 (dst_cid h) /\
  in_width 32 (src_port h) /\ in_width 32 (dst_port h) /\ in_width 32 (h_len h) /\
  in_width 16 (kind h) /\ in_width 16 (op h) /\
  in_width 32 (flags h) /\ in_width 32 (buf_alloc h) /\ in_width 32 (fwd_cnt h).

(** ** Credit *)

Record Credit := MkCredit { sent : Z; peer_forwarded : Z; peer_alloc : Z }.

Definition Credit_default : Credit := MkCredit 0 0 0.

Definition Credit_available (c : Credit) : Z :=
  saturating_sub (peer_alloc c) (wrapping_sub 32 (sent c) (peer_forwarded c)).

Definition Credit_update (c : Credit) (header : Header) : option Credit :=
  if wrapping_sub 32 (sent c) (peer_forwarded c)
     <? wrapping_sub 32 (fwd_cnt header) (peer_forwarded c)
  then None
  else Some (MkCredit (sent c) (fwd_cnt header) (buf_alloc header)).

(** ** Host sockets *)

(** The outcome of a system call: a byte count, cut to what is possible, or
    an error. *)
Inductive Outcome :=
  | Did (n : Z)
  | Failed (e : ErrorKind).

Record Socket := MkSocket {
  sk_script : list Outcome;
  sk_sent : bytes;
  sk_input : bytes;
  sk_eof : bool;
  sk_shutdown : option ErrorKind;
  shut_read : bool;
  shut_write : bool;
}.

Definition next_outcome (s : Socket) : option Outcome * Socket :=
  match sk_script s with
  | [] => (None, s)
  | o :: rest =>
      (Some o, MkSocket rest (sk_sent s) (sk_input s) (sk_eof s) (sk_shutdown s)
                        (shut_read s) (shut_write s))
  end.

(** [send] with [MSG_NOSIGNAL] on a nonblocking socket: it takes a prefix of
    the bytes. A socket whose script has ended would block. *)
Definition sock_send (s : Socket) (bs : bytes) : result Z ErrorKind * Socket :=
  let '(o, s) := next_outcome s in
  match o with
  | None => (Err WouldBlock, s)
  | Some (Failed e) => (Err e, s)
  | Some (Did n) =>
      let n := Z.max 0 (Z.min n (zlen bs)) in
      (Ok n, MkSocket (sk_script s) (sk_sent s ++ ztake n bs) (sk_input s) (sk_eof s)
                      (sk_shutdown s) (shut_read s) (shut_write s))
  end.

(** [readv] into buffers of [cap] bytes in all: it gives some of what the
    host end wrote, nothing at its end. *)
Definition sock_read (s : Socket) (cap : Z) : result bytes ErrorKind * Socket :=
  let '(o, s) := next_outcome s in
  match o with
  | Some (Failed e) => (Err e, s)
  | _ =>
      if bool_decide (sk_input s = []) || shut_read s then
        if sk_eof s || shut_read s then (Ok [], s) else (Err WouldBlock, s)
      else
        let want := match o with Some (Did n) => n | _ => cap end in
        let n := Z.min (Z.max 1 want) cap in
        (Ok (ztake n (sk_input s)),
         MkSocket (sk_script s) (sk_sent s) (zdrop n (sk_input s)) (sk_eof s)
                  (sk_shutdown s) (shut_read s) (shut_write s))
  end.

(** [shutdown(Read)], [shutdown(Write)], [shutdown(Both)]: the environment
    says whether the call succeeds. *)
Definition sock_shutdown (rd wr : bool) (s : Socket) : result unit ErrorKind * Socket :=
  match sk_shutdown s with
  | Some e => (Err e, s)
  | None => (Ok tt, MkSocket (sk_script s) (sk_sent s) (sk_input s) (sk_eof s) (sk_shutdown s)
                             (shut_read s || rd) (shut_write s || wr))
  end.

(** Who learns that the guest accepted. [Caller] carries whether the caller
    still waits on its channel. *)
Inductive Opener :=
  | Caller (waiting : bool)
  | Listener.

#[projections(primitive)]
Record Connection := MkConnection {
  socket : Socket;
  guest_port : Z;
  host_port : Z;
  opener : option Opener;
  established : bool;
  readable : bool;
  writable : bool;
  credit : Credit;
  credit_requested : bool;
  forwarded : Z;
  advertised : Z;
  received : Z;
  incoming : bytes;
  peer_shutdown : Z;
  local_shutdown : Z;
  send_request : bool;
  send_shutdown : Z;
  send_credit_request : bool;
  send_credit_update : bool;
  deadline : option Z;
}.

(** Field updates. *)
Definition set_socket (c : Connection) (x : Socket) : Connection :=
  MkConnection x (guest_port c) (host_port c) (opener c) (established c)
    (readable c) (writable c) (credit c) (credit_requested c) (forwarded c)
    (advertised c) (received c) (incoming c) (peer_shutdown c)
    (local_shutdown c) (send_request c) (send_shutdown c)
    (send_credit_request c) (send_credit_update c) (deadline c).
Definition set_opener (c : Connection) (x : option Opener) : Connection :=
  MkConnection (socket c) (guest_port c) (host_port c) x (established c)
    (readable c) (writable c) (credit c) (credit_requested c) (forwarded c)
    (advertised c) (received c) (incoming c) (peer_shutdown c)
    (local_shutdown c) (send_request c) (send_shutdown c)
    (send_credit_request c) (send_credit_update c) (deadline c).
Definition set_established (c : Connection) (x : bool) : Connection :=
  MkConnection (socket c) (guest_port c) (host_port c) (opener c) x
    (readable c) (writable c) (credit c) (credit_requested c) (forwarded c)
    (advertised c) (received c) (incoming c) (peer_shutdown c)
    (local_shutdown c) (send_request c) (send_shutdown c)
    (send_credit_request c) (send_credit_update c) (deadline c).
Definition set_readable (c : Connection) (x : bool) : Connection :=
  MkConnection (socket c) (guest_port c) (host_port c) (opener c)
    (established c) x (writable c) (credit c) (credit_requested c)
    (forwarded c) (advertised c) (received c) (incoming c) (peer_shutdown c)
    (local_shutdown c) (send_request c) (send_shutdown c)
    (send_credit_request c) (send_credit_update c) (deadline c).
Definition set_writable (c : Connection) (x : bool) : Connection :=
  MkConnection (socket c) (guest_port c) (host_port c) (opener c)
    (established c) (readable c) x (credit c) (credit_requested c)
    (forwarded c) (advertised c) (received c) (incoming c) (peer_shutdown c)
    (local_shutdown c) (send_request c) (send_shutdown c)
    (send_credit_request c) (send_credit_update c) (deadline c).
Definition set_credit (c : Connection) (x : Credit) : Connection :=
  MkConnection (socket c) (guest_port c) (host_port c) (opener c)
    (established c) (readable c) (writable c) x (credit_requested c)
    (forwarded c) (advertised c) (received c) (incoming c) (peer_shutdown c)
    (local_shutdown c) (send_request c) (send_shutdown c)
    (send_credit_request c) (send_credit_update c) (deadline c).
Definition set_credit_requested (c : Connection) (x : bool) : Connection :=
  MkConnection (socket c) (guest_port c) (host_port c) (opener c)
    (established c) (readable c) (writable c) (credit c) x (forwarded c)
    (advertised c) (received c) (incoming c) (peer_shutdown c)
    (local_shutdown c) (send_request c) (send_shutdown c)
    (send_credit_request c) (send_credit_update c) (deadline c).
Definition set_forwarded (c : Connection) (x : Z) : Connection :=
  MkConnection (socket c) (guest_port c) (host_port c) (opener c)
    (established c) (readable c) (writable c) (credit c) (credit_requested
    c) x (advertised c) (received c) (incoming c) (peer_shutdown c)
    (local_shutdown c) (send_request c) (send_shutdown c)
    (send_credit_request c) (send_credit_update c) (deadline c).
Definition set_advertised (c : Connection) (x : Z) : Connection :=
  MkConnection (socket c) (guest_port c) (host_port c) (opener c)
    (established c) (readable c) (writable c) (credit c) (credit_requested
    c) (forwarded c) x (received c) (incoming c) (peer_shutdown c)
    (local_shutdown c) (send_request c) (send_shutdown c)
    (send_credit_request c) (send_credit_update c) (deadline c).
Definition set_received (c : Connection) (x : Z) : Connection :=
  MkConnection (socket c) (guest_port c) (host_port c) (opener c)
    (established c) (readable c) (writable c) (credit c) (credit_requested
    c) (forwarded c) (advertised c) x (incoming c) (peer_shutdown c)
    (local_shutdown c) (send_request c) (send_shutdown c)
    (send_credit_request c) (send_credit_update c) (deadline c).
Definition set_incoming (c : Connection) (x : bytes) : Connection :=
  MkConnection (socket c) (guest_port c) (host_port c) (opener c)
    (established c) (readable c) (writable c) (credit c) (credit_requested
    c) (forwarded c) (advertised c) (received c) x (peer_shutdown c)
    (local_shutdown c) (send_request c) (send_shutdown c)
    (send_credit_request c) (send_credit_update c) (deadline c).
Definition set_peer_shutdown (c : Connection) (x : Z) : Connection :=
  MkConnection (socket c) (guest_port c) (host_port c) (opener c)
    (established c) (readable c) (writable c) (credit c) (credit_requested
    c) (forwarded c) (advertised c) (received c) (incoming c) x
    (local_shutdown c) (send_request c) (send_shutdown c)
    (send_credit_request c) (send_credit_update c) (deadline c).
Definition set_local_shutdown (c : Connection) (x : Z) : Connection :=
  MkConnection (socket c) (guest_port c) (host_port c) (opener c)
    (established c) (readable c) (writable c) (credit c) (credit_requested
    c) (forwarded c) (advertised c) (received c) (incoming c) (peer_shutdown
    c) x (send_request c) (send_shutdown c) (send_credit_request c)
    (send_credit_update c) (deadline c).
Definition set_send_request (c : Connection) (x : bool) : Connection :=
  MkConnection (socket c) (guest_port c) (host_port c) (opener c)
    (established c) (readable c) (writable c) (credit c) (credit_requested
    c) (forwarded c) (advertised c) (received c) (incoming c) (peer_shutdown
    c) (local_shutdown c) x (send_shutdown c) (send_credit_request c)
    (send_credit_update c) (deadline c).
Definition set_send_shutdown (c : Connection) (x : Z) : Connection :=
  MkConnection (socket c) (guest_port c) (host_port c) (opener c)
    (established c) (readable c) (writable c) (credit c) (credit_requested
    c) (forwarded c) (advertised c) (received c) (incoming c) (peer_shutdown
    c) (local_shutdown c) (send_request c) x (send_credit_request c)
    (send_credit_update c) (deadline c).
Definition set_send_credit_request (c : Connection) (x : bool) : Connection :=
  MkConnection (socket c) (guest_port c) (host_port c) (opener c)
    (established c) (readable c) (writable c) (credit c) (credit_requested
    c) (forwarded c) (advertised c) (received c) (incoming c) (peer_shutdown
    c) (local_shutdown c) (send_request c) (send_shutdown c) x
    (send_credit_update c) (deadline c).
Definition set_send_credit_update (c : Connection) (x : bool) : Connection :=
  MkConnection (socket c) (guest_port c) (host_port c) (opener c)
    (established c) (readable c) (writable c) (credit c) (credit_requested
    c) (forwarded c) (advertised c) (received c) (incoming c) (peer_shutdown
    c) (local_shutdown c) (send_request c) (send_shutdown c)
    (send_credit_request c) x (deadline c).
Definition set_deadline (c : Connection) (x : option Z) : Connection :=
  MkConnection (socket c) (guest_port c) (host_port c) (opener c)
    (established c) (readable c) (writable c) (credit c) (credit_requested
    c) (forwarded c) (advertised c) (received c) (incoming c) (peer_shutdown
    c) (local_shutdown c) (send_request c) (send_shutdown c)
    (send_credit_request c) (send_credit_update c) x.

(** ** Guest buffers

    [trait RxBuffers]: the guest buffers on offer in one pass, in queue
    order. *)
Class RxBuffers (B : Type) := {
  rx_room : B -> Z -> option Z * B;
  rx_put_header : B -> Z -> Header -> B;
  rx_recv : B -> Socket -> Z -> Z -> result Z ErrorKind * B * Socket;
}.

(** ** One connection *)

Definition Connection_header (c : Connection) (o fl len : Z) : Header :=
  {| src_cid := HOST_CID; dst_cid := GUEST_CID;
     src_port := host_port c; dst_port := guest_port c;
     h_len := wrap 32 len; kind := STREAM; op := o; flags := fl;
     buf_alloc := BUFFER_SIZE; fwd_cnt := forwarded c |}.

Definition Connection_stamp (c : Connection) (o fl len : Z) : Header * Connection :=
  let c := set_send_credit_update (set_advertised c (forwarded c)) false in
  (Connection_header c o fl len, c).

Definition Connection_control `{RxBuffers B} (c : Connection) (b : B) (index o fl : Z)
    : Z * B * Connection :=
  let '(h, c) := Connection_stamp c o fl 0 in
  (1, rx_put_header b index h, c).

Definition Connection_sends_data (c : Connection) : bool :=
  established c && (Z.land (local_shutdown c) SEND =? 0)
  && (Z.land (peer_shutdown c) RECEIVE =? 0).

(** [n.to_string()] of an unsigned integer. *)
Fixpoint decimal_digits (fuel : nat) (n : Z) (acc : bytes) : bytes :=
  match fuel with
  | O => acc
  | S fuel =>
      let acc := z2b (48 + n mod 10) :: acc in
      if n <? 10 then acc else decimal_digits fuel (n / 10) acc
  end.
Definition decimal (n : Z) : bytes := decimal_digits 20 n [].

(** [format!("OK {}\n", self.host_port)] *)
Definition greeting (port : Z) : bytes := [x4f; x4b; x20] ++ decimal port ++ [x0a].

(** [self.opener.take()] and the notice to whoever opened the connection. *)
Definition notify_opener (c : Connection) : bool * Connection :=
  let o := opener c in
  let c := set_opener c None in
  match o with
  | Some (Caller waiting) => (waiting, c)
  | Some Listener =>
      let '(r, s) := sock_send (socket c) (greeting (host_port c)) in
      (match r with Ok n => n =? zlen (greeting (host_port c)) | Err _ => false end,
       set_socket c s)
  | None => (false, c)
  end.

(** The direct send loop of [receive]: while the socket takes bytes and
    nothing is queued ahead. Every iteration uses one outcome of the script,
    so its length and one is fuel enough. The flag is [false] where the code
    says [return false]. *)
Fixpoint direct_send (fuel : nat) (c : Connection) (payload : bytes) (offset : Z)
    : bool * Z * Connection :=
  match fuel with
  | O => (true, offset, c)
  | S fuel =>
      if writable c && bool_decide (incoming c = []) && (offset <? zlen payload) then
        let '(r, s) := sock_send (socket c) (zdrop offset payload) in
        let c := set_socket c s in
        match r with
        | Ok n =>
            if n =? 0 then (false, offset, c) else
            direct_send fuel (set_forwarded c (wrapping_add 32 (forwarded c) (wrap 32 n)))
                        payload (offset + n)
        | Err WouldBlock => direct_send fuel (set_writable c false) payload offset
        | Err Interrupted => direct_send fuel c payload offset
        | Err _ => (false, offset, c)
        end
      else (true, offset, c)
  end.

Definition send_fuel (c : Connection) : nat := S (length (sk_script (socket c))).

(** How much the guest may still send by the last count it was told. *)
Definition receive_window (c : Connection) : Z :=
  saturating_sub BUFFER_SIZE (wrapping_sub 32 (received c) (advertised c)).

(** The [RW] arm of [receive]. *)
Definition receive_rw (c : Connection) (payload : bytes) : bool * Connection :=
  if negb (Z.land (peer_shutdown c) SEND =? 0)
     || negb (Z.land (local_shutdown c) RECEIVE =? 0)
     || (receive_window c <? zlen payload)
  then (false, c) else
  let c := set_received c (wrapping_add 32 (received c) (wrap 32 (zlen payload))) in
  let '(ok, offset, c) := direct_send (send_fuel c) c payload 0 in
  if negb ok then (false, c) else
  (true, if offset <? zlen payload
         then set_incoming c (incoming c ++ zdrop offset payload) else c).

(** [!3] of a [u32]. *)
Definition not_3 : Z := 2 ^ 32 - 1 - 3.

(** The outcome, [false] for a connection to be reset, and the connection
    after it. *)
Definition Connection_receive (c : Connection) (header : Header) (payload : bytes)
    : bool * Connection :=
  match Credit_update (credit c) header with
  | None => (false, c)
  | Some cr =>
      let c := set_credit c cr in
      let c := if 0 <? Credit_available (credit c) then set_credit_requested c false else c in
      if negb (established c) then
        if negb (op header =? RESPONSE) then (false, c) else
        notify_opener (set_deadline (set_established c true) None)
      else if op header =? RW then receive_rw c payload
      else if op header =? CREDIT_UPDATE then (true, c)
      else if op header =? CREDIT_REQUEST then (true, set_send_credit_update c true)
      else if (op header =? SHUTDOWN) && negb (flags header =? 0)
              && (Z.land (flags header) not_3 =? 0) then
        let c := set_peer_shutdown c (Z.lor (peer_shutdown c) (flags header)) in
        (true, if negb (Z.land (flags header) RECEIVE =? 0)
               then set_socket c (snd (sock_shutdown true false (socket c))) else c)
      else (false, c)
  end.

(** The send loop of [pump] over the queued bytes. A send takes from the
    front slice of the deque: the outcome accounts for its length. *)
Fixpoint drain_incoming (fuel : nat) (c : Connection) : result unit ErrorKind * Connection :=
  match fuel with
  | O => (Ok tt, c)
  | S fuel =>
      if writable c && negb (bool_decide (incoming c = [])) then
        let '(r, s) := sock_send (socket c) (incoming c) in
        let c := set_socket c s in
        match r with
        | Ok n =>
            if n =? 0 then (Err WriteZero, c) else
            drain_incoming fuel
              (set_forwarded (set_incoming c (zdrop n (incoming c)))
                             (wrapping_add 32 (forwarded c) (wrap 32 n)))
        | Err WouldBlock => drain_incoming fuel (set_writable c false)
        | Err Interrupted => drain_incoming fuel c
        | Err e => (Err e, c)
        end
      else (Ok tt, c)
  end.

(** [pump] closes the write side once the guest is done sending and all of
    it went out. *)
Definition pump_shutdown (c : Connection) : result unit ErrorKind * Connection :=
  if bool_decide (incoming c = []) && negb (Z.land (peer_shutdown c) SEND =? 0)
     && (Z.land (local_shutdown c) RECEIVE =? 0)
  then
    let '(r, s) := sock_shutdown false true (socket c) in
    let c := set_socket c s in
    match r with
    | Err e => (Err e, c)
    | Ok _ => (Ok tt, set_local_shutdown c (Z.lor (local_shutdown c) RECEIVE))
    end
  else (Ok tt, c).

(** The rest of [pump]: the credit update and the closing handshake. *)
Definition pump_notices (now : Z) (c : Connection) : Connection :=
  let c := if negb (forwarded c =? advertised c) && (receive_window c <? MAX_PACKET)
           then set_send_credit_update c true else c in
  if (local_shutdown c =? 3) && bool_decide (deadline c = None)
  then set_deadline (set_send_shutdown c 3) (Some (now + HANDSHAKE_TIMEOUT)) else c.

Definition Connection_pump (now : Z) (c : Connection) : result bool ErrorKind * Connection :=
  if match deadline c with Some d => d <=? now | None => false end then (Ok false, c) else
  if negb (established c) then (Ok true, c) else
  let '(r, c) := drain_incoming (send_fuel c) c in
  match r with
  | Err e => (Err e, c)
  | Ok _ =>
      let '(r, c) := pump_shutdown c in
      match r with
      | Err e => (Err e, c)
      | Ok _ =>
          if (peer_shutdown c =? 3) && bool_decide (incoming c = []) then (Ok false, c)
          else (Ok true, pump_notices now c)
      end
  end.

Section fill.
Context `{RxBuffers B}.

(** The loop of [fill_data] that writes a header per buffer used. [left_]
    falls with every turn, so it is its own fuel. *)
Fixpoint stamp_packets (fuel : nat) (c : Connection) (b : B) (index left_ : Z)
    : Z * B * Connection :=
  match fuel with
  | O => (index, b, c)
  | S fuel =>
      if 0 <? left_ then
        let '(room, b) := rx_room b index in
        let len := Z.min (default 0 room) left_ in
        if len =? 0 then (index, b, c) else
        let '(header, c) := Connection_stamp c RW 0 len in
        stamp_packets fuel c (rx_put_header b index header) (index + 1) (left_ - len)
      else (index, b, c)
  end.

(** What [fill_data] does with the outcome of its [recv]. *)
Definition fill_received (c : Connection) (b : B) (first : Z) (r : result Z ErrorKind)
    : result Z ErrorKind * B * Connection :=
  match r with
  | Ok n =>
      if n =? 0 then
        let c := set_local_shutdown (set_readable c false) (Z.lor (local_shutdown c) SEND) in
        let '(used, b, c) := Connection_control c b first SHUTDOWN SEND in
        (Ok used, b, c)
      else
        let cr := credit c in
        let c := set_credit c (MkCredit (wrapping_add 32 (sent cr) (wrap 32 n))
                                        (peer_forwarded cr) (peer_alloc cr)) in
        let '(index, b, c) := stamp_packets (Z.to_nat n) c b first n in
        (Ok (index - first), b, c)
  | Err WouldBlock => (Ok 0, b, set_readable c false)
  | Err Interrupted => (Ok 0, b, c)
  | Err e => (Err e, b, c)
  end.

(** The guard asks for the room of the first buffer only when the
    connection is readable and sends data. *)
Definition Connection_fill_data (c : Connection) (b : B) (first : Z)
    : result Z ErrorKind * B * Connection :=
  if negb (readable c) || negb (Connection_sends_data c) then (Ok 0, b, c) else
  let '(room, b) := rx_room b first in
  if default 0 room =? 0 then (Ok 0, b, c) else
  let credit_ := Credit_available (credit c) in
  if credit_ =? 0 then
    (Ok 0, b, if credit_requested c then c
              else set_send_credit_request (set_credit_requested c true) true)
  else
    let '(r, b, s) := rx_recv b (socket c) first (Z.min credit_ MAX_TURN) in
    fill_received (set_socket c s) b first r.

(** How many buffers from [first] on now hold a packet. *)
Definition Connection_fill (c : Connection) (b : B) (first : Z)
    : result Z ErrorKind * B * Connection :=
  let ok r := let '(n, b, c) := (r : Z * B * Connection) in (Ok n, b, c) in
  if negb (established c) then
    if negb (send_request c) then (Ok 0, b, c)
    else ok (Connection_control (set_send_request c false) b first REQUEST 0)
  else if negb (send_shutdown c =? 0) then
    ok (Connection_control (set_send_shutdown c 0) b first SHUTDOWN (send_shutdown c))
  else
    let '(r, b, c) := Connection_fill_data c b first in
    match r with
    | Err e => (Err e, b, c)
    | Ok used =>
        if 0 <? used then (Ok used, b, c)
        else if send_credit_request c then
          ok (Connection_control (set_send_credit_request c false) b first CREDIT_REQUEST 0)
        else if send_credit_update c then
          ok (Connection_control c b first CREDIT_UPDATE 0)
        else (Ok 0, b, c)
    end.
End fill.

(** [impl Drop for Connection]: a caller still waiting is told, and the
    socket is shut down. What the caller is told is the second component. *)
Definition Connection_drop (c : Connection) : Connection * option ErrorKind :=
  (set_socket (set_opener c None) (snd (sock_shutdown true true (socket c))),
   match opener c with Some (Caller _) => Some ConnectionRefused | _ => None end).

(** ** The multiplexer *)

(** [dropped] records the connections the mux has let go of, newest first,
    with what their drop told the opener. *)
Record Mux := MkMux {
  connections : btree Connection;
  max_connections : Z;
  resets : list Header;
  next_port : Z;
  last_port : Z;
  dropped : list (Connection * option ErrorKind);
}.

Definition set_connections (m : Mux) (x : btree Connection) : Mux :=
  MkMux x (max_connections m) (resets m) (next_port m) (last_port m) (dropped m).
Definition set_resets (m : Mux) (x : list Header) : Mux :=
  MkMux (connections m) (max_connections m) x (next_port m) (last_port m) (dropped m).
Definition set_next_port (m : Mux) (x : Z) : Mux :=
  MkMux (connections m) (max_connections m) (resets m) x (last_port m) (dropped m).
Definition set_last_port (m : Mux) (x : Z) : Mux :=
  MkMux (connections m) (max_connections m) (resets m) (next_port m) x (dropped m).
Definition drop_connection (m : Mux) (c : Connection) : Mux :=
  MkMux (connections m) (max_connections m) (resets m) (next_port m) (last_port m)
        (Connection_drop c :: dropped m).

Definition Mux_with_limit (max : Z) : Mux := MkMux [] max [] 1024 0 [].

Definition Mux_clear (m : Mux) : Mux :=
  MkMux [] (max_connections m) [] (next_port m) 0
        (map (fun e => Connection_drop (snd e)) (connections m) ++ dropped m).

Definition max_resets (m : Mux) : Z := max_connections m + MAX_PENDING_RESETS.

Definition can_receive (m : Mux) : bool :=
  zlen (resets m) + zlen (connections m) <? max_resets m.

Definition new_connection (now : Z) (s : Socket) (gp port : Z) (o : Opener) : Connection :=
  MkConnection s gp port (Some o) false true true Credit_default false 0 0 0 [] 0 0
               true 0 false false (Some (now + HANDSHAKE_TIMEOUT)).

(** [nonblocking] is the outcome of [set_nonblocking]. *)
Definition Mux_add (now : Z) (m : Mux) (s : Socket) (gp : Z) (o : Opener)
    (nonblocking : result unit ErrorKind) : result Z ErrorKind * Mux :=
  if (max_connections m <=? zlen (connections m))
     || (max_resets m <=? zlen (connections m) + zlen (resets m))
  then (Err OutOfMemory, m) else
  match checked_add 32 (next_port m) 1 with
  | None => (Err Other, m)
  | Some port =>
      let m := set_next_port m port in
      match nonblocking with
      | Err e => (Err e, m)
      | Ok _ =>
          (Ok port, set_connections m
                      (bt_insert (connections m) port (new_connection now s gp port o)))
      end
  end.

Definition Mux_reset (m : Mux) (header : Header) : Mux :=
  if zlen (resets m) + zlen (connections m) <? max_resets m
  then set_resets m (resets m ++ [header]) else m.

Definition reset_unknown (m : Mux) (header : Header) : Mux :=
  Mux_reset m {| src_cid := HOST_CID; dst_cid := GUEST_CID;
                 src_port := dst_port header; dst_port := src_port header;
                 h_len := 0; kind := kind header; op := RST; flags := 0;
                 buf_alloc := 0; fwd_cnt := 0 |}.

Definition Mux_cancel (m : Mux) (port : Z) : Mux :=
  match bt_get (connections m) port with
  | None => m
  | Some c =>
      let m := set_connections m (bt_remove (connections m) port) in
      drop_connection (Mux_reset m (Connection_header c RST 0 0)) c
  end.

Definition Mux_wake (m : Mux) (port : Z) (rd wr : bool) : Mux :=
  match bt_get (connections m) port with
  | None => m
  | Some c =>
      set_connections m
        (bt_insert (connections m) port
           (set_writable (set_readable c (readable c || rd)) (writable c || wr)))
  end.

Definition packet_valid (header : Header) (payload : bytes) : bool :=
  (kind header =? STREAM) && (h_len header =? zlen payload)
  && ((op header =? RW) || bool_decide (payload = []))
  && ((op header =? SHUTDOWN) || (flags header =? 0)).

Definition Mux_receive (m : Mux) (header : Header) (payload : bytes) : Mux :=
  if negb (src_cid header =? GUEST_CID) || negb (dst_cid header =? HOST_CID) then m else
  match bt_get (connections m) (dst_port header) with
  | None => if negb (op header =? RST) then reset_unknown m header else m
  | Some c =>
      let gone := set_connections m (bt_remove (connections m) (dst_port header)) in
      let back c := set_connections m
                      (bt_insert (connections gone) (dst_port header) c) in
      if negb (guest_port c =? src_port header) then
        if negb (op header =? RST) then reset_unknown (back c) header else back c
      else if op header =? RST then drop_connection gone c
      else if packet_valid header payload then
        let '(ok, c) := Connection_receive c header payload in
        if ok then back c
        else drop_connection (Mux_reset gone (Connection_header c RST 0 0)) c
      else drop_connection (Mux_reset gone (Connection_header c RST 0 0)) c
  end.

(** The pass over the connections, and the ports it found closed. *)
Fixpoint pump_all (now : Z) (cs : btree Connection) : btree Connection * list Z :=
  match cs with
  | [] => ([], [])
  | (port, c) :: cs =>
      let '(r, c) := Connection_pump now c in
      let '(cs, closed) := pump_all now cs in
      ((port, c) :: cs,
       if match r with Ok b => b | Err _ => false end then closed else port :: closed)
  end.

Definition Mux_pump (now : Z) (m : Mux) : Mux :=
  let '(cs, closed) := pump_all now (connections m) in
  fold_left Mux_cancel closed (set_connections m cs).

Definition min_deadline (a b : option Z) : option Z :=
  match a, b with
  | Some a, Some b => Some (Z.min a b)
  | Some a, None => Some a
  | None, b => b
  end.

Definition next_deadline (m : Mux) : option Z :=
  foldr (fun e acc => min_deadline (deadline (snd e)) acc) None (connections m).

Section mux_fill.
Context `{RxBuffers B}.

(** One turn: the connections after [port] in cyclic order, at most [n] of
    them, until one has something to say. *)
Fixpoint turn_loop (n : nat) (m : Mux) (b : B) (first port : Z) : Z * B * Mux :=
  match n with
  | O => (0, b, m)
  | S n =>
      match match bt_next_after (connections m) port with
            | Some p => Some p
            | None => bt_first (connections m)
            end with
      | None => (0, b, m)
      | Some port =>
          match bt_get (connections m) port with
          | None => (0, b, m)
          | Some c =>
              let '(r, b, c) := Connection_fill c b first in
              let m := set_connections m (bt_insert (connections m) port c) in
              match r with
              | Err _ => (0, b, Mux_cancel m port)
              | Ok used =>
                  if used =? 0 then turn_loop n m b first port
                  else (used, b, set_last_port m port)
              end
          end
      end
  end.

Definition fill_turn (m : Mux) (b : B) (first : Z) : Z * B * Mux :=
  turn_loop (length (connections m)) m b first (last_port m).

(** [None] when the fuel runs out before the loop ends. *)
Fixpoint fill_loop (fuel : nat) (m : Mux) (b : B) (next : Z) : option (Z * B * Mux) :=
  match fuel with
  | O => None
  | S fuel =>
      let '(room, b) := rx_room b next in
      match room with
      | None => Some (next, b, m)
      | Some _ =>
          match resets m with
          | header :: rest =>
              fill_loop fuel (set_resets m rest) (rx_put_header b next header) (next + 1)
          | [] =>
              let '(used, b, m) := fill_turn m b next in
              if (used =? 0) && bool_decide (resets m = []) then Some (next, b, m)
              else fill_loop fuel m b (next + used)
          end
      end
  end.

Definition Mux_fill (fuel : nat) (m : Mux) (b : B) : option (Z * B * Mux) :=
  fill_loop fuel m b 0.
End mux_fill.
