(* ===== verification/VsockConn.v ===== *)
(** * One vsock connection

    Theorems on [Vsock]: the header codec, credit as a window over unbounded
    counters, and the two byte streams of a connection. The guest's bytes
    reach the host socket in order and complete, with at most [BUFFER_SIZE]
    of them queued; the host's bytes reach guest buffers in order and never
    beyond the credit the guest gave. *)

From Stdlib Require Import Strings.Byte.
From S2P Require Import Prelude BTree Vsock.

(** ** Headers *)

Lemma zlen_encode h : zlen (Header_encode h) = HEADER_LEN.
Proof. unfold Header_encode. autorewrite with zlen. reflexivity. Qed.

(** Skips the fields before a slice, then reads it. *)
Ltac slice_field :=
  repeat (rewrite zslice_app_r by (autorewrite with zlen; lia); rewrite zlen_le_bytes);
  match goal with
  | |- context [zslice ?a ?b _] =>
      let a' := eval compute in a in let b' := eval compute in b in
      change (zslice a b) with (@zslice byte a' b')
  end;
  rewrite zslice_app_exact by (autorewrite with zlen; reflexivity).

Lemma decode_encode h rest : Header_wf h -> Header_decode (Header_encode h ++ rest) = Some h.
Proof.
  intros Hwf. unfold Header_decode. rewrite (proj2 (Z.ltb_ge _ _)).
  2: { rewrite zlen_app, zlen_encode. zlen_lia. }
  unfold Header_encode. rewrite <-!app_assoc.
  destruct h as [a b c d e f g i j k], Hwf as (?&?&?&?&?&?&?&?&?&?);
    cbn [src_cid dst_cid src_port dst_port h_len kind op flags buf_alloc fwd_cnt] in *.
  f_equal. f_equal; slice_field; by apply le_val_small.
Qed.

Lemma decode_width bs a b w :
  0 <= a -> a <= b -> b <= zlen bs -> w = 8 * (b - a) -> in_width w (le_val (zslice a b bs)).
Proof.
  intros ? ? ? ->. unfold in_width. pose proof (le_val_range (zslice a b bs)) as Hr.
  rewrite zlen_slice in Hr by done. by rewrite Z.pow_mul_r by lia.
Qed.

Lemma encode_decode bs h :
  Header_decode bs = Some h -> Header_wf h /\ Header_encode h = ztake HEADER_LEN bs.
Proof.
  unfold Header_decode, HEADER_LEN. case_test; [done|]. bool_to_prop. intros [= <-].
  split.
  - unfold Header_wf; simpl. split_and!; apply decode_width; lia.
  - unfold Header_encode.
    cbn [src_cid dst_cid src_port dst_port h_len kind op flags buf_alloc fwd_cnt].
    repeat (rewrite le_bytes_val by (rewrite zlen_slice by lia; reflexivity)).
    repeat (rewrite zslice_cat by lia). unfold zslice. by rewrite zdrop_nonpos.
Qed.

(** The header codec: what [encode] writes, [decode] reads back, whatever
    follows; and a header [decode] gives encodes to the bytes it was read
    from. *)
Theorem header_roundtrip h rest bs h' :
  Header_wf h -> Header_decode bs = Some h' ->
  Header_decode (Header_encode h ++ rest) = Some h /\
  Header_wf h' /\ Header_encode h' = ztake HEADER_LEN bs.
Proof. intros. split; [by apply decode_encode|by apply encode_decode]. Qed.

Lemma header_roundtrip_witness :
  exists h rest, Header_decode (Header_encode h ++ rest) = Some h /\
  exists h', Header_wf h' /\ Header_encode h' = replicate 44 x01.
Proof.
  exists (MkHeader 3 2 1500 1025 7 1 5 0 262144 (2 ^ 32 - 1)), [x61].
  destruct (header_roundtrip (MkHeader 3 2 1500 1025 7 1 5 0 262144 (2 ^ 32 - 1)) [x61]
              (replicate 44 x01)
              (default (MkHeader 0 0 0 0 0 0 0 0 0 0) (Header_decode (replicate 44 x01))))
    as (H1 & H2 & H3).
  - unfold Header_wf, in_width; simpl; lia.
  - reflexivity.
  - split; [exact H1|]. eexists. split; [exact H2|exact H3].
Defined.

(** ** Credit *)

(** Credit is flow control over unbounded counters. With [s] bytes sent and
    [f] of them acknowledged, of which at most 2^32 - 1 are in flight, an
    acknowledgement is accepted exactly when it stands for a count between
    [f] and [s], and what may be sent then is the peer's buffer less what is
    in flight. *)
Theorem credit_window s f alloc h :
  0 <= s - f < 2 ^ 32 -> in_width 32 (fwd_cnt h) ->
  let cr := MkCredit (wrap 32 s) (wrap 32 f) alloc in
  (forall cr', Credit_update cr h = Some cr' <->
     exists f', f <= f' <= s /\ fwd_cnt h = wrap 32 f' /\
                cr' = MkCredit (wrap 32 s) (wrap 32 f') (buf_alloc h)) /\
  (forall f', f <= f' <= s ->
     Credit_available (MkCredit (wrap 32 s) (wrap 32 f') alloc) = Z.max 0 (alloc - (s - f'))).
Proof.
  intros Hsf Hw cr. split.
  - intros cr'. unfold Credit_update; simpl. rewrite wrapping_sub_wrap.
    rewrite (wrap_small 32 (s - f)) by done.
    rewrite <-(wrap_small 32 (fwd_cnt h) Hw), wrapping_sub_wrap.
    set (d := wrap 32 (fwd_cnt h - f)).
    pose proof (wrap_in_width 32 (fwd_cnt h - f) ltac:(lia)) as Hd. fold d in Hd.
    destruct Hd as [Hd0 Hd1].
    assert (Hfw : wrap 32 (f + d) = wrap 32 (fwd_cnt h)).
    { unfold d, wrap. rewrite Zplus_mod_idemp_r. f_equal. lia. }
    case_test; bool_to_prop; split.
    + done.
    + intros (f' & ? & Hf' & _). exfalso. unfold d in *.
      rewrite (wrap_small 32 (fwd_cnt h)) in Hf' by done.
      rewrite Hf' in *. unfold wrap in *. rewrite Zminus_mod_idemp_l in *.
      rewrite Z.mod_small in * by lia. lia.
    + intros [= <-]. exists (f + d). rewrite Hfw. split_and!; [lia..|done|].
      by rewrite (wrap_small 32 (fwd_cnt h)).
    + intros (f' & ? & Hf' & ->). rewrite <-Hf'.
      by rewrite (wrap_small 32 (fwd_cnt h)).
  - intros f' ?. unfold Credit_available; simpl. rewrite wrapping_sub_wrap.
    rewrite wrap_small; [done|]. unfold in_width. lia.
Qed.

Lemma credit_window_witness :
  Credit_update (MkCredit 10 (2 ^ 32 - 10) 1) (MkHeader 3 2 9 9 0 1 6 0 100 5)
    = Some (MkCredit 10 5 100) /\
  Credit_update (MkCredit 10 (2 ^ 32 - 10) 1) (MkHeader 3 2 9 9 0 1 6 0 100 11) = None.
Proof.
  destruct (credit_window (2 ^ 32 + 10) (2 ^ 32 - 10) 1 (MkHeader 3 2 9 9 0 1 6 0 100 5))
    as [H _]; [lia|split; simpl; lia|].
  split; [|reflexivity].
  apply (H (MkCredit 10 5 100)). exists (2 ^ 32 + 5). split_and!; [lia..|reflexivity|reflexivity].
Defined.

(** ** From the guest to the host *)

Lemma sock_send_spec s bs r s' :
  sock_send s bs = (r, s') ->
  match r with
  | Ok n => 0 <= n <= zlen bs /\ sk_sent s' = sk_sent s ++ ztake n bs /\
            (length (sk_script s') < length (sk_script s))%nat
  | Err e => sk_sent s' = sk_sent s /\
             (e <> WouldBlock -> (length (sk_script s') < length (sk_script s))%nat)
  end /\ (length (sk_script s') <= length (sk_script s))%nat.
Proof.
  unfold sock_send, next_outcome.
  destruct (sk_script s) as [|[n|e] rest] eqn:E; intros [= <- <-]; simpl; rewrite ?E; simpl;
    split_and!; try done; zlen_lia.
Qed.

(** What the send loops change: the socket, the write readiness and the
    forwarded count. *)
Definition after_send (c : Connection) (s : Socket) (w : bool) (f : Z) : Connection :=
  set_forwarded (set_writable (set_socket c s) w) f.

Lemma after_send_self c : after_send c (socket c) (writable c) (forwarded c) = c.
Proof. by destruct c. Qed.

Lemma after_send_trans c s w f s' w' f' :
  after_send (after_send c s w f) s' w' f' = after_send c s' w' f'.
Proof. done. Qed.

(** The socket after [k] bytes of [p] from [off] on went out. *)
Definition sent_from (c c' : Connection) (p : bytes) (off off' F : Z) : Prop :=
  off <= off' <= zlen p /\
  exists s w, c' = after_send c s w (wrap 32 (F + (off' - off))) /\
    sk_sent s = sk_sent (socket c) ++ zslice off off' p.

Lemma sent_from_none c s w p off F :
  0 <= off <= zlen p -> forwarded c = wrap 32 F -> sk_sent s = sk_sent (socket c) ->
  sent_from c (set_writable (set_socket c s) w) p off off F.
Proof.
  intros ? HF Hs. split; [lia|]. exists s, w. unfold zslice.
  rewrite Z.sub_diag, Z.add_0_r, <-HF, ztake_nonpos, app_nil_r by lia. done.
Qed.

Lemma sent_from_step c c' p off n off' F s :
  0 <= off -> 0 <= n -> sk_sent s = sk_sent (socket c) ++ ztake n (zdrop off p) ->
  sent_from (set_forwarded (set_socket c s) (wrap 32 (F + n))) c' p (off + n) off' (F + n) ->
  sent_from c c' p off off' F.
Proof.
  intros ? ? Hs (Hb & s' & w & -> & Hs'). split; [lia|]. exists s', w. split.
  - change (after_send c s' w (wrap 32 (F + n + (off' - (off + n))))
            = after_send c s' w (wrap 32 (F + (off' - off)))). do 2 f_equal. lia.
  - rewrite Hs'. simpl. rewrite Hs, <-app_assoc. f_equal.
    rewrite <-(zslice_cat off (off + n) off') by lia. f_equal. unfold zslice. f_equal. lia.
Qed.

(** The direct send hands on a prefix of what is left of the payload. *)
Lemma direct_send_spec fuel p : forall c off ok off' c' F,
  direct_send fuel c p off = (ok, off', c') -> 0 <= off <= zlen p ->
  forwarded c = wrap 32 F ->
  sent_from c c' p off off' F /\ (off < off' -> incoming c = []).
Proof.
  assert (Hend : forall c off F, 0 <= off <= zlen p -> forwarded c = wrap 32 F ->
            sent_from c c p off off F /\ (off < off -> incoming c = [])).
  { intros c off F ? ?. split; [|lia].
    pose proof (sent_from_none c (socket c) (writable c) p off F) as H'.
    destruct c; by apply H'. }
  induction fuel as [|fuel IH]; intros c off ok off' c' F Hd Hoff HF; simpl in Hd.
  { injection Hd as <- <- <-. by apply Hend. }
  case_test_in Hd; [|injection Hd as <- <- <-; by apply Hend].
  bool_to_prop.
  destruct (sock_send (socket c) (zdrop off p)) as [[n|e] s] eqn:Es;
    apply sock_send_spec in Es as [Hr _].
  - destruct Hr as (Hn & Hs & _). rewrite zlen_drop in Hn.
    case_test_in Hd; bool_to_prop.
    + injection Hd as <- <- <-. split; [|lia]. subst n.
      rewrite ztake_nonpos, app_nil_r in Hs by lia.
      pose proof (sent_from_none c s (writable c) p off F) as H'. destruct c; by apply H'.
    + rewrite HF, wrapping_add_wrap in Hd.
      replace (wrap 32 (F + wrap 32 n)) with (wrap 32 (F + n)) in Hd
        by (unfold wrap; by rewrite Zplus_mod_idemp_r).
      apply (IH _ _ _ _ _ (F + n)) in Hd as [Hd _]; [|simpl; lia|done].
      split; [|done]. apply (sent_from_step _ _ _ _ n _ _ s); [lia..|done|done].
  - assert (Hgo : forall w0, direct_send fuel (set_writable (set_socket c s) w0) p off
                              = (ok, off', c') ->
              sent_from c c' p off off' F /\ (off < off' -> incoming c = [])).
    { intros w0 Hd'. apply (IH _ _ _ _ _ F) in Hd' as [(Hb & s' & w & -> & Hs') Hi]; [|done..].
      split; [|done]. split; [done|]. exists s', w. split; [done|].
      rewrite Hs'. simpl. by rewrite (proj1 Hr). }
    destruct e;
      try (injection Hd as <- <- <-; split; [|lia];
           pose proof (sent_from_none c s (writable c) p off F Hoff HF (proj1 Hr)) as H';
           destruct c; exact H').
    + by apply (Hgo false).
    + apply (Hgo (writable c)). by destruct c.
Qed.

(** It stops short of the end only when the socket stops taking bytes. *)
Lemma direct_send_stops fuel p : forall c off off' c',
  direct_send fuel c p off = (true, off', c') ->
  ((send_fuel c <= fuel)%nat \/ writable c = false) ->
  writable c' = false \/ incoming c' <> [] \/ zlen p <= off'.
Proof.
  induction fuel as [|fuel IH]; intros c off off' c' Hd Hf; simpl in Hd.
  { injection Hd as <- <-. destruct Hf as [Hf|?]; [unfold send_fuel in Hf; lia|auto]. }
  case_test_in Hd.
  2: { injection Hd as <- <-. apply andb_false_iff in Heqb as [Hb|Hb]; bool_to_prop; [|auto].
       destruct Hb; bool_to_prop; auto. }
  bool_to_prop. destruct Hf as [Hf|Hf]; [|congruence].
  destruct (sock_send (socket c) (zdrop off p)) as [[n|e] s] eqn:Es;
    apply sock_send_spec in Es as [Hr _].
  - case_test_in Hd; [done|]. eapply IH; [exact Hd|]. left. unfold send_fuel in *. simpl. lia.
  - destruct e; try done.
    + eapply IH; [exact Hd|]. by right.
    + eapply IH; [exact Hd|]. left. unfold send_fuel in *. simpl.
      assert (length (sk_script s) < length (sk_script (socket c)))%nat by (by apply Hr). lia.
Qed.

(** The connection after the first [k] queued bytes went out. *)
Definition drained (c c' : Connection) (k F : Z) : Prop :=
  0 <= k <= zlen (incoming c) /\
  exists s w, c' = set_incoming (after_send c s w (wrap 32 (F + k))) (zdrop k (incoming c)) /\
    sk_sent s = sk_sent (socket c) ++ ztake k (incoming c).

Lemma drained_none c s w F :
  forwarded c = wrap 32 F -> sk_sent s = sk_sent (socket c) ->
  drained c (set_writable (set_socket c s) w) 0 F.
Proof.
  intros HF Hs. split; [zlen_lia|]. exists s, w.
  rewrite Z.add_0_r, <-HF, ztake_nonpos, zdrop_nonpos, app_nil_r by lia. done.
Qed.

Lemma drained_self c F : forwarded c = wrap 32 F -> drained c c 0 F.
Proof.
  intros. pose proof (drained_none c (socket c) (writable c) F) as H'.
  destruct c; by apply H'.
Qed.

Lemma drained_step c c' s n k F :
  0 <= n <= zlen (incoming c) -> sk_sent s = sk_sent (socket c) ++ ztake n (incoming c) ->
  drained (set_forwarded (set_incoming (set_socket c s) (zdrop n (incoming c)))
                         (wrap 32 (F + n))) c' k (F + n) ->
  drained c c' (n + k) F.
Proof.
  intros ? Hs (Hb & s' & w & -> & Hs'). simpl in Hb, Hs'. rewrite zlen_drop in Hb.
  split; [lia|]. exists s', w. split.
  - change (set_incoming (after_send c s' w (wrap 32 (F + n + k)))
                         (zdrop k (zdrop n (incoming c)))
            = set_incoming (after_send c s' w (wrap 32 (F + (n + k))))
                           (zdrop (n + k) (incoming c))).
    by rewrite zdrop_zdrop, Z.add_assoc by lia.
  - rewrite Hs', Hs, <-app_assoc, ztake_plus by lia. done.
Qed.

Lemma drain_incoming_spec fuel : forall c r c' F,
  drain_incoming fuel c = (r, c') -> forwarded c = wrap 32 F ->
  exists k, drained c c' k F.
Proof.
  induction fuel as [|fuel IH]; intros c r c' F Hd HF; simpl in Hd.
  { injection Hd as <- <-. exists 0. by apply drained_self. }
  case_test_in Hd; [|injection Hd as <- <-; exists 0; by apply drained_self].
  destruct (sock_send (socket c) (incoming c)) as [[n|e] s] eqn:Es;
    apply sock_send_spec in Es as [Hr _].
  - destruct Hr as (Hn & Hs & _). case_test_in Hd; bool_to_prop.
    + injection Hd as <- <-. exists 0. subst n.
      rewrite ztake_nonpos, app_nil_r in Hs by lia.
      pose proof (drained_none c s (writable c) F HF Hs) as H'. by destruct c.
    + cbn [forwarded set_incoming set_socket incoming] in Hd.
      rewrite HF, wrapping_add_wrap in Hd.
      replace (wrap 32 (F + wrap 32 n)) with (wrap 32 (F + n)) in Hd
        by (unfold wrap; by rewrite Zplus_mod_idemp_r).
      apply (IH _ _ _ (F + n)) in Hd as [k Hk]; [|done].
      exists (n + k). by apply (drained_step _ _ s).
  - assert (Hgo : forall w0, drain_incoming fuel (set_writable (set_socket c s) w0) = (r, c') ->
              exists k, drained c c' k F).
    { intros w0 Hd'. apply (IH _ _ _ F) in Hd' as (k & Hb & s' & w & -> & Hs'); [|done].
      exists k. split; [done|]. exists s', w. split; [done|].
      rewrite Hs'. simpl. by rewrite (proj1 Hr). }
    destruct e;
      try (injection Hd as <- <-; exists 0;
           pose proof (drained_none c s (writable c) F HF (proj1 Hr)) as H'; by destruct c).
    + by apply (Hgo false).
    + apply (Hgo (writable c)). by destruct c.
Qed.

Lemma drain_incoming_stops fuel : forall c c',
  drain_incoming fuel c = (Ok tt, c') ->
  ((send_fuel c <= fuel)%nat \/ writable c = false) ->
  writable c' = false \/ incoming c' = [].
Proof.
  induction fuel as [|fuel IH]; intros c c' Hd Hf; simpl in Hd.
  { injection Hd as <-. destruct Hf as [Hf|?]; [unfold send_fuel in Hf; lia|auto]. }
  case_test_in Hd.
  2: { injection Hd as <-. apply andb_false_iff in Heqb as [Hb|Hb]; bool_to_prop; auto. }
  bool_to_prop. destruct Hf as [Hf|Hf]; [|congruence].
  destruct (sock_send (socket c) (incoming c)) as [[n|e] s] eqn:Es;
    apply sock_send_spec in Es as [Hr _].
  - case_test_in Hd; [done|]. eapply IH; [exact Hd|]. left. unfold send_fuel in *. simpl. lia.
  - destruct e; try done.
    + eapply IH; [exact Hd|]. by right.
    + eapply IH; [exact Hd|]. left. unfold send_fuel in *. simpl.
      assert (length (sk_script s) < length (sk_script (socket c)))%nat by (by apply Hr). lia.
Qed.

(** ** Guest buffers, and what they promise *)

Record Slot := MkSlot { slot_size : nat; slot_header : option Header; slot_data : bytes }.
Definition slot_room (s : Slot) : Z := Z.of_nat (slot_size s).

Definition set_header (h : Header) (s : Slot) : Slot :=
  MkSlot (slot_size s) (Some h) (slot_data s).

(** Lays bytes out over buffers, filling each to its room. *)
Fixpoint lay_out (slots : list Slot) (bs : bytes) : list Slot :=
  match slots with
  | [] => []
  | s :: rest =>
      let n := slot_room s in
      if bool_decide (bs = []) || (n <=? 0) then slots
      else MkSlot (slot_size s) (slot_header s) (ztake n bs) :: lay_out rest (zdrop n bs)
  end.

(** The room of the buffers in a row, up to one without any. *)
Fixpoint total_room (slots : list Slot) : Z :=
  match slots with
  | [] => 0
  | s :: rest => if slot_room s <=? 0 then 0 else slot_room s + total_room rest
  end.

(** What the connections rely on. The buffers on offer are fixed for the
    pass; looking at one changes nothing; a header goes to its own buffer; a
    read takes at most [max] bytes, and at most what the buffers hold, and
    lays them out in order. *)
Class RxLaws (B : Type) `{RxBuffers B} := {
  rx_slots : B -> list Slot;
  rx_room_spec b i : 0 <= i ->
    fst (rx_room b i) = slot_room <$> znth (rx_slots b) i /\
    rx_slots (snd (rx_room b i)) = rx_slots b;
  rx_put_spec b i h : 0 <= i < zlen (rx_slots b) ->
    rx_slots (rx_put_header b i h) =
    alter (set_header h) (Z.to_nat i) (rx_slots b);
  rx_recv_spec b s first max : 0 <= first < zlen (rx_slots b) -> 0 < max ->
    0 < total_room (zdrop first (rx_slots b)) ->
    exists cap b', 0 < cap <= Z.min max (total_room (zdrop first (rx_slots b))) /\
    match sock_read s cap with
    | (Err e, s') => rx_recv b s first max = (Err e, b', s') /\ rx_slots b' = rx_slots b
    | (Ok bs, s') =>
        rx_recv b s first max = (Ok (zlen bs), b', s') /\
        rx_slots b' = ztake first (rx_slots b) ++ lay_out (zdrop first (rx_slots b)) bs
    end;
}.

Lemma sock_read_spec s cap r s' :
  sock_read s cap = (r, s') -> 0 < cap ->
  sk_sent s' = sk_sent s /\
  match r with
  | Ok bs => sk_input s = bs ++ sk_input s' /\ zlen bs <= cap
  | Err _ => sk_input s' = sk_input s
  end.
Proof.
  unfold sock_read. intros H ?.
  destruct (next_outcome s) as [o s1] eqn:En.
  assert (sk_sent s1 = sk_sent s /\ sk_input s1 = sk_input s) as [Hs1 Hi1].
  { unfold next_outcome in En. destruct (sk_script s); by injection En as <- <-. }
  rewrite <-Hs1, <-Hi1.
  assert (Hrest : (if bool_decide (sk_input s1 = []) || shut_read s1 then
            if sk_eof s1 || shut_read s1 then (Ok [], s1) else (Err WouldBlock, s1)
          else
            let n := Z.min (Z.max 1 match o with Some (Did n) => n | _ => cap end) cap in
            (Ok (ztake n (sk_input s1)),
             MkSocket (sk_script s1) (sk_sent s1) (zdrop n (sk_input s1)) (sk_eof s1)
                  (sk_shutdown s1) (shut_read s1) (shut_write s1))) = (r, s') ->
     sk_sent s' = sk_sent s1 /\
     match r with
     | Ok bs => sk_input s1 = bs ++ sk_input s' /\ zlen bs <= cap
     | Err _ => sk_input s' = sk_input s1
     end).
  { repeat case_test; intros [= <- <-]; simpl; rewrite ?ztake_zdrop;
      split_and!; try done; zlen_lia. }
  destruct o as [[n|e]|]; try by apply Hrest.
  by injection H as <- <-.
Qed.

Lemma total_room_nonneg l : 0 <= total_room l.
Proof. induction l; simpl; [done|]. case_test; lia. Qed.

Section rx.
Context `{RB : RxBuffers B, RL : !RxLaws B}.
Implicit Types (b : B) (c : Connection).

Lemma rx_room_Some b i n b' :
  0 <= i -> rx_room b i = (Some n, b') ->
  rx_slots b' = rx_slots b /\ 0 <= n /\ 0 <= i < zlen (rx_slots b) /\
  exists s, znth (rx_slots b) i = Some s /\ slot_room s = n.
Proof.
  intros Hi Hr. destruct (rx_room_spec b i Hi) as [H1 H2]. rewrite Hr in H1, H2. simpl in *.
  destruct (znth (rx_slots b) i) as [s|] eqn:E; [|done]. injection H1 as ->.
  pose proof (znth_lt_Some _ _ _ E). unfold slot_room in *.
  split_and!; try done; try lia. by exists s.
Qed.

Lemma total_room_pos b i s :
  znth (rx_slots b) i = Some s -> 0 < slot_room s ->
  slot_room s <= total_room (zdrop i (rx_slots b)).
Proof.
  intros Hz Hs. rewrite (znth_zdrop _ _ _ Hz). simpl. case_test; bool_to_prop; [lia|].
  pose proof (total_room_nonneg (zdrop (i + 1) (rx_slots b))). lia.
Qed.

(** What filling guest buffers leaves alone of the other direction. *)
Definition fill_keeps c c' : Prop :=
  incoming c' = incoming c /\ received c' = received c /\ forwarded c' = forwarded c /\
  sk_sent (socket c') = sk_sent (socket c) /\ established c' = established c /\
  opener c' = opener c /\ host_port c' = host_port c /\ guest_port c' = guest_port c /\
  (advertised c' = advertised c \/ advertised c' = forwarded c).

Lemma fill_keeps_refl c : fill_keeps c c.
Proof. unfold fill_keeps. by auto 20. Qed.

Lemma fill_keeps_trans c1 c2 c3 : fill_keeps c1 c2 -> fill_keeps c2 c3 -> fill_keeps c1 c3.
Proof.
  unfold fill_keeps. intros (?&?&Hf&?&?&?&?&?&Ha) (?&?&?&?&?&?&?&?&Hb).
  split_and!; try congruence. rewrite <-Hf in *. destruct Ha, Hb; intuition congruence.
Qed.

Lemma control_keeps c b i o fl n b' c' :
  Connection_control c b i o fl = (n, b', c') -> fill_keeps c c'.
Proof. unfold Connection_control; simpl. intros [= <- <- <-]. unfold fill_keeps. simpl. by auto 20. Qed.

Lemma stamp_packets_keeps fuel : forall c b i l i' b' c',
  stamp_packets fuel c b i l = (i', b', c') -> fill_keeps c c'.
Proof.
  induction fuel as [|fuel IH]; intros c b i l i' b' c' H; simpl in H.
  - injection H as <- <- <-. apply fill_keeps_refl.
  - case_test_in H; [|injection H as <- <- <-; apply fill_keeps_refl].
    destruct (rx_room b i) as [room b1]. case_test_in H.
    { injection H as <- <- <-; apply fill_keeps_refl. }
    eapply fill_keeps_trans; [|exact (IH _ _ _ _ _ _ _ H)].
    unfold fill_keeps. simpl. by auto 20.
Qed.

Lemma fill_received_keeps c b first r r' b' c' :
  fill_received c b first r = (r', b', c') -> fill_keeps c c'.
Proof.
  unfold fill_received. destruct r as [n|e].
  - case_test.
    + destruct (Connection_control _ b first SHUTDOWN SEND) as [[n' b1] c1] eqn:E.
      intros [= <- <- <-]. eapply fill_keeps_trans; [|eapply control_keeps; exact E].
      unfold fill_keeps. simpl. by auto 20.
    + destruct (stamp_packets _ _ b first n) as [[i b1] c1] eqn:E.
      intros [= <- <- <-]. eapply fill_keeps_trans; [|eapply stamp_packets_keeps; exact E].
      unfold fill_keeps. simpl. by auto 20.
  - destruct e; intros [= <- <- <-]; unfold fill_keeps; simpl; by auto 20.
Qed.

Lemma fill_data_keeps c b first r b' c' :
  0 <= first -> Connection_fill_data c b first = (r, b', c') -> fill_keeps c c'.
Proof.
  intros Hfirst. unfold Connection_fill_data. case_test; [intros [= <- <- <-]; apply fill_keeps_refl|].
  destruct (rx_room b first) as [room b1] eqn:Er.
  case_test; bool_to_prop; [intros [= <- <- <-]; apply fill_keeps_refl|].
  destruct room as [n|]; [|done]. simpl in *.
  case_test; bool_to_prop.
  { intros [= <- <- <-]. case_test; [apply fill_keeps_refl|]. unfold fill_keeps; simpl; by auto 20. }
  apply rx_room_Some in Er as (Hsl & ? & ? & s & Hz & Hs); [|done].
  assert (0 < Z.min (Credit_available (credit c)) MAX_TURN).
  { unfold Credit_available, saturating_sub, MAX_TURN in *. lia. }
  destruct (rx_recv_spec b1 (socket c) first (Z.min (Credit_available (credit c)) MAX_TURN))
    as (cap & b2 & Hcap & Hrecv); [by rewrite Hsl|done|..].
  { rewrite Hsl. pose proof (total_room_pos _ _ _ Hz). lia. }
  assert (Hkeep : forall s', sk_sent s' = sk_sent (socket c) -> fill_keeps c (set_socket c s')).
  { intros. unfold fill_keeps; simpl. by auto 20. }
  destruct (sock_read (socket c) cap) as [[bs|e] s'] eqn:Ek; destruct Hrecv as [-> _];
    apply sock_read_spec in Ek as [Hsent _]; try lia;
    intros Hfr; apply fill_received_keeps in Hfr; eapply fill_keeps_trans; eauto.
Qed.

Lemma fill_keeps_spec c b first r b' c' :
  0 <= first -> Connection_fill c b first = (r, b', c') -> fill_keeps c c'.
Proof.
  intros Hfirst. unfold Connection_fill. intros H. case_test_in H.
  { case_test_in H; [injection H as <- <- <-; apply fill_keeps_refl|].
    destruct (Connection_control _ b first REQUEST 0) as [[n b1] c1] eqn:E.
    injection H as <- <- <-. apply control_keeps in E.
    eapply fill_keeps_trans; [|exact E]. unfold fill_keeps; simpl; by auto 20. }
  case_test_in H.
  { destruct (Connection_control _ b first SHUTDOWN _) as [[n b1] c1] eqn:E.
    injection H as <- <- <-. apply control_keeps in E.
    eapply fill_keeps_trans; [|exact E]. unfold fill_keeps; simpl; by auto 20. }
  destruct (Connection_fill_data c b first) as [[r1 b1] c1] eqn:E1.
  apply fill_data_keeps in E1; [|done].
  destruct r1 as [used|e]; [|by injection H as <- <- <-].
  case_test_in H; [by injection H as <- <- <-|].
  case_test_in H.
  { destruct (Connection_control _ b1 first CREDIT_REQUEST 0) as [[n b2] c2] eqn:E.
    injection H as <- <- <-. apply control_keeps in E.
    eapply fill_keeps_trans; [exact E1|]. eapply fill_keeps_trans; [|exact E].
    unfold fill_keeps; simpl; by auto 20. }
  case_test_in H; [|by injection H as <- <- <-].
  destruct (Connection_control _ b1 first CREDIT_UPDATE 0) as [[n b2] c2] eqn:E.
  injection H as <- <- <-. apply control_keeps in E. by eapply fill_keeps_trans.
Qed.
End rx.

(** ** The guest's stream *)

(** What the opener is told on the socket before any guest data. *)
Definition hello_of (c : Connection) (o : Opener) : bytes :=
  if established c then match o with Listener => greeting (host_port c) | Caller _ => [] end
  else [].

(** [g] is what the connection accepted from the guest. Its first [f] bytes
    went out after the greeting, the rest is queued, and the guest knows of
    [a] of them. The three 32-bit counters are these counts. *)
Record stream_inv (o : Opener) (s0 : Socket) (g : bytes) (c : Connection) (a f : Z) : Prop := {
  si_order : 0 <= a <= f /\ f <= zlen g;
  si_window : zlen g - a <= BUFFER_SIZE;
  si_advertised : advertised c = wrap 32 a;
  si_forwarded : forwarded c = wrap 32 f;
  si_received : received c = wrap 32 (zlen g);
  si_sent : sk_sent (socket c) = sk_sent s0 ++ hello_of c o ++ ztake f g;
  si_queued : incoming c = zdrop f g;
  si_opening : established c = false -> g = [] /\ opener c = Some o;
}.

Definition stream_ok o s0 g c : Prop := exists a f, stream_inv o s0 g c a f.

Lemma stream_ok_new now s gp port o : stream_ok o s [] (new_connection now s gp port o).
Proof.
  exists 0, 0. split; simpl; rewrite ?app_nil_r; try done.
Qed.

(** Steps that move no guest bytes. *)
Lemma stream_ok_keeps o s0 g c c' :
  stream_ok o s0 g c -> fill_keeps c c' -> stream_ok o s0 g c'.
Proof.
  intros (a & f & [(?&?) ? Ha Hf Hr Hs Hq Ho]) (Ki&Kr&Kf&Ks&Ke&Kop&Khp&_&Ka).
  assert (Hhello : hello_of c' o = hello_of c o) by (unfold hello_of; by rewrite Ke, Khp).
  destruct Ka as [Ka|Ka]; [exists a, f|exists f, f];
    split; rewrite ?Hhello; try congruence; try lia; rewrite Ke, Kop; done.
Qed.

Lemma receive_window_spec o s0 g c a f :
  stream_inv o s0 g c a f -> receive_window c = BUFFER_SIZE - (zlen g - a).
Proof.
  intros [? ? Ha Hf Hr _ _ _]. unfold receive_window, saturating_sub.
  rewrite Ha, Hr, wrapping_sub_wrap, wrap_small; unfold in_width, BUFFER_SIZE in *; lia.
Qed.

(** A data packet: accepted in whole, or the connection is reset after some
    prefix of it went out. *)
Lemma receive_rw_spec o s0 g c p ok c' :
  established c = true -> stream_ok o s0 g c -> receive_rw c p = (ok, c') ->
  (ok = true -> stream_ok o s0 (g ++ p) c' /\ established c' = true) /\
  exists k, sk_sent (socket c') = sk_sent s0 ++ hello_of c o ++ ztake k (g ++ p).
Proof.
  intros He (a & f & Hinv). pose proof (receive_window_spec _ _ _ _ _ _ Hinv) as Hwin.
  destruct Hinv as [(?&?) ? Ha Hf Hr Hs Hq Ho].
  unfold receive_rw. case_test.
  { intros [= <- <-]. split; [done|]. exists f. by rewrite Hs, ztake_app_le by lia. }
  bool_to_prop.
  set (c1 := set_received c _).
  destruct (direct_send (send_fuel c1) c1 p 0) as [[ok' off] c2] eqn:Ed.
  apply (direct_send_spec _ _ _ _ _ _ _ f) in Ed as [(Hb & s & w & -> & Hs') Hi];
    [|zlen_lia|done].
  simpl in Hs', Hi. replace (f + (off - 0)) with (f + off) by lia.
  unfold zslice in Hs'. rewrite zdrop_nonpos, Z.sub_0_r in Hs' by lia.
  assert (Hf' : 0 < off -> f = zlen g).
  { intros Hoff%Hi. rewrite Hq in Hoff. apply zlen_zero in Hoff. zlen_lia. }
  assert (Hsent : sk_sent s = sk_sent s0 ++ hello_of c o ++ ztake (f + off) (g ++ p)).
  { rewrite Hs', Hs, <-!app_assoc. do 2 f_equal.
    destruct (decide (0 < off)) as [Hoff|].
    - rewrite (ztake_ge f) by lia. rewrite ztake_app_ge by lia. do 2 f_equal. lia.
    - rewrite (ztake_nonpos off), app_nil_r by lia. rewrite ztake_app_le by lia. f_equal. lia. }
  case_test; bool_to_prop; intros [= <- <-]; (split; [|exists (f + off); first [exact Hsent|by case_test]]);
    [done|intros _].
  assert (Hq' : incoming c ++ zdrop off p = zdrop (f + off) (g ++ p)).
  { rewrite Hq. destruct (decide (0 < off)) as [Hoff|].
    - rewrite (zdrop_ge f) by lia. rewrite zdrop_app_ge by lia. simpl. f_equal. lia.
    - rewrite (zdrop_nonpos off), zdrop_app_le by lia. do 2 f_equal. lia. }
  assert (Hrec : wrapping_add 32 (received c) (wrap 32 (zlen p)) = wrap 32 (zlen (g ++ p))).
  { rewrite Hr, wrapping_add_wrap, zlen_app. unfold wrap. by rewrite Zplus_mod_idemp_r. }
  split; [|by case_test].
  exists a, (f + off). case_test; bool_to_prop.
  - split; simpl; rewrite ?Hq'; try done; try (rewrite zlen_app; lia).
    by rewrite He.
  - split; simpl; try done; try (rewrite zlen_app; lia); [|by rewrite He].
    rewrite <-Hq', zdrop_ge by lia. by rewrite app_nil_r.
Qed.

(** The guest bytes an event carries. *)
Definition event_data (c : Connection) (h : Header) (p : bytes) : bytes :=
  if established c && (op h =? RW) then p else [].

Lemma notify_opener_spec o s0 c ok c' :
  established c = false -> stream_ok o s0 [] c ->
  notify_opener (set_deadline (set_established c true) None) = (ok, c') ->
  (ok = true -> stream_ok o s0 [] c') /\
  exists k, sk_sent (socket c') = sk_sent s0 ++ ztake k (greeting (host_port c)).
Proof.
  intros He (a & f & [(?&?) ? Ha Hf Hr Hs Hq Ho]).
  assert (f = 0 /\ a = 0) as [-> ->] by (change (zlen (@nil byte)) with 0 in *; lia).
  rewrite (ztake_nonpos 0) in Hs by lia.
  unfold hello_of in Hs. rewrite He, app_nil_r in Hs. simpl in Hs.
  destruct (Ho He) as [_ Hop]. unfold notify_opener. simpl. rewrite Hop.
  destruct o as [waiting|].
  - intros [= <- <-]. split.
    + intros _. exists 0, 0. split; simpl; try done.
      unfold hello_of; simpl. by rewrite Hs, app_nil_r.
    + exists 0. simpl. by rewrite Hs, ztake_nonpos, app_nil_r.
  - destruct (sock_send (socket c) (greeting (host_port c))) as [r s] eqn:Es. simpl.
    apply sock_send_spec in Es as [Hsnd _]. intros [= <- <-]. destruct r as [n|e]; simpl.
    + destruct Hsnd as (? & Hsent & _). rewrite Hs in Hsent. split; [|by exists n].
      intros Hn. bool_to_prop. rewrite ztake_ge in Hsent by lia.
      exists 0, 0. split; simpl; try done.
      unfold hello_of; simpl. by rewrite app_nil_r.
    + split; [done|]. exists 0. by rewrite (proj1 Hsnd), Hs, ztake_nonpos, app_nil_r.
Qed.

Lemma credited_keeps c cr :
  let c1 := set_credit c cr in
  fill_keeps c (if 0 <? Credit_available (credit c1) then set_credit_requested c1 false else c1).
Proof. simpl. case_test; unfold fill_keeps; simpl; by auto 20. Qed.

Lemma receive_spec o s0 g c h p ok c' :
  stream_ok o s0 g c -> Connection_receive c h p = (ok, c') ->
  (ok = true -> stream_ok o s0 (g ++ event_data c h p) c') /\
  exists k l, sk_sent (socket c') = sk_sent s0 ++ ztake l (greeting (host_port c)) ++ ztake k (g ++ p).
Proof.
  intros Hok. unfold Connection_receive.
  destruct Hok as (a & f & Hinv).
  assert (Hpre : forall c1, fill_keeps c c1 -> exists k l,
      sk_sent (socket c1) = sk_sent s0 ++ ztake l (greeting (host_port c)) ++ ztake k (g ++ p)).
  { intros c1 (_&_&_&Ks&_). destruct Hinv as [(?&?) _ _ _ _ Hs _ _]. rewrite Ks, Hs. exists f.
    unfold hello_of. destruct (established c), o;
      [exists 0|exists (zlen (greeting (host_port c)))|exists 0|exists 0];
      rewrite ?(ztake_nonpos 0) by lia; rewrite ?(ztake_ge (zlen _)) by lia;
      by rewrite ztake_app_le by lia. }
  destruct (Credit_update (credit c) h) as [cr|].
  2: { intros [= <- <-]. split; [done|]. apply Hpre, fill_keeps_refl. }
  pose proof (credited_keeps c cr) as Hk. simpl in Hk.
  set (c1 := if 0 <? _ then _ else _) in *.
  assert (Hok1 : stream_ok o s0 g c1) by (eapply stream_ok_keeps; [by exists a, f|done]).
  assert (He1 : established c1 = established c) by apply Hk.
  assert (Hhp : host_port c1 = host_port c) by apply Hk.
  unfold event_data. rewrite He1. destruct (established c) eqn:He; simpl.
  - assert (Hstay : forall c2, fill_keeps c1 c2 -> op h <> RW ->
        (true = true -> stream_ok o s0 (g ++ (if op h =? RW then p else [])) c2) /\
        exists k l, sk_sent (socket c2) =
          sk_sent s0 ++ ztake l (greeting (host_port c)) ++ ztake k (g ++ p)).
    { intros c2 K2 Hop. split; [|apply Hpre; by eapply fill_keeps_trans].
      intros _. rewrite (proj2 (Z.eqb_neq _ _) Hop), app_nil_r. by eapply stream_ok_keeps. }
    case_test.
    + intros H. eapply receive_rw_spec in H as [H1 (k & H2)]; [|done..].
      split; [apply H1|]. exists k. rewrite H2. unfold hello_of. rewrite He1, Hhp.
      destruct o; [exists 0; by rewrite (ztake_nonpos 0)|].
      exists (zlen (greeting (host_port c))). by rewrite (ztake_ge (zlen _) (greeting _)) by lia.
    + bool_to_prop. repeat case_test; intros [= <- <-];
        try (apply Hstay; [unfold fill_keeps; simpl; by auto 20|done]).
      * apply Hstay; [|done]. unfold fill_keeps; simpl.
        unfold sock_shutdown. destruct (sk_shutdown (socket c1)); simpl; by auto 20.
      * split; [done|]. by apply Hpre.
  - case_test; [intros [= <- <-]; split; [done|by apply Hpre]|]. intros H.
    assert (g = []) as -> by (destruct Hinv as [_ _ _ _ _ _ _ Ho]; by apply Ho).
    apply (notify_opener_spec o s0) in H as [H1 (l & H2)]; [|done..].
    split; [done|]. exists 0, l. by rewrite H2, Hhp, (ztake_nonpos 0), app_nil_r by lia.
Qed.

Lemma pump_shutdown_keeps c r c' : pump_shutdown c = (r, c') -> fill_keeps c c'.
Proof.
  unfold pump_shutdown, sock_shutdown.
  repeat case_test; [destruct (sk_shutdown (socket c))|]; intros [= <- <-];
    unfold fill_keeps; simpl; by auto 20.
Qed.

Lemma pump_notices_keeps now c : fill_keeps c (pump_notices now c).
Proof. unfold pump_notices. repeat case_test; unfold fill_keeps; simpl; by auto 20. Qed.

Lemma stream_ok_drained o s0 g c c' f k :
  (exists a, stream_inv o s0 g c a f) -> drained c c' k f -> stream_ok o s0 g c'.
Proof.
  intros [a [(?&?) ? Ha Hf Hr Hs Hq Ho]] (Hb & s & w & -> & Hs').
  rewrite Hq, zlen_drop in Hb. exists a, (f + k). split; simpl; try done; try lia.
  - rewrite Hs', Hs, Hq, <-!app_assoc. do 2 f_equal. by rewrite ztake_plus by lia.
  - rewrite Hq, zdrop_zdrop by lia. done.
Qed.

Lemma pump_spec o s0 g now c r c' :
  stream_ok o s0 g c -> Connection_pump now c = (r, c') -> stream_ok o s0 g c'.
Proof.
  intros (a & f & Hinv). unfold Connection_pump.
  assert (Hok : stream_ok o s0 g c) by (by exists a, f).
  case_test; [by intros [= <- <-]|]. case_test; [by intros [= <- <-]|].
  destruct (drain_incoming (send_fuel c) c) as [r1 c1] eqn:Ed.
  apply (drain_incoming_spec _ _ _ _ f) in Ed as [k Hk]; [|apply Hinv].
  assert (Hok1 : stream_ok o s0 g c1) by (eapply stream_ok_drained; [by exists a|done]).
  destruct r1; [|by intros [= <- <-]].
  destruct (pump_shutdown c1) as [r2 c2] eqn:Ep. apply pump_shutdown_keeps in Ep.
  assert (Hok2 : stream_ok o s0 g c2) by (by eapply stream_ok_keeps).
  destruct r2; [|by intros [= <- <-]].
  case_test; intros [= <- <-]; [done|]. eapply stream_ok_keeps; [done|]. apply pump_notices_keeps.
Qed.

(** What the mux does to a connection it keeps, with the guest bytes each
    step carries. *)
Inductive conn_step `{RB : RxBuffers B, RL : !RxLaws B} :
    Connection -> bytes -> Connection -> Prop :=
  | step_receive c h p c' : packet_valid h p = true ->
      Connection_receive c h p = (true, c') -> conn_step c (event_data c h p) c'
  | step_pump now c c' : Connection_pump now c = (Ok true, c') -> conn_step c [] c'
  | step_wake c rd wr :
      conn_step c [] (set_writable (set_readable c (readable c || rd)) (writable c || wr))
  | step_fill c (b : B) first n b' c' : 0 <= first ->
      Connection_fill c b first = (Ok n, b', c') -> conn_step c [] c'.

Inductive conn_run `{RB : RxBuffers B, RL : !RxLaws B} :
    Connection -> bytes -> Connection -> Prop :=
  | run_refl c : conn_run c [] c
  | run_step c g c1 p c2 : conn_run c g c1 -> conn_step c1 p c2 -> conn_run c (g ++ p) c2.

Lemma stream_ok_run `{RB : RxBuffers B, RL : !RxLaws B} o s0 c g c' :
  conn_run c g c' -> stream_ok o s0 [] c -> stream_ok o s0 g c'.
Proof.
  induction 1 as [|c g c1 p c2 _ IH Hstep]; intros H0; [done|]. specialize (IH H0).
  destruct Hstep as [d h q d' _ Hr|now d d' Hp|d rd wr|d b first n b' d' ? Hf].
  - by apply (receive_spec o s0 g) in Hr as [Hr _]; [apply Hr|].
  - rewrite app_nil_r. by eapply pump_spec.
  - rewrite app_nil_r. eapply stream_ok_keeps; [done|]. unfold fill_keeps; simpl; by auto 20.
  - rewrite app_nil_r. eapply stream_ok_keeps; [done|]. by eapply fill_keeps_spec.
Qed.

(** C1: The guest's stream reaches the host socket. Whatever the order of
    packets, pump passes, wakeups and fills, and however the socket takes
    bytes, the socket holds the greeting of a listener's client and then a
    prefix of the guest's accepted bytes, in order and without a gap; the
    rest is queued, at most [BUFFER_SIZE] of it, and the forwarded count says
    how much went out. If the next packet breaks the connection, the socket
    still holds a prefix of what the guest sent. *)
Theorem guest_stream_reaches_host `{RB : RxBuffers B, RL : !RxLaws B} now s gp port o g c :
  conn_run (new_connection now s gp port o) g c ->
  sk_sent (socket c) ++ incoming c = sk_sent s ++ hello_of c o ++ g /\
  zlen (incoming c) <= BUFFER_SIZE /\
  forwarded c = wrap 32 (zlen g - zlen (incoming c)) /\
  forall h p c', Connection_receive c h p = (false, c') ->
    exists k l, sk_sent (socket c')
                = sk_sent s ++ ztake l (greeting (host_port c)) ++ ztake k (g ++ p).
Proof.
  intros Hrun. eapply stream_ok_run in Hrun; [|apply stream_ok_new].
  pose proof Hrun as (a & f & [(?&?) ? Ha Hf Hr Hs Hq Ho]). split_and!.
  - rewrite Hs, Hq, <-!app_assoc, ztake_zdrop. done.
  - rewrite Hq, zlen_drop. lia.
  - rewrite Hf, Hq, zlen_drop. f_equal. lia.
  - intros h p c' Hrec. by eapply receive_spec in Hrec as [_ ?].
Qed.

(** Buffers kept as the list of their slots, with no other part. *)
#[export] Instance slot_buffers : RxBuffers (list Slot) := {
  rx_room b i := (slot_room <$> znth b i, b);
  rx_put_header b i h := alter (set_header h) (Z.to_nat i) b;
  rx_recv b s first max :=
    let '(r, s') := sock_read s (Z.min max (total_room (zdrop first b))) in
    match r with
    | Err e => (Err e, b, s')
    | Ok bs => (Ok (zlen bs), ztake first b ++ lay_out (zdrop first b) bs, s')
    end;
}.

#[export] Program Instance slot_laws : RxLaws (list Slot) := { rx_slots b := b }.
Next Obligation. done. Qed.
Next Obligation. done. Qed.
Next Obligation.
  intros b s first max ? ? ?. exists (Z.min max (total_room (zdrop first b))).
  unfold rx_recv, slot_buffers. destruct (sock_read s _) as [[bs|e] s'];
    eexists; (split; [lia|]); done.
Qed.

Lemma guest_stream_reaches_host_witness :
  let s := MkSocket [Did 100; Failed WouldBlock] [] [] false None false false in
  exists c, sk_sent (socket c) ++ incoming c = greeting 1025 ++ [x61; x62] /\
            zlen (incoming c) = 2.
Proof.
  intros s.
  set (h o l := MkHeader GUEST_CID HOST_CID 7 1025 l STREAM o 0 1000 0).
  set (c0 := new_connection 0 s 7 1025 Listener).
  set (c1 := snd (Connection_receive c0 (h RESPONSE 0) [])).
  set (c2 := snd (Connection_receive c1 (h RW 2) [x61; x62])).
  destruct (guest_stream_reaches_host (B := list Slot) 0 s 7 1025 Listener [x61; x62] c2)
    as (H1 & _).
  - change ([x61; x62] : bytes) with (([] ++ []) ++ [x61; x62] : bytes).
    apply (run_step _ _ c1); [apply (run_step _ _ c0); [constructor|]|].
    + apply (step_receive c0 (h RESPONSE 0) []); vm_compute; reflexivity.
    + apply (step_receive c1 (h RW 2) [x61; x62]); vm_compute; reflexivity.
  - exists c2. split; [exact H1|vm_compute; reflexivity].
Defined.

(** ** From the host to the guest *)

(** A buffer that holds a data packet of the connection. *)
Definition data_packet (c : Connection) (s : Slot) : Prop :=
  zlen (slot_data s) <= slot_room s /\
  slot_header s = Some (Connection_header c RW 0 (zlen (slot_data s))) /\
  0 < zlen (slot_data s) <= MAX_TURN.

Section fill_spec.
Context `{RB : RxBuffers B, RL : !RxLaws B}.
Implicit Types (b : B) (c : Connection).

Lemma put_header_app b pre s post i h :
  rx_slots b = pre ++ s :: post -> zlen pre = i ->
  rx_slots (rx_put_header b i h) = (pre ++ [set_header h s]) ++ post.
Proof.
  intros Hsl Hi. rewrite rx_put_spec by (rewrite Hsl; zlen_lia).
  rewrite Hsl, <-app_assoc. simpl. unfold zlen in Hi. rewrite <-Hi, Nat2Z.id.
  rewrite alter_app_r_alt by done. by rewrite Nat.sub_diag.
Qed.

Lemma room_app b pre s post i :
  rx_slots b = pre ++ s :: post -> zlen pre = i ->
  exists b', rx_room b i = (Some (slot_room s), b') /\ rx_slots b' = rx_slots b.
Proof.
  intros Hsl Hi. destruct (rx_room_spec b i) as [H1 H2]; [zlen_lia|].
  destruct (rx_room b i) as [r b']. simpl in *. exists b'. split; [|done].
  subst r. f_equal. rewrite Hsl. unfold znth, zlen in *. rewrite (proj2 (Z.ltb_ge _ _)) by lia.
  rewrite <-Hi, Nat2Z.id. by rewrite list_lookup_middle.
Qed.

(** The headers go to exactly the buffers the bytes were laid out over. *)
Lemma stamp_packets_spec fuel : forall c b pre rest bs,
  rx_slots b = pre ++ lay_out rest bs -> zlen bs <= total_room rest ->
  zlen bs <= MAX_TURN -> zlen bs <= Z.of_nat fuel ->
  exists stamped b' c',
    stamp_packets fuel c b (zlen pre) (zlen bs) = (zlen pre + zlen stamped, b', c') /\
    rx_slots b' = pre ++ stamped ++ zdrop (zlen stamped) rest /\
    mjoin (map slot_data stamped) = bs /\ Forall (data_packet c) stamped /\
    socket c' = socket c /\ credit c' = credit c /\ zlen stamped <= zlen rest.
Proof.
  assert (Hdone : forall c b pre rest, rx_slots b = pre ++ rest ->
    exists stamped b' c', (zlen pre, b, c) = (zlen pre + zlen stamped, b', c') /\
      rx_slots b' = pre ++ stamped ++ zdrop (zlen stamped) rest /\
      mjoin (map slot_data stamped) = [] /\ Forall (data_packet c) stamped /\
      socket c' = socket c /\ credit c' = credit c /\ zlen stamped <= zlen rest).
  { intros c b pre rest Hsl. exists [], b, c. rewrite zlen_nil, Z.add_0_r.
    rewrite zdrop_nonpos by lia. simpl. split_and!; try done. zlen_lia. }
  induction fuel as [|fuel IH]; intros c b pre rest bs Hsl Hroom Hturn Hfuel.
  { assert (bs = []) as -> by (apply zlen_zero; zlen_lia). apply Hdone. rewrite Hsl. f_equal.
    by destruct rest. }
  simpl. case_test; bool_to_prop.
  2: { assert (bs = []) as -> by (apply zlen_zero; zlen_lia). apply Hdone. rewrite Hsl. f_equal.
       by destruct rest. }
  assert (bs <> []) by (intros ->; rewrite zlen_nil in *; lia).
  destruct rest as [|s rest]; [simpl in Hroom; lia|]. simpl in Hroom.
  destruct (slot_room s <=? 0) eqn:Es; [lia|]. simpl in Hsl.
  rewrite bool_decide_false, Es in Hsl by done. simpl in Hsl. bool_to_prop.
  set (n := slot_room s) in *. set (x := MkSlot (slot_size s) (slot_header s) (ztake n bs)) in *.
  destruct (room_app b pre x (lay_out rest (zdrop n bs)) (zlen pre) Hsl eq_refl)
    as (b1 & -> & Hsl1). simpl. change (slot_room x) with n.
  rewrite (proj2 (Z.eqb_neq _ _)) by lia.
  set (c1 := set_send_credit_update _ _). pose proof (total_room_nonneg rest).
  assert (Hlen : zlen (ztake n bs) = Z.min n (zlen bs)) by zlen_lia.
  rewrite <-Hsl1 in Hsl. rewrite Hsl1 in Hsl.
  set (h := Connection_header c1 RW 0 (Z.min n (zlen bs))).
  pose proof (put_header_app b1 pre x (lay_out rest (zdrop n bs)) (zlen pre) h) as Hput.
  rewrite Hsl1 in Hput. specialize (Hput Hsl eq_refl).
  assert (Hp1 : zlen pre + 1 = zlen (pre ++ [set_header h x])) by zlen_lia.
  assert (Hl1 : zlen bs - Z.min n (zlen bs) = zlen (zdrop n bs)) by zlen_lia.
  rewrite Hp1, Hl1.
  destruct (IH c1 (rx_put_header b1 (zlen pre) h) (pre ++ [set_header h x]) rest (zdrop n bs))
    as (st & b' & c' & Hst & Hsl' & Hj & HF & Hsk & Hcr & Hle); [done|zlen_lia..|].
  exists (set_header h x :: st), b', c'. rewrite Hst. split_and!.
  - do 2 f_equal. zlen_lia.
  - rewrite Hsl', <-app_assoc, zlen_cons. simpl. do 3 f_equal.
    unfold zdrop. rewrite Z2Nat.inj_add by zlen_lia. done.
  - change (map slot_data (set_header h x :: st)) with (ztake n bs :: map slot_data st).
    change (mjoin (ztake n bs :: map slot_data st))
      with (ztake n bs ++ mjoin (map slot_data st)).
    rewrite Hj. apply ztake_zdrop.
  - constructor; [|done]. unfold data_packet. cbn [slot_data slot_header set_header x].
    rewrite Hlen. change (slot_room (set_header h x)) with n.
    split_and!; try zlen_lia. done.
  - done.
  - done.
  - zlen_lia.
Qed.

(** A buffer that holds a packet without data. *)
Definition control_packet (c : Connection) (s : Slot) : Prop :=
  exists o fl, o <> RW /\ slot_header s = Some (Connection_header c o fl 0).

(** The buffers [first ..] after [bs] went out in [packets]. *)
Definition delivered c c' b b' (first : Z) (bs : bytes) (packets : list Slot) : Prop :=
  sk_input (socket c) = bs ++ sk_input (socket c') /\
  zlen bs <= Credit_available (credit c) /\
  credit c' = (if bool_decide (bs = []) then credit c
               else MkCredit (wrapping_add 32 (sent (credit c)) (wrap 32 (zlen bs)))
                             (peer_forwarded (credit c)) (peer_alloc (credit c))) /\
  rx_slots b' = ztake first (rx_slots b) ++ packets
                ++ zdrop (first + zlen packets) (rx_slots b) /\
  first + zlen packets <= zlen (rx_slots b) /\
  (if bool_decide (bs = []) then Forall (control_packet c) packets /\ zlen packets <= 1
   else Forall (data_packet c) packets /\ mjoin (map slot_data packets) = bs).

Lemma available_nonneg cr : 0 <= Credit_available cr.
Proof. unfold Credit_available, saturating_sub. lia. Qed.

Lemma delivered_nothing c c' b b' first :
  0 <= first < zlen (rx_slots b) -> sk_input (socket c') = sk_input (socket c) ->
  credit c' = credit c -> rx_slots b' = rx_slots b -> delivered c c' b b' first [] [].
Proof.
  intros ? Hi Hc Hs. unfold delivered. rewrite zlen_nil, Z.add_0_r, bool_decide_true by done.
  pose proof (available_nonneg (credit c)). simpl.
  rewrite ztake_zdrop, Hi, Hc, Hs. split_and!; done || lia.
Qed.

Lemma zdrop_split b first s :
  znth (rx_slots b) first = Some s ->
  rx_slots b = ztake first (rx_slots b) ++ s :: zdrop (first + 1) (rx_slots b) /\
  zlen (ztake first (rx_slots b)) = first.
Proof.
  intros Hz. pose proof (znth_lt_Some _ _ _ Hz). split.
  - by rewrite <-(znth_zdrop _ _ _ Hz), ztake_zdrop.
  - zlen_lia.
Qed.

Lemma control_delivers c c0 b b0 first o fl n b' c' :
  Connection_control c0 b0 first o fl = (n, b', c') ->
  0 <= first < zlen (rx_slots b) -> rx_slots b0 = rx_slots b -> (o =? RW) = false ->
  sk_input (socket c0) = sk_input (socket c) -> credit c0 = credit c ->
  forwarded c0 = forwarded c -> host_port c0 = host_port c -> guest_port c0 = guest_port c ->
  exists packets, zlen packets = n /\ delivered c c' b b' first [] packets.
Proof.
  intros [= <- <- <-] Hfirst Hsl Ho%Z.eqb_neq Hi Hc Hf Hh Hg.
  destruct (znth_Some _ _ Hfirst) as [s Hz].
  destruct (zdrop_split b first s Hz) as [Hsp Hlen].
  exists [set_header (Connection_header c o fl 0) s]. split; [done|].
  unfold delivered. rewrite !bool_decide_true by done. simpl.
  pose proof (available_nonneg (credit c)).
  split_and!; [by rewrite Hi|done|done| |rewrite zlen_cons, zlen_nil; lia|constructor; [|done]; by exists o, fl|done].
  set (h := Connection_header _ _ _ _). set (h' := Connection_header _ _ _ _).
  assert (h = h') as ->.
  { unfold h, h', Connection_header; simpl. by rewrite Hf, Hh, Hg. }
  rewrite (put_header_app b0 (ztake first (rx_slots b)) s (zdrop (first + 1) (rx_slots b)) first);
    [by rewrite <-app_assoc|by rewrite Hsl|done].
Qed.

Ltac deliver_nothing :=
  exists [], []; split; [done|];
  apply delivered_nothing; simpl; first [done|lia|by case_test].

(** [fill_data] takes a prefix of what the host end wrote, within credit. *)
Lemma fill_data_delivers c b first n b' c' :
  0 <= first < zlen (rx_slots b) -> Connection_fill_data c b first = (Ok n, b', c') ->
  exists bs packets, zlen packets = n /\ delivered c c' b b' first bs packets.
Proof.
  intros Hfirst. unfold Connection_fill_data. case_test.
  { intros [= <- <- <-]. deliver_nothing. }
  destruct (rx_room b first) as [room b1] eqn:Er.
  pose proof (rx_room_spec b first ltac:(lia)) as [Hr1 Hsl]. rewrite Er in Hr1, Hsl. simpl in *.
  case_test; bool_to_prop.
  { intros [= <- <- <-]. deliver_nothing. }
  destruct (znth_Some _ _ Hfirst) as [s Hz]. rewrite Hz in Hr1. subst room. simpl in *.
  assert (0 < slot_room s) by (unfold slot_room in *; lia).
  case_test; bool_to_prop.
  { intros [= <- <- <-]. deliver_nothing. }
  pose proof (available_nonneg (credit c)).
  pose proof (total_room_pos _ _ _ Hz ltac:(lia)).
  set (max := Z.min (Credit_available (credit c)) MAX_TURN).
  assert (0 < max) by (unfold max, MAX_TURN; lia).
  destruct (rx_recv_spec b1 (socket c) first max)
    as (cap & b2 & Hcap & Hrecv); rewrite ?Hsl; [lia..|].
  rewrite Hsl in *.
  destruct (sock_read (socket c) cap) as [[bs|e] s'] eqn:Ek; destruct Hrecv as [-> Hsl2];
    apply sock_read_spec in Ek as [_ Hk]; try lia.
  2: { unfold fill_received. intros H'.
       destruct e; try done; injection H' as <- <- <-; deliver_nothing. }
  destruct Hk as [Hin Hbs]. unfold fill_received. case_test; bool_to_prop.
  - assert (bs = []) as -> by (by apply zlen_zero). simpl in Hin.
    assert (rx_slots b2 = rx_slots b) as Hsl2'.
    { rewrite Hsl2. destruct (zdrop first (rx_slots b)) eqn:Ed; simpl; rewrite <-Ed, ztake_zdrop;
        done. }
    destruct (Connection_control _ b2 first SHUTDOWN SEND) as [[u b3] c3] eqn:E.
    intros [= <- <- <-]. exists [].
    by eapply (control_delivers c); [exact E|..].
  - set (c1 := set_credit _ _).
    destruct (stamp_packets_spec (Z.to_nat (zlen bs)) c1 b2 (ztake first (rx_slots b))
                (zdrop first (rx_slots b)) bs) as (st & b3 & c3 & Hst & Hsl3 & Hj & HF & Hsk & Hcr & Hle);
      [done|lia|unfold max, MAX_TURN in *; lia|zlen_lia|].
    rewrite (proj2 (zdrop_split _ _ _ Hz)) in Hst. rewrite Hst.
    intros [= <- <- <-]. exists bs, st. split; [lia|].
    unfold delivered. rewrite !bool_decide_false by (intros ->; done).
    rewrite Hsk, Hcr, Hsl3. simpl. split_and!; try done; [unfold max in *; lia| |zlen_lia].
    by rewrite zdrop_zdrop by zlen_lia.
Qed.

Lemma fill_delivers c b first n b' c' :
  0 <= first < zlen (rx_slots b) -> Connection_fill c b first = (Ok n, b', c') ->
  exists bs packets, zlen packets = n /\ delivered c c' b b' first bs packets.
Proof.
  intros Hfirst. unfold Connection_fill. case_test.
  { case_test.
    - intros [= <- <- <-]. deliver_nothing.
    - destruct (Connection_control _ b first REQUEST 0) as [[u b1] c1] eqn:E.
      intros [= <- <- <-]. exists []. by eapply (control_delivers c); [exact E|..]. }
  case_test.
  { destruct (Connection_control _ b first SHUTDOWN _) as [[u b1] c1] eqn:E.
    intros [= <- <- <-]. exists []. by eapply (control_delivers c); [exact E|..]. }
  destruct (Connection_fill_data c b first) as [[[used|e] b1] c1] eqn:E1; [|done].
  pose proof (fill_data_keeps _ _ _ _ _ _ (proj1 Hfirst) E1) as (_&_&Kf&_&_&_&Kh&Kg&_).
  apply fill_data_delivers in E1 as (bs & pk & Hlen & Hd); [|done].
  case_test; bool_to_prop.
  { intros [= <- <- <-]. by exists bs, pk. }
  assert (pk = []) as -> by (apply zlen_zero; zlen_lia).
  assert (bs = []) as ->.
  { destruct Hd as (_ & _ & _ & _ & _ & Hd). case_bool_decide; [done|]. symmetry. apply Hd. }
  pose proof Hd as (Hi & _ & Hc & Hsl & _). rewrite bool_decide_true in Hc by done.
  rewrite zlen_nil, Z.add_0_r in Hsl. simpl in Hsl, Hi. rewrite ztake_zdrop in Hsl.
  case_test.
  { destruct (Connection_control _ b1 first CREDIT_REQUEST 0) as [[u b2] c2] eqn:E.
    intros [= <- <- <-]. exists []. by eapply (control_delivers c); [exact E|..]. }
  case_test.
  { destruct (Connection_control _ b1 first CREDIT_UPDATE 0) as [[u b2] c2] eqn:E.
    intros [= <- <- <-]. exists []. by eapply (control_delivers c); [exact E|..]. }
  intros [= <- <- <-]. exists [], []. by split; [zlen_lia|].
Qed.

(** A pass that fails has written nothing and read nothing. *)
Lemma fill_err c b first e b' c' :
  0 <= first < zlen (rx_slots b) -> Connection_fill c b first = (Err e, b', c') ->
  rx_slots b' = rx_slots b.
Proof.
  intros Hfirst. unfold Connection_fill. repeat case_test; try done.
  destruct (Connection_fill_data c b first) as [[[used|e'] b1] c1] eqn:E1;
    [by repeat case_test|]. intros [= -> <- <-].
  revert E1. unfold Connection_fill_data. case_test; [done|].
  destruct (rx_room b first) as [room b2] eqn:Er.
  pose proof (rx_room_spec b first ltac:(lia)) as [Hr1 Hsl]. rewrite Er in Hr1, Hsl. simpl in *.
  case_test; bool_to_prop; [done|].
  destruct (znth_Some _ _ Hfirst) as [s Hz]. rewrite Hz in Hr1. subst room. simpl in *.
  case_test; bool_to_prop; [done|].
  pose proof (available_nonneg (credit c)).
  pose proof (total_room_pos _ _ _ Hz ltac:(unfold slot_room in *; lia)).
  set (max := Z.min (Credit_available (credit c)) MAX_TURN).
  assert (0 < max) by (unfold max, MAX_TURN; lia).
  destruct (rx_recv_spec b2 (socket c) first max)
    as (cap & b3 & Hcap & Hrecv); rewrite ?Hsl; [lia|done|unfold slot_room in *; lia|].
  rewrite Hsl in *.
  destruct (sock_read (socket c) cap) as [[bs|e1] s'] eqn:Ek; destruct Hrecv as [-> Hsl2];
    unfold fill_received.
  - case_test; [done|]. by destruct (stamp_packets _ _ _ _ _) as [[? ?] ?].
  - destruct e1; intros H'; try done; by injection H' as <- <- <-.
Qed.

(** C28: The host's bytes reach the guest. Every pass takes a prefix of what the
    host end wrote, never more than the guest's credit, and writes exactly
    these bytes, in order, as the payloads of the packets it reports; each
    header names the connection, the length of its payload and the bytes
    forwarded so far; the count of bytes sent grows by as much; every other
    buffer is left alone. A pass without data writes at most one control
    packet. *)
Theorem host_stream_reaches_guest c b first n b' c' :
  0 <= first < zlen (rx_slots b) -> Connection_fill c b first = (Ok n, b', c') ->
  exists bs packets, zlen packets = n /\ delivered c c' b b' first bs packets.
Proof. apply fill_delivers. Qed.
End fill_spec.

Lemma host_stream_reaches_guest_witness :
  let s := MkSocket [] [] [x61; x62; x63; x64] false None false false in
  let c := set_credit (set_established (new_connection 0 s 7 1025 Listener) true)
                      (MkCredit 0 0 3) in
  let b := [MkSlot 2 None []; MkSlot 5 None []] in
  exists b' c', Connection_fill c b 0 = (Ok 2, b', c') /\
    map slot_data b' = [[x61; x62]; [x63]] /\
    exists bs packets, zlen packets = 2 /\ delivered c c' b b' 0 bs packets.
Proof.
  intros s c b. eexists _, _. split_and!.
  - vm_compute. reflexivity.
  - reflexivity.
  - apply (host_stream_reaches_guest (B := list Slot) c b 0); [split; vm_compute; congruence|].
    vm_compute. reflexivity.
Defined.
