(* ===== verification/VsockMux.v ===== *)
(** * The vsock multiplexer

    Theorems on the mux of [Vsock]: the invariant every sequence of
    operations keeps, that no reset owed to the guest is lost, that a packet
    touches no connection but the one it names, and that filling guest
    buffers ends, stays within what is on offer and takes turns. *)

From Stdlib Require Import Strings.Byte.
From S2P Require Import Prelude BTree Vsock VsockConn.

(** ** The invariant *)

Record mux_inv (m : Mux) : Prop := {
  mi_ok : bt_ok (connections m);
  mi_ports : forall port c, bt_get (connections m) port = Some c ->
               host_port c = port /\ 1024 < port <= next_port m;
  mi_next : 1024 <= next_port m < 2 ^ 32;
  mi_dropped : Forall (fun d => host_port (fst d) <= next_port m) (dropped m);
  mi_max : 0 <= max_connections m /\ zlen (connections m) <= max_connections m;
  mi_resets : zlen (connections m) + zlen (resets m) <= max_resets m;
}.

(** The operations of the mux. [process] receives a packet only after
    [can_receive]. *)
Inductive mux_step `{RB : RxBuffers B, RL : !RxLaws B} : Mux -> Mux -> Prop :=
  | ms_add now m s gp o nb r m' : Mux_add now m s gp o nb = (r, m') -> mux_step m m'
  | ms_cancel m port : mux_step m (Mux_cancel m port)
  | ms_wake m port rd wr : mux_step m (Mux_wake m port rd wr)
  | ms_receive m h p : can_receive m = true -> mux_step m (Mux_receive m h p)
  | ms_pump now m : mux_step m (Mux_pump now m)
  | ms_fill fuel m (b : B) n b' m' : Mux_fill fuel m b = Some (n, b', m') -> mux_step m m'
  | ms_clear m : mux_step m (Mux_clear m).

Inductive mux_reachable `{RB : RxBuffers B, RL : !RxLaws B} (max : Z) : Mux -> Prop :=
  | mr_start : mux_reachable max (Mux_with_limit max)
  | mr_step m m' : mux_reachable max m -> mux_step m m' -> mux_reachable max m'.

(** Replacing the entry of a port by a connection of the same port. *)
Lemma inv_update m port c c' :
  mux_inv m -> bt_get (connections m) port = Some c -> host_port c' = host_port c ->
  mux_inv (set_connections m (bt_insert (connections m) port c')).
Proof.
  intros [Hok Hp Hn Hd Hm Hr] Hg Hh.
  pose proof (zlen_bt_insert_update _ _ _ c' Hok Hg) as Hlen.
  split; simpl; try done; rewrite ?Hlen; try done.
  - by apply bt_insert_ok.
  - intros p c0. rewrite bt_get_insert. case_test; bool_to_prop; [|apply Hp].
    intros [= <-]. subst. rewrite Hh. by apply Hp.
Qed.

(** Taking a connection out leaves a place for its reset. *)
Lemma inv_remove m port c :
  mux_inv m -> bt_get (connections m) port = Some c ->
  let m' := set_connections m (bt_remove (connections m) port) in
  mux_inv m' /\ can_receive m' = true.
Proof.
  intros [Hok Hp Hn Hd Hm Hr] Hg m'. pose proof (zlen_bt_remove _ _ _ Hg).
  split.
  - split; simpl; try done; try (unfold max_resets in *; simpl in *; lia).
    + by apply bt_remove_ok.
    + intros p c0. rewrite bt_get_remove by done. case_test; [done|]. apply Hp.
  - unfold can_receive, m', max_resets in *; simpl in *. apply Z.ltb_lt. lia.
Qed.

Lemma inv_reset m h : mux_inv m -> mux_inv (Mux_reset m h).
Proof.
  intros [Hok Hp Hn Hd Hm Hr]. unfold Mux_reset. case_test; [|done]. bool_to_prop.
  split; simpl; try done. unfold max_resets in *; simpl in *. zlen_lia.
Qed.

Lemma inv_drop m c : mux_inv m -> host_port c <= next_port m -> mux_inv (drop_connection m c).
Proof.
  intros [Hok Hp Hn Hd Hm Hr] Hc. split; simpl; try done. by constructor.
Qed.

Lemma reset_fits m h : can_receive m = true -> Mux_reset m h = set_resets m (resets m ++ [h]).
Proof. unfold can_receive, Mux_reset. by intros ->. Qed.

Lemma next_port_reset m h : next_port (Mux_reset m h) = next_port m.
Proof. unfold Mux_reset. by case_test. Qed.

Lemma inv_give_up m port c c' :
  mux_inv m -> bt_get (connections m) port = Some c -> host_port c' = host_port c ->
  mux_inv (drop_connection
    (Mux_reset (set_connections m (bt_remove (connections m) port))
               (Connection_header c' RST 0 0)) c').
Proof.
  intros Hinv Hg Hh. destruct (inv_remove m port c Hinv Hg) as [Hinv' _].
  destruct (mi_ports _ Hinv _ _ Hg).
  apply inv_drop; [by apply inv_reset|]. rewrite next_port_reset. simpl. lia.
Qed.

Lemma inv_cancel m port : mux_inv m -> mux_inv (Mux_cancel m port).
Proof.
  intros Hinv. unfold Mux_cancel. destruct (bt_get (connections m) port) as [c|] eqn:Hg; [|done].
  by eapply inv_give_up.
Qed.

(** A connection keeps its ports through every operation. *)
Lemma notify_opener_port c ok c' : notify_opener c = (ok, c') -> host_port c' = host_port c.
Proof.
  unfold notify_opener. destruct (opener c) as [[]|]; [by intros [= <- <-]| |by intros [= <- <-]].
  destruct (sock_send _ _). by intros [= <- <-].
Qed.

Lemma direct_send_port fuel p : forall c off ok off' c',
  direct_send fuel c p off = (ok, off', c') -> host_port c' = host_port c.
Proof.
  induction fuel as [|fuel IH]; intros c off ok off' c'; simpl; [by intros [= <- <- <-]|].
  case_test; [|by intros [= <- <- <-]].
  destruct (sock_send _ _) as [[n|e] s].
  - case_test; [by intros [= <- <- <-]|]. by intros H%IH.
  - destruct e; try (by intros [= <- <- <-]); by intros H%IH.
Qed.

Lemma receive_port c h p ok c' :
  Connection_receive c h p = (ok, c') -> host_port c' = host_port c.
Proof.
  unfold Connection_receive. destruct (Credit_update (credit c) h) as [cr|]; [|by intros [= <- <-]].
  destruct (credited_keeps c cr) as (_&_&_&_&_&_&Kh&_). cbv zeta in Kh.
  set (c1 := if 0 <? _ then _ else _) in *. rewrite <-Kh. clearbody c1. clear Kh.
  case_test.
  { case_test; [by intros [= <- <-]|]. by intros H%notify_opener_port. }
  case_test.
  { unfold receive_rw. case_test; [by intros [= <- <-]|].
    destruct (direct_send _ _ p 0) as [[ok' off] c2] eqn:E. apply direct_send_port in E.
    repeat case_test; by intros [= <- <-]. }
  repeat case_test; by intros [= <- <-].
Qed.

Lemma drain_port fuel : forall c r c',
  drain_incoming fuel c = (r, c') -> host_port c' = host_port c.
Proof.
  induction fuel as [|fuel IH]; intros c r c'; simpl; [by intros [= <- <-]|].
  case_test; [|by intros [= <- <-]].
  destruct (sock_send _ _) as [[n|e] s].
  - case_test; [by intros [= <- <-]|]. by intros H%IH.
  - destruct e; try (by intros [= <- <-]); by intros H%IH.
Qed.

Lemma pump_port now c r c' : Connection_pump now c = (r, c') -> host_port c' = host_port c.
Proof.
  unfold Connection_pump. case_test; [by intros [= <- <-]|]. case_test; [by intros [= <- <-]|].
  destruct (drain_incoming _ c) as [r1 c1] eqn:E1. apply drain_port in E1.
  destruct r1; [|by intros [= <- <-]].
  destruct (pump_shutdown c1) as [r2 c2] eqn:E2. apply pump_shutdown_keeps in E2.
  assert (host_port c2 = host_port c) by (destruct E2 as (_&_&_&_&_&_&->&_); done).
  destruct r2; [|by intros [= <- <-]]. case_test; intros [= <- <-]; [done|].
  by destruct (pump_notices_keeps now c2) as (_&_&_&_&_&_&->&_).
Qed.

(** ** What a packet can do *)

Definition unknown_reset (h : Header) : Header :=
  {| src_cid := HOST_CID; dst_cid := GUEST_CID; src_port := dst_port h; dst_port := src_port h;
     h_len := 0; kind := kind h; op := RST; flags := 0; buf_alloc := 0; fwd_cnt := 0 |}.

(** The five outcomes of a packet, by who it names and what it says. *)
Inductive receive_outcome (m : Mux) (h : Header) (p : bytes) : Mux -> Prop :=
  | ro_foreign : src_cid h <> GUEST_CID \/ dst_cid h <> HOST_CID -> receive_outcome m h p m
  | ro_stray_reset : op h = RST ->
      (forall c, bt_get (connections m) (dst_port h) = Some c -> guest_port c <> src_port h) ->
      receive_outcome m h p m
  | ro_stray : op h <> RST ->
      (forall c, bt_get (connections m) (dst_port h) = Some c -> guest_port c <> src_port h) ->
      receive_outcome m h p (set_resets m (resets m ++ [unknown_reset h]))
  | ro_closed c : bt_get (connections m) (dst_port h) = Some c -> guest_port c = src_port h ->
      op h = RST ->
      receive_outcome m h p
        (drop_connection (set_connections m (bt_remove (connections m) (dst_port h))) c)
  | ro_taken c c' : bt_get (connections m) (dst_port h) = Some c -> guest_port c = src_port h ->
      packet_valid h p = true -> Connection_receive c h p = (true, c') ->
      receive_outcome m h p (set_connections m (bt_insert (connections m) (dst_port h) c'))
  | ro_broken c c' : bt_get (connections m) (dst_port h) = Some c -> guest_port c = src_port h ->
      (c' = c /\ packet_valid h p = false \/
       packet_valid h p = true /\ Connection_receive c h p = (false, c')) ->
      receive_outcome m h p
        (drop_connection
           (set_resets (set_connections m (bt_remove (connections m) (dst_port h)))
                       (resets m ++ [Connection_header c' RST 0 0])) c').

Lemma receive_outcomes m h p :
  mux_inv m -> can_receive m = true -> receive_outcome m h p (Mux_receive m h p).
Proof.
  intros Hinv Hcan. unfold Mux_receive. case_test.
  { apply ro_foreign. bool_to_prop. destruct Heqb; bool_to_prop; auto. }
  destruct (bt_get (connections m) (dst_port h)) as [c|] eqn:Hg.
  2: { case_test; bool_to_prop.
       - unfold reset_unknown. rewrite reset_fits by done. apply ro_stray; [done|intros ?; by rewrite Hg].
       - apply ro_stray_reset; [done|intros ?; by rewrite Hg]. }
  simpl. rewrite bt_insert_remove by apply Hinv.
  destruct (inv_remove m _ c Hinv Hg) as [_ Hroom].
  case_test; bool_to_prop.
  { rewrite bt_insert_same by (apply Hinv || done).
    replace (set_connections m (connections m)) with m by (by destruct m).
    case_test; bool_to_prop.
    - unfold reset_unknown. rewrite reset_fits by done. apply ro_stray; [done|].
      intros c'. rewrite Hg. by intros [= <-].
    - apply ro_stray_reset; [done|]. intros c'. rewrite Hg. by intros [= <-]. }
  case_test; bool_to_prop; [by eapply ro_closed|].
  case_test.
  - destruct (Connection_receive c h p) as [[] c'] eqn:Er.
    + rewrite bt_insert_remove by apply Hinv. by eapply ro_taken.
    + rewrite reset_fits by done. apply (ro_broken m h p c c'); auto.
  - rewrite reset_fits by done. apply (ro_broken m h p c c); auto.
Qed.

Lemma inv_receive m h p : mux_inv m -> can_receive m = true -> mux_inv (Mux_receive m h p).
Proof.
  intros Hinv Hcan.
  assert (Hreset : forall hd, mux_inv (set_resets m (resets m ++ [hd]))).
  { intros hd. rewrite <-reset_fits by done. by apply inv_reset. }
  destruct (receive_outcomes m h p Hinv Hcan)
    as [?|? ?|? ?|c Hg ? ?|c c' Hg ? ? Hr|c c' Hg ? Hr]; try done.
  - apply inv_drop; [by eapply inv_remove|]. destruct (mi_ports _ Hinv _ _ Hg). simpl. lia.
  - eapply inv_update; [done|exact Hg|]. by eapply receive_port.
  - destruct (inv_remove m _ c Hinv Hg) as [_ Hroom].
    change (resets m) with
      (resets (set_connections m (bt_remove (connections m) (dst_port h)))).
    rewrite <-reset_fits by done. eapply inv_give_up; [done|exact Hg|].
    destruct Hr as [[-> _]|[_ Hr]]; [done|]. by eapply receive_port.
Qed.

(** ** Pumping *)

Lemma pump_all_get now cs : forall cs' closed port,
  pump_all now cs = (cs', closed) ->
  bt_keys cs' = bt_keys cs /\
  bt_get cs' port = (fun c => snd (Connection_pump now c)) <$> bt_get cs port.
Proof.
  induction cs as [|[k c] cs IH]; simpl; intros cs' closed port; [by intros [= <- <-]|].
  destruct (Connection_pump now c) as [r c'] eqn:Ep.
  destruct (pump_all now cs) as [cs1 closed1]. intros [= <- <-].
  destruct (IH cs1 closed1 port eq_refl) as [IH1 IH2]. simpl. rewrite IH1. split; [done|].
  case_test; [simpl; by rewrite Ep|done].
Qed.

Lemma inv_pump now m : mux_inv m -> mux_inv (Mux_pump now m).
Proof.
  intros Hinv. unfold Mux_pump. destruct (pump_all now (connections m)) as [cs closed] eqn:E.
  assert (Hm : mux_inv (set_connections m cs)).
  { pose proof (fun port => pump_all_get _ _ _ _ port E) as Hget.
    destruct Hinv as [Hok Hp Hn Hd Hm Hr]. destruct (Hget 0) as [Hk _].
    assert (Hlen : zlen cs = zlen (connections m)) by (by rewrite <-!zlen_bt_keys, Hk).
    split; simpl; try done; rewrite ?Hlen; try done.
    - unfold bt_ok. by rewrite Hk.
    - intros port c. rewrite (proj2 (Hget port)).
      destruct (bt_get (connections m) port) as [c0|] eqn:Hg; [|done]. intros [= <-].
      destruct (Connection_pump now c0) as [r c'] eqn:Ep. simpl.
      rewrite (pump_port _ _ _ _ Ep). by apply Hp. }
  clear -Hm. revert Hm. generalize (set_connections m cs). clear.
  induction closed as [|port closed IH]; intros m Hm; simpl; [done|]. by apply IH, inv_cancel.
Qed.

(** ** Filling guest buffers *)

Section fill.
Context `{RB : RxBuffers B, RL : !RxLaws B}.

(** A fill by one connection stays within the buffers on offer. *)
Lemma fill_bounds c (b : B) first n b' c' :
  0 <= first < zlen (rx_slots b) -> Connection_fill c b first = (Ok n, b', c') ->
  0 <= n /\ first + n <= zlen (rx_slots b) /\ zlen (rx_slots b') = zlen (rx_slots b).
Proof.
  intros Hfirst H. apply fill_delivers in H as (bs & pk & Hn & Hd); [|done].
  destruct Hd as (_ & _ & _ & Hs & Hle & _). rewrite Hs. split_and!; zlen_lia.
Qed.


(** One turn keeps the invariant, and uses only buffers on offer. *)
Lemma turn_loop_spec n : forall m (b : B) first port used b' m',
  mux_inv m -> 0 <= first < zlen (rx_slots b) ->
  turn_loop n m b first port = (used, b', m') ->
  mux_inv m' /\ 0 <= used /\ first + used <= zlen (rx_slots b) /\
  zlen (rx_slots b') = zlen (rx_slots b) /\
  (0 < used -> resets m' = resets m).
Proof.
  induction n as [|n IH]; intros m b first port used b' m' Hinv Hfirst; simpl.
  { intros [= <- <- <-]. split_and!; done || lia. }
  destruct (match bt_next_after _ _ with Some p => Some p | None => _ end) as [next|];
    [|intros [= <- <- <-]; split_and!; done || lia].
  destruct (bt_get (connections m) next) as [c|] eqn:Hg;
    [|intros [= <- <- <-]; split_and!; done || lia].
  destruct (Connection_fill c b first) as [[r b1] c1] eqn:Ef.
  pose proof (fill_keeps_spec _ _ _ _ _ _ (proj1 Hfirst) Ef) as (_&_&_&_&_&_&Kh&_&_).
  pose proof (inv_update _ _ _ c1 Hinv Hg Kh) as Hinv1.
  destruct r as [u|e].
  - destruct (fill_bounds _ _ _ _ _ _ Hfirst Ef) as (Hu0 & Hu1 & Hlen).
    case_test; bool_to_prop.
    + intros H. apply IH in H as (? & ? & ? & ? & Hrs); [|done|by rewrite Hlen].
      rewrite <-Hlen. split_and!; done || lia.
    + intros [= <- <- <-]. split_and!; try done; try lia.
      destruct Hinv1 as [? ? ? ? ? ?]. by split.
  - intros [= <- <- <-]. rewrite (fill_err _ _ _ _ _ _ Hfirst Ef).
    split_and!; try done; try lia. by apply inv_cancel.
Qed.

Lemma inv_set_resets m rest h :
  mux_inv m -> resets m = h :: rest -> mux_inv (set_resets m rest).
Proof.
  intros [? ? ? ? ? Hr] E. split; simpl; try done. unfold max_resets in *; simpl in *.
  rewrite E in Hr. zlen_lia.
Qed.

(** Enough fuel for the loop from [next] on. *)
Definition fill_fuel (m : Mux) (b : B) (next : Z) : Z :=
  2 * (zlen (rx_slots b) - next) + (if bool_decide (resets m = []) then 2 else 1).

Lemma fill_loop_inv fuel : forall m (b : B) next n b' m',
  mux_inv m -> 0 <= next -> fill_loop fuel m b next = Some (n, b', m') -> mux_inv m'.
Proof.
  induction fuel as [|fuel IH]; intros m b next n b' m' Hinv Hn; simpl; [done|].
  destruct (rx_room b next) as [[r|] b1] eqn:Er; [|by intros [= <- <- <-]].
  apply rx_room_Some in Er as (Hsl & _ & Hr & _); [|done].
  destruct (resets m) as [|h rest] eqn:Ers.
  - destruct (fill_turn m b1 next) as [[used b2] m2] eqn:Et. unfold fill_turn in Et.
    apply turn_loop_spec in Et as (Hinv2 & ? & _ & _ & _); [|done|by rewrite Hsl].
    case_test; [by intros [= <- <- <-]|]. apply IH; [done|lia].
  - apply IH; [by eapply inv_set_resets|lia].
Qed.

Lemma fill_loop_total fuel : forall m (b : B) next,
  mux_inv m -> 0 <= next <= zlen (rx_slots b) -> fill_fuel m b next <= Z.of_nat fuel ->
  exists n b' m', fill_loop fuel m b next = Some (n, b', m') /\
    next <= n <= zlen (rx_slots b).
Proof.
  induction fuel as [|fuel IH]; intros m b next Hinv Hn Hf; simpl.
  { unfold fill_fuel in Hf. case_test_in Hf; lia. }
  destruct (rx_room b next) as [[r|] b1] eqn:Er; [|eexists _, _, _; split; [done|lia]].
  apply rx_room_Some in Er as (Hsl & _ & Hr & s & Hz & _); [|lia].
  destruct (resets m) as [|h rest] eqn:Ers.
  - destruct (fill_turn m b1 next) as [[used b2] m2] eqn:Et. unfold fill_turn in Et.
    apply turn_loop_spec in Et as (Hinv2 & Hu0 & Hu1 & Hlen & Hrs); [|done|by rewrite Hsl].
    rewrite Hsl in *.
    case_test; [eexists _, _, _; split; [done|lia]|].
    destruct (IH m2 b2 (next + used)) as (n & b' & m' & -> & ?); [done|lia| |].
    + unfold fill_fuel in *. rewrite Ers, bool_decide_true in Hf by done. rewrite Hlen.
      destruct (decide (resets m2 = [])) as [Hb|Hb].
      * rewrite (bool_decide_true _ Hb) in *. rewrite andb_true_r in Heqb0. bool_to_prop. lia.
      * rewrite (bool_decide_false _ Hb). lia.
    + eexists _, _, _. split; [done|lia].
  - assert (Hlen : zlen (rx_slots (rx_put_header b1 next h)) = zlen (rx_slots b)).
    { rewrite rx_put_spec by (by rewrite Hsl). unfold zlen. by rewrite length_alter, Hsl. }
    destruct (IH (set_resets m rest) (rx_put_header b1 next h) (next + 1))
      as (n & b' & m' & -> & ?); [by eapply inv_set_resets|lia| |].
    + unfold fill_fuel in *. rewrite Ers, bool_decide_false in Hf by done. rewrite Hlen.
      case_bool_decide; lia.
    + eexists _, _, _. split; [done|lia].
Qed.
End fill.

(** ** Reachable states *)

Lemma inv_add now m s gp o nb r m' :
  mux_inv m -> Mux_add now m s gp o nb = (r, m') -> mux_inv m'.
Proof.
  intros Hinv. pose proof Hinv as [Hok Hp Hn Hd Hm Hr]. unfold Mux_add.
  case_test; [by intros [= <- <-]|]. bool_to_prop.
  unfold checked_add. case_test; [|by intros [= <- <-]]. bool_to_prop.
  assert (Hd' : Forall (fun d => host_port (fst d) <= next_port m + 1) (dropped m)).
  { eapply Forall_impl; [exact Hd|]. simpl. lia. }
  destruct nb; intros [= <- <-].
  - assert (Hnew : bt_get (connections m) (next_port m + 1) = None).
    { destruct (bt_get (connections m) (next_port m + 1)) eqn:E; [|done].
      apply Hp in E. lia. }
    split; simpl; try done; try lia.
    + by apply bt_insert_ok.
    + intros port c. rewrite bt_get_insert. case_test; bool_to_prop.
      * intros [= <-]. subst. simpl. lia.
      * intros Hc%Hp. lia.
    + rewrite zlen_bt_insert_new by done. simpl. lia.
    + rewrite zlen_bt_insert_new by done. unfold max_resets in *; simpl in *. lia.
  - split; simpl; try done; try lia. intros port c H'%Hp. lia.
Qed.

Lemma inv_clear m : mux_inv m -> mux_inv (Mux_clear m).
Proof.
  intros [Hok Hp Hn Hd Hm Hr]. split; simpl; try done; try lia.
  - by constructor.
  - apply Forall_app. split; [|done]. apply Forall_map, Forall_forall. intros [port c] Hin.
    destruct (Hp port c (bt_ok_get _ _ _ Hok Hin)). simpl. lia.
  - change (0 <= max_connections m /\ 0 <= max_connections m). lia.
  - change (0 + 0 <= max_connections m + MAX_PENDING_RESETS). unfold MAX_PENDING_RESETS. lia.
Qed.

Lemma reachable_inv `{RB : RxBuffers B, RL : !RxLaws B} max m :
  0 <= max -> mux_reachable max m -> mux_inv m.
Proof.
  intros Hmax. induction 1 as [|m m' _ IH Hstep].
  { split; simpl; try done; try lia; [by constructor|]. unfold max_resets, MAX_PENDING_RESETS; simpl.
    zlen_lia. }
  destruct Hstep as [| | | | |fuel m b n b' m' Hfill|].
  - by eapply inv_add.
  - by apply inv_cancel.
  - unfold Mux_wake. destruct (bt_get (connections m) port) as [c|] eqn:Hg; [|done].
    by eapply inv_update.
  - by apply inv_receive.
  - by apply inv_pump.
  - by apply (fill_loop_inv fuel m b 0 n b').
  - by apply inv_clear.
Qed.

(** In every state the mux can reach, each connection sits under its own
    host port, the limits on connections and on connections and resets
    together hold, and a new connection gets a port that no connection has
    or ever had. *)
Theorem mux_ports_fresh `{RB : RxBuffers B, RL : !RxLaws B} max m now s gp o nb port m' :
  0 <= max -> mux_reachable max m -> Mux_add now m s gp o nb = (Ok port, m') ->
  (forall p c, bt_get (connections m) p = Some c -> host_port c = p /\ p < port) /\
  Forall (fun d => host_port (fst d) < port) (dropped m) /\
  bt_get (connections m') port = Some (new_connection now s gp port o) /\
  zlen (connections m') <= max_connections m' /\
  zlen (connections m') + zlen (resets m') <= max_resets m' /\ port < 2 ^ 32.
Proof.
  intros Hmax Hreach Hadd. pose proof (reachable_inv _ _ Hmax Hreach) as Hinv.
  pose proof (inv_add _ _ _ _ _ _ _ _ Hinv Hadd) as Hinv'.
  destruct Hinv as [Hok Hp Hn Hd Hm Hr].
  unfold Mux_add in Hadd. case_test_in Hadd; [done|].
  unfold checked_add in Hadd. case_test_in Hadd; [|done]. bool_to_prop.
  destruct nb; [|done]. injection Hadd as <- <-. split_and!.
  - intros p c H'%Hp. lia.
  - eapply Forall_impl; [exact Hd|]. simpl. lia.
  - simpl. by rewrite bt_get_insert, Z.eqb_refl.
  - apply Hinv'.
  - apply Hinv'.
  - lia.
Qed.

Definition demo_socket : Socket := MkSocket [] [] [] false None false false.

Lemma mux_ports_fresh_witness :
  exists m m', Mux_add 5 m demo_socket 80 Listener (Ok tt) = (Ok 1026, m') /\
    Forall (fun d => host_port (fst d) < 1026) (dropped m) /\ zlen (dropped m) = 1.
Proof.
  set (m1 := snd (Mux_add 0 (Mux_with_limit 2) demo_socket 80 Listener (Ok tt))).
  exists (Mux_cancel m1 1025), (snd (Mux_add 5 (Mux_cancel m1 1025) demo_socket 80 Listener (Ok tt))).
  split; [reflexivity|]. split; [|reflexivity].
  apply (mux_ports_fresh (B := list Slot) 2 (Mux_cancel m1 1025) 5 demo_socket 80 Listener (Ok tt)
           1026 (snd (Mux_add 5 (Mux_cancel m1 1025) demo_socket 80 Listener (Ok tt)))); [lia| |reflexivity].
  eapply mr_step; [|apply ms_cancel]. eapply mr_step; [apply mr_start|].
  eapply (ms_add 0 _ demo_socket 80 Listener (Ok tt)). reflexivity.
Defined.

(** No reset owed to the guest is lost, and a packet touches only the
    connection it names. In every reachable state a cancelled connection
    leaves its reset in the queue; a packet taken after [can_receive] has
    one of the outcomes of [receive_outcome], in which a packet with the
    wrong ports changes no connection and is answered by a reset; and the
    entries of all other ports stay as they are. *)
Theorem resets_not_lost `{RB : RxBuffers B, RL : !RxLaws B} max m :
  0 <= max -> mux_reachable max m ->
  (forall port c, bt_get (connections m) port = Some c ->
     resets (Mux_cancel m port) = resets m ++ [Connection_header c RST 0 0] /\
     bt_get (connections (Mux_cancel m port)) port = None) /\
  (forall h p, can_receive m = true ->
     receive_outcome m h p (Mux_receive m h p) /\
     forall port, port <> dst_port h ->
       bt_get (connections (Mux_receive m h p)) port = bt_get (connections m) port).
Proof.
  intros Hmax Hreach. pose proof (reachable_inv _ _ Hmax Hreach) as Hinv. split.
  - intros port c Hg. unfold Mux_cancel. rewrite Hg. simpl.
    destruct (inv_remove m port c Hinv Hg) as [_ Hroom]. rewrite reset_fits by done. simpl.
    split; [done|]. rewrite bt_get_remove by apply Hinv. by rewrite Z.eqb_refl.
  - intros h p Hcan. pose proof (receive_outcomes m h p Hinv Hcan) as Hout. split; [done|].
    intros port Hne%Z.eqb_neq.
    destruct Hout; simpl; rewrite ?bt_get_insert, ?bt_get_remove by apply Hinv;
      by rewrite ?Hne.
Qed.

Lemma resets_not_lost_witness :
  exists m h, receive_outcome m h [] (Mux_receive m h []) /\
    resets (Mux_receive m h []) = [unknown_reset h] /\ connections (Mux_receive m h []) = connections m.
Proof.
  set (m1 := snd (Mux_add 0 (Mux_with_limit 2) demo_socket 80 Listener (Ok tt))).
  exists m1, (MkHeader GUEST_CID HOST_CID 81 1025 0 STREAM RW 0 0 0).
  split_and!; [|reflexivity..].
  destruct (resets_not_lost (B := list Slot) 2 m1) as [_ H]; [lia| |].
  - eapply mr_step; [apply mr_start|].
    eapply (ms_add 0 _ demo_socket 80 Listener (Ok tt)). reflexivity.
  - apply H. reflexivity.
Defined.

(** Filling the guest's buffers ends: two turns per buffer on offer and two
    more are enough. It reports no more buffers than were offered, and keeps
    the limits of the mux. *)
Theorem fill_terminates `{RB : RxBuffers B, RL : !RxLaws B} max m (b : B) fuel :
  0 <= max -> mux_reachable max m -> 2 * zlen (rx_slots b) + 2 <= Z.of_nat fuel ->
  exists n b' m', Mux_fill fuel m b = Some (n, b', m') /\ 0 <= n <= zlen (rx_slots b) /\
    zlen (connections m') + zlen (resets m') <= max_resets m'.
Proof.
  intros Hmax Hreach Hf. pose proof (reachable_inv _ _ Hmax Hreach) as Hinv.
  destruct (fill_loop_total fuel m b 0) as (n & b' & m' & Hfill & Hn);
    [done|zlen_lia|unfold fill_fuel; case_test; lia|].
  exists n, b', m'. split_and!; [done|lia..|]. by apply (fill_loop_inv fuel m b 0 n b').
Qed.

Lemma fill_terminates_witness :
  exists n b' m', Mux_fill 6 (Mux_with_limit 2) [MkSlot 4 None []; MkSlot 4 None []]
    = Some (n, b', m') /\ 0 <= n <= 2.
Proof.
  destruct (fill_terminates (B := list Slot) 2 (Mux_with_limit 2)
              [MkSlot 4 None []; MkSlot 4 None []] 6) as (n & b' & m' & H & Hn & _);
    [lia|constructor|vm_compute; congruence|].
  by exists n, b', m'.
Defined.

(** ** Turns *)

(** [q] comes after [a] and before [b] in cyclic order. *)
Definition cyc_between (a q b : Z) : Prop :=
  if a <? b then a < q < b else a < q \/ q < b.

(** The port [turn_loop] looks at after [port]. *)
Definition turn_next (cs : btree Connection) (port : Z) : option Z :=
  match bt_next_after cs port with Some p => Some p | None => bt_first cs end.

Lemma turn_next_spec cs port next :
  bt_ok cs -> turn_next cs port = Some next ->
  next ∈ bt_keys cs /\ forall q, q ∈ bt_keys cs -> ~ cyc_between port q next.
Proof.
  intros Hok. unfold turn_next, cyc_between. destruct (bt_next_after cs port) as [p|] eqn:E.
  - intros [= <-]. apply bt_next_after_Some in E as (? & ? & Hmin); [|done]. split; [done|].
    intros q Hq. rewrite (proj2 (Z.ltb_lt _ _)) by done. intros [? ?].
    specialize (Hmin q Hq). lia.
  - intros Hf. apply bt_first_Some in Hf as [? Hmin]; [|done]. split; [done|].
    pose proof (bt_next_after_None _ _ next E). intros q Hq.
    pose proof (bt_next_after_None _ _ q E Hq). specialize (Hmin q Hq).
    case_test; bool_to_prop; intros; intuition lia.
Qed.

Lemma cyc_step port next q p :
  q <> next -> ~ cyc_between port q next -> ~ cyc_between port p next ->
  cyc_between port q p -> cyc_between next q p.
Proof.
  unfold cyc_between.
  destruct (Z.ltb_spec port next), (Z.ltb_spec port p), (Z.ltb_spec next p); lia.
Qed.

Section turns.
Context `{RB : RxBuffers B, RL : !RxLaws B}.

(** The connection had nothing to put into the buffers on offer. *)
Definition had_nothing (c : Connection) (b : B) (first : Z) : Prop :=
  exists b1 b2 c', rx_slots b1 = rx_slots b /\ Connection_fill c b1 first = (Ok 0, b2, c').

Lemma fill_nothing_slots c (b : B) first b' c' :
  0 <= first < zlen (rx_slots b) -> Connection_fill c b first = (Ok 0, b', c') ->
  rx_slots b' = rx_slots b.
Proof.
  intros Hfirst H. apply fill_delivers in H as (bs & pk & Hn & Hd); [|done].
  apply zlen_zero in Hn as ->. destruct Hd as (_ & _ & _ & Hs & _).
  rewrite zlen_nil, Z.add_0_r in Hs. simpl in Hs. by rewrite Hs, ztake_zdrop.
Qed.

Lemma turn_loop_order n : forall m (b : B) first port used b' m',
  bt_ok (connections m) -> 0 <= first < zlen (rx_slots b) ->
  turn_loop n m b first port = (used, b', m') -> used <> 0 ->
  last_port m' ∈ bt_keys (connections m) /\
  forall q c, bt_get (connections m) q = Some c -> cyc_between port q (last_port m') ->
    had_nothing c b first.
Proof.
  induction n as [|n IH]; intros m b first port used b' m' Hok Hfirst; simpl; [by intros [= <- <- <-]|].
  fold (turn_next (connections m) port).
  destruct (turn_next (connections m) port) as [next|] eqn:En; [|by intros [= <- <- <-]].
  apply turn_next_spec in En as [Hin Hbetween]; [|done].
  destruct (bt_get (connections m) next) as [c|] eqn:Hg; [|by intros [= <- <- <-]].
  destruct (Connection_fill c b first) as [[[u|e] b1] c1] eqn:Ef; [|by intros [= <- <- <-]].
  case_test; bool_to_prop.
  - subst u. intros Hloop Hused. pose proof (fill_nothing_slots _ _ _ _ _ Hfirst Ef) as Hsl.
    apply IH in Hloop as [Hlast Hq]; simpl in *; [|by apply bt_insert_ok|by rewrite Hsl|done].
    erewrite bt_keys_insert_update in Hlast by done. split; [done|].
    intros q cq Hgq Hcyc. destruct (decide (q = next)) as [->|Hne].
    { rewrite Hg in Hgq. injection Hgq as <-. by exists b, b1, c1. }
    assert (Hd : had_nothing cq b1 first); [apply (Hq q)|].
    + rewrite bt_get_insert. by rewrite (proj2 (Z.eqb_neq _ _) Hne).
    + apply (cyc_step port); [done|by eapply Hbetween, bt_get_Some_key|by apply Hbetween|done].
    + destruct Hd as (b2 & b3 & c2 & H1 & H2). exists b2, b3, c2. by rewrite H1.
  - intros [= <- <- <-] _. simpl. split; [done|].
    intros q cq Hgq Hcyc. destruct (Hbetween q); [by eapply bt_get_Some_key|done].
Qed.

(** Connections take turns. When a turn gives buffers to a connection, every
    connection that comes before it in cyclic port order, counted from the
    one served last, had nothing for the guest: a bulk transfer cannot starve
    the others. *)
Theorem turns_are_fair max m (b : B) first used b' m' :
  0 <= max -> mux_reachable max m -> 0 <= first < zlen (rx_slots b) ->
  fill_turn m b first = (used, b', m') -> used <> 0 ->
  last_port m' ∈ bt_keys (connections m) /\
  forall q c, bt_get (connections m) q = Some c ->
    cyc_between (last_port m) q (last_port m') -> had_nothing c b first.
Proof.
  intros Hmax Hreach Hfirst Hturn Hused. pose proof (reachable_inv _ _ Hmax Hreach) as Hinv.
  by eapply turn_loop_order; [apply Hinv|exact Hfirst|exact Hturn|].
Qed.
End turns.

Lemma turns_are_fair_witness :
  let add m := snd (Mux_add 0 m demo_socket 80 Listener (Ok tt)) in
  let m := add (add (Mux_with_limit 2)) in
  let b := [MkSlot 0 None []] in
  let m' := snd (fill_turn m b 0) in
  last_port m' = 1025 /\ last_port (snd (fill_turn m' b 0)) = 1026 /\
  last_port m' ∈ bt_keys (connections m).
Proof.
  intros add m b m'. split; [reflexivity|]. split; [reflexivity|].
  apply (turns_are_fair (B := list Slot) 2 m b 0 (fst (fst (fill_turn m b 0)))
           (snd (fst (fill_turn m b 0))) m'); [lia| |split; vm_compute; congruence|reflexivity|vm_compute; congruence].
  eapply mr_step; [eapply mr_step; [apply mr_start|]|];
    eapply (ms_add 0 _ demo_socket 80 Listener (Ok tt)); reflexivity.
Defined.
