(* ===== verification/Queue.v ===== *)
(** * The vsock virtqueue

    [crates/shuru-linux/src/kvm/vsock/queue.rs]: the device side of a split
    virtqueue in guest memory. The guest is not trusted: every address and
    index it controls is checked before it is used.

    Guest memory belongs to the [vm-memory] crate, so it is an interface
    here: [GuestMemory] has the three calls the code makes, and
    [GuestMemoryLaws] states what the crate documents of them. [Flat] is one
    memory that meets it. *)

From Stdlib Require Import Strings.Byte.
From S2P Require Import Prelude Vsock.

(** ** Guest memory *)

Class GuestMemory (M : Type) := {
  check_range : M -> Z -> Z -> bool;
  read_slice : M -> Z -> Z -> option bytes;
  write_slice : M -> Z -> bytes -> option M;
}.

(** A range that checks lies within the 64-bit addresses and can be read and
    written, parts of it check too and read and write as parts, a read gives
    as many bytes as it asked for, a write is read back, bytes apart from it
    stay, and no write changes what is mapped. *)
Class GuestMemoryLaws (M : Type) `{GuestMemory M} := {
  mem_sub (m : M) a n b k : check_range m a n = true -> a <= b -> 0 <= k -> b + k <= a + n ->
    check_range m b k = true;
  mem_read (m : M) a n : check_range m a n = true -> 0 <= n ->
    exists bs, read_slice m a n = Some bs /\ zlen bs = n;
  mem_read_len (m : M) a n bs : read_slice m a n = Some bs -> 0 <= n -> zlen bs = n;
  mem_read_split (m : M) a n k : check_range m a (n + k) = true -> 0 <= n -> 0 <= k ->
    exists b1 b2, read_slice m a n = Some b1 /\ read_slice m (a + n) k = Some b2 /\
      read_slice m a (n + k) = Some (b1 ++ b2);
  mem_top (m : M) a n : check_range m a n = true -> 0 <= a -> 0 <= n -> a + n <= 2 ^ 64;
  mem_write_ranges (m : M) a bs m' : write_slice m a bs = Some m' ->
    forall b k, check_range m' b k = check_range m b k;
  mem_write (m : M) a bs : check_range m a (zlen bs) = true ->
    exists m', write_slice m a bs = Some m' /\
      read_slice m' a (zlen bs) = Some bs /\
      (forall b k, 0 <= k -> b + k <= a \/ a + zlen bs <= b ->
         read_slice m' b k = read_slice m b k);
  mem_write_split (m : M) a b1 b2 : check_range m a (zlen b1 + zlen b2) = true ->
    write_slice m a (b1 ++ b2) = let! m1 := write_slice m a b1 in write_slice m1 (a + zlen b1) b2;
}.

(** ** The queue *)

Definition VRING_USED_F_NO_NOTIFY : Z := 1.
Definition VRING_AVAIL_F_NO_INTERRUPT : Z := 1.

(** [io::Error::other("invalid vsock virtqueue")] *)
Definition invalid_queue : ErrorKind := Other.

Record Queue := MkQueue {
  q_size : Z;
  desc_addr : Z;
  avail_addr : Z;
  used_addr : Z;
  next_avail : Z;
  q_used : Z;
}.

(** [usize::is_power_of_two]. *)
Definition is_power_of_two (n : Z) : bool := (0 <? n) && (Z.land n (n - 1) =? 0).

Section queue.
Context `{GuestMemory M}.
Implicit Types (q : Queue).

Definition ring_fits (mem : M) (address len : Z) : bool :=
  match checked_add 64 address len with
  | None => false
  | Some _ => check_range mem address len
  end.

Definition Queue_new (size desc avail used : Z) (mem : M) : result Queue ErrorKind :=
  let count := size in
  if (count =? 0) || (256 <? count) || negb (is_power_of_two count)
     || negb (desc mod 16 =? 0) || negb (avail mod 2 =? 0) || negb (used mod 4 =? 0)
  then Err invalid_queue else
  if forallb (fun '(address, len) => ring_fits mem address len)
       [(desc, count * 16); (avail, 6 + count * 2); (used, 6 + count * 8)]
  then Ok (MkQueue size desc avail used 0 0)
  else Err invalid_queue.

Definition Queue_index q : Z := next_avail q.

Definition starting_at q (index : Z) : Queue :=
  MkQueue (q_size q) (desc_addr q) (avail_addr q) (used_addr q) index index.

(** [mem.read_obj::<u16>(..).map(u16::from_le)] *)
Definition read_u16 (mem : M) (address : Z) : result Z ErrorKind :=
  match read_slice mem address 2 with
  | Some bs => Ok (le_val bs)
  | None => Err invalid_queue
  end.

Definition write_obj (mem : M) (n : nat) (v address : Z) : result M ErrorKind :=
  match write_slice mem address (le_bytes n v) with
  | Some mem => Ok mem
  | None => Err invalid_queue
  end.

Definition posted q (mem : M) : result Z ErrorKind :=
  read_u16 mem (wrapping_add 64 (avail_addr q) 2).

Definition head_at q (mem : M) (ahead : Z) : result (option Z) ErrorKind :=
  let? available := read_u16 mem (wrapping_add 64 (avail_addr q) 2) in
  let count := wrapping_sub 16 available (next_avail q) in
  if q_size q <? count then Err invalid_queue else
  if count <=? ahead then Ok None else
  let slot := wrapping_add 16 (next_avail q) (wrap 16 ahead) mod q_size q in
  let? head := read_u16 mem (wrapping_add 64 (avail_addr q) (4 + slot * 2)) in
  Ok (Some head).

Definition head q (mem : M) : result (option Z) ErrorKind := head_at q mem 0.

Definition set_notify q (mem : M) (on : bool) : result M ErrorKind :=
  write_obj mem 2 (if on then 0 else VRING_USED_F_NO_NOTIFY) (used_addr q).

Definition wants_interrupt q (mem : M) : bool :=
  match read_u16 mem (avail_addr q) with
  | Ok fl => Z.land fl VRING_AVAIL_F_NO_INTERRUPT =? 0
  | Err _ => true
  end.

(** [!3] of a [u16]. *)
Definition not_3_u16 : Z := 2 ^ 16 - 1 - 3.

(** The checks on one descriptor's fields. *)
Definition descriptor_bad (mem : M) (address len fl : Z) (writable : bool) : bool :=
  negb (Z.land fl not_3_u16 =? 0)
  || negb (Bool.eqb (negb (Z.land fl 2 =? 0)) writable)
  || (BUFFER_SIZE + HEADER_LEN <? len)
  || negb (ring_fits mem address len).

(** The loop of [descriptors]. [visited] holds the indices seen. [None] is
    running out of fuel. *)
Fixpoint walk (fuel : nat) q (mem : M) (writable : bool) (index total : Z) (visited : list Z)
    (res : list (Z * Z)) : option (result (list (Z * Z)) ErrorKind) :=
  match fuel with
  | O => None
  | S fuel =>
      if (q_size q <=? index) || bool_decide (index ∈ visited) then Some (Err invalid_queue) else
      match read_slice mem (wrapping_add 64 (desc_addr q) (index * 16)) 16 with
      | None => Some (Err invalid_queue)
      | Some bs =>
          let address := le_val (zslice 0 8 bs) in
          let len := le_val (zslice 8 12 bs) in
          let fl := le_val (zslice 12 14 bs) in
          if descriptor_bad mem address len fl writable then Some (Err invalid_queue) else
          match checked_add 64 total len with
          | None => Some (Err invalid_queue)
          | Some total =>
              if BUFFER_SIZE + HEADER_LEN <? total then Some (Err invalid_queue) else
              let res := res ++ [(address, len)] in
              if Z.land fl 1 =? 0 then Some (Ok res)
              else walk fuel q mem writable (le_val (zslice 14 16 bs)) total
                        (index :: visited) res
          end
      end
  end.

(** A queue has at most 256 descriptors and none is visited twice. *)
Definition descriptors q (mem : M) (head : Z) (writable : bool)
    : option (result (list (Z * Z)) ErrorKind) :=
  walk 257 q mem writable head 0 [] [].

Definition complete q (mem : M) (head len : Z) : result (Queue * M) ErrorKind :=
  let address := wrapping_add 64 (used_addr q) (4 + (q_used q mod q_size q) * 8) in
  let? mem := write_obj mem 4 head address in
  let? mem := write_obj mem 4 len (wrapping_add 64 address 4) in
  let used := wrapping_add 16 (q_used q) 1 in
  let? mem := write_obj mem 2 used (wrapping_add 64 (used_addr q) 2) in
  Ok (MkQueue (q_size q) (desc_addr q) (avail_addr q) (used_addr q)
              (wrapping_add 16 (next_avail q) 1) used, mem).
End queue.

(** ** Well-formed queues *)

(** What [Queue_new] checks, with the widths of the fields. *)
Record queue_wf `{GuestMemory M} (q : Queue) (mem : M) : Prop := {
  qw_size : 0 < q_size q <= 256;
  qw_pow2 : is_power_of_two (q_size q) = true;
  qw_desc : 0 <= desc_addr q /\ ring_fits mem (desc_addr q) (q_size q * 16) = true;
  qw_avail : 0 <= avail_addr q /\ ring_fits mem (avail_addr q) (6 + q_size q * 2) = true;
  qw_used : 0 <= used_addr q /\ ring_fits mem (used_addr q) (6 + q_size q * 8) = true;
  qw_next : in_width 16 (next_avail q);
  qw_counter : in_width 16 (q_used q);
}.

Section wf.
Context `{GM : GuestMemory M, GL : !GuestMemoryLaws M}.

Lemma ring_fits_spec (mem : M) a n :
  ring_fits mem a n = true <-> a + n < 2 ^ 64 /\ check_range mem a n = true.
Proof.
  unfold ring_fits, checked_add. destruct (Z.ltb_spec (a + n) (2 ^ 64)); [tauto|]. split; [done|lia].
Qed.

Lemma new_wf size desc avail used (mem : M) q :
  in_width 16 size -> 0 <= desc -> 0 <= avail -> 0 <= used ->
  Queue_new size desc avail used mem = Ok q -> queue_wf q mem.
Proof.
  intros [? ?] ? ? ?. unfold Queue_new. case_test; [done|]. case_test; [|done].
  intros [= <-]. bool_to_prop. simpl in Heqb0. bool_to_prop.
  split; simpl; try done; lia.
Qed.

(** A field of a checked ring can be read. *)
Lemma ring_read (mem : M) a n o k :
  0 <= a -> ring_fits mem a n = true -> 0 <= o -> 0 <= k -> o + k <= n ->
  exists bs, read_slice mem (wrapping_add 64 a o) k = Some bs /\ zlen bs = k.
Proof.
  intros ? [Hlt Hc]%ring_fits_spec ? ? ?.
  unfold wrapping_add. rewrite wrap_small by (unfold in_width; lia).
  apply mem_read; [|done]. eapply mem_sub; [exact Hc|lia..].
Qed.

Lemma ring_read_u16 (mem : M) a n o :
  0 <= a -> ring_fits mem a n = true -> 0 <= o -> o + 2 <= n ->
  exists v, read_u16 mem (wrapping_add 64 a o) = Ok v /\ in_width 16 v.
Proof.
  intros. destruct (ring_read mem a n o 2) as (bs & Hr & Hl); [done|done|lia..|].
  unfold read_u16. rewrite Hr. eexists. split; [done|].
  pose proof (le_val_range bs) as Hv. rewrite Hl in Hv. unfold in_width. lia.
Qed.

(** A field of a checked ring can be written, and the ring still checks. *)
Lemma ring_write (mem : M) a n o (k : nat) v :
  0 <= a -> ring_fits mem a n = true -> 0 <= o -> o + Z.of_nat k <= n ->
  exists mem', write_obj mem k v (wrapping_add 64 a o) = Ok mem' /\
    (forall b j, check_range mem' b j = check_range mem b j) /\
    read_slice mem' (a + o) (Z.of_nat k) = Some (le_bytes k v) /\
    (forall b j, 0 <= j -> b + j <= a + o \/ a + o + Z.of_nat k <= b ->
       read_slice mem' b j = read_slice mem b j).
Proof.
  intros ? [Hlt Hc]%ring_fits_spec ? ?.
  unfold wrapping_add. rewrite wrap_small by (unfold in_width; lia).
  destruct (mem_write mem (a + o) (le_bytes k v)) as (mem' & Hw & Hb & Hs).
  { rewrite zlen_le_bytes. eapply mem_sub; [exact Hc|lia..]. }
  rewrite zlen_le_bytes in Hb, Hs. exists mem'. unfold write_obj. rewrite Hw.
  pose proof (mem_write_ranges _ _ _ _ Hw). done.
Qed.

Lemma wf_ranges q (mem mem' : M) :
  (forall b j, check_range mem' b j = check_range mem b j) -> queue_wf q mem -> queue_wf q mem'.
Proof.
  intros Hr [? ? Hd Ha Hu ? ?].
  assert (Hf : forall a n, ring_fits mem' a n = ring_fits mem a n).
  { intros. unfold ring_fits. case_match; [apply Hr|done]. }
  split; rewrite ?Hf; done.
Qed.
End wf.

(** The bytes of the used ring that [complete] may write. *)
Definition used_ring (q : Queue) (b k : Z) : Prop :=
  b < used_addr q + (6 + q_size q * 8) /\ used_addr q < b + k.

Lemma complete_spec `{GM : GuestMemory M, GL : !GuestMemoryLaws M}
    q (mem : M) hd len :
  queue_wf q mem ->
  exists q' mem', complete q mem hd len = Ok (q', mem') /\ queue_wf q' mem' /\
    q_used q' = wrap 16 (q_used q + 1) /\ next_avail q' = wrap 16 (next_avail q + 1) /\
    read_u16 mem' (used_addr q + 2) = Ok (q_used q') /\
    (let slot := used_addr q + 4 + (q_used q mod q_size q) * 8 in
     read_slice mem' slot 4 = Some (le_bytes 4 hd) /\
     read_slice mem' (slot + 4) 4 = Some (le_bytes 4 len)) /\
    (forall b k, 0 <= k -> ~ used_ring q b k -> read_slice mem' b k = read_slice mem b k) /\
    (forall b k, check_range mem' b k = check_range mem b k).
Proof.
  intros Hwf. pose proof Hwf as [Hsz _ _ _ [Hu0 Hu] Hn Hc]. unfold complete.
  pose proof (Z.mod_pos_bound (q_used q) (q_size q) ltac:(lia)) as Hslot.
  set (slot := q_used q mod q_size q) in *.
  assert (Haddr : wrapping_add 64 (wrapping_add 64 (used_addr q) (4 + slot * 8)) 4
                  = wrapping_add 64 (used_addr q) (4 + slot * 8 + 4)).
  { unfold wrapping_add, wrap. rewrite Zplus_mod_idemp_l. f_equal. lia. }
  rewrite Haddr.
  destruct (ring_write mem (used_addr q) _ (4 + slot * 8) 4 hd Hu0 Hu)
    as (m1 & -> & R1 & B1 & S1); [lia..|].
  destruct (ring_write m1 (used_addr q) (6 + q_size q * 8) (4 + slot * 8 + 4) 4 len)
    as (m2 & -> & R2 & B2 & S2); [done|by apply (wf_ranges _ _ _ R1)|lia..|].
  assert (R12 : forall b j, check_range m2 b j = check_range mem b j) by (intros; by rewrite R2).
  destruct (ring_write m2 (used_addr q) (6 + q_size q * 8) 2 2 (wrapping_add 16 (q_used q) 1))
    as (m3 & -> & R3 & B3 & S3); [done|by apply (wf_ranges _ _ _ R12)|lia..|].
  assert (R123 : forall b j, check_range m3 b j = check_range mem b j) by (intros; by rewrite R3).
  change (Z.of_nat 2) with 2 in *. change (Z.of_nat 4) with 4 in *.
  eexists _, _. split; [done|]. cbn [q_used next_avail]. split_and!; try done.
  - apply (wf_ranges _ _ _ R123) in Hwf as [? ? ? ? ? ? ?].
    split; simpl; try done; apply wrap_in_width; lia.
  - unfold read_u16. rewrite B3. rewrite le_val_small by (apply wrap_in_width; lia). done.
  - rewrite <-!Z.add_assoc, S3, S2 by lia. exact B1.
  - rewrite <-!Z.add_assoc, S3 by lia. rewrite !Z.add_assoc in *. exact B2.
  - intros b k Hk Hout. unfold used_ring in Hout. rewrite S3, S2, S1; [done|lia..].
Qed.

(** Completing a buffer on a queue that [Queue_new] accepted cannot fail,
    even if the guest has since rewritten its memory. It puts the head and
    the length into the slot of the used counter, publishes the counter, and
    advances both counters modulo 2^16; it writes nowhere outside the used
    ring, and the queue stays well-formed. *)
Theorem complete_publishes `{GM : GuestMemory M, GL : !GuestMemoryLaws M}
    q (mem : M) hd len :
  queue_wf q mem ->
  exists q' mem', complete q mem hd len = Ok (q', mem') /\ queue_wf q' mem' /\
    q_used q' = wrap 16 (q_used q + 1) /\ next_avail q' = wrap 16 (next_avail q + 1) /\
    read_u16 mem' (used_addr q + 2) = Ok (q_used q') /\
    (let slot := used_addr q + 4 + (q_used q mod q_size q) * 8 in
     read_slice mem' slot 4 = Some (le_bytes 4 hd) /\
     read_slice mem' (slot + 4) 4 = Some (le_bytes 4 len)) /\
    forall b k, 0 <= k -> ~ used_ring q b k -> read_slice mem' b k = read_slice mem b k.
Proof.
  intros Hwf. destruct (complete_spec q mem hd len Hwf) as (q' & mem' & H). exists q', mem'.
  tauto.
Qed.

(** ** A flat memory *)

Definition Flat : Type := bytes.

Definition flat_check (m : Flat) (a n : Z) : bool := (0 <=? a) && (0 <=? n) && (a + n <=? Z.min (zlen m) (2 ^ 64)).

#[export] Instance flat_memory : GuestMemory Flat := {
  check_range := flat_check;
  read_slice m a n := if flat_check m a n then Some (zslice a (a + n) m) else None;
  write_slice m a bs :=
    if flat_check m a (zlen bs) then Some (ztake a m ++ bs ++ zdrop (a + zlen bs) m) else None;
}.

Lemma flat_check_spec m a n : flat_check m a n = true <-> 0 <= a /\ 0 <= n /\ a + n <= Z.min (zlen m) (2 ^ 64).
Proof. unfold flat_check. rewrite !andb_true_iff, !Z.leb_le. tauto. Qed.

#[export] Program Instance flat_laws : GuestMemoryLaws Flat.
Next Obligation.
  intros m a n b k. simpl. rewrite !flat_check_spec. lia.
Qed.
Next Obligation.
  intros m a n Hc ?. simpl in *. rewrite Hc. eexists. split; [done|].
  apply flat_check_spec in Hc. rewrite zlen_slice; lia.
Qed.
Next Obligation.
  intros m a n bs Hr ?. simpl in *. case_test_in Hr; [|done]. injection Hr as <-.
  apply flat_check_spec in Heqb. rewrite zlen_slice; lia.
Qed.
Next Obligation.
  intros m a n k Hc ? ?. simpl in *. rewrite Hc. apply flat_check_spec in Hc.
  rewrite !(proj2 (flat_check_spec _ _ _)) by lia.
  eexists _, _. split_and!; [done..|]. f_equal.
  rewrite Z.add_assoc, zslice_cat by lia. done.
Qed.
Next Obligation.
  intros m a n Hc ? ?. simpl in *. apply flat_check_spec in Hc. lia.
Qed.
Next Obligation.
  intros m a bs m' Hw b k. simpl in *. case_test_in Hw; [|done]. injection Hw as <-.
  apply flat_check_spec in Heqb0. unfold flat_check. do 2 f_equal. zlen_lia.
Qed.
Next Obligation.
  intros m a bs Hc. simpl in *. rewrite Hc. eexists. split; [done|].
  apply flat_check_spec in Hc.
  assert (Hlen : zlen (ztake a m ++ bs ++ zdrop (a + zlen bs) m) = zlen m) by zlen_lia.
  assert (Hck : forall b k, flat_check (ztake a m ++ bs ++ zdrop (a + zlen bs) m) b k
                            = flat_check m b k) by (intros; unfold flat_check; by rewrite Hlen).
  split_and!.
  - rewrite Hck, (proj2 (flat_check_spec _ _ _)) by lia. unfold zslice. f_equal.
    rewrite zdrop_app_exact by zlen_lia. apply ztake_app_exact. lia.
  - intros b k Hk Hdis. rewrite Hck. case_test; [|done]. apply flat_check_spec in Heqb0.
    f_equal. unfold zslice. replace (b + k - b) with k by lia. destruct Hdis.
    + rewrite zdrop_app_le by zlen_lia. rewrite ztake_app_le by zlen_lia.
      rewrite zdrop_ztake by lia. rewrite ztake_ztake. f_equal. lia.
    + rewrite zdrop_app_ge by zlen_lia. rewrite zdrop_app_ge by zlen_lia.
      rewrite zdrop_zdrop by zlen_lia. do 2 f_equal. zlen_lia.
Qed.
Next Obligation.
  intros m a b1 b2 Hc. simpl in *. rewrite zlen_app, Hc. apply flat_check_spec in Hc.
  rewrite (proj2 (flat_check_spec _ _ _)) by zlen_lia.
  rewrite (proj2 (flat_check_spec _ _ _)) by zlen_lia. f_equal.
  rewrite ztake_app_ge, ztake_app_exact by zlen_lia.
  rewrite <-!app_assoc. do 3 f_equal. 
  rewrite zdrop_app_ge, zdrop_app_ge, zdrop_zdrop by zlen_lia. f_equal. zlen_lia.
Qed.

(** A queue of two descriptors at 0, its avail ring at 32, its used ring at 44. *)
Definition demo_queue : Queue := MkQueue 2 0 32 44 65535 65535.
Definition demo_memory : Flat := replicate 128 x00.

Lemma demo_queue_wf : queue_wf demo_queue demo_memory.
Proof. split; vm_compute; intuition congruence. Qed.

Lemma complete_publishes_witness :
  exists q' (mem' : Flat), complete demo_queue demo_memory 1 77 = Ok (q', mem') /\ q_used q' = 0 /\
    read_slice mem' 56 4 = Some (le_bytes 4 1).
Proof.
  destruct (complete_publishes demo_queue demo_memory 1 77 demo_queue_wf)
    as (q' & mem' & H1 & _ & H2 & _ & _ & (H3 & _) & _).
  exists q', mem'. split_and!; [exact H1|rewrite H2; reflexivity|exact H3].
Defined.

(** ** Descriptor chains *)

Section chains.
Context `{GM : GuestMemory M, GL : !GuestMemoryLaws M}.

Definition chain_total (ds : list (Z * Z)) : Z := foldr (fun d acc => snd d + acc) 0 ds.

Lemma chain_total_app ds1 ds2 : chain_total (ds1 ++ ds2) = chain_total ds1 + chain_total ds2.
Proof. induction ds1 as [|d ds IH]; simpl; [done|]. rewrite IH. lia. Qed.

(** Every buffer of the chain is in guest memory, and together they hold at
    most one packet of the largest size. *)
Definition chain_ok (q : Queue) (mem : M) (ds : list (Z * Z)) : Prop :=
  Forall (fun d => 0 <= fst d /\ 0 <= snd d /\ fst d + snd d < 2 ^ 64 /\
                   check_range mem (fst d) (snd d) = true) ds /\
  chain_total ds <= BUFFER_SIZE + HEADER_LEN /\ 0 < zlen ds <= q_size q.

Lemma in_range_length (l : list Z) n :
  NoDup l -> Forall (fun i => 0 <= i < n) l -> 0 <= n -> zlen l <= n.
Proof.
  intros Hnd HF Hn.
  assert (Hsub : incl (map Z.to_nat l) (seq 0 (Z.to_nat n))).
  { intros x [i [<- Hi]]%in_map_iff. apply list_elem_of_In in Hi.
    pose proof (proj1 (Forall_forall _ _) HF _ Hi). apply in_seq. simpl in *. lia. }
  apply NoDup_incl_length in Hsub.
  - rewrite length_map, length_seq in Hsub. unfold zlen. lia.
  - apply NoDup_ListNoDup. apply NoDup_fmap_2_strong; [|done].
    intros x y Hx Hy Heq.
    pose proof (proj1 (Forall_forall _ _) HF _ Hx). pose proof (proj1 (Forall_forall _ _) HF _ Hy).
    simpl in *. lia.
Qed.

Lemma walk_spec fuel : forall q (mem : M) writable index total visited res,
  queue_wf q mem -> 0 <= index -> total = chain_total res -> 0 <= total <= BUFFER_SIZE + HEADER_LEN ->
  NoDup visited -> Forall (fun i => 0 <= i < q_size q) visited -> zlen res = zlen visited ->
  Forall (fun d => 0 <= fst d /\ 0 <= snd d /\ fst d + snd d < 2 ^ 64 /\
                   check_range mem (fst d) (snd d) = true) res ->
  256 < Z.of_nat fuel + zlen visited ->
  exists r, walk fuel q mem writable index total visited res = Some r /\
    match r with Ok ds => chain_ok q mem ds | Err e => e = invalid_queue end.
Proof.
  induction fuel as [|fuel IH]; intros q mem wr index total visited res
    Hwf Hi Ht Hb Hnd HF Hlen Hres Hfuel; pose proof Hwf as [Hsz _ [Hd0 Hd] _ _ _ _].
  { pose proof (in_range_length _ _ Hnd HF ltac:(lia)). lia. }
  simpl. case_test; [by eexists|]. bool_to_prop.
  destruct (ring_read mem (desc_addr q) _ (index * 16) 16 Hd0 Hd) as (bs & -> & Hbs); [lia..|].
  pose proof (le_val_range (zslice 0 8 bs)) as Hr1.
  pose proof (le_val_range (zslice 8 12 bs)) as Hr2.
  set (address := le_val (zslice 0 8 bs)) in *. set (len := le_val (zslice 8 12 bs)) in *.
  clearbody address len. case_test; [by eexists|]. unfold descriptor_bad in Heqb. bool_to_prop.
  match goal with Hr : ring_fits _ _ _ = true |- _ => apply ring_fits_spec in Hr as [Hlt Hck] end.
  unfold checked_add. rewrite (proj2 (Z.ltb_lt _ _))
    by (unfold BUFFER_SIZE, HEADER_LEN in *; lia).
  case_test; [by eexists|]. bool_to_prop.
  assert (Hres' : Forall (fun d => 0 <= fst d /\ 0 <= snd d /\ fst d + snd d < 2 ^ 64 /\
                   check_range mem (fst d) (snd d) = true) (res ++ [(address, len)])).
  { apply Forall_app. split; [done|]. constructor; [|done]. simpl. split_and!; done || lia. }
  assert (Htot : chain_total (res ++ [(address, len)]) = total + len).
  { rewrite chain_total_app, Ht. simpl. lia. }
  assert (HF' : Forall (fun i => 0 <= i < q_size q) (index :: visited)) by (by constructor).
  assert (Hnd' : NoDup (index :: visited)) by (by constructor).
  pose proof (in_range_length _ _ Hnd' HF' ltac:(lia)) as Hcount. rewrite zlen_cons in Hcount.
  case_test.
  - eexists. split; [done|]. split_and!; [done|by rewrite Htot|zlen_lia|zlen_lia].
  - pose proof (le_val_range (zslice 14 16 bs)).
    apply IH; try done; try lia; zlen_lia.
Qed.

(** C35: Walking a descriptor chain of an untrusted guest ends, whatever the
    chain, loops included. A chain that is accepted has at least one buffer,
    no more than the queue has descriptors, all of them inside guest memory,
    and at most one packet's worth of bytes. *)
Theorem descriptors_safe q (mem : M) hd writable :
  queue_wf q mem -> 0 <= hd ->
  exists r, descriptors q mem hd writable = Some r /\
    match r with Ok ds => chain_ok q mem ds | Err e => e = invalid_queue end.
Proof.
  intros Hwf Hhd. apply walk_spec; try done; try (unfold BUFFER_SIZE, HEADER_LEN; simpl; lia).
  by constructor.
Qed.

Lemma pow2_divides n : 0 < n <= 256 -> is_power_of_two n = true -> (n | 2 ^ 16).
Proof.
  intros Hn Hp.
  assert (Hall : forallb (fun k => let n := Z.of_nat k in
                    negb (is_power_of_two n) || (2 ^ 16 mod n =? 0)) (seq 1 256) = true)
    by (vm_compute; reflexivity).
  rewrite forallb_forall in Hall. specialize (Hall (Z.to_nat n)).
  rewrite in_seq in Hall. specialize (Hall ltac:(lia)). cbv zeta beta in Hall.
  rewrite Z2Nat.id, Hp in Hall by lia. apply Z.mod_divide; [lia|]. by apply Z.eqb_eq.
Qed.

(** Looking at the ring of an accepted queue fails only when the guest
    claims more buffers than the queue has; otherwise it finds a head for
    exactly the places the guest has posted. *)
Theorem head_at_spec q (mem : M) ahead :
  queue_wf q mem -> 0 <= ahead ->
  exists available, posted q mem = Ok available /\
    let count := wrap 16 (available - next_avail q) in
    match head_at q mem ahead with
    | Err _ => q_size q < count
    | Ok None => count <= q_size q /\ count <= ahead
    | Ok (Some hd) => ahead < count <= q_size q /\
        read_u16 mem (avail_addr q + 4 + ((next_avail q + ahead) mod q_size q) * 2) = Ok hd
    end.
Proof.
  intros Hwf Ha. pose proof Hwf as [Hsz Hp2 _ [Ha0 Hav] _ [Hn0 Hn] _].
  destruct (ring_read_u16 mem (avail_addr q) _ 2 Ha0 Hav) as (av & Hr & Hw); [lia..|].
  unfold posted, head_at. rewrite Hr. exists av. split; [done|]. cbv zeta.
  unfold wrapping_sub. case_test; bool_to_prop; [done|]. case_test; bool_to_prop; [lia|].
  set (slot := wrapping_add 16 (next_avail q) (wrap 16 ahead) mod q_size q).
  assert (Hslot : slot = (next_avail q + ahead) mod q_size q).
  { unfold slot, wrapping_add, wrap. rewrite Zplus_mod_idemp_r.
    apply Z.mod_mod_divide. by apply pow2_divides. }
  pose proof (Z.mod_pos_bound (next_avail q + ahead) (q_size q) ltac:(lia)).
  destruct (ring_read_u16 mem (avail_addr q) _ (4 + slot * 2) Ha0 Hav) as (hd & Hh & _); [lia..|].
  rewrite Hh. split; [lia|]. rewrite <-Hslot. revert Hh. unfold wrapping_add at 1.
  apply ring_fits_spec in Hav as [Hav _].
  rewrite wrap_small by (unfold in_width; lia). by rewrite Z.add_assoc.
Qed.
End chains.

Lemma descriptors_safe_witness :
  exists r, descriptors demo_queue demo_memory 0 false = Some r /\
    match r with Ok ds => chain_ok demo_queue demo_memory ds | Err e => e = invalid_queue end.
Proof. apply (descriptors_safe demo_queue demo_memory 0 false demo_queue_wf). lia. Defined.

Lemma head_at_spec_witness :
  exists available, posted demo_queue demo_memory = Ok available /\ available = 0 /\
    head_at demo_queue demo_memory 0 = Ok (Some 0).
Proof.
  destruct (head_at_spec demo_queue demo_memory 0 demo_queue_wf) as (av & H & _); [lia|].
  exists av. split; [exact H|]. split; [injection H; auto|reflexivity].
Defined.
