(* ===== verification/Virtio.v ===== *)
(** * The virtio MMIO transport

    The transport of [crates/shuru-linux/src/kvm/devices.rs]: the registers a
    guest driver programs, the queues it sets up with them, the interrupt
    line, the thread that serves kicked queues, and the snapshot of a device.
    The device behind it is an interface, [VirtioBackend].

    Guest memory is the [GuestMemory] of the vsock queue. The guest runs while
    the device works, so nothing is assumed of what the memory holds; a call
    of the device sees it as it is then. KVM turns a matching write to the
    notify register into a signal on the queue's eventfd, [kick]. *)

From Stdlib Require Import Strings.Byte.
From S2P Require Import Prelude Vsock Queue.

(** ** Registers *)

Definition VIRTIO_MMIO_MAGIC : Z := 0x000.
Definition VIRTIO_MMIO_VERSION : Z := 0x004.
Definition VIRTIO_MMIO_DEVICE_ID : Z := 0x008.
Definition VIRTIO_MMIO_VENDOR_ID : Z := 0x00C.
Definition VIRTIO_MMIO_DEV_FEATURES : Z := 0x010.
Definition VIRTIO_MMIO_DEV_FEATURES_SEL : Z := 0x014.
Definition VIRTIO_MMIO_DRV_FEATURES : Z := 0x020.
Definition VIRTIO_MMIO_DRV_FEATURES_SEL : Z := 0x024.
Definition VIRTIO_MMIO_QUEUE_SEL : Z := 0x030.
Definition VIRTIO_MMIO_QUEUE_NUM_MAX : Z := 0x034.
Definition VIRTIO_MMIO_QUEUE_NUM : Z := 0x038.
Definition VIRTIO_MMIO_QUEUE_READY : Z := 0x044.
Definition VIRTIO_MMIO_QUEUE_NOTIFY : Z := 0x050.
Definition VIRTIO_MMIO_INTERRUPT_STATUS : Z := 0x060.
Definition VIRTIO_MMIO_INTERRUPT_ACK : Z := 0x064.
Definition VIRTIO_MMIO_STATUS : Z := 0x070.
Definition VIRTIO_MMIO_QUEUE_DESC_LOW : Z := 0x080.
Definition VIRTIO_MMIO_QUEUE_DESC_HIGH : Z := 0x084.
Definition VIRTIO_MMIO_QUEUE_DRIVER_LOW : Z := 0x090.
Definition VIRTIO_MMIO_QUEUE_DRIVER_HIGH : Z := 0x094.
Definition VIRTIO_MMIO_QUEUE_DEVICE_LOW : Z := 0x0A0.
Definition VIRTIO_MMIO_QUEUE_DEVICE_HIGH : Z := 0x0A4.
Definition VIRTIO_MMIO_CONFIG_GENERATION : Z := 0x0FC.
Definition VIRTIO_MMIO_CONFIG : Z := 0x100.

Definition VIRTIO_STATUS_FEATURES_OK : Z := 8.
Definition VIRTIO_STATUS_DRIVER_OK : Z := 4.
Definition MAX_QUEUE_SIZE : Z := 256.
Definition VIRTIO_F_VERSION_1 : Z := Z.shiftl 1 32.

Definition VRING_DESC_F_NEXT : Z := 1.
Definition VRING_DESC_F_WRITE : Z := 2.

Definition INTERRUPT_USED : Z := 1.
Definition INTERRUPT_CONFIG : Z := 2.

(** [x & y != 0] *)
Definition has_bits (x y : Z) : bool := negb (Z.land x y =? 0).
(** [!x] of a [w]-bit integer. *)
Definition lnot_w (w x : Z) : Z := 2 ^ w - 1 - x.

(** ** Queues *)

Record VirtioQueueState := MkVirtioQueue {
  vq_max_size : Z;
  vq_size : Z;
  vq_ready : bool;
  vq_desc : Z;
  vq_avail : Z;
  vq_used : Z;
  vq_last_avail : Z;
}.

(** [max_size] is at most [MAX_QUEUE_SIZE], which the code asserts. *)
Definition VirtioQueueState_new (max_size : Z) : VirtioQueueState :=
  MkVirtioQueue max_size 0 false 0 0 0 0.

Definition set_last_avail (q : VirtioQueueState) (v : Z) : VirtioQueueState :=
  MkVirtioQueue (vq_max_size q) (vq_size q) (vq_ready q) (vq_desc q) (vq_avail q) (vq_used q) v.

Record VringDesc := MkDesc { d_addr : Z; d_len : Z; d_flags : Z; d_next : Z }.

Section rings.
Context `{GuestMemory M}.
Implicit Types (q : VirtioQueueState) (mem : M).

(** [mem.read_obj(..).unwrap_or(0)] of [n] bytes, little endian as the host. *)
Definition read_or_zero mem (n address : Z) : Z :=
  match read_slice mem address n with Some bs => le_val bs | None => 0 end.

(** [let _ = mem.write_obj(..)] *)
Definition write_or_skip mem (n : nat) (v address : Z) : M :=
  match write_slice mem address (le_bytes n v) with Some mem => mem | None => mem end.

Definition avail_idx mem (avail_addr : Z) : Z := read_or_zero mem 2 (wrapping_add 64 avail_addr 2).

Definition avail_ring_entry mem (avail_addr queue_size idx : Z) : Z :=
  read_or_zero mem 2 (wrapping_add 64 avail_addr (4 + idx mod queue_size * 2)).

Definition read_desc mem (desc_addr idx : Z) : VringDesc :=
  let off := idx * 16 in
  MkDesc (read_or_zero mem 8 (wrapping_add 64 desc_addr off))
         (read_or_zero mem 4 (wrapping_add 64 desc_addr (off + 8)))
         (read_or_zero mem 2 (wrapping_add 64 desc_addr (off + 12)))
         (read_or_zero mem 2 (wrapping_add 64 desc_addr (off + 14))).

Definition write_used mem (used_addr queue_size used_idx desc_id len : Z) : M :=
  let ring_off := 4 + used_idx mod queue_size * 8 in
  let mem := write_or_skip mem 4 desc_id (wrapping_add 64 used_addr ring_off) in
  let mem := write_or_skip mem 4 len (wrapping_add 64 used_addr (ring_off + 4)) in
  write_or_skip mem 2 (wrapping_add 16 used_idx 1) (wrapping_add 64 used_addr 2).

Definition pending q mem : option Z :=
  if negb (vq_ready q) || (vq_size q =? 0) || (vq_max_size q <? vq_size q) then None else
  let size := vq_size q in
  if negb (check_range mem (vq_desc q) (size * 16))
     || negb (check_range mem (vq_avail q) (6 + size * 2))
     || negb (check_range mem (vq_used q) (6 + size * 8))
  then None else
  let current := avail_idx mem (vq_avail q) in
  if vq_size q <? wrapping_sub 16 current (vq_last_avail q) then None else Some current.

(** The loop of [chain]; [seen] holds the indices visited. *)
Fixpoint chain_loop (fuel : nat) q mem (next flags : Z) (seen : list Z) (acc : list VringDesc)
    : option (list VringDesc) :=
  match fuel with
  | O => None
  | S fuel =>
      if (vq_size q <=? next) || bool_decide (next ∈ seen) then None else
      let desc := read_desc mem (vq_desc q) next in
      if has_bits (d_flags desc) (lnot_w 16 flags) then None else
      let acc := acc ++ [desc] in
      if negb (has_bits (d_flags desc) VRING_DESC_F_NEXT) then Some acc
      else chain_loop fuel q mem (d_next desc) flags (next :: seen) acc
  end.

(** Every turn visits another of at most [MAX_QUEUE_SIZE] descriptors. *)
Definition chain q mem (head flags : Z) : option (list VringDesc) :=
  chain_loop (S (Z.to_nat MAX_QUEUE_SIZE)) q mem head flags [] [].

Definition vq_wants_interrupt q mem : bool :=
  match read_slice mem (vq_avail q) 2 with
  | Some bs => Z.land (le_val bs) VRING_AVAIL_F_NO_INTERRUPT =? 0
  | None => true
  end.

(** The loop every device serves a queue with: take the next available head,
    serve its chain, put it on the used ring. [serve] is what the device does
    with a head; it gives the length for the used ring. *)
Section ring_loop.
Context {S : Type} (serve : S -> VirtioQueueState -> M -> Z -> Z * S * M).

Fixpoint ring_loop (fuel : nat) (current : Z) (s : S) q mem : S * VirtioQueueState * M :=
  match fuel with
  | O => (s, q, mem)
  | Datatypes.S fuel =>
      if vq_last_avail q =? current then (s, q, mem) else
      let head := avail_ring_entry mem (vq_avail q) (vq_size q) (vq_last_avail q) in
      let '(used_len, s, mem) := serve s q mem head in
      let mem := write_used mem (vq_used q) (vq_size q) (vq_last_avail q) head used_len in
      ring_loop fuel current s (set_last_avail q (wrapping_add 16 (vq_last_avail q) 1)) mem
  end.

(** [pending] lets at most a ring of entries through. *)
Definition ring_serve (s : S) q mem : bool * S * VirtioQueueState * M :=
  match pending q mem with
  | None => (false, s, q, mem)
  | Some current =>
      let used := negb (vq_last_avail q =? current) in
      let '(s, q, mem) := ring_loop (Datatypes.S (Z.to_nat (vq_size q))) current s q mem in
      (used, s, q, mem)
  end.
End ring_loop.
End rings.

(** ** The interrupt line *)

Record Interrupt := MkInterrupt { int_status : Z; int_line : bool }.

Definition raise (i : Interrupt) (reason : Z) : Interrupt :=
  MkInterrupt (Z.lor (int_status i) reason) true.

Definition ack (i : Interrupt) (reasons : Z) : Interrupt :=
  let status := Z.land (int_status i) (lnot_w 32 reasons) in
  MkInterrupt status (if status =? 0 then false else int_line i).

(** ** Devices behind the transport *)

Inductive BackendState :=
  | BsBlock
  | BsVsock (rx tx event : Z)
  | BsBalloon (target_pages actual_pages : Z)
  | BsNet (rx : Z).

(** [snapshot::mismatch] *)
Definition mismatch : ErrorKind := InvalidData.

Class VirtioBackend (B M : Type) := {
  device_id : B -> Z;
  device_features : B -> Z;
  queue_count : B -> nat;
  queue_max_size : B -> Z;
  config_read : B -> Z -> Z;
  config_write : B -> Z -> Z -> B;
  features_ok : B -> Z -> B;
  activate : B -> list VirtioQueueState -> M -> B;
  process_queue : B -> nat -> list VirtioQueueState -> M ->
    bool * B * list VirtioQueueState * M;
  take_kicks : B -> bool;
  backend_reset : B -> B;
  backend_save : B -> result BackendState ErrorKind * B;
  backend_restore : B -> BackendState -> list VirtioQueueState -> M -> result B ErrorKind;
  backend_resume : B -> B;
}.

Record Core (B : Type) := MkCore {
  c_backend : B;
  c_queues : list VirtioQueueState;
  dev_features_sel : Z;
  drv_features : Z;
  drv_features_sel : Z;
  queue_sel : Z;
  c_status : Z;
  activated : bool;
}.
Arguments MkCore {B}. Arguments c_backend {B}. Arguments c_queues {B}.
Arguments dev_features_sel {B}. Arguments drv_features {B}. Arguments drv_features_sel {B}.
Arguments queue_sel {B}. Arguments c_status {B}. Arguments activated {B}.

(** [kicks] says which eventfds are signalled, [worker] whether the
    transport serves the queues. *)
Record VirtioMmioDevice (B : Type) := MkDevice {
  core : Core B;
  interrupt : Interrupt;
  kicks : list bool;
  worker : bool;
}.
Arguments MkDevice {B}. Arguments core {B}. Arguments interrupt {B}.
Arguments kicks {B}. Arguments worker {B}.

Section setters.
Context {B : Type}.
Implicit Types (c : Core B) (d : VirtioMmioDevice B).

Definition set_backend c (b : B) : Core B :=
  MkCore b (c_queues c) (dev_features_sel c) (drv_features c) (drv_features_sel c) (queue_sel c)
    (c_status c) (activated c).
Definition set_queues c (qs : list VirtioQueueState) : Core B :=
  MkCore (c_backend c) qs (dev_features_sel c) (drv_features c) (drv_features_sel c) (queue_sel c)
    (c_status c) (activated c).
Definition set_dev_features_sel c (v : Z) : Core B :=
  MkCore (c_backend c) (c_queues c) v (drv_features c) (drv_features_sel c) (queue_sel c)
    (c_status c) (activated c).
Definition set_drv_features c (v : Z) : Core B :=
  MkCore (c_backend c) (c_queues c) (dev_features_sel c) v (drv_features_sel c) (queue_sel c)
    (c_status c) (activated c).
Definition set_drv_features_sel c (v : Z) : Core B :=
  MkCore (c_backend c) (c_queues c) (dev_features_sel c) (drv_features c) v (queue_sel c)
    (c_status c) (activated c).
Definition set_queue_sel c (v : Z) : Core B :=
  MkCore (c_backend c) (c_queues c) (dev_features_sel c) (drv_features c) (drv_features_sel c) v
    (c_status c) (activated c).
Definition set_status c (v : Z) : Core B :=
  MkCore (c_backend c) (c_queues c) (dev_features_sel c) (drv_features c) (drv_features_sel c)
    (queue_sel c) v (activated c).
Definition set_activated c (v : bool) : Core B :=
  MkCore (c_backend c) (c_queues c) (dev_features_sel c) (drv_features c) (drv_features_sel c)
    (queue_sel c) (c_status c) v.

Definition set_core d (c : Core B) : VirtioMmioDevice B := MkDevice c (interrupt d) (kicks d) (worker d).
Definition set_interrupt d (i : Interrupt) : VirtioMmioDevice B := MkDevice (core d) i (kicks d) (worker d).
Definition set_kicks d (ks : list bool) : VirtioMmioDevice B := MkDevice (core d) (interrupt d) ks (worker d).

Definition selected_queue c : option VirtioQueueState := c_queues c !! Z.to_nat (queue_sel c).

(** [if let Some(q) = core.selected_queue_mut() { .. }] *)
Definition with_queue c (f : VirtioQueueState -> VirtioQueueState) : Core B :=
  set_queues c (alter f (Z.to_nat (queue_sel c)) (c_queues c)).
End setters.

(** ** The device *)

Section device.
Context {B M : Type} `{VB : VirtioBackend B M} `{GM : GuestMemory M}.
Implicit Types (c : Core B) (d : VirtioMmioDevice B) (mem : M).

Definition Device_new (backend : B) : VirtioMmioDevice B :=
  let qs := replicate (queue_count backend) (VirtioQueueState_new (queue_max_size backend)) in
  MkDevice (MkCore backend qs 0 0 0 0 0 false) (MkInterrupt 0 false)
    (replicate (queue_count backend) false) (negb (take_kicks backend)).

Definition kick_all d : VirtioMmioDevice B := set_kicks d (map (fun _ => true) (kicks d)).

(** What the guest's notify does in KVM. *)
Definition kick d (index : nat) : VirtioMmioDevice B := set_kicks d (<[index := true]> (kicks d)).

(** Serves queue [index] and raises the interrupt the driver wants. *)
Definition serve_queue d mem (index : nat) : VirtioMmioDevice B * M :=
  let c := core d in
  let '(used, backend, qs, mem) := process_queue (c_backend c) index (c_queues c) mem in
  let d := set_core d (set_queues (set_backend c backend) qs) in
  (if used && match qs !! index with Some q => vq_wants_interrupt q mem | None => false end
   then set_interrupt d (raise (interrupt d) INTERRUPT_USED) else d, mem).

(** A pass of the thread over the eventfds [ready] that [poll] found
    signalled. *)
Fixpoint serve_pass (ready : list bool) (index : nat) d mem : VirtioMmioDevice B * M :=
  match ready with
  | [] => (d, mem)
  | r :: ready =>
      let '(d, mem) :=
        if r : bool then
          let d := set_kicks d (<[index := false]> (kicks d)) in
          if activated (core d) then serve_queue d mem index else (d, mem)
        else (d, mem) in
      serve_pass ready (S index) d mem
  end.
Definition serve_kicks d mem : VirtioMmioDevice B * M :=
  if worker d then serve_pass (kicks d) 0 d mem else (d, mem).

(** The value of a register. *)
Definition register_value d (offset : Z) : Z :=
  let c := core d in
  if offset =? VIRTIO_MMIO_INTERRUPT_STATUS then int_status (interrupt d)
  else if offset =? VIRTIO_MMIO_MAGIC then 0x74726976
  else if offset =? VIRTIO_MMIO_VERSION then 2
  else if offset =? VIRTIO_MMIO_DEVICE_ID then device_id (c_backend c)
  else if offset =? VIRTIO_MMIO_VENDOR_ID then 0x554D4551
  else if offset =? VIRTIO_MMIO_DEV_FEATURES then
    let features := device_features (c_backend c) in
    if dev_features_sel c =? 0 then wrap 32 features else wrap 32 (Z.shiftr features 32)
  else if offset =? VIRTIO_MMIO_QUEUE_NUM_MAX then
    match selected_queue c with Some q => vq_max_size q | None => 0 end
  else if offset =? VIRTIO_MMIO_QUEUE_READY then
    match selected_queue c with Some q => Z.b2z (vq_ready q) | None => 0 end
  else if offset =? VIRTIO_MMIO_STATUS then c_status c
  else if offset =? VIRTIO_MMIO_CONFIG_GENERATION then 0
  else if VIRTIO_MMIO_CONFIG <=? offset then config_read (c_backend c) (offset - VIRTIO_MMIO_CONFIG)
  else 0.

Definition Device_read d (offset : Z) (data : bytes) : bytes :=
  let len := Z.min (zlen data) 4 in
  ztake len (le_bytes 4 (register_value d offset)) ++ zdrop len data.

(** The two halves of a 64-bit register. *)
Definition set_low (addr val : Z) : Z := Z.lor (Z.land addr (lnot_w 64 0xFFFFFFFF)) val.
Definition set_high (addr val : Z) : Z := Z.lor (Z.land addr 0xFFFFFFFF) (Z.shiftl val 32).

Definition set_size (val : Z) (q : VirtioQueueState) : VirtioQueueState :=
  MkVirtioQueue (vq_max_size q) (if (1 <=? val) && (val <=? vq_max_size q) then val else 0)
    (vq_ready q) (vq_desc q) (vq_avail q) (vq_used q) (vq_last_avail q).
Definition set_ready (val : Z) (q : VirtioQueueState) : VirtioQueueState :=
  MkVirtioQueue (vq_max_size q) (vq_size q) (val =? 1) (vq_desc q) (vq_avail q) (vq_used q) (vq_last_avail q).
Definition set_desc (f : Z -> Z) (q : VirtioQueueState) : VirtioQueueState :=
  MkVirtioQueue (vq_max_size q) (vq_size q) (vq_ready q) (f (vq_desc q)) (vq_avail q) (vq_used q) (vq_last_avail q).
Definition set_avail (f : Z -> Z) (q : VirtioQueueState) : VirtioQueueState :=
  MkVirtioQueue (vq_max_size q) (vq_size q) (vq_ready q) (vq_desc q) (f (vq_avail q)) (vq_used q) (vq_last_avail q).
Definition set_used (f : Z -> Z) (q : VirtioQueueState) : VirtioQueueState :=
  MkVirtioQueue (vq_max_size q) (vq_size q) (vq_ready q) (vq_desc q) (vq_avail q) (f (vq_used q)) (vq_last_avail q).

(** A write to the status register. *)
Definition write_status d mem (val : Z) : VirtioMmioDevice B :=
  let c := core d in
  let prev := c_status c in
  let c := set_status c val in
  let d := if val =? 0 then
      set_interrupt
        (set_core d (set_queues (set_activated (set_backend c (backend_reset (c_backend c))) false)
           (map (fun q => VirtioQueueState_new (vq_max_size q)) (c_queues c))))
        (ack (interrupt d) (2 ^ 32 - 1))
    else set_core d c in
  let c := core d in
  let c := if has_bits val VIRTIO_STATUS_FEATURES_OK && negb (has_bits prev VIRTIO_STATUS_FEATURES_OK)
    then set_backend c (features_ok (c_backend c)
           (Z.land (drv_features c) (device_features (c_backend c))))
    else c in
  if negb (activated c) && has_bits val VIRTIO_STATUS_DRIVER_OK && has_bits val VIRTIO_STATUS_FEATURES_OK
  then let c := set_activated c true in
       kick_all (set_core d (set_backend c (activate (c_backend c) (c_queues c) mem)))
  else set_core d c.

Definition write_core c (offset val : Z) : Core B :=
  if offset =? VIRTIO_MMIO_DEV_FEATURES_SEL then set_dev_features_sel c val
  else if offset =? VIRTIO_MMIO_DRV_FEATURES then
    set_drv_features c (if drv_features_sel c =? 0 then set_low (drv_features c) val
                        else set_high (drv_features c) val)
  else if offset =? VIRTIO_MMIO_DRV_FEATURES_SEL then set_drv_features_sel c val
  else if offset =? VIRTIO_MMIO_QUEUE_SEL then set_queue_sel c val
  else if offset =? VIRTIO_MMIO_QUEUE_NUM then with_queue c (set_size val)
  else if offset =? VIRTIO_MMIO_QUEUE_READY then with_queue c (set_ready val)
  else if offset =? VIRTIO_MMIO_QUEUE_DESC_LOW then with_queue c (set_desc (fun a => set_low a val))
  else if offset =? VIRTIO_MMIO_QUEUE_DESC_HIGH then with_queue c (set_desc (fun a => set_high a val))
  else if offset =? VIRTIO_MMIO_QUEUE_DRIVER_LOW then with_queue c (set_avail (fun a => set_low a val))
  else if offset =? VIRTIO_MMIO_QUEUE_DRIVER_HIGH then with_queue c (set_avail (fun a => set_high a val))
  else if offset =? VIRTIO_MMIO_QUEUE_DEVICE_LOW then with_queue c (set_used (fun a => set_low a val))
  else if offset =? VIRTIO_MMIO_QUEUE_DEVICE_HIGH then with_queue c (set_used (fun a => set_high a val))
  else if VIRTIO_MMIO_CONFIG <=? offset then
    set_backend c (config_write (c_backend c) (offset - VIRTIO_MMIO_CONFIG) val)
  else c.

Definition Device_write d mem (offset : Z) (data : bytes) : VirtioMmioDevice B :=
  let val := le_val (ztake 4 data) in
  if offset =? VIRTIO_MMIO_INTERRUPT_ACK then set_interrupt d (ack (interrupt d) val)
  else if offset =? VIRTIO_MMIO_QUEUE_NOTIFY then d
  else if offset =? VIRTIO_MMIO_STATUS then write_status d mem val
  else set_core d (write_core (core d) offset val).

(** ** Snapshots *)

Record QueueState := MkQueueState {
  qs_size : Z;
  qs_ready : bool;
  qs_desc : Z;
  qs_avail : Z;
  qs_used : Z;
  qs_last_avail : Z;
}.

Definition QueueState_from (q : VirtioQueueState) : QueueState :=
  MkQueueState (vq_size q) (vq_ready q) (vq_desc q) (vq_avail q) (vq_used q) (vq_last_avail q).

Record VirtioState := MkVirtioState {
  vs_device_id : Z;
  vs_status : Z;
  vs_drv_features : Z;
  vs_dev_features_sel : Z;
  vs_drv_features_sel : Z;
  vs_queue_sel : Z;
  vs_activated : bool;
  vs_interrupt_status : Z;
  vs_queues : list QueueState;
  vs_backend : BackendState;
}.

(** Serves every queue, as the thread would. *)
Definition serve_all_queues d mem : VirtioMmioDevice B * M :=
  if activated (core d) && worker d
  then fold_left (fun '(d, mem) index => serve_queue d mem index) (seq 0 (length (c_queues (core d)))) (d, mem)
  else (d, mem).

Definition Device_save d mem : result VirtioState ErrorKind * VirtioMmioDevice B * M :=
  let '(d, mem) := serve_all_queues d mem in
  let c := core d in
  let '(saved, backend) := backend_save (c_backend c) in
  let d := set_core d (set_backend c backend) in
  (match saved with
   | Err e => Err e
   | Ok state =>
       Ok (MkVirtioState (device_id backend) (c_status c) (drv_features c) (dev_features_sel c)
             (drv_features_sel c) (queue_sel c) (activated c) (int_status (interrupt d))
             (map QueueState_from (c_queues c)) state)
   end, d, mem).

Definition restore_queue (q : VirtioQueueState) (s : QueueState) : VirtioQueueState :=
  MkVirtioQueue (vq_max_size q) (qs_size s) (qs_ready s) (qs_desc s) (qs_avail s) (qs_used s) (qs_last_avail s).

(** A failed restore ends the new VM, so only its error is kept. *)
Definition Device_restore d mem (s : VirtioState) : result (VirtioMmioDevice B) ErrorKind :=
  let c := core d in
  if negb (vs_device_id s =? device_id (c_backend c))
     || negb (zlen (vs_queues s) =? zlen (c_queues c)) then Err mismatch else
  if existsb (fun '(q, saved) => vq_max_size q <? qs_size saved) (zip (c_queues c) (vs_queues s))
  then Err mismatch else
  let c := MkCore (c_backend c) (zip_with restore_queue (c_queues c) (vs_queues s))
    (vs_dev_features_sel s) (vs_drv_features s) (vs_drv_features_sel s) (vs_queue_sel s)
    (vs_status s) (activated c) in
  let c := if has_bits (vs_status s) VIRTIO_STATUS_FEATURES_OK
    then set_backend c (features_ok (c_backend c)
           (Z.land (drv_features c) (device_features (c_backend c))))
    else c in
  let c := set_activated c (vs_activated s) in
  let? backend := if vs_activated s
    then backend_restore (c_backend c) (vs_backend s) (c_queues c) mem else Ok (c_backend c) in
  let d := set_core d (set_backend c backend) in
  Ok (if negb (vs_interrupt_status s =? 0)
      then set_interrupt d (raise (interrupt d) (vs_interrupt_status s)) else d).

Definition Device_resume d : VirtioMmioDevice B :=
  set_core d (set_backend (core d) (backend_resume (c_backend (core d)))).
End device.

(** ** The bus *)

(** A device on the bus: its first address, its size, and the device. *)
Record MmioEntry (D : Type) := MkEntry { e_base : Z; e_size : Z; e_device : D }.
Arguments MkEntry {D}. Arguments e_base {D}. Arguments e_size {D}. Arguments e_device {D}.

Section bus.
Context {D : Type} (dread : D -> Z -> bytes -> bytes) (dwrite : D -> Z -> bytes -> D).

Definition claims (e : MmioEntry D) (addr : Z) : bool := (e_base e <=? addr) && (addr <? e_base e + e_size e).

Fixpoint handle_read (devices : list (MmioEntry D)) (addr : Z) (data : bytes) : bytes :=
  match devices with
  | [] => map (fun _ => x00) data
  | e :: devices => if claims e addr then dread (e_device e) (addr - e_base e) data
                    else handle_read devices addr data
  end.

Fixpoint handle_write (devices : list (MmioEntry D)) (addr : Z) (data : bytes) : list (MmioEntry D) :=
  match devices with
  | [] => []
  | e :: devices => if claims e addr
                    then MkEntry (e_base e) (e_size e) (dwrite (e_device e) (addr - e_base e) data) :: devices
                    else e :: handle_write devices addr data
  end.
End bus.
