(* ===== verification/VirtioProofs.v ===== *)
(** * The transport keeps its state in order

    Whatever a guest writes to the registers, however it kicks, and whatever
    it does to its memory meanwhile: queues stay within their limits, the
    interrupt line is up exactly while a reason is pending, a driver that
    follows the protocol gets the queue it asked for, and a restored device
    is the one that was saved. *)

From Stdlib Require Import Strings.Byte.
From S2P Require Import Prelude Vsock Queue Virtio.

(** ** Bits *)

Lemma lor_disjoint x y : Z.land x y = 0 -> Z.lor x y = x + y.
Proof. intros H. by rewrite <-Z.lxor_lor, Z.add_nocarry_lxor. Qed.

Lemma in_width_testbit w z : 0 <= w -> in_width w z <-> forall i, w <= i -> Z.testbit z i = false.
Proof.
  intros Hw. unfold in_width. split.
  - intros [Hz Hlt] i Hi. destruct (Z.eq_dec z 0) as [->|]; [apply Z.bits_0|].
    apply Z.bits_above_log2; [lia|]. apply Z.log2_lt_pow2; [lia|].
    eapply Z.lt_le_trans; [exact Hlt|]. apply Z.pow_le_mono_r; lia.
  - intros Hbits. assert (z = z mod 2 ^ w) as ->; [|apply Z.mod_pos_bound; lia].
    apply Z.bits_inj'. intros i Hi. destruct (Z.lt_ge_cases i w).
    + by rewrite Z.mod_pow2_bits_low.
    + rewrite Z.mod_pow2_bits_high by lia. by apply Hbits.
Qed.

Lemma lor_in_width w x y : 0 <= w -> in_width w x -> in_width w y -> in_width w (Z.lor x y).
Proof.
  intros Hw. rewrite !in_width_testbit by done. intros Hx Hy i Hi. by rewrite Z.lor_spec, Hx, Hy.
Qed.

Lemma land_in_width w x y : 0 <= w -> in_width w x -> in_width w (Z.land x y).
Proof.
  intros Hw. rewrite !in_width_testbit by done. intros Hx i Hi. by rewrite Z.land_spec, Hx.
Qed.

Lemma shiftl_in_width w k x : 0 <= w -> 0 <= k -> in_width w x -> in_width (w + k) (Z.shiftl x k).
Proof.
  unfold in_width. intros Hw Hk Hx. rewrite Z.shiftl_mul_pow2, Z.pow_add_r by lia. nia.
Qed.

(** Masking with the complement clears bits. *)
Lemma land_lnot_w w a x : 0 <= w -> in_width w a -> in_width w x -> Z.land a (lnot_w w x) = Z.ldiff a x.
Proof.
  intros Hw Ha Hx. assert (lnot_w w x = Z.lnot x mod 2 ^ w) as ->.
  { unfold lnot_w, Z.lnot, in_width in *. apply Zmod_unique with (-1); lia. }
  apply Z.bits_inj'. intros i Hi. rewrite Z.land_spec, Z.ldiff_spec.
  destruct (Z.lt_ge_cases i w).
  - by rewrite Z.mod_pow2_bits_low, Z.lnot_spec by lia.
  - by rewrite (proj1 (in_width_testbit w a Hw) Ha) by lia.
Qed.

Lemma set_low_spec a v : in_width 64 a -> in_width 32 v -> set_low a v = a / 2 ^ 32 * 2 ^ 32 + v.
Proof.
  intros Ha Hv. unfold set_low. rewrite land_lnot_w by (unfold in_width; lia || done).
  change 0xFFFFFFFF with (Z.ones 32). rewrite Z.ldiff_ones_r by lia.
  rewrite lor_disjoint.
  - by rewrite Z.shiftl_mul_pow2, Z.shiftr_div_pow2 by lia.
  - apply Z.bits_inj'. intros i Hi. rewrite Z.land_spec, Z.bits_0. destruct (Z.lt_ge_cases i 32).
    + by rewrite Z.shiftl_spec_low.
    + rewrite (proj1 (in_width_testbit 32 v ltac:(lia)) Hv) by lia. apply andb_false_r.
Qed.

Lemma set_high_spec a v : in_width 64 a -> in_width 32 v -> set_high a v = a mod 2 ^ 32 + v * 2 ^ 32.
Proof.
  intros Ha Hv. unfold set_high. change 0xFFFFFFFF with (Z.ones 32). rewrite Z.land_ones by lia.
  rewrite lor_disjoint; [by rewrite Z.shiftl_mul_pow2 by lia|].
  apply Z.bits_inj'. intros i Hi. rewrite Z.land_spec, Z.bits_0. destruct (Z.lt_ge_cases i 32).
  - rewrite Z.shiftl_spec_low by done. apply andb_false_r.
  - by rewrite Z.mod_pow2_bits_high by lia.
Qed.

Lemma set_low_width a v : in_width 64 a -> in_width 32 v -> in_width 64 (set_low a v).
Proof.
  intros Ha Hv. rewrite set_low_spec by done. unfold in_width in *.
  pose proof (Z.div_lt_upper_bound a (2 ^ 32) (2 ^ 32)). pose proof (Z.div_pos a (2 ^ 32)). lia.
Qed.

Lemma set_high_width a v : in_width 64 a -> in_width 32 v -> in_width 64 (set_high a v).
Proof.
  intros Ha Hv. rewrite set_high_spec by done. unfold in_width in *.
  pose proof (Z.mod_pos_bound a (2 ^ 32)). lia.
Qed.

(** Both halves written, in either order, are the number. *)
Lemma set_halves a x :
  in_width 64 a -> in_width 64 x ->
  set_high (set_low a (x mod 2 ^ 32)) (x / 2 ^ 32) = x /\
  set_low (set_high a (x / 2 ^ 32)) (x mod 2 ^ 32) = x.
Proof.
  intros Ha Hx. assert (in_width 32 (x mod 2 ^ 32)) as Hlo by (apply Z.mod_pos_bound; lia).
  assert (in_width 32 (x / 2 ^ 32)) as Hhi.
  { unfold in_width in *. split; [apply Z.div_pos; lia|]. apply Z.div_lt_upper_bound; lia. }
  pose proof (Z.div_mod x (2 ^ 32) ltac:(lia)).
  pose proof (Z.mod_pos_bound a (2 ^ 32) ltac:(lia)). unfold in_width in Hlo. split.
  - rewrite set_high_spec by (try apply set_low_width; done). rewrite set_low_spec by done.
    rewrite (Z.add_comm (a / 2 ^ 32 * 2 ^ 32)), Z_mod_plus_full, Z.mod_small by lia. lia.
  - rewrite set_low_spec by (try apply set_high_width; done). rewrite set_high_spec by done.
    rewrite Z_div_plus_full, (Z.div_small (a mod 2 ^ 32)) by lia. lia.
Qed.

(** ** The interrupt *)

Definition interrupt_ok (i : Interrupt) : Prop :=
  in_width 32 (int_status i) /\ int_line i = negb (int_status i =? 0).

Lemma raise_ok i reason : in_width 32 reason -> reason <> 0 -> interrupt_ok i -> interrupt_ok (raise i reason).
Proof.
  intros Hr Hne [Hs Hl]. split; cbn; [by apply lor_in_width|].
  destruct (Z.eqb_spec (Z.lor (int_status i) reason) 0) as [E|]; [|done].
  apply Z.lor_eq_0_iff in E. by destruct E.
Qed.

Lemma ack_ok i reasons : interrupt_ok i -> interrupt_ok (ack i reasons).
Proof.
  intros [Hs Hl]. split; cbn; [by apply land_in_width|].
  destruct (Z.eqb_spec (Z.land (int_status i) (lnot_w 32 reasons)) 0) as [|Hne]; [done|].
  rewrite Hl. destruct (Z.eqb_spec (int_status i) 0) as [E|]; [|done]. rewrite E, Z.land_0_l in Hne. done.
Qed.

(** An acknowledgement keeps the reasons it does not name. *)
Lemma ack_keeps i reasons :
  interrupt_ok i -> in_width 32 reasons -> int_status (ack i reasons) = Z.ldiff (int_status i) reasons.
Proof. intros [Hs _] Hr. cbn. by apply land_lnot_w. Qed.

(** ** What the transport asks of a device *)

(** A served queue only moves on in its ring. *)
Definition same_ring (q q' : VirtioQueueState) : Prop :=
  q' = set_last_avail q (vq_last_avail q') /\ (in_width 16 (vq_last_avail q) -> in_width 16 (vq_last_avail q')).

Class VirtioLaws (B M : Type) `{VB : VirtioBackend B M} := {
  vl_max_size (b : B) : 0 < queue_max_size b <= MAX_QUEUE_SIZE;
  vl_process (b : B) i qs (mem : M) used b' qs' mem' :
    process_queue b i qs mem = (used, b', qs', mem') -> Forall2 same_ring qs qs';
}.

(** ** Queues and registers stay in order *)

Record queue_ok (q : VirtioQueueState) : Prop := {
  qo_max : 0 < vq_max_size q <= MAX_QUEUE_SIZE;
  qo_size : 0 <= vq_size q <= vq_max_size q;
  qo_desc : in_width 64 (vq_desc q);
  qo_avail : in_width 64 (vq_avail q);
  qo_used : in_width 64 (vq_used q);
  qo_last : in_width 16 (vq_last_avail q);
}.

Record core_ok {B} (c : Core B) : Prop := {
  co_queues : Forall queue_ok (c_queues c);
  co_dev_sel : in_width 32 (dev_features_sel c);
  co_features : in_width 64 (drv_features c);
  co_drv_sel : in_width 32 (drv_features_sel c);
  co_queue_sel : in_width 32 (queue_sel c);
  co_status : in_width 32 (c_status c);
}.

Record device_ok {B} (d : VirtioMmioDevice B) : Prop := {
  dk_core : core_ok (core d);
  dk_interrupt : interrupt_ok (interrupt d);
  dk_kicks : length (kicks d) = length (c_queues (core d));
}.

Lemma zero_width w : 0 <= w -> in_width w 0.
Proof. unfold in_width. intros. lia. Qed.

Lemma new_queue_ok m : 0 < m <= MAX_QUEUE_SIZE -> queue_ok (VirtioQueueState_new m).
Proof. intros. split; cbn; try apply zero_width; lia. Qed.

Lemma same_ring_ok q q' : same_ring q q' -> queue_ok q -> queue_ok q'.
Proof. intros [-> Hl] []. split; cbn in *; auto. Qed.

Lemma with_queue_ok {B} (c : Core B) f :
  (forall q, queue_ok q -> queue_ok (f q)) -> core_ok c -> core_ok (with_queue c f).
Proof. intros Hf []. split; cbn; try done. apply Forall_alter; [done|]. intros. by apply Hf, (Forall_lookup_1 _ _ _ _ co_queues0 H). Qed.

(** Altering an element that is known. *)
Lemma alter_known {A} (f : A -> A) i (l : list A) x : l !! i = Some x -> alter f i l = <[i := f x]> l.
Proof.
  revert i. induction l as [|y l IH]; intros [|i] Hi; simplify_eq/=; [done|]. f_equal. by apply IH.
Qed.
Lemma alter_insert {A} (f : A -> A) i (l : list A) x :
  (i < length l)%nat -> alter f i (<[i := x]> l) = <[i := f x]> l.
Proof.
  intros Hi. rewrite (alter_known _ _ _ x) by (by apply list_lookup_insert_eq). apply list_insert_insert_eq.
Qed.

(** ** Serving a ring *)

Lemma le_val_width n bs : zlen bs <= n -> in_width (8 * n) (le_val bs).
Proof.
  intros Hn. pose proof (le_val_range bs) as Hv. unfold in_width.
  split; [lia|]. eapply Z.lt_le_trans; [apply Hv|]. rewrite Z.pow_mul_r by zlen_lia. apply Z.pow_le_mono_r; lia.
Qed.


Lemma same_ring_refl q : same_ring q q.
Proof. split; [by destruct q|done]. Qed.

Lemma same_rings qs : Forall2 same_ring qs qs.
Proof. induction qs; constructor; [apply same_ring_refl|done]. Qed.

Lemma wrapping_sub_next current last :
  in_width 16 current -> in_width 16 last -> last <> current ->
  wrapping_sub 16 current (wrapping_add 16 last 1) = wrapping_sub 16 current last - 1.
Proof.
  unfold wrapping_sub, wrapping_add, wrap, in_width. intros Hc Hl Hne. rewrite Zminus_mod_idemp_r.
  replace (current - (last + 1)) with (current - last - 1) by lia.
  rewrite <-(Zminus_mod_idemp_l (current - last)). apply Z.mod_small.
  assert ((current - last) mod 2 ^ 16 <> 0); [|pose proof (Z.mod_pos_bound (current - last) (2 ^ 16)); lia].
  intros E. apply Z.mod_divide in E as [k E]; [|done]. nia.
Qed.

(** Putting an entry on the used ring maps nothing. *)
Lemma write_used_ranges `{GM : GuestMemory M, GL : !GuestMemoryLaws M} (mem : M) used_addr size idx id len a n :
  check_range (write_used mem used_addr size idx id len) a n = check_range mem a n.
Proof.
  assert (forall (m : M) k v c, check_range (write_or_skip m k v c) a n = check_range m a n) as H.
  { intros m k v c. unfold write_or_skip. destruct (write_slice m c (le_bytes k v)) eqn:E; [|done].
    by eapply mem_write_ranges in E. }
  unfold write_used. by rewrite !H.
Qed.

Section ring_loop.
Context `{GM : GuestMemory M} {S : Type} (serve : S -> VirtioQueueState -> M -> Z -> Z * S * M).
Implicit Types (s : S) (q : VirtioQueueState) (mem : M).

Lemma ring_loop_drains current fuel : forall s q mem,
  in_width 16 current -> in_width 16 (vq_last_avail q) ->
  wrapping_sub 16 current (vq_last_avail q) < Z.of_nat fuel ->
  (ring_loop serve fuel current s q mem).1.2 = set_last_avail q current.
Proof.
  induction fuel as [|fuel IH]; intros s q mem Hc Hl Hf; cbn [ring_loop].
  { unfold wrapping_sub in Hf. pose proof (Z.mod_pos_bound (current - vq_last_avail q) (2 ^ 16) ltac:(lia)).
    unfold wrap in Hf. lia. }
  case_test; bool_to_prop; [subst; by destruct q|].
  destruct (serve _ _ _ _) as [[n s1] m1]. rewrite IH; [done|done| |].
  - cbn. unfold wrapping_add, wrap. apply Z.mod_pos_bound. lia.
  - cbn. rewrite wrapping_sub_next by done. lia.
Qed.

Lemma ring_loop_ring current fuel : forall s q mem, same_ring q (ring_loop serve fuel current s q mem).1.2.
Proof.
  induction fuel as [|fuel IH]; intros s q mem; cbn [ring_loop]; [apply same_ring_refl|].
  case_test; [apply same_ring_refl|]. set (head := avail_ring_entry _ _ _ _). destruct (serve _ _ _ _) as [[n s1] m1].
  destruct (IH s1 (set_last_avail q (wrapping_add 16 (vq_last_avail q) 1))
      (write_used m1 (vq_used q) (vq_size q) (vq_last_avail q) head n)) as [E1 E2].
  split; [by rewrite E1 at 1|]. intros _. apply E2. cbn. unfold wrapping_add, wrap. apply Z.mod_pos_bound. lia.
Qed.

Lemma ring_serve_ring s q mem : same_ring q (ring_serve serve s q mem).1.2.
Proof.
  unfold ring_serve. destruct (pending q mem) as [current|]; [|apply same_ring_refl].
  pose proof (ring_loop_ring current (Datatypes.S (Z.to_nat (vq_size q))) s q mem) as H.
  by destruct (ring_loop _ _ _ _ _ _) as [[s' q'] mem'].
Qed.

(** What serving a head and writes that leave the mapping alone keep, serving
    the ring keeps. *)
Lemma ring_serve_keeps_mem `{GL : !GuestMemoryLaws M} (P : S -> M -> Prop) :
  (forall s q mem head, P s mem -> P (serve s q mem head).1.2 (serve s q mem head).2) ->
  (forall s mem mem', (forall a n, check_range mem' a n = check_range mem a n) -> P s mem -> P s mem') ->
  forall s q mem, P s mem -> P (ring_serve serve s q mem).1.1.2 (ring_serve serve s q mem).2.
Proof.
  intros HP HM s q mem Hs. unfold ring_serve. destruct (pending q mem) as [current|]; [|done].
  assert (forall fuel s q mem, P s mem ->
    P (ring_loop serve fuel current s q mem).1.1 (ring_loop serve fuel current s q mem).2) as Hl.
  { clear s q mem Hs. induction fuel as [|fuel IH]; intros s q mem Hs; cbn [ring_loop]; [done|]. case_test; [done|].
    set (head := avail_ring_entry _ _ _ _). pose proof (HP s q mem head Hs) as H1.
    destruct (serve s q mem head) as [[n s1] m1]. apply IH. eapply HM; [|exact H1]. intros. apply write_used_ranges. }
  pose proof (Hl (Datatypes.S (Z.to_nat (vq_size q))) s q mem Hs) as H.
  by destruct (ring_loop _ _ _ _ _ _) as [[s' q'] mem'].
Qed.

Lemma ring_serve_keeps `{GL : !GuestMemoryLaws M} (P : S -> Prop) :
  (forall s q mem head, P s -> P (serve s q mem head).1.2) ->
  forall s q mem, P s -> P (ring_serve serve s q mem).1.1.2.
Proof. intros HP s q mem. by apply (ring_serve_keeps_mem (fun s _ => P s)). Qed.

Lemma pending_current `{GL : !GuestMemoryLaws M} q mem current :
  queue_ok q -> pending q mem = Some current ->
  in_width 16 current /\ wrapping_sub 16 current (vq_last_avail q) <= vq_size q.
Proof.
  intros [Hm Hs _ Hav _ _]. unfold pending. case_test; [done|]. case_test; [done|]. case_test; [done|].
  bool_to_prop. intros [= <-]. split; [|done]. unfold in_width in Hav.
  pose proof (mem_top mem (vq_avail q) (6 + vq_size q * 2) ltac:(done) ltac:(lia) ltac:(lia)).
  unfold avail_idx, read_or_zero, wrapping_add. rewrite wrap_small by (unfold in_width; lia).
  destruct (mem_read mem (vq_avail q + 2) 2) as (bs & -> & Hz); [apply (mem_sub mem (vq_avail q) (6 + vq_size q * 2)); (done || lia)|lia|].
  apply (le_val_width 2). lia.
Qed.

Lemma ring_serve_drains `{GL : !GuestMemoryLaws M} s q mem current :
  queue_ok q -> pending q mem = Some current ->
  exists s' mem', ring_serve serve s q mem =
    (negb (vq_last_avail q =? current), s', set_last_avail q current, mem').
Proof.
  intros Hq Hp. pose proof (pending_current _ _ _ Hq Hp) as [Hc Hw]. unfold ring_serve. rewrite Hp.
  pose proof (ring_loop_drains current (Datatypes.S (Z.to_nat (vq_size q))) s q mem Hc (qo_last _ Hq) ltac:(lia)) as Hd.
  destruct (ring_loop _ _ _ _ _ _) as [[s' q'] mem']. cbn in Hd. subst q'. by exists s', mem'.
Qed.
End ring_loop.

Section transport.
Context {B M : Type} `{VB : VirtioBackend B M} `{GM : GuestMemory M} `{VL : !VirtioLaws B M}.
Implicit Types (d : VirtioMmioDevice B) (c : Core B) (mem : M).

Lemma core_backend_ok c b : core_ok c -> core_ok (set_backend c b).
Proof. intros []. by split. Qed.

Lemma write_core_ok c offset val : in_width 32 val -> core_ok c -> core_ok (write_core c offset val).
Proof.
  intros Hv Hc. unfold write_core. pose proof Hc as [].
  repeat (case_test;
    [first [by apply core_backend_ok
           |by split
           |split; cbn; try done; case_test; [by apply set_low_width|by apply set_high_width]
           |apply with_queue_ok; [|done]; intros q []; split; cbn; try done;
            first [by apply set_low_width|by apply set_high_width|case_test; bool_to_prop; lia]]|]).
  done.
Qed.

Lemma write_status_ok d mem val : in_width 32 val -> device_ok d -> device_ok (write_status d mem val).
Proof.
  intros Hv [Hc Hi Hk]. unfold write_status.
  set (d1 := if val =? 0 then _ else _).
  assert (device_ok d1) as [Hc1 Hi1 Hk1].
  { unfold d1. destruct Hc. case_test; split; cbn; try done.
    - split; cbn; try done. apply Forall_map. eapply Forall_impl; [done|]. intros q []. by apply new_queue_ok.
    - by apply ack_ok.
    - by rewrite length_map. }
  clearbody d1. set (c2 := if has_bits val VIRTIO_STATUS_FEATURES_OK && _ then _ else core d1).
  assert (core_ok c2 /\ c_queues c2 = c_queues (core d1)) as [Hc2 Eq].
  { unfold c2. case_test; [|done]. split; [by apply core_backend_ok|done]. }
  clearbody c2. case_test; split; cbn; try done; try (by rewrite ?length_map, Eq).
  destruct Hc2. by split.
Qed.

Lemma write_ok d mem offset data : device_ok d -> device_ok (Device_write d mem offset data).
Proof.
  intros Hd. unfold Device_write.
  assert (in_width 32 (le_val (ztake 4 data))) as Hv by (apply (le_val_width 4); zlen_lia).
  case_test; [destruct Hd; split; cbn; try done; by apply ack_ok|].
  case_test; [done|]. case_test; [by apply write_status_ok|]. destruct Hd as [Hc Hi Hk]. split; cbn; try done.
  - by apply write_core_ok.
  - rewrite Hk. unfold write_core. repeat (case_test; [cbn; rewrite ?length_alter; done|]). done.
Qed.

Lemma serve_queue_ok d mem index : device_ok d -> device_ok (serve_queue d mem index).1.
Proof.
  intros [Hc Hi Hk]. unfold serve_queue.
  destruct (process_queue _ _ _ _) as [[[used b'] qs'] mem'] eqn:E. apply vl_process in E.
  assert (core_ok (set_queues (set_backend (core d) b') qs') /\ length (kicks d) = length qs') as [Hc' Hk'].
  { split; [|by rewrite Hk, (Forall2_length _ _ _ E)]. destruct Hc. split; cbn; try done.
    clear -E co_queues0. induction E as [|q q' qs qs' Hq _ IH]; [done|].
    apply Forall_cons in co_queues0 as [H1 H2]. constructor; [by eapply same_ring_ok|auto]. }
  cbn. case_test; split; cbn; try done. by apply raise_ok.
Qed.

Lemma kicks_ok d ks : length ks = length (kicks d) -> device_ok d -> device_ok (set_kicks d ks).
Proof. intros E []. split; cbn; try done. by rewrite E. Qed.

Lemma serve_pass_ok ready : forall index d mem, device_ok d -> device_ok (serve_pass ready index d mem).1.
Proof.
  induction ready as [|r ready IH]; intros index d mem Hd; [done|]. cbn [serve_pass].
  set (d1 := if r then _ else _).
  assert (device_ok d1.1) as Hd1.
  { unfold d1. destruct r; [|done]. case_test; [apply serve_queue_ok|]; (apply kicks_ok; [apply length_insert|done]). }
  destruct d1 as [d' mem']. by apply IH.
Qed.

Lemma serve_all_queues_ok d mem : device_ok d -> device_ok (serve_all_queues d mem).1.
Proof.
  intros Hd. unfold serve_all_queues. case_test; [|done]. generalize (seq 0 (length (c_queues (core d)))).
  intros l. clear Heqb. revert d mem Hd. induction l as [|i l IH]; intros d mem Hd; [done|]. cbn [fold_left].
  destruct (serve_queue d mem i) as [d' mem'] eqn:E. apply IH.
  change d' with (d', mem').1. rewrite <-E. by apply serve_queue_ok.
Qed.

Lemma save_ok d mem : device_ok d -> device_ok (Device_save d mem).1.2.
Proof.
  intros Hd. unfold Device_save. pose proof (serve_all_queues_ok d mem Hd) as [Hc Hi Hk].
  destruct (serve_all_queues d mem) as [d1 mem1]. destruct (backend_save _) as [saved b].
  split; cbn; try done. by apply core_backend_ok.
Qed.

(** ** Anything that can happen to a device *)

Inductive DevEvent :=
  | EvWrite (offset : Z) (data : bytes)
  | EvKick (index : nat)
  | EvServe
  | EvMemory (mem : M)
  | EvSave
  | EvResume.

Definition dev_step (s : VirtioMmioDevice B * M) (e : DevEvent) : VirtioMmioDevice B * M :=
  let '(d, mem) := s in
  match e with
  | EvWrite offset data => (Device_write d mem offset data, mem)
  | EvKick index => (kick d index, mem)
  | EvServe => serve_kicks d mem
  | EvMemory mem' => (d, mem')
  | EvSave => ((Device_save d mem).1.2, (Device_save d mem).2)
  | EvResume => (Device_resume d, mem)
  end.
Definition dev_run (evs : list DevEvent) (s : VirtioMmioDevice B * M) : VirtioMmioDevice B * M :=
  fold_left dev_step evs s.

Lemma dev_step_ok d mem e : device_ok d -> device_ok (dev_step (d, mem) e).1.
Proof.
  intros Hd. destruct e; cbn.
  - by apply write_ok.
  - apply kicks_ok; [apply length_insert|done].
  - unfold serve_kicks. case_test; [by apply serve_pass_ok|done].
  - done.
  - by apply save_ok.
  - destruct Hd. split; cbn; try done. by apply core_backend_ok.
Qed.

Lemma dev_run_ok evs : forall d mem, device_ok d -> device_ok (dev_run evs (d, mem)).1.
Proof.
  induction evs as [|e evs IH]; intros d mem Hd; [done|]. unfold dev_run in *. cbn [fold_left].
  destruct (dev_step (d, mem) e) as [d' mem'] eqn:E. apply IH.
  change d' with (d', mem').1. rewrite <-E. by apply dev_step_ok.
Qed.

Lemma device_new_ok b : device_ok (Device_new b).
Proof.
  split; cbn.
  - split; cbn; try apply zero_width; try done. apply Forall_replicate, new_queue_ok, vl_max_size.
  - split; [apply zero_width|]; done.
  - by rewrite !length_replicate.
Qed.

(** Whatever a guest writes to the registers of a device, however it
    kicks its queues and changes its memory, the transport's state stays in
    order: queue sizes within their maximum, registers within their width,
    and the interrupt line up exactly while a reason is pending. *)
Theorem transport_well_formed b mem evs : device_ok (dev_run evs (Device_new b, mem)).1.
Proof. apply dev_run_ok, device_new_ok. Qed.

(** ** What the device behind the transport keeps *)

(** A property of a device that each of its operations keeps. *)
Record backend_keeps (P : B -> Prop) : Prop := {
  bp_config b offset v : P b -> P (config_write b offset v);
  bp_features b v : P b -> P (features_ok b (Z.land v (device_features b)));
  bp_activate b qs mem : P b -> P (activate b qs mem);
  bp_process b i qs mem : P b -> P (process_queue b i qs mem).1.1.2;
  bp_reset b : P b -> P (backend_reset b);
  bp_save b : P b -> P (backend_save b).2;
  bp_resume b : P b -> P (backend_resume b);
}.

Section keeps.
Context (P : B -> Prop) (HP : backend_keeps P).

Definition behind d : B := c_backend (core d).

Lemma serve_queue_keeps d mem index : P (behind d) -> P (behind (serve_queue d mem index).1).
Proof.
  intros Hd. unfold serve_queue. pose proof (bp_process P HP (behind d) index (c_queues (core d)) mem Hd) as Hp.
  unfold behind in Hp. destruct (process_queue _ _ _ _) as [[[used b'] qs'] mem']. cbn in *. by case_test.
Qed.

Lemma serve_pass_keeps ready : forall index d mem, P (behind d) -> P (behind (serve_pass ready index d mem).1).
Proof.
  induction ready as [|r ready IH]; intros index d mem Hd; [done|]. cbn [serve_pass].
  set (d1 := if r then _ else _). assert (P (behind d1.1)) as Hd1.
  { unfold d1. destruct r; [|done]. case_test; [by apply serve_queue_keeps|done]. }
  destruct d1 as [d' mem']. by apply IH.
Qed.

Lemma serve_all_keeps d mem : P (behind d) -> P (behind (serve_all_queues d mem).1).
Proof.
  intros Hd. unfold serve_all_queues. case_test; [|done]. generalize (seq 0 (length (c_queues (core d)))).
  intros l. clear Heqb. revert d mem Hd. induction l as [|i l IH]; intros d mem Hd; [done|]. cbn [fold_left].
  pose proof (serve_queue_keeps d mem i Hd). destruct (serve_queue d mem i) as [d' mem']. by apply IH.
Qed.

Lemma write_keeps d mem offset data : P (behind d) -> P (behind (Device_write d mem offset data)).
Proof.
  intros Hd. unfold Device_write. case_test; [done|]. case_test; [done|]. case_test.
  - unfold write_status. set (d1 := if _ =? 0 then _ else _).
    assert (P (behind d1)) as H1 by (unfold d1; case_test; [by apply HP|done]). clearbody d1.
    set (c2 := if _ && _ then _ else core d1).
    assert (P (c_backend c2)) as H2 by (unfold c2; case_test; [by apply HP|done]). clearbody c2.
    case_test; [by apply HP|done].
  - unfold behind. cbn. unfold write_core. repeat (case_test; [done || by apply HP|]). done.
Qed.

Lemma dev_step_keeps d mem e : P (behind d) -> P (behind (dev_step (d, mem) e).1).
Proof.
  intros Hd. destruct e; cbn.
  - by apply write_keeps.
  - done.
  - unfold serve_kicks. case_test; [by apply serve_pass_keeps|done].
  - done.
  - unfold Device_save. pose proof (serve_all_keeps d mem Hd). destruct (serve_all_queues d mem) as [d1 mem1].
    pose proof (bp_save P HP (behind d1)). unfold behind in *. cbn in *. destruct (backend_save _) as [saved b']. cbn in *. auto.
  - by apply HP.
Qed.

Lemma dev_run_keeps evs : forall d mem, P (behind d) -> P (behind (dev_run evs (d, mem)).1).
Proof.
  induction evs as [|e evs IH]; intros d mem Hd; [done|]. unfold dev_run in *. cbn [fold_left].
  pose proof (dev_step_keeps d mem e Hd). destruct (dev_step (d, mem) e) as [d' mem']. by apply IH.
Qed.
End keeps.

(** ** Setting up a queue *)

Definition poke (offset val : Z) : DevEvent := EvWrite offset (le_bytes 4 val).

Definition setup_queue (index n desc avail used : Z) : list DevEvent :=
  [poke VIRTIO_MMIO_QUEUE_SEL index; poke VIRTIO_MMIO_QUEUE_NUM n;
   poke VIRTIO_MMIO_QUEUE_DESC_LOW (desc mod 2 ^ 32); poke VIRTIO_MMIO_QUEUE_DESC_HIGH (desc / 2 ^ 32);
   poke VIRTIO_MMIO_QUEUE_DRIVER_LOW (avail mod 2 ^ 32); poke VIRTIO_MMIO_QUEUE_DRIVER_HIGH (avail / 2 ^ 32);
   poke VIRTIO_MMIO_QUEUE_DEVICE_LOW (used mod 2 ^ 32); poke VIRTIO_MMIO_QUEUE_DEVICE_HIGH (used / 2 ^ 32);
   poke VIRTIO_MMIO_QUEUE_READY 1].

Lemma poke_val val : in_width 32 val -> le_val (ztake 4 (le_bytes 4 val)) = val.
Proof.
  intros Hv. rewrite ztake_ge by (rewrite zlen_le_bytes; done). by apply le_val_small.
Qed.

Lemma halves_width x : in_width 64 x -> in_width 32 (x mod 2 ^ 32) /\ in_width 32 (x / 2 ^ 32).
Proof.
  unfold in_width. intros Hx. split; [apply Z.mod_pos_bound; lia|].
  split; [apply Z.div_pos; lia|apply Z.div_lt_upper_bound; lia].
Qed.

(** The device once queue [index] is selected and is [q]. *)
Definition with_selected d (index : Z) (q : VirtioQueueState) : VirtioMmioDevice B :=
  set_core d (set_queues (set_queue_sel (core d) index) (<[Z.to_nat index := q]> (c_queues (core d)))).

Lemma poke_core d mem offset val :
  in_width 32 val ->
  offset <> VIRTIO_MMIO_INTERRUPT_ACK -> offset <> VIRTIO_MMIO_QUEUE_NOTIFY -> offset <> VIRTIO_MMIO_STATUS ->
  dev_step (d, mem) (poke offset val) = (set_core d (write_core (core d) offset val), mem).
Proof.
  intros Hv N1 N2 N3. cbn [dev_step poke]. unfold Device_write. rewrite poke_val by done.
  by rewrite (proj2 (Z.eqb_neq _ _) N1), (proj2 (Z.eqb_neq _ _) N2), (proj2 (Z.eqb_neq _ _) N3).
Qed.

Lemma poke_queue d mem index q offset val f :
  (Z.to_nat index < length (c_queues (core d)))%nat -> in_width 32 val ->
  offset <> VIRTIO_MMIO_INTERRUPT_ACK -> offset <> VIRTIO_MMIO_QUEUE_NOTIFY -> offset <> VIRTIO_MMIO_STATUS ->
  (forall c : Core B, write_core c offset val = with_queue c f) ->
  dev_step (with_selected d index q, mem) (poke offset val) = (with_selected d index (f q), mem).
Proof.
  intros Hi Hv N1 N2 N3 Hf. rewrite poke_core by done. rewrite Hf. unfold with_selected, with_queue, set_core. cbn.
  unfold set_queues. cbn. by rewrite alter_insert.
Qed.

Lemma set_desc_halves q x :
  in_width 64 (vq_desc q) -> in_width 64 x ->
  set_desc (fun a => set_high a (x / 2 ^ 32)) (set_desc (fun a => set_low a (x mod 2 ^ 32)) q) = set_desc (fun _ => x) q.
Proof. intros Hq Hx. unfold set_desc at 1 3. f_equal. cbn. by apply set_halves. Qed.
Lemma set_avail_halves q x :
  in_width 64 (vq_avail q) -> in_width 64 x ->
  set_avail (fun a => set_high a (x / 2 ^ 32)) (set_avail (fun a => set_low a (x mod 2 ^ 32)) q) = set_avail (fun _ => x) q.
Proof. intros Hq Hx. unfold set_avail at 1 3. f_equal. cbn. by apply set_halves. Qed.
Lemma set_used_halves q x :
  in_width 64 (vq_used q) -> in_width 64 x ->
  set_used (fun a => set_high a (x / 2 ^ 32)) (set_used (fun a => set_low a (x mod 2 ^ 32)) q) = set_used (fun _ => x) q.
Proof. intros Hq Hx. unfold set_used at 1 3. f_equal. cbn. by apply set_halves. Qed.

Lemma setup_core d mem index n desc avail used q :
  device_ok d -> in_width 32 index -> in_width 32 n ->
  in_width 64 desc -> in_width 64 avail -> in_width 64 used ->
  c_queues (core d) !! Z.to_nat index = Some q -> 1 <= n <= vq_max_size q ->
  dev_run (setup_queue index n desc avail used) (d, mem) =
  (with_selected d index (MkVirtioQueue (vq_max_size q) n true desc avail used (vq_last_avail q)), mem).
Proof.
  intros Hd Hi Hn Hdesc Hav Hus Hq Hsz.
  pose proof (Forall_lookup_1 _ _ _ _ (co_queues _ (dk_core _ Hd)) Hq) as [].
  destruct (halves_width _ Hdesc) as [D1 D2], (halves_width _ Hav) as [A1 A2], (halves_width _ Hus) as [U1 U2].
  assert (Z.to_nat index < length (c_queues (core d)))%nat as Hlt by (by apply lookup_lt_Some in Hq).
  unfold dev_run, setup_queue. cbn [fold_left].
  rewrite (poke_core d mem VIRTIO_MMIO_QUEUE_SEL index) by done.
  assert (set_core d (write_core (core d) VIRTIO_MMIO_QUEUE_SEL index) = with_selected d index q) as ->.
  { unfold with_selected, set_queues. cbn. by rewrite list_insert_id. }
  rewrite (poke_queue d mem index q _ n (set_size n)) by done.
  rewrite (poke_queue d mem index _ _ _ (set_desc (fun a => set_low a (desc mod 2 ^ 32)))) by done.
  rewrite (poke_queue d mem index _ _ _ (set_desc (fun a => set_high a (desc / 2 ^ 32)))) by done.
  rewrite (poke_queue d mem index _ _ _ (set_avail (fun a => set_low a (avail mod 2 ^ 32)))) by done.
  rewrite (poke_queue d mem index _ _ _ (set_avail (fun a => set_high a (avail / 2 ^ 32)))) by done.
  rewrite (poke_queue d mem index _ _ _ (set_used (fun a => set_low a (used mod 2 ^ 32)))) by done.
  rewrite (poke_queue d mem index _ _ _ (set_used (fun a => set_high a (used / 2 ^ 32)))) by done.
  rewrite (poke_queue d mem index _ _ _ (set_ready 1)) by (done || (unfold in_width; lia)).
  rewrite set_desc_halves, set_avail_halves, set_used_halves by done.
  unfold set_size. rewrite (proj2 (andb_true_iff (1 <=? n) _)) by (rewrite !Z.leb_le; lia). reflexivity.
Qed.

(** A driver that selects a queue, writes a size it may have, the three
    ring addresses in halves and the ready bit gets exactly that queue, and
    every other queue and register stays. *)
Theorem driver_gets_its_queue d mem index n desc avail used q :
  device_ok d -> in_width 32 index -> in_width 32 n ->
  in_width 64 desc -> in_width 64 avail -> in_width 64 used ->
  c_queues (core d) !! Z.to_nat index = Some q -> 1 <= n <= vq_max_size q ->
  dev_run (setup_queue index n desc avail used) (d, mem) =
  (with_selected d index (MkVirtioQueue (vq_max_size q) n true desc avail used (vq_last_avail q)), mem).
Proof. apply setup_core. Qed.

(** ** Snapshots *)

Lemma restore_queues qs0 qs :
  map vq_max_size qs0 = map vq_max_size qs -> zip_with restore_queue qs0 (map QueueState_from qs) = qs.
Proof.
  revert qs0. induction qs as [|q qs IH]; intros [|q0 qs0] E; simplify_eq/=; [done|].
  rewrite IH by done. unfold restore_queue. cbn. rewrite H. by destruct q.
Qed.

Lemma queues_fit qs0 qs :
  map vq_max_size qs0 = map vq_max_size qs -> Forall queue_ok qs ->
  existsb (fun '(q, saved) => vq_max_size q <? qs_size saved) (zip qs0 (map QueueState_from qs)) = false.
Proof.
  revert qs0. induction qs as [|q qs IH]; intros [|q0 qs0] E HF; simplify_eq/=; [done|].
  apply Forall_cons in HF as [[] HF]. rewrite IH by done. rewrite H. destruct (Z.ltb_spec (vq_max_size q) (vq_size q)); [lia|done].
Qed.

Lemma interrupt_restored i :
  interrupt_ok i ->
  (if negb (int_status i =? 0) then raise (MkInterrupt 0 false) (int_status i) else MkInterrupt 0 false) = i.
Proof.
  destruct i as [st ln]. intros [_ Hl]. cbn in *. subst ln. unfold raise. cbn.
  destruct (Z.eqb_spec st 0) as [->|]; done.
Qed.

(** C31: A device restored from a snapshot into a new virtual machine has the
    queues, registers and pending interrupt of the saved one; only its own
    part may be refused. *)
Theorem snapshot_restores d mem s d1 mem1 b0 :
  device_ok d -> Device_save d mem = (Ok s, d1, mem1) ->
  device_id b0 = device_id (c_backend (core d1)) ->
  map vq_max_size (c_queues (core (Device_new (M := M) b0))) = map vq_max_size (c_queues (core d1)) ->
  Device_restore (Device_new b0) mem1 s =
    let b := if has_bits (c_status (core d1)) VIRTIO_STATUS_FEATURES_OK
             then features_ok b0 (Z.land (drv_features (core d1)) (device_features b0)) else b0 in
    let? b := if activated (core d1) then backend_restore b (vs_backend s) (c_queues (core d1)) mem1
              else Ok b in
    Ok (MkDevice (set_backend (core d1) b) (interrupt d1) (kicks (Device_new (M := M) b0)) (negb (take_kicks b0))).
Proof.
  intros Hd Hs Hid Hmax. pose proof (save_ok d mem Hd) as Hd1. rewrite Hs in Hd1. cbn in Hd1.
  unfold Device_save in Hs. destruct (serve_all_queues d mem) as [d2 mem2].
  destruct (backend_save (c_backend (core d2))) as [saved b] eqn:Eb. destruct saved as [st|]; [|done].
  injection Hs as <- <- <-. cbn in Hid. destruct Hd1 as [Hc Hi _]. cbn in Hi, Hmax.
  set (d0 := Device_new b0) in *. assert (core d0 = MkCore b0 (c_queues (core d0)) 0 0 0 0 0 false) as E0 by done.
  change (map vq_max_size (c_queues (core d0)) = map vq_max_size (c_queues (core d2))) in Hmax.
  assert (interrupt d0 = MkInterrupt 0 false) as Ei by done.
  unfold Device_restore. rewrite E0. cbn [c_backend c_queues vs_device_id vs_queues].
  rewrite Hid, Z.eqb_refl. cbn [negb orb].
  assert (zlen (map QueueState_from (c_queues (core d2))) = zlen (c_queues (core d0))) as Hlen.
  { unfold zlen. apply (f_equal length) in Hmax. rewrite !length_map in Hmax. rewrite length_map. f_equal. symmetry. exact Hmax. }
  rewrite Hlen, Z.eqb_refl. cbn [negb].
  rewrite (queues_fit _ _ Hmax) by apply Hc. rewrite (restore_queues _ _ Hmax).
  cbn [vs_status vs_activated vs_dev_features_sel vs_drv_features vs_drv_features_sel vs_queue_sel
       vs_backend vs_interrupt_status drv_features c_backend set_backend set_activated].
  pose proof (interrupt_restored _ Hi) as Er.
  clear Hmax Hlen Hc Hd Hid. destruct d2 as [[bk qs s1 s2 s3 s4 s5 act] i ks w]. cbn in *.
  destruct (has_bits s5 VIRTIO_STATUS_FEATURES_OK); cbn;
    (destruct act; [destruct (backend_restore _ _ _ _) as [b'|]; [|done]|]); cbn; f_equal;
    destruct (negb (int_status i =? 0)); unfold set_interrupt, set_core; cbn; rewrite ?Er; subst; reflexivity.
Qed.
End transport.
