(* ===== verification/Block.v ===== *)
(** * The virtio block device

    [BlockBackend] of [crates/shuru-linux/src/kvm/devices.rs] and
    [kvm/block_ranges.rs]: requests in descriptor chains, served from a file.
    The guest chooses every byte of a request.

    The disk is a file with a position. A call on it may fail, which a script
    of faults says: after how many bytes it does. *)

From Stdlib Require Import Strings.Byte.
From S2P Require Import Prelude Vsock Queue Virtio.

Definition VIRTIO_BLK_T_IN : Z := 0.
Definition VIRTIO_BLK_T_OUT : Z := 1.
Definition VIRTIO_BLK_T_DISCARD : Z := 11.
Definition VIRTIO_BLK_T_WRITE_ZEROES : Z := 13.
Definition VIRTIO_BLK_S_OK : Z := 0.
Definition VIRTIO_BLK_S_IOERR : Z := 1.
Definition VIRTIO_BLK_S_UNSUPP : Z := 2.
Definition MAX_RANGES : Z := 32.
Definition MAX_RANGE_SECTORS : Z := 2 * 1024 * 1024.

(** ** Files *)

Inductive Fault := FOk | FFail (after : Z).

Record DiskFile := MkFile { f_data : bytes; f_pos : Z; f_faults : list Fault }.

(** How the next call ends; a script that ran out is without faults. *)
Definition next_fault (f : DiskFile) : Fault * DiskFile :=
  match f_faults f with
  | [] => (FOk, f)
  | x :: rest => (x, MkFile (f_data f) (f_pos f) rest)
  end.

(** Bytes written at [pos]; a gap reads as zero. *)
Definition splice (data : bytes) (pos : Z) (bs : bytes) : bytes :=
  let data := data ++ replicate (Z.to_nat (pos - zlen data)) x00 in
  ztake pos data ++ bs ++ zdrop (pos + zlen bs) data.

Definition file_seek (f : DiskFile) (pos : Z) : option DiskFile :=
  if pos <? 2 ^ 63 then Some (MkFile (f_data f) pos (f_faults f)) else None.

Definition file_read_exact (f : DiskFile) (n : Z) : option bytes * DiskFile :=
  let '(fault, f) := next_fault f in
  match fault with
  | FOk =>
      if f_pos f + n <=? zlen (f_data f)
      then (Some (zslice (f_pos f) (f_pos f + n) (f_data f)), MkFile (f_data f) (f_pos f + n) (f_faults f))
      else (None, MkFile (f_data f) (Z.max (f_pos f) (zlen (f_data f))) (f_faults f))
  | FFail k => (None, MkFile (f_data f) (f_pos f + Z.max 0 (Z.min k n)) (f_faults f))
  end.

Definition file_write_all (f : DiskFile) (bs : bytes) : bool * DiskFile :=
  let '(fault, f) := next_fault f in
  let '(ok, bs) := match fault with FOk => (true, bs) | FFail k => (false, ztake k bs) end in
  (ok, MkFile (splice (f_data f) (f_pos f) bs) (f_pos f + zlen bs) (f_faults f)).

(** [fallocate] that punches a hole or zeroes a range and keeps the size:
    the bytes of the range read as zero. *)
Definition zero_range (data : bytes) (offset len : Z) : bytes :=
  let n := Z.max 0 (Z.min len (zlen data - offset)) in
  ztake offset data ++ replicate (Z.to_nat n) x00 ++ zdrop (offset + n) data.

Definition fallocate (f : DiskFile) (offset len : Z) : bool * DiskFile :=
  let '(fault, f) := next_fault f in
  let '(ok, len) := match fault with FOk => (true, len) | FFail k => (false, Z.max 0 (Z.min k len)) end in
  (ok, MkFile (zero_range (f_data f) offset len) (f_pos f) (f_faults f)).

(** ** Ranges of a discard *)

Definition decode_range (bs : bytes) (capacity kind : Z) : result (Z * Z * bool) Z :=
  let sector := le_val (zslice 0 8 bs) in
  let count := le_val (zslice 8 12 bs) in
  let flags := le_val (zslice 12 16 bs) in
  if ((kind =? VIRTIO_BLK_T_DISCARD) && negb (flags =? 0)) || has_bits flags (lnot_w 32 1)
  then Err VIRTIO_BLK_S_UNSUPP else
  if (MAX_RANGE_SECTORS <? count) || (capacity <? sector) || (capacity - sector <? count)
  then Err VIRTIO_BLK_S_IOERR else
  match (let! s := checked_add 64 sector count in
         let! n := checked_mul 64 s 512 in
         if n <? 2 ^ 63 then Some n else None) with
  | None => Err VIRTIO_BLK_S_IOERR
  | Some end_ => Ok (end_ - count * 512, count * 512, has_bits flags 1)
  end.

Fixpoint decode_loop (n : nat) (payload : bytes) (capacity kind : Z) (ranges : list (Z * Z * bool))
    : result (list (Z * Z * bool)) Z :=
  match n with
  | O => Ok ranges
  | S n =>
      let? r := decode_range (ztake 16 payload) capacity kind in
      decode_loop n (zdrop 16 payload) capacity kind (ranges ++ [r])
  end.

Definition decode_ranges (payload : bytes) (capacity kind : Z) : result (list (Z * Z * bool)) Z :=
  if bool_decide (payload = []) || negb (zlen payload mod 16 =? 0) || (MAX_RANGES <? zlen payload / 16)
  then Err VIRTIO_BLK_S_IOERR
  else decode_loop (Z.to_nat (zlen payload / 16)) payload capacity kind [].

(** ** The device *)

Record BlockBackend := MkBlock {
  disk : DiskFile;
  capacity : Z;
  read_only : bool;
  negotiated : Z;
}.

Definition set_disk (b : BlockBackend) (f : DiskFile) : BlockBackend :=
  MkBlock f (capacity b) (read_only b) (negotiated b).

Definition BlockBackend_new (f : DiskFile) (read_only : bool) : BlockBackend :=
  MkBlock f (zlen (f_data f) / 512) read_only 0.

(** [self.buf.len()] *)
Definition BUF_LEN : Z := 65536.

Section block.
Context `{GM : GuestMemory M}.
Implicit Types (b : BlockBackend) (mem : M) (desc : VringDesc).

(** The checks of the data descriptors, and their total length. *)
Fixpoint check_data mem (kind : Z) (data : list VringDesc) (total : Z) : option Z :=
  match data with
  | [] => Some total
  | desc :: data =>
      if negb (Bool.eqb (has_bits (d_flags desc) VRING_DESC_F_WRITE) (kind =? VIRTIO_BLK_T_IN)) then None else
      if (1024 * 1024 <? d_len desc) || negb (check_range mem (d_addr desc) (d_len desc)) then None else
      let! total := checked_add 64 total (d_len desc) in
      check_data mem kind data total
  end.

(** Reads the descriptors into a payload. *)
Fixpoint gather mem (data : list VringDesc) (payload : bytes) : option bytes :=
  match data with
  | [] => Some payload
  | desc :: data =>
      let! bs := read_slice mem (d_addr desc) (d_len desc) in
      gather mem data (payload ++ bs)
  end.

(** Zeroes the ranges; whether all calls succeeded. *)
Fixpoint zero_ranges (f : DiskFile) (ranges : list (Z * Z * bool)) : bool * DiskFile :=
  match ranges with
  | [] => (true, f)
  | (offset, len, unmap) :: ranges =>
      if len =? 0 then zero_ranges f ranges else
      let '(ok, f) := fallocate f offset len in
      if ok : bool then zero_ranges f ranges else (false, f)
  end.

(** The bytes of one descriptor, a buffer at a time. *)
Fixpoint transfer_desc (fuel : nat) (kind : Z) desc (at_ : Z) (f : DiskFile) mem (written : Z)
    : option Z * DiskFile * M :=
  match fuel with
  | O => (None, f, mem)
  | S fuel =>
      if at_ <? d_len desc then
        let n := Z.min BUF_LEN (d_len desc - at_) in
        match checked_add 64 (d_addr desc) at_ with
        | None => (None, f, mem)
        | Some addr =>
            if kind =? VIRTIO_BLK_T_IN then
              let '(bs, f) := file_read_exact f n in
              match bs with
              | None => (None, f, mem)
              | Some bs =>
                  match write_slice mem addr bs with
                  | None => (None, f, mem)
                  | Some mem => transfer_desc fuel kind desc (at_ + n) f mem (wrap 32 (written + n))
                  end
              end
            else
              match read_slice mem addr n with
              | None => (None, f, mem)
              | Some bs =>
                  let '(ok, f) := file_write_all f bs in
                  if ok : bool then transfer_desc fuel kind desc (at_ + n) f mem written
                  else (None, f, mem)
              end
        end
      else (Some written, f, mem)
  end.

(** A turn moves a whole buffer but for the last. *)
Definition transfer_fuel desc : nat := Z.to_nat (d_len desc / BUF_LEN + 2).

Fixpoint transfer (kind : Z) (data : list VringDesc) (f : DiskFile) mem (written : Z)
    : option Z * DiskFile * M :=
  match data with
  | [] => (Some written, f, mem)
  | desc :: data =>
      match transfer_desc (transfer_fuel desc) kind desc 0 f mem written with
      | (Some written, f, mem) => transfer kind data f mem written
      | (None, f, mem) => (None, f, mem)
      end
  end.

(** A discard or a write of zeroes. *)
Definition discard_request b mem (kind sector total : Z) (data : list VringDesc) : result Z Z * BlockBackend :=
  let fail := VIRTIO_BLK_S_IOERR in
  if read_only b || (total =? 0) || (MAX_RANGES * 16 <? total) || negb (total mod 16 =? 0)
     || negb (sector =? 0) then (Err fail, b) else
  let feature := if kind =? VIRTIO_BLK_T_DISCARD then 13 else 14 in
  if negb (has_bits (negotiated b) (Z.shiftl 1 feature)) then (Err VIRTIO_BLK_S_UNSUPP, b) else
  match gather mem data [] with
  | None => (Err fail, b)
  | Some payload =>
      match decode_ranges payload (capacity b) kind with
      | Err e => (Err e, b)
      | Ok ranges =>
          let '(ok, f) := zero_ranges (disk b) ranges in
          (if ok : bool then Ok 0 else Err fail, set_disk b f)
      end
  end.

(** A read or a write. *)
Definition transfer_request b mem (kind sector total : Z) (data : list VringDesc)
    : result Z Z * BlockBackend * M :=
  let fail := VIRTIO_BLK_S_IOERR in
  if (kind =? VIRTIO_BLK_T_OUT) && read_only b then (Err fail, b, mem) else
  if negb (total mod 512 =? 0) || (capacity b <? sector) || (capacity b - sector <? total / 512)
  then (Err fail, b, mem) else
  match (let! off := checked_mul 64 sector 512 in file_seek (disk b) off) with
  | None => (Err fail, b, mem)
  | Some f =>
      let '(written, f, mem) := transfer kind data f mem 0 in
      (match written with Some w => Ok w | None => Err fail end, set_disk b f, mem)
  end.

(** The request in a chain of at least two descriptors. *)
Definition request b mem (ch : list VringDesc) : result Z Z * BlockBackend * M :=
  let fail := VIRTIO_BLK_S_IOERR in
  match ch with
  | header :: ((_ :: _) as rest) =>
      if negb (d_len header =? 16) || has_bits (d_flags header) VRING_DESC_F_WRITE then (Err fail, b, mem) else
      match read_slice mem (d_addr header) 16 with
      | None => (Err fail, b, mem)
      | Some bs =>
          let kind := le_val (zslice 0 4 bs) in
          let sector := le_val (zslice 8 16 bs) in
          let data := removelast rest in
          match check_data mem kind data 0 with
          | None => (Err fail, b, mem)
          | Some total =>
              if (kind =? VIRTIO_BLK_T_DISCARD) || (kind =? VIRTIO_BLK_T_WRITE_ZEROES)
              then let '(r, b) := discard_request b mem kind sector total data in (r, b, mem)
              else if (kind =? VIRTIO_BLK_T_IN) || (kind =? VIRTIO_BLK_T_OUT)
              then transfer_request b mem kind sector total data
              else (Err VIRTIO_BLK_S_UNSUPP, b, mem)
          end
      end
  | _ => (Err fail, b, mem)
  end.

(** The last descriptor, when it can take the status. *)
Definition status_desc mem (ch : list VringDesc) : option VringDesc :=
  match last ch with
  | Some d => if (2 <=? zlen ch) && (d_flags d =? VRING_DESC_F_WRITE) && (1 <=? d_len d)
                 && check_range mem (d_addr d) 1 then Some d else None
  | None => None
  end.

(** One chain. *)
Definition serve_chain b mem (ch : list VringDesc) : Z * BlockBackend * M :=
  match status_desc mem ch with
  | None => (0, b, mem)
  | Some d =>
      let '(result, b, mem) := request b mem ch in
      let '(used_len, status) := match result with Ok n => (n, VIRTIO_BLK_S_OK) | Err e => (0, e) end in
      (wrap 32 (used_len + 1), b, write_or_skip mem 1 status (d_addr d))
  end.

Definition serve_head b (q : VirtioQueueState) mem (head : Z) : Z * BlockBackend * M :=
  serve_chain b mem (default [] (chain q mem head (Z.lor VRING_DESC_F_NEXT VRING_DESC_F_WRITE))).

Definition block_process_queue b (index : nat) (qs : list VirtioQueueState) mem
    : bool * BlockBackend * list VirtioQueueState * M :=
  match qs with
  | [] => (false, b, qs, mem)
  | q :: qs => let '(used, b, q, mem) := ring_serve serve_head b q mem in (used, b, q :: qs, mem)
  end.

Definition block_features b : Z :=
  let f := Z.lor (Z.lor VIRTIO_F_VERSION_1 (Z.shiftl 1 1)) (Z.shiftl 1 2) in
  if read_only b then Z.lor f (Z.shiftl 1 5) else Z.lor f (Z.lor (Z.shiftl 1 13) (Z.shiftl 1 14)).

Definition block_config_read b (offset : Z) : Z :=
  let rw := negb (read_only b) in
  if offset =? 0 then wrap 32 (capacity b)
  else if offset =? 4 then wrap 32 (Z.shiftr (capacity b) 32)
  else if offset =? 8 then 1024 * 1024
  else if offset =? 12 then 254
  else if ((offset =? 36) || (offset =? 48)) && rw then MAX_RANGE_SECTORS
  else if ((offset =? 40) || (offset =? 52)) && rw then MAX_RANGES
  else if (offset =? 44) && rw then 8
  else if (offset =? 56) && rw then 1
  else 0.

Definition block_features_ok b (features : Z) : BlockBackend :=
  MkBlock (disk b) (capacity b) (read_only b) features.

#[export] Instance block_backend : VirtioBackend BlockBackend M := {
  device_id _ := 2;
  device_features := block_features;
  queue_count _ := 1%nat;
  queue_max_size _ := 256;
  config_read := block_config_read;
  config_write b _ _ := b;
  features_ok := block_features_ok;
  activate b _ _ := b;
  process_queue := block_process_queue;
  take_kicks _ := false;
  backend_reset b := block_features_ok b 0;
  backend_save b := (Ok BsBlock, b);
  backend_restore b s _ _ := match s with BsBlock => Ok b | _ => Err mismatch end;
  backend_resume b := b;
}.
End block.
