(* ===== verification/BlockProofs.v ===== *)
(** * The block device serves its disk

    A read request puts exactly the sectors it names into the guest's
    buffers, a write puts the buffers into the sectors, a discard zeroes its
    ranges; whatever a guest asks for, the disk keeps its size, nothing
    outside the request changes, and a read-only disk does not change. *)

From Stdlib Require Import Strings.Byte.
From S2P Require Import Prelude Vsock Queue Virtio VirtioProofs Block.

(** ** Files *)

Lemma splice_in data pos bs :
  0 <= pos -> pos + zlen bs <= zlen data -> splice data pos bs = ztake pos data ++ bs ++ zdrop (pos + zlen bs) data.
Proof.
  intros Hp Hl. unfold splice. pose proof (zlen_nonneg bs).
  replace (Z.to_nat (pos - zlen data)) with 0%nat by lia. cbn [replicate]. by rewrite app_nil_r.
Qed.

Lemma zlen_splice data pos bs : 0 <= pos -> pos + zlen bs <= zlen data -> zlen (splice data pos bs) = zlen data.
Proof. intros. rewrite splice_in by done. zlen_lia. Qed.

(** Consecutive writes are one. *)
Lemma splice_splice data pos b1 b2 :
  0 <= pos -> pos + zlen b1 + zlen b2 <= zlen data ->
  splice (splice data pos b1) (pos + zlen b1) b2 = splice data pos (b1 ++ b2).
Proof.
  intros Hp Hl. assert (Hn := zlen_nonneg b1). assert (Hn2 := zlen_nonneg b2).
  rewrite (splice_in (splice _ _ _)); [|lia|rewrite zlen_splice; lia].
  rewrite !splice_in by zlen_lia.
  rewrite ztake_app_ge, ztake_app_exact by zlen_lia. rewrite <-!app_assoc. do 3 f_equal.
  rewrite zdrop_app_ge, zdrop_app_ge, zdrop_zdrop by zlen_lia. f_equal. zlen_lia.
Qed.

Lemma splice_outside data pos bs i :
  0 <= pos -> pos + zlen bs <= zlen data -> i < pos \/ pos + zlen bs <= i ->
  znth (splice data pos bs) i = znth data i.
Proof.
  intros Hp Hl Hi. rewrite splice_in by done. unfold znth. case_test; [done|]. bool_to_prop.
  unfold ztake, zdrop, zlen in *. destruct Hi as [Hi|Hi].
  - rewrite lookup_app_l by (rewrite length_take; lia). apply lookup_take_lt. lia.
  - rewrite lookup_app_r by (rewrite length_take; lia). rewrite length_take.
    rewrite lookup_app_r by lia. rewrite lookup_drop. f_equal. lia.
Qed.

Lemma zlen_zero_range data offset len :
  0 <= offset -> 0 <= len -> offset + len <= zlen data -> zlen (zero_range data offset len) = zlen data.
Proof. intros. unfold zero_range. zlen_lia. Qed.

Lemma zero_range_splice data offset len :
  0 <= offset -> 0 <= len -> offset + len <= zlen data ->
  zero_range data offset len = splice data offset (replicate (Z.to_nat len) x00).
Proof.
  intros. rewrite splice_in by zlen_lia. unfold zero_range. rewrite zlen_replicate.
  replace (Z.max 0 (Z.min len (zlen data - offset))) with len by lia. do 3 f_equal. lia.
Qed.

(** ** What every request keeps *)

Record block_ok (b : BlockBackend) : Prop := {
  bk_capacity : 0 <= capacity b;
  bk_fits : capacity b * 512 <= zlen (f_data (disk b));
  bk_file : zlen (f_data (disk b)) < 2 ^ 63;
}.

(** The file grew or shrank nowhere, and bytes outside [from, to) are as
    they were. *)
Definition kept_outside (from to : Z) (data data' : bytes) : Prop :=
  zlen data' = zlen data /\ forall i, i < from \/ to <= i -> znth data' i = znth data i.

Lemma kept_refl from to data : kept_outside from to data data.
Proof. done. Qed.

Lemma kept_trans from to d1 d2 d3 :
  kept_outside from to d1 d2 -> kept_outside from to d2 d3 -> kept_outside from to d1 d3.
Proof. intros [E1 H1] [E2 H2]. split; [congruence|]. intros i Hi. rewrite H2, H1; done. Qed.

Lemma kept_splice from to data pos bs :
  0 <= pos -> pos + zlen bs <= zlen data -> from <= pos -> pos + zlen bs <= to ->
  kept_outside from to data (splice data pos bs).
Proof.
  intros. split; [by apply zlen_splice|]. intros i Hi. apply splice_outside; lia.
Qed.

Section requests.
Context `{GM : GuestMemory M, GL : !GuestMemoryLaws M}.
Implicit Types (b : BlockBackend) (mem : M) (f : DiskFile) (desc : VringDesc).

Definition desc_lens (data : list VringDesc) : Z := fold_right (fun d n => d_len d + n) 0 data.

Definition descs_ok mem (kind : Z) (data : list VringDesc) : Prop :=
  Forall (fun d => has_bits (d_flags d) VRING_DESC_F_WRITE = (kind =? VIRTIO_BLK_T_IN) /\
                   d_len d <= 1024 * 1024 /\ check_range mem (d_addr d) (d_len d) = true) data.

Lemma check_data_spec mem kind data : forall total t,
  check_data mem kind data total = Some t -> t = total + desc_lens data /\ descs_ok mem kind data.
Proof.
  induction data as [|d data IH]; intros total t; cbn [check_data].
  { intros [= <-]. split; [cbn; lia|constructor]. }
  case_test; [done|]. case_test; [done|]. unfold checked_add. case_test; [|done].
  intros [-> Hd]%IH. cbn. fold (desc_lens data). split; [lia|]. constructor; [|done].
  bool_to_prop. split_and!; [by apply eqb_prop|lia|done].
Qed.

Lemma next_fault_none f : f_faults f = [] -> next_fault f = (FOk, f).
Proof. unfold next_fault. by intros ->. Qed.

Lemma next_fault_data f fault f' : next_fault f = (fault, f') -> f_data f' = f_data f /\ f_pos f' = f_pos f.
Proof. unfold next_fault. destruct (f_faults f); intros; by simplify_eq/=. Qed.

(** A descriptor the device may use. *)
Definition desc_in mem desc : Prop :=
  0 <= d_addr desc /\ 0 <= d_len desc /\ check_range mem (d_addr desc) (d_len desc) = true.

Lemma desc_piece mem desc at_ n :
  desc_in mem desc -> 0 <= at_ -> 0 < n -> at_ + n <= d_len desc ->
  checked_add 64 (d_addr desc) at_ = Some (d_addr desc + at_) /\
  check_range mem (d_addr desc + at_) n = true.
Proof.
  intros (Ha & Hl & Hc) Hat Hn Hle. pose proof (mem_top _ _ _ Hc Ha Hl). split.
  - unfold checked_add. destruct (Z.ltb_spec (d_addr desc + at_) (2 ^ 64)); [done|lia].
  - eapply mem_sub; [exact Hc|lia..].
Qed.

(** ** Writes *)

(** Whatever fails, a write changes only the bytes it is for. *)
Lemma write_desc_kept fuel kind desc : forall at_ f mem w r f' mem',
  kind <> VIRTIO_BLK_T_IN -> desc_in mem desc -> 0 <= at_ <= d_len desc -> 0 <= f_pos f ->
  f_pos f + (d_len desc - at_) <= zlen (f_data f) ->
  transfer_desc fuel kind desc at_ f mem w = (r, f', mem') ->
  mem' = mem /\ kept_outside (f_pos f) (f_pos f + (d_len desc - at_)) (f_data f) (f_data f') /\
  (is_Some r -> f_pos f' = f_pos f + (d_len desc - at_)).
Proof.
  induction fuel as [|fuel IH]; intros at_ f mem w r f' mem' Hk Hd Hat Hp Hl; cbn [transfer_desc].
  { intros; simplify_eq. split_and!; [done|done|by intros []]. }
  case_test; bool_to_prop; [|intros; simplify_eq; split_and!; [done|done|intros _; lia]].
  set (n := Z.min BUF_LEN (d_len desc - at_)). assert (0 < n /\ at_ + n <= d_len desc) as [Hn Hn2].
  { unfold n, BUF_LEN. lia. }
  destruct (desc_piece mem desc at_ n Hd) as [-> Hc]; [lia..|].
  rewrite (proj2 (Z.eqb_neq _ _) Hk).
  destruct (mem_read mem _ _ Hc) as (bs & -> & Hbs); [lia|].
  unfold file_write_all. destruct (next_fault f) as [fault f1] eqn:Ef. apply next_fault_data in Ef as [E1 E2].
  destruct fault as [|k]; rewrite E1, E2.
  - pose proof (zlen_nonneg bs) as Hz0. intros H.
    apply IH in H; cbn [f_data f_pos] in *; [|done|done|lia|lia|rewrite zlen_splice; lia].
    destruct H as (-> & [Hz Hb] & Hpos).
    split_and!; [done| |intros Hr; rewrite Hpos by done; lia].
    eapply kept_trans; [apply (kept_splice (f_pos f) (f_pos f + (d_len desc - at_)) (f_data f) (f_pos f) bs); lia|].
    split; [done|]. intros i Hi. apply Hb. lia.
  - intros; simplify_eq. cbn. pose proof (zlen_nonneg bs). split_and!; [done| |by intros []].
    apply kept_splice; zlen_lia.
Qed.

(** Without faults the whole descriptor is written. *)
Lemma write_desc_done kind desc mem w : kind <> VIRTIO_BLK_T_IN -> desc_in mem desc ->
  forall fuel at_ f bs, f_faults f = [] -> 0 <= at_ <= d_len desc -> 0 <= f_pos f ->
  f_pos f + (d_len desc - at_) <= zlen (f_data f) ->
  d_len desc - at_ + BUF_LEN <= Z.of_nat fuel * BUF_LEN ->
  read_slice mem (d_addr desc + at_) (d_len desc - at_) = Some bs ->
  transfer_desc fuel kind desc at_ f mem w =
    (Some w, MkFile (splice (f_data f) (f_pos f) bs) (f_pos f + (d_len desc - at_)) [], mem).
Proof.
  intros Hk Hd. induction fuel as [|fuel IH]; intros at_ f bs Hf Hat Hp Hl Hfuel Hbs; cbn [transfer_desc]; [unfold BUF_LEN in *; lia|].
  assert (check_range mem (d_addr desc + at_) (d_len desc - at_) = true) as Hrest.
  { destruct Hd as (? & ? & Hc). eapply mem_sub; [exact Hc|lia..]. }
  destruct (mem_read _ _ _ Hrest) as (bs' & E & Hlen); [lia|]. rewrite Hbs in E. injection E as <-.
  case_test; bool_to_prop.
  2: { assert (bs = []) as -> by (apply zlen_zero; lia). destruct f as [data pos faults]. cbn in *. subst.
       rewrite splice_in by (change (zlen (@nil byte)) with 0; lia). cbn.
       change (zlen (@nil byte)) with 0. rewrite Z.add_0_r, ztake_zdrop. do 3 f_equal. lia. }
  set (n := Z.min BUF_LEN (d_len desc - at_)).
  assert (0 < n /\ at_ + n <= d_len desc /\ (n = BUF_LEN \/ n = d_len desc - at_)) as (Hn & Hn2 & Hn3).
  { unfold n, BUF_LEN. lia. }
  clearbody n.
  destruct (desc_piece mem desc at_ n Hd) as [-> Hc]; [lia..|].
  rewrite (proj2 (Z.eqb_neq _ _) Hk).
  destruct (mem_read_split mem (d_addr desc + at_) n (d_len desc - (at_ + n))) as (b1 & b2 & R1 & R2 & R3).
  { by replace (n + (d_len desc - (at_ + n))) with (d_len desc - at_) by lia. }
  1-2: lia.
  replace (n + (d_len desc - (at_ + n))) with (d_len desc - at_) in R3 by lia. rewrite Hbs in R3. injection R3 as ->.
  destruct (mem_read _ _ _ Hc) as (b1' & E & Hb1); [lia|]. rewrite R1 in E. injection E as <-. rewrite R1.
  unfold file_write_all. rewrite next_fault_none by done.
  rewrite zlen_app in Hlen.
  rewrite (IH (at_ + n) _ b2); cbn [f_data f_pos f_faults]; try done; try lia.
  - rewrite splice_splice by lia. do 3 f_equal. lia.
  - rewrite zlen_splice by lia. lia.
  - unfold BUF_LEN in *. lia.
  - by rewrite Z.add_assoc.
Qed.

(** ** Reads *)

(** A read leaves the file's bytes alone. *)
Lemma read_desc_data fuel desc : forall at_ f mem w r f' mem',
  transfer_desc fuel VIRTIO_BLK_T_IN desc at_ f mem w = (r, f', mem') -> f_data f' = f_data f.
Proof.
  induction fuel as [|fuel IH]; intros at_ f mem w r f' mem'; cbn [transfer_desc]; [by intros; simplify_eq|].
  case_test; [|by intros; simplify_eq]. case_match; [|by intros; simplify_eq].
  rewrite Z.eqb_refl. destruct (file_read_exact f _) as [bs f1] eqn:Ef.
  assert (f_data f1 = f_data f) as E.
  { unfold file_read_exact in Ef. destruct (next_fault f) as [fault f2] eqn:En. apply next_fault_data in En as [En _].
    destruct fault; [case_test_in Ef|]; by simplify_eq/=. }
  destruct bs as [bs|]; [|by intros; simplify_eq].
  destruct (write_slice mem _ bs); [|by intros; simplify_eq]. intros Hr. apply IH in Hr. congruence.
Qed.

(** Writing nothing touches nothing. *)
Definition put mem (addr : Z) (bs : bytes) : option M :=
  if bool_decide (bs = []) then Some mem else write_slice mem addr bs.

Lemma put_split mem a (bs1 bs2 : bytes) :
  bs1 <> [] -> check_range mem a (zlen bs1 + zlen bs2) = true ->
  put mem a (bs1 ++ bs2) = let! m1 := write_slice mem a bs1 in put m1 (a + zlen bs1) bs2.
Proof.
  intros Hb1 Hc. unfold put. rewrite bool_decide_eq_false_2 by (by destruct bs1). case_bool_decide as E.
  - subst bs2. rewrite app_nil_r. by destruct (write_slice mem a bs1).
  - by apply mem_write_split.
Qed.

(** Without faults the whole descriptor is filled with the next bytes. *)
Lemma read_desc_done desc : forall fuel at_ f mem w,
  desc_in mem desc -> f_faults f = [] -> 0 <= at_ <= d_len desc -> 0 <= f_pos f ->
  f_pos f + (d_len desc - at_) <= zlen (f_data f) -> 0 <= w -> w + (d_len desc - at_) < 2 ^ 32 ->
  d_len desc - at_ + BUF_LEN <= Z.of_nat fuel * BUF_LEN ->
  exists mem', put mem (d_addr desc + at_)
      (zslice (f_pos f) (f_pos f + (d_len desc - at_)) (f_data f)) = Some mem' /\
    (forall a n, check_range mem' a n = check_range mem a n) /\
    transfer_desc fuel VIRTIO_BLK_T_IN desc at_ f mem w =
      (Some (w + (d_len desc - at_)), MkFile (f_data f) (f_pos f + (d_len desc - at_)) [], mem').
Proof.
  induction fuel as [|fuel IH]; intros at_ f mem w Hd Hf Hat Hp Hl Hw Hw32 Hfuel; cbn [transfer_desc];
    [unfold BUF_LEN in *; lia|].
  case_test; bool_to_prop.
  2: { exists mem. replace (d_len desc - at_) with 0 by lia. rewrite !Z.add_0_r. split_and!; [|done|].
       - unfold put, zslice. rewrite Z.sub_diag. by rewrite ztake_nonpos by lia.
       - destruct f. cbn in *. by subst. }
  set (n := Z.min BUF_LEN (d_len desc - at_)).
  assert (0 < n /\ at_ + n <= d_len desc /\ (n = BUF_LEN \/ n = d_len desc - at_)) as (Hn & Hn2 & Hn3).
  { unfold n, BUF_LEN. lia. }
  clearbody n. destruct (desc_piece mem desc at_ n Hd) as [-> Hc]; [lia..|]. rewrite Z.eqb_refl.
  unfold file_read_exact. rewrite next_fault_none by done.
  destruct (Z.leb_spec (f_pos f + n) (zlen (f_data f))); [|lia].
  set (bs1 := zslice (f_pos f) (f_pos f + n) (f_data f)).
  assert (zlen bs1 = n) as Hb1 by (unfold bs1; rewrite zlen_slice; lia).
  destruct (mem_write mem (d_addr desc + at_) bs1) as (m1 & Hm1 & _ & _); [by rewrite Hb1|].
  pose proof (mem_write_ranges _ _ _ _ Hm1) as Hr1. rewrite Hm1.
  rewrite wrap_small by (unfold in_width; lia).
  destruct (IH (at_ + n) (MkFile (f_data f) (f_pos f + n) (f_faults f)) m1 (w + n)) as (mem' & Hput & Hr & ->);
    cbn [f_data f_pos f_faults]; try done; try lia.
  { destruct Hd as (? & ? & ?). split_and!; [done|done|by rewrite Hr1]. }
  { unfold BUF_LEN in *. lia. }
  exists mem'. split_and!; [|intros; by rewrite Hr, Hr1|do 2 f_equal; f_equal; lia].
  cbn [f_data f_pos] in Hput.
  rewrite <-(zslice_cat (f_pos f) (f_pos f + n)) by lia. fold bs1.
  replace (f_pos f + (d_len desc - at_)) with (f_pos f + n + (d_len desc - (at_ + n))) by lia.
  rewrite put_split, Hm1, Hb1.
  - by rewrite <-Z.add_assoc.
  - intros E. rewrite E in Hb1. change (zlen (@nil byte)) with 0 in Hb1. lia.
  - rewrite Hb1, zlen_slice by lia.
    destruct Hd as (? & ? & Hcd). eapply mem_sub; [exact Hcd|lia..].
Qed.

(** ** Whole transfers *)

Lemma desc_lens_nonneg mem data : Forall (desc_in mem) data -> 0 <= desc_lens data.
Proof. induction 1 as [|d data (_ & H & _)]; cbn; [lia|]. fold (desc_lens data). lia. Qed.

Lemma descs_in_eq mem mem' data :
  (forall a n, check_range mem' a n = check_range mem a n) -> Forall (desc_in mem) data -> Forall (desc_in mem') data.
Proof. intros E H. eapply Forall_impl; [exact H|]. intros d (? & ? & ?). split_and!; [done|done|by rewrite E]. Qed.

Lemma transfer_fuel_enough desc : 0 <= d_len desc -> d_len desc - 0 + BUF_LEN <= Z.of_nat (transfer_fuel desc) * BUF_LEN.
Proof.
  intros H. unfold transfer_fuel, BUF_LEN. pose proof (Z.div_mod (d_len desc) 65536).
  pose proof (Z.mod_pos_bound (d_len desc) 65536). pose proof (Z.div_pos (d_len desc) 65536). lia.
Qed.

Lemma transfer_kept kind data : forall f mem w r f' mem',
  kind <> VIRTIO_BLK_T_IN -> Forall (desc_in mem) data -> 0 <= f_pos f ->
  f_pos f + desc_lens data <= zlen (f_data f) ->
  transfer kind data f mem w = (r, f', mem') ->
  mem' = mem /\ kept_outside (f_pos f) (f_pos f + desc_lens data) (f_data f) (f_data f').
Proof.
  induction data as [|d data IH]; intros f mem w r f' mem' Hk Hd Hp Hl; cbn [transfer]; [by intros; simplify_eq|].
  apply Forall_cons in Hd as [Hd1 Hd]. pose proof (desc_lens_nonneg _ _ Hd). destruct Hd1 as (Ha & Hn & Hc).
  cbn in *. fold (desc_lens data) in *.
  destruct (transfer_desc _ _ _ _ _ _ _) as [[r1 f1] m1] eqn:E.
  apply write_desc_kept in E as (-> & Hkept & Hpos); [|done|done|lia|done|lia].
  assert (kept_outside (f_pos f) (f_pos f + (d_len d + desc_lens data)) (f_data f) (f_data f1)) as Hk1.
  { destruct Hkept as [Hz Hb]. split; [done|]. intros i Hi. apply Hb. lia. }
  destruct r1 as [w1|]; [|by intros; simplify_eq].
  intros H1. assert (zlen (f_data f1) = zlen (f_data f)) as Hz by apply Hk1.
  rewrite Z.sub_0_r in Hpos. assert (f_pos f1 = f_pos f + d_len d) as Hp1 by (by apply Hpos).
  apply IH in H1 as [-> [Hz2 Hb2]]; [|done|done|lia|lia]. split; [done|].
  eapply kept_trans; [exact Hk1|]. split; [done|]. intros i Hi. apply Hb2. lia.
Qed.

Lemma transfer_read_data data : forall f mem w r f' mem',
  transfer VIRTIO_BLK_T_IN data f mem w = (r, f', mem') -> f_data f' = f_data f.
Proof.
  induction data as [|d data IH]; intros f mem w r f' mem'; cbn [transfer]; [by intros; simplify_eq|].
  destruct (transfer_desc _ _ _ _ _ _ _) as [[r1 f1] m1] eqn:E. apply read_desc_data in E.
  destruct r1; [|by intros; simplify_eq]. intros H1%IH. congruence.
Qed.

(** The bytes of the descriptors, without the accumulator. *)
Lemma gather_acc mem data : forall acc,
  gather mem data acc = let! bs := gather mem data [] in Some (acc ++ bs).
Proof.
  induction data as [|d data IH]; intros acc; cbn; [by rewrite app_nil_r|].
  destruct (read_slice mem (d_addr d) (d_len d)) as [bs|]; [|done]. cbn. rewrite IH, (IH bs).
  destruct (gather mem data []); cbn; [|done]. by rewrite app_assoc.
Qed.

Lemma gather_cons mem d data :
  gather mem (d :: data) [] =
  let! bs := read_slice mem (d_addr d) (d_len d) in let! rest := gather mem data [] in Some (bs ++ rest).
Proof. cbn. destruct (read_slice _ _ _); [|done]. cbn. apply gather_acc. Qed.

Lemma gather_len mem data : forall bs,
  Forall (desc_in mem) data -> gather mem data [] = Some bs -> zlen bs = desc_lens data.
Proof.
  induction data as [|d data IH]; intros bs Hd; [by intros [= <-]|]. rewrite gather_cons.
  apply Forall_cons in Hd as [(Ha & Hn & Hc) Hd]. destruct (mem_read _ _ _ Hc Hn) as (b1 & -> & Hb1). cbn.
  destruct (gather mem data []) as [rest|] eqn:E; [|done]. intros [= <-]. rewrite zlen_app, Hb1.
  by rewrite (IH rest).
Qed.

Lemma gather_ok mem data : Forall (desc_in mem) data -> exists bs, gather mem data [] = Some bs.
Proof.
  induction 1 as [|d data (Ha & Hn & Hc) _ [bs IH]]; [by eexists|]. rewrite gather_cons.
  destruct (mem_read _ _ _ Hc Hn) as (b1 & -> & _). rewrite IH. by eexists.
Qed.

(** A write without faults puts the gathered bytes into the file. *)
Lemma transfer_write_done kind mem w data : forall f bs,
  kind <> VIRTIO_BLK_T_IN -> Forall (desc_in mem) data -> f_faults f = [] -> 0 <= f_pos f ->
  f_pos f + desc_lens data <= zlen (f_data f) -> gather mem data [] = Some bs ->
  transfer kind data f mem w =
    (Some w, MkFile (splice (f_data f) (f_pos f) bs) (f_pos f + desc_lens data) [], mem).
Proof.
  induction data as [|d data IH]; intros f bs Hk Hd Hf Hp Hl; cbn [transfer].
  { intros [= <-]. destruct f as [data pos faults]. cbn in *. subst. rewrite splice_in by (change (zlen (@nil byte)) with 0; lia).
    cbn. change (zlen (@nil byte)) with 0. by rewrite Z.add_0_r, ztake_zdrop. }
  rewrite gather_cons. apply Forall_cons in Hd as [Hd1 Hd]. pose proof (desc_lens_nonneg _ _ Hd).
  pose proof Hd1 as (Ha & Hn & Hc). cbn in Hl. fold (desc_lens data) in Hl.
  destruct (mem_read _ _ _ Hc Hn) as (b1 & E1 & Hb1). rewrite E1. cbn.
  destruct (gather mem data []) as [rest|] eqn:E; [|done]. intros [= <-].
  pose proof (gather_len _ _ _ Hd E) as Hrest.
  rewrite (write_desc_done kind d mem w Hk Hd1 _ 0 f b1); [|done|lia|done|lia|by apply transfer_fuel_enough|by rewrite Z.add_0_r, Z.sub_0_r].
  rewrite Z.sub_0_r, (IH _ rest); cbn [f_data f_pos f_faults]; try done; try lia.
  - rewrite <-Hb1, splice_splice by lia. cbn. fold (desc_lens data). do 3 f_equal. lia.
  - rewrite zlen_splice by lia. lia.
Qed.

(** The bytes over the descriptors. *)
Fixpoint scatter mem (data : list VringDesc) (bs : bytes) : option M :=
  match data with
  | [] => Some mem
  | d :: data =>
      let! m1 := put mem (d_addr d) (ztake (d_len d) bs) in
      scatter m1 data (zdrop (d_len d) bs)
  end.

Lemma transfer_read_done data : forall f mem w,
  Forall (desc_in mem) data -> f_faults f = [] -> 0 <= f_pos f ->
  f_pos f + desc_lens data <= zlen (f_data f) -> 0 <= w -> w + desc_lens data < 2 ^ 32 ->
  exists mem', scatter mem data (zslice (f_pos f) (f_pos f + desc_lens data) (f_data f)) = Some mem' /\
    transfer VIRTIO_BLK_T_IN data f mem w =
      (Some (w + desc_lens data), MkFile (f_data f) (f_pos f + desc_lens data) [], mem').
Proof.
  induction data as [|d data IH]; intros f mem w Hd Hf Hp Hl Hw Hw32; cbn [transfer scatter].
  { exists mem. cbn. rewrite !Z.add_0_r. destruct f. cbn in *. by subst. }
  apply Forall_cons in Hd as [Hd1 Hd]. pose proof (desc_lens_nonneg _ _ Hd).
  pose proof Hd1 as (Ha & Hn & Hc). cbn [desc_lens fold_right] in *. fold (desc_lens data) in *.
  destruct (read_desc_done d (transfer_fuel d) 0 f mem w) as (m1 & Hput & Hr & ->); try done; try lia.
  { by apply transfer_fuel_enough. }
  rewrite !Z.sub_0_r, Z.add_0_r in *.
  destruct (IH (MkFile (f_data f) (f_pos f + d_len d) []) m1 (w + d_len d)) as (m2 & Hs & ->);
    cbn [f_data f_pos f_faults] in *; try done; try lia.
  { by eapply descs_in_eq. }
  exists m2. rewrite <-(zslice_cat (f_pos f) (f_pos f + d_len d)) by lia.
  assert (zlen (zslice (f_pos f) (f_pos f + d_len d) (f_data f)) = d_len d) as Hz by (rewrite zlen_slice; lia).
  rewrite ztake_app_exact, Hput by done. cbn [option_bind mbind]. rewrite zdrop_app_exact by done.
  by rewrite !Z.add_assoc.
Qed.

(** ** Buffers that do not overlap *)

(** Two ranges of memory do not meet. *)
Definition off_range (a n b k : Z) : Prop := a + n <= b \/ b + k <= a.

(** A range meets none of the buffers. *)
Definition off_descs (data : list VringDesc) (a n : Z) : Prop :=
  Forall (fun d => off_range (d_addr d) (d_len d) a n) data.

Fixpoint all_apart (data : list VringDesc) : Prop :=
  match data with
  | [] => True
  | d :: data => off_descs data (d_addr d) (d_len d) /\ all_apart data
  end.

Lemma put_spec mem a bs m' :
  check_range mem a (zlen bs) = true -> put mem a bs = Some m' ->
  (forall c k, check_range m' c k = check_range mem c k) /\ read_slice m' a (zlen bs) = Some bs /\
  (forall c k, 0 <= k -> off_range a (zlen bs) c k -> read_slice m' c k = read_slice mem c k).
Proof.
  intros Hc. unfold put. case_bool_decide as E.
  - intros [= <-]. split_and!; [done| |done]. subst. change (zlen (@nil byte)) with 0 in *.
    destruct (mem_read mem a 0 Hc) as (bs & -> & Hz); [lia|]. f_equal. by apply zlen_zero.
  - intros Hw. pose proof (mem_write_ranges _ _ _ _ Hw). destruct (mem_write mem a bs Hc) as (m1 & Hw' & Hr & Ho).
    rewrite Hw in Hw'. injection Hw' as <-. split_and!; [done|done|]. intros c k Hk Hoff. apply Ho; [done|].
    unfold off_range in Hoff. lia.
Qed.

(** What was scattered over buffers apart is gathered from them. *)
Lemma scatter_spec data : forall mem bs mem',
  Forall (desc_in mem) data -> all_apart data -> zlen bs = desc_lens data -> scatter mem data bs = Some mem' ->
  (forall c k, check_range mem' c k = check_range mem c k) /\ gather mem' data [] = Some bs /\
  (forall c k, 0 <= k -> off_descs data c k -> read_slice mem' c k = read_slice mem c k).
Proof.
  induction data as [|d data IH]; intros mem bs mem' Hd Hap Hz; cbn [scatter].
  { intros [= <-]. split_and!; [done| |done]. cbn. f_equal. symmetry. by apply zlen_zero. }
  apply Forall_cons in Hd as [(Ha & Hn & Hc) Hd]. destruct Hap as [Hap1 Hap]. pose proof (desc_lens_nonneg _ _ Hd).
  cbn [desc_lens fold_right] in Hz. fold (desc_lens data) in Hz.
  destruct (put mem (d_addr d) (ztake (d_len d) bs)) as [m1|] eqn:E; [|done]. cbn [option_bind mbind].
  assert (zlen (ztake (d_len d) bs) = d_len d) as Hz1 by (rewrite zlen_take; lia).
  apply put_spec in E as (R1 & G1 & O1); [|by rewrite Hz1]. rewrite Hz1 in *.
  intros Hs. apply IH in Hs as (R2 & G2 & O2); [|by eapply descs_in_eq|done|rewrite zlen_drop; lia].
  split_and!; [intros; by rewrite R2, R1| |].
  - rewrite gather_cons, O2, G1, G2 by (done || lia). cbn. by rewrite ztake_zdrop.
  - intros c k Hk Hoff. apply Forall_cons in Hoff as [Hoff1 Hoff]. rewrite O2, O1; done.
Qed.

(** ** Well-formed requests *)

(** The device can take no more than [MAX_QUEUE_SIZE] descriptors. *)
Record good_request mem (kind sector : Z) (header : VringDesc) (data : list VringDesc) (status : VringDesc) : Prop := {
  gr_header : d_len header = 16 /\ has_bits (d_flags header) VRING_DESC_F_WRITE = false;
  gr_bytes : exists bs, read_slice mem (d_addr header) 16 = Some bs /\
    le_val (zslice 0 4 bs) = kind /\ le_val (zslice 8 16 bs) = sector;
  gr_count : zlen data <= MAX_QUEUE_SIZE - 2;
  gr_data : descs_ok mem kind data /\ Forall (desc_in mem) data;
  gr_status : d_flags status = VRING_DESC_F_WRITE /\ 1 <= d_len status /\ check_range mem (d_addr status) 1 = true;
  gr_apart : all_apart data /\ off_descs data (d_addr status) 1;
}.

Lemma descs_bound mem kind data : descs_ok mem kind data -> desc_lens data <= zlen data * (1024 * 1024).
Proof.
  induction 1 as [|d data (_ & H & _) _ IH]; [by cbn|]. cbn [desc_lens fold_right]. fold (desc_lens data).
  rewrite zlen_cons. lia.
Qed.

Lemma check_data_ok mem kind data : forall total,
  descs_ok mem kind data -> Forall (desc_in mem) data -> 0 <= total -> total + zlen data * (1024 * 1024) < 2 ^ 64 ->
  check_data mem kind data total = Some (total + desc_lens data).
Proof.
  induction data as [|d data IH]; intros total Hok Hin Ht Hb; cbn [check_data]; [cbn; by rewrite Z.add_0_r|].
  apply Forall_cons in Hok as [(Hf & Hl & Hc) Hok]. apply Forall_cons in Hin as [(Ha & Hn & _) Hin].
  rewrite zlen_cons in Hb. pose proof (zlen_nonneg data).
  rewrite Hf, eqb_reflx, Hc. destruct (Z.ltb_spec (1024 * 1024) (d_len d)); [lia|]. cbn [negb orb].
  unfold checked_add. destruct (Z.ltb_spec (total + d_len d) (2 ^ 64)); [|lia]. cbn [option_bind mbind].
  rewrite IH by (done || lia). cbn. fold (desc_lens data). f_equal. lia.
Qed.

Lemma removelast_snoc {A} (l : list A) x : removelast (l ++ [x]) = l.
Proof. by rewrite removelast_app, app_nil_r by done. Qed.

(** The device's parsing of such a request. *)
Lemma good_request_read b mem kind sector header data status :
  good_request mem kind sector header data status ->
  request b mem (header :: data ++ [status]) =
  let total := desc_lens data in
  if (kind =? VIRTIO_BLK_T_DISCARD) || (kind =? VIRTIO_BLK_T_WRITE_ZEROES)
  then let '(r, b) := discard_request b mem kind sector total data in (r, b, mem)
  else if (kind =? VIRTIO_BLK_T_IN) || (kind =? VIRTIO_BLK_T_OUT)
  then transfer_request b mem kind sector total data
  else (Err VIRTIO_BLK_S_UNSUPP, b, mem).
Proof.
  intros [[Hl Hf] (bs & Hbs & Hk & Hs) Hc [Hok Hin] _ _]. unfold request.
  destruct (data ++ [status]) as [|d0 rest] eqn:E; [by destruct data|]. rewrite <-E, removelast_snoc, Hl, Hf, Hbs, Hk, Hs.
  cbn [negb Z.eqb orb Pos.eqb].
  rewrite check_data_ok by (done || unfold MAX_QUEUE_SIZE in *; lia). done.
Qed.

Lemma good_request_status mem kind sector header data status :
  good_request mem kind sector header data status -> status_desc mem (header :: data ++ [status]) = Some status.
Proof.
  intros [_ _ _ _ (Hf & Hl & Hc) _]. unfold status_desc. rewrite app_comm_cons, last_snoc, Hf, Hc, Z.eqb_refl.
  assert (2 <=? zlen ((header :: data) ++ [status]) = true) as -> by (apply Z.leb_le; zlen_lia).
  by rewrite (proj2 (Z.leb_le _ _) Hl).
Qed.

Lemma set_disk_ok b f : block_ok b -> zlen (f_data f) = zlen (f_data (disk b)) -> block_ok (set_disk b f).
Proof. intros [] E. split; cbn; [done|by rewrite E..]. Qed.

(** Where a request within the capacity starts. *)
Lemma sectors_in b sector total :
  block_ok b -> 0 <= sector -> 0 <= total -> total mod 512 = 0 -> sector + total / 512 <= capacity b ->
  sector * 512 + total <= zlen (f_data (disk b)) /\ sector * 512 < 2 ^ 63 /\
  (let! off := checked_mul 64 sector 512 in file_seek (disk b) off) =
    Some (MkFile (f_data (disk b)) (sector * 512) (f_faults (disk b))).
Proof.
  intros [Hc Hf Hm] Hs Ht Hmod Hcap. pose proof (Z.div_mod total 512 ltac:(lia)).
  assert (sector * 512 + total <= zlen (f_data (disk b))) as Hin by lia. split_and!; [done|lia|].
  unfold checked_mul. destruct (Z.ltb_spec (sector * 512) (2 ^ 64)); [|lia]. cbn [option_bind mbind].
  unfold file_seek. destruct (Z.ltb_spec (sector * 512) (2 ^ 63)); [done|lia].
Qed.

(** The status byte is written last. *)
Lemma status_written mem a v : in_width 8 v -> check_range mem a 1 = true ->
  read_slice (write_or_skip mem 1 v a) a 1 = Some (le_bytes 1 v) /\
  forall c k, 0 <= k -> off_range a 1 c k -> read_slice (write_or_skip mem 1 v a) c k = read_slice mem c k.
Proof.
  intros Hv Hc. unfold write_or_skip. destruct (mem_write mem a (le_bytes 1 v)) as (m' & -> & Hr & Ho); [done|].
  split; [exact Hr|]. intros c k Hk Hoff. apply Ho; [done|]. unfold off_range in Hoff.
  change (zlen (le_bytes 1 v)) with 1. lia.
Qed.

Lemma gather_apart mem mem' data a n :
  (forall c k, 0 <= k -> off_range a n c k -> read_slice mem' c k = read_slice mem c k) ->
  Forall (desc_in mem) data -> off_descs data a n -> gather mem' data [] = gather mem data [].
Proof.
  intros Ho Hd. induction Hd as [|d data (Ha & Hn & _) _ IH]; intros Hoff; [done|].
  apply Forall_cons in Hoff as [H1 Hoff]. rewrite !gather_cons, IH, Ho by (done || unfold off_range in *; lia). done.
Qed.

Definition disk_bytes b : bytes := f_data (disk b).

Definition fits_disk b (sector total : Z) : Prop :=
  0 <= sector /\ total mod 512 = 0 /\ sector + total / 512 <= capacity b.

Lemma good_request_len mem kind sector header data status :
  good_request mem kind sector header data status -> 0 <= desc_lens data < 2 ^ 28.
Proof.
  intros [_ _ Hc [Hok Hin] _ _]. pose proof (descs_bound _ _ _ Hok). pose proof (desc_lens_nonneg _ _ Hin).
  unfold MAX_QUEUE_SIZE in Hc. lia.
Qed.

Lemma transfer_request_fits b mem kind sector total data :
  block_ok b -> (kind =? VIRTIO_BLK_T_OUT) && read_only b = false -> 0 <= total -> fits_disk b sector total ->
  sector * 512 + total <= zlen (disk_bytes b) /\
  transfer_request b mem kind sector total data =
    let '(written, f, mem) := transfer kind data (MkFile (disk_bytes b) (sector * 512) (f_faults (disk b))) mem 0 in
    (match written with Some w => Ok w | None => Err VIRTIO_BLK_S_IOERR end, set_disk b f, mem).
Proof.
  intros Hb Hro Ht (Hs & Hmod & Hcap). unfold transfer_request. rewrite Hro.
  destruct (sectors_in b sector total) as (Hfit & _ & Hseek); try done. split; [done|].
  rewrite Hmod, Z.eqb_refl. cbn [negb orb]. pose proof (Z.div_pos total 512).
  destruct (Z.ltb_spec (capacity b) sector); [lia|]. destruct (Z.ltb_spec (capacity b - sector) (total / 512)); [lia|].
  cbn [orb]. by rewrite Hseek.
Qed.

(** C13: A well-formed read within the disk's capacity, on a disk without
    faults, leaves exactly the sectors it names in the guest's buffers and
    zero in its status byte, reports their length, touches no other memory
    and no byte of the disk. *)
Theorem block_read_delivers b mem sector header data status :
  block_ok b -> f_faults (disk b) = [] ->
  good_request mem VIRTIO_BLK_T_IN sector header data status -> fits_disk b sector (desc_lens data) ->
  exists b' mem', serve_chain b mem (header :: data ++ [status]) = (desc_lens data + 1, b', mem') /\
    gather mem' data [] = Some (zslice (sector * 512) (sector * 512 + desc_lens data) (disk_bytes b)) /\
    read_slice mem' (d_addr status) 1 = Some (le_bytes 1 VIRTIO_BLK_S_OK) /\
    disk_bytes b' = disk_bytes b /\
    (forall a n, 0 <= n -> off_descs data a n -> off_range (d_addr status) 1 a n ->
       read_slice mem' a n = read_slice mem a n).
Proof.
  intros Hb Hf Hg Hfits. pose proof (proj1 Hfits) as Hs. pose proof (good_request_len _ _ _ _ _ _ Hg) as Hlen.
  unfold serve_chain. rewrite (good_request_status _ _ _ _ _ _ Hg), (good_request_read _ _ _ _ _ _ _ Hg).
  destruct Hg as [_ _ _ [_ Hin] (_ & _ & Hst) [Hap Hoff]].
  change ((VIRTIO_BLK_T_IN =? VIRTIO_BLK_T_DISCARD) || (VIRTIO_BLK_T_IN =? VIRTIO_BLK_T_WRITE_ZEROES)) with false.
  change ((VIRTIO_BLK_T_IN =? VIRTIO_BLK_T_IN) || (VIRTIO_BLK_T_IN =? VIRTIO_BLK_T_OUT)) with true. cbv iota zeta.
  destruct (transfer_request_fits b mem VIRTIO_BLK_T_IN sector (desc_lens data) data) as [Hfit ->]; [done..|lia|done|].
  destruct (transfer_read_done data (MkFile (disk_bytes b) (sector * 512) (f_faults (disk b))) mem 0)
    as (m1 & Hsc & ->); cbn [f_data f_pos f_faults]; try done; try lia.
  cbn [f_data f_pos] in Hsc. apply scatter_spec in Hsc as (R & G & O); [|done|done|rewrite zlen_slice; lia].
  destruct (status_written m1 (d_addr status) VIRTIO_BLK_S_OK) as [S1 S2]; [done|by rewrite R|].
  eexists _, _. split_and!.
  - rewrite wrap_small by (unfold in_width; lia). by rewrite Z.add_0_l.
  - erewrite gather_apart; [exact G|exact S2|by eapply descs_in_eq|done].
  - exact S1.
  - done.
  - intros a n Hn Ho1 Ho2. rewrite S2 by done. by apply O.
Qed.

(** C14: A well-formed write within the capacity of a writable disk without
    faults puts the bytes of the guest's buffers, in order, into the sectors
    it names, changes no other byte of the disk and of memory only the
    status byte, which is zero. *)
Theorem block_write_lands b mem sector header data status :
  block_ok b -> read_only b = false -> f_faults (disk b) = [] ->
  good_request mem VIRTIO_BLK_T_OUT sector header data status -> fits_disk b sector (desc_lens data) ->
  exists b' mem' bs, gather mem data [] = Some bs /\
    serve_chain b mem (header :: data ++ [status]) = (1, b', mem') /\
    disk_bytes b' = ztake (sector * 512) (disk_bytes b) ++ bs ++ zdrop (sector * 512 + zlen bs) (disk_bytes b) /\
    zlen bs = desc_lens data /\
    read_slice mem' (d_addr status) 1 = Some (le_bytes 1 VIRTIO_BLK_S_OK) /\
    (forall a n, 0 <= n -> off_range (d_addr status) 1 a n -> read_slice mem' a n = read_slice mem a n).
Proof.
  intros Hb Hro Hf Hg Hfits. pose proof (proj1 Hfits) as Hs. pose proof (good_request_len _ _ _ _ _ _ Hg) as Hlen.
  unfold serve_chain. rewrite (good_request_status _ _ _ _ _ _ Hg), (good_request_read _ _ _ _ _ _ _ Hg).
  destruct Hg as [_ _ _ [_ Hin] (_ & _ & Hst) [Hap Hoff]].
  change ((VIRTIO_BLK_T_OUT =? VIRTIO_BLK_T_DISCARD) || (VIRTIO_BLK_T_OUT =? VIRTIO_BLK_T_WRITE_ZEROES)) with false.
  change ((VIRTIO_BLK_T_OUT =? VIRTIO_BLK_T_IN) || (VIRTIO_BLK_T_OUT =? VIRTIO_BLK_T_OUT)) with true. cbv iota zeta.
  destruct (transfer_request_fits b mem VIRTIO_BLK_T_OUT sector (desc_lens data) data) as [Hfit ->];
    [done|by rewrite Hro|lia|done|].
  destruct (gather_ok mem data Hin) as [bs Hbs]. pose proof (gather_len _ _ _ Hin Hbs) as Hz.
  rewrite (transfer_write_done VIRTIO_BLK_T_OUT mem 0 data _ bs); cbn [f_data f_pos f_faults]; try done; try lia.
  destruct (status_written mem (d_addr status) VIRTIO_BLK_S_OK) as [S1 S2]; [done|done|].
  eexists _, _, bs. split; [done|]. split; [reflexivity|].
  split_and!; [apply splice_in; [lia|by rewrite Hz]|done|exact S1|exact S2].
Qed.
End requests.

(** ** Examples *)

(** A request's header, in front of a buffer of one sector and the status. *)
Definition demo_header (kind sector : Z) : bytes := le_bytes 4 kind ++ le_bytes 4 0 ++ le_bytes 8 sector.
Definition demo_guest (kind sector : Z) : Flat := demo_header kind sector ++ replicate 512 x2a ++ [xff].
Definition demo_disk (ro : bool) : BlockBackend := BlockBackend_new (MkFile (replicate 512 x11 ++ replicate 512 x22) 0 []) ro.
Definition demo_h : VringDesc := MkDesc 0 16 VRING_DESC_F_NEXT 1.
Definition demo_in : list VringDesc := [MkDesc 16 200 3 2; MkDesc 216 312 3 3].
Definition demo_out : list VringDesc := [MkDesc 16 200 1 2; MkDesc 216 312 1 3].
Definition demo_status : VringDesc := MkDesc 528 1 VRING_DESC_F_WRITE 0.

Lemma demo_disk_ok ro : block_ok (demo_disk ro).
Proof. split; vm_compute; congruence. Qed.

Lemma demo_read : good_request (demo_guest VIRTIO_BLK_T_IN 1) VIRTIO_BLK_T_IN 1 demo_h demo_in demo_status.
Proof.
  split.
  - done.
  - eexists. split; [vm_compute; reflexivity|done].
  - vm_compute. congruence.
  - split; repeat constructor; vm_compute; congruence.
  - split_and!; vm_compute; congruence.
  - split; [split; [|split; [constructor|done]]|]; repeat constructor; unfold off_range; vm_compute; intuition congruence.
Qed.

Lemma demo_write : good_request (demo_guest VIRTIO_BLK_T_OUT 1) VIRTIO_BLK_T_OUT 1 demo_h demo_out demo_status.
Proof.
  split.
  - done.
  - eexists. split; [vm_compute; reflexivity|done].
  - vm_compute. congruence.
  - split; repeat constructor; vm_compute; congruence.
  - split_and!; vm_compute; congruence.
  - split; [split; [|split; [constructor|done]]|]; repeat constructor; unfold off_range; vm_compute; intuition congruence.
Qed.

(** The second sector reaches the two buffers. *)
Lemma block_read_delivers_witness :
  exists b' mem', serve_chain (demo_disk true) (demo_guest VIRTIO_BLK_T_IN 1) (demo_h :: demo_in ++ [demo_status]) = (513, b', mem') /\
    gather mem' demo_in [] = Some (replicate 512 x22).
Proof.
  destruct (block_read_delivers (M := Flat) (demo_disk true) (demo_guest VIRTIO_BLK_T_IN 1) 1 demo_h demo_in demo_status)
    as (b' & mem' & H1 & H2 & _).
  - apply demo_disk_ok.
  - reflexivity.
  - apply demo_read.
  - split_and!; vm_compute; congruence.
  - exists b', mem'. split; [exact H1|]. exact H2.
Defined.

(** The two buffers become the second sector. *)
Lemma block_write_lands_witness :
  exists b' mem', serve_chain (demo_disk false) (demo_guest VIRTIO_BLK_T_OUT 1) (demo_h :: demo_out ++ [demo_status]) = (1, b', mem') /\
    disk_bytes b' = replicate 512 x11 ++ replicate 512 x2a.
Proof.
  destruct (block_write_lands (M := Flat) (demo_disk false) (demo_guest VIRTIO_BLK_T_OUT 1) 1 demo_h demo_out demo_status)
    as (b' & mem' & bs & H0 & H1 & H2 & _).
  - apply demo_disk_ok.
  - reflexivity.
  - reflexivity.
  - apply demo_write.
  - split_and!; vm_compute; congruence.
  - exists b', mem'. split; [exact H1|]. vm_compute in H0. injection H0 as <-. rewrite H2. vm_compute. reflexivity.
Defined.
