(* ===== verification/BlockDevice.v ===== *)
(** * The block device under any guest

    Discards zero exactly the ranges they name; chains are the descriptors the
    guest linked; a kicked queue is drained; and whatever the guest writes,
    and whichever file call fails, the disk keeps its size and a read-only
    disk its bytes. *)

From Stdlib Require Import Strings.Byte.
From S2P Require Import Prelude Vsock Queue Virtio VirtioProofs Block BlockProofs.

(** ** Ranges of a discard *)

(** A range as the guest describes it, in sectors, and as bytes. *)
Record SectorRange := MkRange { r_sector : Z; r_count : Z; r_unmap : bool }.

Definition range_bytes (r : SectorRange) : bytes :=
  le_bytes 8 (r_sector r) ++ le_bytes 4 (r_count r) ++ le_bytes 4 (if r_unmap r then 1 else 0).

Definition range_span (r : SectorRange) : Z * Z * bool := (r_sector r * 512, r_count r * 512, r_unmap r).

Record range_ok (cap kind : Z) (r : SectorRange) : Prop := {
  rg_sector : 0 <= r_sector r;
  rg_count : 0 <= r_count r <= MAX_RANGE_SECTORS;
  rg_fits : r_sector r + r_count r <= cap;
  rg_unmap : kind = VIRTIO_BLK_T_DISCARD -> r_unmap r = false;
}.

Definition span_in (cap : Z) (s : Z * Z * bool) : Prop :=
  let '(offset, len, _) := s in 0 <= offset /\ 0 <= len /\ offset + len <= cap * 512.

Lemma decode_range_in bs cap kind s : decode_range bs cap kind = Ok s -> span_in cap s.
Proof.
  unfold decode_range. case_test; [done|]. case_test; [done|]. bool_to_prop.
  pose proof (le_val_range (zslice 0 8 bs)). pose proof (le_val_range (zslice 8 12 bs)).
  unfold checked_add, checked_mul. case_test; [|done]. cbn [option_bind mbind]. case_test; [|done]. cbn [option_bind mbind].
  case_test; [|done]. intros [= <-]. unfold span_in. lia.
Qed.

Lemma decode_loop_in cap kind n : forall payload rs rs',
  Forall (span_in cap) rs -> decode_loop n payload cap kind rs = Ok rs' -> Forall (span_in cap) rs'.
Proof.
  induction n as [|n IH]; intros payload rs rs' Hrs; cbn [decode_loop]; [by intros [= <-]|].
  destruct (decode_range _ _ _) as [r|] eqn:E; [|done]. cbn. apply IH, Forall_app. split; [done|].
  constructor; [by eapply decode_range_in|constructor].
Qed.

Lemma decode_range_ok cap kind r :
  cap * 512 < 2 ^ 63 -> range_ok cap kind r -> decode_range (range_bytes r) cap kind = Ok (range_span r).
Proof.
  intros Hcap [Hs Hc Hf Hu]. unfold MAX_RANGE_SECTORS in Hc. unfold decode_range, range_bytes.
  assert (in_width 32 (if r_unmap r then 1 else 0)) as Hfl by (unfold in_width; destruct (r_unmap r); lia).
  set (fl := if r_unmap r then 1 else 0) in *.
  assert (zslice 12 16 (le_bytes 8 (r_sector r) ++ le_bytes 4 (r_count r) ++ le_bytes 4 fl) = le_bytes 4 fl) as ->.
  { rewrite app_assoc, <-(app_nil_r (le_bytes 4 fl)). by apply zslice_middle. }
  rewrite zslice_app_exact, (zslice_middle 8 12) by done. rewrite !le_val_small by (done || unfold in_width; lia).
  assert (((kind =? VIRTIO_BLK_T_DISCARD) && negb (fl =? 0)) || has_bits fl (lnot_w 32 1) = false) as ->.
  { unfold fl. destruct (r_unmap r) eqn:Er; [|by rewrite andb_false_r]. destruct (Z.eqb_spec kind VIRTIO_BLK_T_DISCARD); [|done].
    by specialize (Hu e). }
  unfold MAX_RANGE_SECTORS. destruct (Z.ltb_spec (2 * 1024 * 1024) (r_count r)); [lia|].
  destruct (Z.ltb_spec cap (r_sector r)); [lia|]. destruct (Z.ltb_spec (cap - r_sector r) (r_count r)); [lia|].
  cbn [orb]. unfold checked_add, checked_mul. destruct (Z.ltb_spec (r_sector r + r_count r) (2 ^ 64)); [|lia].
  cbn [option_bind mbind]. destruct (Z.ltb_spec ((r_sector r + r_count r) * 512) (2 ^ 64)); [|lia].
  cbn [option_bind mbind]. destruct (Z.ltb_spec ((r_sector r + r_count r) * 512) (2 ^ 63)); [|lia].
  unfold range_span. do 3 f_equal; [lia|by destruct (r_unmap r)].
Qed.

Lemma zlen_range_bytes r : zlen (range_bytes r) = 16.
Proof. done. Qed.

Lemma decode_loop_ok cap kind rs : forall acc,
  cap * 512 < 2 ^ 63 -> Forall (range_ok cap kind) rs ->
  decode_loop (length rs) (concat (map range_bytes rs)) cap kind acc = Ok (acc ++ map range_span rs).
Proof.
  induction rs as [|r rs IH]; intros acc Hcap HF; cbn [length map concat decode_loop]; [by rewrite app_nil_r|].
  apply Forall_cons in HF as [Hr HF]. rewrite ztake_app_exact, zdrop_app_exact by done.
  rewrite decode_range_ok by done. cbn. rewrite IH by done. by rewrite <-app_assoc.
Qed.

Lemma zlen_ranges rs : zlen (concat (map range_bytes rs)) = 16 * zlen rs.
Proof. induction rs as [|r rs IH]; [done|]. cbn [map concat]. rewrite zlen_app, IH, zlen_cons, zlen_range_bytes. lia. Qed.

Lemma decode_ranges_ok cap kind rs :
  cap * 512 < 2 ^ 63 -> 1 <= zlen rs <= MAX_RANGES -> Forall (range_ok cap kind) rs ->
  decode_ranges (concat (map range_bytes rs)) cap kind = Ok (map range_span rs).
Proof.
  intros Hcap Hn HF. unfold decode_ranges. rewrite zlen_ranges, (Z.mul_comm 16), Z_mod_mult, Z_div_mult by lia.
  rewrite bool_decide_eq_false_2; cbn [orb negb Z.eqb].
  - destruct (Z.ltb_spec MAX_RANGES (zlen rs)); [lia|]. unfold zlen. rewrite Nat2Z.id. by apply (decode_loop_ok _ _ _ []).
  - intros E. apply (f_equal zlen) in E. rewrite zlen_ranges in E. change (zlen (@nil byte)) with 0 in E. lia.
Qed.

(** ** Zeroed ranges *)

(** What a disk becomes when the spans are zeroed. *)
Definition zeroed (spans : list (Z * Z * bool)) (data data' : bytes) : Prop :=
  zlen data' = zlen data /\
  forall i, znth data' i =
    if existsb (fun '(offset, len, _) => (offset <=? i) && (i <? offset + len)) spans then Some x00 else znth data i.

Lemma splice_zeroes data offset len i :
  0 <= offset -> 0 <= len -> offset + len <= zlen data ->
  znth (splice data offset (replicate (Z.to_nat len) x00)) i =
  if (offset <=? i) && (i <? offset + len) then Some x00 else znth data i.
Proof.
  intros Ho Hl Hf. assert (zlen (replicate (Z.to_nat len) x00) = len) as Hz by (rewrite zlen_replicate; lia).
  case_test; bool_to_prop.
  - rewrite splice_in by lia. unfold znth. destruct (Z.ltb_spec i 0); [lia|]. unfold ztake, zdrop, zlen in *.
    rewrite lookup_app_r by (rewrite length_take; lia). rewrite length_take.
    rewrite lookup_app_l by lia. apply lookup_replicate_2. lia.
  - apply splice_outside; lia.
Qed.

Lemma zero_ranges_done cap spans : forall f,
  f_faults f = [] -> cap * 512 <= zlen (f_data f) -> Forall (span_in cap) spans ->
  exists f', zero_ranges f spans = (true, f') /\ zeroed spans (f_data f) (f_data f').
Proof.
  induction spans as [|[[offset len] u] spans IH]; intros f Hf Hcap HF; cbn [zero_ranges]; [by exists f|].
  apply Forall_cons in HF as [(Ho & Hl & Hin) HF]. case_test; bool_to_prop.
  - subst len. destruct (IH f) as (f' & -> & Hz & Hi); try done. exists f'. split; [done|]. split; [done|].
    intros i. rewrite Hi. cbn [existsb]. destruct (Z.leb_spec offset i), (Z.ltb_spec i (offset + 0)); [lia|done..].
  - unfold fallocate. rewrite next_fault_none by done. rewrite zero_range_splice by lia.
    set (f1 := MkFile _ _ _). assert (zlen (f_data f1) = zlen (f_data f)) as E1.
    { cbn. apply zlen_splice; rewrite ?zlen_replicate; lia. }
    destruct (IH f1) as (f' & -> & Hz & Hi); [done|lia|done|]. exists f'. split; [done|]. split; [lia|].
    intros i. rewrite Hi. cbn [existsb f_data f1]. rewrite splice_zeroes by lia.
    by destruct (existsb _ spans), ((offset <=? i) && (i <? offset + len)).
Qed.

(** Whatever fails, zeroing stays within the capacity. *)
Lemma zero_ranges_len cap spans : forall f ok f',
  cap * 512 <= zlen (f_data f) -> Forall (span_in cap) spans ->
  zero_ranges f spans = (ok, f') -> zlen (f_data f') = zlen (f_data f).
Proof.
  induction spans as [|[[offset len] u] spans IH]; intros f ok f' Hcap HF; cbn [zero_ranges]; [by intros; simplify_eq|].
  apply Forall_cons in HF as [(Ho & Hl & Hin) HF]. case_test; [by apply IH|].
  destruct (fallocate f offset len) as [ok1 f1] eqn:Ef.
  assert (zlen (f_data f1) = zlen (f_data f)) as E1.
  { unfold fallocate in Ef. destruct (next_fault f) as [fault f2] eqn:En. apply next_fault_data in En as [En _].
    destruct fault; simplify_eq/=; rewrite En; apply zlen_zero_range; lia. }
  destruct ok1; intros H; [|by simplify_eq]. apply IH in H; [lia|lia|done].
Qed.

(** ** Any request *)

(** Descriptors as they are read from memory. *)
Definition desc_natural (d : VringDesc) : Prop := 0 <= d_addr d /\ 0 <= d_len d.

(** Nothing of these changes but the bytes of a writable disk. *)
Record block_kept (b b' : BlockBackend) : Prop := {
  kp_capacity : capacity b' = capacity b;
  kp_read_only : read_only b' = read_only b;
  kp_size : zlen (disk_bytes b') = zlen (disk_bytes b);
  kp_bytes : read_only b = true -> disk_bytes b' = disk_bytes b;
}.

#[export] Instance block_kept_preorder : PreOrder block_kept.
Proof.
  split; [by split|]. intros b1 b2 b3 [C1 R1 S1 B1] [C2 R2 S2 B2].
  split; [congruence..|]. intros H. rewrite B2 by congruence. auto.
Qed.

Lemma block_kept_ok b b' : block_kept b b' -> block_ok b -> block_ok b'.
Proof.
  intros [C R S _] [H1 H2 H3]. unfold disk_bytes in S. split; rewrite ?C, ?S; done.
Qed.

Lemma disk_kept_same b f : f_data f = disk_bytes b -> block_kept b (set_disk b f).
Proof. intros E. split; cbn; try done. unfold disk_bytes in *. cbn. by rewrite E. Qed.

Lemma disk_kept_written b f :
  read_only b = false -> zlen (f_data f) = zlen (disk_bytes b) -> block_kept b (set_disk b f).
Proof. intros Hr E. split; cbn; try done. by rewrite Hr. Qed.

Section device.
Context `{GM : GuestMemory M, GL : !GuestMemoryLaws M}.
Implicit Types (b : BlockBackend) (mem : M) (q : VirtioQueueState).

(** A discard or a write of zeroes, negotiated and well formed, with up to
    [MAX_RANGES] ranges within the capacity of a writable disk without
    faults, zeroes exactly the bytes of those ranges and reports success. *)
Theorem block_discard_zeroes b mem kind rs header data status :
  block_ok b -> read_only b = false -> f_faults (disk b) = [] ->
  kind = VIRTIO_BLK_T_DISCARD /\ Z.testbit (negotiated b) 13 = true \/
  kind = VIRTIO_BLK_T_WRITE_ZEROES /\ Z.testbit (negotiated b) 14 = true ->
  good_request mem kind 0 header data status ->
  gather mem data [] = Some (concat (map range_bytes rs)) ->
  1 <= zlen rs <= MAX_RANGES -> Forall (range_ok (capacity b) kind) rs ->
  exists b' mem', serve_chain b mem (header :: data ++ [status]) = (1, b', mem') /\
    zeroed (map range_span rs) (disk_bytes b) (disk_bytes b') /\
    read_slice mem' (d_addr status) 1 = Some (le_bytes 1 VIRTIO_BLK_S_OK).
Proof.
  intros Hb Hro Hf Hkind Hg Hgather Hn HF. pose proof Hb as [Hc Hfit Hfile].
  unfold serve_chain. rewrite (good_request_status _ _ _ _ _ _ Hg), (good_request_read _ _ _ _ _ _ _ Hg).
  destruct Hg as [_ _ _ [_ Hin] (_ & _ & Hst) _]. pose proof (gather_len _ _ _ Hin Hgather) as Hlen.
  rewrite zlen_ranges in Hlen.
  assert ((kind =? VIRTIO_BLK_T_DISCARD) || (kind =? VIRTIO_BLK_T_WRITE_ZEROES) = true) as ->
    by (by destruct Hkind as [[-> _]|[-> _]]). cbv zeta.
  unfold discard_request. rewrite Hro, <-Hlen, (Z.mul_comm 16), Z_mod_mult. unfold MAX_RANGES in *.
  destruct (Z.eqb_spec (zlen rs * 16) 0); [lia|]. destruct (Z.ltb_spec (32 * 16) (zlen rs * 16)); [lia|]. cbn [orb negb Z.eqb].
  assert (has_bits (negotiated b) (Z.shiftl 1 (if kind =? VIRTIO_BLK_T_DISCARD then 13 else 14)) = true) as ->.
  { assert (forall k, 0 <= k -> Z.testbit (negotiated b) k = true -> has_bits (negotiated b) (Z.shiftl 1 k) = true) as Hbit.
    { intros k Hk Ht. unfold has_bits. destruct (Z.eqb_spec (Z.land (negotiated b) (Z.shiftl 1 k)) 0) as [E|]; [|done].
      apply (f_equal (fun z => Z.testbit z k)) in E. rewrite Z.land_spec, Z.shiftl_spec, Z.sub_diag, Ht, Z.bits_0 in E by done. done. }
    destruct Hkind as [[-> Ht]|[-> Ht]]; apply Hbit; done. }
  cbn [negb]. rewrite Hgather, decode_ranges_ok by (done || lia).
  destruct (zero_ranges_done (capacity b) (map range_span rs) (disk b)) as (f' & -> & Hz); [done..| |].
  { apply Forall_map. eapply Forall_impl; [exact HF|]. intros r []. unfold span_in, range_span. cbn. lia. }
  destruct (status_written mem (d_addr status) VIRTIO_BLK_S_OK) as [S1 _]; [done|done|].
  eexists _, _. split; [reflexivity|]. split; [exact Hz|exact S1].
Qed.

Lemma removelast_Forall {A} (P : A -> Prop) l : Forall P l -> Forall P (removelast l).
Proof. induction 1 as [|x [|y l] Hx _ IH]; cbn; constructor; done. Qed.

Lemma discard_kept b mem kind sector total data r b' :
  block_ok b -> discard_request b mem kind sector total data = (r, b') -> block_kept b b'.
Proof.
  intros Hb. unfold discard_request. case_test; [by intros; simplify_eq|]. bool_to_prop.
  case_test; [by intros; simplify_eq|]. destruct (gather mem data []) as [payload|]; [|by intros; simplify_eq].
  destruct (decode_ranges payload (capacity b) kind) as [ranges|e] eqn:E; [|by intros; simplify_eq].
  destruct (zero_ranges (disk b) ranges) as [ok f] eqn:Ez. intros; simplify_eq.
  apply disk_kept_written; [tauto|]. eapply zero_ranges_len; [apply Hb| |exact Ez].
  unfold decode_ranges in E. case_test_in E; [done|]. by eapply decode_loop_in in E.
Qed.

Lemma transfer_request_kept b mem kind sector data r b' mem' :
  block_ok b -> kind = VIRTIO_BLK_T_IN \/ kind = VIRTIO_BLK_T_OUT -> 0 <= sector -> Forall (desc_in mem) data ->
  transfer_request b mem kind sector (desc_lens data) data = (r, b', mem') -> block_kept b b'.
Proof.
  intros Hb Hk Hs Hin. unfold transfer_request. case_test; [by intros; simplify_eq|].
  case_test; [by intros; simplify_eq|]. bool_to_prop. pose proof (desc_lens_nonneg _ _ Hin).
  destruct (sectors_in b sector (desc_lens data)) as (Hfit & _ & ->); [done..|lia|].
  destruct (transfer _ _ _ _ _) as [[w f] m1] eqn:Et. intros; simplify_eq. destruct Hk as [->| ->].
  - apply transfer_read_data in Et. by apply disk_kept_same.
  - apply transfer_kept in Et as [_ [Hz _]]; [|done|done|cbn; lia|done]. apply disk_kept_written; [by destruct Heqb0|done].
Qed.

Lemma request_kept b mem ch r b' mem' :
  block_ok b -> Forall desc_natural ch -> request b mem ch = (r, b', mem') -> block_kept b b'.
Proof.
  intros Hb Hch. unfold request. destruct ch as [|header [|d rest]]; [by intros; simplify_eq..|].
  case_test; [by intros; simplify_eq|]. destruct (read_slice mem (d_addr header) 16) as [bs|]; [|by intros; simplify_eq].
  destruct (check_data _ _ _ _) as [total|] eqn:Ec; [|by intros; simplify_eq].
  apply check_data_spec in Ec as [-> Hok]. rewrite Z.add_0_l.
  assert (Forall (desc_in mem) (removelast (d :: rest))) as Hin.
  { apply Forall_cons in Hch as [_ Hch%removelast_Forall]. apply Forall_forall. intros x Hx.
    destruct (proj1 (Forall_forall _ _) Hch x Hx). destruct (proj1 (Forall_forall _ _) Hok x Hx) as (_ & _ & ?). done. }
  case_test.
  { destruct (discard_request _ _ _ _ _ _) as [r1 b1] eqn:Ed. intros; simplify_eq. by eapply discard_kept. }
  case_test; [|by intros; simplify_eq]. rewrite orb_true_iff, !Z.eqb_eq in *. by apply transfer_request_kept; [| |apply le_val_range|].
Qed.

Lemma serve_chain_kept b mem ch : block_ok b -> Forall desc_natural ch -> block_kept b (serve_chain b mem ch).1.2.
Proof.
  intros Hb Hch. unfold serve_chain. destruct (status_desc mem ch); [|done].
  destruct (request b mem ch) as [[r b'] mem'] eqn:E. apply request_kept in E; [|done..]. by destruct r.
Qed.

(** ** Chains *)

(** [idxs] are the descriptors the guest linked from [next]. *)
Fixpoint linked q mem (flags next : Z) (idxs : list Z) : Prop :=
  match idxs with
  | [] => False
  | i :: rest =>
      let d := read_desc mem (vq_desc q) i in
      i = next /\ i < vq_size q /\ has_bits (d_flags d) (lnot_w 16 flags) = false /\
      if has_bits (d_flags d) VRING_DESC_F_NEXT then linked q mem flags (d_next d) rest else rest = []
  end.

Lemma read_or_zero_nonneg mem n a : 0 <= read_or_zero mem n a.
Proof. unfold read_or_zero. destruct (read_slice mem a n); [|done]. apply le_val_range. Qed.

Lemma read_desc_natural mem a i : desc_natural (read_desc mem a i) /\ 0 <= d_next (read_desc mem a i).
Proof. unfold desc_natural. split_and!; apply read_or_zero_nonneg. Qed.

Lemma chain_loop_spec q mem flags fuel : forall next seen acc ds,
  0 <= next -> NoDup seen -> Forall (fun i => 0 <= i < vq_size q) seen -> 0 <= vq_size q < zlen seen + Z.of_nat fuel ->
  chain_loop fuel q mem next flags seen acc = Some ds <->
  exists idxs, linked q mem flags next idxs /\ NoDup idxs /\ (forall i, i ∈ idxs -> i ∉ seen) /\
    ds = acc ++ map (read_desc mem (vq_desc q)) idxs.
Proof.
  induction fuel as [|fuel IH]; intros next seen acc ds Hnext Hnd HF Hfuel.
  { pose proof (in_range_length _ _ Hnd HF ltac:(lia)). lia. }
  cbn [chain_loop]. set (d := read_desc mem (vq_desc q) next).
  case_test; bool_to_prop.
  { split; [done|]. intros ([|i idxs] & Hl & _ & Hs & _); [done|]. destruct Hl as (-> & Hlt & _).
    destruct Heqb as [H|H]; bool_to_prop; [lia|]. exfalso. by apply (Hs next); [left|]. }
  case_test.
  { split; [done|]. intros ([|i idxs] & Hl & _); [done|]. destruct Hl as (-> & _ & Hf & _). fold d in Hf. congruence. }
  destruct (has_bits (d_flags d) VRING_DESC_F_NEXT) eqn:En; cbn [negb].
  - rewrite IH; [|apply read_desc_natural|by constructor|by constructor; [lia|]|rewrite zlen_cons; lia]. split.
    + intros (idxs & Hl & Hn & Hs & ->). exists (next :: idxs). cbn [linked]. fold d. rewrite En. split_and!; try done.
      * constructor; [|done]. intros Hin. apply (Hs next Hin). left.
      * intros i [->|Hi]%elem_of_cons; [done|]. intros Hi'. apply (Hs i Hi). by right.
      * by rewrite <-app_assoc.
    + intros ([|i idxs] & Hl & Hn & Hs & ->); [done|]. destruct Hl as (-> & _ & _ & Hl). fold d in Hl. rewrite En in Hl.
      apply NoDup_cons in Hn as [Hn1 Hn]. exists idxs. split_and!; try done.
      * intros i Hi [->|Hi']%elem_of_cons; [done|]. by apply (Hs i); [right|].
      * by rewrite <-app_assoc.
  - split.
    + intros [= <-]. exists [next]. cbn [linked]. fold d. rewrite En. split_and!; try done.
      * constructor; [|constructor]. apply not_elem_of_nil.
      * by intros i ->%list_elem_of_singleton.
    + intros ([|i idxs] & Hl & _ & _ & ->); [done|]. destruct Hl as (-> & _ & _ & Hl). fold d in Hl. rewrite En in Hl.
      by subst.
Qed.

(** C32: A chain is served exactly when following the guest's links from its
    head passes only descriptors within the ring with allowed flags, none
    twice, and ends; it is then those descriptors in order. *)
Theorem chain_is_what_guest_linked q mem head flags ds :
  queue_ok q -> 0 <= head ->
  chain q mem head flags = Some ds <->
  exists idxs, linked q mem flags head idxs /\ NoDup idxs /\ ds = map (read_desc mem (vq_desc q)) idxs.
Proof.
  intros [Hm Hs _ _ _ _] Hh. unfold chain. unfold MAX_QUEUE_SIZE in *.
  rewrite chain_loop_spec; [|done|apply NoDup_nil_2|by apply Forall_nil_2|change (zlen (@nil Z)) with 0; lia].
  split; intros (idxs & Hl & Hn & H); exists idxs.
  - destruct H as [_ ->]. done.
  - split_and!; try done. intros i _. apply not_elem_of_nil.
Qed.

(** A chain is made of descriptors of the table. *)
Lemma chain_Forall (P : VringDesc -> Prop) q mem head flags ds :
  (forall i, P (read_desc mem (vq_desc q) i)) -> chain q mem head flags = Some ds -> Forall P ds.
Proof.
  intros HP. unfold chain. assert (Forall P []) as H by constructor. revert H.
  generalize (@nil VringDesc) as acc, (@nil Z) as seen, head, (S (Z.to_nat MAX_QUEUE_SIZE)) as fuel.
  intros acc seen next fuel. revert acc seen next.
  induction fuel as [|fuel IH]; intros acc seen next Hacc; cbn [chain_loop]; [done|].
  case_test; [done|]. case_test; [done|].
  assert (Forall P (acc ++ [read_desc mem (vq_desc q) next])) as Hacc'.
  { apply Forall_app. split; [done|]. constructor; [apply HP|constructor]. }
  case_test; [by intros [= <-]|]. by apply IH.
Qed.

Lemma chain_natural q mem head flags ds : chain q mem head flags = Some ds -> Forall desc_natural ds.
Proof. apply chain_Forall. intros i. apply read_desc_natural. Qed.

(** ** Queues *)

Lemma serve_head_kept b q mem head : block_ok b -> block_kept b (serve_head b q mem head).1.2.
Proof.
  intros Hb. unfold serve_head. apply serve_chain_kept; [done|].
  destruct (chain _ _ _ _) as [ds|] eqn:E; [by apply chain_natural in E|constructor].
Qed.

(** A kicked block queue is drained: every request that was available is
    served, in ring order, and the device stands at the guest's index; the
    loop ends whatever the guest writes meanwhile, and the driver is told
    when anything was served. *)
Theorem block_queue_drained b i q qs mem current :
  queue_ok q -> pending q mem = Some current ->
  exists b' mem', block_process_queue b i (q :: qs) mem =
    (negb (vq_last_avail q =? current), b', set_last_avail q current :: qs, mem') /\
    (forall mem2, avail_idx mem2 (vq_avail q) = current ->
       match pending (set_last_avail q current) mem2 with Some c => c = current | None => True end).
Proof.
  intros Hq Hp. pose proof (ring_serve_drains serve_head b q mem current Hq Hp) as (b' & mem' & E).
  unfold block_process_queue. rewrite E. exists b', mem'. split; [done|].
  intros mem2 E2. unfold pending. cbn. rewrite E2. by repeat case_test.
Qed.

Lemma process_queue_kept b i qs mem : block_ok b -> block_kept b (block_process_queue b i qs mem).1.1.2.
Proof.
  intros Hb. unfold block_process_queue. destruct qs as [|q qs]; [done|].
  pose proof (ring_serve_keeps serve_head (fun b' => block_kept b b')
    (fun b' q mem head H => transitivity H (serve_head_kept b' q mem head (block_kept_ok _ _ H Hb))) b q mem
    (reflexivity b)) as Hk.
  by destruct (ring_serve _ _ _ _) as [[[used b'] q'] mem'].
Qed.

#[export] Instance block_laws : VirtioLaws BlockBackend M.
Proof.
  split; [done|]. intros b i qs mem used b' qs' mem'. cbn [process_queue block_backend].
  unfold block_process_queue. destruct qs as [|q qs]; [intros; simplify_eq; apply same_rings|].
  pose proof (ring_serve_ring serve_head b q mem) as Hr.
  destruct (ring_serve _ _ _ _) as [[[u1 b1] q1] m1]. intros; simplify_eq. constructor; [done|apply same_rings].
Qed.

(** ** Under the transport *)

Lemma block_new_ok f ro : zlen (f_data f) < 2 ^ 63 -> block_ok (BlockBackend_new f ro).
Proof.
  intros Hf. pose proof (zlen_nonneg (f_data f)). split; cbn; [by apply Z.div_pos| |done].
  pose proof (Z.div_mod (zlen (f_data f)) 512). pose proof (Z.mod_pos_bound (zlen (f_data f)) 512). lia.
Qed.

Lemma kept_backend b0 : block_ok b0 -> backend_keeps (M := M) (block_kept b0).
Proof.
  intros H0. split; cbn; intros; try done.
  - etrans; [done|]. by split.
  - etrans; [done|]. apply process_queue_kept. by eapply block_kept_ok.
  - etrans; [done|]. by split.
Qed.

(** C11: Whatever a guest does through the transport (register writes,
    requests, changes of its memory at any time) and whichever file calls
    fail, the disk file keeps its size and the device its capacity, and a
    read-only disk keeps every byte. *)
Theorem disk_survives_guest f ro mem evs :
  zlen (f_data f) < 2 ^ 63 ->
  let b := c_backend (core (dev_run (M := M) evs (Device_new (BlockBackend_new f ro), mem)).1) in
  zlen (disk_bytes b) = zlen (f_data f) /\ capacity b = zlen (f_data f) / 512 /\ read_only b = ro /\
  (ro = true -> disk_bytes b = f_data f).
Proof.
  intros Hf b. pose proof (block_new_ok f ro Hf) as H0.
  assert (block_kept (BlockBackend_new f ro) b) as [C R S B]; [|done].
  apply (dev_run_keeps (block_kept (BlockBackend_new f ro))); [by apply kept_backend|done].
Qed.
End device.

(** ** Examples *)

(** A discard of the first of two sectors. *)
Definition demo_range : SectorRange := MkRange 0 1 false.
Definition demo_discard : Flat := demo_header VIRTIO_BLK_T_DISCARD 0 ++ range_bytes demo_range ++ [xff].
Definition demo_ranges : list VringDesc := [MkDesc 16 16 1 2].
Definition demo_end : VringDesc := MkDesc 32 1 VRING_DESC_F_WRITE 0.
Definition demo_negotiated : BlockBackend := block_features_ok (demo_disk false) (Z.shiftl 1 13).

Lemma block_discard_zeroes_witness :
  exists b' mem', serve_chain demo_negotiated demo_discard (demo_h :: demo_ranges ++ [demo_end]) = (1, b', mem') /\
    zeroed [(0, 512, false)] (disk_bytes demo_negotiated) (disk_bytes b').
Proof.
  destruct (block_discard_zeroes (M := Flat) demo_negotiated demo_discard VIRTIO_BLK_T_DISCARD [demo_range]
              demo_h demo_ranges demo_end) as (b' & mem' & H1 & H2 & _).
  - split; vm_compute; congruence.
  - reflexivity.
  - reflexivity.
  - left. split; reflexivity.
  - split.
    + split; reflexivity.
    + eexists. split; [vm_compute; reflexivity|split; reflexivity].
    + vm_compute. congruence.
    + split; repeat constructor; vm_compute; congruence.
    + split_and!; vm_compute; congruence.
    + split; [split; [constructor|exact I]|]. repeat constructor; unfold off_range; vm_compute; intuition congruence.
  - vm_compute. reflexivity.
  - vm_compute. split; congruence.
  - repeat constructor; vm_compute; congruence.
  - exists b', mem'. split; [exact H1|exact H2].
Defined.

(** A ring of two descriptors at 0, its rings at 32 and 64; one request is
    available, two linked descriptors. *)
Definition demo_ring : Flat :=
  (le_bytes 8 100 ++ le_bytes 4 16 ++ le_bytes 2 1 ++ le_bytes 2 1) ++
  (le_bytes 8 116 ++ le_bytes 4 1 ++ le_bytes 2 2 ++ le_bytes 2 0) ++
  (le_bytes 2 0 ++ le_bytes 2 1 ++ replicate 28 x00) ++ replicate 64 x00.
Definition demo_vq : VirtioQueueState := MkVirtioQueue 256 2 true 0 32 64 0.

Lemma demo_vq_ok : queue_ok demo_vq.
Proof. split; vm_compute; intuition congruence. Qed.

Lemma chain_is_what_guest_linked_witness :
  exists idxs, linked demo_vq demo_ring 3 0 idxs /\ NoDup idxs /\
    [MkDesc 100 16 1 1; MkDesc 116 1 2 0] = map (read_desc demo_ring (vq_desc demo_vq)) idxs.
Proof.
  apply (proj1 (chain_is_what_guest_linked (M := Flat) demo_vq demo_ring 0 3 [MkDesc 100 16 1 1; MkDesc 116 1 2 0]
                  demo_vq_ok ltac:(vm_compute; congruence))).
  vm_compute. reflexivity.
Defined.

Lemma demo_pending : pending demo_vq demo_ring = Some 1.
Proof. vm_compute. reflexivity. Qed.

Lemma block_queue_drained_witness :
  exists b' mem', block_process_queue (demo_disk true) 0 [demo_vq] demo_ring =
    (negb (vq_last_avail demo_vq =? 1), b', [set_last_avail demo_vq 1], mem').
Proof.
  pose proof (block_queue_drained (M := Flat) (demo_disk true) 0 demo_vq [] demo_ring 1 demo_vq_ok demo_pending)
    as (b' & mem' & H & _).
  exact (ex_intro _ b' (ex_intro _ mem' H)).
Defined.

Lemma disk_survives_guest_witness :
  disk_bytes (c_backend (core (dev_run [EvWrite VIRTIO_MMIO_STATUS (le_bytes 4 15); EvKick 0; EvServe]
    (Device_new (demo_disk true), demo_ring)).1)) = disk_bytes (demo_disk true).
Proof.
  apply (disk_survives_guest (M := Flat) (disk (demo_disk true)) true demo_ring); [vm_compute; reflexivity|reflexivity].
Defined.

Lemma driver_gets_its_queue_witness :
  dev_run (setup_queue 0 2 0 32 (2 ^ 33 + 64)) (Device_new (demo_disk true), demo_ring) =
  (with_selected (Device_new (M := Flat) (demo_disk true)) 0 (MkVirtioQueue 256 2 true 0 32 (2 ^ 33 + 64) 0), demo_ring).
Proof.
  refine (driver_gets_its_queue (Device_new (M := Flat) (demo_disk true)) demo_ring 0 2 0 32 (2 ^ 33 + 64)
            (VirtioQueueState_new 256) _ _ _ _ _ _ _ _);
    [apply device_new_ok|vm_compute; intuition congruence..|reflexivity|vm_compute; intuition congruence].
Defined.

(** A device set up by its driver, with a request served and its interrupt
    pending, and its snapshot. *)
Definition demo_live : VirtioMmioDevice BlockBackend * Flat :=
  dev_run (setup_queue 0 2 0 32 64 ++ [EvWrite VIRTIO_MMIO_STATUS (le_bytes 4 15); EvKick 0; EvServe])
    (Device_new (demo_disk true), demo_ring).

Lemma snapshot_restores_witness :
  match Device_save demo_live.1 demo_live.2 with
  | (Ok s, d1, mem1) =>
      Device_restore (Device_new (demo_disk true)) mem1 s =
        Ok (MkDevice (set_backend (core d1) (block_features_ok (demo_disk true) 0)) (interrupt d1) [false] true) /\
      int_line (interrupt d1) = true
  | _ => False
  end.
Proof.
  destruct (Device_save demo_live.1 demo_live.2) as [[r d1] mem1] eqn:E.
  assert (device_ok demo_live.1) as Hd by apply dev_run_ok, device_new_ok.
  pose proof E as E'. vm_compute in E'. injection E' as Er Ed Em.
  destruct r as [s|]; [|discriminate Er]. subst d1.
  pose proof (snapshot_restores demo_live.1 demo_live.2 s _ mem1 (demo_disk true) Hd E ltac:(reflexivity) ltac:(reflexivity)) as H.
  injection Er as <-. split; [exact H|reflexivity].
Defined.

Lemma transport_well_formed_witness :
  device_ok (dev_run [EvWrite VIRTIO_MMIO_QUEUE_NUM (le_bytes 4 1000); EvWrite VIRTIO_MMIO_STATUS (le_bytes 4 15);
    EvKick 0; EvServe; EvMemory (replicate 8 xff); EvServe] (Device_new (demo_disk true), demo_ring)).1.
Proof. exact (transport_well_formed (B := BlockBackend) (M := Flat) (demo_disk true) demo_ring _). Defined.
