(* ===== verification/NetDevice.v ===== *)
(** * The virtio network device

    [NetBackend] of [crates/shuru-linux/src/kvm/devices.rs]: frames the guest
    queues go to the proxy's socket, frames the socket gives go into the
    guest's buffers by a thread of its own.

    [net_sent] holds every frame handed to [send], oldest first; [send] itself
    may drop one, as a network may. The receive thread is [RxThread]; it reads
    the used index when it starts to run. A pass of its loop that got a frame
    is [rx_frame]. *)

From Stdlib Require Import Strings.Byte.
From S2P Require Import Prelude Vsock Queue Virtio VirtioProofs Block BlockProofs BlockDevice.

Definition VIRTIO_NET_F_MAC : Z := Z.shiftl 1 5.
Definition VIRTIO_NET_HDR_SIZE : Z := 12.
Definition MAX_TX_FRAME : Z := VIRTIO_NET_HDR_SIZE + 14 + 65535.
(** [buf.len()] of the receive loop. *)
Definition RX_BUF : Z := 14 + 65535.

(** What the thread keeps: the ring as it was when the thread was started,
    the next available entry, and the used index once read. *)
Record RxThread := MkRx { rt_queue : VirtioQueueState; rt_last : Z; rt_used : option Z }.

Record NetBackend := MkNet {
  mac : bytes;
  net_rx : option VirtioQueueState;
  rx_running : bool;
  rx_thread : option RxThread;
  net_sent : list bytes;
}.

Definition NetBackend_new (mac : bytes) : NetBackend := MkNet mac None false None [].

Section net.
Context `{GM : GuestMemory M}.
Implicit Types (b : NetBackend) (mem : M) (q : VirtioQueueState) (th : RxThread).

(** ** Sending *)

(** The bytes of a chain, or nothing when it is too long or outside memory. *)
Fixpoint tx_gather mem (ch : list VringDesc) (acc : bytes) : bytes :=
  match ch with
  | [] => acc
  | desc :: ch =>
      if MAX_TX_FRAME <? zlen acc + d_len desc then [] else
      match read_slice mem (d_addr desc) (d_len desc) with
      | None => []
      | Some bs => tx_gather mem ch (acc ++ bs)
      end
  end.

Definition serve_tx b q mem (head : Z) : Z * NetBackend * M :=
  let buf := tx_gather mem (default [] (chain q mem head VRING_DESC_F_NEXT)) [] in
  (0, if VIRTIO_NET_HDR_SIZE <? zlen buf
      then MkNet (mac b) (net_rx b) (rx_running b) (rx_thread b) (net_sent b ++ [zdrop VIRTIO_NET_HDR_SIZE buf])
      else b, mem).

Definition net_process_queue b (index : nat) (qs : list VirtioQueueState) mem
    : bool * NetBackend * list VirtioQueueState * M :=
  if negb (index =? 1)%nat then (false, b, qs, mem) else
  match qs !! 1%nat with
  | None => (false, b, qs, mem)
  | Some q => let '(used, b, q, mem) := ring_serve serve_tx b q mem in (used, b, <[1%nat := q]> qs, mem)
  end.

(** ** Receiving *)

Definition rx_used mem th : Z :=
  match rt_used th with
  | Some used => used
  | None => read_or_zero mem 2 (wrapping_add 64 (vq_used (rt_queue th)) 2)
  end.

(** A pass of [net_rx_loop] in which [recv] took [data]; whether it raised
    the interrupt. *)
Definition rx_frame th mem (data : bytes) : RxThread * M * bool :=
  let used := rx_used mem th in
  let q := rt_queue th in
  let last := rt_last th in
  let wait := (MkRx q last (Some used), mem, false) in
  let frame := ztake RX_BUF data in
  if bool_decide (frame = []) then wait else
  match pending (set_last_avail q last) mem with
  | None => wait
  | Some current =>
      if last =? current then wait else
      let head := avail_ring_entry mem (vq_avail q) (vq_size q) last in
      if vq_size q <=? head then (MkRx q (wrapping_add 16 last 1) (Some used), mem, false) else
      let desc := read_desc mem (vq_desc q) head in
      let total := VIRTIO_NET_HDR_SIZE + zlen frame in
      if has_bits (d_flags desc) VRING_DESC_F_WRITE && (total <=? d_len desc) then
        let mem := default mem (write_slice mem (d_addr desc) (replicate (Z.to_nat VIRTIO_NET_HDR_SIZE) x00)) in
        let mem := default mem (write_slice mem (wrapping_add 64 (d_addr desc) VIRTIO_NET_HDR_SIZE) frame) in
        let mem := write_used mem (vq_used q) (vq_size q) used head total in
        (MkRx q (wrapping_add 16 last 1) (Some (wrapping_add 16 used 1)), mem, vq_wants_interrupt q mem)
      else wait
  end.

Definition start_rx b : NetBackend :=
  match net_rx b with
  | None => b
  | Some q => MkNet (mac b) (net_rx b) true (Some (MkRx q (vq_last_avail q) None)) (net_sent b)
  end.

Definition net_start b (qs : list VirtioQueueState) : NetBackend :=
  let rx := match qs with q :: _ => if vq_ready q then Some q else None | [] => None end in
  start_rx (MkNet (mac b) rx (rx_running b) (rx_thread b) (net_sent b)).

Definition stop_rx b : NetBackend :=
  match rx_thread b with
  | None => MkNet (mac b) (net_rx b) false None (net_sent b)
  | Some th =>
      let rx := match net_rx b with Some q => Some (set_last_avail q (rt_last th)) | None => None end in
      MkNet (mac b) rx false None (net_sent b)
  end.

Definition net_reset b : NetBackend :=
  let b := stop_rx b in MkNet (mac b) None (rx_running b) (rx_thread b) (net_sent b).

Definition net_save b : result BackendState ErrorKind * NetBackend :=
  let b := stop_rx b in
  (Ok (BsNet (match net_rx b with Some q => vq_last_avail q | None => 0 end)), b).

Definition net_restore b (s : BackendState) (qs : list VirtioQueueState) : result NetBackend ErrorKind :=
  match s with
  | BsNet rx =>
      let qs := match qs with q :: qs => set_last_avail q rx :: qs | [] => [] end in
      Ok (net_start b qs)
  | _ => Err mismatch
  end.

Definition net_resume b : NetBackend :=
  match rx_thread b with None => start_rx b | Some _ => b end.

Definition net_config_read b (offset : Z) : Z :=
  if offset =? 0 then le_val (ztake 4 (mac b))
  else if offset =? 4 then le_val (zslice 4 6 (mac b)) else 0.

#[export] Instance net_backend : VirtioBackend NetBackend M := {
  device_id _ := 1;
  device_features _ := Z.lor VIRTIO_F_VERSION_1 VIRTIO_NET_F_MAC;
  queue_count _ := 2%nat;
  queue_max_size _ := 256;
  config_read := net_config_read;
  config_write b _ _ := b;
  features_ok b _ := b;
  activate b qs _ := net_start b qs;
  process_queue := net_process_queue;
  take_kicks _ := false;
  backend_reset := net_reset;
  backend_save := net_save;
  backend_restore b s qs _ := net_restore b s qs;
  backend_resume := net_resume;
}.
End net.

(** ** Properties *)

Section net_proofs.
Context `{GM : GuestMemory M, GL : !GuestMemoryLaws M}.
Implicit Types (b : NetBackend) (mem : M) (q : VirtioQueueState) (th : RxThread).

(** The frame in a chain: its bytes after the header, when there are any and
    they are no more than a frame may have. *)
Definition frame_of mem (ch : list VringDesc) : option bytes :=
  let! bs := gather mem ch [] in
  if (VIRTIO_NET_HDR_SIZE <? zlen bs) && (zlen bs <=? MAX_TX_FRAME) then Some (zdrop VIRTIO_NET_HDR_SIZE bs) else None.

Lemma gather_len_reads mem ch : forall acc bs,
  Forall desc_natural ch -> gather mem ch acc = Some bs -> zlen acc <= zlen bs.
Proof.
  induction ch as [|d ch IH]; intros acc bs Hd; cbn; [intros [= <-]; lia|]. apply Forall_cons in Hd as [_ Hd].
  destruct (read_slice _ _ _) as [r|]; [|done]. cbn. intros H%IH; [|done]. rewrite zlen_app in H.
  pose proof (zlen_nonneg r). lia.
Qed.

Lemma tx_gather_spec mem ch : forall acc,
  Forall desc_natural ch -> zlen acc <= MAX_TX_FRAME ->
  tx_gather mem ch acc =
  match gather mem ch acc with
  | Some bs => if zlen bs <=? MAX_TX_FRAME then bs else []
  | None => []
  end.
Proof.
  induction ch as [|d ch IH]; intros acc Hd Hacc; cbn [tx_gather gather].
  { by rewrite (proj2 (Z.leb_le _ _) Hacc). }
  apply Forall_cons in Hd as [[Ha Hn] Hd]. destruct (read_slice mem (d_addr d) (d_len d)) as [r|] eqn:Er.
  2: { by case_test. }
  cbn. pose proof (mem_read_len _ _ _ _ Er Hn) as Hr. case_test; bool_to_prop.
  - destruct (gather mem ch (acc ++ r)) as [bs|] eqn:E; [|done]. apply gather_len_reads in E; [|done].
    rewrite zlen_app in E. destruct (Z.leb_spec (zlen bs) MAX_TX_FRAME); [lia|done].
  - apply IH; [done|]. rewrite zlen_app. lia.
Qed.

(** What the device sends for a queued head is exactly the bytes of the
    guest's chain after the header, when the chain is well formed, in memory
    and within a frame; anything else sends nothing. Memory is untouched. *)
Theorem sent_frames_are_guest_chains b q mem head :
  exists b', serve_tx b q mem head = (0, b', mem) /\
    net_sent b' = net_sent b ++
      match chain q mem head VRING_DESC_F_NEXT with
      | Some ch => match frame_of mem ch with Some f => [f] | None => [] end
      | None => []
      end.
Proof.
  unfold serve_tx. destruct (chain q mem head VRING_DESC_F_NEXT) as [ch|] eqn:Ec; cbn [default]; unfold id.
  2: { exists b. split; [reflexivity|]. by rewrite app_nil_r. }
  apply chain_natural in Ec. rewrite tx_gather_spec by done. unfold frame_of.
  destruct (gather mem ch []) as [bs|]; cbn [option_bind mbind].
  2: { exists b. split; [reflexivity|]. by rewrite app_nil_r. }
  eexists. split; [reflexivity|]. destruct (zlen bs <=? MAX_TX_FRAME); [|by rewrite andb_false_r, app_nil_r].
  rewrite andb_true_r. case_test; [done|]. by rewrite app_nil_r.
Qed.

(** ** Receiving *)

Lemma write_skip_spec mem n v a : check_range mem a (Z.of_nat n) = true ->
  let m' := write_or_skip mem n v a in
  read_slice m' a (Z.of_nat n) = Some (le_bytes n v) /\
  (forall c k, check_range m' c k = check_range mem c k) /\
  (forall c k, 0 <= k -> off_range a (Z.of_nat n) c k -> read_slice m' c k = read_slice mem c k).
Proof.
  intros Hc m'. unfold m', write_or_skip.
  destruct (mem_write mem a (le_bytes n v)) as (m1 & E & Hr & Ho); [by rewrite zlen_le_bytes|].
  pose proof (mem_write_ranges _ _ _ _ E) as Hranges. rewrite E. rewrite zlen_le_bytes in *.
  split_and!; [done|done|]. intros c k Hk Hoff. apply Ho; [done|]. unfold off_range in Hoff. lia.
Qed.

(** A completed entry of the used ring. *)
Lemma write_used_spec mem used_addr size idx id len :
  0 <= used_addr -> 0 < size -> 0 <= idx -> check_range mem used_addr (6 + size * 8) = true ->
  let m' := write_used mem used_addr size idx id len in
  let entry := used_addr + 4 + idx mod size * 8 in
  read_slice m' entry 4 = Some (le_bytes 4 id) /\
  read_slice m' (entry + 4) 4 = Some (le_bytes 4 len) /\
  read_slice m' (used_addr + 2) 2 = Some (le_bytes 2 (wrapping_add 16 idx 1)) /\
  (forall c k, check_range m' c k = check_range mem c k) /\
  (forall c k, 0 <= k -> off_range used_addr (6 + size * 8) c k -> read_slice m' c k = read_slice mem c k).
Proof.
  intros Ha Hs Hi Hc m' entry. pose proof (Z.mod_pos_bound idx size Hs) as Hm.
  pose proof (mem_top _ _ _ Hc Ha ltac:(lia)) as Htop.
  assert (forall o k, 0 <= o -> 0 <= k -> o + k <= 6 + size * 8 -> check_range mem (used_addr + o) k = true) as Hsub.
  { intros o k Ho Hk Hok. eapply mem_sub; [exact Hc|lia..]. }
  assert (m' = write_or_skip (write_or_skip (write_or_skip mem 4 id entry) 4 len (entry + 4)) 2
                 (wrapping_add 16 idx 1) (used_addr + 2)) as ->.
  { unfold m', write_used. unfold wrapping_add at 1 2 4. rewrite !wrap_small by (unfold in_width; lia).
    unfold entry. do 2 f_equal; [f_equal|]; lia. }
  destruct (write_skip_spec mem 4 id entry) as (R1 & C1 & O1).
  { unfold entry. rewrite <-Z.add_assoc. apply Hsub; lia. }
  destruct (write_skip_spec (write_or_skip mem 4 id entry) 4 len (entry + 4)) as (R2 & C2 & O2).
  { rewrite C1. unfold entry. rewrite <-!Z.add_assoc. apply Hsub; lia. }
  set (m2 := write_or_skip (write_or_skip mem 4 id entry) 4 len (entry + 4)) in *.
  destruct (write_skip_spec m2 2 (wrapping_add 16 idx 1) (used_addr + 2)) as (R3 & C3 & O3).
  { rewrite C2, C1. apply Hsub; lia. }
  change (Z.of_nat 4) with 4 in *. change (Z.of_nat 2) with 2 in *. unfold off_range in *.
  split_and!.
  - rewrite O3, O2 by (unfold entry; lia). exact R1.
  - rewrite O3 by (unfold entry; lia). exact R2.
  - exact R3.
  - intros c k. by rewrite C3, C2, C1.
  - intros c k Hk Hoff. rewrite O3, O2, O1 by (unfold entry; lia). done.
Qed.

(** What the receive thread finds in a ring that has a buffer for a frame. *)
Record rx_ready mem th (frame : bytes) (head : Z) (desc : VringDesc) : Prop := {
  rr_queue : queue_ok (rt_queue th) /\ in_width 16 (rt_last th);
  rr_frame : 0 < zlen frame <= RX_BUF;
  rr_pending : exists current, pending (set_last_avail (rt_queue th) (rt_last th)) mem = Some current /\ rt_last th <> current;
  rr_head : head = avail_ring_entry mem (vq_avail (rt_queue th)) (vq_size (rt_queue th)) (rt_last th);
  rr_in_ring : head < vq_size (rt_queue th);
  rr_desc : desc = read_desc mem (vq_desc (rt_queue th)) head;
  rr_room : has_bits (d_flags desc) VRING_DESC_F_WRITE = true /\ VIRTIO_NET_HDR_SIZE + zlen frame <= d_len desc;
  rr_memory : check_range mem (d_addr desc) (d_len desc) = true;
  rr_apart : off_range (vq_used (rt_queue th)) (6 + vq_size (rt_queue th) * 8) (d_addr desc) (d_len desc);
}.

(** The buffer of a frame: the header of zeros, then the frame. *)
Definition rx_buffer (frame : bytes) : bytes := replicate (Z.to_nat VIRTIO_NET_HDR_SIZE) x00 ++ frame.

Lemma rx_buffer_written mem a frame n :
  0 <= a -> 0 < zlen frame -> VIRTIO_NET_HDR_SIZE + zlen frame <= n -> check_range mem a n = true ->
  exists m', default (default mem (write_slice mem a (replicate (Z.to_nat VIRTIO_NET_HDR_SIZE) x00)))
      (write_slice (default mem (write_slice mem a (replicate (Z.to_nat VIRTIO_NET_HDR_SIZE) x00)))
         (wrapping_add 64 a VIRTIO_NET_HDR_SIZE) frame) = m' /\
    read_slice m' a (VIRTIO_NET_HDR_SIZE + zlen frame) = Some (rx_buffer frame) /\
    (forall c k, check_range m' c k = check_range mem c k) /\
    (forall c k, 0 <= k -> off_range a n c k -> read_slice m' c k = read_slice mem c k).
Proof.
  intros Ha Hpos Hn Hc. set (hdr := replicate (Z.to_nat VIRTIO_NET_HDR_SIZE) x00). unfold VIRTIO_NET_HDR_SIZE in *.
  assert (zlen hdr = 12) as Hh by done. pose proof (zlen_nonneg frame) as Hf. pose proof (mem_top _ _ _ Hc Ha ltac:(lia)).
  assert (check_range mem a (zlen (hdr ++ frame)) = true) as Hc1.
  { eapply mem_sub; [exact Hc|lia|apply zlen_nonneg|]. rewrite zlen_app. lia. }
  destruct (mem_write mem a (hdr ++ frame) Hc1) as (m' & Hw & Hr & Ho). pose proof (mem_write_ranges _ _ _ _ Hw) as Hranges.
  rewrite zlen_app, Hh in *. rewrite mem_write_split in Hw by (by rewrite Hh).
  destruct (write_slice mem a hdr) as [m1|] eqn:E1; [|done]. cbn [option_bind mbind] in Hw. rewrite Hh in Hw.
  cbn [default]. unfold id, wrapping_add. rewrite wrap_small by (unfold in_width; lia). rewrite Hw.
  exists m'. split_and!; [done|exact Hr|done|]. intros c k Hk Hoff. apply Ho; [done|]. unfold off_range in Hoff. lia.
Qed.

Lemma ring_in_memory mem q current :
  pending q mem = Some current -> check_range mem (vq_used q) (6 + vq_size q * 8) = true /\ vq_size q <> 0.
Proof.
  unfold pending. case_test; [done|]. case_test; [done|]. case_test; [done|]. bool_to_prop. done.
Qed.

(** When the guest has a buffer with room, a received frame is put into
    it behind a header of zeros and exactly that buffer is completed with its
    length; nothing else of the guest's memory changes. *)
Theorem net_rx_delivers mem th frame head desc :
  rx_ready mem th frame head desc -> 0 <= rx_used mem th ->
  let used := rx_used mem th in
  let q := rt_queue th in
  let entry := vq_used q + 4 + used mod vq_size q * 8 in
  exists mem', rx_frame th mem frame =
      (MkRx q (wrapping_add 16 (rt_last th) 1) (Some (wrapping_add 16 used 1)), mem', vq_wants_interrupt q mem') /\
    read_slice mem' (d_addr desc) (VIRTIO_NET_HDR_SIZE + zlen frame) = Some (rx_buffer frame) /\
    read_slice mem' entry 4 = Some (le_bytes 4 head) /\
    read_slice mem' (entry + 4) 4 = Some (le_bytes 4 (VIRTIO_NET_HDR_SIZE + zlen frame)) /\
    read_slice mem' (vq_used q + 2) 2 = Some (le_bytes 2 (wrapping_add 16 used 1)) /\
    (forall a n, 0 <= n -> off_range (d_addr desc) (d_len desc) a n ->
       off_range (vq_used q) (6 + vq_size q * 8) a n -> read_slice mem' a n = read_slice mem a n).
Proof.
  intros [[Hq Hl] Hfr (current & Hp & Hne) Hh Hin Hd [Hw Hroom] Hc Hap] Hu used q entry.
  pose proof (ring_in_memory _ _ _ Hp) as [Hring Hs0]. cbn in Hring, Hs0. fold q in Hring, Hs0, Hin, Hap.
  destruct Hq as [_ Hs _ _ Hua _]. fold q in Hs, Hua. unfold in_width in Hua.
  assert (desc_natural desc) as [Ha Hlen] by (subst desc; apply read_desc_natural).
  unfold rx_frame. fold used q.
  rewrite ztake_ge by lia. rewrite bool_decide_eq_false_2 by (intros ->; change (zlen (@nil byte)) with 0 in *; lia).
  fold q in Hp. rewrite Hp. destruct (Z.eqb_spec (rt_last th) current); [done|].
  fold q in Hh, Hd. rewrite <-Hh, <-Hd. destruct (Z.leb_spec (vq_size q) head); [lia|].
  rewrite Hw, (proj2 (Z.leb_le _ _) Hroom). cbn [andb].
  destruct (rx_buffer_written mem (d_addr desc) frame (d_len desc) Ha ltac:(lia) Hroom Hc) as (m1 & -> & R1 & C1 & O1).
  destruct (write_used_spec m1 (vq_used q) (vq_size q) used head (VIRTIO_NET_HDR_SIZE + zlen frame))
    as (W1 & W2 & W3 & _ & W5); [lia|lia|done|by rewrite C1|].
  eexists. split; [reflexivity|]. pose proof (zlen_nonneg frame). unfold off_range, VIRTIO_NET_HDR_SIZE in *.
  split_and!; [|exact W1|exact W2|exact W3|].
  - rewrite W5 by lia. exact R1.
  - intros a k Hk Ho1 Ho2. rewrite W5 by lia. apply O1; [done|]. unfold off_range. lia.
Qed.

(** ** Pausing *)

(** Frames one after another. *)
Fixpoint rx_frames th mem (frames : list bytes) : RxThread * M :=
  match frames with
  | [] => (th, mem)
  | f :: frames => let '(th, mem, _) := rx_frame th mem f in rx_frames th mem frames
  end.

Lemma rx_frame_queue th mem f : rt_queue (rx_frame th mem f).1.1 = rt_queue th.
Proof.
  unfold rx_frame. case_test; [done|]. destruct (pending _ _); [|done]. repeat (case_test; [done|]). done.
Qed.

Lemma rx_frames_queue frames : forall th mem, rt_queue (rx_frames th mem frames).1 = rt_queue th.
Proof.
  induction frames as [|f frames IH]; intros th mem; [done|]. cbn [rx_frames].
  pose proof (rx_frame_queue th mem f) as E. destruct (rx_frame th mem f) as [[th1 m1] r]. cbn in E. by rewrite IH, E.
Qed.

(** The device while its thread is [th]. *)
Definition with_thread b th : NetBackend := MkNet (mac b) (net_rx b) (rx_running b) (Some th) (net_sent b).

(** A device paused after any frames, and resumed, or restored from its
    snapshot into a new machine, receives on from the ring entry the thread
    had come to, in the same ring; resuming twice starts no second thread. *)
Theorem net_rx_continues b b0 q qs mem frames :
  vq_ready q = true ->
  let b1 := net_start b (q :: qs) in
  let th := (rx_frames (MkRx q (vq_last_avail q) None) mem frames).1 in
  let paused := net_save (with_thread b1 th) in
  rx_thread b1 = Some (MkRx q (vq_last_avail q) None) /\
  paused.1 = Ok (BsNet (rt_last th)) /\ rx_thread paused.2 = None /\
  rx_thread (net_resume paused.2) = Some (MkRx (set_last_avail q (rt_last th)) (rt_last th) None) /\
  net_resume (net_resume paused.2) = net_resume paused.2 /\
  exists b2, net_restore b0 (BsNet (rt_last th)) (q :: qs) = Ok b2 /\
    rx_thread b2 = Some (MkRx (set_last_avail q (rt_last th)) (rt_last th) None).
Proof.
  intros Hr b1 th paused. subst b1 paused. unfold net_start, net_restore, net_save, net_resume. cbn. rewrite Hr. cbn.
  split_and!; try done. eexists. split; [reflexivity|]. unfold net_start. cbn. by rewrite Hr.
Qed.

#[export] Instance net_laws : VirtioLaws NetBackend M.
Proof.
  split; [done|]. intros b i qs mem used b' qs' mem'. cbn [process_queue net_backend]. unfold net_process_queue.
  case_test; [intros; simplify_eq; apply same_rings|].
  destruct qs as [|q0 [|q qs]]; cbn [lookup list_lookup]; [intros; simplify_eq; apply same_rings..|].
  pose proof (ring_serve_ring serve_tx b q mem) as Hring.
  destruct (ring_serve _ _ _ _) as [[[u1 b1] q1] m1]. intros; simplify_eq. cbn.
  constructor; [apply same_ring_refl|]. constructor; [done|apply same_rings].
Qed.
End net_proofs.

(** ** Examples *)

(** A ring of two descriptors as in [demo_ring], with a writable buffer of 32
    bytes at 100. *)
Definition demo_rx_ring : Flat :=
  (le_bytes 8 100 ++ le_bytes 4 32 ++ le_bytes 2 2 ++ le_bytes 2 0) ++ replicate 16 x00 ++
  (le_bytes 2 0 ++ le_bytes 2 1 ++ replicate 28 x00) ++ replicate 68 x00.
Definition demo_thread : RxThread := MkRx demo_vq 0 None.

Lemma net_rx_delivers_witness :
  exists mem', (rx_frame demo_thread demo_rx_ring [xaa; xbb]).1.2 = mem' /\
    read_slice mem' 100 14 = Some (replicate 12 x00 ++ [xaa; xbb]).
Proof.
  destruct (net_rx_delivers (M := Flat) demo_rx_ring demo_thread [xaa; xbb] 0 (MkDesc 100 32 2 0)) as (m' & E & R & _).
  - split.
    + split; [exact demo_vq_ok|vm_compute; intuition congruence].
    + vm_compute. intuition congruence.
    + exists 1. split; vm_compute; congruence.
    + vm_compute. reflexivity.
    + vm_compute. reflexivity.
    + vm_compute. reflexivity.
    + vm_compute. intuition congruence.
    + vm_compute. reflexivity.
    + left. vm_compute. congruence.
  - vm_compute. congruence.
  - exists m'. rewrite E. split; [reflexivity|exact R].
Defined.

(** A chain of two descriptors whose bytes after the header are [aa bb]. *)
Definition demo_tx_ring : Flat :=
  (le_bytes 8 100 ++ le_bytes 4 13 ++ le_bytes 2 1 ++ le_bytes 2 1) ++
  (le_bytes 8 113 ++ le_bytes 4 1 ++ le_bytes 2 0 ++ le_bytes 2 0) ++ replicate 80 x00 ++ [xaa; xbb].

Lemma sent_frames_are_guest_chains_witness :
  exists b', serve_tx (NetBackend_new (replicate 6 x00)) demo_vq demo_tx_ring 0 = (0, b', demo_tx_ring) /\
    net_sent b' = [[xaa; xbb]].
Proof.
  destruct (sent_frames_are_guest_chains (M := Flat) (NetBackend_new (replicate 6 x00)) demo_vq demo_tx_ring 0)
    as (b' & E & H).
  exists b'. split; [exact E|]. rewrite H. vm_compute. reflexivity.
Defined.

Lemma net_rx_continues_witness :
  rx_thread (net_resume (net_save (with_thread (net_start (NetBackend_new []) [demo_vq])
     (rx_frames demo_thread demo_rx_ring [[xaa; xbb]]).1)).2) = Some (MkRx (set_last_avail demo_vq 1) 1 None).
Proof.
  pose proof (net_rx_continues (M := Flat) (NetBackend_new []) (NetBackend_new []) demo_vq [] demo_rx_ring [[xaa; xbb]] eq_refl)
    as (_ & _ & _ & H & _).
  etransitivity; [exact H|]. vm_compute. reflexivity.
Defined.
