(* ===== verification/Balloon.v ===== *)
(** * The memory balloon

    [crates/shuru-linux/src/kvm/balloon.rs]: pages the guest gives up go back
    to the host. The page numbers and ranges come from the guest, so the
    device may discard only what the guest named and what is guest memory.

    [discarded] holds every range handed to [madvise], oldest first. A range
    that checks has a host address, so [get_host_address] cannot fail for it.
    [panicked] is the [unreachable!] of [drain]. *)

From Stdlib Require Import Strings.Byte.
From S2P Require Import Prelude Vsock Queue Virtio VirtioProofs Block BlockProofs BlockDevice.

Definition VIRTIO_BALLOON_F_STATS_VQ : Z := Z.shiftl 1 1.
Definition VIRTIO_BALLOON_F_DEFLATE_ON_OOM : Z := Z.shiftl 1 2.
Definition VIRTIO_BALLOON_F_FREE_PAGE_HINT : Z := Z.shiftl 1 3.
Definition VIRTIO_BALLOON_F_REPORTING : Z := Z.shiftl 1 5.
Definition OFFERED_FEATURES : Z :=
  Z.lor (Z.lor VIRTIO_F_VERSION_1 VIRTIO_BALLOON_F_DEFLATE_ON_OOM) VIRTIO_BALLOON_F_REPORTING.
Definition PAGE_SHIFT : Z := 12.
Definition MAX_INFLATE_PFNS : Z := 256.
Definition PAGE_SIZE : Z := Z.shiftl 1 PAGE_SHIFT.

Inductive QueueRole := Inflate | Deflate | Stats | FreePageHint | Reporting.
#[export] Instance role_eq_dec : EqDecision QueueRole.
Proof. solve_decision. Defined.

Definition OPTIONAL_QUEUES : list (Z * QueueRole) :=
  [(VIRTIO_BALLOON_F_STATS_VQ, Stats); (VIRTIO_BALLOON_F_FREE_PAGE_HINT, FreePageHint);
   (VIRTIO_BALLOON_F_REPORTING, Reporting)].

Definition for_features (features : Z) : list QueueRole :=
  [Inflate; Deflate] ++ map snd (List.filter (fun '(bit, _) => has_bits features bit) OPTIONAL_QUEUES).

Record BalloonControl := MkControl {
  total_bytes : Z;
  target_pages : Z;
  actual_pages : Z;
  has_interrupt : bool;
}.

Record BalloonBackend := MkBalloon {
  control : BalloonControl;
  host_page : Z;
  layout : list QueueRole;
  discarded : list (Z * Z);
  panicked : bool;
}.

(** Whether it raised the interrupt. *)
Definition set_memory_target (c : BalloonControl) (n : Z) : BalloonControl * bool :=
  let keep := Z.min n (total_bytes c) in
  let pages := wrap 32 ((total_bytes c - keep) / PAGE_SIZE) in
  (MkControl (total_bytes c) pages (actual_pages c) (has_interrupt c), has_interrupt c).

Definition ballooned_bytes (c : BalloonControl) : Z := actual_pages c * PAGE_SIZE.

(** [page] is what [sysconf] says. *)
Definition BalloonBackend_new (total page : Z) : BalloonBackend :=
  MkBalloon (MkControl total 0 0 false) (if 0 <? page then page else PAGE_SIZE)
    (for_features OFFERED_FEATURES) [] false.

Definition add_discarded (b : BalloonBackend) (r : Z * Z) : BalloonBackend :=
  MkBalloon (control b) (host_page b) (layout b) (discarded b ++ [r]) (panicked b).

Section balloon.
Context `{GM : GuestMemory M}.
Implicit Types (b : BalloonBackend) (mem : M) (q : VirtioQueueState).

(** The host pages inside a range. *)
Definition discard b mem (gpa len : Z) : BalloonBackend :=
  let mask := lnot_w 64 (host_page b - 1) in
  let start := Z.land (wrap 64 (gpa + host_page b - 1)) mask in
  let end_ := Z.land (Z.min (2 ^ 64 - 1) (gpa + len)) mask in
  if end_ <=? start then b else
  let len := end_ - start in
  if check_range mem start len then add_discarded b (start, len) else b.

(** The loop over [n] page numbers, [run] the pages collected so far. *)
Fixpoint pfns_loop (n : nat) b mem (addr : Z) (run : option (Z * Z)) : BalloonBackend * option (Z * Z) :=
  match n with
  | O => (b, run)
  | S n =>
      match read_slice mem addr 4 with
      | None => (b, run)
      | Some bs =>
          let gpa := Z.shiftl (le_val bs) PAGE_SHIFT in
          let '(b, run) :=
            match run with
            | Some (start, run_len) =>
                if start + run_len =? gpa then (b, (start, run_len + PAGE_SIZE))
                else (discard b mem start run_len, (gpa, PAGE_SIZE))
            | None => (b, (gpa, PAGE_SIZE))
            end in
          pfns_loop n b mem (wrapping_add 64 addr 4) (Some run)
      end
  end.

Definition discard_pfns b mem (addr len : Z) : BalloonBackend :=
  let '(b, run) := pfns_loop (Z.to_nat (len / 4)) b mem addr None in
  match run with Some (start, run_len) => discard b mem start run_len | None => b end.

Definition drain_desc (role : QueueRole) b mem (desc : VringDesc) : BalloonBackend :=
  match role with
  | Inflate => discard_pfns b mem (d_addr desc) (Z.min (d_len desc) (MAX_INFLATE_PFNS * 4))
  | Deflate => b
  | Reporting => discard b mem (d_addr desc) (d_len desc)
  | Stats | FreePageHint => MkBalloon (control b) (host_page b) (layout b) (discarded b) true
  end.

Definition drain_head (role : QueueRole) b q mem (head : Z) : Z * BalloonBackend * M :=
  (0, fold_left (fun b desc => drain_desc role b mem desc)
        (default [] (chain q mem head (Z.lor VRING_DESC_F_NEXT VRING_DESC_F_WRITE))) b, mem).

Definition drain b (role : QueueRole) q mem : bool * BalloonBackend * VirtioQueueState * M :=
  ring_serve (drain_head role) b q mem.

Definition balloon_process_queue b (index : nat) (qs : list VirtioQueueState) mem
    : bool * BalloonBackend * list VirtioQueueState * M :=
  match layout b !! index with
  | None => (false, b, qs, mem)
  | Some role =>
      match qs !! index with
      | Some q =>
          if vq_ready q then
            let '(used, b, q, mem) := drain b role q mem in (used, b, <[index := q]> qs, mem)
          else (false, b, qs, mem)
      | None => (false, b, qs, mem)
      end
  end.

Definition set_control b (c : BalloonControl) : BalloonBackend :=
  MkBalloon c (host_page b) (layout b) (discarded b) (panicked b).
Definition set_layout b (l : list QueueRole) : BalloonBackend :=
  MkBalloon (control b) (host_page b) l (discarded b) (panicked b).

Definition balloon_config_read b (offset : Z) : Z :=
  if offset =? 0 then target_pages (control b) else if offset =? 4 then actual_pages (control b) else 0.

Definition balloon_config_write b (offset value : Z) : BalloonBackend :=
  if offset =? 4
  then set_control b (MkControl (total_bytes (control b)) (target_pages (control b)) value (has_interrupt (control b)))
  else b.

Definition balloon_activate b : BalloonBackend :=
  set_control b (MkControl (total_bytes (control b)) (target_pages (control b)) (actual_pages (control b)) true).

Definition balloon_reset b : BalloonBackend :=
  set_layout (set_control b (MkControl (total_bytes (control b)) (target_pages (control b)) 0 false))
    (for_features OFFERED_FEATURES).

Definition balloon_save b : result BackendState ErrorKind * BalloonBackend :=
  (Ok (BsBalloon (target_pages (control b)) (actual_pages (control b))), b).

Definition balloon_restore b (s : BackendState) : result BalloonBackend ErrorKind :=
  match s with
  | BsBalloon target actual =>
      Ok (balloon_activate (set_control b (MkControl (total_bytes (control b)) target actual (has_interrupt (control b)))))
  | _ => Err mismatch
  end.

#[export] Instance balloon_backend : VirtioBackend BalloonBackend M := {
  device_id _ := 5;
  device_features _ := OFFERED_FEATURES;
  queue_count _ := length (for_features OFFERED_FEATURES);
  queue_max_size _ := 128;
  config_read := balloon_config_read;
  config_write := balloon_config_write;
  features_ok b features := set_layout b (for_features features);
  activate b _ _ := balloon_activate b;
  process_queue := balloon_process_queue;
  take_kicks _ := false;
  backend_reset := balloon_reset;
  backend_save := balloon_save;
  backend_restore b s _ _ := balloon_restore b s;
  backend_resume b := b;
}.
End balloon.

(** ** Properties *)

(** Only what was discarded differs. *)
Definition gave (b : BalloonBackend) (rs : list (Z * Z)) : BalloonBackend :=
  MkBalloon (control b) (host_page b) (layout b) (discarded b ++ rs) (panicked b).

Definition in_range (r : Z * Z) (x : Z) : Prop := fst r <= x < fst r + snd r.
Definition in_ranges (rs : list (Z * Z)) (x : Z) : Prop := exists r, r ∈ rs /\ in_range r x.

Lemma gave_nil b : gave b [] = b.
Proof. unfold gave. rewrite app_nil_r. by destruct b. Qed.

Lemma gave_gave b rs1 rs2 : gave (gave b rs1) rs2 = gave b (rs1 ++ rs2).
Proof. unfold gave. cbn. by rewrite app_assoc. Qed.

Lemma in_ranges_app rs1 rs2 x : in_ranges (rs1 ++ rs2) x <-> in_ranges rs1 x \/ in_ranges rs2 x.
Proof.
  unfold in_ranges. split.
  - intros (r & [H|H]%elem_of_app & Hx); eauto.
  - intros [(r & H & Hx)|(r & H & Hx)]; exists r; (split; [apply elem_of_app; eauto|done]).
Qed.

Lemma in_ranges_one r x : in_ranges [r] x <-> in_range r x.
Proof.
  unfold in_ranges. split; [by intros (r' & ->%list_elem_of_singleton & H)|].
  intros H. exists r. split; [apply list_elem_of_singleton|]; done.
Qed.

Lemma in_ranges_nil x : ~ in_ranges [] x.
Proof. intros (r & H & _). by apply not_elem_of_nil in H. Qed.

Section balloon_proofs.
Context `{GM : GuestMemory M, GL : !GuestMemoryLaws M}.
Implicit Types (b : BalloonBackend) (mem : M) (q : VirtioQueueState).

(** A host maps far less than half of the addresses for a guest. *)
Definition small mem : Prop := forall a n, check_range mem a n = true -> n <= 2 ^ 63.

Lemma small_same mem mem' : (forall a n, check_range mem' a n = check_range mem a n) -> small mem -> small mem'.
Proof. intros E H a n. rewrite E. apply H. Qed.

(** Host pages have the size of a power of two. *)
Definition page_ok b : Prop := exists k, 0 <= k <= 62 /\ host_page b = 2 ^ k.

(** A range of whole host pages in guest memory. *)
Definition fair b mem (r : Z * Z) : Prop :=
  0 < snd r /\ (host_page b | fst r) /\ (host_page b | snd r) /\ check_range mem (fst r) (snd r) = true.

Lemma land_mask x k : 0 <= k < 64 -> in_width 64 x -> Z.land x (lnot_w 64 (2 ^ k - 1)) = x / 2 ^ k * 2 ^ k.
Proof.
  intros Hk Hx. pose proof (Z.pow_pos_nonneg 2 k). assert (2 ^ k < 2 ^ 64) by (apply Z.pow_lt_mono_r; lia).
  rewrite land_lnot_w by (done || unfold in_width; lia).
  replace (2 ^ k - 1) with (Z.ones k) by (rewrite Z.ones_equiv; lia).
  rewrite Z.ldiff_ones_r by lia. by rewrite Z.shiftl_mul_pow2, Z.shiftr_div_pow2 by lia.
Qed.

(** The first host page of a range and the end of its last. *)
Definition page_up b (gpa : Z) : Z := (gpa + host_page b - 1) / host_page b * host_page b.
Definition page_down b (x : Z) : Z := x / host_page b * host_page b.

Lemma discard_spec b mem gpa len :
  page_ok b -> small mem -> in_width 64 gpa -> 0 <= len ->
  let s := page_up b gpa in
  let e := page_down b (Z.min (2 ^ 64 - 1) (gpa + len)) in
  discard b mem gpa len = if (s <? e) && check_range mem s (e - s) then gave b [(s, e - s)] else b.
Proof.
  intros (k & Hk & Ep) Hsmall Hg Hl s e. unfold discard. rewrite Ep. unfold in_width in Hg.
  assert (0 < 2 ^ k) as Hp by (apply Z.pow_pos_nonneg; lia).
  assert (2 ^ k <= 2 ^ 62) as Hp2 by (apply Z.pow_le_mono_r; lia).
  rewrite (land_mask (Z.min _ _) k) by (unfold in_width; lia).
  assert (e = Z.min (2 ^ 64 - 1) (gpa + len) / 2 ^ k * 2 ^ k) as <- by (unfold e, page_down; by rewrite Ep).
  rewrite land_mask by (try apply wrap_in_width; lia).
  destruct (Z.lt_ge_cases (gpa + 2 ^ k - 1) (2 ^ 64)) as [Hlt|Hge].
  - rewrite wrap_small by (unfold in_width; lia).
    assert (s = (gpa + 2 ^ k - 1) / 2 ^ k * 2 ^ k) as <- by (unfold s, page_up; by rewrite Ep).
    destruct (Z.leb_spec e s), (Z.ltb_spec s e); try lia; done.
  - assert (2 ^ 64 = 2 ^ (64 - k) * 2 ^ k) as E64 by (rewrite <-Z.pow_add_r; [f_equal|..]; lia).
    assert (wrap 64 (gpa + 2 ^ k - 1) / 2 ^ k = 0) as ->.
    { apply Z.div_small. unfold wrap. rewrite <-(Z_mod_plus_full _ (-1)), Z.mod_small by lia. lia. }
    assert (s = 2 ^ 64) as Es.
    { unfold s, page_up. rewrite Ep, E64. f_equal. symmetry. apply Z.div_unique with (gpa + 2 ^ k - 1 - 2 ^ 64); lia. }
    assert (2 ^ 64 - 2 ^ k <= e) as He.
    { unfold e, page_down. rewrite Ep. assert (2 ^ (64 - k) - 1 <= Z.min (2 ^ 64 - 1) (gpa + len) / 2 ^ k); [|nia].
      apply Z.div_le_lower_bound; lia. }
    assert (e < 2 ^ 64) as He2.
    { unfold e, page_down. rewrite Ep. pose proof (Z.mul_div_le (Z.min (2 ^ 64 - 1) (gpa + len)) (2 ^ k) Hp). lia. }
    destruct (Z.ltb_spec s e); [lia|]. cbn [andb]. rewrite Z.mul_0_l, Z.sub_0_r.
    destruct (Z.leb_spec e 0); [lia|]. destruct (check_range mem 0 e) eqn:Ec; [|done].
    apply Hsmall in Ec. lia.
Qed.

(** What a discard gives up lies in its range. *)
Lemma discard_in b mem gpa len :
  page_ok b -> small mem -> in_width 64 gpa -> 0 <= len ->
  exists rs, discard b mem gpa len = gave b rs /\ Forall (fair b mem) rs /\
    (forall x, in_ranges rs x -> in_range (gpa, len) x).
Proof.
  intros Hk Hsmall Hg Hl. rewrite discard_spec by done. destruct Hk as (k & Hk & Ep).
  assert (0 < host_page b) as Hp by (rewrite Ep; apply Z.pow_pos_nonneg; lia).
  case_test; [|exists []; rewrite gave_nil; split_and!; [done|constructor|by intros x ?%in_ranges_nil]].
  bool_to_prop. eexists. split; [reflexivity|]. unfold page_up, page_down in *.
  set (m := Z.min (2 ^ 64 - 1) (gpa + len)) in *.
  pose proof (Z.mul_div_le m (host_page b) Hp). pose proof (Z.mul_succ_div_gt (gpa + host_page b - 1) (host_page b) Hp).
  split.
  - constructor; [|constructor]. split_and!; cbn [fst snd]; [lia|by eexists| |done].
    exists (m / host_page b - (gpa + host_page b - 1) / host_page b). lia.
  - intros x Hx%in_ranges_one. unfold in_range in *. cbn [fst snd] in *. lia.
Qed.

(** With host pages of 4 KiB a run of pages goes back whole. *)
Lemma discard_run b mem gpa len :
  host_page b = PAGE_SIZE -> small mem -> 0 <= gpa -> gpa + len < 2 ^ 64 -> 0 < len ->
  (PAGE_SIZE | gpa) -> (PAGE_SIZE | len) -> check_range mem gpa len = true ->
  discard b mem gpa len = gave b [(gpa, len)].
Proof.
  intros Ep Hsmall Hg Htop Hl [g Eg] [l El] Hc. rewrite discard_spec; [|by exists 12|done|unfold in_width; lia|lia].
  unfold page_up, page_down. rewrite Ep. change PAGE_SIZE with 4096 in *.
  replace (Z.min (2 ^ 64 - 1) (gpa + len)) with (gpa + len) by lia. subst gpa len.
  replace ((g * 4096 + 4096 - 1) / 4096) with g by (apply Z.div_unique with 4095; lia).
  replace ((g * 4096 + l * 4096) / 4096) with (g + l) by (apply Z.div_unique with 0; lia).
  replace ((g + l) * 4096 - g * 4096) with (l * 4096) by lia.
  destruct (Z.ltb_spec (g * 4096) ((g + l) * 4096)); [|lia]. by rewrite Hc.
Qed.

(** ** Page numbers *)

(** The page numbers of a buffer, up to the first that cannot be read. *)
Fixpoint pfns mem (addr : Z) (n : nat) : list Z :=
  match n with
  | O => []
  | S n =>
      match read_slice mem addr 4 with
      | None => []
      | Some bs => le_val bs :: pfns mem (wrapping_add 64 addr 4) n
      end
  end.

Definition in_run (run : option (Z * Z)) (x : Z) : Prop :=
  match run with Some r => in_range r x | None => False end.

Definition run_ok (run : option (Z * Z)) : Prop :=
  match run with
  | Some (s, l) => 0 <= s /\ 0 < l /\ (PAGE_SIZE | s) /\ (PAGE_SIZE | l) /\ s + l <= 2 ^ 44
  | None => True
  end.

(** Everything that the bytes of [S] make up is guest memory. *)
Definition owned mem (S : Z -> Prop) : Prop :=
  forall s n, 0 < n -> (forall x, in_range (s, n) x -> S x) -> check_range mem s n = true.

Lemma owned_sub mem (S S' : Z -> Prop) : (forall x, S' x -> S x) -> owned mem S -> owned mem S'.
Proof. intros HS H s n Hn Hx. apply H; auto. Qed.

Lemma pfn_range bs mem addr : read_slice mem addr 4 = Some bs -> 0 <= le_val bs < 2 ^ 32.
Proof.
  intros E. pose proof (mem_read_len _ _ _ _ E ltac:(lia)) as Hz. pose proof (le_val_range bs) as H. rewrite Hz in H.
  done.
Qed.

Lemma in_page pfn x : in_range (pfn * 4096, 4096) x <-> x / 4096 = pfn.
Proof.
  unfold in_range. cbn [fst snd]. split.
  - intros H. symmetry. apply Z.div_unique with (x - pfn * 4096); lia.
  - intros <-. pose proof (Z.mul_div_le x 4096). pose proof (Z.mul_succ_div_gt x 4096). lia.
Qed.

(** Adding a page to a run: the range that is given up, if any, and the run
    that goes on. *)
Lemma run_step b mem run pfn b1 run1 :
  page_ok b -> small mem -> run_ok run -> 0 <= pfn < 2 ^ 32 ->
  match run with
  | Some (start, run_len) =>
      if start + run_len =? pfn * 4096 then (b, (start, run_len + PAGE_SIZE))
      else (discard b mem start run_len, (pfn * 4096, PAGE_SIZE))
  | None => (b, (pfn * 4096, PAGE_SIZE))
  end = (b1, run1) ->
  run_ok (Some run1) /\ exists rs, b1 = gave b rs /\ Forall (fair b mem) rs /\
    (forall x, in_ranges rs x \/ in_range run1 x -> in_run run x \/ x / 4096 = pfn) /\
    (host_page b = PAGE_SIZE -> owned mem (in_run run) ->
     forall x, in_run run x \/ x / 4096 = pfn -> in_ranges rs x \/ in_range run1 x).
Proof.
  intros Hp Hs Hr Hpfn. change PAGE_SIZE with 4096 in *.
  assert (run_ok (Some (pfn * 4096, 4096))) as Hnew.
  { cbn. change PAGE_SIZE with 4096. split_and!; [lia|lia|by exists pfn|by exists 1|lia]. }
  destruct run as [[st l]|].
  - destruct Hr as (H0 & Hl & [u Hu] & [v Hv] & Htop). change PAGE_SIZE with 4096 in *. case_test; bool_to_prop.
    + intros [= <- <-]. split.
      { cbn. change PAGE_SIZE with 4096. split_and!; [lia|lia|by exists u|exists (v + 1); lia|lia]. }
      exists []. rewrite gave_nil. split_and!; [done|constructor| |].
      * intros x [?%in_ranges_nil|Hx]; [done|]. rewrite <-in_page. unfold in_run, in_range in *. cbn [fst snd] in *. lia.
      * intros _ _ x Hx. right. rewrite <-in_page in Hx. unfold in_run, in_range in *. cbn [fst snd] in *. lia.
    + intros [= <- <-]. split; [done|].
      destruct (discard_in b mem st l Hp Hs) as (rs & E & Hf & Hin); [unfold in_width; lia|lia|].
      exists rs. split_and!; [done|done| |].
      * intros x [Hx|Hx]; [left; by apply Hin|right; by apply in_page].
      * intros Eh How x [Hx|Hx]; [|right; by apply in_page]. left.
        rewrite discard_run in E; [|done|done|lia|lia|lia|by exists u|by exists v|by apply How].
        assert (rs = [(st, l)]) as ->.
        { apply (f_equal discarded) in E. cbn in E. by apply app_inv_head in E. }
        by apply in_ranges_one.
  - intros [= <- <-]. split; [done|]. exists []. rewrite gave_nil. split_and!; [done|constructor| |].
    + intros x [?%in_ranges_nil|Hx]; [done|]. right. by apply in_page.
    + intros _ _ x [[]|Hx]. right. by apply in_page.
Qed.

Lemma gave_page b rs : page_ok (gave b rs) <-> page_ok b.
Proof. done. Qed.

Lemma pfns_loop_spec mem n : forall b addr run b' run',
  page_ok b -> small mem -> run_ok run -> pfns_loop n b mem addr run = (b', run') ->
  run_ok run' /\ exists rs, b' = gave b rs /\ Forall (fair b mem) rs /\
    (forall x, in_ranges rs x \/ in_run run' x -> in_run run x \/ x / 4096 ∈ pfns mem addr n) /\
    (host_page b = PAGE_SIZE -> owned mem (fun x => in_run run x \/ x / 4096 ∈ pfns mem addr n) ->
     forall x, in_run run x \/ x / 4096 ∈ pfns mem addr n -> in_ranges rs x \/ in_run run' x).
Proof.
  induction n as [|n IH]; intros b addr run b' run' Hp Hs Hr; cbn [pfns_loop pfns].
  { intros [= <- <-]. split; [done|]. exists []. rewrite gave_nil. split_and!; [done|constructor| |].
    - intros x [?%in_ranges_nil|]; [done|by left].
    - intros _ _ x [|?%not_elem_of_nil]; [by right|done]. }
  destruct (read_slice mem addr 4) as [bs|] eqn:Er.
  2: { intros [= <- <-]. split; [done|]. exists []. rewrite gave_nil. split_and!; [done|constructor| |].
    - intros x [?%in_ranges_nil|]; [done|by left].
    - intros _ _ x [|?%not_elem_of_nil]; [by right|done]. }
  apply pfn_range in Er. set (pfn := le_val bs) in *.
  assert (Z.shiftl pfn PAGE_SHIFT = pfn * 4096) as -> by (by rewrite Z.shiftl_mul_pow2).
  destruct (match run with Some _ => _ | None => _ end) as [b1 run1] eqn:E1.
  destruct (run_step b mem run pfn b1 run1 Hp Hs Hr Er E1) as (Hr1 & rs1 & -> & Hf1 & Hs1 & Hc1).
  intros H2. apply IH in H2 as (Hr' & rs2 & -> & Hf2 & Hs2 & Hc2); [|done..]. split; [done|].
  exists (rs1 ++ rs2). rewrite gave_gave. split_and!; [done|by apply Forall_app| |].
  - intros x. rewrite in_ranges_app, elem_of_cons. specialize (Hs1 x). specialize (Hs2 x). cbn in Hs2. tauto.
  - intros Eh How x. rewrite in_ranges_app, elem_of_cons. intros Hx.
    assert (owned mem (in_run run)) as Ho1 by (eapply owned_sub; [|exact How]; intros y Hy; by left).
    assert (owned mem (fun x => in_run (Some run1) x \/ x / 4096 ∈ pfns mem (wrapping_add 64 addr 4) n)) as Ho2.
    { eapply owned_sub; [|exact How]. intros y [Hy|Hy]; [|right; by right].
      rewrite elem_of_cons. specialize (Hs1 y (or_intror Hy)). tauto. }
    specialize (Hc1 Eh Ho1 x). specialize (Hc2 Eh Ho2 x). cbn in Hc2. tauto.
Qed.

Lemma discard_pfns_spec b mem addr len :
  page_ok b -> small mem ->
  exists rs, discard_pfns b mem addr len = gave b rs /\ Forall (fair b mem) rs /\
    (forall x, in_ranges rs x -> x / 4096 ∈ pfns mem addr (Z.to_nat (len / 4))) /\
    (host_page b = PAGE_SIZE -> owned mem (fun x => x / 4096 ∈ pfns mem addr (Z.to_nat (len / 4))) ->
     forall x, x / 4096 ∈ pfns mem addr (Z.to_nat (len / 4)) -> in_ranges rs x).
Proof.
  intros Hp Hs. unfold discard_pfns. destruct (pfns_loop _ _ _ _ _) as [b1 run] eqn:E.
  apply pfns_loop_spec in E as (Hr & rs & -> & Hf & Hin & Hall); [|done..].
  assert (forall P : Prop, (False \/ P) <-> P) as Hor by tauto.
  destruct run as [[st l]|].
  - destruct Hr as (H0 & Hl & Hd1 & Hd2 & Htop).
    destruct (discard_in (gave b rs) mem st l) as (rs2 & E2 & Hf2 & Hin2); [done|done|unfold in_width; lia|lia|].
    exists (rs ++ rs2). rewrite E2, gave_gave. split_and!; [done|by apply Forall_app| |].
    + intros x [Hx|Hx]%in_ranges_app; apply Hor, Hin; [by left|right; by apply Hin2].
    + intros Eh How x Hx. apply in_ranges_app.
      assert (owned mem (in_range (st, l))) as Ho2.
      { eapply owned_sub; [|exact How]. intros y Hy. by apply Hor, Hin; right. }
      rewrite discard_run in E2; [|done|done|lia|lia|lia|done|done|apply Ho2; [lia|done]].
      apply (f_equal discarded) in E2. cbn in E2. apply app_inv_head in E2. subst rs2. rewrite in_ranges_one.
      apply Hall; [done| |by right]. eapply owned_sub; [|exact How]. by intros y [[]|].
  - exists rs. split_and!; [done|done| |].
    + intros x Hx. apply Hor, Hin. by left.
    + intros Eh How x Hx. destruct (Hall Eh) with (x := x) as [|[]]; [|by right|done].
      eapply owned_sub; [|exact How]. by intros y [[]|].
Qed.

(** An inflate buffer gives back to the host only whole host pages of
    guest memory, and of those only bytes of pages the buffer names; where
    host pages are 4 KiB and the named pages are guest memory, it gives back
    all of them. *)
Theorem inflate_gives_named_pages b mem addr len :
  page_ok b -> small mem ->
  exists rs, discard_pfns b mem addr len = gave b rs /\ Forall (fair b mem) rs /\
    (forall x, in_ranges rs x -> x / 4096 ∈ pfns mem addr (Z.to_nat (len / 4))) /\
    (host_page b = PAGE_SIZE -> owned mem (fun x => x / 4096 ∈ pfns mem addr (Z.to_nat (len / 4))) ->
     forall x, x / 4096 ∈ pfns mem addr (Z.to_nat (len / 4)) -> in_ranges rs x).
Proof. apply discard_pfns_spec. Qed.

(** ** Any guest *)

(** What a queue is served with. *)
Definition gives b0 (b : BalloonBackend) mem : Prop :=
  exists rs, b = gave b0 rs /\ Forall (fair b0 mem) rs.

Lemma drain_desc_gives b0 role b mem desc :
  page_ok b0 -> small mem -> desc_natural desc -> d_addr desc < 2 ^ 64 -> role <> Stats -> role <> FreePageHint ->
  gives b0 b mem -> gives b0 (drain_desc role b mem desc) mem.
Proof.
  intros Hp Hs [Ha Hl] Ha2 Hr1 Hr2 (rs & -> & Hf). destruct role; try done.
  - cbn [drain_desc].
    destruct (discard_pfns_spec (gave b0 rs) mem (d_addr desc) (Z.min (d_len desc) (MAX_INFLATE_PFNS * 4)) Hp Hs)
      as (rs2 & -> & Hf2 & _). rewrite gave_gave. exists (rs ++ rs2). split; [done|by apply Forall_app].
  - by exists rs.
  - cbn [drain_desc]. destruct (discard_in (gave b0 rs) mem (d_addr desc) (d_len desc) Hp Hs) as (rs2 & -> & Hf2 & _);
      [unfold in_width; lia|done|]. rewrite gave_gave. exists (rs ++ rs2). split; [done|by apply Forall_app].
Qed.

Lemma desc_addr_width mem a i : d_addr (read_desc mem a i) < 2 ^ 64.
Proof.
  cbn. unfold read_or_zero. destruct (read_slice mem _ 8) as [bs|] eqn:E; [|done].
  pose proof (mem_read_len _ _ _ _ E ltac:(lia)) as Hz. pose proof (le_val_range bs) as H. rewrite Hz in H. apply H.
Qed.

Lemma drain_head_gives b0 role b q mem head :
  page_ok b0 -> small mem -> role <> Stats -> role <> FreePageHint ->
  gives b0 b mem -> gives b0 (drain_head role b q mem head).1.2 mem.
Proof.
  intros Hp Hs Hr1 Hr2 Hb. unfold drain_head. cbn [fst snd].
  set (ds := default [] _). assert (Forall (fun d => desc_natural d /\ d_addr d < 2 ^ 64) ds) as Hds.
  { unfold ds. destruct (chain _ _ _ _) as [l|] eqn:E; [|constructor].
    eapply (chain_Forall (fun d => desc_natural d /\ d_addr d < 2 ^ 64)); [|exact E].
    intros i. split; [apply read_desc_natural|apply desc_addr_width]. }
  clearbody ds. revert b Hb. induction Hds as [|d ds [Hd1 Hd2] _ IH]; intros b Hb; [done|]. cbn [fold_left].
  apply IH. by apply drain_desc_gives.
Qed.

(** Roles the device knows how to serve. *)
Definition served (roles : list QueueRole) : Prop := Stats ∉ roles /\ FreePageHint ∉ roles.

Lemma gives_same b0 b mem mem' :
  (forall a n, check_range mem' a n = check_range mem a n) -> gives b0 b mem -> gives b0 b mem'.
Proof.
  intros E (rs & -> & Hf). exists rs. split; [done|]. eapply Forall_impl; [exact Hf|].
  intros r (? & ? & ? & ?). split_and!; [done..|by rewrite E].
Qed.

(** Whatever the guest's rings and buffers hold, serving a balloon queue
    discards nothing but whole host pages of guest memory and changes nothing
    else of the device. *)
Theorem balloon_discards_guest_memory b i qs mem :
  page_ok b -> small mem -> served (layout b) ->
  gives b (balloon_process_queue b i qs mem).1.1.2 mem.
Proof.
  intros Hp Hs [Hr1 Hr2]. assert (gives b b mem) as H0 by (exists []; rewrite gave_nil; split; [done|constructor]).
  unfold balloon_process_queue. destruct (layout b !! i) as [role|] eqn:El; [|done].
  destruct (qs !! i) as [q|]; [|done]. destruct (vq_ready q); [|done]. unfold drain.
  apply list_elem_of_lookup_2 in El.
  assert (role <> Stats /\ role <> FreePageHint) as [N1 N2] by (split; intros ->; auto).
  pose proof (ring_serve_keeps_mem (drain_head role)
    (fun b' m => gives b b' mem /\ (forall a n, check_range m a n = check_range mem a n))) as Hk.
  specialize (Hk). destruct (ring_serve (drain_head role) b q mem) as [[[used b'] q'] mem'] eqn:E.
  assert (gives b b' mem /\ (forall a n, check_range mem' a n = check_range mem a n)) as [H _]; [|done].
  replace b' with (ring_serve (drain_head role) b q mem).1.1.2 by (by rewrite E).
  replace mem' with (ring_serve (drain_head role) b q mem).2 by (by rewrite E). apply Hk; [..|done].
  - intros b1 q1 m1 head [Hg Hm]. split; [|done].
    apply (gives_same _ _ m1); [by intros; rewrite Hm|]. apply drain_head_gives; try done.
    + by eapply small_same.
    + eapply gives_same; [|exact Hg]. done.
  - intros b1 m1 m2 Hm [Hg H1]. split; [done|]. intros. by rewrite Hm, H1.
Qed.

(** ** The device under the transport *)

#[export] Instance balloon_laws : VirtioLaws BalloonBackend M.
Proof.
  split; [done|]. intros b i qs mem used b' qs' mem'. cbn [process_queue balloon_backend]. unfold balloon_process_queue.
  destruct (layout b !! i) as [role|]; [|intros; simplify_eq; apply same_rings].
  destruct (qs !! i) as [q|] eqn:Eq; [|intros; simplify_eq; apply same_rings].
  destruct (vq_ready q); [|intros; simplify_eq; apply same_rings]. unfold drain.
  pose proof (ring_serve_ring (drain_head role) b q mem) as Hring.
  destruct (ring_serve _ _ _ _) as [[[u1 b1] q1] m1]. intros; simplify_eq. cbn in Hring.
  rewrite <-(list_insert_id qs i q Eq) at 1. apply Forall2_insert; [apply same_rings|done].
Qed.

Definition calm b : Prop := panicked b = false /\ served (layout b).

Lemma discard_same b mem gpa len :
  panicked (discard b mem gpa len) = panicked b /\ layout (discard b mem gpa len) = layout b.
Proof. unfold discard. case_test; [done|]. by case_test. Qed.

Lemma discard_pfns_calm b mem addr len : calm b -> calm (discard_pfns b mem addr len).
Proof.
  intros Hb. unfold discard_pfns.
  assert (forall n b addr run, calm b -> calm (pfns_loop n b mem addr run).1) as Hl.
  { induction n as [|n IH]; intros b1 a run Hb1; cbn [pfns_loop]; [done|]. destruct (read_slice mem a 4) as [bs|]; [|done].
    destruct run as [[st l]|]; [|by apply IH]. case_test; [by apply IH|]. apply IH.
    unfold calm. destruct (discard_same b1 mem st l) as [-> ->]. done. }
  specialize (Hl (Z.to_nat (len / 4)) b addr None Hb). destruct (pfns_loop _ _ _ _ _) as [b1 [[st l]|]]; [|done].
  unfold calm. destruct (discard_same b1 mem st l) as [-> ->]. done.
Qed.

Lemma process_calm b i qs mem : calm b -> calm (balloon_process_queue b i qs mem).1.1.2.
Proof.
  intros Hb. unfold balloon_process_queue. destruct (layout b !! i) as [role|] eqn:El; [|done].
  destruct (qs !! i) as [q|]; [|done]. destruct (vq_ready q); [|done]. unfold drain.
  apply list_elem_of_lookup_2 in El. pose proof Hb as [_ [N1 N2]].
  assert (role <> Stats /\ role <> FreePageHint) as [R1 R2] by (split; intros ->; auto).
  pose proof (ring_serve_keeps (drain_head role) calm) as Hk.
  assert (forall s q mem head, calm s -> calm (drain_head role s q mem head).1.2) as Hd.
  { intros s q1 m1 head. unfold drain_head. cbn [fst snd]. generalize (default [] (chain q1 m1 head (Z.lor VRING_DESC_F_NEXT VRING_DESC_F_WRITE))).
    intros ds. revert s. induction ds as [|d ds IH]; intros s Hs; [done|]. apply IH.
    destruct role; try done; [by apply discard_pfns_calm|]. cbn [drain_desc]. unfold calm.
    destruct (discard_same s m1 (d_addr d) (d_len d)) as [-> ->]. done. }
  specialize (Hk Hd b q mem Hb). by destruct (ring_serve _ _ _ _) as [[[u1 b1] q1] m1].
Qed.

(** Only what the device offers is negotiated. *)
Lemma offered_served v : served (for_features (Z.land v OFFERED_FEATURES)).
Proof.
  assert (forall bit, Z.land OFFERED_FEATURES bit = 0 -> has_bits (Z.land v OFFERED_FEATURES) bit = false) as Hbit.
  { intros bit E. unfold has_bits. by rewrite <-Z.land_assoc, E, Z.land_0_r. }
  unfold for_features, OPTIONAL_QUEUES. cbn [List.filter]. rewrite !Hbit by reflexivity.
  destruct (has_bits _ _); (split; intros H; repeat (apply elem_of_cons in H as [H|H]; [done|]); by apply not_elem_of_nil in H).
Qed.

(** Whatever features a guest negotiates and whatever it does with the
    queues, the device serves only the roles it offered, so the branch the
    code takes for unreachable is. *)
Theorem balloon_never_panics total page mem evs :
  let b := c_backend (core (dev_run (M := M) evs (Device_new (BalloonBackend_new total page), mem)).1) in
  panicked b = false /\ served (layout b).
Proof.
  apply (dev_run_keeps calm).
  - split; cbn; intros; try done.
    + unfold balloon_config_write. by case_test.
    + destruct H as [Hp _]. split; [done|]. apply offered_served.
    + by apply process_calm.
    + destruct H as [Hp _]. split; [done|]. apply (offered_served OFFERED_FEATURES).
  - split; [done|]. apply (offered_served OFFERED_FEATURES).
Qed.
End balloon_proofs.

(** A memory target makes the guest keep at least what was asked for, less
    than a page more of it, and never asks for more than the guest has. *)
Theorem target_keeps_enough c n :
  0 <= total_bytes c < 2 ^ 44 -> 0 <= n ->
  let c' := (set_memory_target c n).1 in
  let keep := Z.min n (total_bytes c) in
  keep <= total_bytes c' - target_pages c' * PAGE_SIZE < keep + PAGE_SIZE /\
  0 <= target_pages c' < 2 ^ 32 /\ target_pages c' * PAGE_SIZE <= total_bytes c'.
Proof.
  intros Ht Hn c' keep. subst c'. unfold set_memory_target. fold keep. cbn. change PAGE_SIZE with 4096.
  assert (0 <= keep <= total_bytes c) as Hk by (unfold keep; lia). set (d := total_bytes c - keep).
  pose proof (Z.mul_div_le d 4096). pose proof (Z.mul_succ_div_gt d 4096). pose proof (Z.div_pos d 4096).
  rewrite wrap_small by (unfold in_width; lia). lia.
Qed.

(** ** Examples *)

(** Two pages of memory; the buffer at the start names page 1, then 0. *)
Definition demo_pages : Flat := le_bytes 4 1 ++ le_bytes 4 0 ++ replicate 8184 x00.
Definition demo_balloon : BalloonBackend := BalloonBackend_new 8192 4096.

Lemma demo_pages_small : small demo_pages.
Proof.
  intros a n Hc. cbn in Hc. apply flat_check_spec in Hc. change (zlen demo_pages) with 8192 in Hc. lia.
Qed.

Lemma demo_balloon_page : page_ok demo_balloon.
Proof. exists 12. split; [lia|reflexivity]. Qed.

Lemma inflate_gives_named_pages_witness :
  exists rs, discard_pfns demo_balloon demo_pages 0 8 = gave demo_balloon rs /\
    forall x, x / 4096 ∈ [1; 0] -> in_ranges rs x.
Proof.
  destruct (inflate_gives_named_pages (M := Flat) demo_balloon demo_pages 0 8 demo_balloon_page demo_pages_small)
    as (rs & E & _ & _ & H).
  exists rs. split; [exact E|]. apply H; [reflexivity|]. intros s n Hn Hx.
  assert (forall x, in_range (s, n) x -> 0 <= x < 8192) as Hin.
  { intros x Hr. specialize (Hx x Hr). change (pfns demo_pages 0 (Z.to_nat (8 / 4))) with [1; 0] in Hx.
    rewrite !elem_of_cons in Hx. pose proof (Z.mul_div_le x 4096). pose proof (Z.mul_succ_div_gt x 4096).
    destruct Hx as [Hx|[Hx|Hx%not_elem_of_nil]]; [lia|lia|done]. }
  apply flat_check_spec. change (zlen demo_pages) with 8192.
  pose proof (Hin s ltac:(unfold in_range; cbn; lia)). pose proof (Hin (s + n - 1) ltac:(unfold in_range; cbn; lia)). lia.
Defined.

Lemma balloon_discards_guest_memory_witness :
  gives demo_balloon (balloon_process_queue demo_balloon 0 [VirtioQueueState_new 128] demo_pages).1.1.2 demo_pages.
Proof.
  apply (balloon_discards_guest_memory (M := Flat) demo_balloon 0 [VirtioQueueState_new 128] demo_pages
           demo_balloon_page demo_pages_small).
  apply (offered_served OFFERED_FEATURES).
Defined.

Lemma balloon_never_panics_witness :
  panicked (c_backend (core (dev_run [EvWrite VIRTIO_MMIO_DRV_FEATURES (le_bytes 4 255);
    EvWrite VIRTIO_MMIO_STATUS (le_bytes 4 15); EvKick 2; EvServe] (Device_new demo_balloon, demo_pages)).1)) = false.
Proof. exact (proj1 (balloon_never_panics (M := Flat) 8192 4096 demo_pages _)). Defined.

Lemma target_keeps_enough_witness :
  let c' := (set_memory_target (control demo_balloon) 5000).1 in
  5000 <= total_bytes c' - target_pages c' * PAGE_SIZE.
Proof. apply (target_keeps_enough (control demo_balloon) 5000); cbn; lia. Defined.
