(* ===== verification/VsockDev.v ===== *)
(** * The vsock device

    [crates/shuru-linux/src/kvm/vsock.rs]: packets in guest memory, the batch
    of receive buffers, one pass over the queues, the guest reset after a
    restore, the connect line of the unix listener and the state the worker
    thread owns. Guest memory is the interface of [Queue]; every slice the
    code obtains from it has passed its range check. *)

From Stdlib Require Import Strings.Byte.
From S2P Require Import Prelude BTree Vsock Queue.

Definition BATCH : Z := 256.
Definition IOV_MAX : Z := 1024.
Definition KICK : Z := Z.shiftl 1 40.
Definition VIRTIO_VSOCK_EVENT_TRANSPORT_RESET : Z := 0.
Definition MAX_CONNECT_LINE : Z := 32.
Definition MAX_HANDSHAKES : Z := 16.

(** [VolatileSlice]: an address and a length. *)
Abbreviation Slice := (Z * Z)%type.

Section device.
Context `{GM : GuestMemory M}.

(** ** Packets *)

Definition get_slice (mem : M) (address size : Z) : result Slice ErrorKind :=
  if check_range mem address size then Ok (address, size) else Err invalid_queue.

Fixpoint split_loop (mem : M) (ds : list (Z * Z)) (header payload : list Slice) (missing len : Z)
    : result (list Slice * list Slice * Z * Z) ErrorKind :=
  match ds with
  | [] => Ok (header, payload, missing, len)
  | (address, size) :: ds =>
      if size =? 0 then split_loop mem ds header payload missing len else
      let? slice := get_slice mem address size in
      let take_ := Z.min missing size in
      let header := if 0 <? take_ then header ++ [(address, take_)] else header in
      let payload := if take_ <? size then payload ++ [(address + take_, size - take_)]
                     else payload in
      split_loop mem ds header payload
                 (if 0 <? take_ then missing - take_ else missing)
                 (if take_ <? size then len + (size - take_) else len)
  end.

Definition split (mem : M) (ds : list (Z * Z)) : result (list Slice * list Slice * Z) ErrorKind :=
  let? (header, payload, missing, len) := split_loop mem ds [] [] HEADER_LEN 0 in
  if 0 <? missing then Err invalid_queue else Ok (header, payload, len).

(** The bytes under slices, in order. *)
Definition slice_bytes (mem : M) (s : Slice) : bytes := default [] (read_slice mem (fst s) (snd s)).
Definition slices_bytes (mem : M) (ss : list Slice) : bytes := mjoin (map (slice_bytes mem) ss).

Record TxPacket := MkTxPacket { tp_slices : list Slice; tp_len : Z }.

Definition TxPacket_parse (mem : M) (ds : list (Z * Z)) : result (Header * TxPacket) ErrorKind :=
  let? (header, slices, len) := split mem ds in
  match Header_decode (slices_bytes mem header) with
  | None => Err invalid_queue
  | Some h => Ok (h, MkTxPacket slices len)
  end.

(** The slices holding the bytes from [offset] on. *)
Fixpoint slices_from (ss : list Slice) (offset : Z) : list Slice :=
  match ss with
  | [] => []
  | (a, n) :: ss =>
      if n <=? offset then slices_from ss (offset - n)
      else (a + offset, n - offset) :: slices_from ss 0
  end.

Definition TxPacket_send (mem : M) (p : TxPacket) (s : Socket) (offset : Z)
    : result Z ErrorKind * Socket :=
  sock_send s (slices_bytes mem (ztake IOV_MAX (slices_from (tp_slices p) offset))).

(** The inner loop of [copy]: [src] is what is left of the slice, [dst] the
    room left in the current part of the deque, [parts] the parts after it.
    The flag is [false] where the code returns. *)
Fixpoint copy_slice (fuel : nat) (src : bytes) (dst : Z) (parts : list Z) (out : bytes)
    : bool * Z * list Z * bytes :=
  match fuel with
  | O => (true, dst, parts, out)
  | S fuel =>
      if bool_decide (src = []) then (true, dst, parts, out) else
      match (if dst =? 0 then match parts with [] => None | p :: ps => Some (p, ps) end
             else Some (dst, parts)) with
      | None => (false, dst, parts, out)
      | Some (dst, parts) =>
          let n := Z.min (zlen src) dst in
          if n =? 0 then (false, dst, parts, out)
          else copy_slice fuel (zdrop n src) (dst - n) parts (out ++ ztake n src)
      end
  end.

Fixpoint copy_slices (mem : M) (ss : list Slice) (dst : Z) (parts : list Z) (out : bytes) : bytes :=
  match ss with
  | [] => out
  | s :: ss =>
      let src := slice_bytes mem s in
      let '(ok, dst, parts, out) := copy_slice (S (length src)) src dst parts out in
      if ok then copy_slices mem ss dst parts out else out
  end.

(** [front] is the length of the deque's first half after the resize. What
    the loops do not reach keeps the zeros of the resize. *)
Definition TxPacket_copy (mem : M) (p : TxPacket) (offset front : Z) (out : bytes) : bytes :=
  let start := zlen out in
  let total := start + tp_len p - offset in
  let parts := if front <=? start then [total - front - (start - front)]
               else [front - start; total - front] in
  let written := match parts with
                 | dst :: parts =>
                     copy_slices mem (slices_from (tp_slices p) offset) dst parts out
                 | [] => out
                 end in
  written ++ replicate (Z.to_nat (total - zlen written)) x00.

(** ** Receive buffers *)

Record RxChain := MkRxChain {
  rc_head : Z; rc_header : list Slice; rc_payload : list Slice; rc_room : Z; rc_len : Z;
}.

Record RxBatch := MkRxBatch {
  rb_mem : M; rb_queue : Queue; rb_chains : list RxChain; rb_done : bool;
  rb_invalid : option Z; rb_error : option ErrorKind;
}.

Definition RxBatch_new (mem : M) (q : Queue) : RxBatch := MkRxBatch mem q [] false None None.

(** One turn of the loop of [load]. *)
Definition load_step (b : RxBatch) : RxBatch :=
  let '(MkRxBatch mem q chains done_ invalid error) := b in
  if zlen chains =? BATCH then MkRxBatch mem q chains true invalid error else
  match head_at q mem (zlen chains) with
  | Ok (Some hd) =>
      match (match descriptors q mem hd true with
             | Some (Ok ds) => split mem ds
             | Some (Err e) => Err e
             | None => Err invalid_queue
             end) with
      | Ok (header, payload, room) =>
          MkRxBatch mem q (chains ++ [MkRxChain hd header payload room 0]) done_ invalid error
      | Err _ =>
          MkRxBatch mem q chains true
                    (if bool_decide (chains = []) then Some hd else invalid) error
      end
  | Ok None => MkRxBatch mem q chains true invalid error
  | Err e => MkRxBatch mem q chains true invalid (Some e)
  end.

(** Every turn adds a chain, of which there are at most [BATCH], or ends. *)
Fixpoint load_loop (fuel : nat) (b : RxBatch) (index : Z) : RxBatch :=
  match fuel with
  | O => b
  | S fuel =>
      if (zlen (rb_chains b) <=? index) && negb (rb_done b)
      then load_loop fuel (load_step b) index else b
  end.

Definition load (b : RxBatch) (index : Z) : bool * RxBatch :=
  let b := load_loop (Z.to_nat (BATCH + 1)) b index in
  (index <? zlen (rb_chains b), b).

Definition RxBatch_room (b : RxBatch) (index : Z) : option Z * RxBatch :=
  let '(ok, b) := load b index in
  (if ok then (fun c => Z.min (rc_room c) MAX_PACKET) <$> znth (rb_chains b) index else None, b).

(** Writes bytes over slices, in order. *)
Fixpoint scatter (mem : M) (ss : list Slice) (bs : bytes) : M :=
  match ss with
  | [] => mem
  | (a, n) :: ss =>
      scatter (default mem (write_slice mem a (ztake n bs))) ss (zdrop n bs)
  end.

Definition RxBatch_put_header (b : RxBatch) (index : Z) (header : Header) : RxBatch :=
  match znth (rb_chains b) index with
  | None => b
  | Some c =>
      MkRxBatch (scatter (rb_mem b) (rc_header c) (Header_encode header)) (rb_queue b)
        (alter (fun c => MkRxChain (rc_head c) (rc_header c) (rc_payload c) (rc_room c)
                                   (wrap 32 (HEADER_LEN + h_len header)))
               (Z.to_nat index) (rb_chains b))
        (rb_done b) (rb_invalid b) (rb_error b)
  end.

(** The slices of one chain, cut to [room], while there is a place in the
    vector. The flag is [false] for [break 'chains]. *)
Fixpoint recv_slices (ss : list Slice) (room : Z) (parts : list Slice) : bool * list Slice :=
  match ss with
  | [] => (true, parts)
  | (a, n) :: ss =>
      if room =? 0 then (true, parts) else
      if zlen parts =? IOV_MAX then (false, parts) else
      let len := Z.min n room in
      recv_slices ss (room - len) (parts ++ [(a, len)])
  end.

(** Every turn takes a chain, of which there are at most [BATCH]. *)
Fixpoint recv_parts (fuel : nat) (b : RxBatch) (index left_ : Z) (parts : list Slice)
    : list Slice * RxBatch :=
  match fuel with
  | O => (parts, b)
  | S fuel =>
      let '(r, b) := RxBatch_room b index in
      let room := Z.min (default 0 r) left_ in
      if room =? 0 then (parts, b) else
      let payload := match znth (rb_chains b) index with Some c => rc_payload c | None => [] end in
      let '(go, parts) := recv_slices payload room parts in
      if go then recv_parts fuel b (index + 1) (left_ - room) parts else (parts, b)
  end.

Definition RxBatch_recv (b : RxBatch) (s : Socket) (first max : Z)
    : result Z ErrorKind * RxBatch * Socket :=
  let '(parts, b) := recv_parts (Z.to_nat (BATCH + 1)) b first max [] in
  let '(r, s) := sock_read s (foldr (fun p acc => snd p + acc) 0 parts) in
  match r with
  | Err e => (Err e, b, s)
  | Ok bs =>
      (Ok (zlen bs),
       MkRxBatch (scatter (rb_mem b) parts bs) (rb_queue b) (rb_chains b) (rb_done b)
                 (rb_invalid b) (rb_error b), s)
  end.

#[export] Instance rx_batch_buffers : RxBuffers RxBatch := {
  rx_room := RxBatch_room;
  rx_put_header := RxBatch_put_header;
  rx_recv := RxBatch_recv;
}.

(** ** One pass *)

(** [raised] counts the interrupts raised. *)
Record Transport := MkTransport {
  t_rx : Queue; t_tx : Queue; t_event : Queue; resetting : option Z; raised : Z;
}.

Definition set_rx (t : Transport) (q : Queue) : Transport :=
  MkTransport q (t_tx t) (t_event t) (resetting t) (raised t).
Definition set_tx (t : Transport) (q : Queue) : Transport :=
  MkTransport (t_rx t) q (t_event t) (resetting t) (raised t).
Definition set_event (t : Transport) (q : Queue) : Transport :=
  MkTransport (t_rx t) (t_tx t) q (resetting t) (raised t).
Definition set_resetting (t : Transport) (r : option Z) : Transport :=
  MkTransport (t_rx t) (t_tx t) (t_event t) r (raised t).
Definition raise (t : Transport) : Transport :=
  MkTransport (t_rx t) (t_tx t) (t_event t) (resetting t) (raised t + 1).

(** [descriptors] with its fuel put away. *)
Definition queue_descriptors (q : Queue) (mem : M) (hd : Z) (writable : bool)
    : result (list (Z * Z)) ErrorKind :=
  match descriptors q mem hd writable with Some r => r | None => Err invalid_queue end.

Definition reset_guest (t : Transport) (mem : M) : result (Transport * M) ErrorKind :=
  let? posted_ := posted (t_event t) mem in
  let? hd := head (t_event t) mem in
  match hd with
  | None => Err Other
  | Some hd =>
      let? ds := queue_descriptors (t_event t) mem hd true in
      match ds with
      | (address, len) :: _ =>
          if len <? 4 then Err invalid_queue else
          let? mem := write_obj mem 4 VIRTIO_VSOCK_EVENT_TRANSPORT_RESET address in
          let? (event, mem) := complete (t_event t) mem hd (Z.min len 4) in
          let t := set_event t event in
          let t := if wants_interrupt event mem then raise t else t in
          Ok (set_resetting t (Some (wrapping_add 16 posted_ 1)), mem)
      | [] => Err invalid_queue
      end
  end.

Definition accepts_connects (t : Transport) (mem : M) : result bool ErrorKind * Transport :=
  match resetting t with
  | None => (Ok true, t)
  | Some handled =>
      match posted (t_event t) mem with
      | Err e => (Err e, t)
      | Ok p =>
          if 0x8000 <=? wrapping_sub 16 p handled then (Ok false, t)
          else (Ok true, set_resetting t None)
      end
  end.

(** What one packet of the tx queue does to the mux. *)
Definition tx_packet (tx : Queue) (mem : M) (hd : Z) (mux : Mux) : Mux :=
  match queue_descriptors tx mem hd false with
  | Err _ => mux
  | Ok ds =>
      match TxPacket_parse mem ds with
      | Err _ => mux
      | Ok (header, p) => Mux_receive mux header (slices_bytes mem (tp_slices p))
      end
  end.

(** [for _ in 0..BATCH]: the flag says whether any buffer was used; an error
    comes with the state it leaves. *)
Fixpoint tx_loop (n : nat) (t : Transport) (mem : M) (mux : Mux) (used : bool)
    : result bool ErrorKind * Transport * M * Mux :=
  match n with
  | O => (Ok used, t, mem, mux)
  | S n =>
      if negb (can_receive mux) then (Ok used, t, mem, mux) else
      match head (t_tx t) mem with
      | Err e => (Err e, t, mem, mux)
      | Ok None => (Ok used, t, mem, mux)
      | Ok (Some hd) =>
          let mux := tx_packet (t_tx t) mem hd mux in
          match complete (t_tx t) mem hd 0 with
          | Err e => (Err e, t, mem, mux)
          | Ok (tx, mem) => tx_loop n (set_tx t tx) mem mux true
          end
      end
  end.

Fixpoint complete_all (q : Queue) (mem : M) (filled : list (Z * Z)) : result (Queue * M) ErrorKind :=
  match filled with
  | [] => Ok (q, mem)
  | (hd, len) :: filled =>
      let? (q, mem) := complete q mem hd len in
      complete_all q mem filled
  end.

(** Two turns per buffer of a batch and two more. *)
Definition FILL_FUEL : nat := Z.to_nat (2 * BATCH + 2).

(** The rx half of [process]: fills buffers, hands them and a malformed one
    at the front back. *)
Definition rx_pass (t : Transport) (mem : M) (mux : Mux)
    : result bool ErrorKind * Transport * M * Mux :=
  match Mux_fill FILL_FUEL mux (RxBatch_new mem (t_rx t)) with
  | None => (Err invalid_queue, t, mem, mux)
  | Some (used, batch, mux) =>
      let mem := rb_mem batch in
      let filled := map (fun c => (rc_head c, rc_len c)) (ztake used (rb_chains batch)) in
      match rb_error batch with
      | Some e => (Err e, t, mem, mux)
      | None =>
          let all := filled ++ match rb_invalid batch with Some hd => [(hd, 0)] | None => [] end in
          match complete_all (t_rx t) mem all with
          | Err e => (Err e, t, mem, mux)
          | Ok (rx, mem) =>
              (Ok ((0 <? used) || bool_decide (rb_invalid batch <> None)), set_rx t rx, mem, mux)
          end
      end
  end.

(** The end of [process]: kicks back on, the interrupt, and whether there is
    more to do. *)
Definition process_end (t : Transport) (mem : M) (mux : Mux) (tx_used rx_used : bool)
    : result bool ErrorKind * Transport * M :=
  match head (t_rx t) mem with
  | Err e => (Err e, t, mem)
  | Ok drained =>
      match set_notify (t_tx t) mem true with
      | Err e => (Err e, t, mem)
      | Ok mem =>
          match set_notify (t_rx t) mem true with
          | Err e => (Err e, t, mem)
          | Ok mem =>
              let t := if (tx_used && wants_interrupt (t_tx t) mem)
                          || (rx_used && wants_interrupt (t_rx t) mem) then raise t else t in
              if tx_used || rx_used then (Ok true, t, mem) else
              match (if can_receive mux then head (t_tx t) mem else Ok None) with
              | Err e => (Err e, t, mem)
              | Ok (Some _) => (Ok true, t, mem)
              | Ok None =>
                  match (if bool_decide (drained = None) then head (t_rx t) mem else Ok None) with
                  | Err e => (Err e, t, mem)
                  | Ok more => (Ok (bool_decide (more <> None)), t, mem)
                  end
              end
          end
      end
  end.

Definition process (now : Z) (t : Transport) (mem : M) (mux : Mux)
    : result bool ErrorKind * Transport * M * Mux :=
  match set_notify (t_tx t) mem false with
  | Err e => (Err e, t, mem, mux)
  | Ok mem =>
      match set_notify (t_rx t) mem false with
      | Err e => (Err e, t, mem, mux)
      | Ok mem =>
          match tx_loop (Z.to_nat BATCH) t mem mux false with
          | (Err e, t, mem, mux) => (Err e, t, mem, mux)
          | (Ok tx_used, t, mem, mux) =>
              match rx_pass t mem (Mux_pump now mux) with
              | (Err e, t, mem, mux) => (Err e, t, mem, mux)
              | (Ok rx_used, t, mem, mux) =>
                  let '(r, t, mem) := process_end t mem mux tx_used rx_used in
                  (r, t, mem, mux)
              end
          end
      end
  end.

(** ** The state of the device *)

Record State := MkState {
  transport : option Transport; s_mux : Mux; failed : bool; frozen : bool;
}.

Definition State_new (max : Z) : State := MkState None (Mux_with_limit max) false false.

Definition deactivate (st : State) : State := MkState None (Mux_clear (s_mux st)) false false.

(** [attach], with the outcomes of [set_nonblocking] and of the epoll
    registration, and whether the device is stopping. *)
Definition attach (now : Z) (st : State) (mem : M) (device : Socket) (port : Z) (o : Opener)
    (stopping : bool) (nonblocking registered : result unit ErrorKind)
    : result Z ErrorKind * State :=
  let '(ready, tr) :=
    match transport st with
    | Some t => let '(r, t) := accepts_connects t mem in
                (match r with Ok b => b | Err _ => false end, Some t)
    | None => (false, None)
    end in
  let st := MkState tr (s_mux st) (failed st) (frozen st) in
  if negb ready || failed st || stopping then (Err ConnectionRefused, st) else
  let '(r, mux) := Mux_add now (s_mux st) device port o nonblocking in
  let st := MkState (transport st) mux (failed st) (frozen st) in
  match r with
  | Err e => (Err e, st)
  | Ok host_port =>
      match registered with
      | Err e => (Err e, MkState (transport st) (Mux_cancel mux host_port) (failed st) (frozen st))
      | Ok _ => (Ok host_port, st)
      end
  end.

(** An event of the epoll set, already decoded from its token and flags. *)
Inductive Event :=
  | EvNotify
  | EvKick
  | EvSocket (port : Z) (ev_in ev_out ev_rdhup ev_closed : bool).

Definition run_event (mux : Mux) (e : Event) : Mux :=
  match e with
  | EvNotify | EvKick => mux
  | EvSocket port i o rdhup closed => Mux_wake mux port (closed || (i || rdhup)) (closed || o)
  end.

(** One turn of the worker after [epoll_wait]: its events, or a failure. The
    flag is whether the next wait is skipped; [None] ends the worker. *)
Definition run_turn (now : Z) (st : State) (mem : M) (events : option (list Event))
    : option (bool * State * M) * State :=
  match events with
  | None => (None, MkState None (Mux_clear (s_mux st)) true (frozen st))
  | Some events =>
      let mux := fold_left run_event events (s_mux st) in
      let st := MkState (transport st) mux (failed st) (frozen st) in
      if frozen st then (Some (false, st, mem), st) else
      match transport st with
      | None => (Some (false, st, mem), st)
      | Some t =>
          match process now t mem mux with
          | (Ok more, t, mem, mux) =>
              let st := MkState (Some t) mux (failed st) (frozen st) in (Some (more, st, mem), st)
          | (Err _, _, mem, mux) =>
              let st := MkState None (Mux_clear mux) true (frozen st) in
              (Some (false, st, mem), st)
          end
      end
  end.

(** [wait_ms], with the microseconds left until the deadline. *)
Definition wait_ms (left_us : option Z) : Z :=
  match left_us with
  | None => -1
  | Some us => Z.min ((Z.max 0 us + 999) / 1000) (2 ^ 31 - 1)
  end.

(** ** The virtio backend *)

Record VirtioQueueState := MkVirtioQueueState {
  vq_ready : bool; vq_size : Z; vq_desc : Z; vq_avail : Z; vq_used : Z;
}.

Definition backend_queue (mem : M) (v : VirtioQueueState) : result Queue ErrorKind :=
  if negb (vq_ready v) then Err invalid_queue
  else Queue_new (vq_size v) (vq_desc v) (vq_avail v) (vq_used v) mem.

Definition backend_transport (negotiated : bool) (queues : list VirtioQueueState) (mem : M)
    : result Transport ErrorKind :=
  if negb negotiated then Err invalid_queue else
  match queues with
  | [rx; tx; event] =>
      let? rx := backend_queue mem rx in
      let? tx := backend_queue mem tx in
      let? event := backend_queue mem event in
      Ok (MkTransport rx tx event None 0)
  | _ => Err invalid_queue
  end.

Definition activate (negotiated : bool) (queues : list VirtioQueueState) (mem : M) (st : State)
    : State :=
  match backend_transport negotiated queues mem with
  | Ok t => if failed st then MkState (transport st) (s_mux st) true (frozen st)
            else MkState (Some t) (s_mux st) false (frozen st)
  | Err _ => MkState (transport st) (s_mux st) true (frozen st)
  end.

(** The snapshot of the device: where each ring stands. *)
Definition save (st : State) : result (Z * Z * Z) ErrorKind * State :=
  match transport st with
  | None => (Err Other, st)
  | Some t =>
      (Ok (Queue_index (t_rx t), Queue_index (t_tx t), Queue_index (t_event t)),
       MkState (transport st) (s_mux st) (failed st) true)
  end.

Definition restore (negotiated : bool) (saved : Z * Z * Z) (queues : list VirtioQueueState)
    (mem : M) (st : State) : result (State * M) ErrorKind :=
  let '(rx, tx, event) := saved in
  let? t := backend_transport negotiated queues mem in
  let t := MkTransport (starting_at (t_rx t) rx) (starting_at (t_tx t) tx)
                       (starting_at (t_event t) event) None 0 in
  let? (t, mem) := reset_guest t mem in
  Ok (MkState (Some t) (s_mux st) (failed st) (frozen st), mem).

Definition resume (st : State) : State := MkState (transport st) (s_mux st) (failed st) false.

Definition config_read (offset : Z) : Z :=
  if offset =? 0 then wrap 32 GUEST_CID
  else if offset =? 4 then wrap 32 (Z.shiftr GUEST_CID 32) else 0.
End device.
Arguments RxBatch M : clear implicits.

(** ** The connect line *)

Definition CONNECT : bytes := [x43; x4f; x4e; x4e; x45; x43; x54; x20].
Definition NEWLINE : byte := x0a.

Definition is_ascii_digit (b : byte) : bool := (48 <=? b2z b) && (b2z b <=? 57).

(** [str::parse::<u32>] of ASCII digits: no digits is an error, and so is a
    value out of range. *)
Fixpoint parse_digits (acc : Z) (ds : bytes) : option Z :=
  match ds with
  | [] => Some acc
  | d :: ds =>
      let v := acc * 10 + (b2z d - 48) in
      if v <? 2 ^ 32 then parse_digits v ds else None
  end.
Definition parse_u32 (ds : bytes) : option Z :=
  if bool_decide (ds = []) then None else parse_digits 0 ds.

(** [strip_prefix("CONNECT ")] and what follows. A line that is not UTF-8
    has a byte that is neither of the prefix nor a digit. *)
Definition connect_port (line : bytes) : option Z :=
  if bool_decide (ztake 8 line = CONNECT) then
    let port := zdrop 8 line in
    if forallb is_ascii_digit port then parse_u32 port else None
  else None.

(** Byte by byte, so that nothing after the line is consumed. The input is
    what the client sent before it closed. *)
Fixpoint read_connect_loop (fuel : nat) (input line : bytes) : result (Z * bytes) ErrorKind :=
  match fuel with
  | O => Err InvalidData
  | S fuel =>
      match input with
      | [] => Err InvalidData
      | b :: input =>
          if bool_decide (b = NEWLINE) then
            match connect_port line with
            | Some port => Ok (port, input)
            | None => Err InvalidData
            end
          else read_connect_loop fuel input (line ++ [b])
      end
  end.

(** [while line.len() < MAX_CONNECT_LINE]: as many bytes are read. *)
Definition read_connect (input : bytes) : result (Z * bytes) ErrorKind :=
  read_connect_loop (Z.to_nat MAX_CONNECT_LINE) input [].
