(* ===== verification/VsockDevProofs.v ===== *)
(** * The vsock device under an arbitrary guest

    Theorems on [VsockDev]: the packet of a descriptor chain is its bytes in
    order, a pass over the queues ends and keeps every invariant whatever
    the guest put into its memory, and the connect line is read exactly. *)

From Stdlib Require Import Strings.Byte.
From S2P Require Import Prelude BTree Vsock VsockConn VsockMux Queue VsockDev.

(** ** Packets *)

Section packets.
Context `{GM : GuestMemory M, GL : !GuestMemoryLaws M}.
Implicit Types (ss : list Slice).

Definition slices_ok (mem : M) ss : Prop :=
  Forall (fun s => 0 <= snd s /\ check_range mem (fst s) (snd s) = true) ss.

Lemma slices_bytes_cons (mem : M) s ss :
  slices_bytes mem (s :: ss) = slice_bytes mem s ++ slices_bytes mem ss.
Proof. done. Qed.

Lemma slices_bytes_app (mem : M) ss1 ss2 :
  slices_bytes mem (ss1 ++ ss2) = slices_bytes mem ss1 ++ slices_bytes mem ss2.
Proof. unfold slices_bytes. rewrite map_app. apply join_app. Qed.

Lemma zlen_slice_bytes (mem : M) a n :
  0 <= n -> check_range mem a n = true -> zlen (slice_bytes mem (a, n)) = n.
Proof.
  intros ? Hc. unfold slice_bytes; simpl. by destruct (mem_read mem a n Hc) as (bs & -> & ?).
Qed.

(** A slice and its two halves. *)
Lemma slice_halves (mem : M) a n k :
  0 <= k <= n -> check_range mem a n = true ->
  slice_bytes mem (a, k) = ztake k (slice_bytes mem (a, n)) /\
  slice_bytes mem (a + k, n - k) = zdrop k (slice_bytes mem (a, n)).
Proof.
  intros ? Hc. unfold slice_bytes; simpl.
  destruct (mem_read_split mem a k (n - k)) as (b1 & b2 & H1 & H2 & H3);
    [by replace (k + (n - k)) with n by lia|lia..|].
  replace (k + (n - k)) with n in H3 by lia. rewrite H1, H2, H3. simpl.
  assert (zlen b1 = k).
  { destruct (mem_read mem a k) as (b & Hb & Hl); [eapply mem_sub; [exact Hc|lia..]|lia|].
    congruence. }
  by rewrite ztake_app_exact, zdrop_app_exact by lia.
Qed.

(** The first [missing] bytes of the chain go to the header, the rest to the
    payload. *)
Lemma split_loop_spec (mem : M) ds : forall header payload missing len,
  slices_ok mem ds -> 0 <= missing ->
  exists h p, split_loop mem ds header payload missing len
      = Ok (header ++ h, payload ++ p, Z.max 0 (missing - zlen (slices_bytes mem ds)),
            len + zlen (slices_bytes mem p)) /\
    slices_bytes mem h = ztake missing (slices_bytes mem ds) /\
    slices_bytes mem p = zdrop missing (slices_bytes mem ds) /\
    zlen p <= zlen ds /\ slices_ok mem p.
Proof.
  induction ds as [|[a n] ds IH]; intros header payload missing len Hok Hm; simpl.
  { exists [], []. rewrite !app_nil_r. unfold slices_bytes; simpl.
    rewrite ztake_ge, zdrop_ge, Z.add_0_r by zlen_lia. split_and!; try done.
    do 3 f_equal. change (zlen (@nil byte)) with 0. lia. }
  apply Forall_cons_1 in Hok as [[Hn Hc] Hok]. simpl in *.
  pose proof (zlen_slice_bytes mem a n Hn Hc) as Hl. rewrite slices_bytes_cons.
  case_test; bool_to_prop.
  { subst n. apply zlen_zero in Hl. rewrite Hl. simpl.
    destruct (IH header payload missing len Hok Hm) as (h & p & -> & ? & ? & ? & ?).
    exists h, p. split_and!; try done. zlen_lia. }
  unfold get_slice. rewrite Hc.
  destruct (slice_halves mem a n (Z.min missing n) ltac:(lia) Hc) as [H1 H2].
  set (k := Z.min missing n) in *.
  assert (Hck : 0 < n - k -> check_range mem (a + k) (n - k) = true).
  { intros. eapply mem_sub; [exact Hc|lia..]. }
  destruct (IH (if 0 <? k then header ++ [(a, k)] else header)
               (if k <? n then payload ++ [(a + k, n - k)] else payload)
               (missing - k) (if k <? n then len + (n - k) else len) Hok ltac:(lia))
    as (h & p & Hs & Hh & Hp & Hle & Hpok).
  exists ((if 0 <? k then [(a, k)] else []) ++ h), ((if k <? n then [(a + k, n - k)] else []) ++ p).
  replace (if 0 <? k then missing - k else missing) with (missing - k)
    by (case_test; bool_to_prop; lia).
  assert (Hh1 : slices_bytes mem (if 0 <? k then [(a, k)] else []) = ztake k (slice_bytes mem (a, n))).
  { case_test; bool_to_prop; [|by rewrite ztake_nonpos].
    unfold slices_bytes; simpl. by rewrite app_nil_r. }
  assert (Hp1 : slices_bytes mem (if k <? n then [(a + k, n - k)] else [])
                = zdrop k (slice_bytes mem (a, n))).
  { case_test; bool_to_prop; [|by rewrite zdrop_ge by lia].
    unfold slices_bytes; simpl. by rewrite app_nil_r. }
  rewrite Hs, !slices_bytes_app, Hh1, Hp1, Hh, Hp. split_and!.
  - assert (Hcat : forall (c : bool) (l r : list Slice) x,
              (if c then l ++ [x] else l) ++ r = l ++ (if c then [x] else []) ++ r)
      by (intros [] l r x; [by rewrite <-app_assoc|done]).
    rewrite !Hcat. do 2 f_equal; [f_equal; zlen_lia|].
    rewrite zlen_app, (zlen_drop k (slice_bytes mem (a, n))), Hl. case_test; bool_to_prop; lia.
  - destruct (decide (missing <= n)).
    + rewrite (ztake_nonpos (missing - k)), app_nil_r by lia.
      rewrite ztake_app_le by lia. f_equal. lia.
    + rewrite (ztake_ge k) by lia. rewrite ztake_app_ge by lia. do 2 f_equal. lia.
  - destruct (decide (missing <= n)).
    + rewrite (zdrop_nonpos (missing - k)) by lia. rewrite zdrop_app_le by lia. do 2 f_equal. lia.
    + rewrite (zdrop_ge k) by lia. rewrite zdrop_app_ge by lia. simpl. f_equal. lia.
  - case_test; zlen_lia.
  - case_test; bool_to_prop; [|done]. constructor; [|done]. simpl. split; [lia|apply Hck; lia].
Qed.

(** What a packet's slices give from an offset on. *)
Lemma slices_from_spec (mem : M) ss : forall offset,
  slices_ok mem ss -> 0 <= offset ->
  slices_bytes mem (slices_from ss offset) = zdrop offset (slices_bytes mem ss) /\
  zlen (slices_from ss offset) <= zlen ss.
Proof.
  induction ss as [|[a n] ss IH]; intros offset Hok Ho; simpl.
  { unfold slices_bytes; simpl. split; [|done]. by rewrite zdrop_ge. }
  apply Forall_cons_1 in Hok as [[Hn Hc] Hok]. simpl in *.
  pose proof (zlen_slice_bytes mem a n Hn Hc) as Hl. rewrite slices_bytes_cons.
  case_test; bool_to_prop.
  - destruct (IH (offset - n) Hok ltac:(lia)) as [-> ?]. rewrite zdrop_app_ge by lia.
    rewrite Hl. split; [done|zlen_lia].
  - destruct (IH 0 Hok ltac:(lia)) as [IH1 ?]. rewrite slices_bytes_cons, IH1.
    rewrite zdrop_app_le by lia. rewrite (zdrop_nonpos 0) by lia.
    rewrite (proj2 (slice_halves mem a n offset ltac:(lia) Hc)). split; [done|zlen_lia].
Qed.

(** The parts of the deque after the current one: at most one. *)
Definition part_ok (parts : list Z) : Prop :=
  match parts with [] => True | [p] => 0 <= p | _ => False end.

(** The copy loops fill the parts one after the other. *)
Lemma copy_slice_spec fuel : forall src dst parts out,
  zlen src < Z.of_nat fuel -> 0 <= dst -> part_ok parts ->
  zlen src <= dst + foldr Z.add 0 parts ->
  exists dst' parts', copy_slice fuel src dst parts out = (true, dst', parts', out ++ src) /\
    0 <= dst' /\ part_ok parts' /\
    dst' + foldr Z.add 0 parts' = dst + foldr Z.add 0 parts - zlen src.
Proof.
  induction fuel as [|fuel IH]; intros src dst parts out Hf Hd Hp Hroom; [zlen_lia|].
  simpl. case_bool_decide as Hs.
  { subst. rewrite app_nil_r. change (zlen (@nil byte)) with 0. eexists _, _. split_and!; try done. lia. }
  assert (0 < zlen src).
  { destruct (decide (zlen src = 0)) as [Hz%zlen_zero|]; [done|zlen_lia]. }
  assert (Hgo : forall dst1 parts1, 0 < dst1 -> part_ok parts1 ->
     dst1 + foldr Z.add 0 parts1 = dst + foldr Z.add 0 parts ->
     exists dst' parts', (let n := Z.min (zlen src) dst1 in
        if n =? 0 then (false, dst1, parts1, out)
        else copy_slice fuel (zdrop n src) (dst1 - n) parts1 (out ++ ztake n src))
        = (true, dst', parts', out ++ src) /\ 0 <= dst' /\ part_ok parts' /\
     dst' + foldr Z.add 0 parts' = dst + foldr Z.add 0 parts - zlen src).
  { intros dst1 parts1 Hd1 Hp1 Hsum. cbv zeta. rewrite (proj2 (Z.eqb_neq _ _)) by lia.
    destruct (IH (zdrop (Z.min (zlen src) dst1) src) (dst1 - Z.min (zlen src) dst1) parts1
                 (out ++ ztake (Z.min (zlen src) dst1) src))
      as (d' & p' & -> & ? & ? & Hs'); [zlen_lia|lia|done|zlen_lia|].
    exists d', p'. rewrite <-app_assoc, ztake_zdrop. split_and!; try done. zlen_lia. }
  destruct (dst =? 0) eqn:E; bool_to_prop.
  - destruct parts as [|p [|]]; simpl in *; [lia| |done]. apply Hgo; [lia|done|simpl; lia].
  - apply Hgo; [lia|done|done].
Qed.

Lemma copy_slices_spec (mem : M) ss : forall dst parts out,
  0 <= dst -> part_ok parts ->
  zlen (slices_bytes mem ss) <= dst + foldr Z.add 0 parts ->
  copy_slices mem ss dst parts out = out ++ slices_bytes mem ss.
Proof.
  induction ss as [|s ss IH]; intros dst parts out Hd Hp Hroom; cbn [copy_slices].
  { unfold slices_bytes; simpl. by rewrite app_nil_r. }
  rewrite slices_bytes_cons in *. rewrite zlen_app in Hroom.
  destruct (copy_slice_spec (S (length (slice_bytes mem s))) (slice_bytes mem s) dst parts out)
    as (d' & p' & -> & ? & ? & ?); [unfold zlen; lia|done|done|zlen_lia|].
  rewrite IH by (done || lia). by rewrite app_assoc.
Qed.

(** A packet of the tx queue is the bytes of its descriptor chain. The
    header is decoded from the first 44 bytes, however they are split over
    buffers; the payload is the rest. Sending from an offset offers the host
    socket exactly the payload from there on, and queueing from an offset
    appends exactly that to the deque, wherever the deque wraps. A chain
    without a whole header is refused. *)
Theorem tx_packet_is_chain (mem : M) ds :
  slices_ok mem ds -> zlen ds <= IOV_MAX ->
  let all := slices_bytes mem ds in
  match TxPacket_parse mem ds with
  | Err e => e = invalid_queue /\ zlen all < HEADER_LEN
  | Ok (h, p) =>
      Header_decode all = Some h /\
      slices_bytes mem (tp_slices p) = zdrop HEADER_LEN all /\
      tp_len p = zlen all - HEADER_LEN /\
      forall offset, 0 <= offset <= tp_len p ->
        (forall s, TxPacket_send mem p s offset
                   = sock_send s (zdrop offset (zdrop HEADER_LEN all))) /\
        (forall out front, 0 <= front <= zlen out + tp_len p - offset ->
           TxPacket_copy mem p offset front out = out ++ zdrop offset (zdrop HEADER_LEN all))
  end.
Proof.
  intros Hok Hiov. cbv zeta. unfold TxPacket_parse, split.
  destruct (split_loop_spec mem ds [] [] HEADER_LEN 0 Hok) as (h & p & -> & Hh & Hp & Hle & Hpok);
    [unfold HEADER_LEN; lia|].
  set (all := slices_bytes mem ds) in *.
  case_test; bool_to_prop; [split; [done|lia]|].
  simpl. rewrite Hh.
  assert (Hlen : HEADER_LEN <= zlen all) by (unfold HEADER_LEN in *; lia).
  assert (Hdec : Header_decode (ztake HEADER_LEN all) = Header_decode all).
  { destruct (Header_decode all) as [hd|] eqn:E.
    - apply encode_decode in E as [Hwf Henc]. rewrite <-Henc.
      rewrite <-(app_nil_r (Header_encode hd)). by apply decode_encode.
    - unfold Header_decode in E. by rewrite (proj2 (Z.ltb_ge _ _)) in E by lia. }
  rewrite Hdec. destruct (Header_decode all) as [hd|] eqn:Ehd.
  2: { unfold Header_decode in Ehd. by rewrite (proj2 (Z.ltb_ge _ _)) in Ehd by lia. }
  simpl. rewrite Hp. split_and!; [done..|unfold HEADER_LEN in *; zlen_lia|].
  intros offset Ho.
  destruct (slices_from_spec mem p offset Hpok ltac:(lia)) as [Hfrom Hcount].
  rewrite Hp in Hfrom. split.
  - intros s. unfold TxPacket_send. cbn [tp_slices]. rewrite ztake_ge by lia. by rewrite Hfrom.
  - intros out front Hfront. unfold TxPacket_copy. cbn [tp_slices tp_len] in *.
    set (body := zdrop HEADER_LEN all) in *.
    assert (Hpart : zlen (zdrop offset body) = zlen body - offset) by zlen_lia.
    assert (Hall : forall dst parts, 0 <= dst -> part_ok parts ->
       dst + foldr Z.add 0 parts = zlen body - offset ->
       copy_slices mem (slices_from p offset) dst parts out ++
         replicate (Z.to_nat (zlen out + (0 + zlen body) - offset -
           zlen (copy_slices mem (slices_from p offset) dst parts out))) x00
       = out ++ zdrop offset body).
    { intros dst parts ? ? Hsum. rewrite copy_slices_spec; [|done|done|rewrite Hfrom; lia].
      rewrite Hfrom, zlen_app, Hpart.
      replace (Z.to_nat _) with 0%nat by lia. simpl. by rewrite app_nil_r. }
    case_test; bool_to_prop; apply Hall; simpl; try done; lia.
Qed.
End packets.

Lemma tx_packet_is_chain_witness :
  match TxPacket_parse (M := Flat) (replicate 128 x01) [(0, 10); (20, 37)] with
  | Ok (h, p) => tp_len p = 3 /\ Header_decode (replicate 47 x01) = Some h
  | Err _ => False
  end.
Proof.
  pose proof (tx_packet_is_chain (M := Flat) (replicate 128 x01) [(0, 10); (20, 37)]) as H.
  specialize (H ltac:(repeat constructor; vm_compute; congruence) ltac:(vm_compute; congruence)).
  cbv zeta in H. destruct (TxPacket_parse _ _) as [[h p]|e] eqn:E.
  - destruct H as (H1 & _ & H2 & _). split; [exact H2|exact H1].
  - destruct H as [_ H]. vm_compute in H. congruence.
Defined.

(** ** Filling any batch of buffers

    The batch reads its buffers out of guest memory, so nothing can be
    assumed of it but what its code checks. The facts here ask for no law of
    the buffers, only for a property the three calls keep and a bound on the
    indices they take. *)

Section any_buffers.
Context `{RB : RxBuffers B} (P : B -> Prop) (N : Z).
Hypothesis P_room : forall b i, P b -> P (snd (rx_room b i)).
Hypothesis P_put : forall b i h, P b -> P (rx_put_header b i h).
Hypothesis P_recv : forall b s first max, P b -> P (snd (fst (rx_recv b s first max))).
Hypothesis room_bound : forall b i, P b -> N <= i -> fst (rx_room b i) = None.
Hypothesis N_nonneg : 0 <= N.

Lemma any_control c b i o fl n b' c' :
  Connection_control c b i o fl = (n, b', c') ->
  P b -> P b' /\ n = 1 /\ host_port c' = host_port c.
Proof. intros [= <- <- <-] Hb. split_and!; [by apply P_put|done|done]. Qed.

Lemma any_stamp fuel : forall c b i l i' b' c',
  stamp_packets fuel c b i l = (i', b', c') -> P b ->
  P b' /\ i <= i' /\ (i <= N -> i' <= N) /\ host_port c' = host_port c.
Proof.
  induction fuel as [|fuel IH]; intros c b i l i' b' c'; simpl; [intros [= <- <- <-] Hb; split_and!; done|].
  case_test; [|intros [= <- <- <-] Hb; split_and!; done].
  pose proof (P_room b i) as Hp. pose proof (room_bound b i) as Hbound.
  destruct (rx_room b i) as [r b1]. simpl in *. case_test; bool_to_prop.
  { intros [= <- <- <-] Hb. split_and!; try done. by apply Hp. }
  intros Hs Hb. apply IH in Hs as (? & ? & Hle & ?); [|by apply P_put, Hp].
  split_and!; [done|lia| |done]. intros HN. apply Hle.
  destruct (decide (i = N)) as [->|]; [|lia]. rewrite Hbound in Heqb1 by done. simpl in Heqb1. lia.
Qed.

Lemma any_fill_received c b first r r' b' c' :
  fill_received c b first r = (r', b', c') -> P b ->
  P b' /\ host_port c' = host_port c /\
  (forall n, r' = Ok n -> 0 <= n /\ (first < N -> first + n <= N)).
Proof.
  unfold fill_received. destruct r as [n|e].
  - case_test.
    + destruct (Connection_control _ b first SHUTDOWN SEND) as [[u b1] c1] eqn:E.
      intros [= <- <- <-] Hb. apply any_control in E as (? & -> & ?); [|done].
      split_and!; try done. intros n0 [= <-]. lia.
    + destruct (stamp_packets _ _ b first n) as [[i b1] c1] eqn:E.
      intros [= <- <- <-] Hb. apply any_stamp in E as (? & ? & ? & ?); [|done].
      split_and!; try done. intros n0 [= <-]. lia.
  - destruct e; intros [= <- <- <-] Hb; split_and!; try done; intros n0 [= <-]; lia.
Qed.

Lemma any_fill_data c b first r b' c' :
  Connection_fill_data c b first = (r, b', c') -> P b ->
  P b' /\ host_port c' = host_port c /\
  (forall n, r = Ok n -> 0 <= n /\ (first < N -> first + n <= N)).
Proof.
  unfold Connection_fill_data. intros H Hb. case_test_in H.
  { injection H as <- <- <-. split_and!; try done. intros n0 [= <-]. lia. }
  pose proof (P_room b first Hb) as Hp. destruct (rx_room b first) as [room b1]. simpl in Hp.
  case_test_in H.
  { injection H as <- <- <-. split_and!; try done. intros n0 [= <-]. lia. }
  case_test_in H.
  { injection H as <- <- <-. split_and!; [done|by case_test|]. intros n0 [= <-]. lia. }
  pose proof (P_recv b1 (socket c) first (Z.min (Credit_available (credit c)) MAX_TURN) Hp) as Hq.
  destruct (rx_recv b1 _ first _) as [[r1 b2] s1]. simpl in Hq.
  by apply any_fill_received in H.
Qed.

Lemma any_fill c b first r b' c' :
  Connection_fill c b first = (r, b', c') -> P b ->
  P b' /\ host_port c' = host_port c /\
  (forall n, r = Ok n -> 0 <= n /\ (first < N -> first + n <= N)).
Proof.
  assert (Hcontrol : forall c0 b0 o fl, host_port c0 = host_port c -> P b0 ->
    (let '(n, b, c) := Connection_control c0 b0 first o fl in (Ok n, b, c)) = (r, b', c') ->
    P b' /\ host_port c' = host_port c /\
    (forall n, r = Ok n -> 0 <= n /\ (first < N -> first + n <= N))).
  { intros c0 b0 o fl Hc Hb0. destruct (Connection_control c0 b0 first o fl) as [[n b1] c1] eqn:E.
    intros [= <- <- <-]. apply any_control in E as (? & -> & ?); [|done].
    split_and!; [done|congruence|]. intros n0 [= <-]. lia. }
  unfold Connection_fill. intros H Hb. case_test_in H.
  { case_test_in H; [|by eapply Hcontrol in H].
    injection H as <- <- <-. split_and!; try done. intros n0 [= <-]. lia. }
  case_test_in H; [by eapply Hcontrol in H|].
  destruct (Connection_fill_data c b first) as [[[used|e] b1] c1] eqn:E;
    apply any_fill_data in E as (Hb1 & Hh1 & Hn); try done.
  2: { injection H as <- <- <-. split_and!; try done. }
  destruct (Hn _ eq_refl) as [? ?].
  case_test_in H; [by injection H as <- <- <-|].
  case_test_in H; [by eapply Hcontrol in H|].
  case_test_in H; [by eapply Hcontrol in H|].
  injection H as <- <- <-. split_and!; try done. intros n0 [= <-]. lia.
Qed.

Lemma any_turn n : forall m b first port used b' m',
  turn_loop n m b first port = (used, b', m') -> mux_inv m -> P b ->
  mux_inv m' /\ P b' /\ 0 <= used /\ (first < N -> first + used <= N).
Proof.
  induction n as [|n IH]; intros m b first port used b' m' H Hinv Hb; simpl in H.
  { injection H as <- <- <-. split_and!; try done; lia. }
  destruct (match bt_next_after _ _ with Some p => Some p | None => _ end) as [next|];
    [|injection H as <- <- <-; split_and!; try done; lia].
  destruct (bt_get (connections m) next) as [c|] eqn:Hg;
    [|injection H as <- <- <-; split_and!; try done; lia].
  destruct (Connection_fill c b first) as [[r b1] c1] eqn:Ef.
  apply any_fill in Ef as (Hb1 & Hh & Hn); [|done].
  pose proof (inv_update _ _ _ c1 Hinv Hg Hh) as Hinv1.
  destruct r as [u|e].
  - destruct (Hn _ eq_refl). case_test_in H; bool_to_prop.
    + by apply IH in H.
    + injection H as <- <- <-. split_and!; try done. destruct Hinv1 as [? ? ? ? ? ?]. by split.
  - injection H as <- <- <-. split_and!; try done; try lia. by apply inv_cancel.
Qed.

Lemma any_fill_loop fuel : forall m b next,
  mux_inv m -> P b -> 0 <= next <= N ->
  2 * (N - next) + (if bool_decide (resets m = []) then 2 else 1) <= Z.of_nat fuel ->
  exists n b' m', fill_loop fuel m b next = Some (n, b', m') /\
    mux_inv m' /\ P b' /\ next <= n <= N.
Proof.
  induction fuel as [|fuel IH]; intros m b next Hinv Hb Hn Hf; simpl.
  { case_test_in Hf; lia. }
  pose proof (P_room b next Hb) as Hp. pose proof (room_bound b next) as Hbound.
  destruct (rx_room b next) as [[r|] b1]; simpl in *.
  2: { eexists _, _, _. split_and!; try done; lia. }
  assert (next < N) by (destruct (decide (next < N)); [done|]; discriminate Hbound; [done|lia]).
  destruct (resets m) as [|h rest] eqn:Ers.
  - rewrite bool_decide_true in Hf by done.
    destruct (fill_turn m b1 next) as [[used b2] m2] eqn:Et.
    apply any_turn in Et as (Hinv2 & Hb2 & Hu0 & Hu1); [|done..].
    case_test; [eexists _, _, _; split_and!; done || lia|].
    destruct (IH m2 b2 (next + used)) as (n & b' & m' & -> & ? & ? & ?); try done; try lia.
    + destruct (decide (resets m2 = [])) as [Hr|Hr].
      * rewrite (bool_decide_true _ Hr) in *. rewrite andb_true_r in *. bool_to_prop. lia.
      * rewrite (bool_decide_false _ Hr). lia.
    + eexists _, _, _. split_and!; done || lia.
  - rewrite bool_decide_false in Hf by done.
    destruct (IH (set_resets m rest) (rx_put_header b1 next h) (next + 1))
      as (n & b' & m' & -> & ? & ? & ?);
      [by eapply inv_set_resets|by apply P_put|lia|case_test; lia|].
    eexists _, _, _. split_and!; done || lia.
Qed.
End any_buffers.

(** ** A pass over the queues *)

Section pass.
Context `{GM : GuestMemory M, GL : !GuestMemoryLaws M}.

Definition same_ranges (mem mem' : M) : Prop :=
  forall a n, check_range mem' a n = check_range mem a n.

Lemma same_ranges_refl mem : same_ranges mem mem.
Proof. done. Qed.

Lemma same_ranges_trans m1 m2 m3 : same_ranges m1 m2 -> same_ranges m2 m3 -> same_ranges m1 m3.
Proof. intros H1 H2 a n. by rewrite H2. Qed.

Lemma scatter_ranges ss : forall (mem : M) bs, same_ranges mem (scatter mem ss bs).
Proof.
  induction ss as [|[a n] ss IH]; intros mem bs; simpl; [done|].
  eapply same_ranges_trans; [|apply IH].
  destruct (write_slice mem a (ztake n bs)) as [mem'|] eqn:E; simpl; [|done].
  exact (mem_write_ranges _ _ _ _ E).
Qed.

(** What the batch keeps: its queue, the mapping of the memory, and at most
    [BATCH] chains. *)
Definition batch_ok (mem0 : M) (q : Queue) (b : RxBatch M) : Prop :=
  rb_queue b = q /\ same_ranges mem0 (rb_mem b) /\ zlen (rb_chains b) <= BATCH.

Lemma load_step_ok mem0 q b : batch_ok mem0 q b -> batch_ok mem0 q (load_step b).
Proof.
  destruct b as [mem q' chains dn inv er]. intros (Hq & Hr & Hl).
  cbn [rb_queue rb_mem rb_chains load_step] in *.
  case_test; [by split_and!|]. bool_to_prop.
  destruct (head_at q' mem (zlen chains)) as [[hd|]|e]; [|by split_and!..].
  destruct (descriptors q' mem hd true) as [[ds|e]|]; [|by split_and!..].
  destruct (split mem ds) as [[[h p] r]|e]; [|by split_and!].
  split_and!; try done. cbn [rb_chains]. zlen_lia.
Qed.

Lemma load_loop_ok mem0 q i fuel : forall b, batch_ok mem0 q b -> batch_ok mem0 q (load_loop fuel b i).
Proof.
  induction fuel as [|fuel IH]; intros b Hb; simpl; [done|].
  case_test; [|done]. by apply IH, load_step_ok.
Qed.

Lemma room_ok mem0 q b i : batch_ok mem0 q b -> batch_ok mem0 q (snd (RxBatch_room b i)).
Proof. intros Hb. unfold RxBatch_room, load. by apply load_loop_ok. Qed.

Lemma room_none mem0 q b i : batch_ok mem0 q b -> BATCH <= i -> fst (RxBatch_room b i) = None.
Proof.
  intros Hb Hi. unfold RxBatch_room, load.
  destruct (load_loop_ok mem0 q i (Z.to_nat (BATCH + 1)) b Hb) as (_ & _ & Hl).
  cbn [fst snd]. by rewrite (proj2 (Z.ltb_ge _ _)) by lia.
Qed.

Lemma put_header_ok mem0 q b i h : batch_ok mem0 q b -> batch_ok mem0 q (RxBatch_put_header b i h).
Proof.
  intros (Hq & Hr & Hl). unfold RxBatch_put_header. case_match; [|done]. split_and!; simpl.
  - done.
  - eapply same_ranges_trans; [exact Hr|apply scatter_ranges].
  - unfold zlen in *. by rewrite length_alter.
Qed.

Lemma recv_parts_ok mem0 q fuel : forall b i l parts,
  batch_ok mem0 q b -> batch_ok mem0 q (snd (recv_parts fuel b i l parts)).
Proof.
  induction fuel as [|fuel IH]; intros b i l parts Hb; cbn [recv_parts]; [done|].
  pose proof (room_ok mem0 q b i Hb) as Hb1. destruct (RxBatch_room b i) as [r b1].
  cbn [snd] in Hb1.
  case_test; [done|]. destruct (recv_slices _ _ parts) as [go parts']. case_test; [|done].
  by apply IH.
Qed.

Lemma recv_ok mem0 q b s first max :
  batch_ok mem0 q b -> batch_ok mem0 q (snd (fst (RxBatch_recv b s first max))).
Proof.
  intros Hb. unfold RxBatch_recv.
  pose proof (recv_parts_ok mem0 q (Z.to_nat (BATCH + 1)) b first max [] Hb) as Hp.
  destruct (recv_parts _ b first max []) as [parts b1]. cbn [snd] in Hp.
  destruct (sock_read s _) as [[bs|e] s']; simpl; [|done].
  destruct Hp as (Hq & Hr & Hl). split_and!; try done. simpl.
  eapply same_ranges_trans; [exact Hr|apply scatter_ranges].
Qed.

Lemma batch_fill mux (mem : M) q :
  mux_inv mux ->
  exists n b' mux', Mux_fill FILL_FUEL mux (RxBatch_new mem q) = Some (n, b', mux') /\
    mux_inv mux' /\ batch_ok mem q b' /\ 0 <= n <= BATCH.
Proof.
  intros Hinv.
  destruct (any_fill_loop (RB := rx_batch_buffers) (batch_ok mem q) BATCH
              (room_ok mem q) (put_header_ok mem q) (recv_ok mem q) (room_none mem q)
              FILL_FUEL mux (RxBatch_new mem q) 0)
    as (n & b' & mux' & H & ? & ? & ?); [done|by split_and!|done|case_test; done|].
  by exists n, b', mux'.
Qed.

(** ** The pass keeps every invariant *)

Definition transport_wf (t : Transport) (mem : M) : Prop :=
  queue_wf (t_rx t) mem /\ queue_wf (t_tx t) mem /\ queue_wf (t_event t) mem.

Lemma transport_ranges t mem mem' :
  same_ranges mem mem' -> transport_wf t mem -> transport_wf t mem'.
Proof. intros Hr (?&?&?). split_and!; by apply (wf_ranges _ _ _ Hr). Qed.

Lemma set_notify_ok q (mem : M) on :
  queue_wf q mem -> exists mem', set_notify q mem on = Ok mem' /\ same_ranges mem mem'.
Proof.
  intros [? _ _ _ [Hu0 Hu] _ _]. unfold set_notify, write_obj.
  apply ring_fits_spec in Hu as [_ Hc].
  destruct (mem_write mem (used_addr q) (le_bytes 2 (if on then 0 else VRING_USED_F_NO_NOTIFY)))
    as (mem' & Hw & _).
  { rewrite zlen_le_bytes. eapply mem_sub; [exact Hc|lia..]. }
  rewrite Hw. eexists. split; [done|]. exact (mem_write_ranges _ _ _ _ Hw).
Qed.

Lemma tx_packet_inv q (mem : M) hd mux :
  mux_inv mux -> can_receive mux = true -> mux_inv (tx_packet q mem hd mux).
Proof.
  intros Hinv Hcan. unfold tx_packet. repeat case_match; try done. by apply inv_receive.
Qed.

Lemma tx_loop_ok n : forall t (mem : M) mux used r t' mem' mux',
  tx_loop n t mem mux used = (r, t', mem', mux') -> transport_wf t mem -> mux_inv mux ->
  transport_wf t' mem' /\ mux_inv mux'.
Proof.
  induction n as [|n IH]; intros t mem mux used r t' mem' mux' H Hwf Hinv; simpl in H.
  { by injection H as <- <- <- <-. }
  case_test_in H; [by injection H as <- <- <- <-|]. bool_to_prop.
  destruct (head (t_tx t) mem) as [[hd|]|e]; try by injection H as <- <- <- <-.
  pose proof (tx_packet_inv (t_tx t) mem hd mux Hinv ltac:(done)) as Hinv1.
  destruct (complete_spec (t_tx t) mem hd 0 ltac:(apply Hwf))
    as (q' & m' & Hc & Hq' & _ & _ & _ & _ & _ & Hr).
  rewrite Hc in H. apply IH in H; [done| |done].
  destruct (transport_ranges _ _ _ Hr Hwf) as (?&?&?). by split_and!.
Qed.

Lemma complete_all_ok filled : forall q (mem : M),
  queue_wf q mem ->
  exists q' mem', complete_all q mem filled = Ok (q', mem') /\ queue_wf q' mem' /\
    same_ranges mem mem'.
Proof.
  induction filled as [|[hd len] filled IH]; intros q mem Hwf; simpl.
  { by exists q, mem. }
  destruct (complete_spec q mem hd len Hwf) as (q1 & m1 & -> & Hq1 & _ & _ & _ & _ & _ & Hr1).
  destruct (IH q1 m1 Hq1) as (q2 & m2 & -> & Hq2 & Hr2).
  exists q2, m2. split_and!; [done|done|]. by eapply same_ranges_trans.
Qed.

Lemma rx_pass_ok t (mem : M) mux r t' mem' mux' :
  rx_pass t mem mux = (r, t', mem', mux') -> transport_wf t mem -> mux_inv mux ->
  transport_wf t' mem' /\ mux_inv mux'.
Proof.
  unfold rx_pass. intros H Hwf Hinv.
  destruct (batch_fill mux mem (t_rx t) Hinv) as (n & b & m1 & Hf & Hinv1 & (Hq & Hr & _) & _).
  rewrite Hf in H. pose proof (transport_ranges _ _ _ Hr Hwf) as Hwf1.
  destruct (rb_error b); [by injection H as <- <- <- <-|].
  match type of H with context [complete_all ?q ?m ?l] =>
    destruct (complete_all_ok l q m ltac:(apply Hwf1)) as (q' & m' & Hc & Hq' & Hr') end.
  rewrite Hc in H. injection H as <- <- <- <-. split; [|done].
  destruct (transport_ranges _ _ _ Hr' Hwf1) as (?&?&?). by split_and!.
Qed.

Lemma process_end_ok t (mem : M) mux a b r t' mem' :
  process_end t mem mux a b = (r, t', mem') -> transport_wf t mem -> transport_wf t' mem'.
Proof.
  unfold process_end. intros H Hwf.
  destruct (head (t_rx t) mem); [|by injection H as <- <- <-].
  destruct (set_notify_ok (t_tx t) mem true ltac:(apply Hwf)) as (m1 & Hs1 & Hr1).
  rewrite Hs1 in H.
  pose proof (transport_ranges _ _ _ Hr1 Hwf) as Hwf1.
  destruct (set_notify_ok (t_rx t) m1 true ltac:(apply Hwf1)) as (m2 & Hs & Hr2). rewrite Hs in H.
  pose proof (transport_ranges _ _ _ Hr2 Hwf1) as Hwf2.
  set (t1 := if (_ || _)%bool then raise t else t) in *.
  assert (Ht1 : transport_wf t1 m2) by (unfold t1; by case_test).
  repeat (case_match; try by injection H as <- <- <-).
Qed.

(** However the guest fills its memory, a pass over the queues cannot break
    the device: filling the receive buffers ends within its fuel, the limits
    and ports of the mux stay as they must be, and every queue keeps its rings
    in guest memory. *)
Theorem process_safe now t (mem : M) mux :
  transport_wf t mem -> mux_inv mux ->
  (exists n b mux', Mux_fill FILL_FUEL mux (RxBatch_new mem (t_rx t)) = Some (n, b, mux') /\
                    0 <= n <= BATCH) /\
  (forall r t' mem' mux', process now t mem mux = (r, t', mem', mux') ->
     transport_wf t' mem' /\ mux_inv mux').
Proof.
  intros Hwf Hinv. split.
  { destruct (batch_fill mux mem (t_rx t) Hinv) as (n & b & m1 & ? & _ & _ & ?). by exists n, b, m1. }
  intros r t' mem' mux' H. unfold process in H.
  destruct (set_notify_ok (t_tx t) mem false ltac:(apply Hwf)) as (m1 & Hs1 & Hr1).
  rewrite Hs1 in H. pose proof (transport_ranges _ _ _ Hr1 Hwf) as Hwf1.
  destruct (set_notify_ok (t_rx t) m1 false ltac:(apply Hwf1)) as (m2 & Hs2 & Hr2).
  rewrite Hs2 in H. pose proof (transport_ranges _ _ _ Hr2 Hwf1) as Hwf2.
  destruct (tx_loop _ t m2 mux false) as [[[[tx_used|e] t3] m3] mux3] eqn:E3;
    apply tx_loop_ok in E3 as [Hwf3 Hinv3]; try done; [|by injection H as <- <- <- <-].
  destruct (rx_pass t3 m3 _) as [[[[rx_used|e] t4] m4] mux4] eqn:E4;
    apply rx_pass_ok in E4 as [Hwf4 Hinv4]; try done; try by apply inv_pump.
  2: { by injection H as <- <- <- <-. }
  destruct (process_end t4 m4 mux4 tx_used rx_used) as [[r5 t5] m5] eqn:E5.
  injection H as <- <- <- <-. split; [|done]. by eapply process_end_ok.
Qed.

(** After a restore, connects wait for the guest. Once the reset event is in
    the event queue, a connect is refused as long as the guest has posted no
    further event buffer, and let through when it has, also where the index
    wraps. *)
Theorem connects_wait_for_reset t (mem : M) t' mem' p mem1 k :
  posted (t_event t) mem = Ok p -> reset_guest t mem = Ok (t', mem') ->
  0 <= k <= 0x8000 -> posted (t_event t') mem1 = Ok (wrap 16 (p + k)) ->
  fst (accepts_connects t' mem1) = Ok (0 <? k) /\
  (0 < k -> resetting (snd (accepts_connects t' mem1)) = None).
Proof.
  intros Hp Hreset Hk Hpost. unfold reset_guest in Hreset. rewrite Hp in Hreset.
  destruct (head (t_event t) mem) as [[hd|]|]; try done.
  destruct (queue_descriptors (t_event t) mem hd true) as [[|[address len] ds]|]; try done.
  case_test_in Hreset; [done|].
  destruct (write_obj mem 4 _ address) as [m1|]; [|done].
  destruct (complete (t_event t) m1 hd _) as [[ev m2]|]; [|done].
  injection Hreset as <- <-. unfold accepts_connects. cbn [resetting set_resetting].
  rewrite Hpost. unfold wrapping_add. rewrite wrapping_sub_wrap.
  replace (p + k - (p + 1)) with (k - 1) by lia.
  destruct (decide (k = 0)) as [->|].
  - by replace (0x8000 <=? wrap 16 (0 - 1)) with true by reflexivity.
  - rewrite wrap_small by (unfold in_width; lia).
    rewrite (proj2 (Z.leb_gt _ _)), (proj2 (Z.ltb_lt _ _)) by lia. done.
Qed.
End pass.

Definition demo_transport : Transport := MkTransport demo_queue demo_queue demo_queue None 0.

Lemma process_safe_witness :
  exists r t' mem' mux', process (M := Flat) 0 demo_transport demo_memory (Mux_with_limit 4)
    = (r, t', mem', mux') /\ transport_wf t' mem' /\ mux_inv mux'.
Proof.
  assert (Hwf : transport_wf (M := Flat) demo_transport demo_memory)
    by (split_and!; exact demo_queue_wf).
  assert (Hinv : mux_inv (Mux_with_limit 4))
    by (apply (reachable_inv (B := list Slot) 4); [lia|constructor]).
  destruct (process_safe (M := Flat) 0 demo_transport demo_memory (Mux_with_limit 4) Hwf Hinv)
    as [_ Hsafe].
  destruct (process (M := Flat) 0 demo_transport demo_memory (Mux_with_limit 4))
    as [[[r t'] mem'] mux'].
  exists r, t', mem', mux'. split; [reflexivity|]. apply (Hsafe r). reflexivity.
Defined.

(** An event queue with one writable buffer of 8 bytes at 100. *)
Definition reset_memory : Flat :=
  le_bytes 8 100 ++ le_bytes 4 8 ++ le_bytes 2 2 ++ replicate 18 x00   (* descriptors *)
  ++ le_bytes 2 0 ++ le_bytes 2 1 ++ replicate 92 x00.
Definition reset_transport : Transport :=
  MkTransport demo_queue demo_queue (MkQueue 2 0 32 44 0 0) None 0.

Lemma connects_wait_for_reset_witness :
  exists t' mem', reset_guest reset_transport reset_memory = Ok (t', mem') /\
    fst (accepts_connects t' mem') = Ok false.
Proof.
  eexists _, _. split; [vm_compute; reflexivity|].
  refine (proj1 (connects_wait_for_reset (M := Flat) reset_transport reset_memory _ _ 1 _ 0 _ _ _ _));
    [vm_compute; reflexivity|vm_compute; reflexivity|lia|vm_compute; reflexivity].
Defined.

(** ** The connect line *)

(** The number decimal digits stand for. *)
Definition dec_value (acc : Z) (ds : bytes) : Z :=
  fold_left (fun a d => a * 10 + (b2z d - 48)) ds acc.

Lemma digit_range d : is_ascii_digit d = true -> 0 <= b2z d - 48 <= 9.
Proof. unfold is_ascii_digit. intros. bool_to_prop. lia. Qed.

Lemma dec_value_ge ds : forall acc, forallb is_ascii_digit ds = true -> 0 <= acc ->
  acc <= dec_value acc ds.
Proof.
  induction ds as [|d ds IH]; intros acc Hd Ha; simpl in *; [unfold dec_value; simpl; lia|].
  bool_to_prop. pose proof (digit_range d ltac:(done)). unfold dec_value in *. simpl.
  transitivity (acc * 10 + (b2z d - 48)); [lia|]. apply IH; [done|lia].
Qed.

Lemma parse_digits_spec ds : forall acc, forallb is_ascii_digit ds = true -> 0 <= acc < 2 ^ 32 ->
  parse_digits acc ds = if dec_value acc ds <? 2 ^ 32 then Some (dec_value acc ds) else None.
Proof.
  induction ds as [|d ds IH]; intros acc Hd Ha; cbn [parse_digits].
  { unfold dec_value; simpl. by rewrite (proj2 (Z.ltb_lt _ _)) by lia. }
  simpl in Hd. bool_to_prop. pose proof (digit_range d ltac:(done)).
  cbv zeta. destruct (Z.ltb_spec (acc * 10 + (b2z d - 48)) (2 ^ 32)).
  - rewrite IH by (done || lia). done.
  - change (dec_value acc (d :: ds)) with (dec_value (acc * 10 + (b2z d - 48)) ds).
    pose proof (dec_value_ge ds (acc * 10 + (b2z d - 48)) ltac:(done) ltac:(lia)).
    by rewrite (proj2 (Z.ltb_ge _ _)) by lia.
Qed.

Lemma connect_port_spec line port :
  connect_port line = Some port <->
  exists ds, line = CONNECT ++ ds /\ ds <> [] /\ forallb is_ascii_digit ds = true /\
    dec_value 0 ds = port /\ port < 2 ^ 32.
Proof.
  unfold connect_port, parse_u32. split.
  - case_bool_decide as Hp; [|done]. case_test; [|done]. case_bool_decide as Hn; [done|].
    rewrite parse_digits_spec by (done || lia). case_test; [|done]. bool_to_prop. intros [= <-].
    exists (zdrop 8 line). split_and!; try done. by rewrite <-Hp, ztake_zdrop.
  - intros (ds & -> & Hn & Hd & <- & Hlt). rewrite ztake_app_exact, zdrop_app_exact by done.
    rewrite bool_decide_true by done. rewrite Hd, bool_decide_false by done.
    rewrite parse_digits_spec by (done || lia). by rewrite (proj2 (Z.ltb_lt _ _)).
Qed.

Lemma read_connect_loop_spec fuel : forall input line port rest,
  read_connect_loop fuel input line = Ok (port, rest) <->
  exists more, input = more ++ NEWLINE :: rest /\ NEWLINE ∉ more /\
    (length more < fuel)%nat /\ connect_port (line ++ more) = Some port.
Proof.
  induction fuel as [|fuel IH]; intros input line port rest; simpl.
  { split; [done|]. intros (? & _ & _ & ? & _). lia. }
  destruct input as [|b input].
  { split; [done|]. intros ([|] & ? & _); done. }
  case_bool_decide as Hb.
  - subst b. split.
    + destruct (connect_port line) as [p|] eqn:E; [|done]. intros [= <- <-].
      exists []. rewrite app_nil_r. split_and!; [done|set_solver|simpl; lia|done].
    + intros ([|m more] & Hin & Hnl & _ & Hp); simpl in Hin.
      * injection Hin as ->. rewrite app_nil_r in Hp. by rewrite Hp.
      * injection Hin as <- _. destruct Hnl. constructor.
  - rewrite IH. split.
    + intros (more & -> & Hnl & Hlen & Hp). exists (b :: more). rewrite <-app_assoc in Hp.
      split_and!; [done|set_solver|simpl; lia|done].
    + intros ([|m more] & Hin & Hnl & Hlen & Hp); simpl in Hin; injection Hin as -> ->; [done|].
      exists more. rewrite <-app_assoc. split_and!; [done|set_solver|simpl in Hlen; lia|done].
Qed.

(** A listener's client is heard exactly when its first line is
    [CONNECT <port>] with a decimal port of 32 bits in a line of at most 31
    bytes, and nothing after the newline is consumed. *)
Theorem read_connect_exact input port rest :
  read_connect input = Ok (port, rest) <->
  exists ds, input = CONNECT ++ ds ++ NEWLINE :: rest /\ ds <> [] /\
    forallb is_ascii_digit ds = true /\ dec_value 0 ds = port /\ port < 2 ^ 32 /\ zlen ds <= 23.
Proof.
  unfold read_connect. rewrite read_connect_loop_spec. split.
  - intros (more & -> & Hnl & Hlen & Hp). cbn [app] in Hp.
    apply connect_port_spec in Hp as (ds & -> & Hn & Hd & Hv & Hlt).
    exists ds. split_and!; try done.
    rewrite length_app in Hlen. change (Z.to_nat MAX_CONNECT_LINE) with 32%nat in Hlen. unfold zlen. simpl in Hlen. lia.
  - intros (ds & -> & Hn & Hd & Hv & Hlt & Hlen). exists (CONNECT ++ ds).
    split_and!; [by rewrite <-app_assoc| | |].
    + assert (Hc : bool_decide (NEWLINE ∈ CONNECT) = false) by (vm_compute; reflexivity).
      apply bool_decide_eq_false in Hc. intros [Hin|Hin]%elem_of_app; [done|].
      rewrite forallb_forall in Hd. apply list_elem_of_In in Hin. by apply Hd in Hin.
    + rewrite length_app. change (Z.to_nat MAX_CONNECT_LINE) with 32%nat.
      unfold zlen in Hlen. simpl. lia.
    + apply connect_port_spec. by exists ds.
Qed.
