(* ===== verification/Text.v ===== *)
(** * Text

    The part of [str] and of ASCII handling in the standard library that the
    sources use: UTF-8 validity, case folding, trimming, searching bytes and
    parsing numbers. *)

From Stdlib Require Import Strings.Byte Strings.String.
From S2P Require Import Prelude.

(** The bytes of a literal. *)
Definition str (s : string) : bytes := list_byte_of_string s.

(** [String::from_utf8]: the well-formed byte sequences of UTF-8. *)
Definition cont (lo hi : Z) (b : byte) : bool := (lo <=? b2z b) && (b2z b <=? hi).

Fixpoint utf8_valid (s : bytes) : bool :=
  match s with
  | [] => true
  | b0 :: s1 =>
      let v := b2z b0 in
      if v <? 0x80 then utf8_valid s1
      else if (0xC2 <=? v) && (v <=? 0xDF) then
        match s1 with
        | b1 :: s2 => cont 0x80 0xBF b1 && utf8_valid s2
        | _ => false
        end
      else if (0xE0 <=? v) && (v <=? 0xEF) then
        match s1 with
        | b1 :: b2 :: s3 =>
            cont (if v =? 0xE0 then 0xA0 else 0x80) (if v =? 0xED then 0x9F else 0xBF) b1
            && cont 0x80 0xBF b2 && utf8_valid s3
        | _ => false
        end
      else if (0xF0 <=? v) && (v <=? 0xF4) then
        match s1 with
        | b1 :: b2 :: b3 :: s4 =>
            cont (if v =? 0xF0 then 0x90 else 0x80) (if v =? 0xF4 then 0x8F else 0xBF) b1
            && cont 0x80 0xBF b2 && cont 0x80 0xBF b3 && utf8_valid s4
        | _ => false
        end
      else false
  end.

(** ** ASCII *)

Definition in_range (lo hi : Z) (b : byte) : bool := (lo <=? b2z b) && (b2z b <=? hi).

(** [u8::to_ascii_lowercase]. *)
Definition to_ascii_lowercase (b : byte) : byte :=
  if in_range 65 90 b then z2b (b2z b + 32) else b.

Definition eq_ignore_ascii_case (a b : bytes) : bool :=
  bool_decide (map to_ascii_lowercase a = map to_ascii_lowercase b).

Definition digit (b : byte) : bool := in_range 48 57 b.

(** [is_ascii_hexdigit] and the value of a digit. *)
Definition is_ascii_hexdigit (b : byte) : bool :=
  in_range 48 57 b || in_range 65 70 b || in_range 97 102 b.
Definition hex_value (b : byte) : Z :=
  if in_range 48 57 b then b2z b - 48 else if in_range 65 70 b then b2z b - 55 else b2z b - 87.

(** Digits of a radix into 64 bits; overflow is an error. *)
Fixpoint u64_digits (radix : Z) (acc : Z) (ds : bytes) : option Z :=
  match ds with
  | [] => Some acc
  | d :: ds => let v := acc * radix + hex_value d in
               if v <? 2 ^ 64 then u64_digits radix v ds else None
  end.

(** [str::parse::<u64>]: a plus sign is accepted, no digits are not. *)
Definition parse_u64 (s : bytes) : option Z :=
  let ds := match s with x2b :: ds => ds | _ => s end in
  if bool_decide (ds = []) then None
  else if forallb digit ds then u64_digits 10 0 ds else None.

(** ** Searching *)

(** [iter().position(p)]. *)
Fixpoint position (p : byte -> bool) (l : bytes) : option Z :=
  match l with
  | [] => None
  | b :: l => if p b then Some 0 else let! i := position p l in Some (i + 1)
  end.

(** [windows(w.len()).position(|x| x == w)], for a [w] that is not empty. *)
Fixpoint find_sub (w l : bytes) : option Z :=
  match l with
  | [] => None
  | _ :: l' => if bool_decide (ztake (zlen w) l = w) then Some 0
               else let! i := find_sub w l' in Some (i + 1)
  end.

(** [str::ends_with]. *)
Definition ends_with (w l : bytes) : bool :=
  (zlen w <=? zlen l) && bool_decide (zdrop (zlen l - zlen w) l = w).

(** ** Trimming *)

(** The encodings of the characters of [char::is_whitespace]. *)
Definition whitespace : list bytes :=
  map (fun b => [b]) [x09; x0a; x0b; x0c; x0d; x20]
  ++ [[xc2; x85]; [xc2; xa0]; [xe1; x9a; x80]]
  ++ map (fun b => [xe2; x80; b]) [x80; x81; x82; x83; x84; x85; x86; x87; x88; x89; x8a; xa8; xa9; xaf]
  ++ [[xe2; x81; x9f]; [xe3; x80; x80]].

Fixpoint trim_start_loop (fuel : nat) (s : bytes) : bytes :=
  match fuel with
  | O => s
  | S fuel =>
      match List.find (fun w => bool_decide (ztake (zlen w) s = w)) whitespace with
      | Some w => trim_start_loop fuel (zdrop (zlen w) s)
      | None => s
      end
  end.

Fixpoint trim_end_loop (fuel : nat) (s : bytes) : bytes :=
  match fuel with
  | O => s
  | S fuel =>
      match List.find (fun w => ends_with w s) whitespace with
      | Some w => trim_end_loop fuel (ztake (zlen s - zlen w) s)
      | None => s
      end
  end.

(** [str::trim]. Every turn takes a byte at least. *)
Definition trim (s : bytes) : bytes :=
  let s := trim_start_loop (length s) s in trim_end_loop (length s) s.
