(* ===== verification/Cas.v ===== *)
(** * The content-addressed disk

    [crates/shuru-store/src/cas.rs] and [backend.rs]: chunk stores, the index
    of a disk image, and the block backend that overlays dirty chunks, the
    index, its parent chain and a flat base image.

    A chunk store is the interface [ChunkStore] with the laws of
    [ChunkStoreLaws]; the local store is an instance over the contents of its
    directory and the hash function of the [blake3] crate, a parameter. The
    backend's locks are never contended in one call, so its fields are plain
    state. The index file is its bytes. *)

From Stdlib Require Import Strings.Byte.
From stdpp Require Import gmap.
From S2P Require Import Prelude Text.

#[export] Program Instance byte_countable : Countable byte :=
  inj_countable Byte.to_N Byte.of_N _.
Next Obligation. intros []; reflexivity. Qed.

Definition CHUNK_SIZE : Z := 64 * 1024.

(** Hashes and paths are strings, kept as their bytes. *)
Abbreviation hash_string := bytes.

Definition ZERO_CHUNK_HASH : hash_string := [x5a; x45; x52; x4f].

(** ** Chunk stores *)

(** Errors of a store carry no more than that they happened. *)
Class ChunkStore (S_ : Type) := {
  store_put : S_ -> bytes -> result hash_string ErrorKind * S_;
  store_get : S_ -> hash_string -> result (option bytes) ErrorKind;
}.

Definition holds `{ChunkStore S_} (s : S_) (h : hash_string) (d : bytes) : Prop :=
  store_get s h = Ok (Some d).

(** A chunk put is there under its hash, which is not the mark of a hole, and
    every chunk stays. *)
Class ChunkStoreLaws (S_ : Type) `{ChunkStore S_} := {
  put_holds (s : S_) d h s' : store_put s d = (Ok h, s') -> holds s' h d /\ h <> ZERO_CHUNK_HASH;
  put_keeps (s : S_) d r s' h d' : store_put s d = (r, s') -> holds s h d' -> holds s' h d';
}.

(** *** The local store *)

(** The directory: files by name, and what the next file system calls do.
    [None] lets them succeed. *)
Record LocalChunkStore := MkLocal {
  chunks : gmap hash_string bytes;
  put_error : option ErrorKind;
  get_error : option ErrorKind;
}.

Section local_store.
Context (blake3_hex : bytes -> hash_string).

(** The chunk is written under a name of its own, synced and renamed, so it
    is there in whole or not at all. *)
Definition LocalChunkStore_put (s : LocalChunkStore) (data : bytes)
    : result hash_string ErrorKind * LocalChunkStore :=
  let hex := blake3_hex data in
  match chunks s !! hex with
  | Some _ => (Ok hex, s)
  | None =>
      match put_error s with
      | Some e => (Err e, s)
      | None => (Ok hex, MkLocal (<[hex := data]> (chunks s)) (put_error s) (get_error s))
      end
  end.

Definition LocalChunkStore_get (s : LocalChunkStore) (hash : hash_string)
    : result (option bytes) ErrorKind :=
  match get_error s with
  | Some e => Err e
  | None => Ok (chunks s !! hash)
  end.
End local_store.

(** ** The index *)

Record ChunkIndex := MkChunkIndex {
  hashes : list hash_string;
  disk_size : Z;
  parent_path : option bytes;
  fallback_path : option bytes;
}.

(** [u64::div_ceil]. *)
Definition div_ceil (n d : Z) : Z := (n + d - 1) / d.

Definition num_chunks_for (size : Z) : Z := div_ceil size CHUNK_SIZE.

Definition ChunkIndex_new (size : Z) : ChunkIndex :=
  MkChunkIndex (replicate (Z.to_nat (num_chunks_for size)) ZERO_CHUNK_HASH) size None None.

Definition num_chunks (x : ChunkIndex) : Z := zlen (hashes x).

Definition get_hash (x : ChunkIndex) (i : Z) : option hash_string := znth (hashes x) i.

Definition set_hash (x : ChunkIndex) (i : Z) (h : hash_string) : ChunkIndex :=
  if i <? zlen (hashes x)
  then MkChunkIndex (<[Z.to_nat i := h]> (hashes x)) (disk_size x) (parent_path x) (fallback_path x)
  else x.

(** A length of 32 bits and the bytes. *)
Definition save_string (s : bytes) : bytes := le_bytes 4 (zlen s) ++ s.

(** The bytes [save] writes. *)
Definition ChunkIndex_save (x : ChunkIndex) : bytes :=
  le_bytes 8 (disk_size x) ++ le_bytes 8 (zlen (hashes x))
  ++ save_string (default [] (parent_path x))
  ++ save_string (default [] (fallback_path x))
  ++ mjoin (map save_string (hashes x)).

(** [read_exact] of a file, and [String::from_utf8]. *)
Definition take_exact (n : Z) (f : bytes) : result (bytes * bytes) ErrorKind :=
  if zlen f <? n then Err UnexpectedEof else Ok (ztake n f, zdrop n f).

Definition load_string (f : bytes) : result (bytes * bytes) ErrorKind :=
  let? (l, f) := take_exact 4 f in
  let? (s, f) := take_exact (le_val l) f in
  if utf8_valid s then Ok (s, f) else Err InvalidData.

(** A path of no bytes is no path, and is not read. *)
Definition load_path (f : bytes) : result (option bytes * bytes) ErrorKind :=
  let? (l, f) := take_exact 4 f in
  if 0 <? le_val l then
    let? (s, f) := take_exact (le_val l) f in
    if utf8_valid s then Ok (Some s, f) else Err InvalidData
  else Ok (None, f).

Fixpoint load_hashes (n : nat) (f : bytes) : result (list hash_string) ErrorKind :=
  match n with
  | O => Ok []
  | S n =>
      let? (h, f) := load_string f in
      let? hs := load_hashes n f in
      Ok (h :: hs)
  end.

Definition ChunkIndex_load (f : bytes) : result ChunkIndex ErrorKind :=
  let? (b, f) := take_exact 8 f in
  let size := le_val b in
  let? (b, f) := take_exact 8 f in
  let n := le_val b in
  if negb (n =? num_chunks_for size) then Err InvalidData else
  let? (parent, f) := load_path f in
  let? (fallback, f) := load_path f in
  let? hs := load_hashes (Z.to_nat n) f in
  Ok (MkChunkIndex hs size parent fallback).

Definition check_size_against_backend (x : ChunkIndex) (backend_size : Z) : bool :=
  backend_size <=? disk_size x.

(** ** The flat file *)

(** The file's contents, its size when it was opened, and what its calls do. *)
Record FlatFileBackend := MkFlatFile {
  ff_content : bytes;
  ff_size : Z;
  ff_error : option ErrorKind;
}.

Definition FlatFileBackend_open (content : bytes) (e : option ErrorKind) : FlatFileBackend :=
  MkFlatFile content (zlen content) e.

(** [pread]: the bytes it put at the front of the buffer. *)
Definition FlatFileBackend_read (f : FlatFileBackend) (offset len : Z) : result bytes ErrorKind :=
  match ff_error f with
  | Some e => Err e
  | None => Ok (ztake len (zdrop offset (ff_content f)))
  end.

(** [pwrite]: a gap past the end reads as zeros. *)
Definition FlatFileBackend_write (f : FlatFileBackend) (offset : Z) (buf : bytes)
    : result Z ErrorKind * FlatFileBackend :=
  match ff_error f with
  | Some e => (Err e, f)
  | None =>
      let old := ff_content f in
      let gap := replicate (Z.to_nat (offset - zlen old)) x00 in
      (Ok (zlen buf),
       MkFlatFile (ztake offset (old ++ gap) ++ buf ++ zdrop (offset + zlen buf) old)
                  (ff_size f) (ff_error f))
  end.

Definition FlatFileBackend_flush (f : FlatFileBackend) : result unit ErrorKind :=
  match ff_error f with Some e => Err e | None => Ok tt end.

(** ** The backend *)

Record CasBackend (S_ : Type) := MkCas {
  store : S_;
  index : ChunkIndex;
  dirty : gmap Z bytes;
  parents : list ChunkIndex;
  fallback : option FlatFileBackend;
}.
Arguments MkCas {S_}.
Arguments store {S_}.
Arguments index {S_}.
Arguments dirty {S_}.
Arguments parents {S_}.
Arguments fallback {S_}.

(** The parent chain, from the files of the indexes. A chain that loops has
    no end: [None] is running out of fuel. *)
Fixpoint load_parent_chain (fuel : nat) (files : bytes -> option bytes) (current : option bytes)
    : option (list ChunkIndex) :=
  match fuel with
  | O => None
  | S fuel =>
      match current with
      | None => Some []
      | Some path =>
          match files path with
          | None => Some []
          | Some f =>
              match ChunkIndex_load f with
              | Err _ => Some []
              | Ok parent =>
                  let! chain := load_parent_chain fuel files (parent_path parent) in
                  Some (parent :: chain)
              end
          end
      end
  end.

Definition zero_chunk : bytes := replicate (Z.to_nat CHUNK_SIZE) x00.

Section backend.
Context `{ChunkStore S_}.
Implicit Types (b : CasBackend S_).

(** [CasBackend::new] and [with_fallback]. *)
Definition CasBackend_new (s : S_) (x : ChunkIndex) (ps : list ChunkIndex)
    (fb : option FlatFileBackend) : CasBackend S_ := MkCas s x ∅ ps fb.

Definition set_store b (s : S_) : CasBackend S_ :=
  MkCas s (index b) (dirty b) (parents b) (fallback b).
Definition set_index b (x : ChunkIndex) : CasBackend S_ :=
  MkCas (store b) x (dirty b) (parents b) (fallback b).
Definition set_dirty b (d : gmap Z bytes) : CasBackend S_ :=
  MkCas (store b) (index b) d (parents b) (fallback b).

Definition CasBackend_size b : Z := disk_size (index b).

Definition set_disk_size b (new_size : Z) : CasBackend S_ :=
  let x := index b in
  if disk_size x <? new_size then
    let grow := Z.to_nat (num_chunks_for new_size - num_chunks x) in
    set_index b (MkChunkIndex (hashes x ++ replicate grow ZERO_CHUNK_HASH) new_size
                              (parent_path x) (fallback_path x))
  else b.

Definition fetch_chunk (s : S_) (h : hash_string) : result bytes ErrorKind :=
  match store_get s h with
  | Ok (Some data) => Ok data
  | Ok None => Ok zero_chunk
  | Err _ => Err Other
  end.

(** The first hash along the parents that is not a hole. *)
Definition parent_hash (ps : list ChunkIndex) (i : Z) : hash_string :=
  default ZERO_CHUNK_HASH
    (head (filter (fun h => h <> ZERO_CHUNK_HASH) (omap (fun p => get_hash p i) ps))).

(** The bottom of the chain: a chunk of the base image, put into the store
    for later reads. *)
Definition read_fallback b (fb : FlatFileBackend) (i : Z)
    : result bytes ErrorKind * CasBackend S_ :=
  let offset := i * CHUNK_SIZE in
  let read_len := Z.min CHUNK_SIZE (ff_size fb - offset) in
  match FlatFileBackend_read fb offset read_len with
  | Err e => (Err e, b)
  | Ok buf =>
      if negb (zlen buf =? read_len) then (Err UnexpectedEof, b) else
      if forallb (fun c => bool_decide (c = x00)) buf then (Ok zero_chunk, b) else
      let '(r, s) := store_put (store b) buf in
      let b := set_store b s in
      match r with
      | Err _ => (Err Other, b)
      | Ok h => (Ok buf, set_index b (set_hash (index b) i h))
      end
  end.

Definition read_chunk b (i : Z) : result bytes ErrorKind * CasBackend S_ :=
  match dirty b !! i with
  | Some data => (Ok data, b)
  | None =>
      let h := default ZERO_CHUNK_HASH (get_hash (index b) i) in
      if negb (bool_decide (h = ZERO_CHUNK_HASH)) then (fetch_chunk (store b) h, b) else
      let ph := parent_hash (parents b) i in
      if negb (bool_decide (ph = ZERO_CHUNK_HASH)) then (fetch_chunk (store b) ph, b) else
      match fallback b with
      | Some fb => if i * CHUNK_SIZE <? ff_size fb then read_fallback b fb i
                   else (Ok zero_chunk, b)
      | None => (Ok zero_chunk, b)
      end
  end.

(** [read]: every turn takes at least a byte, so the bytes left are fuel. *)
Fixpoint read_loop (fuel : nat) b (file_offset left_ : Z) (acc : bytes)
    : result bytes ErrorKind * CasBackend S_ :=
  match fuel with
  | O => (Ok acc, b)
  | S fuel =>
      if 0 <? left_ then
        let i := file_offset / CHUNK_SIZE in
        let o := file_offset mod CHUNK_SIZE in
        let to_read := Z.min (CHUNK_SIZE - o) left_ in
        let '(r, b) := read_chunk b i in
        match r with
        | Err e => (Err e, b)
        | Ok chunk =>
            let copy_len := Z.min to_read (saturating_sub (zlen chunk) o) in
            let part := zslice o (o + copy_len) chunk
                        ++ replicate (Z.to_nat (to_read - copy_len)) x00 in
            read_loop fuel b (wrapping_add 64 file_offset to_read) (left_ - to_read) (acc ++ part)
        end
      else (Ok acc, b)
  end.

Definition CasBackend_read b (offset len : Z) : result bytes ErrorKind * CasBackend S_ :=
  read_loop (Z.to_nat len) b offset len [].

(** Overlays bytes at an offset of a chunk, which grows where it must. *)
Definition overlay (chunk : bytes) (o : Z) (data : bytes) : bytes :=
  let chunk := if zlen chunk <? o + zlen data
               then chunk ++ replicate (Z.to_nat (o + zlen data - zlen chunk)) x00 else chunk in
  ztake o chunk ++ data ++ zdrop (o + zlen data) chunk.

Fixpoint write_loop (fuel : nat) b (file_offset : Z) (data : bytes)
    : result unit ErrorKind * CasBackend S_ :=
  match fuel with
  | O => (Ok tt, b)
  | S fuel =>
      if bool_decide (data = []) then (Ok tt, b) else
      let i := file_offset / CHUNK_SIZE in
      let o := file_offset mod CHUNK_SIZE in
      let to_write := Z.min (CHUNK_SIZE - o) (zlen data) in
      let '(r, b) := read_chunk b i in
      match r with
      | Err e => (Err e, b)
      | Ok chunk =>
          let b := set_dirty b (<[i := overlay chunk o (ztake to_write data)]> (dirty b)) in
          write_loop fuel b (wrapping_add 64 file_offset to_write) (zdrop to_write data)
      end
  end.

Definition CasBackend_write b (offset : Z) (data : bytes) : result Z ErrorKind * CasBackend S_ :=
  let '(r, b) := write_loop (length data) b offset data in
  (match r with Ok _ => Ok (zlen data) | Err e => Err e end, b).

(** The loop of [flush] over the dirty chunks, in the order the hash map
    gives them. *)
Fixpoint flush_entries (s : S_) (x : ChunkIndex) (entries : list (Z * bytes))
    : result unit ErrorKind * S_ * ChunkIndex :=
  match entries with
  | [] => (Ok tt, s, x)
  | (i, data) :: entries =>
      let '(r, s) := store_put s data in
      match r with
      | Err _ => (Err Other, s, x)
      | Ok h => flush_entries s (set_hash x i h) entries
      end
  end.

(** [order] is the order of iteration: some enumeration of the dirty chunks. *)
Definition CasBackend_flush b (order : list (Z * bytes)) : result unit ErrorKind * CasBackend S_ :=
  let '(r, s, x) := flush_entries (store b) (index b) order in
  match r with
  | Err e => (Err e, MkCas s x (dirty b) (parents b) (fallback b))
  | Ok _ => (Ok tt, MkCas s x ∅ (parents b) (fallback b))
  end.

(** The hashes of a standalone index: holes filled from the parents. *)
Definition resolved_hashes b : list hash_string :=
  imap (fun i h => if bool_decide (h = ZERO_CHUNK_HASH)
                   then parent_hash (parents b) (Z.of_nat i) else h) (hashes (index b)).

(** The remaining holes over the base image are read and put. *)
Fixpoint ingest (b : CasBackend S_) (fb : FlatFileBackend) (i : Z) (hs : list hash_string)
    : result (list hash_string) ErrorKind * CasBackend S_ :=
  match hs with
  | [] => (Ok [], b)
  | h :: hs =>
      let '(r, b) :=
        if bool_decide (h = ZERO_CHUNK_HASH) && (i * CHUNK_SIZE <? ff_size fb) then
          let '(r, b) := read_chunk b i in
          match r with
          | Err e => (Err e, b)
          | Ok data =>
              if forallb (fun c => bool_decide (c = x00)) data then (Ok h, b) else
              let '(r, s) := store_put (store b) data in
              (match r with Ok h => Ok h | Err e => Err e end, set_store b s)
          end
        else (Ok h, b) in
      match r with
      | Err e => (Err e, b)
      | Ok h =>
          let '(r, b) := ingest b fb (i + 1) hs in
          (match r with Ok hs => Ok (h :: hs) | Err e => Err e end, b)
      end
  end.

(** [save_index]: the index it writes to the file, or an error, and the
    backend after it. *)
Definition save_index b (order : list (Z * bytes))
    : result ChunkIndex ErrorKind * CasBackend S_ :=
  let '(r, b) := CasBackend_flush b order in
  match r with
  | Err e => (Err e, b)
  | Ok _ =>
      let hs := resolved_hashes b in
      let '(r, b) := match fallback b with
                     | Some fb => ingest b fb 0 hs
                     | None => (Ok hs, b)
                     end in
      (match r with
       | Err e => Err e
       | Ok hs => Ok (MkChunkIndex hs (disk_size (index b)) None None)
       end, b)
  end.
End backend.
