(* ===== verification/CasProofs.v ===== *)
(** * The disk a content-addressed backend shows

    Theorems on [Cas]. The backend refines a disk of bytes: reads return what
    the disk holds, writes change exactly the bytes written, reads that pull
    chunks from the base image and flushes change nothing a reader can see,
    and a saved index opened on its own shows the same disk. *)

From Stdlib Require Import Strings.Byte.
From stdpp Require Import gmap.
From S2P Require Import Prelude Text Cas.

(** ** Bytes of a chunk *)

(** The byte at an offset; a short chunk goes on with zeros. *)
Definition nth0 (c : bytes) (o : Z) : byte := default x00 (znth c o).

Definition same_bytes (c d : bytes) : Prop := forall o, 0 <= o -> nth0 c o = nth0 d o.

Lemma same_bytes_refl c : same_bytes c c.
Proof. done. Qed.

Lemma nth0_app c d o : 0 <= o -> nth0 (c ++ d) o = if o <? zlen c then nth0 c o else nth0 d (o - zlen c).
Proof. intros. unfold nth0. rewrite znth_app by done. by case_test. Qed.

Lemma nth0_ge c o : zlen c <= o -> nth0 c o = x00.
Proof. intros. unfold nth0. by rewrite znth_ge. Qed.

Lemma nth0_zeros n o : nth0 (replicate n x00) o = x00.
Proof. unfold nth0. rewrite znth_replicate. by case_test. Qed.

Lemma nth0_take n c o : 0 <= o < n -> nth0 (ztake n c) o = nth0 c o.
Proof. intros. unfold nth0. rewrite znth_ztake by lia. by rewrite (proj2 (Z.ltb_lt _ _)) by lia. Qed.

Lemma nth0_drop n c o : 0 <= o -> 0 <= n -> nth0 (zdrop n c) o = nth0 c (n + o).
Proof. intros. unfold nth0. by rewrite znth_drop. Qed.

Lemma zero_chunk_bytes : same_bytes zero_chunk [].
Proof. intros o Ho. unfold zero_chunk. rewrite nth0_zeros. by rewrite nth0_ge. Qed.

Lemma all_zero_bytes c :
  forallb (fun x => bool_decide (x = x00)) c = true -> same_bytes c [].
Proof.
  intros Hall o Ho. rewrite (nth0_ge []) by done. unfold nth0.
  destruct (znth c o) as [x|] eqn:E; [|done]. simpl.
  unfold znth in E. case_match; [done|]. apply list_elem_of_lookup_2 in E.
  rewrite forallb_forall in Hall. apply list_elem_of_In in E. apply Hall in E.
  by apply bool_decide_eq_true in E.
Qed.

(** Overlaying data changes exactly the bytes under it. *)
Lemma overlay_bytes c o d k :
  0 <= o -> 0 <= k ->
  nth0 (overlay c o d) k = if (o <=? k) && (k <? o + zlen d) then nth0 d (k - o) else nth0 c k.
Proof.
  intros Ho Hk. unfold overlay. pose proof (zlen_nonneg d).
  set (c' := if zlen c <? o + zlen d then c ++ _ else c).
  assert (Hc' : nth0 c' k = nth0 c k).
  { unfold c'. case_test; [|done]. rewrite nth0_app by done. case_test; bool_to_prop; [done|].
    by rewrite nth0_zeros, nth0_ge. }
  assert (Hlen : o + zlen d <= zlen c').
  { unfold c'. case_test; bool_to_prop; [|done]. zlen_lia. }
  rewrite nth0_app by done. rewrite zlen_take.
  destruct (Z.ltb_spec k (Z.max 0 (Z.min o (zlen c')))).
  - rewrite nth0_take by lia. rewrite (proj2 (Z.leb_gt _ _)) by lia. done.
  - rewrite nth0_app by lia. rewrite (proj2 (Z.leb_le _ _)) by lia. simpl.
    replace (k - Z.max 0 (Z.min o (zlen c'))) with (k - o) by lia.
    destruct (Z.ltb_spec (k - o) (zlen d)), (Z.ltb_spec k (o + zlen d)); try lia; [done|].
    rewrite nth0_drop by lia. rewrite <-Hc'. f_equal. lia.
Qed.

Lemma overlay_length c o d :
  0 <= o -> zlen c <= CHUNK_SIZE -> o + zlen d <= CHUNK_SIZE -> zlen (overlay c o d) <= CHUNK_SIZE.
Proof.
  intros. unfold overlay. case_test; bool_to_prop; zlen_lia.
Qed.

(** ** The disk behind a backend *)

Section disk.
Context `{CS : ChunkStore S_, CL : !ChunkStoreLaws S_}.
Implicit Types (b : CasBackend S_).

(** A hash of an index is a hole or names a chunk the store holds. *)
Definition hash_ok (s : S_) (h : hash_string) : Prop :=
  h = ZERO_CHUNK_HASH \/ exists d, holds s h d /\ zlen d <= CHUNK_SIZE.

Definition index_ok (s : S_) (x : ChunkIndex) : Prop := Forall (hash_ok s) (hashes x).

Record cas_wf b : Prop := {
  cw_index : index_ok (store b) (index b);
  cw_parents : Forall (index_ok (store b)) (parents b);
  cw_dirty : map_Forall (fun i d => 0 <= i /\ zlen d <= CHUNK_SIZE) (dirty b);
}.

Definition stored (s : S_) (h : hash_string) : bytes :=
  match store_get s h with Ok (Some d) => d | _ => [] end.

Definition base_chunk (fb : option FlatFileBackend) (i : Z) : bytes :=
  match fb with
  | Some fb => ztake (Z.min CHUNK_SIZE (ff_size fb - i * CHUNK_SIZE))
                     (zdrop (i * CHUNK_SIZE) (ff_content fb))
  | None => []
  end.

(** What a chunk holds: the dirty copy, the index, the parents, the base. *)
Definition visible b (i : Z) : bytes :=
  match dirty b !! i with
  | Some d => d
  | None =>
      let h := default ZERO_CHUNK_HASH (get_hash (index b) i) in
      if negb (bool_decide (h = ZERO_CHUNK_HASH)) then stored (store b) h else
      let ph := parent_hash (parents b) i in
      if negb (bool_decide (ph = ZERO_CHUNK_HASH)) then stored (store b) ph
      else base_chunk (fallback b) i
  end.

(** The byte of the disk at a position. *)
Definition byte_at b (p : Z) : byte := nth0 (visible b (p / CHUNK_SIZE)) (p mod CHUNK_SIZE).

Definition same_disk b b' : Prop := forall i, 0 <= i -> same_bytes (visible b' i) (visible b i).

Lemma same_disk_refl b : same_disk b b.
Proof. done. Qed.

Lemma same_disk_trans b1 b2 b3 : same_disk b1 b2 -> same_disk b2 b3 -> same_disk b1 b3.
Proof. intros H1 H2 i Hi o Ho. rewrite (H2 i Hi o Ho). by apply H1. Qed.

Lemma same_disk_byte b b' p : same_disk b b' -> 0 <= p -> byte_at b' p = byte_at b p.
Proof.
  intros H Hp. unfold byte_at. apply H; unfold CHUNK_SIZE.
  - apply Z.div_pos; lia.
  - apply Z.mod_pos_bound. lia.
Qed.

Lemma get_hash_elem x i h : get_hash x i = Some h -> h ∈ hashes x.
Proof.
  unfold get_hash, znth. case_match; [done|]. apply list_elem_of_lookup_2.
Qed.

Lemma parent_hash_ok s ps i : Forall (index_ok s) ps -> hash_ok s (parent_hash ps i).
Proof.
  intros HF. unfold parent_hash. destruct (head _) as [h|] eqn:E; simpl; [|by left].
  apply head_Some_elem_of in E. apply list_elem_of_filter in E as [_ E].
  apply list_elem_of_omap in E as (p & Hp & Hh).
  rewrite Forall_forall in HF. specialize (HF p Hp). unfold index_ok in HF.
  rewrite Forall_forall in HF. apply HF. by eapply get_hash_elem.
Qed.

Lemma index_hash_ok b i : cas_wf b -> hash_ok (store b) (default ZERO_CHUNK_HASH (get_hash (index b) i)).
Proof.
  intros Hwf. destruct (get_hash (index b) i) as [h|] eqn:E; simpl; [|by left].
  pose proof (cw_index _ Hwf) as HF. unfold index_ok in HF. rewrite Forall_forall in HF.
  apply HF. by eapply get_hash_elem.
Qed.

(** A chunk named by a good hash is fetched in whole. *)
Lemma fetch_ok s h :
  hash_ok s h -> h <> ZERO_CHUNK_HASH ->
  fetch_chunk s h = Ok (stored s h) /\ zlen (stored s h) <= CHUNK_SIZE.
Proof.
  intros [?|(d & Hd & Hl)] Hn; [done|]. unfold fetch_chunk, stored. unfold holds in Hd.
  by rewrite Hd.
Qed.

(** Putting a chunk leaves every good hash good, and its chunk as it was. *)
Lemma put_hash_ok s d r s' h :
  store_put s d = (r, s') -> hash_ok s h -> hash_ok s' h /\
  (h <> ZERO_CHUNK_HASH -> stored s' h = stored s h).
Proof.
  intros Hput [->|(d0 & Hd & Hl)]; [split; [by left|done]|].
  pose proof (put_keeps _ _ _ _ _ _ Hput Hd) as Hd'. split; [right; by exists d0|].
  intros _. unfold stored. unfold holds in *. by rewrite Hd, Hd'.
Qed.

Lemma get_set_hash x i h j :
  0 <= i -> 0 <= j ->
  get_hash (set_hash x i h) j = if (j =? i) && (i <? num_chunks x) then Some h else get_hash x j.
Proof.
  intros Hi Hj. unfold set_hash, get_hash, num_chunks, znth. rewrite (proj2 (Z.ltb_ge j 0)) by done.
  destruct (Z.ltb_spec i (zlen (hashes x))); simpl; [|by rewrite andb_false_r].
  unfold zlen in *. destruct (Z.eqb_spec j i) as [->|]; simpl.
  - apply list_lookup_insert_eq. lia.
  - apply list_lookup_insert_ne. lia.
Qed.

Lemma num_chunks_set_hash x i h : num_chunks (set_hash x i h) = num_chunks x.
Proof. unfold set_hash, num_chunks. case_test; [|done]. unfold zlen. simpl. by rewrite length_insert. Qed.

Lemma index_ok_set_hash s x i h : index_ok s x -> hash_ok s h -> index_ok s (set_hash x i h).
Proof.
  intros Hx Hh. unfold set_hash. case_test; [|done]. unfold index_ok. simpl.
  by apply Forall_insert.
Qed.

(** A step that keeps the backend's overlays and only adds to the store. *)
Lemma wf_after_put b d r s' x :
  cas_wf b -> store_put (store b) d = (r, s') -> index_ok s' x ->
  cas_wf (MkCas s' x (dirty b) (parents b) (fallback b)).
Proof.
  intros [Hi Hp Hd] Hput Hx. split; simpl; try done.
  eapply Forall_impl; [exact Hp|]. intros p Hpi. unfold index_ok in *.
  eapply Forall_impl; [exact Hpi|]. intros h Hh. by eapply put_hash_ok.
Qed.

Lemma index_ok_put s d r s' x : store_put s d = (r, s') -> index_ok s x -> index_ok s' x.
Proof.
  intros Hput Hx. unfold index_ok in *. eapply Forall_impl; [exact Hx|]. intros h Hh.
  by eapply put_hash_ok.
Qed.

Lemma visible_put b d r s' i :
  cas_wf b -> store_put (store b) d = (r, s') -> visible (set_store b s') i = visible b i.
Proof.
  intros Hwf Hput. unfold visible; simpl. destruct (dirty b !! i); [done|].
  pose proof (index_hash_ok b i Hwf) as H1. pose proof (parent_hash_ok _ _ i (cw_parents _ Hwf)) as H2.
  case_bool_decide; simpl; [case_bool_decide; simpl; [done|]|]; by eapply put_hash_ok.
Qed.

(** The base image can be read in whole. *)
Definition base_ok (fb : option FlatFileBackend) : Prop :=
  match fb with
  | Some fb => ff_error fb = None /\ 0 <= ff_size fb <= zlen (ff_content fb)
  | None => True
  end.

(** The store takes every chunk. *)
Definition puts_ok : Prop := forall (s : S_) d, exists h s', store_put s d = (Ok h, s').

(** What a read of a chunk promises. *)
Definition chunk_step b (i : Z) (r : result bytes ErrorKind) b' : Prop :=
  cas_wf b' /\ same_disk b b' /\ dirty b' = dirty b /\ parents b' = parents b /\
  fallback b' = fallback b /\ num_chunks (index b') = num_chunks (index b) /\
  disk_size (index b') = disk_size (index b) /\
  (forall h d, holds (store b) h d -> holds (store b') h d) /\
  (forall c, r = Ok c -> same_bytes c (visible b i) /\ zlen c <= CHUNK_SIZE) /\
  (base_ok (fallback b) -> puts_ok -> exists c, r = Ok c).

Lemma chunk_step_same b i c :
  cas_wf b -> same_bytes c (visible b i) -> zlen c <= CHUNK_SIZE -> chunk_step b i (Ok c) b.
Proof.
  intros Hwf Hc Hl. unfold chunk_step. split_and!; try done; [by intros ? [= <-]|]. by exists c.
Qed.

Lemma visible_base b i :
  dirty b !! i = None -> default ZERO_CHUNK_HASH (get_hash (index b) i) = ZERO_CHUNK_HASH ->
  parent_hash (parents b) i = ZERO_CHUNK_HASH -> visible b i = base_chunk (fallback b) i.
Proof.
  intros Hd Hh Hp. unfold visible. rewrite Hd, Hh, Hp. by rewrite bool_decide_true.
Qed.

Lemma read_fallback_spec b fb i r b' :
  cas_wf b -> 0 <= i -> i * CHUNK_SIZE < ff_size fb -> fallback b = Some fb ->
  visible b i = base_chunk (fallback b) i -> dirty b !! i = None ->
  read_fallback b fb i = (r, b') -> chunk_step b i r b'.
Proof.
  intros Hwf Hi Hlt Hfb Hv Hd. unfold read_fallback, FlatFileBackend_read.
  assert (Herr : forall e, (ff_error fb <> None \/ zlen (ff_content fb) < ff_size fb) ->
             chunk_step b i (Err e) b).
  { intros e He. unfold chunk_step. split_and!; try done. rewrite Hfb. intros [? ?] _.
    destruct He; [done|lia]. }
  destruct (ff_error fb) eqn:Ee; [intros [= <- <-]; apply Herr; by left|].
  rewrite Hfb in Hv. simpl in Hv. set (buf := ztake _ _) in *.
  set (len := Z.min CHUNK_SIZE (ff_size fb - i * CHUNK_SIZE)) in *.
  case_test; bool_to_prop.
  { intros [= <- <-]. apply Herr. right. unfold buf in *.
    rewrite zlen_take, zlen_drop in Heqb0. unfold len, CHUNK_SIZE in *. lia. }
  case_test.
  { intros [= <- <-]. apply chunk_step_same; [done| |by vm_compute].
    rewrite Hv. intros o Ho. rewrite (zero_chunk_bytes o Ho).
    by rewrite (all_zero_bytes buf ltac:(done) o Ho). }
  destruct (store_put (store b) buf) as [pr s'] eqn:Hput.
  pose proof (fun j => visible_put b buf pr s' j Hwf Hput) as Hvis.
  pose proof (wf_after_put b buf pr s' (index b) Hwf Hput
                (index_ok_put _ _ _ _ _ Hput (cw_index _ Hwf))) as Hwf'.
  destruct pr as [h|e]; intros [= <- <-].
  2: { unfold chunk_step. split_and!; try done.
       - intros j Hj. by rewrite Hvis.
       - intros h d. by apply (put_keeps _ _ _ _ _ _ Hput).
       - intros _ Hok. destruct (Hok (store b) buf) as (h' & s1 & Hp). congruence. }
  destruct (put_holds _ _ _ _ Hput) as [Hh Hz].
  assert (Hbl : zlen buf <= CHUNK_SIZE) by (unfold len in *; lia).
  unfold chunk_step. split_and!; try done.
  - apply (wf_after_put b buf (Ok h) s'); [done|done|]. simpl. apply index_ok_set_hash.
    + eapply index_ok_put; [exact Hput|apply Hwf].
    + right. by exists buf.
  - intros j Hj o Ho. f_equal.
    destruct (decide (j = i /\ i < num_chunks (index b))) as [[-> Hin]|Hout].
    + rewrite Hv. unfold visible. simpl. rewrite Hd, get_set_hash by done.
      rewrite Z.eqb_refl, (proj2 (Z.ltb_lt _ _)) by done. simpl.
      rewrite bool_decide_false by done. simpl. unfold stored. unfold holds in Hh. by rewrite Hh.
    + rewrite <-Hvis. unfold visible. simpl. rewrite get_set_hash by done.
      destruct (Z.eqb_spec j i), (Z.ltb_spec i (num_chunks (index b))); simpl; try done. lia.
  - simpl. apply num_chunks_set_hash.
  - simpl. unfold set_hash. by case_test.
  - intros h' d. by apply (put_keeps _ _ _ _ _ _ Hput).
  - intros c [= <-]. by rewrite Hv.
  - intros _ _. by exists buf.
Qed.

Lemma read_chunk_spec b i r b' :
  cas_wf b -> 0 <= i -> read_chunk b i = (r, b') -> chunk_step b i r b'.
Proof.
  intros Hwf Hi. unfold read_chunk. destruct (dirty b !! i) as [d|] eqn:Ed.
  { intros [= <- <-]. apply chunk_step_same; [done| |].
    - unfold visible. by rewrite Ed.
    - by apply (cw_dirty _ Hwf i d). }
  pose proof (index_hash_ok b i Hwf) as Hh. pose proof (parent_hash_ok _ _ i (cw_parents _ Hwf)) as Hp.
  case_bool_decide as Hz; simpl.
  2: { destruct (fetch_ok _ _ Hh Hz) as [-> ?]. intros [= <- <-].
       apply chunk_step_same; [done| |done]. unfold visible. rewrite Ed.
       by rewrite bool_decide_false. }
  case_bool_decide as Hpz; simpl.
  2: { destruct (fetch_ok _ _ Hp Hpz) as [-> ?]. intros [= <- <-].
       apply chunk_step_same; [done| |done]. unfold visible. rewrite Ed, Hz.
       by rewrite bool_decide_true, bool_decide_false. }
  pose proof (visible_base b i Ed Hz Hpz) as Hv.
  destruct (fallback b) as [fb|] eqn:Efb.
  - case_test; bool_to_prop.
    + apply read_fallback_spec; try done. by rewrite Efb.
    + intros [= <- <-]. apply chunk_step_same; [done| |by vm_compute]. rewrite Hv. simpl.
      rewrite ztake_nonpos by (unfold CHUNK_SIZE in *; lia). apply zero_chunk_bytes.
  - intros [= <- <-]. apply chunk_step_same; [done| |by vm_compute]. rewrite Hv. apply zero_chunk_bytes.
Qed.

(** ** Reading and writing *)

Lemma chunk_pos off k :
  0 <= k -> off mod CHUNK_SIZE + k < CHUNK_SIZE ->
  (off + k) / CHUNK_SIZE = off / CHUNK_SIZE /\
  (off + k) mod CHUNK_SIZE = off mod CHUNK_SIZE + k.
Proof.
  intros Hk Hlt. unfold CHUNK_SIZE in *.
  pose proof (Z.div_mod off (64 * 1024) ltac:(lia)) as Hdm.
  pose proof (Z.mod_pos_bound off (64 * 1024) ltac:(lia)).
  split; symmetry.
  - apply Z.div_unique with (r := off mod (64 * 1024) + k); lia.
  - apply Z.mod_unique with (q := off / (64 * 1024)); lia.
Qed.

Lemma chunk_bounds off :
  0 <= off -> 0 <= off / CHUNK_SIZE /\ 0 <= off mod CHUNK_SIZE < CHUNK_SIZE.
Proof.
  intros. unfold CHUNK_SIZE. split; [apply Z.div_pos; lia|apply Z.mod_pos_bound; lia].
Qed.

(** The part of a chunk a turn of the read loop copies. *)
Lemma read_part chunk o n :
  0 <= o -> 0 <= n ->
  let cp := Z.min n (saturating_sub (zlen chunk) o) in
  let part := zslice o (o + cp) chunk ++ replicate (Z.to_nat (n - cp)) x00 in
  zlen part = n /\ forall k, 0 <= k < n -> nth0 part k = nth0 chunk (o + k).
Proof.
  intros Ho Hn cp part. pose proof (zlen_nonneg chunk).
  assert (Hcp : 0 <= cp <= n /\ (cp < n -> zlen chunk <= o + cp))
    by (unfold cp, saturating_sub; lia).
  assert (Hs : zlen (zslice o (o + cp) chunk) = cp).
  { unfold zslice. rewrite zlen_take, zlen_drop. unfold cp, saturating_sub in *. lia. }
  split; [unfold part; rewrite zlen_app, zlen_replicate, Hs; lia|].
  intros k Hk. unfold part. rewrite nth0_app, Hs by lia. destruct (Z.ltb_spec k cp).
  - unfold zslice. rewrite nth0_take, nth0_drop by lia. done.
  - rewrite nth0_zeros, nth0_ge by lia. done.
Qed.

Lemma read_loop_spec fuel : forall b off left_ acc r b',
  cas_wf b -> 0 <= off -> 0 <= left_ -> off + left_ < 2 ^ 64 -> left_ <= Z.of_nat fuel ->
  read_loop fuel b off left_ acc = (r, b') ->
  cas_wf b' /\ same_disk b b' /\
  (forall bs, r = Ok bs -> exists part, bs = acc ++ part /\ zlen part = left_ /\
     forall k, 0 <= k < left_ -> nth0 part k = byte_at b (off + k)) /\
  (base_ok (fallback b) -> puts_ok -> exists bs, r = Ok bs).
Proof.
  assert (Hdone : forall b off left_ acc, cas_wf b -> left_ = 0 ->
    cas_wf b /\ same_disk b b /\
    (forall bs, Ok acc = Ok (E := ErrorKind) bs -> exists part, bs = acc ++ part /\
       zlen part = left_ /\ forall k, 0 <= k < left_ -> nth0 part k = byte_at b (off + k)) /\
    (base_ok (fallback b) -> puts_ok -> exists bs, Ok acc = Ok (E := ErrorKind) bs)).
  { intros b off left_ acc Hwf ->. split_and!; try done; [|by eexists]. intros bs [= <-].
    exists []. rewrite app_nil_r. split_and!; [done|done|lia]. }
  induction fuel as [|fuel IH]; intros b off left_ acc r b' Hwf Hoff Hleft Hmax Hfuel; simpl.
  { intros [= <- <-]. apply Hdone; [done|lia]. }
  case_test; bool_to_prop; [|intros [= <- <-]; apply Hdone; [done|lia]].
  destruct (chunk_bounds off Hoff) as [Hi Ho].
  set (i := off / CHUNK_SIZE) in *. set (o := off mod CHUNK_SIZE) in *.
  destruct (read_chunk b i) as [rc b1] eqn:Erc.
  apply read_chunk_spec in Erc as (Hwf1 & Hsame1 & _ & _ & Hfb1 & _ & _ & _ & Hc & Htot); [|done..].
  destruct rc as [chunk|e].
  2: { intros [= <- <-]. split_and!; try done. }
  destruct (Hc chunk eq_refl) as [Hvis Hlen].
  set (n := Z.min (CHUNK_SIZE - o) left_). intros Hloop.
  destruct (read_part chunk o n) as [Hpl Hpart]; [lia..|].
  unfold wrapping_add in Hloop. rewrite wrap_small in Hloop by (unfold in_width; lia).
  apply IH in Hloop as (Hwf2 & Hsame2 & Hbs & Htot2); [|done|lia..].
  split_and!; [done|by eapply same_disk_trans| |].
  - intros bs Hr. destruct (Hbs bs Hr) as (rest & -> & Hrl & Hrest).
    eexists. rewrite <-app_assoc. split_and!; [done|rewrite zlen_app, Hpl, Hrl; lia|].
    intros k Hk. rewrite nth0_app, Hpl by lia. destruct (Z.ltb_spec k n).
    + rewrite Hpart by lia. destruct (chunk_pos off k) as [Hq Hm]; [lia|unfold n in *; lia|].
      unfold byte_at. rewrite Hq, Hm. apply Hvis. lia.
    + rewrite Hrest by lia. rewrite (same_disk_byte b b1) by (done || lia). f_equal. lia.
  - intros Hb Hp. apply Htot2; [by rewrite Hfb1|done].
Qed.

(** What reads leave of the backend. *)
Lemma read_loop_keeps fuel : forall b off left_ acc r b',
  cas_wf b -> 0 <= off -> 0 <= left_ -> read_loop fuel b off left_ acc = (r, b') ->
  fallback b' = fallback b /\ num_chunks (index b') = num_chunks (index b) /\
  disk_size (index b') = disk_size (index b).
Proof.
  induction fuel as [|fuel IH]; intros b off left_ acc r b' Hwf Hoff Hl; simpl.
  { by intros [= <- <-]. }
  case_test; [|by intros [= <- <-]]. destruct (chunk_bounds off Hoff) as [Hi Ho].
  destruct (read_chunk b _) as [rc b1] eqn:Erc.
  apply read_chunk_spec in Erc as (Hwf1 & _ & _ & _ & Hf & Hn & Hd & _); [|done..].
  destruct rc as [chunk|e]; [|by intros [= <- <-]].
  rewrite <-Hf, <-Hn, <-Hd. apply IH; [done| |lia]. apply wrap_in_width. lia.
Qed.

(** The bytes of the disk after a write. *)
Definition written b off data p : byte :=
  if (off <=? p) && (p <? off + zlen data) then nth0 data (p - off) else byte_at b p.

Lemma write_chunk_spec b b1 i o chunk d p :
  cas_wf b1 -> same_disk b b1 -> 0 <= i -> 0 <= o -> o + zlen d <= CHUNK_SIZE ->
  same_bytes chunk (visible b i) -> zlen chunk <= CHUNK_SIZE -> 0 <= p ->
  let b2 := set_dirty b1 (<[i := overlay chunk o d]> (dirty b1)) in
  cas_wf b2 /\ byte_at b2 p = written b (i * CHUNK_SIZE + o) d p.
Proof.
  intros Hwf Hsame Hi Ho Hd Hc Hl Hp b2. split.
  - destruct Hwf as [? ? Hdirty]. split; simpl; try done.
    apply map_Forall_insert_2; [|done]. split; [done|]. by apply overlay_length.
  - destruct (chunk_bounds p Hp) as [Hq Hm]. pose proof (zlen_nonneg d).
    assert (Hpos : p = p / CHUNK_SIZE * CHUNK_SIZE + p mod CHUNK_SIZE)
      by (pose proof (Z.div_mod p CHUNK_SIZE ltac:(done)); lia).
    set (j := p / CHUNK_SIZE) in *. set (m := p mod CHUNK_SIZE) in *.
    unfold byte_at, written. fold j m. unfold visible at 1. simpl.
    destruct (decide (i = j)) as [->|Hne].
    + rewrite lookup_insert_eq. rewrite overlay_bytes by lia.
      replace (j * CHUNK_SIZE + o <=? p) with (o <=? m)
        by (destruct (Z.leb_spec o m), (Z.leb_spec (j * CHUNK_SIZE + o) p); lia || done).
      replace (p <? j * CHUNK_SIZE + o + zlen d) with (m <? o + zlen d)
        by (destruct (Z.ltb_spec m (o + zlen d)), (Z.ltb_spec p (j * CHUNK_SIZE + o + zlen d));
            lia || done).
      case_test; [f_equal; lia|]. unfold byte_at. fold j m. apply Hc. lia.
    + rewrite lookup_insert_ne by done.
      assert (Hout : (i * CHUNK_SIZE + o <=? p) && (p <? i * CHUNK_SIZE + o + zlen d) = false).
      { apply andb_false_iff. rewrite Z.leb_gt, Z.ltb_ge. unfold CHUNK_SIZE in *. nia. }
      rewrite Hout. unfold byte_at. fold j m. apply Hsame; lia.
Qed.

Lemma write_loop_spec fuel : forall b off data r b',
  cas_wf b -> 0 <= off -> off + zlen data < 2 ^ 64 -> zlen data <= Z.of_nat fuel ->
  write_loop fuel b off data = (r, b') ->
  cas_wf b' /\ fallback b' = fallback b /\ num_chunks (index b') = num_chunks (index b) /\
  disk_size (index b') = disk_size (index b) /\
  (r = Ok tt -> forall p, 0 <= p -> byte_at b' p = written b off data p) /\
  (base_ok (fallback b) -> puts_ok -> r = Ok tt).
Proof.
  assert (Hdone : forall b off p, byte_at b p = written b off [] p).
  { intros b off p. unfold written. case_test; [|done]. bool_to_prop.
    change (zlen (@nil byte)) with 0 in *. lia. }
  induction fuel as [|fuel IH]; intros b off data r b' Hwf Hoff Hmax Hfuel; simpl.
  { assert (data = []) as -> by (apply zlen_zero; zlen_lia).
    intros [= <- <-]. by split_and!. }
  case_bool_decide as Hn; [subst data; intros [= <- <-]; by split_and!|].
  destruct (chunk_bounds off Hoff) as [Hi Ho].
  assert (Hpos : off = off / CHUNK_SIZE * CHUNK_SIZE + off mod CHUNK_SIZE)
    by (pose proof (Z.div_mod off CHUNK_SIZE ltac:(done)); lia).
  set (i := off / CHUNK_SIZE) in *. set (o := off mod CHUNK_SIZE) in *.
  destruct (read_chunk b i) as [rc b1] eqn:Erc.
  apply read_chunk_spec in Erc as (Hwf1 & Hsame1 & Hd1 & _ & Hfb1 & Hnc & Hds & _ & Hc & Htot); [|done..].
  destruct rc as [chunk|e].
  2: { intros [= <- <-]. split_and!; try done. intros Hb Hp. by destruct (Htot Hb Hp). }
  destruct (Hc chunk eq_refl) as [Hvis Hlen].
  set (n := Z.min (CHUNK_SIZE - o) (zlen data)).
  assert (0 < zlen data).
  { destruct (decide (zlen data = 0)) as [Hz%zlen_zero|]; [done|zlen_lia]. }
  assert (Htake : zlen (ztake n data) = n) by (rewrite zlen_take; lia).
  intros Hloop. unfold wrapping_add in Hloop. rewrite wrap_small in Hloop by (unfold in_width; lia).
  pose proof (fun p => write_chunk_spec b b1 i o chunk (ztake n data) p Hwf1 Hsame1 Hi
                ltac:(lia) ltac:(lia) Hvis Hlen) as Hw. cbv zeta in Hw.
  apply IH in Hloop as (Hwf2 & Hfb2 & Hnc2 & Hds2 & Hbytes & Htot2);
    [|by apply (Hw 0)|lia|rewrite zlen_drop; lia..].
  split_and!; [done|by rewrite Hfb2|by rewrite Hnc2|by rewrite Hds2| |].
  - intros Hr p Hp. rewrite (Hbytes Hr p Hp). unfold written at 1.
    rewrite (proj2 (Hw p Hp)), zlen_drop. rewrite <-Hpos. unfold written. rewrite Htake.
    destruct (Z.leb_spec (off + n) p), (Z.ltb_spec p (off + n + Z.max 0 (zlen data - Z.max 0 n))),
      (Z.leb_spec off p), (Z.ltb_spec p (off + zlen data)), (Z.ltb_spec p (off + n));
      simpl; try lia; try done.
    + rewrite nth0_drop by lia. f_equal. lia.
    + by rewrite nth0_take by lia.
  - intros Hb Hp. apply Htot2; [simpl; by rewrite Hfb1|done].
Qed.

(** ** Flushing *)

Lemma flush_entries_spec entries : forall s x r s' x',
  index_ok s x -> Forall (fun e => 0 <= fst e /\ zlen (snd e) <= CHUNK_SIZE) entries ->
  NoDup (map fst entries) -> flush_entries s x entries = (r, s', x') ->
  index_ok s' x' /\ num_chunks x' = num_chunks x /\ disk_size x' = disk_size x /\
  (forall h d, holds s h d -> holds s' h d) /\ (puts_ok -> r = Ok tt) /\
  (forall i, 0 <= i -> i ∉ map fst entries -> get_hash x' i = get_hash x i) /\
  (r = Ok tt -> forall i d, (i, d) ∈ entries -> i < num_chunks x ->
     exists h, get_hash x' i = Some h /\ h <> ZERO_CHUNK_HASH /\ holds s' h d).
Proof.
  induction entries as [|[i d] entries IH]; intros s x r s' x' Hx HF Hnd; simpl.
  { intros [= <- <- <-]. split_and!; try done. intros _ i d Hin. set_solver. }
  apply Forall_cons_1 in HF as [[Hi Hd] HF]. simpl in *. apply NoDup_cons in Hnd as [Hni Hnd].
  destruct (store_put s d) as [pr s1] eqn:Hput.
  pose proof (index_ok_put _ _ _ _ _ Hput Hx) as Hx1.
  destruct pr as [h|e].
  2: { intros [= <- <- <-]. split_and!; try done.
       - intros h0 d0. by apply (put_keeps _ _ _ _ _ _ Hput).
       - intros Hok. destruct (Hok s d) as (h' & s2 & Hp). congruence. }
  destruct (put_holds _ _ _ _ Hput) as [Hh Hz].
  intros Hfl. apply IH in Hfl as (Hx2 & Hn2 & Hsz2 & Hkeep & Htot & Hother & Hget); [| |done|done].
  2: { apply index_ok_set_hash; [done|]. right. by exists d. }
  rewrite num_chunks_set_hash in *. split_and!; try done.
  - rewrite Hsz2. unfold set_hash. by case_test.
  - intros h0 d0 H0. apply Hkeep. by apply (put_keeps _ _ _ _ _ _ Hput).
  - intros j Hj [Hne Hnin]%not_elem_of_cons. rewrite Hother by done. rewrite get_set_hash by done.
    by rewrite (proj2 (Z.eqb_neq _ _)).
  - intros Hr j dj [[= -> ->]|Hin]%elem_of_cons Hlt.
    + exists h. rewrite Hother by done. rewrite get_set_hash by done.
      rewrite Z.eqb_refl, (proj2 (Z.ltb_lt _ _)) by done. split_and!; [done|done|by apply Hkeep].
    + by apply Hget.
Qed.

(** The entries of the dirty map, in any order. *)
Lemma dirty_entries b order :
  cas_wf b -> order ≡ₚ map_to_list (dirty b) ->
  Forall (fun e => 0 <= fst e /\ zlen (snd e) <= CHUNK_SIZE) order /\ NoDup (map fst order) /\
  (forall i d, (i, d) ∈ order <-> dirty b !! i = Some d).
Proof.
  intros Hwf Hperm. split_and!.
  - rewrite Hperm. apply Forall_forall. intros [i d] Hin. apply elem_of_map_to_list in Hin.
    by apply (cw_dirty _ Hwf i d).
  - assert (Hp : map fst order ≡ₚ map fst (map_to_list (dirty b))) by (by apply Permutation_map).
    rewrite Hp. apply NoDup_fst_map_to_list.
  - intros i d. rewrite Hperm. apply elem_of_map_to_list.
Qed.

(** A flush keeps the disk, up to the last chunk of the index. *)
Lemma flush_spec b order r b' :
  cas_wf b -> order ≡ₚ map_to_list (dirty b) -> CasBackend_flush b order = (r, b') ->
  cas_wf b' /\ num_chunks (index b') = num_chunks (index b) /\
  disk_size (index b') = disk_size (index b) /\
  parents b' = parents b /\ fallback b' = fallback b /\
  (forall i, 0 <= i < num_chunks (index b) -> visible b' i = visible b i) /\
  (puts_ok -> r = Ok tt) /\ (r = Ok tt -> dirty b' = ∅).
Proof.
  intros Hwf Hperm. unfold CasBackend_flush.
  destruct (dirty_entries b order Hwf Hperm) as (HF & Hnd & Hin).
  destruct (flush_entries (store b) (index b) order) as [[r1 s'] x'] eqn:Efl.
  apply flush_entries_spec in Efl as (Hx & Hn & Hsz & Hkeep & Htot & Hother & Hget); try done;
    [|apply Hwf].
  assert (Hstored : forall h, hash_ok (store b) h -> h <> ZERO_CHUNK_HASH -> stored s' h = stored (store b) h).
  { intros h [?|(d & Hd & _)] Hz; [done|]. unfold stored. pose proof (Hkeep _ _ Hd) as Hd'.
    unfold holds in *. by rewrite Hd, Hd'. }
  assert (Hparents : Forall (index_ok s') (parents b)).
  { eapply Forall_impl; [apply (cw_parents _ Hwf)|]. intros p Hp. unfold index_ok in *.
    eapply Forall_impl; [exact Hp|]. intros h [?|(d & ? & ?)]; [by left|right; exists d; auto]. }
  assert (Hrest : forall i, 0 <= i -> dirty b !! i = None ->
     visible (MkCas s' x' ∅ (parents b) (fallback b)) i = visible b i).
  { intros i Hi Hd. unfold visible; simpl. rewrite lookup_empty, Hd.
    rewrite Hother; [|done|].
    2: { intros ([j dj] & -> & Hj)%list_elem_of_fmap. apply Hin in Hj. simpl in *. congruence. }
    pose proof (index_hash_ok b i Hwf) as H1.
    pose proof (parent_hash_ok _ _ i (cw_parents _ Hwf)) as H2.
    case_bool_decide; simpl; [case_bool_decide; simpl; [done|]|]; by apply Hstored. }
  destruct r1 as [[]|e]; intros [= <- <-]; simpl.
  - split_and!; try done. intros i Hi. destruct (dirty b !! i) as [d|] eqn:Ed; [|apply Hrest; done || lia].
    destruct (Hget eq_refl i d) as (h & Hh & Hz & Hd); [by apply Hin|lia|].
    unfold visible; simpl. rewrite lookup_empty, Ed, Hh. simpl.
    rewrite bool_decide_false by done. simpl. unfold stored. unfold holds in Hd. by rewrite Hd.
  - split_and!; try done; [split; simpl; try done; apply Hwf|].
    intros i Hi. destruct (dirty b !! i) as [d|] eqn:Ed.
    + unfold visible; simpl. by rewrite Ed.
    + rewrite <-(Hrest i) by lia || done. unfold visible; simpl. by rewrite Ed, lookup_empty.
Qed.

(** ** Standalone indexes *)

(** A hash that stands on its own for a chunk's contents. *)
Definition stands_for (s : S_) (v : bytes) (h : hash_string) : Prop :=
  (h = ZERO_CHUNK_HASH /\ same_bytes [] v) \/
  (h <> ZERO_CHUNK_HASH /\ exists d, holds s h d /\ same_bytes d v /\ zlen d <= CHUNK_SIZE).

(** A hash resolved over the parents: it stands for the chunk, or the chunk
    is what the base image has. *)
Definition resolves b (i : Z) (h : hash_string) : Prop :=
  if bool_decide (h = ZERO_CHUNK_HASH) then same_bytes (base_chunk (fallback b) i) (visible b i)
  else stands_for (store b) (visible b i) h.

Lemma stands_for_later s s' v v' h :
  (forall h d, holds s h d -> holds s' h d) -> same_bytes v v' ->
  stands_for s v h -> stands_for s' v' h.
Proof.
  intros Hk Hv [[-> Hz]|(Hn & d & Hd & Hs & Hl)]; [left|right]; (split; [done|]).
  - intros o Ho. by rewrite (Hz o Ho), (Hv o Ho).
  - exists d. split_and!; [by apply Hk| |done]. intros o Ho. by rewrite (Hs o Ho), (Hv o Ho).
Qed.

Lemma resolves_later b b' i h :
  0 <= i -> same_disk b b' -> fallback b' = fallback b ->
  (forall h d, holds (store b) h d -> holds (store b') h d) -> resolves b i h -> resolves b' i h.
Proof.
  intros Hi Hs Hf Hk. unfold resolves. rewrite Hf. case_bool_decide.
  - intros Hb o Ho. by rewrite (Hb o Ho), (Hs i Hi o Ho).
  - apply stands_for_later; [done|]. intros o Ho. symmetry. by apply Hs.
Qed.

Lemma ingest_spec fb hs : forall b i r b',
  cas_wf b -> 0 <= i -> fallback b = Some fb ->
  (forall k h, hs !! k = Some h -> resolves b (i + Z.of_nat k) h) ->
  ingest b fb i hs = (r, b') ->
  cas_wf b' /\ same_disk b b' /\ fallback b' = fallback b /\
  disk_size (index b') = disk_size (index b) /\
  (forall h d, holds (store b) h d -> holds (store b') h d) /\
  (base_ok (fallback b) -> puts_ok -> exists hs', r = Ok hs') /\
  (forall hs', r = Ok hs' -> length hs' = length hs /\
     forall k h, hs' !! k = Some h -> stands_for (store b') (visible b (i + Z.of_nat k)) h).
Proof.
  induction hs as [|h hs IH]; intros b i r b' Hwf Hi Hfb Hres; simpl.
  { intros [= <- <-]. split_and!; try done; try (by eexists).
    intros hs' [= <-]. split; [done|]. intros k h. by rewrite lookup_nil. }
  set (step := if (_ && _)%bool then _ else _).
  assert (Hstep : forall r1 b1, step = (r1, b1) ->
     cas_wf b1 /\ same_disk b b1 /\ fallback b1 = fallback b /\
     disk_size (index b1) = disk_size (index b) /\
     (forall h d, holds (store b) h d -> holds (store b1) h d) /\
     (base_ok (fallback b) -> puts_ok -> exists h', r1 = Ok h') /\
     (forall h', r1 = Ok h' -> stands_for (store b1) (visible b i) h')).
  { pose proof (Hres 0%nat h eq_refl) as Hh. rewrite Z.add_0_r in Hh. unfold resolves in Hh.
    intros r1 b1 Est. unfold step in Est. clear step.
    case_bool_decide as Hz; simpl in Est.
    2: { injection Est as <- <-. split_and!; try done; try (by eexists). by intros h' [= <-]. }
    case_test_in Est; bool_to_prop.
    2: { injection Est as <- <-. split_and!; try done; try (by eexists).
         intros h' [= <-]. left. split; [done|]. intros o Ho. rewrite <-(Hh o Ho), Hfb. simpl.
         by rewrite ztake_nonpos by lia. }
    destruct (read_chunk b i) as [rc b2] eqn:Erc.
    apply read_chunk_spec in Erc as (Hwf2 & Hs2 & _ & _ & Hfb2 & _ & Hsz2 & Hk2 & Hc & Htot); [|done..].
    destruct rc as [data|e].
    2: { injection Est as <- <-. by split_and!. }
    destruct (Hc data eq_refl) as [Hvis Hlen].
    case_test_in Est.
    { injection Est as <- <-. split_and!; try done; try (by eexists).
      intros h' [= <-]. left. split; [done|]. intros o Ho.
      by rewrite <-(Hvis o Ho), (all_zero_bytes data ltac:(done) o Ho). }
    destruct (store_put (store b2) data) as [pr s'] eqn:Hput. injection Est as <- <-.
    split_and!; try done.
    - apply (wf_after_put b2 data pr s'); [done|done|]. eapply index_ok_put; [exact Hput|apply Hwf2].
    - intros j Hj o Ho. rewrite (visible_put b2 data pr s' j) by done. by apply Hs2.
    - intros h0 d0 H0. apply (put_keeps _ _ _ _ _ _ Hput). by apply Hk2.
    - intros _ Hok. destruct (Hok (store b2) data) as (h' & s1 & Hp).
      rewrite Hput in Hp. injection Hp as -> ->. by eexists.
    - intros h' Hpr. destruct pr as [h0|]; [|done]. injection Hpr as ->.
      destruct (put_holds _ _ _ _ Hput) as [Hh' Hz']. right. split; [done|]. by exists data. }
  clearbody step. destruct step as [r1 b1].
  destruct (Hstep r1 b1 eq_refl) as (Hwf1 & Hs1 & Hf1 & Hsz1 & Hk1 & Ht1 & Hg1). clear Hstep.
  destruct r1 as [h1|e].
  2: { intros [= <- <-]. split_and!; try done. intros Hb Hp. by destruct (Ht1 Hb Hp). }
  destruct (ingest b1 fb (i + 1) hs) as [r2 b2] eqn:Ein. intros [= <- <-].
  apply IH in Ein as (Hwf2 & Hs2 & Hf2 & Hsz2 & Hk2 & Ht2 & Hg2); [|done|lia|congruence|].
  2: { intros k h' Hk. apply (resolves_later b b1); [lia|done..|].
       replace (i + 1 + Z.of_nat k) with (i + Z.of_nat (S k)) by lia. by apply Hres. }
  split_and!; [done|by eapply same_disk_trans|congruence|congruence|auto| |].
  - intros Hb Hp. destruct Ht2 as [hs' ->]; [by rewrite Hf1|done|]. by eexists.
  - intros hs' Hr. destruct r2 as [hs2|]; [|done]. injection Hr as <-.
    destruct (Hg2 hs2 eq_refl) as [Hl Hall]. split; [simpl; by rewrite Hl|].
    intros [|k] h'; simpl.
    + intros [= <-]. rewrite Z.add_0_r. eapply stands_for_later; [exact Hk2|done|by apply Hg1].
    + intros Hk.
      apply (stands_for_later (store b2) (store b2) (visible b1 (i + 1 + Z.of_nat k)));
        [done| |by apply Hall].
      intros o Ho. replace (i + Z.of_nat (S k)) with (i + 1 + Z.of_nat k) by lia.
      apply Hs1; lia.
Qed.

Lemma resolved_resolves b k h :
  cas_wf b -> dirty b = ∅ -> resolved_hashes b !! k = Some h -> resolves b (Z.of_nat k) h.
Proof.
  intros Hwf Hd. unfold resolved_hashes. rewrite list_lookup_imap.
  destruct (hashes (index b) !! k) as [h0|] eqn:E; [|done]. simpl. intros [= <-].
  assert (Hget : get_hash (index b) (Z.of_nat k) = Some h0).
  { unfold get_hash, znth. rewrite (proj2 (Z.ltb_ge _ _)) by lia. by rewrite Nat2Z.id. }
  pose proof (index_hash_ok b (Z.of_nat k) Hwf) as H1. rewrite Hget in H1. simpl in H1.
  pose proof (parent_hash_ok _ _ (Z.of_nat k) (cw_parents _ Hwf)) as H2.
  assert (Hstands : forall h, hash_ok (store b) h -> h <> ZERO_CHUNK_HASH ->
    stands_for (store b) (stored (store b) h) h).
  { intros h [?|(d & Hd' & Hl)] Hz; [done|]. right. split; [done|]. exists d.
    unfold stored. unfold holds in *. rewrite Hd'. by split_and!. }
  unfold resolves, visible. rewrite Hd, lookup_empty, Hget. simpl.
  destruct (decide (h0 = ZERO_CHUNK_HASH)) as [->|Hz].
  - rewrite !(bool_decide_true (ZERO_CHUNK_HASH = ZERO_CHUNK_HASH)) by done. simpl.
    case_bool_decide; simpl; [done|]. by apply Hstands.
  - rewrite !(bool_decide_false (h0 = ZERO_CHUNK_HASH)) by done. simpl.
    by apply Hstands.
Qed.

(** A standalone index whose hashes stand for the chunks shows the disk. *)
Lemma standalone_disk (s : S_) hs size b :
  (forall k h, hs !! k = Some h -> stands_for s (visible b (Z.of_nat k)) h) ->
  let b' := CasBackend_new s (MkChunkIndex hs size None None) [] None in
  cas_wf b' /\ forall i, 0 <= i < zlen hs -> same_bytes (visible b' i) (visible b i).
Proof.
  intros Hall b'. split.
  - split; simpl; [|by constructor|apply map_Forall_empty].
    unfold index_ok; simpl. apply Forall_lookup. intros k h Hk.
    destruct (Hall k h Hk) as [[-> _]|(_ & d & Hd & _ & Hl)]; [by left|right; by exists d].
  - intros i Hi o Ho. unfold zlen in Hi.
    destruct (lookup_lt_is_Some_2 hs (Z.to_nat i)) as [h Hh]; [lia|].
    pose proof (Hall _ _ Hh) as Hst. rewrite Z2Nat.id in Hst by lia.
    revert Hst. generalize (visible b i). intros v Hst.
    unfold b', visible, CasBackend_new; simpl. rewrite lookup_empty.
    unfold get_hash, znth. rewrite (proj2 (Z.ltb_ge _ _)) by lia. simpl. rewrite Hh. simpl.
    destruct Hst as [[-> Hz]|(Hn & d & Hd & Hs & _)].
    + change (parent_hash [] i) with ZERO_CHUNK_HASH.
      rewrite !bool_decide_true by done. by apply Hz.
    + rewrite bool_decide_false by done. simpl. unfold stored. unfold holds in Hd. rewrite Hd.
      by apply Hs.
Qed.

(** Reads show the disk. A read that succeeds returns as many bytes as asked
    for, each the byte of the disk at its position, across chunk borders,
    short chunks and holes; pulling chunks from the base image into the store
    changes no byte of the disk; and with a readable base image and a store
    that takes chunks every read succeeds. *)
Theorem cas_read_shows_disk b off len r b' :
  cas_wf b -> 0 <= off -> 0 <= len -> off + len < 2 ^ 64 ->
  CasBackend_read b off len = (r, b') ->
  cas_wf b' /\ (forall p, 0 <= p -> byte_at b' p = byte_at b p) /\
  (forall bs, r = Ok bs -> zlen bs = len /\
     forall k, 0 <= k < len -> nth0 bs k = byte_at b (off + k)) /\
  (base_ok (fallback b) -> puts_ok -> exists bs, r = Ok bs).
Proof.
  intros Hwf Hoff Hlen Hmax H. unfold CasBackend_read in H.
  apply read_loop_spec in H as (Hwf' & Hsame & Hbs & Htot); [|done|lia..].
  split_and!; [done| | |done].
  - intros p Hp. by apply same_disk_byte.
  - intros bs Hr. destruct (Hbs bs Hr) as (part & -> & ? & ?). done.
Qed.

(** C10: Writes change the disk, and nothing else. After a write that succeeds
    the bytes written are at their place and every other byte of the disk is
    as it was; the result is the number of bytes given; and with a readable
    base image and a store that takes chunks every write succeeds. *)
Theorem cas_write_changes_disk b off data r b' :
  cas_wf b -> 0 <= off -> off + zlen data < 2 ^ 64 ->
  CasBackend_write b off data = (r, b') ->
  cas_wf b' /\
  (forall n, r = Ok n -> n = zlen data /\
     forall p, 0 <= p ->
       byte_at b' p = if (off <=? p) && (p <? off + zlen data) then nth0 data (p - off)
                      else byte_at b p) /\
  (base_ok (fallback b) -> puts_ok -> r = Ok (zlen data)).
Proof.
  intros Hwf Hoff Hmax. unfold CasBackend_write.
  destruct (write_loop (length data) b off data) as [r1 b1] eqn:E. intros [= <- <-].
  apply write_loop_spec in E as (Hwf' & _ & _ & _ & Hb & Htot); [|done..|unfold zlen; lia].
  split_and!; [done| |].
  - intros n Hn. destruct r1 as [[]|]; [|done]. injection Hn as <-. split; [done|]. by apply Hb.
  - intros Hbase Hp. by rewrite (Htot Hbase Hp).
Qed.

Lemma grow_visible b size i : visible (set_disk_size b size) i = visible b i.
Proof.
  unfold set_disk_size. case_test; [|done]. unfold visible; simpl.
  destruct (dirty b !! i); [done|].
  assert (Hh : forall l n, default ZERO_CHUNK_HASH (znth (l ++ replicate n ZERO_CHUNK_HASH) i)
                         = default ZERO_CHUNK_HASH (znth l i)).
  { intros l n. destruct (decide (i < 0)).
    { unfold znth. by rewrite (proj2 (Z.ltb_lt _ _)). }
    rewrite znth_app by lia. case_test; bool_to_prop; [done|].
    rewrite znth_replicate, (znth_ge l) by done. by case_test. }
  unfold get_hash; simpl. by rewrite Hh.
Qed.

(** Flushing and growing keep the disk. Whatever order the dirty chunks are
    put in, and also when a put fails on the way, a flush leaves every byte
    the index covers as it was, and one that succeeds leaves nothing dirty;
    enlarging the disk changes no byte. *)
Theorem flush_and_growth_keep_disk b order r b' p :
  cas_wf b -> order ≡ₚ map_to_list (dirty b) -> CasBackend_flush b order = (r, b') ->
  0 <= p ->
  cas_wf b' /\ (p < num_chunks (index b) * CHUNK_SIZE -> byte_at b' p = byte_at b p) /\
  (puts_ok -> r = Ok tt) /\ (r = Ok tt -> dirty b' = ∅) /\
  (forall size, byte_at (set_disk_size b size) p = byte_at b p).
Proof.
  intros Hwf Hperm H Hp.
  apply flush_spec in H as (Hwf' & _ & _ & _ & _ & Hvis & Htot & Hempty); [|done..].
  split_and!; [done| |done|done|].
  - intros Hlt. unfold byte_at. rewrite Hvis; [done|]. destruct (chunk_bounds p Hp) as [? _].
    split; [done|]. apply Z.div_lt_upper_bound; [done|lia].
  - intros size. unfold byte_at. by rewrite grow_visible.
Qed.

(** A saved index stands on its own. Saving flushes, resolves the holes over
    the parents and puts what is left of the base image into the store; the
    index it writes has no parent and no base image, and a backend opened on
    it over the same store shows every byte of the disk it was saved from. *)
Lemma save_index_spec b order r b' :
  cas_wf b -> order ≡ₚ map_to_list (dirty b) -> save_index b order = (r, b') ->
  (base_ok (fallback b) -> puts_ok -> exists x, r = Ok x) /\
  forall x, r = Ok x ->
    parent_path x = None /\ fallback_path x = None /\ disk_size x = disk_size (index b) /\
    num_chunks x = num_chunks (index b) /\
    let alone := CasBackend_new (store b') x [] None in
    cas_wf alone /\
    forall p, 0 <= p < num_chunks (index b) * CHUNK_SIZE -> byte_at alone p = byte_at b p.
Proof.
  intros Hwf Hperm. unfold save_index.
  destruct (CasBackend_flush b order) as [rf b1] eqn:Ef.
  apply flush_spec in Ef as (Hwf1 & Hn1 & Hsz1 & _ & Hfb1 & Hvis & Htot & Hempty); [|done..].
  destruct rf as [[]|e].
  2: { intros [= <- <-]. split; [|done]. intros _ Hp. by specialize (Htot Hp). }
  specialize (Hempty eq_refl).
  assert (Hres : forall k h, resolved_hashes b1 !! k = Some h -> resolves b1 (Z.of_nat k) h)
    by (intros; by apply resolved_resolves).
  assert (Hlen : zlen (resolved_hashes b1) = num_chunks (index b))
    by (unfold resolved_hashes, num_chunks, zlen in *; by rewrite length_imap).
  assert (Hend : forall hs s size,
      (forall k h, hs !! k = Some h -> stands_for s (visible b1 (Z.of_nat k)) h) ->
      zlen hs = num_chunks (index b) ->
      let alone := CasBackend_new s (MkChunkIndex hs size None None) [] None in
      cas_wf alone /\
      forall p, 0 <= p < num_chunks (index b) * CHUNK_SIZE -> byte_at alone p = byte_at b p).
  { intros hs s size Hall Hl alone. destruct (standalone_disk s hs size b1 Hall) as [Hwfa Hva].
    split; [done|]. intros p Hp. destruct (chunk_bounds p) as [Hq Hm]; [lia|].
    assert (p / CHUNK_SIZE < num_chunks (index b)) by (apply Z.div_lt_upper_bound; [done|lia]).
    unfold byte_at. rewrite (Hva (p / CHUNK_SIZE)) by lia. by rewrite Hvis by lia. }
  destruct (fallback b1) as [fb|] eqn:Efb.
  - destruct (ingest b1 fb 0 (resolved_hashes b1)) as [ri b2] eqn:Ei. intros [= <- <-].
    apply ingest_spec in Ei as (_ & _ & _ & Hsz2 & _ & Hti & Hgi); [|done..].
    split; [intros Hb Hp; destruct Hti as [hs' ->]; [by rewrite Efb, Hfb1|done|by eexists]|].
    intros x Hx. destruct ri as [hs'|]; [|done]. injection Hx as <-.
    destruct (Hgi hs' eq_refl) as [Hl Hall]. simpl.
    assert (Hl' : zlen hs' = num_chunks (index b)) by (unfold zlen in *; lia).
    split_and!; [done|done|congruence|done|..]; by apply Hend.
  - intros [= <- <-]. split; [by eexists|]. intros x [= <-]. simpl.
    assert (Hall : forall k h, resolved_hashes b1 !! k = Some h ->
              stands_for (store b1) (visible b1 (Z.of_nat k)) h).
    { intros k h Hk. specialize (Hres k h Hk). unfold resolves in Hres.
      case_bool_decide as Hz; [|done]. left. split; [done|]. by rewrite Efb in Hres. }
    split_and!; [done|done|congruence|done|..]; by apply Hend.
Qed.
End disk.

(** ** The local store meets the laws

    Every file of the directory is named by the hash of its contents, which
    [put] keeps; the hash has no collisions and is never the mark of a hole
    (it has 64 digits). Reads of the directory succeed. *)

Section local_laws.
Context (blake3_hex : bytes -> hash_string).

Definition store_named (s : LocalChunkStore) : Prop :=
  get_error s = None /\ forall h d, chunks s !! h = Some d -> blake3_hex d = h.

Definition NamedStore : Type := { s : LocalChunkStore | store_named s }.

Lemma put_named s d : store_named s -> store_named (snd (LocalChunkStore_put blake3_hex s d)).
Proof.
  intros [Hg Hn]. unfold LocalChunkStore_put.
  destruct (chunks s !! blake3_hex d); [done|]. destruct (put_error s); [done|]. simpl.
  split; [done|]. simpl. intros h d' [[<- <-]|[_ Hd]]%lookup_insert_Some; [done|]. by apply Hn.
Qed.

#[export] Instance named_store : ChunkStore NamedStore := {
  store_put s d := (fst (LocalChunkStore_put blake3_hex (proj1_sig s) d),
                    exist _ _ (put_named (proj1_sig s) d (proj2_sig s)));
  store_get s h := LocalChunkStore_get (proj1_sig s) h;
}.

Lemma local_store_laws :
  Inj (=) (=) blake3_hex -> (forall d, blake3_hex d <> ZERO_CHUNK_HASH) ->
  ChunkStoreLaws NamedStore.
Proof.
  intros Hinj Hzero. split.
  - intros [s [Hg Hn]] d h s' [= Hput <-]. unfold holds; simpl. unfold LocalChunkStore_get.
    unfold LocalChunkStore_put in *. destruct (chunks s !! blake3_hex d) as [d0|] eqn:E; simpl in *.
    + injection Hput as <-. rewrite Hg, E. split; [|apply Hzero]. do 2 f_equal.
      apply Hinj. by rewrite (Hn _ _ E).
    + destruct (put_error s); [done|]. injection Hput as <-. simpl.
      rewrite Hg, lookup_insert_eq. split; [done|apply Hzero].
  - intros [s [Hg Hn]] d r s' h d' [= _ <-]. unfold holds; simpl. unfold LocalChunkStore_get.
    rewrite Hg. intros [= Hd]. unfold LocalChunkStore_put.
    destruct (chunks s !! blake3_hex d) as [d0|] eqn:E; simpl; [by rewrite Hg, Hd|].
    destruct (put_error s); simpl; [by rewrite Hg, Hd|]. rewrite Hg.
    rewrite lookup_insert_ne; [by rewrite Hd|]. intros <-. congruence.
Qed.
End local_laws.

(** *** A store to evaluate on: the hash is the contents after a mark. *)

Definition demo_hash (d : bytes) : hash_string := x68 :: d.
Definition demo_store : NamedStore demo_hash :=
  exist _ (MkLocal ∅ None None)
    (conj eq_refl (fun h d (H : (∅ : gmap hash_string bytes) !! h = Some d) =>
       match eq_trans (eq_sym (lookup_empty h)) H in _ = o
         return match o with Some _ => demo_hash d = h | None => True end
       with eq_refl => I end)).

#[export] Instance demo_laws : ChunkStoreLaws (NamedStore demo_hash).
Proof.
  apply local_store_laws; [|done]. intros x y [= ->]. done.
Qed.

(** A disk of three bytes over a base image of two. *)
Definition demo_disk : CasBackend (NamedStore demo_hash) :=
  CasBackend_new demo_store (ChunkIndex_new 3) [] (Some (FlatFileBackend_open [x61; x62] None)).

Lemma demo_disk_wf : cas_wf demo_disk.
Proof.
  split; [repeat constructor|constructor|apply map_Forall_empty].
Qed.

Lemma cas_read_shows_disk_witness :
  fst (CasBackend_read demo_disk 1 2) = Ok [x62; x00] /\
  forall p, 0 <= p -> byte_at (snd (CasBackend_read demo_disk 1 2)) p = byte_at demo_disk p.
Proof.
  split; [vm_compute; reflexivity|].
  apply (cas_read_shows_disk demo_disk 1 2 (fst (CasBackend_read demo_disk 1 2)));
    [exact demo_disk_wf|lia..|]. destruct (CasBackend_read demo_disk 1 2). reflexivity.
Defined.

Lemma cas_write_changes_disk_witness :
  exists b', CasBackend_write demo_disk 0 [x7a] = (Ok 1, b') /\
    byte_at b' 0 = x7a /\ byte_at b' 1 = byte_at demo_disk 1.
Proof.
  destruct (CasBackend_write demo_disk 0 [x7a]) as [r b'] eqn:E.
  destruct (cas_write_changes_disk demo_disk 0 [x7a] r b' demo_disk_wf) as (_ & H & _);
    [lia|vm_compute; reflexivity|exact E|].
  assert (r = Ok 1) as -> by (change r with (fst (r, b')); rewrite <-E; vm_compute; reflexivity).
  destruct (H 1 eq_refl) as [_ Hb]. exists b'.
  split; [reflexivity|]. split; [rewrite Hb by lia; reflexivity|rewrite Hb by lia; reflexivity].
Defined.

Lemma flush_and_growth_keep_disk_witness :
  exists b', CasBackend_flush demo_disk [] = (Ok tt, b') /\
    byte_at b' 1 = byte_at demo_disk 1 /\ byte_at (set_disk_size demo_disk 9) 1 = x62.
Proof.
  destruct (CasBackend_flush demo_disk []) as [r b'] eqn:E.
  destruct (flush_and_growth_keep_disk demo_disk [] r b' 1 demo_disk_wf) as (_ & H1 & _ & _ & H2);
    [reflexivity|exact E|lia|].
  assert (r = Ok tt) as -> by (change r with (fst (r, b')); rewrite <-E; reflexivity).
  exists b'. split; [reflexivity|]. split; [apply H1; vm_compute; reflexivity|].
  rewrite H2. vm_compute. reflexivity.
Defined.

(** ** The index file *)

Lemma take_exact_app n a f : zlen a = n -> take_exact n (a ++ f) = Ok (a, f).
Proof.
  intros. unfold take_exact. rewrite (proj2 (Z.ltb_ge _ _)) by zlen_lia.
  by rewrite ztake_app_exact, zdrop_app_exact by lia.
Qed.

Lemma load_save_string s f :
  zlen s < 2 ^ 32 -> utf8_valid s = true -> load_string (save_string s ++ f) = Ok (s, f).
Proof.
  intros Hl Hu. unfold load_string, save_string. rewrite <-app_assoc.
  rewrite take_exact_app by (autorewrite with zlen; lia).
  rewrite le_val_small by (split; [apply zlen_nonneg|exact Hl]).
  rewrite take_exact_app by done. by rewrite Hu.
Qed.

(** A path that can be written and read back. *)
Definition path_ok (p : option bytes) : Prop :=
  match p with Some p => p <> [] /\ zlen p < 2 ^ 32 /\ utf8_valid p = true | None => True end.

Lemma load_save_path p f :
  path_ok p -> load_path (save_string (default [] p) ++ f) = Ok (p, f).
Proof.
  intros Hp. unfold load_path, save_string. rewrite <-app_assoc.
  rewrite take_exact_app by (autorewrite with zlen; lia).
  destruct p as [p|]; simpl default.
  - destruct Hp as (Hn & Hl & Hu). pose proof (zlen_nonneg p).
    rewrite le_val_small by (split; [done|exact Hl]).
    rewrite (proj2 (Z.ltb_lt _ _)).
    2: { destruct (decide (zlen p = 0)) as [?%zlen_zero|]; [done|lia]. }
    rewrite take_exact_app by done. by rewrite Hu.
  - done.
Qed.

Lemma load_save_hashes hs f :
  Forall (fun h => zlen h < 2 ^ 32 /\ utf8_valid h = true) hs ->
  load_hashes (length hs) (mjoin (map save_string hs) ++ f) = Ok hs.
Proof.
  induction hs as [|h hs IH]; intros HF; [done|].
  apply Forall_cons_1 in HF as [[Hl Hu] HF].
  change (mjoin (map save_string (h :: hs))) with (save_string h ++ mjoin (map save_string hs)).
  cbn [length load_hashes]. rewrite <-app_assoc, load_save_string by done. by rewrite IH.
Qed.

(** What [load] checks, and what fits the fields of the file. *)
Definition index_wf (x : ChunkIndex) : Prop :=
  0 <= disk_size x < 2 ^ 64 /\ num_chunks x = num_chunks_for (disk_size x) /\
  path_ok (parent_path x) /\ path_ok (fallback_path x) /\
  Forall (fun h => zlen h < 2 ^ 32 /\ utf8_valid h = true) (hashes x).

(** An index is read back from its file as it was saved; what follows in the
    file is ignored. The paths must not be empty: an empty path is saved like
    no path. *)
Lemma load_saved_index x rest :
  index_wf x -> ChunkIndex_load (ChunkIndex_save x ++ rest) = Ok x.
Proof.
  intros (Hsz & Hn & Hp & Hf & Hh). unfold ChunkIndex_load, ChunkIndex_save.
  rewrite <-!app_assoc.
  rewrite take_exact_app by (autorewrite with zlen; lia).
  rewrite (le_val_small 8 (disk_size x)) by done.
  rewrite take_exact_app by (autorewrite with zlen; lia).
  assert (Hlt : num_chunks x < 2 ^ 64).
  { rewrite Hn. unfold num_chunks_for, div_ceil, CHUNK_SIZE.
    apply Z.div_lt_upper_bound; lia. }
  rewrite (le_val_small 8 (zlen (hashes x))) by (split; [apply zlen_nonneg|exact Hlt]).
  unfold num_chunks in Hn. rewrite Hn, Z.eqb_refl. cbn [negb].
  rewrite load_save_path by done. rewrite load_save_path by done.
  rewrite <-Hn. unfold zlen. rewrite Nat2Z.id. rewrite load_save_hashes by done.
  by destruct x.
Qed.

(** A parent chain that leads downwards is loaded in whole: with a rank that
    falls from every index to its parent, as many steps as the rank and one
    more are enough. *)
Theorem parent_chain_ends files rank path :
  (forall p f x q, files p = Some f -> ChunkIndex_load f = Ok x -> parent_path x = Some q ->
     (rank q < rank p)%nat) ->
  exists chain, load_parent_chain (S (S (rank path))) files (Some path) = Some chain /\
    match files path with
    | Some f => match ChunkIndex_load f with
                | Ok x => exists rest, chain = x :: rest
                | Err _ => chain = []
                end
    | None => chain = []
    end.
Proof.
  intros Hrank.
  assert (Hall : forall n p, (rank p < n)%nat -> exists chain,
            load_parent_chain (S n) files (Some p) = Some chain).
  { induction n as [|n IH]; intros p Hp; [lia|].
    cbn [load_parent_chain]. destruct (files p) as [f|] eqn:Ef; [|by eexists].
    destruct (ChunkIndex_load f) as [x|] eqn:El; [|by eexists].
    destruct (parent_path x) as [q|] eqn:Eq; [|by eexists].
    destruct (IH q) as [chain Hc]; [specialize (Hrank p f x q Ef El Eq); lia|].
    cbn [load_parent_chain] in Hc. rewrite Hc. by eexists. }
  destruct (Hall (S (rank path)) path) as [chain Hc]; [lia|]. exists chain. split; [done|].
  cbn [load_parent_chain] in Hc. destruct (files path) as [f|]; [|by injection Hc as <-].
  destruct (ChunkIndex_load f) as [x|]; [|by injection Hc as <-].
  destruct (match parent_path x with Some _ => _ | None => _ end) as [rest|]; [|done].
  injection Hc as <-. by eexists.
Qed.

Lemma parent_chain_ends_witness :
  exists chain, load_parent_chain 2 (fun _ => Some (ChunkIndex_save (ChunkIndex_new 3)))
                  (Some [x70]) = Some chain /\ chain = [ChunkIndex_new 3].
Proof.
  destruct (parent_chain_ends (fun _ => Some (ChunkIndex_save (ChunkIndex_new 3)))
              (fun _ => 0%nat) [x70]) as (chain & H & _).
  - intros p f x q [= <-] Hl Hq. assert (ChunkIndex_new 3 = x) as <- by
      (vm_compute in Hl; injection Hl as <-; vm_compute; reflexivity). discriminate Hq.
  - exists chain. split; [exact H|]. vm_compute in H. injection H as <-. reflexivity.
Defined.

(** A write past the end of the disk is acknowledged and forgotten: it is
    read back until the next flush, which succeeds and drops it. *)
Theorem write_past_end_is_forgotten :
  let '(r1, b1) := CasBackend_write demo_disk CHUNK_SIZE [x7a] in
  let '(r2, b2) := CasBackend_flush b1 [(1, visible b1 1)] in
  r1 = Ok 1 /\ byte_at b1 CHUNK_SIZE = x7a /\ r2 = Ok tt /\ byte_at b2 CHUNK_SIZE = x00.
Proof. vm_compute. split_and!; reflexivity. Qed.
