(* ===== verification/Nbd.v ===== *)
(** * The NBD server

    [crates/shuru-store/src/nbd.rs]: the newstyle handshake and the
    transmission phase over one connected stream, against any block backend.
    A backend is the interface [NbdBackend]; [NbdDisk] states what a backend
    that behaves like a disk promises, the content-addressed backend meets
    it, and the theorems on the server are proved against it. *)

From Stdlib Require Import Strings.Byte.
From stdpp Require Import gmap.
From S2P Require Import Prelude Io Cas CasProofs.

(** ** Backends *)

(** [read] gives the bytes it put at the front of the buffer. *)
Class NbdBackend (K : Type) := {
  nbd_size : K -> Z;
  nbd_read : K -> Z -> Z -> result bytes ErrorKind * K;
  nbd_write : K -> Z -> bytes -> result Z ErrorKind * K;
  nbd_flush : K -> result unit ErrorKind * K;
}.

#[export] Instance flat_file_nbd : NbdBackend FlatFileBackend := {
  nbd_size := ff_size;
  nbd_read f off len := (FlatFileBackend_read f off len, f);
  nbd_write := FlatFileBackend_write;
  nbd_flush f := (FlatFileBackend_flush f, f);
}.

#[export] Instance cas_nbd `{ChunkStore S_} : NbdBackend (CasBackend S_) := {
  nbd_size := CasBackend_size;
  nbd_read := CasBackend_read;
  nbd_write := CasBackend_write;
  nbd_flush b := CasBackend_flush b (map_to_list (dirty b));
}.

(** ** The protocol *)

Definition NBDMAGIC : Z := 0x4e42444d41474943.
Definition IHAVEOPT : Z := 0x49484156454F5054.
Definition REPLY_MAGIC : Z := 0x3e889045565a9.
Definition NBD_FLAG_FIXED_NEWSTYLE : Z := Z.shiftl 1 0.
Definition NBD_FLAG_NO_ZEROES : Z := Z.shiftl 1 1.
Definition NBD_FLAG_C_NO_ZEROES : Z := Z.shiftl 1 1.
Definition NBD_FLAG_HAS_FLAGS : Z := Z.shiftl 1 0.
Definition NBD_FLAG_SEND_FLUSH : Z := Z.shiftl 1 2.
Definition NBD_OPT_EXPORT_NAME : Z := 1.
Definition NBD_OPT_ABORT : Z := 2.
Definition NBD_OPT_INFO : Z := 6.
Definition NBD_OPT_GO : Z := 7.
Definition NBD_REP_ACK : Z := 1.
Definition NBD_REP_INFO : Z := 3.
Definition NBD_REP_ERR_UNSUP : Z := Z.lor (Z.shiftl 1 31) 1.
Definition NBD_INFO_EXPORT : Z := 0.
Definition NBD_CMD_READ : Z := 0.
Definition NBD_CMD_WRITE : Z := 1.
Definition NBD_CMD_DISC : Z := 2.
Definition NBD_CMD_FLUSH : Z := 3.
Definition NBD_REQUEST_MAGIC : Z := 0x25609513.
Definition NBD_SIMPLE_REPLY_MAGIC : Z := 0x67446698.
Definition NBD_OK : Z := 0.
Definition NBD_EIO : Z := 5.
Definition NBD_EINVAL : Z := 22.

Definition send_option_reply (s : Duplex) (option_ reply_type : Z) (data : bytes)
    : result Duplex ErrorKind :=
  let? s := write_all s (be_bytes 8 REPLY_MAGIC) in
  let? s := write_all s (be_bytes 4 option_) in
  let? s := write_all s (be_bytes 4 reply_type) in
  let? s := write_all s (be_bytes 4 (wrap 32 (zlen data))) in
  if bool_decide (data = []) then Ok s else write_all s data.

Definition trans_flags : Z := Z.lor NBD_FLAG_HAS_FLAGS NBD_FLAG_SEND_FLUSH.

Definition export_info (size : Z) : bytes :=
  be_bytes 2 NBD_INFO_EXPORT ++ be_bytes 8 size ++ be_bytes 2 trans_flags.

Definition send_export_info (s : Duplex) (option_ size : Z) : result Duplex ErrorKind :=
  let? s := send_option_reply s option_ NBD_REP_INFO (export_info size) in
  let? s := send_option_reply s option_ NBD_REP_ACK [] in
  flush s.

(** The option loop. Every turn reads a header of 16 bytes, so the length of
    what the client sent is fuel. *)
Fixpoint option_loop (fuel : nat) (s : Duplex) (size : Z) (no_zeroes : bool)
    : option (result Duplex ErrorKind) :=
  match fuel with
  | O => None
  | S fuel =>
      match read_exact s 16 with
      | Err e => Some (Err e)
      | Ok (hd, s) =>
          if negb (be_val (zslice 0 8 hd) =? IHAVEOPT) then Some (Err InvalidData) else
          let opt := be_val (zslice 8 12 hd) in
          let data_len := be_val (zslice 12 16 hd) in
          match (if 0 <? data_len then read_exact s data_len else Ok ([], s)) with
          | Err e => Some (Err e)
          | Ok (_, s) =>
              if opt =? NBD_OPT_EXPORT_NAME then
                Some (let? s := write_all s (be_bytes 8 size) in
                      let? s := write_all s (be_bytes 2 trans_flags) in
                      let? s := if no_zeroes then Ok s else write_all s (replicate 124 x00) in
                      flush s)
              else if (opt =? NBD_OPT_INFO) || (opt =? NBD_OPT_GO) then
                match send_export_info s opt size with
                | Err e => Some (Err e)
                | Ok s => if opt =? NBD_OPT_GO then Some (Ok s)
                          else option_loop fuel s size no_zeroes
                end
              else if opt =? NBD_OPT_ABORT then
                match send_option_reply s opt NBD_REP_ACK [] with
                | Err e => Some (Err e)
                | Ok _ => Some (Err Other)
                end
              else
                match send_option_reply s opt NBD_REP_ERR_UNSUP [] with
                | Err e => Some (Err e)
                | Ok s => option_loop fuel s size no_zeroes
                end
          end
      end
  end.

Definition server_greeting : bytes :=
  be_bytes 8 NBDMAGIC ++ be_bytes 8 IHAVEOPT
  ++ be_bytes 2 (Z.lor NBD_FLAG_FIXED_NEWSTYLE NBD_FLAG_NO_ZEROES).

Definition handshake (s : Duplex) (size : Z) : option (result Duplex ErrorKind) :=
  let fuel := S (length (input s)) in
  match write_all s server_greeting with
  | Err e => Some (Err e)
  | Ok s =>
      match read_exact s 4 with
      | Err e => Some (Err e)
      | Ok (b, s) =>
          option_loop fuel s size (negb (Z.land (be_val b) NBD_FLAG_C_NO_ZEROES =? 0))
      end
  end.

Definition send_reply (s : Duplex) (error : Z) (handle : bytes) (data : option bytes)
    : result Duplex ErrorKind :=
  let? s := write_all s (be_bytes 4 NBD_SIMPLE_REPLY_MAGIC) in
  let? s := write_all s (be_bytes 4 error) in
  let? s := write_all s handle in
  let? s := match data with Some d => write_all s d | None => Ok s end in
  flush s.

Section transmission.
Context `{NbdBackend K}.

(** One request, already read: the reply, or nothing for a disconnect. *)
Definition serve_read (k : K) (offset length_ : Z) : Z * option bytes * K :=
  let '(r, k) := nbd_read k offset length_ in
  match r with
  | Ok bs => (NBD_OK, Some (bs ++ replicate (Z.to_nat (length_ - zlen bs)) x00), k)
  | Err _ => (NBD_EIO, None, k)
  end.

Definition serve_write (k : K) (offset : Z) (data : bytes) : Z * K :=
  let '(r, k) := nbd_write k offset data in
  (match r with Ok _ => NBD_OK | Err _ => NBD_EIO end, k).

Definition serve_flush (k : K) : Z * K :=
  let '(r, k) := nbd_flush k in
  (match r with Ok _ => NBD_OK | Err _ => NBD_EIO end, k).

(** The request loop. Every turn reads a header of 28 bytes. *)
Fixpoint transmission (fuel : nat) (s : Duplex) (k : K)
    : option (result Duplex ErrorKind * K) :=
  match fuel with
  | O => None
  | S fuel =>
      match read_exact s 28 with
      | Err _ => Some (Ok s, k)
      | Ok (hd, s) =>
          if negb (be_val (zslice 0 4 hd) =? NBD_REQUEST_MAGIC) then Some (Err InvalidData, k) else
          let cmd := be_val (zslice 6 8 hd) in
          let handle := zslice 8 16 hd in
          let offset := be_val (zslice 16 24 hd) in
          let length_ := be_val (zslice 24 28 hd) in
          let reply r k := match r with
                           | Err e => Some (Err e, k)
                           | Ok s => transmission fuel s k
                           end in
          if cmd =? NBD_CMD_READ then
            let '(error, data, k) := serve_read k offset length_ in
            reply (send_reply s error handle data) k
          else if cmd =? NBD_CMD_WRITE then
            match read_exact s length_ with
            | Err e => Some (Err e, k)
            | Ok (data, s) =>
                let '(error, k) := serve_write k offset data in
                reply (send_reply s error handle None) k
            end
          else if cmd =? NBD_CMD_FLUSH then
            let '(error, k) := serve_flush k in
            reply (send_reply s error handle None) k
          else if cmd =? NBD_CMD_DISC then Some (Ok s, k)
          else reply (send_reply s NBD_EINVAL handle None) k
      end
  end.

Definition handle_client (s : Duplex) (k : K) : option (result Duplex ErrorKind * K) :=
  match handshake s (nbd_size k) with
  | None => None
  | Some (Err e) => Some (Err e, k)
  | Some (Ok s) => transmission (S (length (input s))) s k
  end.
End transmission.

(** ** Every session ends *)

Lemma read_exact_shrinks (s s' : Duplex) n b :
  read_exact s n = Ok (b, s') -> 0 <= n ->
  (length (input s') = length (input s) - Z.to_nat n)%nat /\ n <= zlen (input s).
Proof.
  unfold read_exact, duplex_read, read_exact, slice_read. case_test; [|done]. bool_to_prop.
  intros [= <- <-] ?. simpl. unfold zdrop. rewrite length_drop. done.
Qed.

Lemma reply_input (s s' : Duplex) e h d : send_reply s e h d = Ok s' -> input s' = input s.
Proof. unfold send_reply. destruct d; intros [= <-]; done. Qed.

Lemma option_reply_input (s s' : Duplex) o t d : send_option_reply s o t d = Ok s' -> input s' = input s.
Proof. unfold send_option_reply. simpl. case_test; intros [= <-]; done. Qed.

Lemma export_input (s s' : Duplex) o n : send_export_info s o n = Ok s' -> input s' = input s.
Proof.
  unfold send_export_info.
  destruct (send_option_reply s o _ _) as [s1|] eqn:E1; [|done].
  destruct (send_option_reply s1 o _ _) as [s2|] eqn:E2; [|done]. intros [= <-].
  by rewrite (option_reply_input _ _ _ _ _ E2), (option_reply_input _ _ _ _ _ E1).
Qed.

Lemma option_loop_ends fuel : forall s size nz,
  (length (input s) < fuel)%nat -> exists r, option_loop fuel s size nz = Some r.
Proof.
  induction fuel as [|fuel IH]; intros s size nz Hf; [lia|]. cbn [option_loop].
  destruct (read_exact s 16) as [[hd s1]|e] eqn:E1; [|by eexists].
  apply read_exact_shrinks in E1 as [Hl1 Hn1]; [|lia]. unfold zlen in Hn1.
  case_test; [by eexists|].
  destruct (if 0 <? _ then _ else Ok ([], s1)) as [[d s2]|e] eqn:E2; [|by eexists].
  assert (Hl2 : (length (input s2) <= length (input s1))%nat).
  { case_test_in E2; [|by injection E2 as _ <-]. bool_to_prop.
    apply read_exact_shrinks in E2 as [? _]; [|lia]. lia. }
  case_test; [by eexists|]. case_test.
  { destruct (send_export_info s2 _ size) as [s3|] eqn:E3; [|by eexists].
    apply export_input in E3. case_test; [by eexists|]. apply IH. rewrite E3. lia. }
  case_test; [destruct (send_option_reply _ _ _ _); by eexists|].
  destruct (send_option_reply s2 _ _ _) as [s3|] eqn:E3; [|by eexists].
  apply option_reply_input in E3. apply IH. rewrite E3. lia.
Qed.

Section ends.
Context `{NK : NbdBackend K}.

Lemma transmission_ends fuel : forall s (k : K),
  (length (input s) < fuel)%nat -> exists r, transmission fuel s k = Some r.
Proof.
  induction fuel as [|fuel IH]; intros s k Hf; [lia|]. cbn [transmission].
  destruct (read_exact s 28) as [[hd s1]|e] eqn:E1; [|by eexists].
  apply read_exact_shrinks in E1 as [Hl1 Hn1]; [|lia]. unfold zlen in Hn1.
  case_test; [by eexists|]. cbv zeta.
  assert (Hreply : forall s0 e h d (k0 : K), (length (input s0) <= length (input s1))%nat ->
     exists r, match send_reply s0 e h d with
               | Err e => Some (Err e, k0)
               | Ok s => transmission fuel s k0
               end = Some r).
  { intros s0 e h d k0 Hle. destruct (send_reply s0 e h d) as [s2|] eqn:E; [|by eexists].
    apply reply_input in E. apply IH. rewrite E. lia. }
  case_test; [destruct (serve_read _ _ _) as [[? ?] ?]; by apply Hreply|].
  case_test.
  { destruct (read_exact s1 _) as [[d s2]|] eqn:E2; [|by eexists].
    destruct (serve_write _ _ _). apply Hreply.
    apply read_exact_shrinks in E2 as [? _]; [lia|]. apply be_val_range. }
  case_test; [destruct (serve_flush _); by apply Hreply|].
  case_test; [by eexists|]. by apply Hreply.
Qed.

(** Whatever a client sends, its session ends: the handshake and the request
    loop each come to a result, without running out of the fuel given by the
    number of bytes received. *)
Theorem nbd_session_ends s (k : K) : exists r, handle_client s k = Some r.
Proof.
  unfold handle_client, handshake. cbn [write_all duplex_write].
  destruct (read_exact _ 4) as [[b s1]|] eqn:E; [|by eexists].
  apply read_exact_shrinks in E as [Hl _]; [|lia]. cbn [input] in Hl.
  destruct (option_loop_ends (S (length (input s))) s1 (nbd_size k)
              (negb (Z.land (be_val b) NBD_FLAG_C_NO_ZEROES =? 0))) as [r ->]; [lia|].
  destruct r as [s2|]; [|by eexists]. apply transmission_ends. lia.
Qed.
End ends.

(** ** Requests and replies *)

Inductive Request :=
  | RqRead (handle : bytes) (offset length_ : Z)
  | RqWrite (handle : bytes) (offset : Z) (data : bytes)
  | RqFlush (handle : bytes) (offset length_ : Z)
  | RqOther (cmd : Z) (handle : bytes) (offset length_ : Z).

(** What a client sends. *)
Definition request_header (fl cmd : Z) (handle : bytes) (offset length_ : Z) : bytes :=
  be_bytes 4 NBD_REQUEST_MAGIC ++ be_bytes 2 fl ++ be_bytes 2 cmd ++ handle
  ++ be_bytes 8 offset ++ be_bytes 4 length_.

Definition encode_request (rq : Request) : bytes :=
  match rq with
  | RqRead h off len => request_header 0 NBD_CMD_READ h off len
  | RqWrite h off data => request_header 0 NBD_CMD_WRITE h off (zlen data) ++ data
  | RqFlush h off len => request_header 0 NBD_CMD_FLUSH h off len
  | RqOther cmd h off len => request_header 0 cmd h off len
  end.

Definition disconnect (h : bytes) : bytes := request_header 0 NBD_CMD_DISC h 0 0.

Definition header_wf (h : bytes) (off len : Z) : Prop :=
  zlen h = 8 /\ in_width 64 off /\ in_width 32 len.

Definition request_wf (rq : Request) : Prop :=
  match rq with
  | RqRead h off len | RqFlush h off len => header_wf h off len
  | RqWrite h off data => header_wf h off (zlen data)
  | RqOther cmd h off len =>
      header_wf h off len /\ in_width 16 cmd /\ ~ (0 <= cmd <= 3)
  end.

Definition reply_bytes (error : Z) (h : bytes) (data : option bytes) : bytes :=
  be_bytes 4 NBD_SIMPLE_REPLY_MAGIC ++ be_bytes 4 error ++ h ++ default [] data.

Section serve.
Context `{NK : NbdBackend K}.

(** The reply a request is due, and the backend after it. *)
Definition serve (k : K) (rq : Request) : bytes * K :=
  match rq with
  | RqRead h off len => let '(e, d, k) := serve_read k off len in (reply_bytes e h d, k)
  | RqWrite h off data => let '(e, k) := serve_write k off data in (reply_bytes e h None, k)
  | RqFlush h _ _ => let '(e, k) := serve_flush k in (reply_bytes e h None, k)
  | RqOther _ h _ _ => (reply_bytes NBD_EINVAL h None, k)
  end.

Fixpoint serve_all (k : K) (rqs : list Request) : bytes * K :=
  match rqs with
  | [] => ([], k)
  | rq :: rqs =>
      let '(r, k) := serve k rq in
      let '(rs, k) := serve_all k rqs in
      (r ++ rs, k)
  end.

Lemma send_reply_spec i o e h d :
  send_reply (MkDuplex i o) e h d = Ok (MkDuplex i (o ++ reply_bytes e h d)).
Proof.
  unfold send_reply, reply_bytes. cbn [write_all duplex_write flush input output].
  destruct d; cbn [default from_option]; by rewrite <-?app_assoc, ?app_nil_r.
Qed.

(** The fields the server reads from a header. *)
Lemma request_header_fields fl cmd h off len :
  header_wf h off len -> in_width 16 cmd ->
  let hd := request_header fl cmd h off len in
  zlen hd = 28 /\ be_val (zslice 0 4 hd) = NBD_REQUEST_MAGIC /\ be_val (zslice 6 8 hd) = cmd /\
  zslice 8 16 hd = h /\ be_val (zslice 16 24 hd) = off /\ be_val (zslice 24 28 hd) = len.
Proof.
  intros (Hh & Hoff & Hlen) Hcmd hd. unfold hd, request_header.
  set (m := be_bytes 4 NBD_REQUEST_MAGIC). set (f := be_bytes 2 fl).
  set (c := be_bytes 2 cmd). set (o := be_bytes 8 off). set (l := be_bytes 4 len).
  assert (Hm : zlen m = 4 /\ zlen f = 2 /\ zlen c = 2 /\ zlen o = 8 /\ zlen l = 4)
    by (unfold m, f, c, o, l; rewrite !zlen_be_bytes; lia).
  destruct Hm as (Hm & Hf & Hc & Ho & Hl). split_and!.
  - rewrite !zlen_app. lia.
  - rewrite (zslice_app_exact 4 m) by lia. by apply be_val_small.
  - rewrite (app_assoc m), (zslice_middle 6 8) by (rewrite ?zlen_app; lia). by apply be_val_small.
  - rewrite (app_assoc f), (app_assoc m), (zslice_middle 8 16) by (rewrite ?zlen_app; lia). done.
  - rewrite (app_assoc c), (app_assoc f), (app_assoc m), (zslice_middle 16 24)
      by (rewrite ?zlen_app; lia). by apply be_val_small.
  - rewrite <-(app_nil_r l), (app_assoc h), (app_assoc c), (app_assoc f), (app_assoc m).
    rewrite (zslice_middle 24 28) by (rewrite ?zlen_app; lia). by apply be_val_small.
Qed.

Lemma read_exact_app n a i o :
  zlen a = n -> read_exact (MkDuplex (a ++ i) o) n = Ok (a, MkDuplex i o).
Proof.
  intros Ha. unfold read_exact, duplex_read, read_exact, slice_read. cbn [input output].
  rewrite (proj2 (Z.leb_le _ _)) by zlen_lia. by rewrite ztake_app_exact, zdrop_app_exact by lia.
Qed.

(** Decides the comparisons of constants. *)
Ltac closed_tests :=
  repeat match goal with
         | |- context [?a =? ?b] =>
             let v := eval vm_compute in (a =? b) in
             match v with true => idtac | false => idtac end;
             change (a =? b) with v
         end; cbn [negb].

(** One turn of the request loop. *)
Lemma transmission_step fuel rq i o (k : K) :
  request_wf rq ->
  transmission (S fuel) (MkDuplex (encode_request rq ++ i) o) k
  = let '(r, k) := serve k rq in transmission fuel (MkDuplex i (o ++ r)) k.
Proof.
  intros Hwf. cbn [transmission].
  destruct rq as [h off len|h off data|h off len|cmd h off len]; cbn [request_wf] in Hwf;
    cbn [encode_request serve]; rewrite <-?app_assoc.
  - destruct (request_header_fields 0 NBD_CMD_READ h off len Hwf) as (H1&H2&H3&H4&H5&H6); [done|].
    rewrite read_exact_app by done. rewrite H2, H3, H4, H5, H6. closed_tests.
    destruct (serve_read k off len) as [[e d] k']. by rewrite send_reply_spec.
  - destruct (request_header_fields 0 NBD_CMD_WRITE h off (zlen data) Hwf) as (H1&H2&H3&H4&H5&H6); [done|].
    rewrite read_exact_app by done. rewrite H2, H3, H4, H5, H6. closed_tests.
    rewrite read_exact_app by done. destruct (serve_write k off data) as [e k'].
    by rewrite send_reply_spec.
  - destruct (request_header_fields 0 NBD_CMD_FLUSH h off len Hwf) as (H1&H2&H3&H4&H5&H6); [done|].
    rewrite read_exact_app by done. rewrite H2, H3, H4, H5, H6. closed_tests.
    destruct (serve_flush k) as [e k']. by rewrite send_reply_spec.
  - destruct Hwf as (Hwf & Hw & Hcmd).
    destruct (request_header_fields 0 cmd h off len Hwf Hw) as (H1&H2&H3&H4&H5&H6).
    rewrite read_exact_app by done. rewrite H2, H3, H4, H5, H6.
    rewrite Z.eqb_refl. cbn [negb].
    unfold NBD_CMD_READ, NBD_CMD_WRITE, NBD_CMD_FLUSH, NBD_CMD_DISC.
    rewrite !(proj2 (Z.eqb_neq cmd _)) by lia.
    by rewrite send_reply_spec.
Qed.

Lemma transmission_all rqs : forall fuel i o (k : K),
  Forall request_wf rqs -> (length rqs <= fuel)%nat ->
  transmission fuel (MkDuplex (mjoin (map encode_request rqs) ++ i) o) k
  = let '(r, k) := serve_all k rqs in
    transmission (fuel - length rqs) (MkDuplex i (o ++ r)) k.
Proof.
  induction rqs as [|rq rqs IH]; intros fuel i o k HF Hf; cbn [serve_all length].
  { cbn [mjoin map list_join app]. by rewrite app_nil_r, Nat.sub_0_r. }
  apply Forall_cons_1 in HF as [Hwf HF]. cbn [length] in Hf.
  destruct fuel as [|fuel]; [lia|].
  change (mjoin (map encode_request (rq :: rqs)))
    with (encode_request rq ++ mjoin (map encode_request rqs)).
  rewrite <-app_assoc, transmission_step by done.
  destruct (serve k rq) as [r k1]. rewrite IH by (done || lia).
  destruct (serve_all k1 rqs) as [rs k2]. by rewrite app_assoc.
Qed.

(** A client is served in order. For every sequence of well-formed requests
    and a disconnect, the server applies them to the backend one after the
    other, answers each under its own handle before it looks at the next,
    and takes nothing from the stream after the disconnect. *)
Theorem nbd_requests_served rqs h rest out fuel (k : K) :
  Forall request_wf rqs -> zlen h = 8 -> (length rqs < fuel)%nat ->
  transmission fuel (MkDuplex (mjoin (map encode_request rqs) ++ disconnect h ++ rest) out) k
  = let '(replies, k') := serve_all k rqs in
    Some (Ok (MkDuplex rest (out ++ replies)), k').
Proof.
  intros HF Hh Hf. rewrite transmission_all by (done || lia).
  destruct (serve_all k rqs) as [replies k']. destruct (fuel - length rqs)%nat as [|n] eqn:E; [lia|].
  cbn [transmission]. unfold disconnect.
  destruct (request_header_fields 0 NBD_CMD_DISC h 0 0) as (H1&H2&H3&H4&H5&H6);
    [split_and!; done|done|].
  rewrite read_exact_app by done. by rewrite H2, H3.
Qed.
End serve.

(** ** Backends that are disks *)

(** What the server relies on: calls within 64 bits succeed, reads show the
    bytes of the disk, writes change exactly theirs, and a flush keeps what
    lies within the size. *)
Class NbdDisk (K : Type) `{NbdBackend K} := {
  disk_ok : K -> Prop;
  disk_byte : K -> Z -> byte;
  disk_read k off len : disk_ok k -> 0 <= off -> 0 <= len -> off + len < 2 ^ 64 ->
    exists bs k', nbd_read k off len = (Ok bs, k') /\ disk_ok k' /\ zlen bs = len /\
      (forall i, 0 <= i < len -> nth0 bs i = disk_byte k (off + i)) /\
      (forall p, 0 <= p -> disk_byte k' p = disk_byte k p);
  disk_write k off data : disk_ok k -> 0 <= off -> off + zlen data < 2 ^ 64 ->
    exists n k', nbd_write k off data = (Ok n, k') /\ disk_ok k' /\ nbd_size k' = nbd_size k /\
      (forall p, 0 <= p -> disk_byte k' p =
         if (off <=? p) && (p <? off + zlen data) then nth0 data (p - off) else disk_byte k p);
  disk_flush k : disk_ok k ->
    exists k', nbd_flush k = (Ok tt, k') /\ disk_ok k' /\
      (forall p, 0 <= p < nbd_size k -> disk_byte k' p = disk_byte k p);
}.

(** The content-addressed backend is a disk when its store takes chunks and
    its index covers its size. *)
Definition cas_ok `{ChunkStore S_} (b : CasBackend S_) : Prop :=
  cas_wf b /\ base_ok (fallback b) /\ puts_ok (S_ := S_) /\
  disk_size (index b) <= num_chunks (index b) * CHUNK_SIZE.

#[export] Program Instance cas_disk `{CS : ChunkStore S_, CL : !ChunkStoreLaws S_}
    : NbdDisk (CasBackend S_) := { disk_ok := cas_ok; disk_byte := byte_at }.
Next Obligation.
  intros S_ CS CL b off len (Hwf & Hb & Hp & Hsz) ? ? ?. cbn [nbd_read cas_nbd].
  unfold CasBackend_read. destruct (read_loop (Z.to_nat len) b off len []) as [r b'] eqn:E.
  destruct (read_loop_keeps (Z.to_nat len) b off len [] r b') as (Hf & Hn & Hd); [done..|].
  apply read_loop_spec in E as (Hwf' & Hsame & Hbs & Htot); [|done|lia..].
  destruct (Htot Hb Hp) as [bs ->]. destruct (Hbs bs eq_refl) as (part & -> & Hl & Hk).
  eexists _, _. split; [done|]. split_and!; [|done|done|].
  - unfold cas_ok. rewrite Hf, Hn, Hd. done.
  - intros p ?. by apply same_disk_byte.
Qed.
Next Obligation.
  intros S_ CS CL b off data (Hwf & Hb & Hp & Hsz) ? ?. cbn [nbd_write cas_nbd].
  unfold CasBackend_write. destruct (write_loop (length data) b off data) as [r b'] eqn:E.
  apply write_loop_spec in E as (Hwf' & Hf & Hn & Hd & Hbytes & Htot); [|done..|unfold zlen; lia].
  rewrite (Htot Hb Hp) in *. eexists _, _. split; [done|]. split_and!; [|done|].
  - unfold cas_ok. rewrite Hf, Hn, Hd. done.
  - by apply Hbytes.
Qed.
Next Obligation.
  intros S_ CS CL b (Hwf & Hb & Hp & Hsz). cbn [nbd_flush nbd_size cas_nbd].
  destruct (CasBackend_flush b (map_to_list (dirty b))) as [r b'] eqn:E.
  apply flush_spec in E as (Hwf' & Hn & Hd & _ & Hf & Hvis & Htot & _); [|done|done].
  rewrite (Htot Hp). eexists. split; [done|]. split.
  - unfold cas_ok. rewrite Hf, Hn, Hd. done.
  - intros p Hp'. unfold CasBackend_size in Hp'. unfold byte_at. rewrite Hvis; [done|].
    destruct (chunk_bounds p) as [? _]; [lia|]. split; [done|].
    apply Z.div_lt_upper_bound; [done|lia].
Qed.

Section served_disk.
Context `{NB : NbdBackend K, ND : !NbdDisk K}.

Lemma nth0_ext (a b : bytes) : zlen a = zlen b ->
  (forall i, 0 <= i < zlen a -> nth0 a i = nth0 b i) -> a = b.
Proof.
  intros Hl Hn. apply list_eq_same_length with (n := length a); [unfold zlen in Hl; lia|done|].
  intros i x y Hi Hx Hy. specialize (Hn (Z.of_nat i)). unfold nth0, znth in Hn.
  rewrite (proj2 (Z.ltb_ge _ _)) in Hn by lia. rewrite Nat2Z.id, Hx, Hy in Hn.
  apply Hn. unfold zlen. lia.
Qed.

(** What is written over the wire is read back over the wire. On a backend
    that is a disk, a client that writes [data], flushes and reads the range
    again gets three successful replies, the last with [data], and the rest
    of the disk is as it was. *)
Theorem nbd_write_read_back (k : K) off data h1 h2 h3 h4 rest out :
  disk_ok k -> in_width 64 off -> off + zlen data < nbd_size k -> zlen data < 2 ^ 32 ->
  nbd_size k < 2 ^ 64 ->
  zlen h1 = 8 -> zlen h2 = 8 -> zlen h3 = 8 -> zlen h4 = 8 ->
  exists k', transmission 4
    (MkDuplex (mjoin (map encode_request
       [RqWrite h1 off data; RqFlush h2 0 0; RqRead h3 off (zlen data)]) ++ disconnect h4 ++ rest) out) k
  = Some (Ok (MkDuplex rest (out ++ reply_bytes NBD_OK h1 None ++ reply_bytes NBD_OK h2 None
                                 ++ reply_bytes NBD_OK h3 (Some data))), k') /\
  disk_ok k' /\
  forall p, 0 <= p < nbd_size k -> ~ (off <= p < off + zlen data) -> disk_byte k' p = disk_byte k p.
Proof.
  intros Hok Hoff Hin Hlen Hsz E1 E2 E3 E4. pose proof (zlen_nonneg data).
  destruct Hoff as [Hoff0 Hoff1].
  destruct (disk_write k off data Hok) as (n & k1 & Hw & Hok1 & Hsize & Hb1); [lia..|].
  destruct (disk_flush k1 Hok1) as (k2 & Hf & Hok2 & Hb2).
  rewrite Hsize in Hb2.
  destruct (disk_read k2 off (zlen data) Hok2) as (bs & k3 & Hr & Hok3 & Hl & Hb3 & Hb4); [lia..|].
  assert (bs = data) as ->.
  { apply nth0_ext; [done|]. intros i Hi. rewrite Hl in Hi. rewrite Hb3 by lia.
    rewrite Hb2 by lia. rewrite Hb1 by lia.
    rewrite (proj2 (Z.leb_le _ _)), (proj2 (Z.ltb_lt _ _)) by lia. simpl. f_equal. lia. }
  exists k3. split_and!; [|done|].
  - pose proof (fun F => transmission_all
      [RqWrite h1 off data; RqFlush h2 0 0; RqRead h3 off (zlen data)] 4 (disconnect h4 ++ rest) out k F) as Ht.
    rewrite Ht; [|repeat (constructor; [by split_and!|]); constructor|simpl; lia]. clear Ht.
    cbn [serve_all serve]. unfold serve_write, serve_flush, serve_read. rewrite Hw, Hf, Hr.
    replace (Z.to_nat (zlen data - zlen data)) with 0%nat by lia.
    cbn [replicate length Nat.sub]. rewrite !app_nil_r.
    unfold disconnect. cbn [transmission].
    destruct (request_header_fields 0 NBD_CMD_DISC h4 0 0) as (H1&H2&H3&_);
      [split_and!; done|done|].
    rewrite read_exact_app by done. by rewrite H2, H3.
  - intros p Hp Hout. rewrite Hb4, Hb2, Hb1 by lia.
    by replace ((off <=? p) && (p <? off + zlen data)) with false
      by (symmetry; apply andb_false_iff; rewrite Z.leb_gt, Z.ltb_ge; lia).
Qed.
End served_disk.

(** ** Concrete sessions *)

Definition demo_handle (b : byte) : bytes := replicate 8 b.

(** A flat file of four bytes: a write within it, a read across its end, an
    unknown command and the disconnect. *)
Lemma nbd_requests_served_witness :
  transmission 4
    (MkDuplex (mjoin (map encode_request
       [RqWrite (demo_handle x01) 1 [x7a]; RqRead (demo_handle x02) 0 3;
        RqOther 9 (demo_handle x03) 0 0]) ++ disconnect (demo_handle x04) ++ [x55]) [])
    (FlatFileBackend_open [x61; x62; x63; x64] None)
  = Some (Ok (MkDuplex [x55]
       (reply_bytes NBD_OK (demo_handle x01) None
        ++ reply_bytes NBD_OK (demo_handle x02) (Some [x61; x7a; x63])
        ++ reply_bytes NBD_EINVAL (demo_handle x03) None)),
     FlatFileBackend_open [x61; x7a; x63; x64] None).
Proof.
  rewrite (nbd_requests_served
    [RqWrite (demo_handle x01) 1 [x7a]; RqRead (demo_handle x02) 0 3;
     RqOther 9 (demo_handle x03) 0 0] (demo_handle x04) [x55] [] 4
    (FlatFileBackend_open [x61; x62; x63; x64] None)).
  - vm_compute. reflexivity.
  - repeat constructor; try (vm_compute; congruence). vm_compute. intros [_ H]. by apply H.
  - reflexivity.
  - simpl. lia.
Defined.

(** A store whose hashes name their chunk: it keeps every chunk put. *)
Definition NameStore : Type := unit.

#[export] Instance name_store : ChunkStore NameStore := {
  store_put s d := (Ok (x68 :: d), s);
  store_get _ h := Ok (match h with x68 :: d => Some d | _ => None end);
}.

#[export] Instance name_store_laws : ChunkStoreLaws NameStore.
Proof. split; intros *; cbn; [by intros [= <- <-]|by intros [= <- <-]]. Qed.

Definition named_disk : CasBackend NameStore :=
  CasBackend_new tt (ChunkIndex_new 3) [] (Some (FlatFileBackend_open [x61; x62] None)).

Lemma nbd_write_read_back_witness : exists b,
  transmission 4
    (MkDuplex (mjoin (map encode_request
       [RqWrite (demo_handle x01) 1 [x7a]; RqFlush (demo_handle x02) 0 0;
        RqRead (demo_handle x03) 1 1]) ++ disconnect (demo_handle x04) ++ []) []) named_disk
  = Some (Ok (MkDuplex []
       (reply_bytes NBD_OK (demo_handle x01) None ++ reply_bytes NBD_OK (demo_handle x02) None
        ++ reply_bytes NBD_OK (demo_handle x03) (Some [x7a]))), b) /\
  byte_at b 0 = x61.
Proof.
  destruct (nbd_write_read_back named_disk 1 [x7a] (demo_handle x01) (demo_handle x02)
    (demo_handle x03) (demo_handle x04) [] []) as (b & H1 & H2 & H3); [|by vm_compute..|].
  - split_and!; [|done|intros s d; by eexists _, _|by vm_compute].
    split; [repeat constructor|constructor|apply map_Forall_empty].
  - exists b. split; [exact H1|]. change (disk_byte b 0 = x61).
    rewrite H3 by (cbn; lia). vm_compute. reflexivity.
Defined.
