(* ===== verification/StoreServer.v ===== *)
(** * Opening the disk of the NBD server

    [crates/shuru-store/src/lib.rs]: what [start_cas_nbd_server] decides before
    it listens (index or base image, the size checks, the growth), and
    [save_checkpoint]. The theorems are about whole runs: a fresh disk shows
    the root file system it was started from, and a checkpoint that was saved
    and opened again shows the disk it was saved from. *)

From Stdlib Require Import Strings.Byte.
From stdpp Require Import gmap.
From S2P Require Import Prelude Io Text Cas CasProofs.

Section server.
Context `{CS : ChunkStore S_}.

(** The file system: the contents of the files that exist. *)
Definition Files : Type := bytes -> option bytes.

(** [FlatFileBackend::open] of a path. *)
Definition open_file (files : Files) (path : bytes) : result FlatFileBackend ErrorKind :=
  match files path with
  | Some content => Ok (FlatFileBackend_open content None)
  | None => Err Other
  end.

(** The index and the base image: from the index file when there is one,
    else an empty index over the root file system. *)
Definition open_index (files : Files) (rootfs_path index_path : bytes)
    : result (ChunkIndex * option FlatFileBackend) ErrorKind :=
  match files index_path with
  | Some f =>
      let? idx := ChunkIndex_load f in
      match fallback_path idx with
      | None => Ok (idx, None)
      | Some p =>
          let? fb := open_file files p in
          if ff_size fb <=? disk_size idx then Ok (idx, Some fb) else Err Other
      end
  | None =>
      let? fb := open_file files rootfs_path in
      Ok (ChunkIndex_new (ff_size fb), Some fb)
  end.

(** [start_cas_nbd_server] up to the listener. [fuel] bounds the parent
    chain, [None] is running out of it. *)
Definition start_cas_nbd_server (fuel : nat) (files : Files) (store : result S_ ErrorKind)
    (rootfs_path index_path : bytes) (disk_size_ : Z)
    : option (result (CasBackend S_) ErrorKind) :=
  match store with
  | Err e => Some (Err e)
  | Ok s =>
      match open_index files rootfs_path index_path with
      | Err e => Some (Err e)
      | Ok (idx, fb) =>
          let! ps := load_parent_chain fuel files (parent_path idx) in
          let backend := CasBackend_new s idx ps fb in
          Some (if negb (CasBackend_size backend <=? disk_size_) then Err Other
                else Ok (if 0 <? disk_size_ then set_disk_size backend disk_size_ else backend))
      end
  end.

(** [NbdHandle::save_checkpoint]: only a content-addressed disk can be saved;
    the bytes of the index file. *)
Definition save_checkpoint (cas_backend : option (CasBackend S_)) (order : list (Z * bytes))
    : result bytes ErrorKind * option (CasBackend S_) :=
  match cas_backend with
  | None => (Err Other, None)
  | Some b =>
      let '(r, b) := save_index b order in
      (match r with Ok x => Ok (ChunkIndex_save x) | Err e => Err e end, Some b)
  end.
End server.

(** ** Theorems *)

Section opened.
Context `{CS : ChunkStore S_, CL : !ChunkStoreLaws S_}.

Lemma opened_size (b : CasBackend S_) size :
  CasBackend_size b <= size -> 0 <= CasBackend_size b ->
  CasBackend_size (if 0 <? size then set_disk_size b size else b) = size.
Proof.
  intros H1 H2. case_test; bool_to_prop; [|lia].
  unfold CasBackend_size, set_disk_size in *. case_test; bool_to_prop; simpl; lia.
Qed.

Lemma opened_byte (b : CasBackend S_) size p :
  byte_at (if 0 <? size then set_disk_size b size else b) p = byte_at b p.
Proof. case_test; [|done]. unfold byte_at. by rewrite grow_visible. Qed.

(** A chunk the index has no hash for comes from the base, without parents. *)
Lemma hole_byte (s : S_) x fb p :
  default ZERO_CHUNK_HASH (get_hash x (p / CHUNK_SIZE)) = ZERO_CHUNK_HASH ->
  byte_at (CasBackend_new s x [] fb) p = nth0 (base_chunk fb (p / CHUNK_SIZE)) (p mod CHUNK_SIZE).
Proof.
  intros Hh. unfold byte_at, visible, CasBackend_new; cbn [dirty index parents fallback store].
  rewrite lookup_empty, Hh. rewrite bool_decide_true by done. cbn [negb].
  by rewrite (bool_decide_true (parent_hash [] _ = ZERO_CHUNK_HASH)).
Qed.

(** The disk of an empty index over an image. *)
Lemma fresh_byte (s : S_) size image p :
  0 <= p ->
  byte_at (CasBackend_new s (ChunkIndex_new size) [] (Some (FlatFileBackend_open image None))) p
  = nth0 image p.
Proof.
  intros Hp. rewrite hole_byte.
  2: { destruct (chunk_bounds p Hp) as [? _]. unfold get_hash, ChunkIndex_new; cbn [hashes].
       rewrite znth_replicate. by case_test. }
  cbn [base_chunk ff_size ff_content FlatFileBackend_open].
  destruct (chunk_bounds p Hp) as [Hq Hm]. pose proof (Z.div_mod p CHUNK_SIZE ltac:(done)).
  pose proof (zlen_nonneg image).
  destruct (decide (p < zlen image)); unfold CHUNK_SIZE in *.
  - rewrite nth0_take by (split; [lia|apply Z.min_glb_lt; lia]). rewrite nth0_drop by lia.
    f_equal. lia.
  - rewrite !nth0_ge; [done|lia|]. rewrite zlen_take, zlen_drop. lia.
Qed.

(** A fresh server refuses to shrink and shows the base image: without an
    index file the disk is the root file system followed by zeros, it has the
    size asked for, and a size below the image's is refused. *)
Theorem fresh_disk_shows_rootfs fuel files (s : S_) rootfs_path index_path size image :
  files index_path = None -> files rootfs_path = Some image ->
  (zlen image <= size -> exists b,
     start_cas_nbd_server (S fuel) files (Ok s) rootfs_path index_path size = Some (Ok b) /\
     CasBackend_size b = size /\ forall p, 0 <= p -> byte_at b p = nth0 image p) /\
  (size < zlen image ->
     start_cas_nbd_server (S fuel) files (Ok s) rootfs_path index_path size = Some (Err Other)).
Proof.
  intros Hi Hr. unfold start_cas_nbd_server, open_index, open_file. rewrite Hi, Hr.
  cbn [load_parent_chain parent_path ChunkIndex_new].
  unfold CasBackend_size at 1 3, CasBackend_new; cbn [index disk_size ChunkIndex_new ff_size FlatFileBackend_open].
  pose proof (zlen_nonneg image). split.
  - intros Hsz. rewrite (proj2 (Z.leb_le _ _)) by done. cbn [negb]. eexists. split; [done|].
    split; [by apply opened_size|]. intros p Hp. rewrite opened_byte.
    by apply fresh_byte.
  - intros Hsz. by rewrite (proj2 (Z.leb_gt _ _)) by done.
Qed.

Lemma grow_wf (b : CasBackend S_) size : cas_wf b -> cas_wf (set_disk_size b size).
Proof.
  intros [Hi Hp Hd]. unfold set_disk_size. case_test; [|done]. split; [|done..].
  apply Forall_app. split; [done|]. apply Forall_replicate. by left.
Qed.

(** Past the index of a backend without parents and base there are zeros. *)
Lemma beyond_index (s : S_) x p :
  num_chunks x * CHUNK_SIZE <= p -> byte_at (CasBackend_new s x [] None) p = x00.
Proof.
  intros Hp. rewrite hole_byte.
  - cbn [base_chunk]. rewrite nth0_ge; [done|]. by apply Z.mod_pos_bound.
  - unfold get_hash.
    by rewrite znth_ge by (apply Z.div_le_lower_bound; [done|unfold num_chunks in Hp; lia]).
Qed.

(** C7: A checkpoint is the disk. The index file [save_checkpoint] writes for a
    disk, put in the place of the index of a later server over the same
    store, opens without the base image and without parents, and the server
    shows every byte of the disk that was saved, and zeros where the new disk
    is larger. The names of chunks must be text of less than 4 GiB. *)
Theorem checkpoint_reopens (b : CasBackend S_) order file b' files fuel rootfs_path index_path size :
  cas_wf b -> order ≡ₚ map_to_list (dirty b) ->
  0 <= disk_size (index b) < 2 ^ 64 -> num_chunks (index b) = num_chunks_for (disk_size (index b)) ->
  save_checkpoint (Some b) order = (Ok file, Some b') ->
  (forall h d, holds (store b') h d -> zlen h < 2 ^ 32 /\ utf8_valid h = true) ->
  files index_path = Some file -> disk_size (index b) <= size ->
  exists b2,
    start_cas_nbd_server (S fuel) files (Ok (store b')) rootfs_path index_path size = Some (Ok b2) /\
    cas_wf b2 /\ CasBackend_size b2 = size /\ fallback b2 = None /\ parents b2 = [] /\
    (forall p, 0 <= p < num_chunks (index b) * CHUNK_SIZE -> byte_at b2 p = byte_at b p) /\
    (forall p, num_chunks (index b) * CHUNK_SIZE <= p -> byte_at b2 p = x00).
Proof.
  intros Hwf Hord Hsz Hn Hsave Htext Hfile Hsize. unfold save_checkpoint in Hsave.
  destruct (save_index b order) as [r b1] eqn:E. destruct r as [x|]; [|done].
  injection Hsave as <- <-. apply save_index_spec in E as [_ Hs]; [|done..].
  destruct (Hs x eq_refl) as (Hpp & Hfp & Hds & Hnc & Hwfa & Hbytes).
  assert (Hload : ChunkIndex_load (ChunkIndex_save x ++ []) = Ok x).
  { apply load_saved_index. unfold index_wf. rewrite Hpp, Hfp, Hds, Hnc.
    split_and!; try done; try lia. destruct Hwfa as [Hidx _ _].
    eapply Forall_impl; [exact Hidx|]. intros h [->|(d & Hd & _)]; [by split|by eapply Htext]. }
  rewrite app_nil_r in Hload. unfold start_cas_nbd_server, open_index.
  rewrite Hfile, Hload, Hfp, Hpp. cbn [load_parent_chain].
  set (alone := CasBackend_new (store b1) x [] None) in *.
  assert (Hcs : CasBackend_size alone = disk_size (index b)) by done.
  rewrite Hcs, (proj2 (Z.leb_le _ _)) by done. cbn [negb].
  eexists. split; [done|]. split_and!.
  - case_test; [|done]. by apply grow_wf.
  - apply opened_size; lia.
  - unfold set_disk_size. by repeat case_test.
  - unfold set_disk_size. by repeat case_test.
  - intros p Hp. rewrite opened_byte. by apply Hbytes.
  - intros p Hp. rewrite opened_byte. apply beyond_index. by rewrite Hnc.
Qed.
End opened.

(** ** Concrete servers *)

Lemma fresh_disk_shows_rootfs_witness : exists b,
  start_cas_nbd_server (S_ := NamedStore demo_hash) 1
    (fun p => if bool_decide (p = [x72]) then Some [x61; x62] else None) (Ok demo_store) [x72] [x69] 3
  = Some (Ok b) /\ byte_at b 1 = x62 /\ byte_at b 2 = x00.
Proof.
  destruct (fresh_disk_shows_rootfs 0
    (fun p => if bool_decide (p = [x72]) then Some [x61; x62] else None) demo_store [x72] [x69] 3
    [x61; x62]) as [H _]; [reflexivity..|].
  destruct H as (b & Hb & _ & Hp); [by vm_compute|].
  exists b. split; [exact Hb|]. by rewrite !Hp by lia.
Defined.

Lemma checkpoint_reopens_witness : exists file b' b2,
  save_checkpoint (Some demo_disk) [] = (Ok file, Some b') /\
  start_cas_nbd_server 1 (fun _ => Some file) (Ok (store b')) [] [] 70000 = Some (Ok b2) /\
  byte_at b2 1 = byte_at demo_disk 1 /\ byte_at b2 69999 = x00.
Proof.
  assert (Hc : match save_checkpoint (Some demo_disk) [] with
               | (Ok _, Some b') => bool_decide (map_Forall (fun h (_ : bytes) =>
                   zlen h < 2 ^ 32 /\ utf8_valid h = true) (chunks (proj1_sig (store b'))))
               | _ => false
               end = true) by (vm_compute; reflexivity).
  destruct (save_checkpoint (Some demo_disk) []) as [[file|] [b'|]] eqn:E; try discriminate Hc.
  apply bool_decide_eq_true_1 in Hc as Htext.
  exists file, b'.
  destruct (checkpoint_reopens demo_disk [] file b' (fun _ => Some file) 0 [] [] 70000)
    as (b2 & H1 & _ & _ & _ & _ & H2 & H3); [exact demo_disk_wf|reflexivity|by vm_compute..| |exact E| |reflexivity|by vm_compute|].
  - reflexivity.
  - intros h d Hd. apply (Htext h d). revert Hd. unfold holds. cbn. unfold LocalChunkStore_get.
    destruct (get_error _); congruence.
  - exists b2. split; [reflexivity|]. split; [exact H1|].
    split; [apply H2|apply H3]; vm_compute; try split; congruence.
Defined.
