(* ===== verification/Substitute.v ===== *)
(** * Secrets into request heads

    [crates/shuru-proxy/src/substitute.rs] and the relay loop of
    [proxy.rs]: the request stream from the guest to the upstream, whose heads
    are rewritten and whose bodies are followed only to find where they end.

    The HTTP parser (the [httparse] crate) and the base64 codec (the [base64]
    crate) are parameters of the definitions that use them. *)

From Stdlib Require Import Strings.Byte Strings.String.
From S2P Require Import Prelude Text.

Definition MAX_HEAD : Z := 64 * 1024.
Definition MAX_CHUNK_LINE : Z := 4096.
Definition HEAD_END : bytes := [x0d; x0a; x0d; x0a].

Definition is_lf (b : byte) : bool := bool_decide (b = x0a).
Definition is_blank (b : byte) : bool := bool_decide (b = x20) || bool_decide (b = x09).

(** ** Replacing bytes *)

(** The loop at [data[i..]]; it ends after at most as many turns as bytes. *)
Fixpoint replace_loop (fuel : nat) (rest from to : bytes) : bytes :=
  match fuel with
  | O => rest
  | S fuel =>
      if zlen from <=? zlen rest then
        if bool_decide (ztake (zlen from) rest = from)
        then to ++ replace_loop fuel (zdrop (zlen from) rest) from to
        else match rest with
             | [] => []
             | b :: rest => b :: replace_loop fuel rest from to
             end
      else rest
  end.

Definition replace_bytes (data from to : bytes) : bytes :=
  if bool_decide (from = []) || (zlen data <? zlen from) then data
  else replace_loop (length data) data from to.

(** ** Framing *)

Inductive Chunked :=
  | Size (line : bytes)
  | Data (remaining : Z)
  | DataEnd
  | Trailer (line : bytes).

Inductive Body :=
  | BodyExact (remaining : Z)
  | BodyChunked (c : Chunked).

Inductive ReqState :=
  | StHead
  | StBody (b : Body)
  | StTunnel.

Inductive Framing :=
  | FrNone
  | FrExact (n : Z)
  | FrChunked
  | FrAmbiguous.

Fixpoint skip_while (p : byte -> bool) (l : bytes) : bytes :=
  match l with [] => [] | b :: l' => if p b then skip_while p l' else l end.
Fixpoint take_while (p : byte -> bool) (l : bytes) : bytes :=
  match l with [] => [] | b :: l' => if p b then b :: take_while p l' else [] end.

Definition parse_chunk_size (line : bytes) : option Z :=
  let digits := take_while is_ascii_hexdigit (skip_while is_blank line) in
  if bool_decide (digits = []) then None else u64_digits 16 0 digits.

Definition blank_line (line : bytes) : bool :=
  forallb (fun b => bool_decide (b = x0d) || is_lf b || is_blank b) line.

(** [Chunked::consume] at [data[pos..]]. Every turn takes a byte, a chunk of
    no bytes left apart, so two turns more than the bytes are enough. *)
Fixpoint chunked_loop (fuel : nat) (c : Chunked) (rest : bytes) (pos : Z) : Z * bool * Chunked :=
  match fuel with
  | O => (pos, false, c)
  | S fuel =>
      match rest with
      | [] => (pos, false, c)
      | b :: rest' =>
          match c with
          | Size line =>
              match position is_lf rest with
              | Some i =>
                  let line := line ++ ztake (i + 1) rest in
                  match parse_chunk_size line with
                  | Some n => chunked_loop fuel (if n =? 0 then Trailer [] else Data n)
                                (zdrop (i + 1) rest) (pos + (i + 1))
                  | None => (pos + (i + 1), false, Size [])
                  end
              | None =>
                  if MAX_CHUNK_LINE <? zlen line + zlen rest then (pos, false, c)
                  else chunked_loop fuel (Size (line ++ rest)) [] (pos + zlen rest)
              end
          | Data remaining =>
              let take := Z.min remaining (zlen rest) in
              chunked_loop fuel (if remaining - take =? 0 then DataEnd else Data (remaining - take))
                (zdrop take rest) (pos + take)
          | DataEnd => chunked_loop fuel (if is_lf b then Size [] else DataEnd) rest' (pos + 1)
          | Trailer line =>
              match position is_lf rest with
              | Some i =>
                  let line := line ++ ztake (i + 1) rest in
                  if blank_line line then (pos + (i + 1), true, Trailer [])
                  else chunked_loop fuel (Trailer []) (zdrop (i + 1) rest) (pos + (i + 1))
              | None =>
                  if MAX_CHUNK_LINE <? zlen line + zlen rest then (pos, false, c)
                  else chunked_loop fuel (Trailer (line ++ rest)) [] (pos + zlen rest)
              end
          end
      end
  end.

Definition Chunked_consume (c : Chunked) (data : bytes) : Z * bool * Chunked :=
  chunked_loop (length data + 2) c data 0.

Definition Body_consume (b : Body) (data : bytes) : Z * bool * Body :=
  match b with
  | BodyExact remaining =>
      let take := Z.min remaining (zlen data) in
      (take, remaining - take =? 0, BodyExact (remaining - take))
  | BodyChunked c => let '(taken, finished, c) := Chunked_consume c data in
                     (taken, finished, BodyChunked c)
  end.

(** The probe over the end of [prev] and the start of [hay]. *)
Fixpoint probe_loop (n : nat) (start back : Z) (probe : bytes) : option Z :=
  match n with
  | O => None
  | S n =>
      if bool_decide (ztake (zlen HEAD_END) (zdrop start probe) = HEAD_END)
      then Some (start + zlen HEAD_END - back)
      else probe_loop n (start + 1) back probe
  end.

Definition head_end (prev hay : bytes) : option Z :=
  let back := Z.min (zlen prev) (zlen HEAD_END - 1) in
  let probe := zdrop (zlen prev - back) prev ++ ztake (zlen HEAD_END - 1) hay in
  match (if 0 <? back then probe_loop (Z.to_nat back) 0 back probe else None) with
  | Some e => Some e
  | None => let! i := find_sub HEAD_END hay in Some (i + zlen HEAD_END)
  end.

Section classify.
(** [httparse::Request::parse] with room for 96 headers: the method and the
    headers of a head that is complete. *)
Context (http_parse : bytes -> option (bytes * list (bytes * bytes))).

(** The last piece between commas. *)
Definition last_piece (value : bytes) : bytes :=
  reverse (take_while (fun b => negb (bool_decide (b = x2c))) (reverse value)).

(** What the loop over the headers collects. *)
Record Seen := MkSeen {
  content_length : option Z;
  conflicting_length : bool;
  chunked : bool;
  has_transfer_encoding : bool;
  upgrade : bool;
}.

Definition classify_header (s : Seen) (h : bytes * bytes) : Seen :=
  let '(name, value) := h in
  if eq_ignore_ascii_case name (str "transfer-encoding") then
    MkSeen (content_length s) (conflicting_length s)
      (bool_decide (trim (last_piece (map to_ascii_lowercase value)) = str "chunked")) true (upgrade s)
  else if eq_ignore_ascii_case name (str "content-length") then
    let parsed := if utf8_valid value then parse_u64 (trim value) else None in
    match parsed, content_length s with
    | None, _ => MkSeen (content_length s) true (chunked s) (has_transfer_encoding s) (upgrade s)
    | Some n, Some seen =>
        if n =? seen then s
        else MkSeen (content_length s) true (chunked s) (has_transfer_encoding s) (upgrade s)
    | Some n, None =>
        MkSeen (Some n) (conflicting_length s) (chunked s) (has_transfer_encoding s) (upgrade s)
    end
  else if eq_ignore_ascii_case name (str "upgrade") then
    MkSeen (content_length s) (conflicting_length s) (chunked s) (has_transfer_encoding s) true
  else s.

Definition classify (head : bytes) : Framing :=
  match http_parse head with
  | None => FrAmbiguous
  | Some (method, headers) =>
      if eq_ignore_ascii_case method (str "CONNECT") then FrAmbiguous else
      let s := fold_left classify_header headers (MkSeen None false false false false) in
      if upgrade s || conflicting_length s then FrAmbiguous
      else if has_transfer_encoding s then
        match content_length s with
        | Some _ => FrAmbiguous
        | None => if chunked s then FrChunked else FrAmbiguous
        end
      else match content_length s with
           | None => FrNone
           | Some n => if n =? 0 then FrNone else FrExact n
           end
  end.
End classify.

(** ** Authorization *)

Definition Pairs : Type := list (bytes * bytes).

Definition replace_pairs (ps : Pairs) (data : bytes) : bytes :=
  fold_left (fun out '(from, to) => replace_bytes out from to) ps data.

Section authorization.
(** [BASIC.decode] and [BASIC.encode]. *)
Context (b64_decode : bytes -> option bytes) (b64_encode : bytes -> bytes).

(** Index of the last byte that satisfies [p]. *)
Definition rposition (p : byte -> bool) (l : bytes) : option Z :=
  let! i := position p (reverse l) in Some (zlen l - 1 - i).

Definition basic (value : bytes) (ps : Pairs) : option bytes :=
  let! start := position (fun b => negb (is_blank b)) value in
  let scheme := ztake 6 (zdrop start value) in
  if negb (zlen scheme =? 6) then None else
  if negb (eq_ignore_ascii_case (ztake 5 scheme) (str "basic")
           && forallb is_blank (zdrop 5 scheme)) then None else
  let! skip := position (fun b => negb (is_blank b)) (zdrop (start + 5) value) in
  let token_start := start + 5 + skip in
  let! last := rposition (fun b => negb (is_blank b || bool_decide (b = x0d) || is_lf b)) value in
  let token_end := last + 1 in
  if token_end <=? token_start then None else
  let! decoded := b64_decode (zslice token_start token_end value) in
  let swapped := replace_pairs ps decoded in
  if bool_decide (swapped = decoded) then None
  else Some (ztake token_start value ++ b64_encode swapped ++ zdrop token_end value).

Definition authorization_line (line : bytes) (authorization pairs : Pairs) : option bytes :=
  let! colon := position (fun b => bool_decide (b = x3a)) line in
  if negb (eq_ignore_ascii_case (ztake colon line) (str "authorization")) then None else
  let given := zdrop (colon + 1) line in
  let value := replace_pairs authorization given in
  let value := default value (basic value (authorization ++ pairs)) in
  if bool_decide (value = given) then None else Some (ztake (colon + 1) line ++ value).

(** The lines of a head, each with its CRLF. *)
Fixpoint authorization_loop (fuel : nat) (rest : bytes) (authorization pairs : Pairs) : bytes * bool :=
  match fuel with
  | O => ([], false)
  | S fuel =>
      if bool_decide (rest = []) then ([], false) else
      let end_ := match find_sub [x0d; x0a] rest with Some i => i + 2 | None => zlen rest end in
      let line := ztake end_ rest in
      let '(out, changed) := authorization_loop fuel (zdrop end_ rest) authorization pairs in
      match authorization_line line authorization pairs with
      | Some rewritten => (rewritten ++ out, true)
      | None => (line ++ out, changed)
      end
  end.

Definition substitute_authorization (head : bytes) (authorization pairs : Pairs) : option bytes :=
  let '(out, changed) := authorization_loop (S (length head)) head authorization pairs in
  if changed : bool then Some out else None.
End authorization.

(** ** The stream *)

Inductive Scope := ScopeHead | ScopeAuthorization.

Record Substitution := MkSubstitution {
  placeholder : bytes;
  value : bytes;
  scope : Scope;
}.

Record RequestStream := MkRequests {
  pairs : Pairs;
  authorization : Pairs;
  req_state : ReqState;
  req_head : bytes;
  held : option bytes;
}.

Definition scoped (sc : Scope) (ss : list Substitution) : Pairs :=
  omap (fun s => match scope s, sc with
                 | ScopeHead, ScopeHead | ScopeAuthorization, ScopeAuthorization =>
                     Some (placeholder s, value s)
                 | _, _ => None
                 end) ss.

Definition RequestStream_split (ss : list Substitution) : Pairs * Pairs :=
  (scoped ScopeHead ss, scoped ScopeAuthorization ss).

Definition RequestStream_new (ss : list Substitution) : RequestStream :=
  let '(ps, auth) := RequestStream_split ss in MkRequests ps auth StHead [] None.

Definition RequestStream_update (s : RequestStream) (ss : list Substitution) : RequestStream :=
  let '(ps, auth) := RequestStream_split ss in
  MkRequests ps auth (req_state s) (req_head s) (held s).

Definition set_req_state (s : RequestStream) (st : ReqState) : RequestStream :=
  MkRequests (pairs s) (authorization s) st (req_head s) (held s).
Definition set_req_head (s : RequestStream) (h : bytes) : RequestStream :=
  MkRequests (pairs s) (authorization s) (req_state s) h (held s).
Definition set_held (s : RequestStream) (h : option bytes) : RequestStream :=
  MkRequests (pairs s) (authorization s) (req_state s) (req_head s) h.

(** [advance] at [chunk[pos..]]: what to forward and what is left. A turn
    takes a byte or leaves the body, so twice the bytes are enough. *)
Fixpoint advance_loop (fuel : nat) (s : RequestStream) (rest out : bytes)
    : bytes * bytes * RequestStream :=
  match fuel with
  | O => (out, rest, s)
  | S fuel =>
      if bool_decide (rest = []) || bool_decide (is_Some (held s)) then (out, rest, s) else
      match req_state s with
      | StTunnel => advance_loop fuel s [] (out ++ rest)
      | StBody body =>
          let '(taken, finished, body) := Body_consume body rest in
          let st := if finished : bool then StHead
                    else if taken =? 0 then StTunnel else StBody body in
          advance_loop fuel (set_req_state s st) (zdrop taken rest) (out ++ ztake taken rest)
      | StHead =>
          match head_end (req_head s) rest with
          | Some e =>
              advance_loop fuel (set_held (set_req_head s []) (Some (req_head s ++ ztake e rest)))
                (zdrop e rest) out
          | None =>
              let head := req_head s ++ rest in
              if MAX_HEAD <? zlen head
              then advance_loop fuel (set_req_state (set_req_head s []) StTunnel) [] (out ++ head)
              else advance_loop fuel (set_req_head s head) [] out
          end
      end
  end.

Definition advance (s : RequestStream) (chunk : bytes) : bytes * Z * RequestStream :=
  let '(out, rest, s) := advance_loop (2 * length chunk + 2) s chunk [] in
  (out, zlen chunk - zlen rest, s).

Definition has_head (s : RequestStream) : bool := bool_decide (is_Some (held s)).

Definition take_pending (s : RequestStream) : bytes * RequestStream :=
  (req_head s, set_req_head s []).

Section relay.
Context (http_parse : bytes -> option (bytes * list (bytes * bytes))).
Context (b64_decode : bytes -> option bytes) (b64_encode : bytes -> bytes).

(** The state after a head, from what the guest sent. *)
Definition body_state (head : bytes) : ReqState :=
  match classify http_parse head with
  | FrNone => StHead
  | FrExact n => StBody (BodyExact n)
  | FrChunked => StBody (BodyChunked (Size []))
  | FrAmbiguous => StTunnel
  end.

(** The rewritten head. *)
Definition rewrite_head (ps auth : Pairs) (head : bytes) : bytes :=
  let out := replace_pairs ps head in
  if bool_decide (ps = []) && bool_decide (auth = []) then out
  else default out (substitute_authorization b64_decode b64_encode out auth ps).

Definition finish_head (s : RequestStream) (head : bytes) : bytes * RequestStream :=
  (rewrite_head (pairs s) (authorization s) head, set_req_state s (body_state head)).

Definition release_head (s : RequestStream) : bytes * RequestStream :=
  match held s with
  | Some head => finish_head (set_held s None) head
  | None => ([], s)
  end.

(** What the resolver answers for the n-th head of the connection. *)
Context (resolve : nat -> result (list Substitution) ErrorKind).

(** The relay from the guest: what was sent upstream, the stream, the heads
    so far, and whether a failed resolve ended it. *)
Record Relay := MkRelay {
  sent : bytes;
  requests : RequestStream;
  heads : nat;
  ended : bool;
}.

(** One read of the guest, in the loop of [handle_mitm]; every turn but the
    last takes the end of a head. *)
Fixpoint relay_read (fuel : nat) (r : Relay) (data : bytes) : Relay :=
  match fuel with
  | O => r
  | S fuel =>
      let '(out, taken, s) := advance (requests r) data in
      let data := zdrop taken data in
      let r := MkRelay (sent r ++ out) s (heads r) (ended r) in
      if negb (has_head s) then r else
      match resolve (heads r) with
      | Err _ => MkRelay (sent r) s (S (heads r)) true
      | Ok fresh =>
          let '(head, s) := release_head (RequestStream_update s fresh) in
          relay_read fuel (MkRelay (sent r ++ head) s (S (heads r)) false) data
      end
  end.

(** The reads of the guest until it stops sending, and what was held then. *)
Fixpoint relay_reads (r : Relay) (reads : list bytes) : Relay :=
  match reads with
  | [] => r
  | data :: reads =>
      let r := relay_read (S (length data)) r data in
      if ended r then r else relay_reads r reads
  end.

Definition relay (ss : list Substitution) (reads : list bytes) : bytes :=
  let r := relay_reads (MkRelay [] (RequestStream_new ss) 0 false) reads in
  if ended r then sent r else sent r ++ fst (take_pending (requests r)).
End relay.
