(* ===== verification/SubstituteProofs.v ===== *)
(** * The relay of requests: theorems

    The relay reads the guest in pieces of any size. [step] is the relay of
    one byte; [relay_reads_steps] shows that reading in pieces does the same,
    as long as no head and no line is over the limits. The theorems on whole
    requests follow from what [step] does. *)

From Stdlib Require Import Strings.Byte Strings.String.
From S2P Require Import Prelude Text Substitute.

(** ** Searching *)

Lemma position_Some p l i :
  position p l = Some i ->
  0 <= i < zlen l /\ Forall (fun b => p b = false) (ztake i l) /\
  exists b, p b = true /\ l = ztake i l ++ b :: zdrop (i + 1) l.
Proof.
  revert i. induction l as [|b l IH]; intros i; simpl; [done|]. case_test.
  - intros [= <-]. split; [zlen_lia|]. split; [constructor|]. by exists b.
  - destruct (position p l) as [j|]; [|done]. intros [= <-].
    destruct (IH j eq_refl) as (Hj & HF & b' & Hb' & Hl).
    split; [zlen_lia|].
    assert (ztake (j + 1) (b :: l) = b :: ztake j l) as ->.
    { unfold ztake. by replace (Z.to_nat (j + 1)) with (S (Z.to_nat j)) by lia. }
    assert (zdrop (j + 1 + 1) (b :: l) = zdrop (j + 1) l) as ->.
    { unfold zdrop. by replace (Z.to_nat (j + 1 + 1)) with (S (Z.to_nat (j + 1))) by lia. }
    split; [by constructor|]. exists b'. split; [done|]. simpl. by f_equal.
Qed.

Lemma position_None p l : position p l = None -> Forall (fun b => p b = false) l.
Proof.
  induction l as [|b l IH]; simpl; [done|]. case_test; [done|].
  destruct (position p l); [done|]. intros _. constructor; [done|by apply IH].
Qed.

(** [w] is at position [j] of [l]. *)
Definition occurs (w l : bytes) (j : Z) : Prop := ztake (zlen w) (zdrop j l) = w.

Lemma zdrop_cons (b : byte) l j : 0 <= j -> zdrop (j + 1) (b :: l) = zdrop j l.
Proof. intros. unfold zdrop. by replace (Z.to_nat (j + 1)) with (S (Z.to_nat j)) by lia. Qed.

Lemma find_sub_Some w l i :
  find_sub w l = Some i -> 0 <= i /\ occurs w l i /\ forall j, 0 <= j < i -> ~ occurs w l j.
Proof.
  revert i. induction l as [|b l IH]; intros i; [done|]. cbn [find_sub]. case_bool_decide as Hb.
  - intros [= <-]. split_and!; [lia|exact Hb|lia].
  - destruct (find_sub w l) as [j|]; [|done]. intros [= <-].
    destruct (IH j eq_refl) as (Hj & Ho & Hf). unfold occurs in *.
    split_and!; [lia|by rewrite zdrop_cons by lia|].
    intros k Hk. destruct (decide (k = 0)) as [->|]; [exact Hb|].
    replace k with (k - 1 + 1) by lia. rewrite zdrop_cons by lia. apply Hf. lia.
Qed.

Lemma find_sub_None w l j : w <> [] -> find_sub w l = None -> 0 <= j -> ~ occurs w l j.
Proof.
  intros Hw. revert j. induction l as [|b l IH]; intros j.
  { intros _ _ Ho. apply Hw. rewrite <-Ho. unfold ztake, zdrop. by rewrite drop_nil, take_nil. }
  cbn [find_sub]. case_bool_decide as Hb; [done|]. destruct (find_sub w l); [done|].
  intros _ Hj. destruct (decide (j = 0)) as [->|]; [exact Hb|]. unfold occurs in *.
  replace j with (j - 1 + 1) by lia. rewrite zdrop_cons by lia. apply IH; [done|lia].
Qed.

(** ** The end of a head *)

Lemma ends_occurs l p :
  ends_with HEAD_END (l ++ p) = true <->
  0 <= zlen l + zlen p - 4 /\ zdrop (zlen l + zlen p - 4) (l ++ p) = HEAD_END.
Proof.
  unfold ends_with. rewrite andb_true_iff, Z.leb_le, bool_decide_eq_true, zlen_app.
  change (zlen HEAD_END) with 4. split; intros [? ?]; (split; [lia|done]).
Qed.

(** A head ends at an occurrence of its terminator. *)
Lemma ends_with_occurs prev p q :
  ends_with HEAD_END (prev ++ p) = true <->
  0 <= zlen prev + zlen p - 4 /\ occurs HEAD_END (prev ++ p ++ q) (zlen prev + zlen p - 4).
Proof.
  rewrite ends_occurs. unfold occurs. change (zlen HEAD_END) with 4. rewrite app_assoc.
  pose proof (zlen_nonneg prev). pose proof (zlen_nonneg p).
  assert (Hd : 0 <= zlen prev + zlen p - 4 ->
    ztake 4 (zdrop (zlen prev + zlen p - 4) ((prev ++ p) ++ q))
    = zdrop (zlen prev + zlen p - 4) (prev ++ p)).
  { intros. rewrite zdrop_app_le by zlen_lia. apply ztake_app_exact. zlen_lia. }
  split; intros [? He]; (split; [lia|]); [by rewrite Hd by lia|by rewrite Hd in He by lia].
Qed.

Lemma probe_loop_Some n start back probe e :
  probe_loop n start back probe = Some e ->
  exists s, start <= s < start + Z.of_nat n /\ e = s + 4 - back /\ occurs HEAD_END probe s /\
    forall t, start <= t < s -> ~ occurs HEAD_END probe t.
Proof.
  revert start. induction n as [|n IH]; intros start; [done|]. cbn [probe_loop].
  case_bool_decide as Hb.
  - intros [= <-]. exists start. split_and!; [lia|lia|done|exact Hb|lia].
  - intros He. destruct (IH _ He) as (s & Hs & -> & Ho & Hf). exists s.
    split_and!; [lia|lia|done|done|]. intros t Ht.
    destruct (decide (t = start)) as [->|]; [exact Hb|apply Hf; lia].
Qed.

Lemma probe_loop_None n start back probe t :
  probe_loop n start back probe = None -> start <= t < start + Z.of_nat n ->
  ~ occurs HEAD_END probe t.
Proof.
  revert start. induction n as [|n IH]; intros start; [lia|]. cbn [probe_loop].
  case_bool_decide as Hb; [done|]. intros Hn Ht.
  destruct (decide (t = start)) as [->|]; [exact Hb|]. apply (IH (start + 1)); [done|lia].
Qed.

(** The probe sees the occurrences that start before [hay]. *)
Lemma probe_occurs prev hay back s :
  back = Z.min (zlen prev) 3 -> 0 <= s < back ->
  occurs HEAD_END (zdrop (zlen prev - back) prev ++ ztake 3 hay) s <->
  occurs HEAD_END (prev ++ hay) (zlen prev - back + s).
Proof.
  intros -> Hs. unfold occurs. change (zlen HEAD_END) with 4.
  set (k := zlen prev - Z.min (zlen prev) 3) in *.
  rewrite (zdrop_app_le s) by zlen_lia. rewrite zdrop_zdrop by lia.
  rewrite (zdrop_app_le (k + s)) by lia.
  set (x := zdrop (k + s) prev). assert (Hx : 1 <= zlen x) by (unfold x; zlen_lia).
  destruct (decide (4 <= zlen x)); [by rewrite !ztake_app_le|].
  rewrite !ztake_app_ge by lia. rewrite ztake_ztake. by rewrite Z.min_l by lia.
Qed.

Lemma hay_occurs prev hay i :
  0 <= i -> occurs HEAD_END (prev ++ hay) (zlen prev + i) <-> occurs HEAD_END hay i.
Proof.
  intros. unfold occurs. rewrite zdrop_app_ge by lia.
  by replace (zlen prev + i - zlen prev) with i by lia.
Qed.

(** [head_end] is the first occurrence of the terminator that ends in [hay]. *)
Lemma head_end_spec prev hay :
  match head_end prev hay with
  | Some e => Z.max 4 (zlen prev + 1) <= zlen prev + e /\ occurs HEAD_END (prev ++ hay) (zlen prev + e - 4) /\
      forall j, Z.max 0 (zlen prev - 3) <= j < zlen prev + e - 4 -> ~ occurs HEAD_END (prev ++ hay) j
  | None => forall j, Z.max 0 (zlen prev - 3) <= j -> ~ occurs HEAD_END (prev ++ hay) j
  end.
Proof.
  unfold head_end. change (zlen HEAD_END) with 4. change (4 - 1) with 3.
  set (back := Z.min (zlen prev) 3). pose proof (zlen_nonneg prev).
  set (probe := zdrop (zlen prev - back) prev ++ ztake 3 hay).
  assert (Hp : forall s, 0 <= s < back -> occurs HEAD_END probe s <->
                 occurs HEAD_END (prev ++ hay) (zlen prev - back + s))
    by (intros; by apply probe_occurs).
  destruct (if 0 <? back then _ else None) as [e|] eqn:E.
  - case_test_in E; [|done]. bool_to_prop.
    apply probe_loop_Some in E as (s & Hs & -> & Ho & Hf). split_and!; [lia| |].
    + replace (zlen prev + (s + 4 - back) - 4) with (zlen prev - back + s) by lia. apply Hp; [lia|done].
    + intros j Hj Ho'. apply (Hf (j - (zlen prev - back))); [lia|]. apply Hp; [lia|].
      by replace (zlen prev - back + (j - (zlen prev - back))) with j by lia.
  - assert (Hno : forall j, Z.max 0 (zlen prev - 3) <= j < zlen prev -> ~ occurs HEAD_END (prev ++ hay) j).
    { intros j Hj Ho. assert (0 < back) by lia. case_test_in E; bool_to_prop; [|lia].
      eapply (probe_loop_None _ _ _ _ (j - (zlen prev - back)) E); [lia|]. apply Hp; [lia|].
      by replace (zlen prev - back + (j - (zlen prev - back))) with j by lia. }
    destruct (find_sub HEAD_END hay) as [i|] eqn:Ef.
    + apply find_sub_Some in Ef as (Hi & Ho & Hf). split_and!; [lia| |].
      * replace (zlen prev + (i + 4) - 4) with (zlen prev + i) by lia. by apply hay_occurs.
      * intros j Hj. destruct (decide (j < zlen prev)); [apply Hno; lia|].
        replace j with (zlen prev + (j - zlen prev)) by lia. rewrite hay_occurs by lia. apply Hf. lia.
    + intros j Hj. destruct (decide (j < zlen prev)); [apply Hno; lia|].
      replace j with (zlen prev + (j - zlen prev)) by lia. rewrite hay_occurs by lia.
      apply find_sub_None; [done|done|lia].
Qed.

Lemma head_end_None prev p q :
  head_end prev (p ++ q) = None -> p <> [] -> ends_with HEAD_END (prev ++ p) = false.
Proof.
  intros Hn Hp. pose proof (head_end_spec prev (p ++ q)) as Hs. rewrite Hn in Hs.
  apply not_true_iff_false. rewrite (ends_with_occurs prev p q). intros [Hj Ho].
  destruct p as [|b p]; [done|]. rewrite zlen_cons in *. pose proof (zlen_nonneg p).
  by apply (Hs (zlen prev + (1 + zlen p) - 4)) in Ho; [|lia].
Qed.

Lemma head_end_Some prev hay e :
  head_end prev hay = Some e ->
  0 < e <= zlen hay /\ ends_with HEAD_END (prev ++ ztake e hay) = true /\
  forall p q, hay = p ++ q -> p <> [] -> zlen p < e -> ends_with HEAD_END (prev ++ p) = false.
Proof.
  intros Hn. pose proof (head_end_spec prev hay) as Hs. rewrite Hn in Hs.
  destruct Hs as (He & Ho & Hf). pose proof (zlen_nonneg prev).
  assert (Hle : e <= zlen hay).
  { unfold occurs in Ho. change (zlen HEAD_END) with 4 in Ho. apply (f_equal zlen) in Ho.
    change (zlen HEAD_END) with 4 in Ho. rewrite zlen_take, zlen_drop, zlen_app in Ho. lia. }
  split; [lia|]. split.
  - apply (ends_with_occurs _ _ (zdrop e hay)). rewrite ztake_zdrop. rewrite zlen_take.
    replace (zlen prev + Z.max 0 (Z.min e (zlen hay)) - 4) with (zlen prev + e - 4) by lia.
    split; [lia|done].
  - intros p q -> Hp Hlt. apply not_true_iff_false. rewrite (ends_with_occurs prev p q).
    intros [Hj Ho']. destruct p as [|b p]; [done|]. rewrite zlen_cons in *. pose proof (zlen_nonneg p).
    by apply (Hf (zlen prev + (1 + zlen p) - 4)) in Ho'; [|lia].
Qed.

(** ** One byte *)

(** How a byte moves a chunked body, and whether it ends it. *)
Definition chunk_byte (c : Chunked) (b : byte) : Chunked * bool :=
  match c with
  | Size line =>
      if is_lf b then
        (match parse_chunk_size (line ++ [b]) with
         | Some n => if n =? 0 then Trailer [] else Data n
         | None => Size []
         end, false)
      else (Size (line ++ [b]), false)
  | Data n => (if n - 1 =? 0 then DataEnd else Data (n - 1), false)
  | DataEnd => (if is_lf b then Size [] else DataEnd, false)
  | Trailer line =>
      if is_lf b then (Trailer [], blank_line (line ++ [b])) else (Trailer (line ++ [b]), false)
  end.

Definition body_byte (body : Body) (b : byte) : Body * bool :=
  match body with
  | BodyExact n => (BodyExact (n - 1), n - 1 =? 0)
  | BodyChunked c => let '(c, fin) := chunk_byte c b in (BodyChunked c, fin)
  end.

Section steps.
Context (http_parse : bytes -> option (bytes * list (bytes * bytes))).
Context (b64_decode : bytes -> option bytes) (b64_encode : bytes -> bytes).
Context (resolve : nat -> result (list Substitution) ErrorKind).

(** The rest of a turn of the relay once a head is held. *)
Definition release (r : Relay) (s : RequestStream) : Relay :=
  match resolve (heads r) with
  | Err _ => MkRelay (sent r) s (S (heads r)) true
  | Ok fresh =>
      let '(head, s) := release_head http_parse b64_decode b64_encode (RequestStream_update s fresh) in
      MkRelay (sent r ++ head) s (S (heads r)) false
  end.

(** The relay of one byte, without limits. *)
Definition step (r : Relay) (b : byte) : Relay :=
  if ended r then r else
  let s := requests r in
  match req_state s with
  | StTunnel => MkRelay (sent r ++ [b]) s (heads r) false
  | StBody body =>
      let '(body, fin) := body_byte body b in
      MkRelay (sent r ++ [b]) (set_req_state s (if fin : bool then StHead else StBody body)) (heads r) false
  | StHead =>
      let h := req_head s ++ [b] in
      if ends_with HEAD_END h
      then release r (set_held (set_req_head s []) (Some h))
      else MkRelay (sent r) (set_req_head s h) (heads r) false
  end.

Definition steps (r : Relay) (l : bytes) : Relay := fold_left step l r.

Lemma steps_app r p q : steps r (p ++ q) = steps (steps r p) q.
Proof. apply fold_left_app. Qed.

Lemma steps_ended r l : ended r = true -> steps r l = r.
Proof.
  intros He. induction l as [|b l IH]; [done|]. change (steps (step r b) l = r).
  unfold step. by rewrite He.
Qed.

(** The limits: what is kept of a head and of a line. *)
Definition kept (s : RequestStream) : Prop :=
  zlen (req_head s) <= MAX_HEAD /\
  match req_state s with
  | StBody (BodyChunked (Size line | Trailer line)) => zlen line <= MAX_CHUNK_LINE
  | _ => True
  end.

(** A relay that reads [l] never goes over them. *)
Definition calm (r : Relay) (l : bytes) : Prop :=
  forall p q, l = p ++ q -> kept (requests (steps r p)).

Lemma calm_app r p q : calm r (p ++ q) -> calm (steps r p) q.
Proof. intros H p' q' ->. rewrite <-steps_app. eapply H. by rewrite app_assoc. Qed.

Lemma calm_prefix r p q : calm r (p ++ q) -> calm r p.
Proof. intros H p' q' ->. eapply H. by rewrite <-app_assoc. Qed.

(** Counters of bytes left are positive. *)
Definition chunk_ok (c : Chunked) : Prop := match c with Data n => 0 < n | _ => True end.
Definition body_ok (b : Body) : Prop :=
  match b with BodyExact n => 0 < n | BodyChunked c => chunk_ok c end.
Definition live (r : Relay) : Prop :=
  ended r = false /\ held (requests r) = None /\
  match req_state (requests r) with StBody b => body_ok b | _ => True end.

(** The relay with what it sent and the state of its stream replaced. *)
Definition at_state (r : Relay) (more : bytes) (st : ReqState) : Relay :=
  MkRelay (sent r ++ more) (set_req_state (requests r) st) (heads r) (ended r).

Lemma at_state_nil r st : req_state (requests r) = st -> at_state r [] st = r.
Proof. intros <-. destruct r as [o [] h e]. unfold at_state; simpl. by rewrite app_nil_r. Qed.

Lemma at_state_at r p q st1 st2 : at_state (at_state r p st1) q st2 = at_state r (p ++ q) st2.
Proof. unfold at_state, set_req_state; simpl. by rewrite app_assoc. Qed.

(** A step inside a body. *)
Lemma step_body r body b :
  ended r = false -> req_state (requests r) = StBody body ->
  step r b = at_state r [b] (let '(body, fin) := body_byte body b in
                             if fin : bool then StHead else StBody body).
Proof.
  intros He Hs. unfold step, at_state. rewrite He, Hs. by destruct (body_byte body b).
Qed.

Lemma exact_steps l : forall n r,
  ended r = false -> req_state (requests r) = StBody (BodyExact n) -> zlen l <= n -> 0 < n ->
  steps r l = at_state r l (if n - zlen l =? 0 then StHead else StBody (BodyExact (n - zlen l))).
Proof.
  induction l as [|b l IH]; intros n r He Hs Hl Hn.
  { change (zlen (@nil byte)) with 0. rewrite Z.sub_0_r, (proj2 (Z.eqb_neq n 0)) by lia.
    by rewrite at_state_nil. }
  rewrite zlen_cons in *. change (steps r (b :: l)) with (steps (step r b) l).
  rewrite (step_body r (BodyExact n)) by done. cbn [body_byte].
  pose proof (zlen_nonneg l). case_test; bool_to_prop.
  - assert (zlen l = 0) as Hz by lia. apply zlen_zero in Hz as ->. change (zlen (@nil byte)) with 0.
    by rewrite (proj2 (Z.eqb_eq (n - (1 + 0)) 0)) by lia.
  - rewrite (IH (n - 1)); [|done|done|lia|lia]. rewrite at_state_at.
    by replace (n - 1 - zlen l) with (n - (1 + zlen l)) by lia.
Qed.

Lemma data_steps l : forall n r,
  ended r = false -> req_state (requests r) = StBody (BodyChunked (Data n)) -> zlen l <= n -> 0 < n ->
  steps r l = at_state r l (StBody (BodyChunked (if n - zlen l =? 0 then DataEnd else Data (n - zlen l)))).
Proof.
  induction l as [|b l IH]; intros n r He Hs Hl Hn.
  { change (zlen (@nil byte)) with 0. rewrite Z.sub_0_r, (proj2 (Z.eqb_neq n 0)) by lia.
    by rewrite at_state_nil. }
  rewrite zlen_cons in *. change (steps r (b :: l)) with (steps (step r b) l).
  rewrite (step_body r (BodyChunked (Data n))) by done. cbn [body_byte chunk_byte].
  pose proof (zlen_nonneg l). case_test; bool_to_prop.
  - assert (zlen l = 0) as Hz by lia. apply zlen_zero in Hz as ->. change (zlen (@nil byte)) with 0.
    by rewrite (proj2 (Z.eqb_eq (n - (1 + 0)) 0)) by lia.
  - rewrite (IH (n - 1)); [|done|done|lia|lia]. rewrite at_state_at.
    by replace (n - 1 - zlen l) with (n - (1 + zlen l)) by lia.
Qed.

(** Bytes without a line feed only lengthen the line. *)
Lemma size_steps l : forall line r,
  ended r = false -> req_state (requests r) = StBody (BodyChunked (Size line)) ->
  Forall (fun b => is_lf b = false) l ->
  steps r l = at_state r l (StBody (BodyChunked (Size (line ++ l)))).
Proof.
  induction l as [|b l IH]; intros line r He Hs Hl.
  { rewrite app_nil_r. by rewrite at_state_nil. }
  apply Forall_cons_1 in Hl as [Hb Hl]. change (steps r (b :: l)) with (steps (step r b) l).
  rewrite (step_body r (BodyChunked (Size line))) by done. cbn [body_byte chunk_byte]. rewrite Hb.
  rewrite (IH (line ++ [b])) by done. by rewrite at_state_at, <-app_assoc.
Qed.

Lemma trailer_steps l : forall line r,
  ended r = false -> req_state (requests r) = StBody (BodyChunked (Trailer line)) ->
  Forall (fun b => is_lf b = false) l ->
  steps r l = at_state r l (StBody (BodyChunked (Trailer (line ++ l)))).
Proof.
  induction l as [|b l IH]; intros line r He Hs Hl.
  { rewrite app_nil_r. by rewrite at_state_nil. }
  apply Forall_cons_1 in Hl as [Hb Hl]. change (steps r (b :: l)) with (steps (step r b) l).
  rewrite (step_body r (BodyChunked (Trailer line))) by done. cbn [body_byte chunk_byte]. rewrite Hb.
  rewrite (IH (line ++ [b])) by done. by rewrite at_state_at, <-app_assoc.
Qed.

(** A line up to and with its line feed. *)
Lemma line_cut i l :
  position is_lf l = Some i ->
  exists p b, is_lf b = true /\ Forall (fun b => is_lf b = false) p /\
    ztake (i + 1) l = p ++ [b] /\ zlen p = i /\ 0 <= i < zlen l.
Proof.
  intros Hp. apply position_Some in Hp as (Hi & HF & b & Hb & Hl).
  exists (ztake i l), b. split_and!; [done|done| |rewrite zlen_take; lia|lia|lia].
  rewrite Hl at 1. rewrite ztake_app_ge by (rewrite zlen_take; lia).
  rewrite zlen_take. by replace (i + 1 - Z.max 0 (Z.min i (zlen l))) with 1 by lia.
Qed.

Lemma size_line_steps p b line r :
  ended r = false -> req_state (requests r) = StBody (BodyChunked (Size line)) ->
  Forall (fun b => is_lf b = false) p -> is_lf b = true ->
  steps r (p ++ [b]) = at_state r (p ++ [b]) (StBody (BodyChunked
    match parse_chunk_size (line ++ p ++ [b]) with
    | Some n => if n =? 0 then Trailer [] else Data n
    | None => Size []
    end)).
Proof.
  intros He Hs HF Hb. rewrite steps_app, (size_steps p line) by done.
  change (steps ?x [b]) with (step x b). rewrite (step_body _ (BodyChunked (Size (line ++ p)))) by done.
  cbn [body_byte chunk_byte]. rewrite Hb. by rewrite at_state_at, <-app_assoc.
Qed.

Lemma trailer_line_steps p b line r :
  ended r = false -> req_state (requests r) = StBody (BodyChunked (Trailer line)) ->
  Forall (fun b => is_lf b = false) p -> is_lf b = true ->
  steps r (p ++ [b]) = at_state r (p ++ [b])
    (if blank_line (line ++ p ++ [b]) then StHead else StBody (BodyChunked (Trailer []))).
Proof.
  intros He Hs HF Hb. rewrite steps_app, (trailer_steps p line) by done.
  change (steps ?x [b]) with (step x b). rewrite (step_body _ (BodyChunked (Trailer (line ++ p)))) by done.
  cbn [body_byte chunk_byte]. rewrite Hb. by rewrite at_state_at, <-app_assoc.
Qed.

Lemma u64_digits_nonneg radix ds : forall acc v,
  0 <= radix -> Forall (fun b => is_ascii_hexdigit b = true) ds -> 0 <= acc ->
  u64_digits radix acc ds = Some v -> 0 <= v.
Proof.
  induction ds as [|d ds IH]; intros acc v Hr HF Ha; simpl; [by intros [= <-]|].
  apply Forall_cons_1 in HF as [Hd HF]. case_test; [|done]. apply IH; [done..|].
  assert (0 <= hex_value d); [|nia]. unfold is_ascii_hexdigit, hex_value, in_range in *.
  repeat case_test; bool_to_prop; lia.
Qed.

Lemma take_while_all p l : Forall (fun b => p b = true) (take_while p l).
Proof. induction l as [|b l IH]; simpl; [done|]. case_test; by constructor. Qed.

Lemma chunk_size_nonneg line n : parse_chunk_size line = Some n -> 0 <= n.
Proof.
  unfold parse_chunk_size. case_bool_decide; [done|].
  apply u64_digits_nonneg; [lia|apply take_while_all|lia].
Qed.

(** What a loop over the rest of a chunked body has done when it returns. *)
Definition chunked_did (r : Relay) (rest : bytes) (pos : Z) (res : Z * bool * Chunked) : Prop :=
  exists k fin c', res = (pos + k, fin, c') /\ 0 <= k <= zlen rest /\ (rest <> [] -> 0 < k) /\
    steps r (ztake k rest)
    = at_state r (ztake k rest) (if fin : bool then StHead else StBody (BodyChunked c')) /\
    (fin = false -> chunk_ok c').

Lemma chunked_did_more r rest pos j c res :
  0 < j <= zlen rest ->
  steps r (ztake j rest) = at_state r (ztake j rest) (StBody (BodyChunked c)) ->
  chunked_did (steps r (ztake j rest)) (zdrop j rest) (pos + j) res ->
  chunked_did r rest pos res.
Proof.
  intros Hj Hs (k & fin & c' & -> & Hk & Hpos & Hk' & Hok).
  rewrite zlen_drop in Hk. exists (j + k), fin, c'.
  split_and!; [do 2 f_equal; lia|lia|lia|lia| |done].
  rewrite ztake_plus by lia. rewrite steps_app, Hk', Hs. by rewrite at_state_at.
Qed.

Lemma chunked_loop_steps fuel : forall c rest pos r,
  live r -> req_state (requests r) = StBody (BodyChunked c) -> calm r rest ->
  (length rest < fuel)%nat -> chunked_did r rest pos (chunked_loop fuel c rest pos).
Proof.
  induction fuel as [|fuel IH]; intros c rest pos r Hl Hs Hc Hf; [lia|]. cbn [chunked_loop].
  pose proof Hl as (He & Hh & Hok). rewrite Hs in Hok. cbn [body_ok] in Hok.
  destruct rest as [|b rest']; [|set (rest := b :: rest') in *].
  { exists 0, false, c. split_and!; [f_equal; f_equal; lia|done|done|done| |done].
    by rewrite at_state_nil. }
  assert (Hlen : 1 <= zlen rest) by (unfold rest; rewrite zlen_cons; pose proof (zlen_nonneg rest'); lia).
  assert (Hgo : forall j c1, 0 < j <= zlen rest -> chunk_ok c1 ->
    steps r (ztake j rest) = at_state r (ztake j rest) (StBody (BodyChunked c1)) ->
    chunked_did r rest pos (chunked_loop fuel c1 (zdrop j rest) (pos + j))).
  { intros j c1 Hj Hok1 Hs1. apply (chunked_did_more r rest pos j c1); [done|done|].
    apply IH; [by rewrite Hs1|by rewrite Hs1| |].
    - apply calm_app. by rewrite ztake_zdrop.
    - unfold zdrop. rewrite length_drop. unfold zlen in Hj. lia. }
  destruct c as [line|n| |line].
  - destruct (position is_lf rest) as [i|] eqn:Ei.
    + destruct (line_cut _ _ Ei) as (p & x & Hx & Hp & Hcut & Hpl & Hi).
      assert (Hst := size_line_steps p x line r He Hs Hp Hx). rewrite <-Hcut in Hst.
      destruct (parse_chunk_size (line ++ ztake (i + 1) rest)) as [n|] eqn:En.
      * apply Hgo; [lia| |done]. apply chunk_size_nonneg in En. case_test; bool_to_prop; simpl; lia.
      * exists (i + 1), false, (Size []). split_and!; [done|lia|lia|lia|done|done].
    + apply position_None in Ei.
      assert (Hst := size_steps rest line r He Hs Ei).
      assert (zlen line + zlen rest <= MAX_CHUNK_LINE).
      { destruct (Hc rest [] (eq_sym (app_nil_r _))) as [_ Hk]. rewrite Hst in Hk. simpl in Hk.
        by rewrite zlen_app in Hk. }
      rewrite (proj2 (Z.ltb_ge _ _)) by done.
      rewrite <-(zdrop_ge (zlen rest) rest) by done.
      apply Hgo; [lia|done|]. by rewrite (ztake_ge (zlen rest) rest) by done.
  - simpl in Hok. pose proof (data_steps (ztake (Z.min n (zlen rest)) rest) n r He Hs) as Hst.
    rewrite zlen_take in Hst.
    replace (Z.max 0 (Z.min (Z.min n (zlen rest)) (zlen rest))) with (Z.min n (zlen rest)) in Hst by lia.
    apply Hgo; [lia| |apply Hst; lia]. case_test; bool_to_prop; simpl; lia.
  - apply (Hgo 1 (if is_lf b then Size [] else DataEnd)); [lia|by case_test|].
    change (ztake 1 rest) with [b]. change (steps r [b]) with (step r b).
    by rewrite (step_body r (BodyChunked DataEnd)) by done.
  - destruct (position is_lf rest) as [i|] eqn:Ei.
    + destruct (line_cut _ _ Ei) as (p & x & Hx & Hp & Hcut & Hpl & Hi).
      assert (Hst := trailer_line_steps p x line r He Hs Hp Hx). rewrite <-Hcut in Hst.
      destruct (blank_line (line ++ ztake (i + 1) rest)) eqn:En.
      * exists (i + 1), true, (Trailer []). split_and!; [done|lia|lia|lia|done|done].
      * apply Hgo; [lia|done|done].
    + apply position_None in Ei.
      assert (Hst := trailer_steps rest line r He Hs Ei).
      assert (zlen line + zlen rest <= MAX_CHUNK_LINE).
      { destruct (Hc rest [] (eq_sym (app_nil_r _))) as [_ Hk]. rewrite Hst in Hk. simpl in Hk.
        by rewrite zlen_app in Hk. }
      rewrite (proj2 (Z.ltb_ge _ _)) by done.
      rewrite <-(zdrop_ge (zlen rest) rest) by done.
      apply Hgo; [lia|done|]. by rewrite (ztake_ge (zlen rest) rest) by done.
Qed.

Lemma body_steps body rest r :
  live r -> req_state (requests r) = StBody body -> calm r rest -> rest <> [] ->
  exists k fin body', Body_consume body rest = (k, fin, body') /\ 0 < k <= zlen rest /\
    steps r (ztake k rest) = at_state r (ztake k rest) (if fin : bool then StHead else StBody body') /\
    (fin = false -> body_ok body').
Proof.
  intros Hl Hs Hc Hne. pose proof Hl as (He & Hh & Hok). rewrite Hs in Hok.
  assert (1 <= zlen rest) by (destruct rest; [done|rewrite zlen_cons; pose proof (zlen_nonneg rest); lia]).
  destruct body as [n|c]; cbn [Body_consume body_ok] in *.
  - pose proof (exact_steps (ztake (Z.min n (zlen rest)) rest) n r He Hs) as Hst.
    rewrite zlen_take in Hst.
    replace (Z.max 0 (Z.min (Z.min n (zlen rest)) (zlen rest))) with (Z.min n (zlen rest)) in Hst by lia.
    eexists _, _, _. split_and!; [done|lia|lia|apply Hst; lia|]. simpl. intros. bool_to_prop. lia.
  - unfold Chunked_consume.
    destruct (chunked_loop_steps (length rest + 2) c rest 0 r Hl Hs Hc) as (k & fin & c' & -> & Hk & Hp & Hst & Hok');
      [lia|].
    eexists _, _, _. split_and!; [done|naive_solver lia|lia|done|done].
Qed.

(** Bytes that complete no head are kept. *)
Lemma head_steps p : forall r,
  ended r = false -> req_state (requests r) = StHead ->
  (forall p1 p2, p = p1 ++ p2 -> p1 <> [] -> ends_with HEAD_END (req_head (requests r) ++ p1) = false) ->
  steps r p = MkRelay (sent r) (set_req_head (requests r) (req_head (requests r) ++ p)) (heads r) false.
Proof.
  induction p as [|b p IH]; intros r He Hs Hno.
  { rewrite app_nil_r. destruct r as [o [] n e]; simpl in *. by subst. }
  change (steps r (b :: p)) with (steps (step r b) p). unfold step. rewrite He, Hs.
  rewrite (Hno [b] p) by done. rewrite IH; simpl; [by rewrite <-app_assoc|done|done|].
  intros p1 p2 -> Hp1. rewrite <-app_assoc. by apply (Hno (b :: p1) p2).
Qed.

(** What [advance] has done when it returns: all of the chunk, or everything
    up to the byte that completes a head. *)
Definition advanced (r : Relay) (rest out : bytes) (res : bytes * bytes * RequestStream) : Prop :=
  exists o rest' s', res = (out ++ o, rest', s') /\
    ((rest' = [] /\ steps r rest = MkRelay (sent r ++ o) s' (heads r) false /\ live (steps r rest)) \/
     (exists a b s, rest = a ++ b :: rest' /\ steps r a = MkRelay (sent r ++ o) s (heads r) false /\
        live (steps r a) /\ req_state s = StHead /\ ends_with HEAD_END (req_head s ++ [b]) = true /\
        s' = set_held (set_req_head s []) (Some (req_head s ++ [b])))).

Lemma advanced_more r rest out k o1 s1 res :
  0 <= k <= zlen rest ->
  steps r (ztake k rest) = MkRelay (sent r ++ o1) s1 (heads r) false ->
  advanced (steps r (ztake k rest)) (zdrop k rest) (out ++ o1) res ->
  advanced r rest out res.
Proof.
  intros Hk Hs (o & rest' & s' & -> & H). exists (o1 ++ o), rest', s'. split; [by rewrite app_assoc|].
  destruct H as [(-> & Hst & Hl)|(a & b & s & Hr & Hst & Hl & H)].
  - left. split; [done|]. rewrite <-(ztake_zdrop k rest), steps_app.
    split; [|done]. rewrite Hst, Hs; simpl. by rewrite app_assoc.
  - right. exists (ztake k rest ++ a), b, s. split; [|rewrite steps_app; split; [|done]].
    + by rewrite <-app_assoc, <-Hr, ztake_zdrop.
    + rewrite Hst, Hs; simpl. by rewrite app_assoc.
Qed.

Lemma advanced_done r out :
  live r -> advanced r [] out (out, [], requests r).
Proof.
  intros Hl. pose proof Hl as (He & _ & _). exists [], [], (requests r).
  rewrite !app_nil_r. split; [done|]. left. split; [done|]. split; [|done].
  destruct r; simpl in *. by subst.
Qed.

Lemma advance_loop_nil fuel s out : advance_loop fuel s [] out = (out, [], s).
Proof. by destruct fuel. Qed.

Lemma tunnel_steps l : forall r,
  ended r = false -> req_state (requests r) = StTunnel ->
  steps r l = MkRelay (sent r ++ l) (requests r) (heads r) false.
Proof.
  induction l as [|b l IH]; intros r He Hs.
  { rewrite app_nil_r. destruct r; simpl in *. by subst. }
  change (steps r (b :: l)) with (steps (step r b) l). unfold step. rewrite He, Hs.
  rewrite IH by done. simpl. by rewrite <-app_assoc.
Qed.

Lemma advance_loop_held fuel s rest out h :
  held s = Some h -> advance_loop fuel s rest out = (out, rest, s).
Proof.
  intros Hh. destruct fuel; [done|]. cbn [advance_loop]. rewrite Hh.
  rewrite (bool_decide_true (is_Some (Some h))) by (by eexists). by rewrite orb_true_r.
Qed.

(** A head completes inside the chunk, or all of the chunk belongs to it. *)
Lemma advance_head fuel r rest out :
  live r -> calm r rest -> req_state (requests r) = StHead -> rest <> [] ->
  advanced r rest out (advance_loop (S fuel) (requests r) rest out).
Proof.
  intros Hl Hc Es Hne. pose proof Hl as (He & Hh & _). cbn [advance_loop]. rewrite Hh, Es.
  rewrite (bool_decide_false (is_Some None)) by (by intros []). rewrite orb_false_r.
  rewrite bool_decide_false by done.
  set (s := requests r) in *. destruct (head_end (req_head s) rest) as [e|] eqn:Ee.
  - destruct (head_end_Some _ _ _ Ee) as (He1 & He2 & He3).
    destruct (exists_last (l := ztake e rest)) as (a & b & Hab).
    { intros Hz. apply (f_equal zlen) in Hz. rewrite zlen_take in Hz. change (zlen (@nil byte)) with 0 in Hz. lia. }
    assert (Hr : rest = a ++ b :: zdrop e rest).
    { rewrite <-(ztake_zdrop e rest) at 1. by rewrite Hab, <-app_assoc. }
    assert (Hla : zlen a < e).
    { apply (f_equal zlen) in Hab. rewrite zlen_take in Hab. rewrite zlen_app in Hab.
      change (zlen [b]) with 1 in Hab. lia. }
    assert (Hst : steps r a = MkRelay (sent r) (set_req_head s (req_head s ++ a)) (heads r) false).
    { apply head_steps; [done|done|]. intros p1 p2 -> Hp1. apply (He3 p1 (p2 ++ b :: zdrop e rest));
        [by rewrite app_assoc|done|]. rewrite zlen_app in Hla. pose proof (zlen_nonneg p2). lia. }
    rewrite (advance_loop_held _ _ _ _ (req_head s ++ ztake e rest)) by done.
    exists [], (zdrop e rest), (set_held (set_req_head s []) (Some (req_head s ++ ztake e rest))).
    rewrite !app_nil_r. split; [done|]. right. exists a, b, (set_req_head s (req_head s ++ a)).
    rewrite Hst. split_and!; try done; simpl.
    + split_and!; try done. simpl. by rewrite Es.
    + by rewrite <-app_assoc, <-Hab.
    + by rewrite <-app_assoc, <-Hab.
  - assert (Hst : steps r rest = MkRelay (sent r) (set_req_head s (req_head s ++ rest)) (heads r) false).
    { apply head_steps; [done|done|]. intros p1 p2 -> Hp1. by eapply head_end_None. }
    destruct (Hc rest [] (eq_sym (app_nil_r _))) as [Hk _]. rewrite Hst in Hk. simpl in Hk.
    rewrite (proj2 (Z.ltb_ge _ _)) by done. rewrite advance_loop_nil.
    exists [], [], (set_req_head s (req_head s ++ rest)). rewrite !app_nil_r. split; [done|]. left.
    rewrite Hst. split; [done|]. split; [done|]. unfold live; simpl. by rewrite Es.
Qed.

Lemma advance_loop_steps fuel : forall rest out r,
  live r -> calm r rest -> (length rest < fuel)%nat ->
  advanced r rest out (advance_loop fuel (requests r) rest out).
Proof.
  induction fuel as [|fuel IH]; intros rest out r Hl Hc Hf; [lia|].
  assert (req_state (requests r) = StHead /\ rest <> [] \/ ~ (req_state (requests r) = StHead /\ rest <> []))
    as [[Hs Hne']|Hnh] by (destruct (req_state (requests r)), rest; naive_solver); [by apply advance_head|].
  cbn [advance_loop]. pose proof Hl as (He & Hh & Hok). rewrite Hh.
  rewrite (bool_decide_false (is_Some None)) by (by intros []). rewrite orb_false_r.
  case_bool_decide as Hne; [subst; by apply advanced_done|].
  destruct (req_state (requests r)) as [|body|] eqn:Es.
  - naive_solver.
  - destruct (body_steps body rest r Hl Es Hc Hne) as (k & fin & body' & -> & Hk & Hst & Hok').
    rewrite (proj2 (Z.eqb_neq k 0)) by lia.
    assert (Hr : set_req_state (requests r) (if fin then StHead else StBody body')
                 = requests (steps r (ztake k rest))) by (by rewrite Hst).
    rewrite Hr. apply (advanced_more r rest out k (ztake k rest) (requests (steps r (ztake k rest)))); [lia| |].
    + rewrite Hst. unfold at_state. simpl. by rewrite He.
    + apply IH; [| |unfold zdrop; rewrite length_drop; unfold zlen in Hk; lia].
      * rewrite Hst. split_and!; [done|done|]. simpl. destruct fin; [done|by apply Hok'].
      * apply calm_app. by rewrite ztake_zdrop.
  - rewrite advance_loop_nil. exists rest, [], (requests r). split; [done|]. left.
    rewrite tunnel_steps by done. split_and!; [done|done|]. split_and!; [done|done|]. simpl. by rewrite Es.
Qed.

Lemma parse_u64_nonneg t n : parse_u64 t = Some n -> 0 <= n.
Proof.
  unfold parse_u64. case_bool_decide; [done|]. case_test; [|done].
  apply u64_digits_nonneg; [lia| |lia]. apply Forall_forall. intros b Hb.
  rewrite List.forallb_forall in Heqb. apply list_elem_of_In in Hb. specialize (Heqb b Hb). unfold is_ascii_hexdigit, digit in *.
  by rewrite Heqb.
Qed.

Lemma classify_headers_nonneg hs : forall s n,
  (forall n, content_length s = Some n -> 0 <= n) ->
  content_length (fold_left classify_header hs s) = Some n -> 0 <= n.
Proof.
  induction hs as [|[name v] hs IH]; intros s n Hs; simpl; [apply Hs|]. apply IH. clear IH n. intros n.
  repeat case_test; try apply Hs. destruct (parse_u64 (trim v)) as [m|] eqn:Em; [|apply Hs].
  apply parse_u64_nonneg in Em.
  destruct (content_length s) eqn:Ec; [case_test; [rewrite Ec|simpl]; apply Hs|]. by intros [= <-].
Qed.

(** Every body a head announces has bytes left. *)
Lemma body_state_ok h b : body_state http_parse h = StBody b -> body_ok b.
Proof.
  unfold body_state, classify. destruct (http_parse h) as [[m hs]|]; [|done]. case_test; [done|].
  set (s := fold_left _ _ _). case_test; [done|]. case_test.
  - destruct (content_length s); [done|]. case_test; [|done]. by intros [= <-].
  - destruct (content_length s) as [n|] eqn:En; [|done]. case_test; [done|]. intros [= <-]. bool_to_prop.
    apply classify_headers_nonneg in En; [|done]. simpl. lia.
Qed.

Lemma release_live r s h :
  held s = Some h -> ended (release r s) = false -> live (release r s).
Proof.
  intros Hh. unfold release. destruct (resolve (heads r)) as [fresh|]; [|done].
  unfold release_head. simpl. rewrite Hh. simpl. intros _. split_and!; [done|done|]. simpl.
  destruct (body_state http_parse h) eqn:E; [done| |done]. by eapply body_state_ok.
Qed.

Lemma relay_read_steps fuel : forall r data,
  live r -> calm r data -> (length data < fuel)%nat ->
  relay_read http_parse b64_decode b64_encode resolve fuel r data = steps r data /\
  (ended (steps r data) = false -> live (steps r data)).
Proof.
  induction fuel as [|fuel IH]; intros r data Hl Hc Hf; [lia|]. cbn [relay_read]. unfold advance.
  pose proof Hl as (He & _ & _).
  destruct (advance_loop_steps (2 * length data + 2) data [] r Hl Hc) as (o & rest' & s' & -> & H); [lia|].
  destruct H as [(-> & Hst & Hl')|(a & b & s & -> & Hst & Hl' & Hs & Hend & ->)]; simpl app.
  - rewrite Hst in *. pose proof Hl' as (_ & Hh & _). simpl in Hh. unfold has_head. rewrite Hh.
    rewrite (bool_decide_false (is_Some None)) by (by intros []). simpl. by rewrite He.
  - unfold has_head. cbn [held set_held requests heads sent].
    rewrite bool_decide_true by (by eexists). cbn [negb].
    replace (zdrop _ (a ++ b :: rest')) with rest'.
    2: { symmetry. rewrite cons_middle, app_assoc. apply zdrop_app_exact. zlen_lia. }
    set (sh := set_held (set_req_head s []) (Some (req_head s ++ [b]))).
    assert (Hstep : steps r (a ++ b :: rest') = steps (release (MkRelay (sent r ++ o) s (heads r) false) sh) rest').
    { rewrite cons_middle, app_assoc, steps_app, steps_app, Hst. change (steps ?x [b]) with (step x b).
      unfold step. cbn [ended requests]. by rewrite Hs, Hend. }
    rewrite Hstep. pose proof (release_live (MkRelay (sent r ++ o) s (heads r) false) sh _ eq_refl) as Hrl.
    assert (Hcr : calm (release (MkRelay (sent r ++ o) s (heads r) false) sh) rest').
    { intros p q ->. pose proof (Hc (a ++ b :: p) q) as Hk. rewrite <-app_assoc in Hk. specialize (Hk eq_refl).
      rewrite cons_middle, app_assoc, steps_app, steps_app, Hst in Hk. change (steps ?x [b]) with (step x b) in Hk.
      unfold step in Hk. cbn [ended requests] in Hk. by rewrite Hs, Hend in Hk. }
    revert Hrl Hcr. unfold release. cbn [heads sent].
    destruct (resolve (heads r)) as [fresh|e].
    + destruct (release_head _ _ _ _) as [hd s2]. intros Hrl Hcr.
      apply IH; [by apply Hrl|done|]. rewrite length_app in Hf. simpl in Hf. lia.
    + intros _ _. by rewrite steps_ended.
Qed.

(** Reading in pieces is reading byte by byte. *)
Lemma relay_reads_steps reads : forall r,
  live r -> calm r (mjoin reads) ->
  relay_reads http_parse b64_decode b64_encode resolve r reads = steps r (mjoin reads).
Proof.
  induction reads as [|data reads IH]; intros r Hl Hc; [done|].
  change (mjoin (data :: reads)) with (data ++ mjoin reads) in *. cbn [relay_reads].
  destruct (relay_read_steps (S (length data)) r data) as [-> Hlive];
    [done|by eapply calm_prefix|lia|]. rewrite steps_app.
  destruct (ended (steps r data)) eqn:Ee; [by rewrite (steps_ended (steps r data))|].
  apply IH; [by apply Hlive|]. by apply calm_app.
Qed.

(** ** Whole requests *)

Lemma calm_cons r b l : kept (requests r) -> calm (step r b) l -> calm r (b :: l).
Proof. intros Hk Hc [|b' p] q; [done|]. intros [= <- ->]. by eapply Hc. Qed.

Lemma calm_concat p : forall r q, calm r p -> calm (steps r p) q -> calm r (p ++ q).
Proof.
  induction p as [|b p IH]; intros r q Hp Hq; [done|]. simpl. apply calm_cons; [by apply (Hp [] (b :: p))|].
  apply IH; [|done]. intros p1 p2 ->. by apply (Hp (b :: p1) p2).
Qed.

Lemma calm_nil r : kept (requests r) -> calm r [].
Proof. intros Hk [|] q Hq; [done|]. discriminate Hq. Qed.

(** A head that ends with its last byte and not before. *)
Definition complete_head (h : bytes) : Prop :=
  zlen h <= MAX_HEAD /\ ends_with HEAD_END h = true /\
  forall p q, h = p ++ q -> q <> [] -> ends_with HEAD_END p = false.

(** A line that ends with its last byte. *)
Definition line (l : bytes) : Prop :=
  exists p b, l = p ++ [b] /\ is_lf b = true /\ Forall (fun b => is_lf b = false) p /\
    zlen p <= MAX_CHUNK_LINE.

Inductive trailers : bytes -> Prop :=
  | trailers_end l : line l -> blank_line l = true -> trailers l
  | trailers_more l ts : line l -> blank_line l = false -> trailers ts -> trailers (l ++ ts).

(** The chunked coding: a size, that many bytes and an end of line, over and
    over, until a size of zero, the trailers and a blank line. *)
Inductive chunked_body : bytes -> Prop :=
  | chunked_last l ts :
      line l -> parse_chunk_size l = Some 0 -> trailers ts -> chunked_body (l ++ ts)
  | chunked_more l n data e rest :
      line l -> parse_chunk_size l = Some n -> 0 < n -> zlen data = n -> line e ->
      chunked_body rest -> chunked_body (l ++ data ++ e ++ rest).

(** A request whose body is the one its head announces. *)
Definition message_ok (m : bytes * bytes) : Prop :=
  complete_head (fst m) /\
  match classify http_parse (fst m) with
  | FrNone => snd m = []
  | FrExact n => zlen (snd m) = n
  | FrChunked => chunked_body (snd m)
  | FrAmbiguous => False
  end.

(** The relay passed [l] through and is in a state. *)
Definition passed (r : Relay) (l : bytes) (st : ReqState) : Prop :=
  steps r l = at_state r l st /\ calm r l.

Lemma passed_app r p q st1 st2 :
  passed r p st1 -> passed (at_state r p st1) q st2 -> passed r (p ++ q) st2.
Proof.
  intros [H1 C1] [H2 C2]. split; [by rewrite steps_app, H1, H2, at_state_at|].
  apply calm_concat; [done|by rewrite H1].
Qed.

(** Relays between bytes of a body: nothing of a head is kept. *)
Definition in_body (r : Relay) (c : Chunked) : Prop :=
  ended r = false /\ req_head (requests r) = [] /\ req_state (requests r) = StBody (BodyChunked c).

Lemma at_in_body r c p c' : in_body r c -> in_body (at_state r p (StBody (BodyChunked c'))) c'.
Proof. by intros (? & ? & ?). Qed.

Lemma kept_at r p st :
  req_head (requests r) = [] ->
  match st with StBody (BodyChunked (Size l | Trailer l)) => zlen l <= MAX_CHUNK_LINE | _ => True end ->
  kept (requests (at_state r p st)).
Proof. intros Hh Hst. split; simpl; [by rewrite Hh|done]. Qed.

Lemma size_line_passed r l :
  in_body r (Size []) -> line l ->
  passed r l (StBody (BodyChunked match parse_chunk_size l with
                                  | Some n => if n =? 0 then Trailer [] else Data n
                                  | None => Size []
                                  end)).
Proof.
  intros (He & Hh & Hs) (p & b & -> & Hb & HF & Hl).
  assert (Hpre : calm r p).
  { intros p1 p2 ->. apply Forall_app in HF as [HF _]. rewrite (size_steps p1 []) by done.
    apply kept_at; [done|]. rewrite zlen_app in Hl. pose proof (zlen_nonneg p2). simpl. lia. }
  assert (Hst := size_line_steps p b [] r He Hs HF Hb). split; [exact Hst|].
  apply calm_concat; [done|]. apply calm_cons; [by apply (Hpre p []); rewrite app_nil_r|].
  apply calm_nil. change (step (steps r p) b) with (steps (steps r p) [b]).
  rewrite <-steps_app, Hst. apply kept_at; [done|].
  destruct (parse_chunk_size _) as [n|]; [by case_test|done].
Qed.

Lemma trailer_line_passed r l :
  in_body r (Trailer []) -> line l ->
  passed r l (if blank_line l then StHead else StBody (BodyChunked (Trailer []))).
Proof.
  intros (He & Hh & Hs) (p & b & -> & Hb & HF & Hl).
  assert (Hpre : calm r p).
  { intros p1 p2 ->. apply Forall_app in HF as [HF _]. rewrite (trailer_steps p1 []) by done.
    apply kept_at; [done|]. rewrite zlen_app in Hl. pose proof (zlen_nonneg p2). simpl. lia. }
  assert (Hst := trailer_line_steps p b [] r He Hs HF Hb). split; [exact Hst|].
  apply calm_concat; [done|]. apply calm_cons; [by apply (Hpre p []); rewrite app_nil_r|].
  apply calm_nil. change (step (steps r p) b) with (steps (steps r p) [b]).
  rewrite <-steps_app, Hst. apply kept_at; [done|]. by case_test.
Qed.

Lemma data_passed r n data :
  in_body r (Data n) -> 0 < n -> zlen data = n -> passed r data (StBody (BodyChunked DataEnd)).
Proof.
  intros (He & Hh & Hs) Hn Hl. split.
  - rewrite (data_steps data n) by (done || lia). by rewrite (proj2 (Z.eqb_eq (n - zlen data) 0)) by lia.
  - intros p q ->. rewrite zlen_app in Hl. pose proof (zlen_nonneg q).
    rewrite (data_steps p n) by (done || lia). apply kept_at; [done|]. by case_test.
Qed.

Lemma data_end_steps p : forall r,
  ended r = false -> req_state (requests r) = StBody (BodyChunked DataEnd) ->
  Forall (fun b => is_lf b = false) p -> steps r p = at_state r p (StBody (BodyChunked DataEnd)).
Proof.
  induction p as [|b p IH]; intros r He Hs HF; [by rewrite at_state_nil|].
  apply Forall_cons_1 in HF as [Hb HF]. change (steps r (b :: p)) with (steps (step r b) p).
  rewrite (step_body r (BodyChunked DataEnd)) by done. cbn [body_byte chunk_byte]. rewrite Hb.
  rewrite IH by done. by rewrite at_state_at.
Qed.

Lemma data_end_passed r e : in_body r DataEnd -> line e -> passed r e (StBody (BodyChunked (Size []))).
Proof.
  intros (He & Hh & Hs) (p & b & -> & Hb & HF & _).
  apply (passed_app _ _ _ (StBody (BodyChunked DataEnd))).
  - split; [by apply data_end_steps|]. intros p1 p2 ->. apply Forall_app in HF as [HF _].
    rewrite data_end_steps by done. by apply kept_at.
  - assert (Hst : step (at_state r p (StBody (BodyChunked DataEnd))) b
                  = at_state (at_state r p (StBody (BodyChunked DataEnd))) [b] (StBody (BodyChunked (Size [])))).
    { rewrite (step_body _ (BodyChunked DataEnd)) by done. cbn [body_byte chunk_byte]. by rewrite Hb. }
    split; [exact Hst|]. apply calm_cons; [by apply kept_at|]. apply calm_nil. rewrite Hst. by apply kept_at.
Qed.

Lemma trailers_passed ts : trailers ts -> forall r, in_body r (Trailer []) -> passed r ts StHead.
Proof.
  induction 1 as [l Hl Hb|l ts Hl Hb Hts IH]; intros r Hr.
  - pose proof (trailer_line_passed r l Hr Hl) as H. by rewrite Hb in H.
  - pose proof (trailer_line_passed r l Hr Hl) as H. rewrite Hb in H.
    eapply passed_app; [exact H|]. apply IH. by eapply at_in_body.
Qed.

Lemma chunked_passed body : chunked_body body -> forall r, in_body r (Size []) -> passed r body StHead.
Proof.
  induction 1 as [l ts Hl Hp Hts|l n data e rest Hl Hp Hn Hd He Hrest IH]; intros r Hr.
  - pose proof (size_line_passed r l Hr Hl) as H. rewrite Hp in H.
    eapply passed_app; [exact H|]. apply trailers_passed; [done|]. by eapply at_in_body.
  - pose proof (size_line_passed r l Hr Hl) as H. rewrite Hp, (proj2 (Z.eqb_neq n 0)) in H by lia.
    eapply passed_app; [exact H|]. eapply passed_app; [eapply data_passed; [by eapply at_in_body|done..]|].
    eapply passed_app; [eapply data_end_passed; [by do 2 eapply at_in_body|done]|].
    apply IH. by do 3 eapply at_in_body.
Qed.

(** Relays between requests. *)
Definition between (r : Relay) : Prop :=
  ended r = false /\ held (requests r) = None /\ req_head (requests r) = [] /\
  req_state (requests r) = StHead.

Lemma head_calm r h :
  between r -> zlen h <= MAX_HEAD ->
  (forall p q, h = p ++ q -> p <> [] -> ends_with HEAD_END p = false) ->
  steps r h = MkRelay (sent r) (set_req_head (requests r) h) (heads r) false /\ calm r h.
Proof.
  intros (He & Hh & Hd & Hs) Hl Hno.
  assert (Hst : forall p q, h = p ++ q ->
    steps r p = MkRelay (sent r) (set_req_head (requests r) p) (heads r) false).
  { intros p q ->. rewrite head_steps by (done || (rewrite Hd; intros p1 p2 -> Hp1;
      apply (Hno p1 (p2 ++ q)); [by rewrite app_assoc|done])). by rewrite Hd. }
  split; [apply (Hst h []); by rewrite app_nil_r|].
  intros p q ->. rewrite (Hst p q) by done. rewrite zlen_app in Hl. pose proof (zlen_nonneg q).
  split; simpl; [lia|]. by rewrite Hs.
Qed.

(** The relay once a head is complete. *)
Definition after_head (r : Relay) (h : bytes) : Relay :=
  release r (set_held (set_req_head (requests r) []) (Some h)).

Lemma complete_steps r h :
  between r -> complete_head h ->
  steps r h = after_head r h /\ (kept (requests (after_head r h)) -> calm r h).
Proof.
  intros Hb (Hl & Hend & Hno). pose proof Hb as (He & Hh & Hd & Hs).
  destruct (exists_last (l := h)) as (p & b & ->); [by intros ->|].
  destruct (head_calm r p Hb) as [Hst Hc].
  { rewrite zlen_app in Hl. change (zlen [b]) with 1 in Hl. lia. }
  { intros p1 p2 -> _. apply (Hno p1 (p2 ++ [b])); [by rewrite app_assoc|]. by destruct p2. }
  assert (Hlast : step (steps r p) b = after_head r (p ++ [b])).
  { rewrite Hst. unfold step. cbn [ended requests]. cbn [req_state set_req_head req_head]. by rewrite Hs, Hend. }
  split; [by rewrite steps_app|]. intros Hk. apply calm_concat; [done|].
  apply calm_cons; [by apply (Hc p []); rewrite app_nil_r|]. apply calm_nil. by rewrite Hlast.
Qed.

(** What the upstream gets for a head: rewritten with the values resolved
    for it. *)
Definition rewritten (n : nat) (h : bytes) : bytes :=
  match resolve n with
  | Ok fresh => rewrite_head b64_decode b64_encode (scoped ScopeHead fresh) (scoped ScopeAuthorization fresh) h
  | Err _ => []
  end.

Lemma after_head_ok r h fresh :
  between r -> resolve (heads r) = Ok fresh ->
  exists s, after_head r h = MkRelay (sent r ++ rewritten (heads r) h) s (S (heads r)) false /\
    held s = None /\ req_head s = [] /\ req_state s = body_state http_parse h.
Proof.
  intros (He & Hh & Hd & Hs) Hr. unfold after_head, release, rewritten. rewrite Hr. eexists. by split_and!.
Qed.

(** One request on the wire. *)
Lemma message_steps r h b fresh :
  between r -> message_ok (h, b) -> resolve (heads r) = Ok fresh ->
  calm r (h ++ b) /\ between (steps r (h ++ b)) /\
  sent (steps r (h ++ b)) = sent r ++ rewritten (heads r) h ++ b /\
  heads (steps r (h ++ b)) = S (heads r).
Proof.
  intros Hb [Hh Hbody] Hr. cbn [fst snd] in *.
  destruct (complete_steps r h Hb Hh) as [Hst Hc].
  destruct (after_head_ok r h fresh Hb Hr) as (s & Ha & Hs1 & Hs2 & Hs3).
  set (r1 := after_head r h) in *.
  assert (Hp : passed r1 b StHead).
  { unfold body_state in Hs3. destruct (classify http_parse h) as [|n| |] eqn:Ec; [| | |done].
    - subst b. split; [rewrite at_state_nil; [done|by rewrite Ha]|]. apply calm_nil. rewrite Ha. split; simpl; by rewrite ?Hs2, ?Hs3.
    - assert (0 < n).
      { pose proof (body_state_ok h (BodyExact n)) as H. unfold body_state in H. rewrite Ec in H. by apply H. }
      assert (Hex : forall p q, b = p ++ q -> steps r1 p = at_state r1 p
                 (if n - zlen p =? 0 then StHead else StBody (BodyExact (n - zlen p)))).
      { intros p q ->. rewrite zlen_app in Hbody. pose proof (zlen_nonneg q).
        apply exact_steps; [by rewrite Ha|by rewrite Ha|lia|lia]. }
      split.
      + rewrite (Hex b []) by (by rewrite app_nil_r). by rewrite (proj2 (Z.eqb_eq (n - zlen b) 0)) by lia.
      + intros p q Hpq. rewrite (Hex p q Hpq). apply kept_at; [by rewrite Ha|]. by case_test.
    - apply chunked_passed; [done|]. rewrite Ha. by split_and!. }
  destruct Hp as [Hp1 Hp2]. rewrite steps_app, Hst, Hp1. split_and!.
  - apply calm_concat; [apply Hc; by apply (Hp2 [] b)|by rewrite Hst].
  - rewrite Ha. by split_and!.
  - rewrite Ha. simpl. by rewrite <-app_assoc.
  - by rewrite Ha.
Qed.

(** What follows the complete requests: a head the guest did not finish, a
    head after which the connection is not followed any more, or a head whose
    secrets could not be resolved. *)
Inductive Tail :=
  | TailPartial (p : bytes)
  | TailTunnel (h rest : bytes)
  | TailRefused (h rest : bytes).

Definition tail_bytes (t : Tail) : bytes :=
  match t with TailPartial p => p | TailTunnel h rest | TailRefused h rest => h ++ rest end.

Definition tail_ok (n : nat) (t : Tail) : Prop :=
  match t with
  | TailPartial p => zlen p <= MAX_HEAD /\
      forall p1 p2, p = p1 ++ p2 -> p1 <> [] -> ends_with HEAD_END p1 = false
  | TailTunnel h _ => complete_head h /\ classify http_parse h = FrAmbiguous /\
      exists fresh, resolve n = Ok fresh
  | TailRefused h _ => complete_head h /\ exists e, resolve n = Err e
  end.

Definition tail_out (n : nat) (t : Tail) : bytes :=
  match t with
  | TailPartial p => p
  | TailTunnel h rest => rewritten n h ++ rest
  | TailRefused _ _ => []
  end.

Fixpoint messages_out (n : nat) (ms : list (bytes * bytes)) : bytes :=
  match ms with
  | [] => []
  | (h, b) :: ms => rewritten n h ++ b ++ messages_out (S n) ms
  end.

Definition messages_bytes (ms : list (bytes * bytes)) : bytes :=
  mjoin (map (fun m => fst m ++ snd m) ms).

Lemma messages_steps ms : forall r,
  between r -> Forall message_ok ms ->
  (forall k, (heads r <= k < heads r + length ms)%nat -> exists fresh, resolve k = Ok fresh) ->
  calm r (messages_bytes ms) /\ between (steps r (messages_bytes ms)) /\
  sent (steps r (messages_bytes ms)) = sent r ++ messages_out (heads r) ms /\
  heads (steps r (messages_bytes ms)) = (heads r + length ms)%nat.
Proof.
  induction ms as [|[h b] ms IH]; intros r Hb HF Hres.
  - split_and!; [|done|by rewrite app_nil_r|simpl; lia]. apply calm_nil.
    destruct Hb as (_ & _ & Hd & Hs). split; [by rewrite Hd|by rewrite Hs].
  - apply Forall_cons_1 in HF as [Hm HF].
    destruct (Hres (heads r)) as [fresh Hf]; [simpl; lia|].
    destruct (message_steps r h b fresh Hb Hm Hf) as (Hc & Hb1 & Hs1 & Hn1).
    change (messages_bytes ((h, b) :: ms)) with ((h ++ b) ++ messages_bytes ms).
    rewrite steps_app. destruct (IH (steps r (h ++ b))) as (Hc2 & Hb2 & Hs2 & Hn2); [done|done| |].
    { intros k Hk. apply Hres. rewrite Hn1 in Hk. simpl. lia. }
    rewrite Hs1, Hn1 in Hs2. rewrite Hn1 in Hn2.
    split_and!; [by apply calm_concat|done| |simpl; lia].
    rewrite Hs2. cbn [messages_out]. by rewrite <-!app_assoc.
Qed.

(** What the upstream has when the guest stops sending. *)
Definition final (r : Relay) : bytes :=
  if ended r then sent r else sent r ++ req_head (requests r).

Lemma tail_steps r t :
  between r -> tail_ok (heads r) t ->
  calm r (tail_bytes t) /\ final (steps r (tail_bytes t)) = sent r ++ tail_out (heads r) t.
Proof.
  intros Hb Ht. destruct t as [p|h rest|h rest]; cbn [tail_ok tail_bytes tail_out] in *.
  - destruct Ht as [Hl Hno]. destruct (head_calm r p Hb Hl Hno) as [Hst Hc]. split; [done|].
    rewrite Hst. done.
  - destruct Ht as (Hh & Ha & fresh & Hr).
    destruct (complete_steps r h Hb Hh) as [Hst Hc].
    destruct (after_head_ok r h fresh Hb Hr) as (s & Hs & Hs1 & Hs2 & Hs3).
    unfold body_state in Hs3. rewrite Ha in Hs3.
    assert (Htun : forall p, steps (after_head r h) p
              = MkRelay (sent r ++ rewritten (heads r) h ++ p) s (S (heads r)) false).
    { intros p. rewrite Hs, tunnel_steps by done. simpl. by rewrite <-app_assoc. }
    assert (Hk : kept s) by (split; [by rewrite Hs2|by rewrite Hs3]).
    rewrite steps_app, Hst, Htun. split.
    + apply calm_concat; [apply Hc; by rewrite Hs|]. rewrite Hst. intros p q ->. by rewrite Htun.
    + unfold final. simpl. by rewrite Hs2, app_nil_r.
  - destruct Ht as (Hh & e & Hr). destruct (complete_steps r h Hb Hh) as [Hst Hc].
    destruct Hb as (He & Hd & Hq & Hs).
    assert (Ha : after_head r h
      = MkRelay (sent r) (set_held (set_req_head (requests r) []) (Some h)) (S (heads r)) true)
      by (unfold after_head, release; by rewrite Hr).
    assert (Hk : kept (requests (after_head r h))) by (rewrite Ha; split; [done|by simpl; rewrite Hs]).
    rewrite steps_app, Hst. rewrite (steps_ended (after_head r h)) by (by rewrite Ha). split.
    + apply calm_concat; [by apply Hc|]. rewrite Hst. intros p q ->. by rewrite steps_ended by (by rewrite Ha).
    + rewrite Ha. unfold final. simpl. by rewrite app_nil_r.
Qed.

(** C6: Only heads are rewritten, however the bytes arrive. For every sequence of
    requests whose bodies are the ones their heads announce, followed by an
    unfinished head, an ambiguous one or one whose secrets are refused, and
    however the guest's bytes are cut into reads, the upstream gets every
    head rewritten with the values resolved for that head, every body and
    everything after an ambiguous head unchanged, an unfinished head as it
    is, and nothing of a refused head or after it. *)
Theorem only_heads_rewritten ss ms t reads :
  Forall message_ok ms -> (forall k, (k < length ms)%nat -> exists fresh, resolve k = Ok fresh) ->
  tail_ok (length ms) t -> mjoin reads = messages_bytes ms ++ tail_bytes t ->
  relay http_parse b64_decode b64_encode resolve ss reads
  = messages_out 0 ms ++ tail_out (length ms) t.
Proof.
  intros HF Hres Ht Hreads. unfold relay.
  set (r := MkRelay [] (RequestStream_new ss) 0 false).
  assert (Hb : between r) by done.
  destruct (messages_steps ms r Hb HF) as (Hc1 & Hb1 & Hs1 & Hn1); [intros k Hk; apply Hres; simpl in Hk; lia|].
  simpl in Hn1. rewrite <-Hn1 in *.
  destruct (tail_steps _ t Hb1 Ht) as [Hc2 Hf].
  rewrite relay_reads_steps; [|done|rewrite Hreads; by apply calm_concat].
  rewrite Hreads, steps_app. unfold final in Hf. cbn [take_pending fst].
  rewrite Hf, Hs1. done.
Qed.
End steps.

(** ** Concrete requests *)

Definition complete_headb (h : bytes) : bool :=
  (zlen h <=? MAX_HEAD) && ends_with HEAD_END h
  && forallb (fun k => negb (ends_with HEAD_END (take k h))) (List.seq 0 (length h)).

Lemma complete_headb_ok h : complete_headb h = true -> complete_head h.
Proof.
  unfold complete_headb. rewrite !andb_true_iff, Z.leb_le. intros [[Hl He] Hf].
  split_and!; [done|done|]. intros p q -> Hq. rewrite List.forallb_forall in Hf.
  specialize (Hf (length p)). rewrite take_app_length in Hf. apply negb_true_iff, Hf.
  apply List.in_seq. rewrite length_app. destruct q; [done|simpl; lia].
Qed.

Definition crlf (s : string) : bytes := str s ++ [x0d; x0a].
Definition demo_head : bytes := crlf "POST /?k=TOKEN HTTP/1.1" ++ crlf "Content-Length: 5" ++ [x0d; x0a].
Definition demo_parse (h : bytes) : option (bytes * list (bytes * bytes)) :=
  if bool_decide (h = demo_head) then Some (str "POST", [(str "Content-Length", str "5")])
  else None.
Definition demo_secret : list Substitution := [MkSubstitution (str "TOKEN") (str "sk-live") ScopeHead].

(** Two requests and the start of a third, in pieces that cut everything. *)
Lemma only_heads_rewritten_witness :
  relay demo_parse (fun _ => None) (fun x => x) (fun _ => Ok demo_secret) []
    [ztake 9 demo_head; zdrop 9 demo_head ++ str "TO"; str "KEN" ++ demo_head; str "TOKENGE"]
  = (crlf "POST /?k=sk-live HTTP/1.1" ++ crlf "Content-Length: 5" ++ [x0d; x0a]) ++ str "TOKEN"
    ++ (crlf "POST /?k=sk-live HTTP/1.1" ++ crlf "Content-Length: 5" ++ [x0d; x0a]) ++ str "TOKEN"
    ++ str "GE".
Proof.
  assert (Hm : message_ok demo_parse (demo_head, str "TOKEN")).
  { split; [apply complete_headb_ok; vm_compute; reflexivity|]. vm_compute. reflexivity. }
  etransitivity.
  - apply (only_heads_rewritten demo_parse (fun _ => None) (fun x => x) (fun _ => Ok demo_secret) []
      [(demo_head, str "TOKEN"); (demo_head, str "TOKEN")] (TailPartial (str "GE"))).
    + apply Forall_cons_2; [exact Hm|]. apply Forall_cons_2; [exact Hm|]. apply Forall_nil_2.
    + intros k _. by eexists.
    + split; [vm_compute; congruence|]. intros [|b1 [|b2 [|b3 p1]]] p2; intros [=]; subst; try done;
        intros _; reflexivity.
    + reflexivity.
  - vm_compute. reflexivity.
Defined.

(** A size line that is not a number does not end the tracking of a body.
    Wherever the guest puts one, the line is forwarded and the stream is as
    before it, so that the next line is read as a size; the connection does
    not become a tunnel. *)
Theorem bad_chunk_size_is_skipped ps auth l :
  line l -> parse_chunk_size l = None ->
  let s := MkRequests ps auth (StBody (BodyChunked (Size []))) [] None in
  advance s l = (l, zlen l, s).
Proof.
  intros Hl Hp s. set (r := MkRelay [] s 0 false).
  assert (Hb : in_body r (Size [])) by done.
  destruct (size_line_passed (fun _ => None) (fun _ => None) (fun x => x) (fun _ => Err Other) r l Hb Hl)
    as [Hst Hc]. rewrite Hp in Hst.
  unfold advance. change s with (requests r).
  destruct (advance_loop_steps (fun _ => None) (fun _ => None) (fun x => x) (fun _ => Err Other)
              (2 * length l + 2) l [] r) as (o & rest' & s' & -> & H); [done|done|lia|].
  destruct H as [(-> & Ha & _)|(a & b & s0 & Hl' & Ha & _ & Hs0 & _ & _)].
  - rewrite Hst in Ha. unfold at_state in Ha. cbn in Ha. injection Ha as <- <-.
    change (zlen (@nil byte)) with 0. by rewrite Z.sub_0_r.
  - exfalso. destruct Hl as (p & x & -> & Hx & HF & _).
    assert (HFa : Forall (fun b => is_lf b = false) a).
    { destruct rest' as [|y rest'] using rev_ind.
      - apply app_inj_2 in Hl' as [-> _]; done.
      - rewrite app_comm_cons, app_assoc in Hl'. apply app_inj_2 in Hl' as [-> _]; [|done].
        by apply Forall_app in HF as [HF _]. }
    rewrite (size_steps _ _ _ _ a []) in Ha by done. by injection Ha as _ <-.
Qed.

(** After a line of words, the zero chunk that follows ends the body. *)
Lemma bad_chunk_size_is_skipped_witness :
  let s := MkRequests [] [] (StBody (BodyChunked (Size []))) [] None in
  advance s (crlf "oops") = (crlf "oops", 6, s) /\
  req_state (snd (advance s (crlf "oops" ++ crlf "0" ++ [x0d; x0a]))) = StHead.
Proof.
  split; [|vm_compute; reflexivity].
  apply (bad_chunk_size_is_skipped [] [] (crlf "oops")); [|vm_compute; reflexivity].
  exists (str "oops" ++ [x0d]), x0a. split; [reflexivity|]. split; [reflexivity|].
  split; [repeat constructor|vm_compute; congruence].
Defined.
