(* ===== verification/HeadRewrite.v ===== *)
(** * What the rewriting of a head changes

    [replace_bytes] against a specification of replacing from the left, and
    the scope of authorization: which parts of a head a scoped secret can
    reach. *)

From Stdlib Require Import Strings.Byte Strings.String.
From S2P Require Import Prelude Text Substitute SubstituteProofs.

(** ** Replacing *)

(** [out] is [data] with the occurrences of [from], taken from the left and
    without overlap, replaced by [to]. *)
Inductive replaced (from to : bytes) : bytes -> bytes -> Prop :=
  | replaced_none data : (forall j, 0 <= j -> ~ occurs from data j) -> replaced from to data data
  | replaced_next pre post out :
      (forall j, 0 <= j < zlen pre -> ~ occurs from (pre ++ from ++ post) j) ->
      replaced from to post out -> replaced from to (pre ++ from ++ post) (pre ++ to ++ out).

Lemma occurs_short w l j : 0 <= j -> zlen l < zlen w -> ~ occurs w l j.
Proof.
  intros Hj Hl Ho. apply (f_equal zlen) in Ho. rewrite zlen_take, zlen_drop in Ho. pose proof (zlen_nonneg l). lia.
Qed.

Lemma replaced_cons from to b data out :
  ~ occurs from (b :: data) 0 -> replaced from to data out -> replaced from to (b :: data) (b :: out).
Proof.
  intros Hb H. destruct H as [data Hno|pre post out Hno H].
  - apply replaced_none. intros j Hj. destruct (decide (j = 0)) as [->|]; [done|].
    replace j with (j - 1 + 1) by lia. unfold occurs. rewrite zdrop_cons by lia. apply Hno. lia.
  - apply (replaced_next from to (b :: pre)); [|done]. intros j Hj. rewrite zlen_cons in Hj.
    destruct (decide (j = 0)) as [->|]; [done|]. simpl.
    replace j with (j - 1 + 1) by lia. unfold occurs. rewrite zdrop_cons by lia. apply Hno. lia.
Qed.

Lemma replace_loop_spec from to fuel : forall rest,
  from <> [] -> (length rest <= fuel)%nat -> replaced from to rest (replace_loop fuel rest from to).
Proof.
  induction fuel as [|fuel IH]; intros rest Hf Hl; cbn [replace_loop].
  { destruct rest; [|simpl in Hl; lia]. apply replaced_none. intros j Hj. apply occurs_short; [done|].
    destruct from; [done|]. rewrite zlen_cons. pose proof (zlen_nonneg from). change (zlen (@nil byte)) with 0. lia. }
  assert (1 <= zlen from) by (destruct from; [done|rewrite zlen_cons; pose proof (zlen_nonneg from); lia]).
  case_test; bool_to_prop.
  - case_bool_decide as Hat.
    + rewrite <-(ztake_zdrop (zlen from) rest) at 1. rewrite Hat.
      apply (replaced_next from to []); [change (zlen (@nil byte)) with 0; lia|]. apply IH; [done|].
      unfold zdrop. rewrite length_drop. unfold zlen in *. lia.
    + destruct rest as [|b rest]; [change (zlen (@nil byte)) with 0 in *; lia|].
      apply replaced_cons; [exact Hat|]. apply IH; [done|]. simpl in Hl. lia.
  - apply replaced_none. intros j Hj. by apply occurs_short.
Qed.

(** Replacing goes from the left and misses nothing. The result is the data
    with each leftmost occurrence replaced in turn, without looking into what
    was put in; an empty placeholder replaces nothing. *)
Theorem replace_bytes_from_left data from to :
  (from <> [] -> replaced from to data (replace_bytes data from to)) /\
  replace_bytes data [] to = data.
Proof.
  split; [|done]. intros Hf. unfold replace_bytes. rewrite bool_decide_false by done. simpl.
  case_test; bool_to_prop; [|by apply replace_loop_spec].
  apply replaced_none. intros j Hj. by apply occurs_short.
Qed.

(** ** The lines of a head *)

Section lines.
Context (b64_decode : bytes -> option bytes) (b64_encode : bytes -> bytes).

(** A line ends with its first CRLF, or has none and is the last. *)
Fixpoint lines_of (ls : list bytes) : Prop :=
  match ls with
  | [] => True
  | l :: ls =>
      l <> [] /\
      ((exists p, l = p ++ [x0d; x0a] /\ forall j, 0 <= j < zlen p -> ~ occurs [x0d; x0a] l j) \/
       (ls = [] /\ forall j, 0 <= j -> ~ occurs [x0d; x0a] l j)) /\
      lines_of ls
  end.

(** What happens to one line. *)
Definition line_out (authorization pairs : Pairs) (l : bytes) : bytes :=
  default l (authorization_line b64_decode b64_encode l authorization pairs).

Lemma occurs_take w l n j :
  0 <= j -> j + zlen w <= n -> occurs w (ztake n l) j <-> occurs w l j.
Proof.
  intros Hj Hn. unfold occurs. pose proof (zlen_nonneg w).
  rewrite zdrop_ztake by done. rewrite ztake_ztake. by rewrite Z.min_l by lia.
Qed.

Lemma authorization_loop_lines authorization pairs fuel : forall rest out changed,
  (length rest < fuel)%nat ->
  authorization_loop b64_decode b64_encode fuel rest authorization pairs = (out, changed) ->
  exists ls, rest = mjoin ls /\ lines_of ls /\ out = mjoin (map (line_out authorization pairs) ls) /\
    (changed = false -> out = rest).
Proof.
  induction fuel as [|fuel IH]; intros rest out changed Hf; [lia|]. cbn [authorization_loop].
  case_bool_decide as Hne; [intros [= <- <-]; exists []; by subst|].
  set (end_ := match find_sub [x0d; x0a] rest with Some i => i + 2 | None => zlen rest end).
  assert (Hlen : 1 <= zlen rest) by (destruct rest; [done|rewrite zlen_cons; pose proof (zlen_nonneg rest); lia]).
  assert (Hline : 0 < end_ <= zlen rest /\
    ((exists p, ztake end_ rest = p ++ [x0d; x0a] /\
        forall j, 0 <= j < zlen p -> ~ occurs [x0d; x0a] (ztake end_ rest) j) \/
     (zdrop end_ rest = [] /\ forall j, 0 <= j -> ~ occurs [x0d; x0a] (ztake end_ rest) j))).
  { unfold end_. destruct (find_sub [x0d; x0a] rest) as [i|] eqn:Ef.
    - apply find_sub_Some in Ef as (Hi & Ho & Hno). unfold occurs in Ho. change (zlen [x0d; x0a]) with 2 in Ho.
      assert (Hle : i + 2 <= zlen rest).
      { apply (f_equal zlen) in Ho. rewrite zlen_take, zlen_drop in Ho. change (zlen [x0d; x0a]) with 2 in Ho. lia. }
      split; [lia|]. left. exists (ztake i rest). rewrite ztake_plus, Ho by lia. split; [done|].
      rewrite zlen_take. intros j Hj. rewrite <-Ho, <-ztake_plus, Ho by lia.
      rewrite occurs_take by (change (zlen [x0d; x0a]) with 2; lia). apply Hno. lia.
    - split; [lia|]. right. split; [by apply zdrop_ge|]. rewrite ztake_ge by done.
      intros j Hj. by apply find_sub_None. }
  destruct Hline as [Hend Hline].
  destruct (authorization_loop _ _ fuel _ _ _) as [o c] eqn:Ea.
  apply IH in Ea as (ls & Hr & Hls & -> & Hch).
  2: { unfold zdrop. rewrite length_drop. unfold zlen in Hend. lia. }
  intros Hout. exists (ztake end_ rest :: ls).
  assert (Hjoin : rest = mjoin (ztake end_ rest :: ls)).
  { rewrite <-(ztake_zdrop end_ rest) at 1. by rewrite Hr. }
  split; [done|]. split; [split; [|split; [|done]]|split].
  - intros Hz. apply (f_equal zlen) in Hz. rewrite zlen_take in Hz. change (zlen (@nil byte)) with 0 in Hz. lia.
  - destruct Hline as [?|[Hz ?]]; [by left|right]. split; [|done]. rewrite Hz in Hr. destruct ls as [|l ls]; [done|].
    destruct Hls as (Hl & _). simpl in Hr. by destruct l.
  - unfold line_out. simpl. destruct (authorization_line _ _ _ _ _); by injection Hout as <- <-.
  - destruct (authorization_line _ _ _ _ _); injection Hout as <- <-; [done|]. intros Hc.
    rewrite (Hch Hc). by rewrite ztake_zdrop.
Qed.

(** A line that is rewritten is an [Authorization] header, and keeps its
    name. *)
Lemma authorization_line_name l authorization pairs l' :
  authorization_line b64_decode b64_encode l authorization pairs = Some l' ->
  exists name v v', l = name ++ x3a :: v /\ l' = name ++ x3a :: v' /\
    eq_ignore_ascii_case name (str "authorization") = true.
Proof.
  unfold authorization_line. destruct (position _ l) as [colon|] eqn:Ec; [|done].
  apply position_Some in Ec as (Hi & _ & b & Hb & Hl). apply bool_decide_eq_true in Hb as ->.
  case_test; [done|]. case_bool_decide; [done|]. intros [= <-]. apply negb_false_iff in Heqb.
  eexists _, _, _. split; [exact Hl|]. split; [|exact Heqb].
  rewrite (ztake_plus colon 1), <-app_assoc by lia. f_equal.
  assert (zdrop colon l = x3a :: zdrop (colon + 1) l) as ->; [|done].
  rewrite Hl at 1. apply zdrop_app_exact. rewrite zlen_take. lia.
Qed.

(** Without secrets nothing changes. *)
Lemma no_pairs_line l : authorization_line b64_decode b64_encode l [] [] = None.
Proof.
  unfold authorization_line. destruct (position _ l) as [colon|]; [|done]. case_test; [done|].
  cbn [replace_pairs fold_left app].
  assert (basic b64_decode b64_encode (zdrop (colon + 1) l) [] = None) as ->.
  { unfold basic. cbn [replace_pairs fold_left].
    repeat (case_match || case_test); try done; by case_bool_decide. }
  simpl. by rewrite bool_decide_true.
Qed.

Lemma no_pairs_unchanged fuel : forall rest out changed,
  authorization_loop b64_decode b64_encode fuel rest [] [] = (out, changed) -> changed = false.
Proof.
  induction fuel as [|fuel IH]; intros rest out changed; cbn [authorization_loop]; [by intros [= _ <-]|].
  case_bool_decide; [by intros [= _ <-]|].
  destruct (authorization_loop _ _ fuel _ _ _) as [o c] eqn:E. rewrite no_pairs_line.
  intros [= _ <-]. by eapply IH.
Qed.

(** A scoped secret stays in [Authorization]. With secrets of that scope
    only, a head is rewritten line by line: a line that changes is an
    [Authorization] header and keeps its name, and every other line, the
    request line among them, is as the guest sent it. *)
Theorem scoped_secrets_stay_in_authorization auth head :
  exists ls, head = mjoin ls /\ lines_of ls /\
    rewrite_head b64_decode b64_encode [] auth head = mjoin (map (line_out auth []) ls) /\
    Forall (fun l => line_out auth [] l <> l ->
      exists name v v', l = name ++ x3a :: v /\ line_out auth [] l = name ++ x3a :: v' /\
        eq_ignore_ascii_case name (str "authorization") = true) ls.
Proof.
  destruct (authorization_loop b64_decode b64_encode (S (length head)) head auth []) as [out changed] eqn:E.
  pose proof E as E'.
  apply authorization_loop_lines in E as (ls & Hh & Hls & Hout & Hch); [|lia].
  exists ls. split; [done|]. split; [done|]. split.
  - unfold rewrite_head, substitute_authorization. cbn [replace_pairs fold_left]. rewrite E'.
    rewrite bool_decide_true by done. simpl andb. case_bool_decide as Ha.
    + rewrite <-Hout. subst auth. symmetry. apply Hch. by eapply no_pairs_unchanged.
    + destruct changed; [done|]. simpl. rewrite <-Hch by done. done.
  - apply Forall_forall. intros l _ Hl. unfold line_out in *.
    destruct (authorization_line _ _ _ _ _) as [l'|] eqn:El; [|done].
    by apply authorization_line_name in El.
Qed.
End lines.
