(* ===== verification/Config.v ===== *)
(** * The policy of the proxy

    [crates/shuru-proxy/src/config.rs]: which domains a secret or the
    allowlist names, which addresses are public, and the ports of the host
    the guest may reach. *)

From Stdlib Require Import Strings.Byte Strings.String.
From stdpp Require Import list.
From S2P Require Import Prelude Text.

(** ** Domains *)

Definition domain_matches (pattern domain : bytes) : bool :=
  if bool_decide (pattern = str "*") then true
  else if bool_decide (ztake 2 pattern = str "*.") then
    let suffix := zdrop 2 pattern in
    ends_with suffix domain && (zlen suffix <? zlen domain)
    && bool_decide (znth domain (zlen domain - zlen suffix - 1) = Some x2e)
  else bool_decide (pattern = domain).

Record NetworkConfig := MkNetwork { allow : list bytes }.

Definition has_allowlist (n : NetworkConfig) : bool := negb (bool_decide (allow n = [])).

Definition is_domain_allowed (n : NetworkConfig) (domain : bytes) : bool :=
  if bool_decide (allow n = []) then true
  else existsb (fun pattern => domain_matches pattern domain) (allow n).

(** ** Addresses *)

Record Ipv4 := MkIpv4 { oct_a : Z; oct_b : Z; oct_c : Z; oct_d : Z }.

(** The eight segments of 16 bits. *)
Definition Ipv6 : Type := list Z.

Inductive IpAddr := V4 (ip : Ipv4) | V6 (ip : Ipv6).

Definition is_public_v4 (ip : Ipv4) : bool :=
  let '(MkIpv4 a b c _) := ip in
  negb ((a =? 0) || (a =? 10) || (a =? 127)
        || ((a =? 100) && ((64 <=? b) && (b <? 128)))
        || ((a =? 169) && (b =? 254))
        || ((a =? 172) && ((16 <=? b) && (b <? 32)))
        || ((a =? 192) && (b =? 0) && ((c =? 0) || (c =? 2)))
        || ((a =? 192) && (b =? 88) && (c =? 99))
        || ((a =? 192) && (b =? 168))
        || ((a =? 198) && ((b =? 18) || (b =? 19)))
        || ((a =? 198) && (b =? 51) && (c =? 100))
        || ((a =? 203) && (b =? 0) && (c =? 113))
        || (224 <=? a)).

(** [to_ipv4_mapped]: the addresses of [::ffff:0:0/96]. *)
Definition to_ipv4_mapped (ip : Ipv6) : option Ipv4 :=
  match ip with
  | [0; 0; 0; 0; 0; 65535; g; h] =>
      Some (MkIpv4 (g / 256) (g mod 256) (h / 256) (h mod 256))
  | _ => None
  end.

Definition is_public (ip : IpAddr) : bool :=
  match ip with
  | V4 ip => is_public_v4 ip
  | V6 ip =>
      match to_ipv4_mapped ip with
      | Some v4 => is_public_v4 v4
      | None =>
          match ip with
          | a :: b :: _ =>
              (Z.land a 0xe000 =? 0x2000) && negb ((a =? 0x2001) && ((b <? 0x0200) || (b =? 0x0db8)))
          | _ => false
          end
      end
  end.

(** ** Ports of the host *)

Record ExposeHostMapping := MkExpose { host_port : Z; guest_port : Z }.

Definition GATEWAY : Ipv4 := MkIpv4 10 0 0 1.

#[export] Instance Ipv4_eq_dec : EqDecision Ipv4.
Proof. solve_decision. Defined.

Definition exposed_host_port (expose : list ExposeHostMapping) (dst_ip : Ipv4) (port : Z) : option Z :=
  if negb (bool_decide (dst_ip = GATEWAY)) then None
  else option_map host_port (List.find (fun m => guest_port m =? port) expose).

(** ** Theorems *)

(** A suffix of a list with what is before it. *)
Lemma ends_with_spec w l : ends_with w l = true <-> exists p, l = p ++ w.
Proof.
  unfold ends_with. rewrite andb_true_iff, Z.leb_le, bool_decide_eq_true. split.
  - intros [Hl Hd]. exists (ztake (zlen l - zlen w) l). by rewrite <-Hd at 2; rewrite ztake_zdrop.
  - intros [p ->]. split; [zlen_lia|]. apply zdrop_app_exact. zlen_lia.
Qed.

(** A pattern names the domains it should: [*] every domain, [*.s] exactly
    the domains below [s] and not [s] itself, and any other pattern exactly
    itself. The allowlist lets through everything when it is empty, and
    otherwise what one of its patterns names. *)
Theorem patterns_name_subdomains n pattern domain :
  (domain_matches (str "*") domain = true) /\
  (forall s, domain_matches (str "*." ++ s) domain = true <-> exists p, domain = p ++ x2e :: s) /\
  (pattern <> str "*" -> ztake 2 pattern <> str "*." ->
     domain_matches pattern domain = true <-> domain = pattern) /\
  (is_domain_allowed n domain = true <->
     allow n = [] \/ exists q, q ∈ allow n /\ domain_matches q domain = true).
Proof.
  split_and!.
  - done.
  - intros s. unfold domain_matches. rewrite bool_decide_false by done. rewrite bool_decide_true by done.
    change (zdrop 2 (str "*." ++ s)) with s.
    rewrite !andb_true_iff, ends_with_spec, Z.ltb_lt, bool_decide_eq_true. split.
    + intros [[[p ->] Hl] Hn]. rewrite zlen_app in *.
      destruct (exists_last (l := p)) as (q & b & ->); [intros ->; change (zlen (@nil byte)) with 0 in Hl; lia|].
      exists q. rewrite <-app_assoc. f_equal. simpl. f_equal.
      rewrite zlen_app in Hn. change (zlen [b]) with 1 in Hn.
      replace (zlen q + 1 + zlen s - zlen s - 1) with (zlen q) in Hn by lia.
      rewrite <-app_assoc in Hn. rewrite znth_app in Hn by apply zlen_nonneg.
      rewrite Z.ltb_irrefl, Z.sub_diag in Hn. by injection Hn.
    + intros [p ->]. split; [split; [by exists (p ++ [x2e]); rewrite <-app_assoc|zlen_lia]|].
      rewrite zlen_app, zlen_cons. replace (zlen p + (1 + zlen s) - zlen s - 1) with (zlen p) by lia.
      rewrite znth_app by apply zlen_nonneg. by rewrite Z.ltb_irrefl, Z.sub_diag.
  - intros H1 H2. unfold domain_matches. rewrite !bool_decide_false by done. rewrite bool_decide_eq_true.
    split; congruence.
  - unfold is_domain_allowed. case_bool_decide as Ha; [naive_solver|]. rewrite existsb_exists.
    split; [intros (q & ? & ?); right; exists q; by rewrite list_elem_of_In|].
    intros [?|(q & ? & ?)]; [done|]. exists q. by rewrite <-list_elem_of_In.
Qed.

(** *** Address blocks *)

Definition v4_number (ip : Ipv4) : Z :=
  ((oct_a ip * 256 + oct_b ip) * 256 + oct_c ip) * 256 + oct_d ip.

Definition v4_wf (ip : Ipv4) : Prop :=
  in_width 8 (oct_a ip) /\ in_width 8 (oct_b ip) /\ in_width 8 (oct_c ip) /\ in_width 8 (oct_d ip).

(** [base/prefix]. *)
Definition in_block (ip : Ipv4) (block : Ipv4 * Z) : bool :=
  v4_number ip / 2 ^ (32 - snd block) =? v4_number (fst block) / 2 ^ (32 - snd block).

(** The blocks of the IPv4 special-purpose registry a guest must not reach:
    this network, private, shared, loopback, link-local, protocol assignments,
    documentation, 6to4 relays, benchmarking, multicast and reserved. *)
Definition special_blocks : list (Ipv4 * Z) :=
  [(MkIpv4 0 0 0 0, 8); (MkIpv4 10 0 0 0, 8); (MkIpv4 100 64 0 0, 10); (MkIpv4 127 0 0 0, 8);
   (MkIpv4 169 254 0 0, 16); (MkIpv4 172 16 0 0, 12); (MkIpv4 192 0 0 0, 24); (MkIpv4 192 0 2 0, 24);
   (MkIpv4 192 88 99 0, 24); (MkIpv4 192 168 0 0, 16); (MkIpv4 198 18 0 0, 15);
   (MkIpv4 198 51 100 0, 24); (MkIpv4 203 0 113 0, 24); (MkIpv4 224 0 0 0, 4); (MkIpv4 240 0 0 0, 4)].

(** Evaluates the powers of two. *)
Ltac closed_powers :=
  repeat match goal with
         | |- context [2 ^ ?e] => let v := eval vm_compute in (2 ^ e) in change (2 ^ e) with v
         end.

(** The leading bits of an address. *)
Definition leading (a b c k : Z) : Z :=
  if k <=? 8 then a / 2 ^ (8 - k)
  else if k <=? 16 then a * 2 ^ (k - 8) + b / 2 ^ (16 - k)
  else (a * 256 + b) * 256 + c.

Lemma v4_prefix a b c d k :
  v4_wf (MkIpv4 a b c d) -> In k [4; 8; 10; 12; 15; 16; 24] ->
  v4_number (MkIpv4 a b c d) / 2 ^ (32 - k) = leading a b c k.
Proof.
  unfold leading, v4_wf, v4_number, in_width; cbn [oct_a oct_b oct_c oct_d]. change (2 ^ 8) with 256.
  intros (Ha & Hb & Hc & Hd) Hk. simpl in Hk.
  set (x := ((a * 256 + b) * 256 + c) * 256 + d).
  assert (H8 : x / 2 ^ 8 = (a * 256 + b) * 256 + c) by (symmetry; apply (Z.div_unique _ _ _ d); unfold x; lia).
  assert (H16 : x / 2 ^ 16 = a * 256 + b)
    by (symmetry; apply (Z.div_unique _ _ _ (c * 256 + d)); unfold x; lia).
  assert (H24 : x / 2 ^ 24 = a)
    by (symmetry; apply (Z.div_unique _ _ _ ((b * 256 + c) * 256 + d)); unfold x; lia).
  assert (Hsplit : forall m n, 0 <= m -> 0 <= n -> x / 2 ^ (m + n) = x / 2 ^ m / 2 ^ n)
    by (intros; rewrite Z.pow_add_r, Z.div_div by lia; done).
  destruct Hk as [<-|[<-|[<-|[<-|[<-|[<-|[<-|[]]]]]]]]; cbn -[Z.pow].
  - change (32 - 4) with (24 + 4). by rewrite Hsplit, H24.
  - change (32 - 8) with 24. by rewrite H24, Z.div_1_r.
  - change (32 - 10) with (16 + 6). rewrite Hsplit, H16 by lia. closed_powers. clear -Ha Hb. Z.to_euclidean_division_equations; lia.
  - change (32 - 12) with (16 + 4). rewrite Hsplit, H16 by lia. closed_powers. clear -Ha Hb. Z.to_euclidean_division_equations; lia.
  - change (32 - 15) with (16 + 1). rewrite Hsplit, H16 by lia. closed_powers. clear -Ha Hb. Z.to_euclidean_division_equations; lia.
  - change (32 - 16) with 16. rewrite H16. closed_powers. clear -Ha Hb. Z.to_euclidean_division_equations; lia.
  - exact H8.
Qed.

Lemma in_block_leading a b c d base k v :
  v4_wf (MkIpv4 a b c d) -> In k [4; 8; 10; 12; 15; 16; 24] ->
  v4_number base / 2 ^ (32 - k) = v ->
  in_block (MkIpv4 a b c d) (base, k) = (leading a b c k =? v).
Proof. intros Hw Hk <-. unfold in_block. cbn [fst snd]. by rewrite v4_prefix. Qed.

(** Rewrites one membership test. *)
Ltac open_block Hw :=
  match goal with
  | |- context [in_block (MkIpv4 ?a ?b ?c ?d) (?base, ?k)] =>
      let v := eval vm_compute in (v4_number base / 2 ^ (32 - k)) in
      rewrite (in_block_leading a b c d base k v Hw ltac:(simpl; tauto) ltac:(vm_compute; reflexivity))
  end.

(** Membership in a block as conditions on the octets. *)
Lemma in_block_octets a b c d :
  v4_wf (MkIpv4 a b c d) ->
  existsb (in_block (MkIpv4 a b c d)) special_blocks = true <->
  (a = 0 \/ a = 10 \/ (a = 100 /\ b / 64 = 1) \/ a = 127 \/ (a = 169 /\ b = 254) \/
   (a = 172 /\ b / 16 = 1) \/ (a = 192 /\ b = 0 /\ c = 0) \/ (a = 192 /\ b = 0 /\ c = 2) \/
   (a = 192 /\ b = 88 /\ c = 99) \/ (a = 192 /\ b = 168) \/ (a = 198 /\ b / 2 = 9) \/
   (a = 198 /\ b = 51 /\ c = 100) \/ (a = 203 /\ b = 0 /\ c = 113) \/ a / 16 = 14 \/ a / 16 = 15).
Proof.
  intros Hw. cbn [existsb special_blocks]. rewrite orb_false_r. repeat open_block Hw.
  rewrite !orb_true_iff, !Z.eqb_eq.
  unfold v4_wf, in_width in Hw; cbn [oct_a oct_b oct_c oct_d] in Hw.
  change (2 ^ 8) with 256 in Hw. unfold leading. cbn -[Z.pow Z.div Z.mul Z.add]. closed_powers.
  rewrite !Z.div_1_r.
  repeat match goal with
         | |- (?p \/ _) <-> (?p \/ _) => apply or_iff_compat_l
         | |- (_ \/ _) <-> (_ \/ _) => apply Morphisms_Prop.or_iff_morphism
         end; try done; Z.to_euclidean_division_equations; lia.
Qed.

Lemma is_public_v4_blocks ip :
  v4_wf ip -> is_public_v4 ip = negb (existsb (in_block ip) special_blocks).
Proof.
  destruct ip as [a b c d]. intros Hw. unfold is_public_v4. f_equal. apply eq_true_iff_eq.
  rewrite in_block_octets by done.
  rewrite !orb_true_iff, !andb_true_iff, !orb_true_iff, !Z.eqb_eq, !Z.leb_le, !Z.ltb_lt.
  unfold v4_wf, in_width in Hw; cbn [oct_a oct_b oct_c oct_d] in Hw. change (2 ^ 8) with 256 in Hw.
  assert (H1 : b / 64 = 1 <-> 64 <= b /\ b < 128) by (Z.to_euclidean_division_equations; lia).
  assert (H2 : b / 16 = 1 <-> 16 <= b /\ b < 32) by (Z.to_euclidean_division_equations; lia).
  assert (H3 : b / 2 = 9 <-> b = 18 \/ b = 19) by (Z.to_euclidean_division_equations; lia).
  assert (H4 : a / 16 = 14 \/ a / 16 = 15 <-> 224 <= a) by (Z.to_euclidean_division_equations; lia).
  clear Hw. tauto.
Qed.

(** The addresses a guest confined to the public network can reach are
    exactly those outside the special-purpose blocks. For IPv4 the test is
    membership in the registry's blocks; an IPv4 address mapped into IPv6 is
    judged like the address itself, so it is no way around the test; and any
    other IPv6 address that passes is in the global unicast range. *)
Theorem public_is_outside_special_blocks ip :
  v4_wf ip ->
  is_public (V4 ip) = negb (existsb (in_block ip) special_blocks) /\
  is_public (V6 [0; 0; 0; 0; 0; 65535; oct_a ip * 256 + oct_b ip; oct_c ip * 256 + oct_d ip])
    = is_public (V4 ip) /\
  (forall a rest, in_width 16 a -> to_ipv4_mapped (a :: rest) = None ->
     is_public (V6 (a :: rest)) = true -> a / 2 ^ 13 = 1).
Proof.
  intros Hw. split_and!.
  - by apply is_public_v4_blocks.
  - destruct ip as [a b c d]. unfold v4_wf, in_width in Hw; cbn [oct_a oct_b oct_c oct_d] in *.
    cbn [is_public to_ipv4_mapped]. change (2 ^ 8) with 256 in Hw. do 2 f_equal;
      Z.to_euclidean_division_equations; lia.
  - intros a rest Ha Hm. cbn [is_public]. rewrite Hm. destruct rest as [|b rest]; [done|].
    rewrite andb_true_iff, Z.eqb_eq. intros [Hl _].
    assert (Hs : Z.shiftr (Z.land a 0xe000) 13 = 1) by (by rewrite Hl).
    rewrite Z.shiftr_land in Hs. change (Z.shiftr 0xe000 13) with (Z.ones 3) in Hs.
    rewrite Z.land_ones, Z.shiftr_div_pow2 in Hs by lia. rewrite <-Hs. symmetry. apply Z.mod_small.
    unfold in_width in Ha. split; [apply Z.div_pos; lia|]. apply Z.div_lt_upper_bound; lia.
Qed.

Lemma public_is_outside_special_blocks_witness :
  is_public (V4 (MkIpv4 169 254 169 254)) = false /\ is_public (V4 (MkIpv4 8 8 8 8)) = true /\
  is_public (V6 [0; 0; 0; 0; 0; 65535; 0xa9fe; 0xa9fe]) = false.
Proof.
  split; [|split].
  - destruct (public_is_outside_special_blocks (MkIpv4 169 254 169 254)) as (H & _ & _);
      [repeat split; vm_compute; congruence|]. rewrite H. vm_compute. reflexivity.
  - vm_compute. reflexivity.
  - vm_compute. reflexivity.
Defined.
