(* ===== verification/Secrets.v ===== *)
(** * Resolution of secrets

    [crates/shuru-proxy/src/secrets.rs] and the secret part of [config.rs]:
    which secrets a connection to a domain gets, the cache of minted values,
    and the update of the table while connections are open.

    Times are nanoseconds. A command's output, the environment, the
    provider and the clock are the [World] of a call; the JSON parser
    ([serde_json]) and the time left until a time stamp (the [time] crate)
    are parameters. The maps are iterated in an order of their own, which is
    an argument. *)

From Stdlib Require Import Strings.Byte Strings.String.
From stdpp Require Import gmap sorting.
From S2P Require Import Prelude Text Cas Config Substitute.

Definition secs (n : Z) : Z := n * 10 ^ 9.
Definition COMMAND_REFRESH_WINDOW : Z := secs 60.
Definition PROVIDED_REFRESH_WINDOW : Z := secs 300.
Definition RETRY_PAUSE : Z := secs 30.
Definition PROVIDED_MAX_AGE : Z := secs 3600.

#[export] Instance Scope_eq_dec : EqDecision Scope.
Proof. solve_decision. Defined.

Record SecretConfig := MkSecret {
  sc_from : option bytes;
  command : option (list bytes);
  ttl : option Z;
  hosts : list bytes;
  sc_value : option bytes;
  provided : bool;
  sc_scope : Scope;
}.

#[export] Instance SecretConfig_eq_dec : EqDecision SecretConfig.
Proof. solve_decision. Defined.

Definition matches_domain (s : SecretConfig) (domain : bytes) : bool :=
  existsb (fun pattern => domain_matches pattern domain) (hosts s).

(** ** The cache *)

Record CacheEntry := MkEntry {
  ce_value : bytes;
  expires_at : option Z;
  window : Z;
}.

Definition CacheEntry_new (v : bytes) (now : Z) (expires : option Z) (w : Z) : CacheEntry :=
  MkEntry v expires (match expires with
                     | Some at_ => Z.min w (Z.max 0 (at_ - now) / 2)
                     | None => w
                     end).

Definition is_fresh (e : CacheEntry) (now : Z) : bool :=
  match expires_at e with None => true | Some at_ => now + window e <? at_ end.

Definition is_usable (e : CacheEntry) (now : Z) : bool :=
  match expires_at e with None => true | Some at_ => now <? at_ end.

Record Slot := MkSlot {
  entry : option CacheEntry;
  failed_at : option Z;
}.

(** A provider that says no, and one that failed to answer. *)
Inductive MintError := Refused | Failed.

Record Minted := MkMinted { m_value : bytes; m_expires_at : option Z }.

Definition usable_entry (s : Slot) (now : Z) : option CacheEntry :=
  match entry s with Some e => if is_usable e now then Some e else None | None => None end.

(** No mint is tried for a while after one failed. *)
Definition paused (s : Slot) (now : Z) : bool :=
  match failed_at s with Some failed => now <? failed + RETRY_PAUSE | None => false end.

Definition serve_usable (s : Slot) (now : Z) (err : MintError) : result bytes MintError :=
  match usable_entry s now with Some e => Ok (ce_value e) | None => Err err end.

(** A value that needs no minting. *)
Definition fresh_value (s : Slot) (now : Z) : option bytes :=
  match entry s with
  | Some e => if is_fresh e now then Some (ce_value e) else None
  | None => None
  end.

(** [cached], once it holds the lock of the slot. *)
Definition cached (s : Slot) (now w : Z) (mint : Z -> result Minted MintError)
    : result bytes MintError * Slot :=
  match fresh_value s now with
  | Some v => (Ok v, s)
  | None =>
      if paused s now then (serve_usable s now Failed, s) else
      match mint now with
      | Ok m => (Ok (m_value m),
                 MkSlot (Some (CacheEntry_new (m_value m) now (m_expires_at m) w)) None)
      | Err e =>
          let s := MkSlot (match e with Refused => None | Failed => entry s end) (Some now) in
          (serve_usable s now e, s)
      end
  end.

(** ** Minting *)

Record Provided := MkProvided { pr_value : bytes; expires_in : option Z }.

(** What the JSON of a command says. *)
Record ProviderOutput := MkOutput { version : Z; po_value : bytes; po_expires_at : option bytes }.

(** The outside of a call: the clock, the environment, the provider, and the
    output of a command that ended well. *)
Record World := MkWorld {
  now : Z;
  env_var : bytes -> option bytes;
  provider : option (bytes -> result Provided MintError);
  run : list bytes -> result bytes MintError;
}.

(** The order of byte strings. *)
Fixpoint bytes_leb (a b : bytes) : bool :=
  match a, b with
  | [], _ => true
  | _ :: _, [] => false
  | x :: a, y :: b => (b2z x <? b2z y) || ((b2z x =? b2z y) && bytes_leb a b)
  end.

Definition bytes_le (a b : bytes) : Prop := bytes_leb a b = true.

#[export] Instance bytes_le_dec a b : Decision (bytes_le a b).
Proof. unfold bytes_le. apply _. Defined.

Section resolver.
Context (json : bytes -> option ProviderOutput) (remaining_until : bytes -> option Z).

(** [trim_end_matches] of line ends. *)
Definition trim_line_end (v : bytes) : bytes :=
  reverse (skip_while (fun b => is_lf b || bool_decide (b = x0d)) (reverse v)).

Definition parse_provider_output (stdout : bytes) (ttl_ : option Z) (now_ : Z)
    : result Minted MintError :=
  match json stdout with
  | None => Err Failed
  | Some parsed =>
      if negb (version parsed =? 1) then Err Failed else
      let v := trim_line_end (po_value parsed) in
      if bool_decide (v = []) then Err Failed else
      match po_expires_at parsed with
      | Some stamp =>
          match remaining_until stamp with
          | Some left_ => Ok (MkMinted v (Some (now_ + left_)))
          | None => Err Failed
          end
      | None => Ok (MkMinted v (option_map (fun t => now_ + t) ttl_))
      end
  end.

Definition run_provider (w : World) (cmd : list bytes) (ttl_ : option Z) (now_ : Z)
    : result Minted MintError :=
  match cmd with
  | [] => Err Failed
  | _ => let? stdout := run w cmd in parse_provider_output stdout ttl_ now_
  end.

(** A value goes into a header, where a line break would end it. *)
Definition control (b : byte) : bool := (b2z b <? 0x20) || (b2z b =? 0x7f).

Definition provide (p : bytes -> result Provided MintError) (name : bytes) (now_ : Z)
    : result Minted MintError :=
  let? pr := p name in
  if bool_decide (pr_value pr = []) then Err Failed
  else if existsb control (pr_value pr) then Err Failed
  else Ok (MkMinted (pr_value pr)
             (Some (now_ + Z.min (default PROVIDED_MAX_AGE (expires_in pr)) PROVIDED_MAX_AGE))).

(** ** The resolver *)

Record SecretResolver := MkResolver {
  table : gmap bytes SecretConfig;
  placeholders : gmap bytes bytes;
  slots : gmap bytes Slot;
}.

Definition SecretResolver_new (secrets : gmap bytes SecretConfig) (ph : gmap bytes bytes)
    : SecretResolver := MkResolver secrets ph ∅.

(** How the value of a secret is minted, and how early anew. *)
Definition mint_for (w : World) (name : bytes) (s : SecretConfig)
    : option (Z * (Z -> result Minted MintError)) :=
  if provided s then
    let! p := provider w in Some (PROVIDED_REFRESH_WINDOW, provide p name)
  else let! cmd := command s in Some (COMMAND_REFRESH_WINDOW, run_provider w cmd (ttl s)).

Definition cached_slot (r : SecretResolver) (w : World) (name : bytes)
    (how : Z * (Z -> result Minted MintError)) : result (option bytes) MintError * SecretResolver :=
  let slot := default (MkSlot None None) (slots r !! name) in
  let '(res, slot) := cached slot (now w) (fst how) (snd how) in
  (match res with Ok v => Ok (Some v) | Err e => Err e end,
   MkResolver (table r) (placeholders r) (<[name := slot]> (slots r))).

Definition resolve (r : SecretResolver) (w : World) (name : bytes) (s : SecretConfig)
    : result (option bytes) MintError * SecretResolver :=
  match sc_value s, sc_from s with
  | Some v, _ => (Ok (Some v), r)
  | None, Some var => (Ok (env_var w var), r)
  | None, None =>
      match mint_for w name s with
      | Some how => cached_slot r w name how
      | None => (if provided s then Err Failed else Ok None, r)
      end
  end.

(** The loop over the table as it was when the call began. *)
Fixpoint substitutions_loop (r : SecretResolver) (w : World) (domain : bytes)
    (entries : list (bytes * SecretConfig)) (acc : list Substitution)
    : result (list Substitution) MintError * SecretResolver :=
  match entries with
  | [] => (Ok acc, r)
  | (name, s) :: entries =>
      if negb (matches_domain s domain) then substitutions_loop r w domain entries acc else
      match placeholders r !! name with
      | None => substitutions_loop r w domain entries acc
      | Some ph =>
          let '(res, r) := resolve r w name s in
          match res with
          | Err e => (Err e, r)
          | Ok None => substitutions_loop r w domain entries acc
          | Ok (Some v) =>
              substitutions_loop r w domain entries (acc ++ [MkSubstitution ph v (sc_scope s)])
          end
      end
  end.

Definition substitutions_for_domain (r : SecretResolver) (w : World) (domain : bytes)
    (order : list (bytes * SecretConfig)) : result (list Substitution) MintError * SecretResolver :=
  substitutions_loop r w domain order [].

(** A slot stays when its secret is as it was and is not provided. *)
Definition slot_stays (old new : gmap bytes SecretConfig) (name : bytes) : bool :=
  match new !! name with
  | Some s => negb (provided s) && bool_decide (old !! name = Some s)
  | None => false
  end.

(** [update]: the names that wait for the next boot, and the new resolver. *)
Definition resolver_update (r : SecretResolver) (secrets : gmap bytes SecretConfig)
    : list bytes * SecretResolver :=
  let pending := merge_sort bytes_le
    (filter (fun name => ~ is_Some (placeholders r !! name)) (map fst (map_to_list secrets))) in
  let secrets := filter (fun ns => is_Some (placeholders r !! fst ns)) secrets in
  (pending, MkResolver secrets (placeholders r)
     (filter (fun ns => slot_stays (table r) secrets (fst ns) = true) (slots r))).
End resolver.

(** ** Theorems: the cache *)

(** A duration is not negative. *)
Definition slot_wf (s : Slot) : Prop := forall e, entry s = Some e -> 0 <= window e.

Lemma fresh_usable e now : 0 <= window e -> is_fresh e now = true -> is_usable e now = true.
Proof. unfold is_fresh, is_usable. destruct (expires_at e); [|done]. lia. Qed.

Lemma usable_live e now at_ : is_usable e now = true -> expires_at e = Some at_ -> now < at_.
Proof. unfold is_usable. intros H1 H2. rewrite H2 in H1. lia. Qed.

Lemma serve_usable_entry s now err v :
  serve_usable s now err = Ok v ->
  exists e, entry s = Some e /\ v = ce_value e /\ is_usable e now = true.
Proof.
  unfold serve_usable, usable_entry. destruct (entry s) as [e|]; [|done].
  destruct (is_usable e now) eqn:E; [|done]. intros [= <-]. by exists e.
Qed.

(** A secret served is alive. What [cached] returns was minted by this call,
    or is the cached value and has not expired; a fresh value and a recent
    failure never ask the provider; a mint that succeeds replaces the value
    and ends the pause; one that fails starts a pause and leaves the value;
    and a refusal drops the value and returns an error. *)
Theorem cached_serves_live_values s now w mint r s' :
  slot_wf s -> 0 <= w -> cached s now w mint = (r, s') ->
  slot_wf s' /\
  (forall v, r = Ok v ->
     (exists m, mint now = Ok m /\ v = m_value m) \/
     (exists e, entry s = Some e /\ v = ce_value e /\
        forall at_, expires_at e = Some at_ -> now < at_)) /\
  (is_Some (fresh_value s now) \/ paused s now = true ->
     s' = s /\ forall mint', cached s now w mint' = (r, s')) /\
  (fresh_value s now = None -> paused s now = false ->
     match mint now with
     | Ok m => r = Ok (m_value m) /\ failed_at s' = None /\
               entry s' = Some (CacheEntry_new (m_value m) now (m_expires_at m) w)
     | Err Refused => r = Err Refused /\ failed_at s' = Some now /\ entry s' = None
     | Err Failed => failed_at s' = Some now /\ entry s' = entry s
     end).
Proof.
  intros Hwf Hw. unfold cached. destruct (fresh_value s now) as [x|] eqn:Ef.
  { intros [= <- <-]. unfold fresh_value in Ef. destruct (entry s) as [e|] eqn:Ee; [|done].
    destruct (is_fresh e now) eqn:Efr; [|done]. injection Ef as <-. apply fresh_usable in Efr; [|by apply Hwf].
    split_and!; [done| |done|done]. intros v [= <-]. right. exists e. split_and!; try done.
    intros at_. by apply usable_live. }
  destruct (paused s now) eqn:Ep.
  { intros [= <- <-]. split_and!; [done| |done|done]. intros v Hv. right.
    destruct (serve_usable_entry _ _ _ _ Hv) as (e & He & -> & Hu). exists e. split_and!; try done.
    intros at_. by apply usable_live. }
  destruct (mint now) as [m|err] eqn:Em; intros [= <- <-]; (split; [|split; [|split]]).
  - intros e [= <-]. simpl. destruct (m_expires_at m); [|done].
    apply Z.min_glb; [done|]. apply Z.div_pos; lia.
  - intros v [= <-]. left. by exists m.
  - intros [[]|]; done.
  - done.
  - destruct err; [done|exact Hwf].
  - intros v Hv. right. destruct (serve_usable_entry _ _ _ _ Hv) as (e & He & -> & Hu). exists e.
    split_and!; [by destruct err|done|]. intros at_. by apply usable_live.
  - intros [[]|]; done.
  - intros _ _. by destruct err.
Qed.

(** A value in its refresh window while the provider fails: it is served, and
    not asked for again until the pause is over. *)
Lemma cached_serves_live_values_witness :
  let s := MkSlot (Some (MkEntry (str "v") (Some (secs 100)) (secs 60))) None in
  exists s', cached s (secs 50) (secs 60) (fun _ => Err Failed) = (Ok (str "v"), s') /\
    failed_at s' = Some (secs 50).
Proof.
  intros s. destruct (cached s (secs 50) (secs 60) (fun _ => Err Failed)) as [r s'] eqn:E.
  destruct (cached_serves_live_values s (secs 50) (secs 60) (fun _ => Err Failed) r s') as (_ & _ & _ & H);
    [intros e [= <-]; vm_compute; congruence|vm_compute; congruence|exact E|].
  exists s'. split; [|by apply H]. revert E. vm_compute. intros [= <- <-]. reflexivity.
Defined.

(** ** Theorems: the resolver *)

Section resolution.
Context (json : bytes -> option ProviderOutput) (remaining_until : bytes -> option Z).
Local Abbreviation resolve_in := (resolve json remaining_until).
Local Abbreviation loop_in := (substitutions_loop json remaining_until).
Local Abbreviation substitutions_in := (substitutions_for_domain json remaining_until).

Lemma resolve_keeps r w name s res r' :
  resolve_in r w name s = (res, r') -> table r' = table r /\ placeholders r' = placeholders r.
Proof.
  unfold resolve, cached_slot. repeat case_match; intros [= <- <-]; done.
Qed.







(** *** The cache follows the table *)

(** What happens to a resolver: a connection resolves the secrets of its
    domain, or the table is replaced. *)
Inductive Op :=
  | OpConnect (w : World) (domain : bytes) (order : list (bytes * SecretConfig))
  | OpUpdate (secrets : gmap bytes SecretConfig).

Definition apply_op (r : SecretResolver) (op : Op) : SecretResolver :=
  match op with
  | OpConnect w domain order => snd (substitutions_in r w domain order)
  | OpUpdate secrets => snd (resolver_update r secrets)
  end.

(** [order] is an order of the table at the time. *)
Fixpoint ops_ok (r : SecretResolver) (ops : list Op) : Prop :=
  match ops with
  | [] => True
  | op :: ops =>
      match op with OpConnect _ _ order => order ≡ₚ map_to_list (table r) | OpUpdate _ => True end /\
      ops_ok (apply_op r op) ops
  end.

(** What holds of the values minted for a secret. *)
Context (P : SecretConfig -> bytes -> bytes -> Prop).

Definition minted_right : Prop := forall w name s wd mint m,
  mint_for json remaining_until w name s = Some (wd, mint) -> mint (now w) = Ok m -> P s name (m_value m).

Definition cache_right (r : SecretResolver) : Prop :=
  map_Forall (fun name slot => forall e, entry slot = Some e ->
    exists s, table r !! name = Some s /\ P s name (ce_value e)) (slots r).

Lemma cached_entry s now w mint r s' e :
  cached s now w mint = (r, s') -> entry s' = Some e ->
  entry s = Some e \/ exists m, mint now = Ok m /\ ce_value e = m_value m.
Proof.
  unfold cached. destruct (fresh_value s now); [intros [= <- <-]; by left|].
  destruct (paused s now); [intros [= <- <-]; by left|].
  destruct (mint now) as [m|[]]; intros [= <- <-]; simpl; [|done|by left].
  intros [= <-]. right. by exists m.
Qed.

Lemma resolve_right r w name s res r' :
  minted_right -> cache_right r -> table r !! name = Some s ->
  resolve_in r w name s = (res, r') -> cache_right r'.
Proof.
  intros HP Hr Hs. unfold resolve. destruct (sc_value s); [by intros [= <- <-]|].
  destruct (sc_from s); [by intros [= <- <-]|].
  destruct (mint_for json remaining_until w name s) as [[wd mint]|] eqn:Em; [|by intros [= <- <-]].
  unfold cached_slot. destruct (cached _ _ _ _) as [rv slot] eqn:Ec. intros [= <- <-].
  unfold cache_right. cbn [slots table]. apply map_Forall_insert_2; [|exact Hr].
  intros e He. exists s. split; [done|].
  destruct (cached_entry _ _ _ _ _ _ _ Ec He) as [He'|(m & Hm & ->)]; [|by eapply HP].
  destruct (slots r !! name) as [slot0|] eqn:Esl; [|done].
  destruct (Hr name slot0 Esl e He') as (s' & Hs' & HPe). congruence.
Qed.

Lemma loop_right w domain entries : forall r acc,
  minted_right -> cache_right r -> Forall (fun ns => table r !! fst ns = Some (snd ns)) entries ->
  cache_right (snd (loop_in r w domain entries acc)).
Proof.
  induction entries as [|[name s] entries IH]; intros r acc HP Hr HF; [done|].
  apply Forall_cons_1 in HF as [Hs HF]. cbn [substitutions_loop].
  case_test; [by apply IH|]. destruct (placeholders r !! name); [|by apply IH].
  destruct (resolve_in r w name s) as [res r1] eqn:Er.
  pose proof (resolve_right _ _ _ _ _ _ HP Hr Hs Er) as Hr1.
  apply resolve_keeps in Er as [Ht _].
  destruct res as [[v|]|]; [apply IH|apply IH|]; rewrite ?Ht; done.
Qed.

Lemma update_right r secrets : cache_right r -> cache_right (snd (resolver_update r secrets)).
Proof.
  intros Hr. unfold cache_right, resolver_update. cbn [snd slots table].
  intros name slot Hslot e He. apply map_lookup_filter_Some in Hslot as [Hslot Hkeep]. cbn [fst] in Hkeep.
  destruct (Hr name slot Hslot e He) as (s & Hs & HPs). unfold slot_stays in Hkeep.
  destruct (filter _ secrets !! name) as [s'|]; [|done].
  apply andb_true_iff in Hkeep as [_ Hk]. apply bool_decide_eq_true in Hk. exists s'. split; [done|].
  congruence.
Qed.

(** A cached value was minted for the secret the table has now. Whatever the
    order of connections and updates, if what is minted for a secret is right
    for it, every value in the cache is right for the secret of its name in
    the current table: a value of a secret that changed, or went, is never
    kept. *)
Theorem cache_follows_table secrets ph ops :
  minted_right -> ops_ok (SecretResolver_new secrets ph) ops ->
  cache_right (fold_left apply_op ops (SecretResolver_new secrets ph)).
Proof.
  intros HP. assert (Hr : cache_right (SecretResolver_new secrets ph)) by apply map_Forall_empty.
  revert Hr. generalize (SecretResolver_new secrets ph). induction ops as [|op ops IH]; intros r Hr Hok; [done|].
  destruct Hok as [Hop Hok]. simpl. apply IH; [|done].
  destruct op as [w domain order|secrets']; [|by apply update_right].
  apply loop_right; [done|done|]. apply Forall_forall. intros [name s] Hin. simpl.
  apply elem_of_map_to_list. by rewrite <-Hop.
Qed.
End resolution.

(** ** Concrete resolvers *)

(** Commands print what they are, and live an hour. *)
Definition demo_json (stdout : bytes) : option ProviderOutput := Some (MkOutput 1 stdout None).
Definition demo_world (t : Z) : World :=
  MkWorld t (fun _ => None) None (fun cmd => Ok (mjoin cmd)).
Definition demo_command (c : string) (host : string) : SecretConfig :=
  MkSecret None (Some [str c]) (Some (secs 3600)) [str host] None false ScopeHead.
Definition demo_literal (v host : string) : SecretConfig :=
  MkSecret None None None [str host] (Some (str v)) false ScopeAuthorization.
Definition demo_table : gmap bytes SecretConfig :=
  {[ str "A" := demo_literal "lit" "a.com"; str "B" := demo_command "old" "*.b.com" ]}.
Definition demo_placeholders : gmap bytes bytes := {[ str "A" := str "pa"; str "B" := str "pb" ]}.
Definition demo_resolver : SecretResolver := SecretResolver_new demo_table demo_placeholders.


(** The value of a command is dropped when the command changes. *)
Lemma cache_follows_table_witness :
  let new := {[ str "B" := demo_command "new" "*.b.com" ]} : gmap bytes SecretConfig in
  let ops := [OpConnect (demo_world 0) (str "x.b.com") (map_to_list demo_table); OpUpdate new;
              OpConnect (demo_world 1) (str "x.b.com") (map_to_list new)] in
  let r := fold_left (apply_op demo_json (fun _ => None)) ops demo_resolver in
  fmap (fun s => fmap ce_value (entry s)) (slots r !! str "B") = Some (Some (str "new")) /\
  cache_right (fun s name v => exists w wd mint m,
    mint_for demo_json (fun _ => None) w name s = Some (wd, mint) /\ mint (now w) = Ok m /\
    v = m_value m) r.
Proof.
  intros new ops r. split; [vm_compute; reflexivity|].
  apply (cache_follows_table demo_json (fun _ => None) (fun s name v => exists w wd mint m,
    mint_for demo_json (fun _ => None) w name s = Some (wd, mint) /\ mint (now w) = Ok m /\
    v = m_value m) demo_table demo_placeholders ops).
  - intros w name s wd mint m H1 H2. by exists w, wd, mint, m.
  - split; [reflexivity|]. split; [exact I|]. split; [|exact I].
    assert (Ht : table (apply_op demo_json (fun _ => None) (apply_op demo_json (fun _ => None) demo_resolver
      (OpConnect (demo_world 0) (str "x.b.com") (map_to_list demo_table))) (OpUpdate new)) = new)
      by (vm_compute; reflexivity). by rewrite <-Ht.
Defined.

(** A connection that began before an update can still cache a value of the
    old secret after it: it goes on with the table it read, and the slot it
    makes is the one later connections find. They are served the old value
    though the table has the new secret. *)
Theorem stale_value_outlives_update :
  let new := {[ str "B" := demo_command "new" "*.b.com" ]} : gmap bytes SecretConfig in
  let r := snd (resolver_update demo_resolver new) in
  let '(late, r) := resolve demo_json (fun _ => None) r (demo_world 0) (str "B") (demo_command "old" "*.b.com") in
  table r = new /\
  fst (substitutions_for_domain demo_json (fun _ => None) r (demo_world 1) (str "x.b.com") (map_to_list new))
  = Ok [MkSubstitution (str "pb") (str "old") ScopeHead].
Proof. vm_compute. split; reflexivity. Qed.
