(* ===== verification/SessionTypes.v ===== *)
(** * The state of the session loop

    The data of [crates/shuru-guest/src/sessions/event_loop.rs] and
    [sessions/mod.rs]: sessions, attachments, the descriptors in epoll, the
    commands of other threads, and the kernel the loop talks to.

    The kernel is [Os]: the answers its calls will give, in order, the clock,
    which stands still within a turn of the loop, the two global counters,
    and a log of what the loop did. An exhausted script answers [EAGAIN].
    Descriptors have no number: a call names the session or attachment it is
    for. *)

From Stdlib Require Import Strings.Byte Strings.String.
From stdpp Require Import gmap.
From S2P Require Import Prelude Frame Ring.

Definition READ_CHUNK : Z := 64 * 1024.
Definition SEND_LOW : Z := 64 * 1024.
Definition STDIN_QUEUE : Z := 256 * 1024.
Definition seconds (n : Z) : Z := n * 1000.
Definition KEEP_EXITED : Z := seconds 600.
Definition MAX_EXITED : Z := 64.
Definition MAX_ATTACHMENTS : Z := 256.
Definition MAX_PER_SESSION : Z := 16.
Definition KILL_TIMEOUT : Z := 10.
Definition MAX_KILL_TIMEOUT : Z := 24 * 3600.
Definition MAX_KILLS : Z := 16.
Definition REAP_RETRY : Z := 5.
Definition SIGKILL_WAIT : Z := seconds 5.
Definition KILL_TICK : Z := 20.
Definition SWEEP_TICK : Z := seconds 1.
Definition RATE_WINDOW : Z := 10.
Definition PORT_EVENT_ROOM : Z := 4 * SEND_LOW.
Definition SHOWN_COMMAND : Z := 2048.
Definition SHOWN_WORKDIR : Z := 1024.

(** Epoll flags of Linux. *)
Definition WAKE : Z := 0.
Definition IN : Z := 0x1.
Definition OUT : Z := 0x4.
Definition RDHUP : Z := 0x2000.
Definition HUP : Z := Z.lor 0x10 0x8.

Definition SIGHUP : Z := 1.
Definition SIGKILL : Z := 9.
Definition SIGTERM : Z := 15.

(** ** The kernel *)

Inductive Errno := EAGAIN | EINTR | EOTHER.

(** Text is its characters, as code points. *)
Definition text : Type := list Z.

(** [bytes_per_second] is a tenth of [si_bytes_per_window]. *)
Record SessionInfo := MkInfo {
  si_id : Z;
  si_command : list text;
  si_workdir : text;
  si_tty : bool;
  si_created : Z;
  si_is_active : bool;
  si_last_activity : Z;
  si_bytes_per_window : Z;
  si_size : option (Z * Z);
  si_exit_code : option Z;
  si_is_owner : bool;
  si_output_offset : Z;
}.

(** The messages of kill events are not modelled. *)
Inductive KillEvent :=
  | KeSignal (signal : Z) (name : bytes) (pid : Z)
  | KeTimeout (after : Z)
  | KeExited
  | KeKilled
  | KeError
  | KeComplete (exit_code : Z).

(** What the loop did, oldest first. [EFrame] is a frame taken from an
    attachment, [EQueued] what it added to the input of the process. *)
Inductive Effect :=
  | ERead (sid : Z) (stream : byte) (data : bytes)
  | EStdin (sid : Z) (data : bytes)
  | EStdinClosed (sid : Z)
  | ESent (aid : Z) (data : bytes)
  | EClosed (aid : Z)
  | ESignal (sid signal : Z)
  | EKill (chan : Z) (event : KillEvent)
  | ERefuse (conn : Z)
  | ERecv (aid : Z) (data : bytes)
  | EFrame (aid : Z) (kind : byte) (payload : bytes)
  | EQueued (sid : Z) (payload : bytes)
  | EResized (sid rows cols : Z)
  | EExited (id status : Z)
  | EListed (infos : list SessionInfo).

(** An answer: bytes that can be read (none is the end), a number of bytes
    that can be written, or an error. *)
Inductive Answer :=
  | AnsRead (data : bytes)
  | AnsWrite (n : Z)
  | AnsErr (e : Errno).

#[projections(primitive)]
Record Os := MkOs {
  answers : list Answer;
  ctl_answers : list bool;
  populated_answers : list bool;
  reap_answers : list (bool * list (Z * Z));
  now_ms : Z;
  unix_now : Z;
  running : Z;
  next_id : Z;
  next_chan : Z;
  log : list Effect;
}.

Definition set_answers (x : Os) (v : list Answer) : Os :=
  MkOs v (ctl_answers x) (populated_answers x) (reap_answers x) (now_ms x) (unix_now x) (running x) (next_id x) (next_chan x) (log x).
Definition set_ctl_answers (x : Os) (v : list bool) : Os :=
  MkOs (answers x) v (populated_answers x) (reap_answers x) (now_ms x) (unix_now x) (running x) (next_id x) (next_chan x) (log x).
Definition set_populated_answers (x : Os) (v : list bool) : Os :=
  MkOs (answers x) (ctl_answers x) v (reap_answers x) (now_ms x) (unix_now x) (running x) (next_id x) (next_chan x) (log x).
Definition set_reap_answers (x : Os) (v : list (bool * list (Z * Z))) : Os :=
  MkOs (answers x) (ctl_answers x) (populated_answers x) v (now_ms x) (unix_now x) (running x) (next_id x) (next_chan x) (log x).
Definition set_now_ms (x : Os) (v : Z) : Os :=
  MkOs (answers x) (ctl_answers x) (populated_answers x) (reap_answers x) v (unix_now x) (running x) (next_id x) (next_chan x) (log x).
Definition set_unix_now (x : Os) (v : Z) : Os :=
  MkOs (answers x) (ctl_answers x) (populated_answers x) (reap_answers x) (now_ms x) v (running x) (next_id x) (next_chan x) (log x).
Definition set_running (x : Os) (v : Z) : Os :=
  MkOs (answers x) (ctl_answers x) (populated_answers x) (reap_answers x) (now_ms x) (unix_now x) v (next_id x) (next_chan x) (log x).
Definition set_next_id (x : Os) (v : Z) : Os :=
  MkOs (answers x) (ctl_answers x) (populated_answers x) (reap_answers x) (now_ms x) (unix_now x) (running x) v (next_chan x) (log x).
Definition set_next_chan (x : Os) (v : Z) : Os :=
  MkOs (answers x) (ctl_answers x) (populated_answers x) (reap_answers x) (now_ms x) (unix_now x) (running x) (next_id x) v (log x).
Definition set_log (x : Os) (v : list Effect) : Os :=
  MkOs (answers x) (ctl_answers x) (populated_answers x) (reap_answers x) (now_ms x) (unix_now x) (running x) (next_id x) (next_chan x) v.

(** [read] of at most [room] bytes. *)
Definition sys_read (o : Os) (room : Z) : result bytes Errno * Os :=
  match answers o with
  | [] => (Err EAGAIN, o)
  | AnsRead d :: rest => (Ok (ztake room d), set_answers o rest)
  | AnsWrite _ :: rest => (Err EAGAIN, set_answers o rest)
  | AnsErr e :: rest => (Err e, set_answers o rest)
  end.

(** [write] and [send] of [data], which is not empty: some of it goes. *)
Definition sys_write (o : Os) (data : bytes) : result Z Errno * Os :=
  match answers o with
  | [] => (Err EAGAIN, o)
  | AnsWrite n :: rest => (Ok (Z.max 1 (Z.min n (zlen data))), set_answers o rest)
  | AnsRead _ :: rest => (Err EAGAIN, set_answers o rest)
  | AnsErr e :: rest => (Err e, set_answers o rest)
  end.

(** Calls that only succeed or fail. *)
Definition sys_ok (o : Os) : bool * Os :=
  match ctl_answers o with
  | [] => (true, o)
  | b :: rest => (b, set_ctl_answers o rest)
  end.

Definition sys_populated (o : Os) : bool * Os :=
  match populated_answers o with
  | [] => (true, o)
  | b :: rest => (b, set_populated_answers o rest)
  end.

(** [children::reap_watched]: whether it got the lock, and the children that
    exited with their status. *)
Definition sys_reap (o : Os) : bool * list (Z * Z) * Os :=
  match reap_answers o with
  | [] => (true, [], o)
  | (ok, exits) :: rest => (ok, exits, set_reap_answers o rest)
  end.

Definition os_log (o : Os) (e : Effect) : Os := set_log o (log o ++ [e]).

(** ** Descriptors *)

Inductive Source :=
  | SrcOutput (sid : Z) (stream : byte)
  | SrcStdin (sid : Z)
  | SrcPidfd (sid : Z)
  | SrcAttachment (aid : Z).

Record Watched := MkWatched { w_token : Z; w_events : Z }.

Record Poll := MkPoll { sources : gmap Z Source; poll_next : Z }.

Definition poll_watch (p : Poll) (source : Source) : Watched * Poll :=
  (MkWatched (poll_next p) 0, MkPoll (<[poll_next p := source]> (sources p)) (poll_next p + 1)).

(** [Poll::set]: whether it succeeded. *)
Definition poll_set (o : Os) (w : Watched) (events : Z) : bool * Watched * Os :=
  if events =? w_events w then (true, w, o) else
  let '(ok, o) := sys_ok o in
  (ok, if ok then MkWatched (w_token w) events else w, o).

Definition poll_unwatch (o : Os) (p : Poll) (w : Watched) : Poll * Os :=
  let '(_, _, o) := poll_set o w 0 in
  (MkPoll (delete (w_token w) (sources p)) (poll_next p), o).

(** ** Sessions *)

Record KillWait := MkKillWait {
  kw_events : Z;
  kw_timeout : Z;
  kw_deadline : Z;
  kw_escalated : bool;
}.

#[projections(primitive)]
Record Session := MkSession {
  s_id : Z;
  s_command : list text;
  s_workdir : text;
  s_tty : bool;
  s_created : Z;
  s_pid : Z;
  s_pidfd : option Watched;
  s_stdin : option Watched;
  stdin_queue : bytes;
  stdin_eof : bool;
  s_outputs : list (byte * Watched);
  s_ring : Ring;
  s_exit : option Z;
  finished : option Z;
  s_attachments : list Z;
  s_owner : option Z;
  hangup_after : option Z;
  hangup_at : option Z;
  s_size : option (Z * Z);
  last_activity : Z;
  s_rate : list (Z * Z);
  kills : list KillWait;
}.

Definition set_s_pidfd (x : Session) (v : option Watched) : Session :=
  MkSession (s_id x) (s_command x) (s_workdir x) (s_tty x) (s_created x) (s_pid x) v (s_stdin x) (stdin_queue x) (stdin_eof x) (s_outputs x) (s_ring x) (s_exit x) (finished x) (s_attachments x) (s_owner x) (hangup_after x) (hangup_at x) (s_size x) (last_activity x) (s_rate x) (kills x).
Definition set_s_stdin (x : Session) (v : option Watched) : Session :=
  MkSession (s_id x) (s_command x) (s_workdir x) (s_tty x) (s_created x) (s_pid x) (s_pidfd x) v (stdin_queue x) (stdin_eof x) (s_outputs x) (s_ring x) (s_exit x) (finished x) (s_attachments x) (s_owner x) (hangup_after x) (hangup_at x) (s_size x) (last_activity x) (s_rate x) (kills x).
Definition set_stdin_queue (x : Session) (v : bytes) : Session :=
  MkSession (s_id x) (s_command x) (s_workdir x) (s_tty x) (s_created x) (s_pid x) (s_pidfd x) (s_stdin x) v (stdin_eof x) (s_outputs x) (s_ring x) (s_exit x) (finished x) (s_attachments x) (s_owner x) (hangup_after x) (hangup_at x) (s_size x) (last_activity x) (s_rate x) (kills x).
Definition set_stdin_eof (x : Session) (v : bool) : Session :=
  MkSession (s_id x) (s_command x) (s_workdir x) (s_tty x) (s_created x) (s_pid x) (s_pidfd x) (s_stdin x) (stdin_queue x) v (s_outputs x) (s_ring x) (s_exit x) (finished x) (s_attachments x) (s_owner x) (hangup_after x) (hangup_at x) (s_size x) (last_activity x) (s_rate x) (kills x).
Definition set_s_outputs (x : Session) (v : list (byte * Watched)) : Session :=
  MkSession (s_id x) (s_command x) (s_workdir x) (s_tty x) (s_created x) (s_pid x) (s_pidfd x) (s_stdin x) (stdin_queue x) (stdin_eof x) v (s_ring x) (s_exit x) (finished x) (s_attachments x) (s_owner x) (hangup_after x) (hangup_at x) (s_size x) (last_activity x) (s_rate x) (kills x).
Definition set_s_ring (x : Session) (v : Ring) : Session :=
  MkSession (s_id x) (s_command x) (s_workdir x) (s_tty x) (s_created x) (s_pid x) (s_pidfd x) (s_stdin x) (stdin_queue x) (stdin_eof x) (s_outputs x) v (s_exit x) (finished x) (s_attachments x) (s_owner x) (hangup_after x) (hangup_at x) (s_size x) (last_activity x) (s_rate x) (kills x).
Definition set_s_exit (x : Session) (v : option Z) : Session :=
  MkSession (s_id x) (s_command x) (s_workdir x) (s_tty x) (s_created x) (s_pid x) (s_pidfd x) (s_stdin x) (stdin_queue x) (stdin_eof x) (s_outputs x) (s_ring x) v (finished x) (s_attachments x) (s_owner x) (hangup_after x) (hangup_at x) (s_size x) (last_activity x) (s_rate x) (kills x).
Definition set_finished (x : Session) (v : option Z) : Session :=
  MkSession (s_id x) (s_command x) (s_workdir x) (s_tty x) (s_created x) (s_pid x) (s_pidfd x) (s_stdin x) (stdin_queue x) (stdin_eof x) (s_outputs x) (s_ring x) (s_exit x) v (s_attachments x) (s_owner x) (hangup_after x) (hangup_at x) (s_size x) (last_activity x) (s_rate x) (kills x).
Definition set_s_attachments (x : Session) (v : list Z) : Session :=
  MkSession (s_id x) (s_command x) (s_workdir x) (s_tty x) (s_created x) (s_pid x) (s_pidfd x) (s_stdin x) (stdin_queue x) (stdin_eof x) (s_outputs x) (s_ring x) (s_exit x) (finished x) v (s_owner x) (hangup_after x) (hangup_at x) (s_size x) (last_activity x) (s_rate x) (kills x).
Definition set_s_owner (x : Session) (v : option Z) : Session :=
  MkSession (s_id x) (s_command x) (s_workdir x) (s_tty x) (s_created x) (s_pid x) (s_pidfd x) (s_stdin x) (stdin_queue x) (stdin_eof x) (s_outputs x) (s_ring x) (s_exit x) (finished x) (s_attachments x) v (hangup_after x) (hangup_at x) (s_size x) (last_activity x) (s_rate x) (kills x).
Definition set_hangup_at (x : Session) (v : option Z) : Session :=
  MkSession (s_id x) (s_command x) (s_workdir x) (s_tty x) (s_created x) (s_pid x) (s_pidfd x) (s_stdin x) (stdin_queue x) (stdin_eof x) (s_outputs x) (s_ring x) (s_exit x) (finished x) (s_attachments x) (s_owner x) (hangup_after x) v (s_size x) (last_activity x) (s_rate x) (kills x).
Definition set_s_size (x : Session) (v : option (Z * Z)) : Session :=
  MkSession (s_id x) (s_command x) (s_workdir x) (s_tty x) (s_created x) (s_pid x) (s_pidfd x) (s_stdin x) (stdin_queue x) (stdin_eof x) (s_outputs x) (s_ring x) (s_exit x) (finished x) (s_attachments x) (s_owner x) (hangup_after x) (hangup_at x) v (last_activity x) (s_rate x) (kills x).
Definition set_last_activity (x : Session) (v : Z) : Session :=
  MkSession (s_id x) (s_command x) (s_workdir x) (s_tty x) (s_created x) (s_pid x) (s_pidfd x) (s_stdin x) (stdin_queue x) (stdin_eof x) (s_outputs x) (s_ring x) (s_exit x) (finished x) (s_attachments x) (s_owner x) (hangup_after x) (hangup_at x) (s_size x) v (s_rate x) (kills x).
Definition set_s_rate (x : Session) (v : list (Z * Z)) : Session :=
  MkSession (s_id x) (s_command x) (s_workdir x) (s_tty x) (s_created x) (s_pid x) (s_pidfd x) (s_stdin x) (stdin_queue x) (stdin_eof x) (s_outputs x) (s_ring x) (s_exit x) (finished x) (s_attachments x) (s_owner x) (hangup_after x) (hangup_at x) (s_size x) (last_activity x) v (kills x).
Definition set_kills (x : Session) (v : list KillWait) : Session :=
  MkSession (s_id x) (s_command x) (s_workdir x) (s_tty x) (s_created x) (s_pid x) (s_pidfd x) (s_stdin x) (stdin_queue x) (stdin_eof x) (s_outputs x) (s_ring x) (s_exit x) (finished x) (s_attachments x) (s_owner x) (hangup_after x) (hangup_at x) (s_size x) (last_activity x) (s_rate x) v.

#[projections(primitive)]
Record Attachment := MkAttachment {
  a_session : Z;
  a_sock : Watched;
  a_cursor : Z;
  a_out : bytes;
  a_sent : Z;
  a_inp : bytes;
  a_taken : Z;
  a_blocked : bool;
  a_closing : bool;
}.

Definition set_a_sock (x : Attachment) (v : Watched) : Attachment :=
  MkAttachment (a_session x) v (a_cursor x) (a_out x) (a_sent x) (a_inp x) (a_taken x) (a_blocked x) (a_closing x).
Definition set_a_cursor (x : Attachment) (v : Z) : Attachment :=
  MkAttachment (a_session x) (a_sock x) v (a_out x) (a_sent x) (a_inp x) (a_taken x) (a_blocked x) (a_closing x).
Definition set_a_out (x : Attachment) (v : bytes) : Attachment :=
  MkAttachment (a_session x) (a_sock x) (a_cursor x) v (a_sent x) (a_inp x) (a_taken x) (a_blocked x) (a_closing x).
Definition set_a_sent (x : Attachment) (v : Z) : Attachment :=
  MkAttachment (a_session x) (a_sock x) (a_cursor x) (a_out x) v (a_inp x) (a_taken x) (a_blocked x) (a_closing x).
Definition set_a_inp (x : Attachment) (v : bytes) : Attachment :=
  MkAttachment (a_session x) (a_sock x) (a_cursor x) (a_out x) (a_sent x) v (a_taken x) (a_blocked x) (a_closing x).
Definition set_a_taken (x : Attachment) (v : Z) : Attachment :=
  MkAttachment (a_session x) (a_sock x) (a_cursor x) (a_out x) (a_sent x) (a_inp x) v (a_blocked x) (a_closing x).
Definition set_a_blocked (x : Attachment) (v : bool) : Attachment :=
  MkAttachment (a_session x) (a_sock x) (a_cursor x) (a_out x) (a_sent x) (a_inp x) (a_taken x) v (a_closing x).
Definition set_a_closing (x : Attachment) (v : bool) : Attachment :=
  MkAttachment (a_session x) (a_sock x) (a_cursor x) (a_out x) (a_sent x) (a_inp x) (a_taken x) (a_blocked x) v.

(** Commands of the other threads. A connection and a channel are numbers.
    [st_pid] is the pid of the process that was spawned; [payload] is the
    port event as JSON, if it could be encoded. *)
Record StartReq := MkStart {
  st_command : list text;
  st_cwd : option text;
  st_tty : option bool;
  st_rows : option Z;
  st_cols : option Z;
  st_max_run : option Z;
  st_pid : Z;
}.

Inductive Cmd :=
  | CmdStart (id : Z) (req : StartReq) (conn : Z)
  | CmdAttach (req_id : bytes) (offset : option Z) (take_owner : bool) (conn : Z)
  | CmdList
  | CmdKill (req_id : bytes) (signal : option bytes) (timeout : option Z) (events : Z)
  | CmdExited (id status : Z)
  | CmdPort (id : Z) (payload : option bytes).

#[projections(primitive)]
Record Loop := MkLoop {
  poll : Poll;
  sessions : gmap Z Session;
  attachments : gmap Z Attachment;
  next_attachment : Z;
  early_exits : gmap Z Z;
  dirty_ids : gset Z;
  next_sweep : Z;
  reap_pending : bool;
  cmd_queue : list Cmd;
  os : Os;
}.

Definition set_poll (x : Loop) (v : Poll) : Loop :=
  MkLoop v (sessions x) (attachments x) (next_attachment x) (early_exits x) (dirty_ids x) (next_sweep x) (reap_pending x) (cmd_queue x) (os x).
Definition set_sessions (x : Loop) (v : gmap Z Session) : Loop :=
  MkLoop (poll x) v (attachments x) (next_attachment x) (early_exits x) (dirty_ids x) (next_sweep x) (reap_pending x) (cmd_queue x) (os x).
Definition set_attachments (x : Loop) (v : gmap Z Attachment) : Loop :=
  MkLoop (poll x) (sessions x) v (next_attachment x) (early_exits x) (dirty_ids x) (next_sweep x) (reap_pending x) (cmd_queue x) (os x).
Definition set_next_attachment (x : Loop) (v : Z) : Loop :=
  MkLoop (poll x) (sessions x) (attachments x) v (early_exits x) (dirty_ids x) (next_sweep x) (reap_pending x) (cmd_queue x) (os x).
Definition set_early_exits (x : Loop) (v : gmap Z Z) : Loop :=
  MkLoop (poll x) (sessions x) (attachments x) (next_attachment x) v (dirty_ids x) (next_sweep x) (reap_pending x) (cmd_queue x) (os x).
Definition set_dirty_ids (x : Loop) (v : gset Z) : Loop :=
  MkLoop (poll x) (sessions x) (attachments x) (next_attachment x) (early_exits x) v (next_sweep x) (reap_pending x) (cmd_queue x) (os x).
Definition set_next_sweep (x : Loop) (v : Z) : Loop :=
  MkLoop (poll x) (sessions x) (attachments x) (next_attachment x) (early_exits x) (dirty_ids x) v (reap_pending x) (cmd_queue x) (os x).
Definition set_reap_pending (x : Loop) (v : bool) : Loop :=
  MkLoop (poll x) (sessions x) (attachments x) (next_attachment x) (early_exits x) (dirty_ids x) (next_sweep x) v (cmd_queue x) (os x).
Definition set_cmd_queue (x : Loop) (v : list Cmd) : Loop :=
  MkLoop (poll x) (sessions x) (attachments x) (next_attachment x) (early_exits x) (dirty_ids x) (next_sweep x) (reap_pending x) v (os x).
Definition set_os (x : Loop) (v : Os) : Loop :=
  MkLoop (poll x) (sessions x) (attachments x) (next_attachment x) (early_exits x) (dirty_ids x) (next_sweep x) (reap_pending x) (cmd_queue x) v.
