(* ===== verification/Sessions.v ===== *)
(** * The session loop

    [crates/shuru-guest/src/sessions/event_loop.rs], with the parts of
    [sessions/mod.rs] it uses: the thread that runs every session. It reads
    the output of processes into their rings, sends it to the attachments,
    queues their input, and registers each descriptor with epoll for what it
    can do.

    Every loop over a descriptor takes an answer of the kernel per turn, so
    the answers left are fuel. The order in which a [HashSet] gives its
    elements and the JSON encoder are the parameters [SessionEnv]; the text of
    messages to clients is not modelled. [feed] composes the loop with the
    threads that talk to it. *)

From Stdlib Require Import Strings.Byte Strings.String.
From stdpp Require Import gmap sorting.
From S2P Require Import Prelude Io Text Frame Ring Vsock SessionTypes.

(** [pick] is [iter().next()] of a set, [info_json] is [serde_json::to_vec]. *)
Class SessionEnv := {
  info_json : SessionInfo -> option bytes;
  pick : gset Z -> option Z;
  pick_some X x : pick X = Some x -> x ∈ X;
  pick_none X : pick X = None -> X = ∅;
}.

Definition put_session (l : Loop) (sid : Z) (s : Session) : Loop :=
  set_sessions l (<[sid := s]> (sessions l)).
Definition put_attachment (l : Loop) (aid : Z) (a : Attachment) : Loop :=
  set_attachments l (<[aid := a]> (attachments l)).
Definition mark (l : Loop) (sid : Z) : Loop := set_dirty_ids l ({[sid]} ∪ dirty_ids l).
Definition emit (l : Loop) (e : Effect) : Loop := set_os l (os_log (os l) e).
Definition now (l : Loop) : Z := now_ms (os l).

Definition Loop_watch (l : Loop) (source : Source) : Watched * Loop :=
  let '(w, p) := poll_watch (poll l) source in (w, set_poll l p).
Definition Loop_unwatch (l : Loop) (w : Watched) : Loop :=
  let '(p, o) := poll_unwatch (os l) (poll l) w in set_os (set_poll l p) o.

(** ** What clients are told *)

(** How many bytes a character takes in JSON. *)
Definition len_utf8 (c : Z) : Z :=
  if c <? 0x80 then 1 else if c <? 0x800 then 2 else if c <? 0x10000 then 3 else 4.
Definition json_len (c : Z) : Z :=
  if bool_decide (c ∈ [34; 92; 10; 13; 9; 8; 12]) then 2
  else if c <? 0x20 then 6 else len_utf8 c.

(** The longest prefix that fits, and what is left. *)
Fixpoint clip (s : text) (left_ : Z) : text * Z :=
  match s with
  | [] => ([], left_)
  | c :: s =>
      if left_ <? json_len c then ([], left_)
      else let '(out, left_) := clip s (left_ - json_len c) in (c :: out, left_)
  end.

Fixpoint shown_loop (command : list text) (left_ : Z) : list text :=
  match command with
  | [] => []
  | arg :: rest =>
      if left_ <? 3 then []
      else let '(out, left_) := clip arg (left_ - 3) in out :: shown_loop rest left_
  end.
Definition shown_command (command : list text) : list text := shown_loop command SHOWN_COMMAND.

Definition Session_info (s : Session) (now_ : Z) : SessionInfo :=
  MkInfo (s_id s) (shown_command (s_command s)) (fst (clip (s_workdir s) SHOWN_WORKDIR)) (s_tty s)
    (s_created s) (bool_decide (s_exit s = None)) (last_activity s)
    (fold_right (fun '(sec, n) sum => (if now_ <? sec + RATE_WINDOW then n else 0) + sum) 0 (s_rate s))
    (s_size s) (s_exit s) false 0.

(** ** Input and output of a session *)

Definition Session_output (s : Session) (stream : byte) (data : bytes) (now_ : Z) : Session :=
  let s := set_last_activity (set_s_ring s (Ring_push (s_ring s) stream data)) now_ in
  let i := Z.to_nat (now_ mod RATE_WINDOW) in
  let n := match s_rate s !! i with Some (sec, n) => if sec =? now_ then n else 0 | None => 0 end in
  set_s_rate s (<[i := (now_, n + zlen data)]> (s_rate s)).

Definition Session_claim (s : Session) (aid : Z) : bool * Session :=
  match s_owner s with
  | Some owner => (owner =? aid, s)
  | None => (true, set_s_owner s (Some aid))
  end.

Definition takes_input (s : Session) (aid : Z) : bool :=
  match s_owner s with Some owner => owner =? aid | None => true end.

(** [Iterator::min]. *)
Definition minimum (xs : list Z) : option Z :=
  fold_right (fun x m => Some (match m with Some m => Z.min x m | None => x end)) None xs.

Definition min_cursor (l : Loop) (s : Session) : option Z :=
  minimum (omap (fun aid => a_cursor <$> attachments l !! aid) (s_attachments s)).

Definition Loop_room (l : Loop) (sid : Z) (stream : byte) : Z :=
  match sessions l !! sid with
  | None => 0
  | Some s =>
      match min_cursor l s with
      | None => READ_CHUNK
      | Some keep => Z.min (Ring_room (s_ring s) stream keep) READ_CHUNK
      end
  end.

(** [outputs.iter().position(...)] and [remove]. *)
Fixpoint find_output (stream : byte) (outputs : list (byte * Watched)) : option Watched :=
  match outputs with
  | [] => None
  | (st, w) :: rest => if bool_decide (st = stream) then Some w else find_output stream rest
  end.
Fixpoint remove_output (stream : byte) (outputs : list (byte * Watched)) : list (byte * Watched) :=
  match outputs with
  | [] => []
  | (st, w) :: rest => if bool_decide (st = stream) then rest else (st, w) :: remove_output stream rest
  end.

(** The loop of four reads. *)
Fixpoint read_output_loop (n : nat) (l : Loop) (sid : Z) (stream : byte) : Loop :=
  match n with
  | O => l
  | S n =>
      let room := Loop_room l sid stream in
      match sessions l !! sid with
      | None => l
      | Some s =>
          match find_output stream (s_outputs s) with
          | None => l
          | Some w =>
              if room =? 0 then l else
              let '(r, o) := sys_read (os l) room in
              let l := set_os l o in
              match r with
              | Err EAGAIN => l
              | Err EINTR => read_output_loop n l sid stream
              | Ok ((_ :: _) as data) =>
                  let l := mark (emit (put_session l sid (Session_output s stream data (unix_now o)))
                                      (ERead sid stream data)) sid in
                  if zlen data <? room then l else read_output_loop n l sid stream
              | Ok [] | Err EOTHER =>
                  let l := put_session l sid (set_s_outputs s (remove_output stream (s_outputs s))) in
                  mark (Loop_unwatch l w) sid
              end
          end
      end
  end.
Definition read_output := read_output_loop 4.

(** The writes of [write_stdin]: what is left of the queue, and whether the
    process closed its stdin. A write takes from the first part of the
    deque, which is a part of the queue. *)
Fixpoint stdin_loop (fuel : nat) (sid : Z) (q : bytes) (o : Os) : bytes * bool * Os :=
  match fuel with
  | O => (q, false, o)
  | S fuel =>
      if bool_decide (q = []) then (q, false, o) else
      let '(r, o) := sys_write o q in
      match r with
      | Ok n => stdin_loop fuel sid (zdrop n q) (os_log o (EStdin sid (ztake n q)))
      | Err EAGAIN => (q, false, o)
      | Err EINTR => stdin_loop fuel sid q o
      | Err EOTHER => ([], true, o)
      end
  end.

Definition answers_fuel (o : Os) : nat := S (length (answers o)).

Definition write_stdin (l : Loop) (sid : Z) : Loop :=
  match sessions l !! sid with
  | None => l
  | Some s =>
      match s_stdin s with
      | None => l
      | Some w =>
          let '(q, closed, o) := stdin_loop (answers_fuel (os l)) sid (stdin_queue s) (os l) in
          let s := set_stdin_queue s q in
          let l := set_os l o in
          let l := if closed : bool
                   then emit (Loop_unwatch (put_session l sid (set_s_stdin s None)) w) (EStdinClosed sid)
                   else put_session l sid s in
          mark l sid
      end
  end.

(** ** Detaching *)

(** An [Instant] holds 63 bits of seconds. *)
Definition after (now_ d : Z) : option Z :=
  if now_ + d <? seconds (2 ^ 63) then Some (now_ + d) else None.

Definition detach_session (s : Session) (aid now_ : Z) : Session :=
  let s := set_s_attachments s (filter (fun other => other <> aid) (s_attachments s)) in
  let s := if bool_decide (s_owner s = Some aid) then set_s_owner s None else s in
  if bool_decide (s_attachments s = []) && bool_decide (finished s = None)
  then set_hangup_at s (let! d := hangup_after s in after now_ d) else s.

Definition Loop_detach (l : Loop) (aid : Z) : Loop :=
  match attachments l !! aid with
  | None => l
  | Some a =>
      let l := emit (Loop_unwatch (set_attachments l (delete aid (attachments l))) (a_sock a)) (EClosed aid) in
      match sessions l !! a_session a with
      | None => l
      | Some s =>
          mark (put_session l (a_session a) (detach_session s aid (now l))) (a_session a)
      end
  end.

(** ** Input of an attachment *)

Definition Loop_resize (l : Loop) (sid : Z) (s : Session) (rows cols : Z) : Session * Loop :=
  match s_stdin s with
  | None => (s, l)
  | Some _ =>
      let '(ok, o) := sys_ok (os l) in
      let l := set_os l o in
      if ok then (set_s_size s (Some (rows, cols)), emit l (EResized sid rows cols)) else (s, l)
  end.

(** The effect of one frame on the session. *)
Definition take_frame (l : Loop) (sid aid : Z) (s : Session) (kind : byte) (payload : bytes)
    : Session * Loop :=
  if bool_decide (kind = STDIN) then
    let '(mine, s) := Session_claim s aid in
    if mine && bool_decide (is_Some (s_stdin s))
    then (set_last_activity (set_stdin_queue s (stdin_queue s ++ payload)) (unix_now (os l)),
          emit l (EQueued sid payload))
    else (s, l)
  else if bool_decide (kind = STDIN_EOF) then
    let '(mine, s) := Session_claim s aid in
    (if mine : bool then set_stdin_eof s true else s, l)
  else if bool_decide (kind = RESIZE) then
    match parse_resize payload with
    | Some (rows, cols) =>
        if s_tty s then
          let '(mine, s) := Session_claim s aid in
          if mine : bool then Loop_resize l sid s rows cols else (s, l)
        else (s, l)
    | None => (s, l)
    end
  else if bool_decide (kind = KILL) then (s, emit l (ESignal sid SIGTERM))
  else (s, l).

(** Every turn but the last takes the five bytes of a header. *)
Fixpoint take_input_loop (fuel : nat) (l : Loop) (aid : Z) : Loop :=
  match fuel with
  | O => l
  | S fuel =>
      match attachments l !! aid with
      | None => l
      | Some a =>
          let sid := a_session a in
          let pending := zdrop (a_taken a) (a_inp a) in
          if zlen pending <? 5 then l else
          let len := be_val (ztake 4 pending) in
          if (len =? 0) || (MAX_FRAME <? len) then Loop_detach l aid else
          if zlen pending <? 4 + len then l else
          let kind := default x00 (znth pending 4) in
          match sessions l !! sid with
          | None => l
          | Some s =>
              if bool_decide (kind = STDIN) && takes_input s aid && (STDIN_QUEUE <=? zlen (stdin_queue s))
              then put_attachment l aid (set_a_blocked a true)
              else
                let payload := zslice 5 (4 + len) pending in
                let '(s, l) := take_frame (emit l (EFrame aid kind payload)) sid aid s kind payload in
                let a := set_a_taken (set_a_blocked a false) (a_taken a + (4 + len)) in
                take_input_loop fuel (mark (put_attachment (put_session l sid s) aid a) sid) aid
          end
      end
  end.
Definition take_input (l : Loop) (aid : Z) : Loop :=
  match attachments l !! aid with
  | None => l
  | Some a => take_input_loop (S (length (a_inp a))) l aid
  end.

(** The reads of [read_input]: the attachment, and whether the peer ended. *)
Fixpoint input_loop (fuel : nat) (aid : Z) (a : Attachment) (o : Os) : Attachment * bool * Os :=
  match fuel with
  | O => (a, false, o)
  | S fuel =>
      if negb (a_blocked a) && (zlen (a_inp a) - a_taken a <=? MAX_FRAME + 4) then
        let a := if 0 <? a_taken a then set_a_taken (set_a_inp a (zdrop (a_taken a) (a_inp a))) 0 else a in
        let '(r, o) := sys_read o READ_CHUNK in
        match r with
        | Ok ((_ :: _) as data) => 
            input_loop fuel aid (set_a_inp a (a_inp a ++ data)) (os_log o (ERecv aid data))
        | Err EAGAIN => (a, false, o)
        | Err EINTR => input_loop fuel aid a o
        | Ok [] | Err EOTHER => (a, true, o)
        end
      else (a, false, o)
  end.

Definition read_input (l : Loop) (aid : Z) : Loop :=
  match attachments l !! aid with
  | None => l
  | Some a =>
      let '(a, ended, o) := input_loop (answers_fuel (os l)) aid a (os l) in
      let l := take_input (put_attachment (set_os l o) aid a) aid in
      if ended : bool then Loop_detach l aid else l
  end.

(** ** Output of an attachment *)

(** A call either reaches the end of the ring or gives [SEND_LOW] bytes, so
    one turn is enough and the second ends the loop. *)
Fixpoint fill_frames_loop (fuel : nat) (a : Attachment) (r : Ring) : Attachment :=
  match fuel with
  | O => a
  | S fuel =>
      if (zlen (a_out a) <? SEND_LOW) && (a_cursor a <? ring_end r) then
        let '(cursor, out) := Ring_frames 0 r (a_cursor a) SEND_LOW (a_out a) in
        fill_frames_loop fuel (set_a_out (set_a_cursor a cursor) out) r
      else a
  end.

(** Frames written to a vector. *)
Definition push_frame (out : bytes) (kind : byte) (payload : bytes) : bytes :=
  out ++ frame_bytes kind payload.

Definition Loop_fill (l : Loop) (aid : Z) : Loop :=
  match attachments l !! aid with
  | None => l
  | Some a =>
      match sessions l !! a_session a with
      | None => l
      | Some s =>
          let a := if 0 <? a_sent a then set_a_sent (set_a_out a (zdrop (a_sent a) (a_out a))) 0 else a in
          let a := fill_frames_loop 2 a (s_ring s) in
          let a := if bool_decide (is_Some (finished s)) && negb (a_closing a)
                      && (a_cursor a =? ring_end (s_ring s))
                   then set_a_closing (set_a_out a
                          (push_frame (a_out a) EXIT (exit_payload (default 1 (s_exit s))))) true
                   else a in
          put_attachment l aid a
      end
  end.

(** The sends of [flush]: how much is sent, and whether the peer failed. *)
Fixpoint flush_loop (fuel : nat) (aid : Z) (out : bytes) (sent : Z) (o : Os) : Z * bool * Os :=
  match fuel with
  | O => (sent, false, o)
  | S fuel =>
      if sent <? zlen out then
        let data := zdrop sent out in
        let '(r, o) := sys_write o data in
        match r with
        | Ok n => flush_loop fuel aid out (sent + n) (os_log o (ESent aid (ztake n data)))
        | Err EAGAIN => (sent, false, o)
        | Err EINTR => flush_loop fuel aid out sent o
        | Err EOTHER => (sent, true, o)
        end
      else (sent, false, o)
  end.

Definition Loop_flush (l : Loop) (aid : Z) : Loop :=
  match attachments l !! aid with
  | None => l
  | Some a =>
      let '(sent, failed, o) := flush_loop (answers_fuel (os l)) aid (a_out a) (a_sent a) (os l) in
      let l := put_attachment (set_os l o) aid (set_a_sent a sent) in
      if failed || (a_closing a && (sent =? zlen (a_out a))) then Loop_detach l aid else l
  end.

(** ** Signals and exit codes *)

(** [WIFEXITED], [WEXITSTATUS], [WIFSIGNALED] and [WTERMSIG] of Linux. *)
Definition WTERMSIG (status : Z) : Z := Z.land status 0x7f.
Definition WIFEXITED (status : Z) : bool := WTERMSIG status =? 0.
Definition WEXITSTATUS (status : Z) : Z := Z.land (Z.shiftr status 8) 0xff.
Definition WIFSIGNALED (status : Z) : bool :=
  negb (WTERMSIG status =? 0) && negb (WTERMSIG status =? 0x7f).

Definition exit_code (status : Z) : Z :=
  if WIFEXITED status then WEXITSTATUS status
  else if WIFSIGNALED status then 128 + WTERMSIG status else 1.

Definition SIGNALS : list (bytes * Z) :=
  [(str "HUP", 1); (str "INT", 2); (str "QUIT", 3); (str "KILL", 9); (str "USR1", 10);
   (str "USR2", 12); (str "TERM", 15); (str "CONT", 18); (str "STOP", 19); (str "TSTP", 20)].

(** [str::parse::<i32>]. *)
Definition parse_i32 (s : bytes) : option Z :=
  let '(neg, ds) := match s with
    | x2d :: ds => (true, ds)
    | x2b :: ds => (false, ds)
    | _ => (false, s)
    end in
  if bool_decide (ds = []) || negb (forallb digit ds) then None else
  let! n := u64_digits 10 0 ds in
  let n := if neg : bool then - n else n in
  if (- 2 ^ 31 <=? n) && (n <? 2 ^ 31) then Some n else None.

Definition to_ascii_uppercase (b : byte) : byte :=
  if in_range 97 122 b then z2b (b2z b - 32) else b.

Definition strip_prefix (p s : bytes) : bytes :=
  if bool_decide (take (length p) s = p) then drop (length p) s else s.

Definition parse_signal (name : bytes) : option (Z * bytes) :=
  match parse_i32 name with
  | Some n =>
      if (1 <=? n) && (n <=? 64) then
        Some (n, match List.find (fun '(_, s) => s =? n) SIGNALS with
                 | Some (k, _) => str "SIG" ++ k
                 | None => decimal n
                 end)
      else None
  | None =>
      let bare := strip_prefix (str "SIG") (map to_ascii_uppercase name) in
      match List.find (fun '(k, _) => bool_decide (k = bare)) SIGNALS with
      | Some (k, s) => Some (s, str "SIG" ++ k)
      | None => None
      end
  end.

(** ** Counting the sessions that run

    [RUNNING] is an atomic counter; a failed exchange tries again with the
    value another thread left, so [reserve] takes effect at once. *)

Definition MAX_RUNNING : Z := 128.

Definition reserve (o : Os) : bool * Os :=
  if running o <? MAX_RUNNING then (true, set_running o (running o + 1)) else (false, o).
Definition release (o : Os) : Os := set_running o (running o - 1).

(** ** Commands *)

Section commands.
Context `{SE : SessionEnv}.

Definition refuse (l : Loop) (conn : Z) : Loop :=
  let '(ok, o) := sys_ok (os l) in
  if ok then emit (set_os l o) (ERefuse conn) else set_os l o.

Definition clamp (x lo hi : Z) : Z := if x <? lo then lo else if hi <? x then hi else x.

Definition with_owner_offset (i : SessionInfo) (is_owner : bool) (offset : Z) : SessionInfo :=
  MkInfo (si_id i) (si_command i) (si_workdir i) (si_tty i) (si_created i) (si_is_active i)
    (si_last_activity i) (si_bytes_per_window i) (si_size i) (si_exit_code i) is_owner offset.

Definition Loop_attach (l : Loop) (sid conn : Z) (offset : option Z) (take_owner : bool) : Loop :=
  match sessions l !! sid with
  | None => l
  | Some s =>
      if (MAX_PER_SESSION <=? zlen (s_attachments s)) ||
         (MAX_ATTACHMENTS <=? Z.of_nat (size (attachments l)))
      then refuse l conn else
      let cursor := clamp (default 0 offset) (ring_start (s_ring s)) (ring_end (s_ring s)) in
      let aid := next_attachment l in
      let is_owner := take_owner || bool_decide (s_owner s = None) in
      let info := with_owner_offset (Session_info s (unix_now (os l))) is_owner cursor in
      match info_json info with
      | None => l
      | Some payload =>
          let out := push_frame [] SESSION_INFO payload in
          let '(ok, o) := sys_ok (os l) in
          let l := set_os l o in
          if negb ok then l else
          let l := set_next_attachment l (aid + 1) in
          let s := if is_owner then set_s_owner s (Some aid) else s in
          let s := set_hangup_at (set_s_attachments s (s_attachments s ++ [aid])) None in
          let '(sock, l) := Loop_watch (put_session l sid s) (SrcAttachment aid) in
          mark (put_attachment l aid (MkAttachment sid sock cursor out 0 [] 0 false false)) sid
      end
  end.

(** The descriptors [process::spawn] gives: a terminal is one output. *)
Definition spawned_outputs (tty : bool) : list byte := if tty then [STDOUT] else [STDOUT; STDERR].

Fixpoint watch_outputs (l : Loop) (id : Z) (streams : list byte) : list (byte * Watched) * Loop :=
  match streams with
  | [] => ([], l)
  | stream :: rest =>
      let '(w, l) := Loop_watch l (SrcOutput id stream) in
      let '(ws, l) := watch_outputs l id rest in
      ((stream, w) :: ws, l)
  end.

(** The session is in the table before anything is attached to it. *)
Definition insert_session (l : Loop) (id : Z) (req : StartReq) : Loop :=
  let tty := default false (st_tty req) in
  let '(pidfd, l) := Loop_watch l (SrcPidfd id) in
  let '(stdin, l) := Loop_watch l (SrcStdin id) in
  let '(outputs, l) := watch_outputs l id (spawned_outputs tty) in
  let session :=
    MkSession id (st_command req) (default [47] (st_cwd req)) tty (unix_now (os l)) (st_pid req)
      (Some pidfd) (Some stdin) [] false outputs Ring_new None None [] None
      (seconds <$> st_max_run req) None
      (if tty then Some (default 24 (st_rows req), default 80 (st_cols req)) else None)
      (unix_now (os l)) (replicate (Z.to_nat RATE_WINDOW) (0, 0)) [] in
  match early_exits l !! id with
  | Some status =>
      let l := Loop_unwatch (set_early_exits l (delete id (early_exits l))) pidfd in
      put_session l id (set_s_pidfd (set_s_exit session (Some (exit_code status))) None)
  | None => put_session l id session
  end.

Definition Loop_start (l : Loop) (id : Z) (req : StartReq) (conn : Z) : Loop :=
  let l := Loop_attach (insert_session l id req) id conn (Some 0) false in
  let l := match sessions l !! id with
    | Some s =>
        if bool_decide (s_attachments s = [])
        then put_session l id (set_hangup_at s (let! d := hangup_after s in after (now l) d)) else l
    | None => l
    end in
  mark l id.

Definition Loop_exited (l : Loop) (id status : Z) : Loop :=
  let l := emit l (EExited id status) in
  match sessions l !! id with
  | None => set_early_exits l (<[id := status]> (early_exits l))
  | Some s =>
      let s := set_s_exit s (Some (exit_code status)) in
      let l := match s_pidfd s with
        | Some w => Loop_unwatch (put_session l id (set_s_pidfd s None)) w
        | None => put_session l id s
        end in
      mark l id
  end.

Definition port_to (l : Loop) (payload : bytes) (aid : Z) : Loop :=
  match attachments l !! aid with
  | None => l
  | Some a =>
      if negb (a_closing a) && (zlen (a_out a) - a_sent a <? PORT_EVENT_ROOM)
      then put_attachment l aid (set_a_out a (push_frame (a_out a) PORT_EVENT payload)) else l
  end.

Definition Loop_port_event (l : Loop) (sid : Z) (event : option bytes) : Loop :=
  match sessions l !! sid with
  | None => l
  | Some s =>
      match event with
      | None => l
      | Some payload => mark (fold_left (fun l aid => port_to l payload aid) (s_attachments s) l) sid
      end
  end.

Definition Loop_kill (l : Loop) (req_id : bytes) (signal : option bytes) (timeout : option Z)
    (events : Z) : Loop :=
  match (let! id := parse_u64 req_id in let! s := sessions l !! id in Some (id, s)) with
  | None => emit l (EKill events KeError)
  | Some (id, s) =>
      match parse_signal (default (str "SIGTERM") signal) with
      | None => emit l (EKill events KeError)
      | Some (signal, name) =>
          let '(populated, o) := sys_populated (os l) in
          let l := set_os l o in
          match s_exit s, populated with
          | Some code, false => emit (emit l (EKill events KeExited)) (EKill events (KeComplete code))
          | _, _ =>
              if MAX_KILLS <=? zlen (kills s) then emit l (EKill events KeError) else
              let l := emit (emit l (ESignal id signal)) (EKill events (KeSignal signal name (s_pid s))) in
              let timeout := Z.min (default KILL_TIMEOUT timeout) MAX_KILL_TIMEOUT in
              put_session l id
                (set_kills s (kills s ++ [MkKillWait events timeout (now l + seconds timeout) false]))
          end
      end
  end.

Definition sorted_ids (m : gmap Z Session) : list Z := merge_sort Z.le (elements (dom m)).

Definition handle (l : Loop) (c : Cmd) : Loop :=
  match c with
  | CmdStart id req conn => Loop_start l id req conn
  | CmdAttach req_id offset take_owner conn =>
      match parse_u64 req_id with
      | Some sid =>
          if bool_decide (is_Some (sessions l !! sid)) then Loop_attach l sid conn offset take_owner
          else refuse l conn
      | None => refuse l conn
      end
  | CmdList =>
      emit l (EListed (map (fun s => Session_info s (unix_now (os l)))
                           (omap (fun id => sessions l !! id) (sorted_ids (sessions l)))))
  | CmdKill req_id signal timeout events => Loop_kill l req_id signal timeout events
  | CmdExited id status => Loop_exited l id status
  | CmdPort id event => Loop_port_event l id event
  end.

(** No command posts another, so one batch empties the queue. What another
    thread posts meanwhile is as if it had been in the batch. *)
Definition commands (l : Loop) : Loop :=
  fold_left handle (cmd_queue l) (set_cmd_queue l []).

(** ** Timers *)

(** Reaped children post their exit. *)
Definition Loop_reap (l : Loop) : Loop :=
  let '(ok, exits, o) := sys_reap (os l) in
  let l := set_reap_pending (set_os l o) (negb ok) in
  if ok then set_cmd_queue l (cmd_queue l ++ map (fun '(id, status) => CmdExited id status) exits)
  else l.

Definition hangup (now_ : Z) (l : Loop) (sid : Z) : Loop :=
  match sessions l !! sid with
  | None => l
  | Some s =>
      match hangup_at s with
      | Some at_ =>
          if at_ <=? now_ then emit (put_session l sid (set_hangup_at s None)) (ESignal sid SIGHUP)
          else l
      | None => l
      end
  end.

(** One wait of a kill: the wait that stays, if it does. *)
Definition kill_step (sid : Z) (done : option Z) (now_ : Z) (o : Os) (w : KillWait)
    : option KillWait * Os :=
  match done with
  | Some code =>
      let o := os_log o (EKill (kw_events w) (if kw_escalated w then KeKilled else KeExited)) in
      (None, os_log o (EKill (kw_events w) (KeComplete code)))
  | None =>
      if now_ <? kw_deadline w then (Some w, o)
      else if negb (kw_escalated w) then
        let o := os_log o (EKill (kw_events w) (KeTimeout (kw_timeout w))) in
        (Some (MkKillWait (kw_events w) (kw_timeout w) (now_ + SIGKILL_WAIT) true),
         os_log o (ESignal sid SIGKILL))
      else (None, os_log o (EKill (kw_events w) KeError))
  end.

Fixpoint kill_waits (sid : Z) (done : option Z) (now_ : Z) (o : Os) (ws : list KillWait)
    : list KillWait * Os :=
  match ws with
  | [] => ([], o)
  | w :: ws =>
      let '(kept, o) := kill_step sid done now_ o w in
      let '(rest, o) := kill_waits sid done now_ o ws in
      (match kept with Some w => w :: rest | None => rest end, o)
  end.

Definition kill_timer (now_ : Z) (l : Loop) (sid : Z) : Loop :=
  match sessions l !! sid with
  | None => l
  | Some s =>
      if bool_decide (kills s = []) then l else
      let '(done, o) := match s_exit s with
        | Some code => let '(populated, o) := sys_populated (os l) in
                       (if populated : bool then None else Some code, o)
        | None => (None, os l)
        end in
      let '(ws, o) := kill_waits sid done now_ o (kills s) in
      put_session (set_os l o) sid (set_kills s ws)
  end.

(** [Ord] of [(Instant, u64)]. *)
Definition ended_le (x y : Z * Z) : Prop := x.1 < y.1 \/ (x.1 = y.1 /\ x.2 <= y.2).
#[export] Instance ended_le_dec : RelDecision ended_le.
Proof. unfold ended_le, RelDecision. intros. apply _. Defined.

Definition ended (l : Loop) : list (Z * Z) :=
  merge_sort ended_le
    (omap (fun id =>
       let! s := sessions l !! id in
       if bool_decide (s_attachments s = []) && bool_decide (kills s = [])
       then (fun at_ => (at_, s_id s)) <$> finished s else None)
     (sorted_ids (sessions l))).

Definition drop_session (l : Loop) (id : Z) : Loop :=
  let l := match sessions l !! id with
    | Some s => fold_left Loop_detach (s_attachments s) l
    | None => l
    end in
  set_dirty_ids (set_sessions l (delete id (sessions l))) (dirty_ids l ∖ {[id]}).

Fixpoint sweep_loop (i excess now_ : Z) (l : Loop) (all : list (Z * Z)) : Loop :=
  match all with
  | [] => l
  | (at_, id) :: all =>
      let l := if (i <? excess) || (KEEP_EXITED <=? saturating_sub now_ at_)
               then drop_session l id else l in
      sweep_loop (i + 1) excess now_ l all
  end.

Definition sweep (l : Loop) (now_ : Z) : Loop :=
  sweep_loop 0 (saturating_sub (zlen (ended l)) MAX_EXITED) now_ l (ended l).

Definition has_kills (l : Loop) : bool :=
  existsb (fun '(_, s) => negb (bool_decide (kills s = []))) (map_to_list (sessions l)).

Definition timers (l : Loop) : Loop :=
  let now_ := now l in
  let l := fold_left (hangup now_) (sorted_ids (sessions l)) l in
  let l := if reap_pending l || has_kills l then
             let l := commands (Loop_reap l) in
             fold_left (kill_timer now_) (sorted_ids (sessions l)) l
           else l in
  if next_sweep l <=? now_ then sweep (set_next_sweep l (now_ + SWEEP_TICK)) now_ else l.

(** ** Bringing sessions up to date *)

Fixpoint set_outputs (o : Os) (outputs : list (byte * Watched)) (rooms : list Z)
    : list (byte * Watched) * Os :=
  match outputs, rooms with
  | (stream, w) :: outputs, room :: rooms =>
      let '(_, w, o) := poll_set o w (if 0 <? room then IN else 0) in
      let '(rest, o) := set_outputs o outputs rooms in
      ((stream, w) :: rest, o)
  | _, _ => (outputs, o)
  end.

Definition set_watched (o : Os) (w : option Watched) (events : Z) : option Watched * Os :=
  match w with
  | Some w => let '(_, w, o) := poll_set o w events in (Some w, o)
  | None => (None, o)
  end.

Definition attachment_events (a : Attachment) (end_ : Z) : Z :=
  let events := RDHUP in
  let events := if a_blocked a then events else Z.lor events IN in
  if (a_sent a <? zlen (a_out a)) || (a_cursor a <? end_) then Z.lor events OUT else events.

Definition register_attachment (end_ : Z) (l : Loop) (aid : Z) : Loop :=
  match attachments l !! aid with
  | None => l
  | Some a =>
      let '(ok, w, o) := poll_set (os l) (a_sock a) (attachment_events a end_) in
      let l := put_attachment (set_os l o) aid (set_a_sock a w) in
      if ok : bool then l else Loop_detach l aid
  end.

Definition register (l : Loop) (sid : Z) : Loop :=
  match sessions l !! sid with
  | None => l
  | Some s =>
      let rooms := map (fun '(stream, _) => Loop_room l sid stream) (s_outputs s) in
      let '(outputs, o) := set_outputs (os l) (s_outputs s) rooms in
      let '(stdin, o) := set_watched o (s_stdin s) (if bool_decide (stdin_queue s = []) then 0 else OUT) in
      let '(pidfd, o) := set_watched o (s_pidfd s) IN in
      let l := put_session (set_os l o) sid
                 (set_s_pidfd (set_s_stdin (set_s_outputs s outputs) stdin) pidfd) in
      fold_left (register_attachment (ring_end (s_ring s))) (s_attachments s) l
  end.

(** The session has finished once its process exited and its output ended. *)
Definition finish (l : Loop) (sid : Z) (s : Session) : Session * Loop :=
  if bool_decide (finished s = None) && bool_decide (is_Some (s_exit s)) && bool_decide (s_outputs s = [])
  then (set_hangup_at (set_finished s (Some (now l))) None, set_os l (release (os l)))
  else (s, l).

Definition close_stdin (l : Loop) (sid : Z) (s : Session) : Loop :=
  let stdin_done := bool_decide (is_Some (finished s)) || (stdin_eof s && bool_decide (stdin_queue s = [])) in
  if stdin_done && negb (s_tty s && bool_decide (finished s = None)) then
    let s := set_stdin_queue s [] in
    match s_stdin s with
    | Some w => emit (Loop_unwatch (put_session l sid (set_s_stdin s None)) w) (EStdinClosed sid)
    | None => put_session l sid s
    end
  else put_session l sid s.

Definition settle_attachment (sid : Z) (l : Loop) (aid : Z) : Loop :=
  let l := Loop_flush (Loop_fill l aid) aid in
  match attachments l !! aid, sessions l !! sid with
  | Some a, Some s =>
      if a_blocked a && (zlen (stdin_queue s) <? STDIN_QUEUE)
      then take_input (put_attachment l aid (set_a_blocked a false)) aid else l
  | _, _ => l
  end.

Definition settle_one (l : Loop) (sid : Z) : Loop :=
  let l := set_dirty_ids l (dirty_ids l ∖ {[sid]}) in
  match sessions l !! sid with
  | None => l
  | Some s =>
      let '(s, l) := finish l sid s in
      let l := close_stdin l sid s in
      register (fold_left (settle_attachment sid) (s_attachments s) l) sid
  end.

Fixpoint settle_loop (fuel : nat) (l : Loop) : Loop :=
  match fuel with
  | O => l
  | S fuel =>
      match pick (dirty_ids l) with
      | None => l
      | Some sid => settle_loop fuel (settle_one l sid)
      end
  end.

(** A session gets dirty again only when an attachment is detached or gives
    a frame of its input. *)
Definition pending_input (a : Attachment) : nat := length (zdrop (a_taken a) (a_inp a)).
Definition settle_fuel (l : Loop) : nat :=
  S (size (dirty_ids l) +
     map_fold (fun _ a n => S (pending_input a) + n)%nat 0%nat (attachments l)).
Definition settle (l : Loop) : Loop := settle_loop (settle_fuel l) l.

(** ** A turn *)

Definition Loop_event (l : Loop) (token flags : Z) : Loop :=
  if token =? WAKE then l else
  match sources (poll l) !! token with
  | None => l
  | Some (SrcOutput sid stream) => read_output l sid stream
  | Some (SrcStdin sid) => write_stdin l sid
  | Some (SrcPidfd sid) =>
      let l := Loop_reap l in
      match sessions l !! sid with
      | Some s =>
          match s_pidfd s with
          | Some w => Loop_unwatch (put_session l sid (set_s_pidfd s None)) w
          | None => l
          end
      | None => l
      end
  | Some (SrcAttachment aid) =>
      match attachments l !! aid with
      | None => l
      | Some a =>
          let sid := a_session a in
          let l := if negb (Z.land flags (Z.lor IN RDHUP) =? 0) then read_input l aid else l in
          let l := if negb (Z.land flags OUT =? 0) then Loop_flush l aid else l in
          let blocked := match attachments l !! aid with Some a => a_blocked a | None => false end in
          let l := if negb (Z.land flags HUP =? 0) || (blocked && negb (Z.land flags RDHUP =? 0))
                   then Loop_detach l aid else l in
          mark l sid
      end
  end.

(** The body of the loop, for the events [epoll_wait] returned. *)
Definition turn (l : Loop) (events : list (Z * Z)) : Loop :=
  let l := fold_left (fun l '(token, flags) => Loop_event l token flags) events l in
  settle (timers (commands l)).

(** How long [epoll_wait] may take, in milliseconds; [-1] is for ever. *)
Definition sooner (next : option Z) (at_ : Z) : option Z :=
  Some (match next with Some n => Z.min n at_ | None => at_ end).

Definition session_due (l : Loop) (next : option Z) (s : Session) : option Z :=
  let next := match hangup_at s with Some at_ => sooner next at_ | None => next end in
  let next := if bool_decide (kills s = []) then next else sooner next (now l + KILL_TICK) in
  if bool_decide (finished s = None) then next else sooner next (next_sweep l).

Definition Loop_timeout (l : Loop) : Z :=
  let next := fold_left (session_due l) (omap (fun id => sessions l !! id) (sorted_ids (sessions l))) None in
  let next := if reap_pending l then sooner next (now l + REAP_RETRY) else next in
  match next with
  | None => -1
  | Some at_ => Z.min (saturating_sub at_ (now l) + 1) (2 ^ 31 - 1)
  end.

(** ** The threads around the loop *)

Definition post (l : Loop) (c : Cmd) : Loop := set_cmd_queue l (cmd_queue l ++ [c]).

(** [start]: whether the cgroup can be created and the process be spawned is
    of the outside. *)
Definition start (l : Loop) (req : StartReq) (conn : Z) (created spawned : bool) : Loop :=
  let '(ok, o) := reserve (os l) in
  let l := set_os l o in
  if negb ok then emit l (ERefuse conn) else
  let id := next_id (os l) in
  let l := set_os l (set_next_id (os l) (id + 1)) in
  if negb created then emit (set_os l (release (os l))) (ERefuse conn)
  else if spawned : bool then post l (CmdStart id req conn)
  else emit (emit (set_os l (release (os l))) (ESignal id SIGKILL)) (ERefuse conn).

Definition kill_events (l : Loop) (req_id : bytes) (signal : option bytes) (timeout : option Z) : Loop :=
  let chan := next_chan (os l) in
  post (set_os l (set_next_chan (os l) (chan + 1))) (CmdKill req_id signal timeout chan).

(** What the loop's environment does. [InKernel] is the passing of time and
    what the kernel will answer next. [InExited] is the reaper thread. *)
Inductive Input :=
  | InStart (req : StartReq) (conn : Z) (created spawned : bool)
  | InAttach (req_id : bytes) (offset : option Z) (take_owner : bool) (conn : Z)
  | InList
  | InKill (req_id : bytes) (signal : option bytes) (timeout : option Z)
  | InPort (id : Z) (event : option bytes)
  | InExited (id status : Z)
  | InKernel (answers_ : list Answer) (ctl_ populated_ : list bool)
      (reap_ : list (bool * list (Z * Z))) (elapsed unix : Z)
  | InTurn (events : list (Z * Z)).

Definition kernel (o : Os) (answers_ : list Answer) (ctl_ populated_ : list bool)
    (reap_ : list (bool * list (Z * Z))) (elapsed unix : Z) : Os :=
  MkOs answers_ ctl_ populated_ reap_ (now_ms o + Z.max 0 elapsed) (Z.max 0 unix)
    (running o) (next_id o) (next_chan o) (log o).

Definition feed (l : Loop) (i : Input) : Loop :=
  match i with
  | InStart req conn created spawned => start l req conn created spawned
  | InAttach req_id offset take_owner conn => post l (CmdAttach req_id offset take_owner conn)
  | InList => post l CmdList
  | InKill req_id signal timeout => kill_events l req_id signal timeout
  | InPort id event => post l (CmdPort id event)
  | InExited id status => post l (CmdExited id status)
  | InKernel a c p r t u => set_os l (kernel (os l) a c p r t u)
  | InTurn events => turn l events
  end.

(** [try_start], at time [t]. *)
Definition Loop_new (t : Z) : Loop :=
  MkLoop (MkPoll ∅ (WAKE + 1)) ∅ ∅ 1 ∅ ∅ t false [] (MkOs [] [] [] [] t 0 0 1 0 []).

Definition feed_all (ins : list Input) (l : Loop) : Loop := fold_left feed ins l.
End commands.
