(* ===== verification/SessionSteps.v ===== *)
(** * The session loop as small steps

    Every handler of the loop is a sequence of the changes [step] lists, each
    to one session or one attachment. A property of the state is checked once
    per change ([closed]); [serve_closed] carries it through the whole loop.

    [X] holds the sessions a handler has open: it has changed them and has
    neither marked them dirty nor registered their descriptors yet. [cs] holds
    the commands taken from the queue and not handled yet. *)

From Stdlib Require Import Strings.Byte Strings.String.
From stdpp Require Import gmap sorting.
From S2P Require Import Prelude Io Text Frame Ring Vsock SessionTypes Sessions.

(** What a call to the kernel leaves as it was. *)
Record same_world (o o' : Os) : Prop := {
  sw_log : log o' = log o;
  sw_now : now_ms o' = now_ms o;
  sw_unix : unix_now o' = unix_now o;
  sw_running : running o' = running o;
  sw_next_id : next_id o' = next_id o;
  sw_next_chan : next_chan o' = next_chan o;
  sw_ctl : ctl_answers o' `suffix_of` ctl_answers o;
}.

#[export] Instance same_world_refl : Reflexive same_world.
Proof. intros o. by split. Qed.
#[export] Instance same_world_trans : Transitive same_world.
Proof. intros o1 o2 o3 [] []. split; try congruence. by etrans. Qed.

(** Effects that are only told: none of the properties follows them. *)
Definition told (e : Effect) : bool :=
  match e with ERefuse _ | EListed _ | ESignal _ _ | EResized _ _ _ => true | _ => false end.

Definition same_token (w w' : Watched) : Prop := w_token w' = w_token w.

Section steps.
Context `{SE : SessionEnv}.

Inductive step (X : gset Z) : Loop -> Loop -> Prop :=
  | St_os l o : same_world (os l) o -> step X l (set_os l o)
  | St_told l e : told e = true -> step X l (emit l e)
  | St_read l sid s stream w data t :
      sessions l !! sid = Some s -> find_output stream (s_outputs s) = Some w ->
      data <> [] -> zlen data <= Loop_room l sid stream -> sid ∈ X ->
      step X l (emit (put_session l sid (Session_output s stream data t)) (ERead sid stream data))
  | St_output_end l sid s stream w :
      sessions l !! sid = Some s -> find_output stream (s_outputs s) = Some w -> sid ∈ X ->
      step X l (Loop_unwatch (put_session l sid
                  (set_s_outputs s (remove_output stream (s_outputs s)))) w)
  | St_stdin l sid s w data rest :
      sessions l !! sid = Some s -> s_stdin s = Some w -> stdin_queue s = data ++ rest -> sid ∈ X ->
      step X l (emit (put_session l sid (set_stdin_queue s rest)) (EStdin sid data))
  | St_stdin_close l sid s w :
      sessions l !! sid = Some s -> s_stdin s = Some w -> sid ∈ X ->
      step X l (emit (Loop_unwatch (put_session l sid
                  (set_s_stdin (set_stdin_queue s []) None)) w) (EStdinClosed sid))
  | St_detach l aid : step X l (Loop_detach l aid)
  | St_recv l aid a data :
      attachments l !! aid = Some a -> a_session a ∈ X ->
      zlen (a_inp a) - a_taken a <= MAX_FRAME + 4 -> zlen data <= READ_CHUNK ->
      step X l (emit (put_attachment l aid (set_a_inp a (a_inp a ++ data))) (ERecv aid data))
  | St_compact_in l aid a :
      attachments l !! aid = Some a ->
      step X l (put_attachment l aid (set_a_taken (set_a_inp a (zdrop (a_taken a) (a_inp a))) 0))
  | St_frame l aid a s kind payload rest s' l' :
      attachments l !! aid = Some a -> sessions l !! a_session a = Some s -> a_session a ∈ X ->
      zdrop (a_taken a) (a_inp a) = frame_bytes kind payload ++ rest -> zlen payload < MAX_FRAME ->
      (kind = STDIN -> takes_input s aid = true -> zlen (stdin_queue s) < STDIN_QUEUE) ->
      take_frame (emit l (EFrame aid kind payload)) (a_session a) aid s kind payload = (s', l') ->
      step X l (put_attachment (put_session l' (a_session a) s') aid
                  (set_a_taken (set_a_blocked a false) (a_taken a + (5 + zlen payload))))
  | St_block l aid a s :
      attachments l !! aid = Some a -> sessions l !! a_session a = Some s -> a_session a ∈ X ->
      STDIN_QUEUE <= zlen (stdin_queue s) ->
      step X l (put_attachment l aid (set_a_blocked a true))
  | St_unblock l aid a :
      attachments l !! aid = Some a -> a_session a ∈ X ->
      step X l (put_attachment l aid (set_a_blocked a false))
  | St_compact_out l aid a :
      attachments l !! aid = Some a -> a_session a ∈ X ->
      step X l (put_attachment l aid (set_a_sent (set_a_out a (zdrop (a_sent a) (a_out a))) 0))
  | St_fill l aid a s cursor out :
      attachments l !! aid = Some a -> sessions l !! a_session a = Some s -> a_session a ∈ X ->
      a_cursor a < ring_end (s_ring s) ->
      Ring_frames 0 (s_ring s) (a_cursor a) SEND_LOW (a_out a) = (cursor, out) ->
      step X l (put_attachment l aid (set_a_out (set_a_cursor a cursor) out))
  | St_exit l aid a s :
      attachments l !! aid = Some a -> sessions l !! a_session a = Some s -> a_session a ∈ X ->
      is_Some (finished s) -> a_closing a = false -> a_cursor a = ring_end (s_ring s) ->
      step X l (put_attachment l aid (set_a_closing (set_a_out a
                  (push_frame (a_out a) EXIT (exit_payload (default 1 (s_exit s))))) true))
  | St_sent l aid a n :
      attachments l !! aid = Some a -> a_session a ∈ X ->
      0 < n -> a_sent a + n <= zlen (a_out a) ->
      step X l (emit (put_attachment l aid (set_a_sent a (a_sent a + n)))
                     (ESent aid (ztake n (zdrop (a_sent a) (a_out a)))))
  | St_port l aid a payload :
      attachments l !! aid = Some a -> a_session a ∈ X -> a_closing a = false ->
      step X l (put_attachment l aid (set_a_out a (push_frame (a_out a) PORT_EVENT payload)))
  | St_exited l id s status :
      sessions l !! id = Some s -> id ∈ X ->
      step X l
        (let s := set_s_exit s (Some (exit_code status)) in
         match s_pidfd s with
         | Some w => Loop_unwatch (put_session (emit l (EExited id status)) id (set_s_pidfd s None)) w
         | None => put_session (emit l (EExited id status)) id s
         end)
  | St_early_exit l id status :
      sessions l !! id = None ->
      step X l (emit (set_early_exits l (<[id := status]> (early_exits l))) (EExited id status))
  | St_pidfd l sid s w :
      sessions l !! sid = Some s -> s_pidfd s = Some w ->
      step X l (Loop_unwatch (put_session l sid (set_s_pidfd s None)) w)
  | St_hangup_at l sid s v :
      sessions l !! sid = Some s -> step X l (put_session l sid (set_hangup_at s v))
  | St_kill_timer l sid t : step X l (kill_timer t l sid)
  | St_drop l id s :
      sessions l !! id = Some s -> is_Some (finished s) -> s_attachments s = [] -> kills s = [] ->
      step X l (set_dirty_ids (set_sessions l (delete id (sessions l))) (dirty_ids l ∖ {[id]}))
  | St_finish l sid s s' l' :
      sessions l !! sid = Some s -> sid ∈ X -> finish l sid s = (s', l') ->
      step X l (close_stdin l' sid s')
  | St_register l sid s outputs stdin pidfd :
      sessions l !! sid = Some s -> sid ∈ X ->
      Forall2 (fun p p' => p'.1 = p.1 /\ same_token p.2 p'.2) (s_outputs s) outputs ->
      option_Forall2 same_token (s_stdin s) stdin -> option_Forall2 same_token (s_pidfd s) pidfd ->
      step X l (put_session l sid (set_s_pidfd (set_s_stdin (set_s_outputs s outputs) stdin) pidfd))
  | St_sock l aid a w :
      attachments l !! aid = Some a -> a_session a ∈ X -> same_token (a_sock a) w ->
      step X l (put_attachment l aid (set_a_sock a w))
  | St_exits l exits :
      step X l (set_cmd_queue l (cmd_queue l ++ map (fun '(id, status) => CmdExited id status) exits))
  | St_reap_pending l b : step X l (set_reap_pending l b)
  | St_next_sweep l t : step X l (set_next_sweep l t).

(** A start and a kill are followed from the request on. *)
Definition tracked (c : Cmd) : bool :=
  match c with CmdStart _ _ _ | CmdKill _ _ _ _ => true | _ => false end.

(** An attachment that was accepted. *)
Inductive attached (sid : Z) : Loop -> Loop -> Prop :=
  | attached_intro l s info payload sock l' is_owner :
      sessions l !! sid = Some s ->
      zlen (s_attachments s) < MAX_PER_SESSION -> Z.of_nat (size (attachments l)) < MAX_ATTACHMENTS ->
      info_json info = Some payload -> si_id info = s_id s ->
      ring_start (s_ring s) <= si_output_offset info <= ring_end (s_ring s) ->
      (is_owner = false -> s_owner s <> None) ->
      Loop_watch (put_session (set_next_attachment l (next_attachment l + 1)) sid
        (set_hangup_at (set_s_attachments
           (if is_owner : bool then set_s_owner s (Some (next_attachment l)) else s)
           (s_attachments s ++ [next_attachment l])) None))
        (SrcAttachment (next_attachment l)) = (sock, l') ->
      attached sid l (put_attachment l' (next_attachment l)
        (MkAttachment sid sock (si_output_offset info) (push_frame [] SESSION_INFO payload)
           0 [] 0 false false)).

Record stable (P : gset Z -> Loop -> Prop) : Prop := {
  st_step X l l' : step X l l' -> P X l -> P X l';
  st_open X sid l : P X l -> P ({[sid]} ∪ X) l;
  st_mark X sid l : P ({[sid]} ∪ X) l -> P X (mark l sid);
}.

(** [K] is what is asked of the kernel's answers to calls that may fail. *)
Record closed (K : list bool -> Prop) (P : list Cmd -> gset Z -> Loop -> Prop) : Prop := {
  cl_stable cs : stable (P cs);
  cl_ids cs X l sid s : P cs X l -> sessions l !! sid = Some s -> s_id s = sid;
  cl_ring cs X l sid s : P cs X l -> sessions l !! sid = Some s ->
    ring_start (s_ring s) <= ring_end (s_ring s);
  cl_owned cs X l sid s aid a : P cs X l -> sessions l !! sid = Some s -> aid ∈ s_attachments s ->
    attachments l !! aid = Some a -> a_session a = sid;
  cl_sent cs X l aid a : P cs X l -> attachments l !! aid = Some a -> 0 <= a_sent a;
  cl_attach cs X sid l l' : attached sid l l' -> sid ∈ X -> P cs X l -> P cs X l';
  cl_settle l sid : P [] ∅ l -> P [] ∅ (settle_one l sid);
  cl_take l : P [] ∅ l -> P (cmd_queue l) ∅ (set_cmd_queue l []);
  cl_skip c cs l : tracked c = false -> P (c :: cs) ∅ l -> P cs ∅ l;
  cl_post c l : tracked c = false -> P [] ∅ l -> P [] ∅ (post l c);
  cl_insert id req conn cs l :
    P (CmdStart id req conn :: cs) ∅ l -> P cs {[id]} (insert_session l id req);
  cl_kill req_id signal timeout chan cs l :
    P (CmdKill req_id signal timeout chan :: cs) ∅ l -> P cs ∅ (Loop_kill l req_id signal timeout chan);
  cl_start l req conn created spawned : P [] ∅ l -> P [] ∅ (start l req conn created spawned);
  cl_kill_events l req_id signal timeout : P [] ∅ l -> P [] ∅ (kill_events l req_id signal timeout);
  cl_kernel l a c p r t u : K c -> P [] ∅ l -> P [] ∅ (set_os l (kernel (os l) a c p r t u));
}.
End steps.

(** ** Calls to the kernel *)

Lemma sys_read_world o room r o' :
  sys_read o room = (r, o') ->
  same_world o o' /\ (forall d, r = Ok d -> 0 <= room -> zlen d <= room).
Proof.
  unfold sys_read. destruct (answers o) as [|[] ?]; intros; simplify_eq;
    (split; [by split|intros; simplify_eq; try done; zlen_lia]).
Qed.

Lemma sys_write_world o d r o' :
  sys_write o d = (r, o') -> d <> [] ->
  same_world o o' /\ (forall n, r = Ok n -> 0 < n <= zlen d).
Proof.
  unfold sys_write. intros H Hd.
  assert (0 < zlen d) by (destruct d; [done|]; zlen_lia).
  destruct (answers o) as [|[] ?]; simplify_eq;
    (split; [by split|intros; simplify_eq; lia]).
Qed.

Lemma sys_ok_world o b o' : sys_ok o = (b, o') -> same_world o o'.
Proof.
  unfold sys_ok. destruct (ctl_answers o) eqn:E; intros; simplify_eq; [done|].
  split; try done. simpl. rewrite E. by apply suffix_cons_r.
Qed.

Lemma poll_set_world o w ev b w' o' :
  poll_set o w ev = (b, w', o') -> same_world o o' /\ same_token w w'.
Proof.
  unfold poll_set. case_test; [by intros; simplify_eq|].
  destruct (sys_ok o) as [ok o1] eqn:E. intros; simplify_eq.
  split; [by eapply sys_ok_world|]. by destruct b.
Qed.

Lemma sys_populated_world o b o' : sys_populated o = (b, o') -> same_world o o'.
Proof. unfold sys_populated. case_match; intros; simplify_eq; by split. Qed.

Lemma sys_reap_world o b e o' : sys_reap o = (b, e, o') -> same_world o o'.
Proof. unfold sys_reap. case_match; [|case_match]; intros; simplify_eq; by split. Qed.

(** ** Putting back *)

Lemma put_session_twice l sid s s' :
  put_session (put_session l sid s) sid s' = put_session l sid s'.
Proof. unfold put_session. simpl. by rewrite insert_insert_eq. Qed.

Lemma put_session_same l sid s : sessions l !! sid = Some s -> put_session l sid s = l.
Proof. intros. unfold put_session. by rewrite insert_id. Qed.

Lemma put_attachment_twice l aid a a' :
  put_attachment (put_attachment l aid a) aid a' = put_attachment l aid a'.
Proof. unfold put_attachment. simpl. by rewrite insert_insert_eq. Qed.

Lemma put_attachment_same l aid a : attachments l !! aid = Some a -> put_attachment l aid a = l.
Proof. intros. unfold put_attachment. by rewrite insert_id. Qed.

Lemma mark_twice l sid : mark (mark l sid) sid = mark l sid.
Proof. unfold mark. simpl. f_equal. set_solver. Qed.

(** ** Frames at the front of a buffer *)

Lemma frame_split (p : bytes) :
  let len := be_val (ztake 4 p) in
  5 <= zlen p -> 0 < len <= MAX_FRAME -> 4 + len <= zlen p ->
  p = frame_bytes (default x00 (znth p 4)) (zslice 5 (4 + len) p) ++ zdrop (4 + len) p /\
  zlen (zslice 5 (4 + len) p) = len - 1.
Proof.
  intros len Hp Hlen Hfit.
  assert (zlen (zslice 5 (4 + len) p) = len - 1) as Hz by (rewrite zlen_slice; lia).
  split; [|done]. destruct (znth_Some p 4) as [k Hk]; [lia|]. rewrite Hk. cbn [default].
  unfold frame_bytes. rewrite frame_len_small, Hz by (rewrite Hz; lia).
  replace (1 + (len - 1)) with len by lia.
  assert (be_bytes 4 len = ztake 4 p) as ->.
  { unfold len. rewrite <-(be_bytes_be_val (ztake 4 p)) at 2. f_equal.
    assert (zlen (ztake 4 p) = 4) by zlen_lia. unfold zlen in *. lia. }
  rewrite <-(ztake_zdrop 4 p) at 1. rewrite <-!app_assoc. f_equal.
  rewrite (znth_zdrop _ _ _ Hk). cbn [app]. f_equal. unfold zslice. change (4 + 1) with 5.
  rewrite <-(ztake_zdrop (4 + len - 5) (zdrop 5 p)) at 1. f_equal.
  rewrite (zdrop_zdrop (4 + len - 5)) by lia. f_equal. lia.
Qed.

(** ** What steps do not change *)

(** No step adds an attachment or moves one to another session. *)
Definition kept (l l' : Loop) : Prop :=
  forall aid a', attachments l' !! aid = Some a' ->
    exists a, attachments l !! aid = Some a /\ a_session a' = a_session a /\
      (0 <= a_sent a -> 0 <= a_sent a').

Lemma kept_same l l' : attachments l' = attachments l -> kept l l'.
Proof. intros E aid a. rewrite E. eauto. Qed.

Lemma kept_put l l' aid a a' :
  attachments l !! aid = Some a -> a_session a' = a_session a ->
  (0 <= a_sent a -> 0 <= a_sent a') -> attachments l' = <[aid := a']> (attachments l) -> kept l l'.
Proof.
  intros Ha Hs Hz E k b. rewrite E. rewrite lookup_insert. case_decide; [|eauto].
  intros; simplify_eq. eauto.
Qed.

Lemma unwatch_shape l w : exists o, same_world (os l) o /\
  Loop_unwatch l w =
    set_os (set_poll l (MkPoll (delete (w_token w) (sources (poll l))) (poll_next (poll l)))) o.
Proof.
  unfold Loop_unwatch, poll_unwatch. destruct (poll_set _ _ _) as [[? ?] o] eqn:E.
  apply poll_set_world in E as [Ho _]. by exists o.
Qed.

(** What unwatching a descriptor does. *)
Ltac unwatch :=
  match goal with
  | |- context [Loop_unwatch ?l ?w] =>
      let o := fresh "o" in let Ho := fresh "Ho" in
      destruct (unwatch_shape l w) as (o & Ho & ->)
  end; cbn in *.

Lemma take_frame_attachments l sid aid s kind payload s' l' :
  take_frame l sid aid s kind payload = (s', l') -> attachments l' = attachments l.
Proof.
  unfold take_frame, Loop_resize, Session_claim.
  repeat (case_match; simplify_eq/=; try (intros; simplify_eq/=; done)).
Qed.

Lemma kill_waits_log sid done_ t ws : forall o ws' o',
  kill_waits sid done_ t o ws = (ws', o') ->
  zlen ws' <= zlen ws /\ exists es, o' = set_log o (log o ++ es) /\
    Forall (fun e => match e with EKill _ _ | ESignal _ _ => True | _ => False end) es.
Proof.
  induction ws as [|w ws IH]; intros o ws' o'; cbn [kill_waits].
  { intros; simplify_eq. split; [done|]. exists []. by rewrite app_nil_r. }
  destruct (kill_step sid done_ t o w) as [kept_ o1] eqn:E.
  destruct (kill_waits sid done_ t o1 ws) as [rest o2] eqn:E2. intros; simplify_eq.
  apply IH in E2 as (Hz & es & -> & Hes). split; [case_match; zlen_lia|].
  assert (exists es1, o1 = set_log o (log o ++ es1) /\
    Forall (fun e => match e with EKill _ _ | ESignal _ _ => True | _ => False end) es1) as (es1 & -> & H1).
  { unfold kill_step in E. repeat case_match; simplify_eq;
      first [exists []; by rewrite app_nil_r
            |eexists; split; [unfold os_log; cbn; by rewrite <-?app_assoc|repeat constructor]]. }
  exists (es1 ++ es). cbn. rewrite app_assoc. split; [done|by apply Forall_app].
Qed.

(** A kill timer only changes the waits of its session. *)
Lemma kill_timer_shape t l sid :
  kill_timer t l sid = l \/
  exists s ws o es, sessions l !! sid = Some s /\
    kill_timer t l sid = put_session (set_os l (set_log o (log o ++ es))) sid (set_kills s ws) /\
    same_world (os l) o /\ zlen ws <= zlen (kills s) /\
    Forall (fun e => match e with EKill _ _ | ESignal _ _ => True | _ => False end) es.
Proof.
  unfold kill_timer. destruct (sessions l !! sid) as [s|]; [|by left].
  case_bool_decide; [by left|]. right.
  destruct (match s_exit s with Some _ => _ | None => _ end) as [done_ o] eqn:E.
  destruct (kill_waits sid done_ t o (kills s)) as [ws o'] eqn:E'.
  apply kill_waits_log in E' as (Hz & es & -> & Hes). exists s, ws, o, es. split_and!; try done.
  destruct (s_exit s); [|by simplify_eq].
  destruct (sys_populated (os l)) as [b o1] eqn:Ep. apply sys_populated_world in Ep. by simplify_eq.
Qed.

Lemma close_stdin_attachments l sid s : attachments (close_stdin l sid s) = attachments l.
Proof.
  unfold close_stdin. case_test; [|done]. case_match; [|done]. by unwatch.
Qed.

Lemma detach_attachments l aid : attachments (Loop_detach l aid) = delete aid (attachments l).
Proof.
  unfold Loop_detach. destruct (attachments l !! aid) as [a|] eqn:E.
  - unwatch. by destruct (sessions _ !! _).
  - by rewrite delete_id.
Qed.

Lemma step_kept `{SessionEnv} X l l' : step X l l' -> kept l l'.
Proof.
  destruct 1; cbn -[Loop_unwatch close_stdin Loop_detach kill_timer];
    try (by apply kept_same); try (by case_match; [unwatch|]; apply kept_same);
    try (unwatch; by apply kept_same);
    try (eapply kept_put; [eassumption| | |reflexivity]; cbn; first [reflexivity|lia]).
  - intros k b. rewrite detach_attachments. intros [_ ?]%lookup_delete_Some. eauto.
  - match goal with H : take_frame _ _ _ _ _ _ = _ |- _ => apply take_frame_attachments in H as Et end.
    eapply kept_put; [eassumption| | |cbn; by rewrite Et]; done.
  - destruct (kill_timer_shape t l sid) as [->|(s & ws & o & es & _ & -> & _)]; by apply kept_same.
  - apply kept_same. rewrite close_stdin_attachments. unfold finish in H2.
    repeat case_match; by simplify_eq/=.
Qed.

(** The attachment, if it is still there, belongs to the session. *)
Definition in_session (l : Loop) (aid sid : Z) : Prop :=
  forall a, attachments l !! aid = Some a -> a_session a = sid /\ 0 <= a_sent a.

Lemma in_session_kept l l' aid sid : kept l l' -> in_session l aid sid -> in_session l' aid sid.
Proof. intros Hk Hi a' (a & Ha & -> & Hz)%Hk. apply Hi in Ha as [? ?]. auto. Qed.

Lemma stable_and `{SessionEnv} P Q :
  stable P -> (forall l l', kept l l' -> Q l -> Q l') -> stable (fun X l => P X l /\ Q l).
Proof.
  intros HP HQ. split.
  - intros X l l' Hstep [HPl HQl]. split; [by eapply st_step|]. eapply HQ, HQl. by eapply step_kept.
  - intros X sid l [HPl HQl]. split; [by apply st_open|done].
  - intros X sid l [HPl HQl]. split; [by apply st_mark|]. eapply HQ, HQl. by apply kept_same.
Qed.

(** ** The handlers *)

Section handlers.
Context `{SE : SessionEnv} {P : gset Z -> Loop -> Prop} (HP : stable P).
Implicit Types (X : gset Z) (l : Loop).

Lemma P_os X l o : same_world (os l) o -> P X l -> P X (set_os l o).
Proof. intros. eapply st_step; [done|by apply St_os|done]. Qed.

Lemma P_opened X sid l : P X l -> sid ∈ {[sid]} ∪ X /\ P ({[sid]} ∪ X) l.
Proof. intros. split; [set_solver|by apply st_open]. Qed.

Lemma P_marked X sid l : P X l -> P X (mark l sid).
Proof. intros. by apply st_mark, st_open. Qed.

Lemma read_output_loop_P n : forall X l sid stream,
  P X l -> P X (read_output_loop n l sid stream).
Proof.
  induction n as [|n IH]; intros X l sid stream H; cbn [read_output_loop]; [done|].
  destruct (sessions l !! sid) as [s|] eqn:Hs; [|done].
  destruct (find_output stream (s_outputs s)) as [w|] eqn:Hw; [|done].
  case_test; [done|]. bool_to_prop.
  assert (0 <= Loop_room l sid stream).
  { unfold Loop_room. rewrite Hs. unfold READ_CHUNK. case_match; [|lia].
    unfold Ring_room, saturating_sub. repeat case_match; lia. }
  destruct (sys_read (os l) (Loop_room l sid stream)) as [r o] eqn:E.
  apply sys_read_world in E as [Ho Hd].
  apply (P_os _ _ _ Ho) in H. destruct (P_opened X sid _ H) as [Hin Hopen].
  assert (P X (mark (Loop_unwatch (put_session (set_os l o) sid
            (set_s_outputs s (remove_output stream (s_outputs s)))) w) sid)) as Hend.
  { apply st_mark; [done|]. eapply st_step; [done| |exact Hopen]. by apply St_output_end. }
  destruct r as [[|b d]|[]]; [done| |done|by apply IH|done].
  assert (P X (mark (emit (put_session (set_os l o) sid (Session_output s stream (b :: d) (unix_now o)))
                       (ERead sid stream (b :: d))) sid)) as Hread.
  { apply st_mark; [done|]. eapply st_step; [done| |exact Hopen].
    eapply St_read; try done. by apply Hd. }
  case_test; [done|]. by apply IH.
Qed.

Lemma stdin_loop_P X l sid s w fuel : forall q o q' closed o',
  s_stdin s = Some w -> sid ∈ X ->
  P X (put_session (set_os l o) sid (set_stdin_queue s q)) ->
  stdin_loop fuel sid q o = (q', closed, o') ->
  exists q0, P X (put_session (set_os l o') sid (set_stdin_queue s q0)) /\
    (if closed then q' = [] else q0 = q').
Proof.
  induction fuel as [|fuel IH]; intros q o q' closed o' Hw HX H; cbn [stdin_loop].
  { intros; simplify_eq. eauto. }
  case_bool_decide as Hq; [intros; simplify_eq; eauto|].
  destruct (sys_write o q) as [r o1] eqn:E. apply sys_write_world in E as [Ho Hn]; [|done].
  assert (P X (put_session (set_os l o1) sid (set_stdin_queue s q))) as H1.
  { eapply (P_os _ (put_session (set_os l o) sid _)) in H; [exact H|done]. }
  destruct r as [n|[]]; [|intros; simplify_eq; eauto|by apply IH|intros; simplify_eq; eauto].
  apply IH; try done.
  eapply (st_step _ HP) in H1; [|eapply (St_stdin _ _ sid _ w (ztake n q) (zdrop n q))];
    [|apply lookup_insert_eq|done|by rewrite ztake_zdrop|done].
  by rewrite put_session_twice in H1.
Qed.

Lemma write_stdin_P X l sid : P X l -> P X (write_stdin l sid).
Proof.
  intros H. unfold write_stdin. destruct (sessions l !! sid) as [s|] eqn:Hs; [|done].
  destruct (s_stdin s) as [w|] eqn:Hw; [|done].
  destruct (stdin_loop _ _ _ _) as [[q closed] o] eqn:E.
  destruct (P_opened X sid _ H) as [Hin Hopen].
  eapply (stdin_loop_P ({[sid]} ∪ X) l sid s w) in E as (q0 & Hq0 & Hc);
    [|exact Hw|exact Hin|change (P ({[sid]} ∪ X) (put_session l sid s)); by rewrite put_session_same].
  apply st_mark; [done|]. destruct closed; [|by rewrite <-Hc]. rewrite Hc.
  eapply (st_step _ HP) in Hq0; [|eapply (St_stdin_close _ _ sid _ w)];
    [|apply lookup_insert_eq|done|done].
  by rewrite put_session_twice in Hq0.
Qed.

Lemma detach_P X l aid : P X l -> P X (Loop_detach l aid).
Proof. intros. eapply st_step; [done|apply St_detach|done]. Qed.

Lemma take_input_loop_P fuel : forall X l aid sid,
  sid ∈ X -> in_session l aid sid -> P X l -> P X (take_input_loop fuel l aid).
Proof.
  induction fuel as [|fuel IH]; intros X l aid sid HX Hsid H; cbn [take_input_loop]; [done|].
  destruct (attachments l !! aid) as [a|] eqn:Ha; [|done]. pose proof (Hsid _ Ha) as [Ea Hsent].
  set (p := zdrop (a_taken a) (a_inp a)). case_test; [done|].
  case_test; [by apply detach_P|]. case_test; [done|].
  destruct (sessions l !! a_session a) as [s|] eqn:Hs; [|done]. bool_to_prop.
  destruct (frame_split p) as [Hf Hz]; [pose proof (be_val_range (ztake 4 p)); lia..|].
  case_test.
  { bool_to_prop. eapply st_step; [done| |exact H]. by eapply St_block; [| |rewrite Ea|]. }
  destruct (take_frame _ _ _ _ _ _) as [s' l'] eqn:Et.
  eapply (IH _ _ _ sid); [done| |].
  { intros a'. cbn. rewrite lookup_insert_eq. intros; by simplify_eq/=. }
  apply P_marked. eapply (st_step _ HP) in H; [exact H|].
  set (q := zslice 5 (4 + be_val (ztake 4 p)) p) in *.
  replace (4 + be_val (ztake 4 p)) with (5 + zlen q) by lia.
  eapply St_frame; [done|done|by rewrite Ea|exact Hf|lia| |done].
  intros Hk Ht. rewrite Ht, bool_decide_eq_true_2 in Heqb0 by done. cbn [andb] in Heqb0.
  by bool_to_prop.
Qed.

Lemma take_input_P X l aid sid : sid ∈ X -> in_session l aid sid -> P X l -> P X (take_input l aid).
Proof. intros. unfold take_input. case_match; [|done]. by eapply take_input_loop_P. Qed.

Lemma input_loop_P X l aid fuel : forall a o a' ended o',
  a_session a ∈ X -> P X (put_attachment (set_os l o) aid a) ->
  input_loop fuel aid a o = (a', ended, o') ->
  P X (put_attachment (set_os l o') aid a') /\ a_session a' = a_session a /\ a_sent a' = a_sent a.
Proof.
  induction fuel as [|fuel IH]; intros a o a' ended o' HX H; cbn [input_loop].
  { by intros; simplify_eq. }
  case_test; [|by intros; simplify_eq].
  set (a1 := if 0 <? a_taken a then _ else a). bool_to_prop.
  assert (a_session a1 = a_session a /\ a_sent a1 = a_sent a /\
          P X (put_attachment (set_os l o) aid a1) /\
          zlen (a_inp a1) - a_taken a1 <= MAX_FRAME + 4) as (Ea & Es & Hput & Hb).
  { subst a1. case_test; [|done]. bool_to_prop. split_and!; [done|done| |cbn; change MAX_FRAME with 1048576 in *; zlen_lia].
    eapply (st_step _ HP) in H; [|eapply (St_compact_in _ _ aid)]; [|apply lookup_insert_eq].
    by rewrite put_attachment_twice in H. }
  rewrite <-Ea, <-?Es in *. clearbody a1. clear H.
  destruct (sys_read o READ_CHUNK) as [r o1] eqn:E. apply sys_read_world in E as [Ho Hd].
  assert (P X (put_attachment (set_os l o1) aid a1)) as H2.
  { eapply (P_os _ (put_attachment (set_os l o) aid _)) in Hput; [exact Hput|done]. }
  destruct r as [[|b d]|[]]; try (by intros; simplify_eq); [|by apply IH].
  intros E'. apply IH in E' as (? & E1 & E2); [by rewrite E1, E2|done|].
  eapply (st_step _ HP) in H2; [|eapply (St_recv _ _ aid _ (b :: d))];
    [|apply lookup_insert_eq|done|done|by apply Hd].
  by rewrite put_attachment_twice in H2.
Qed.

Lemma fill_loop_P X l aid s fuel : forall a,
  a_session a ∈ X -> sessions l !! a_session a = Some s -> P X (put_attachment l aid a) ->
  P X (put_attachment l aid (fill_frames_loop fuel a (s_ring s))) /\
  a_session (fill_frames_loop fuel a (s_ring s)) = a_session a.
Proof.
  induction fuel as [|fuel IH]; intros a HX Hs H; cbn [fill_frames_loop]; [done|].
  case_test; [|done]. bool_to_prop. destruct (Ring_frames _ _ _ _ _) as [c out] eqn:E.
  apply (IH (set_a_out (set_a_cursor a c) out)); [done|done|].
  eapply (st_step _ HP) in H; [|eapply (St_fill _ _ aid)]; [|apply lookup_insert_eq|done..].
  by rewrite put_attachment_twice in H.
Qed.

Lemma fill_P X l aid sid : sid ∈ X -> in_session l aid sid -> P X l -> P X (Loop_fill l aid).
Proof.
  intros HX Hsid H. unfold Loop_fill. destruct (attachments l !! aid) as [a|] eqn:Ha; [|done].
  pose proof (Hsid _ Ha) as [Ea Hsent]. destruct (sessions l !! a_session a) as [s|] eqn:Hs; [|done].
  set (a1 := if 0 <? a_sent a then _ else a).
  assert (a_session a1 = a_session a /\ P X (put_attachment l aid a1)) as [E1 H1].
  { subst a1. case_test; [|by rewrite put_attachment_same]. split; [done|].
    eapply (st_step _ HP) in H; [exact H|]. eapply St_compact_out; [done|by rewrite Ea]. }
  rewrite <-E1 in *. clearbody a1.
  destruct (fill_loop_P X l aid s 2 a1) as [H2 E2]; [by rewrite Ea|done|done|].
  set (a2 := fill_frames_loop 2 a1 (s_ring s)) in *. clearbody a2.
  case_test; [|done]. bool_to_prop.
  eapply (st_step _ HP) in H2; [|eapply (St_exit _ _ aid _ s)];
    [|apply lookup_insert_eq|cbn; by rewrite E2|by rewrite E2, Ea|done..].
  by rewrite put_attachment_twice in H2.
Qed.

Lemma flush_loop_P X l aid a fuel : forall sent o sent' failed o',
  a_session a ∈ X -> P X (put_attachment (set_os l o) aid (set_a_sent a sent)) ->
  flush_loop fuel aid (a_out a) sent o = (sent', failed, o') -> 0 <= sent ->
  P X (put_attachment (set_os l o') aid (set_a_sent a sent')).
Proof.
  induction fuel as [|fuel IH]; intros sent o sent' failed o' HX H; cbn [flush_loop].
  { by intros; simplify_eq. }
  case_test; [|by intros; simplify_eq]. bool_to_prop.
  destruct (sys_write o (zdrop sent (a_out a))) as [r o1] eqn:E. intros E' Hs.
  assert (zlen (zdrop sent (a_out a)) = zlen (a_out a) - sent) as Hz by zlen_lia.
  apply sys_write_world in E as [Ho Hn].
  2: { intros Hn. rewrite Hn in Hz. change (zlen (@nil byte)) with 0 in Hz. lia. }
  assert (P X (put_attachment (set_os l o1) aid (set_a_sent a sent))) as H1.
  { eapply (P_os _ (put_attachment (set_os l o) aid _)) in H; [exact H|done]. }
  destruct r as [n|[]]; [|by simplify_eq|by eapply IH|by simplify_eq].
  specialize (Hn _ eq_refl). eapply IH; [done| |exact E'|lia].
  eapply (st_step _ HP) in H1; [|eapply (St_sent _ _ aid _ n)];
    [|apply lookup_insert_eq|done|lia|cbn; lia].
  by rewrite put_attachment_twice in H1.
Qed.

Lemma flush_P X l aid sid : sid ∈ X -> in_session l aid sid -> P X l -> P X (Loop_flush l aid).
Proof.
  intros HX Hsid H. unfold Loop_flush. destruct (attachments l !! aid) as [a|] eqn:Ha; [|done].
  pose proof (Hsid _ Ha) as [Ea Hsent]. destruct (flush_loop _ _ _ _ _) as [[sent failed] o] eqn:E.
  apply (flush_loop_P X l) in E; [|by rewrite Ea| |done].
  - case_test; [by apply detach_P|done].
  - change (P X (put_attachment l aid a)). by rewrite put_attachment_same.
Qed.

Lemma read_input_P X l aid sid : sid ∈ X -> in_session l aid sid -> P X l -> P X (read_input l aid).
Proof.
  intros HX Hsid H. unfold read_input. destruct (attachments l !! aid) as [a|] eqn:Ha; [|done].
  pose proof (Hsid _ Ha) as [Ea Hsent].
  destruct (input_loop _ _ _ _) as [[a' ended] o] eqn:E.
  assert (a_session a' = sid -> a_sent a' = a_sent a -> P X (put_attachment (set_os l o) aid a') ->
    P X (take_input (put_attachment (set_os l o) aid a') aid)) as Htake.
  { intros Ea' Es' H'. eapply (take_input_P _ _ _ sid); [done| |done]. 
    intros b. cbn. rewrite lookup_insert_eq. intros; simplify_eq. by rewrite Es'. }
  apply (input_loop_P X l) in E as (H' & Ea' & Es');
    [|by rewrite Ea|change (P X (put_attachment l aid a)); by rewrite put_attachment_same].
  rewrite Ea in Ea'. specialize (Htake Ea' Es' H'). case_test; [by apply detach_P|done].
Qed.
End handlers.

Section settling.
Context `{SE : SessionEnv} {P : gset Z -> Loop -> Prop} (HP : stable P).
Implicit Types (X : gset Z) (l : Loop).

(** The attachments of a list, as far as they are there, belong to [sid]. *)
Definition all_in (aids : list Z) (sid : Z) (l : Loop) : Prop :=
  forall aid, aid ∈ aids -> in_session l aid sid.

Lemma all_in_kept aids sid l l' : kept l l' -> all_in aids sid l -> all_in aids sid l'.
Proof. intros Hk H aid Hin. eapply in_session_kept; eauto. Qed.

(** A fold over attachments of one session. *)
Lemma fold_in_session (f : Loop -> Z -> Loop) sid X :
  (forall Q, stable Q -> forall l aid, in_session l aid sid -> Q X l -> Q X (f l aid)) ->
  forall aids l, all_in aids sid l -> P X l -> P X (fold_left f aids l).
Proof.
  intros Hf aids. induction aids as [|aid aids IH]; intros l Hin H; [done|].
  destruct (Hf _ (stable_and P (all_in (aid :: aids) sid) HP (all_in_kept _ sid)) l aid) as [H1 H2].
  - apply Hin. left.
  - done.
  - apply IH; [|done]. intros k Hk. apply H2. by right.
Qed.

Lemma settle_attachment_P X l aid sid :
  sid ∈ X -> in_session l aid sid -> P X l -> P X (settle_attachment sid l aid).
Proof.
  intros HX Hin H. unfold settle_attachment.
  assert (stable (fun X l => P X l /\ in_session l aid sid)) as HQ.
  { apply stable_and; [done|]. intros. by eapply in_session_kept. }
  destruct (flush_P HQ X (Loop_fill l aid) aid sid) as [H1 Hin1]; [done| |by eapply (fill_P HQ)|].
  { by eapply (fill_P HQ). }
  set (l1 := Loop_flush _ _) in *. clearbody l1.
  destruct (attachments l1 !! aid) as [a|] eqn:Ha; [|done].
  destruct (sessions l1 !! sid) as [s|] eqn:Hs; [|done]. case_test; [|done].
  destruct (Hin1 _ Ha) as [Ea Hz]. eapply (take_input_P HP); [done| |].
  - intros b. cbn. rewrite lookup_insert_eq. intros; by simplify_eq/=.
  - eapply st_step; [done| |exact H1]. apply St_unblock; [done|by rewrite Ea].
Qed.

Lemma set_outputs_world outputs : forall rooms o outputs' o',
  set_outputs o outputs rooms = (outputs', o') ->
  same_world o o' /\ Forall2 (fun p p' => p'.1 = p.1 /\ same_token p.2 p'.2) outputs outputs'.
Proof.
  assert (forall ps : list (byte * Watched),
    Forall2 (fun p p' => p'.1 = p.1 /\ same_token p.2 p'.2) ps ps) as Hrefl.
  { induction ps; by constructor. }
  induction outputs as [|[st w] outputs IH]; intros rooms o outputs' o'; cbn [set_outputs].
  { intros; simplify_eq. by split. }
  destruct rooms as [|room rooms]; [intros; simplify_eq; by split|].
  destruct (poll_set _ _ _) as [[b w'] o1] eqn:E. apply poll_set_world in E as [H1 H2].
  destruct (set_outputs o1 outputs rooms) as [rest o2] eqn:E2. apply IH in E2 as [H3 H4].
  intros; simplify_eq. split; [by etrans|by constructor].
Qed.

Lemma set_watched_world o w ev w' o' :
  set_watched o w ev = (w', o') -> same_world o o' /\ option_Forall2 same_token w w'.
Proof.
  unfold set_watched. destruct w as [w|].
  - destruct (poll_set o w ev) as [[b w1] o1] eqn:E. apply poll_set_world in E as [??].
    intros; simplify_eq. split; [done|by constructor].
  - intros; simplify_eq. split; [done|constructor].
Qed.

Lemma register_attachment_P X l aid sid end_ :
  sid ∈ X -> in_session l aid sid -> P X l -> P X (register_attachment end_ l aid).
Proof.
  intros HX Hin H. unfold register_attachment. destruct (attachments l !! aid) as [a|] eqn:Ha; [|done].
  destruct (poll_set _ _ _) as [[ok w] o] eqn:E. apply poll_set_world in E as [Ho Ht].
  destruct (Hin _ Ha) as [Ea _].
  assert (P X (put_attachment (set_os l o) aid (set_a_sock a w))).
  { eapply st_step; [done| |by eapply (P_os HP); [|exact H]]. apply St_sock; [done|by rewrite Ea|done]. }
  case_test; [done|by apply detach_P].
Qed.

End settling.

Section registering.
Context `{SE : SessionEnv} {P : gset Z -> Loop -> Prop} (HP : stable P).
Implicit Types (X : gset Z) (l : Loop).

(** Registering, before its effect on the events. *)
Lemma register_P X l sid :
  sid ∈ X -> (forall s, sessions l !! sid = Some s -> all_in (s_attachments s) sid l) ->
  P X l -> P X (register l sid).
Proof.
  intros HX Hin H. unfold register. destruct (sessions l !! sid) as [s|] eqn:Hs; [|done].
  destruct (set_outputs _ _ _) as [outputs o1] eqn:E1. apply set_outputs_world in E1 as [Ho1 F1].
  destruct (set_watched o1 _ _) as [stdin o2] eqn:E2. apply set_watched_world in E2 as [Ho2 F2].
  destruct (set_watched o2 _ _) as [pidfd o3] eqn:E3. apply set_watched_world in E3 as [Ho3 F3].
  apply (fold_in_session HP _ sid).
  - intros Q HQ l0 aid. by apply (register_attachment_P HQ).
  - intros aid Ha a. cbn. by apply (Hin s eq_refl).
  - eapply st_step; [done| |eapply (P_os HP); [|exact H]]; [by apply St_register|].
    by do 2 (etrans; [eassumption|]).
Qed.
End registering.

(** All of settling but the registration, with the session open. *)
Definition settle_body (l : Loop) (sid : Z) : Loop :=
  match sessions l !! sid with
  | None => l
  | Some s =>
      let '(s, l) := finish l sid s in
      fold_left (settle_attachment sid) (s_attachments s) (close_stdin l sid s)
  end.

Lemma settle_one_body l sid :
  settle_one l sid = register (settle_body (set_dirty_ids l (dirty_ids l ∖ {[sid]})) sid) sid.
Proof.
  unfold settle_one, settle_body. set (l1 := set_dirty_ids _ _).
  destruct (sessions l1 !! sid) as [s|] eqn:Hs; [by destruct (finish l1 sid s)|].
  unfold register. by rewrite Hs.
Qed.

Lemma settle_body_P `{SessionEnv} {P} (HP : stable P) X l sid :
  sid ∈ X -> (forall s, sessions l !! sid = Some s -> all_in (s_attachments s) sid l) ->
  P X l -> P X (settle_body l sid).
Proof.
  intros HX Hin Hl. unfold settle_body. destruct (sessions l !! sid) as [s|] eqn:Hs; [|done].
  destruct (finish l sid s) as [s' l2] eqn:Ef.
  assert (s_attachments s' = s_attachments s /\ attachments l2 = attachments l) as [-> El2].
  { unfold finish in Ef. by case_test_in Ef; simplify_eq. }
  eapply (st_step _ HP) in Hl; [|eapply St_finish; [exact Hs|exact HX|exact Ef]].
  apply (fold_in_session HP _ sid); [| |exact Hl].
  - intros Q HQ l0 aid Hin0. by apply (settle_attachment_P HQ).
  - intros aid Ha a. rewrite close_stdin_attachments, El2. by apply (Hin s eq_refl).
Qed.

(** ** Sessions in order *)

Lemma elem_of_sorted_ids m id : id ∈ sorted_ids m <-> is_Some (m !! id).
Proof.
  unfold sorted_ids. rewrite merge_sort_Permutation, elem_of_elements. apply elem_of_dom.
Qed.

Lemma NoDup_sorted_ids m : NoDup (sorted_ids m).
Proof. unfold sorted_ids. rewrite merge_sort_Permutation. apply NoDup_elements. Qed.

Definition ids_ok (l : Loop) : Prop := forall sid s, sessions l !! sid = Some s -> s_id s = sid.

(** A session the sweep may drop. *)
Definition idle_since (s : Session) (at_ : Z) : Prop :=
  finished s = Some at_ /\ s_attachments s = [] /\ kills s = [].

Lemma elem_of_ended l at_ id :
  ids_ok l -> (at_, id) ∈ ended l <-> exists s, sessions l !! id = Some s /\ idle_since s at_.
Proof.
  intros Hid. unfold ended. rewrite merge_sort_Permutation, list_elem_of_omap. split.
  - intros (k & _ & Hk). destruct (sessions l !! k) as [s|] eqn:Hs; [|done].
    case_test_in Hk; [|done]. bool_to_prop. destruct (finished s) eqn:Hf; simplify_eq/=.
    rewrite (Hid _ _ Hs). by exists s.
  - intros (s & Hs & Hf & Ha & Hk). exists id. split; [by apply elem_of_sorted_ids|].
    rewrite Hs, Ha, Hk. cbn. rewrite Hf. cbn. by rewrite (Hid _ _ Hs).
Qed.

Lemma NoDup_omap_key {A} (f : A -> option (A * A)) (xs : list A) :
  (forall x y, f x = Some y -> y.2 = x) -> NoDup xs -> NoDup (omap f xs).*2.
Proof.
  intros Hf. induction 1 as [|x xs Hx Hnd IH]; cbn; [constructor|].
  destruct (f x) as [y|] eqn:E; [|done]. cbn. constructor; [|done].
  rewrite (Hf _ _ E). intros (z & -> & Hz)%list_elem_of_fmap.
  apply list_elem_of_omap in Hz as (k & Hk & Ek). apply Hf in Ek. congruence.
Qed.

Lemma NoDup_ended l : ids_ok l -> NoDup (ended l).*2.
Proof.
  intros Hid. unfold ended. rewrite merge_sort_Permutation.
  apply (NoDup_omap_key _); [|apply NoDup_sorted_ids].
  intros k y Hk. destruct (sessions l !! k) as [s|] eqn:Hs; [|done].
  case_test_in Hk; [|done]. destruct (finished s); simplify_eq/=. by apply Hid.
Qed.

(** ** The whole loop *)

Section loop.
Context `{SE : SessionEnv} {K : list bool -> Prop} {P : list Cmd -> gset Z -> Loop -> Prop}.
Context (HP : closed K P).
Implicit Types (X : gset Z) (l : Loop).

Local Definition stab cs : stable (P cs) := cl_stable _ _ HP cs.

Lemma C_step cs X l l' : step X l l' -> P cs X l -> P cs X l'.
Proof. apply (st_step _ (stab cs)). Qed.

Lemma C_in_session cs X l aid a :
  P cs X l -> attachments l !! aid = Some a -> in_session l aid (a_session a).
Proof. intros H Ha b Hb. simplify_eq. split; [done|]. by eapply cl_sent. Qed.

Lemma C_all_in cs X l sid s : P cs X l -> sessions l !! sid = Some s -> all_in (s_attachments s) sid l.
Proof. intros H Hs aid Hin a Ha. split; [by eapply cl_owned|by eapply cl_sent]. Qed.

Lemma refuse_P cs X l conn : P cs X l -> P cs X (refuse l conn).
Proof.
  intros H. unfold refuse. destruct (sys_ok (os l)) as [ok o] eqn:E. apply sys_ok_world in E.
  apply (P_os (stab cs) _ _ _ E) in H. case_test; [|done]. eapply C_step; [|exact H]. by apply St_told.
Qed.

Lemma clamp_range x lo hi : lo <= hi -> lo <= clamp x lo hi <= hi.
Proof. unfold clamp. intros. repeat case_test; bool_to_prop; lia. Qed.

Lemma attach_P cs X l sid conn offset take_owner :
  P cs X l -> P cs X (Loop_attach l sid conn offset take_owner).
Proof.
  intros H. unfold Loop_attach. destruct (sessions l !! sid) as [s|] eqn:Hs; [|done].
  pose proof (cl_ring _ _ HP _ _ _ _ _ H Hs) as Hring. case_test; [by apply refuse_P|]. bool_to_prop.
  set (info := with_owner_offset _ _ _).
  destruct (info_json info) as [payload|] eqn:Hj; [|done].
  destruct (sys_ok (os l)) as [ok o] eqn:E. apply sys_ok_world in E.
  apply (P_os (stab cs) _ _ _ E) in H. case_test; [done|].
  destruct (Loop_watch _ _) as [sock l'] eqn:Ew.
  apply st_mark; [apply stab|]. destruct (P_opened (stab cs) X sid _ H) as [Hin Hopen].
  eapply cl_attach; [done| |exact Hin|exact Hopen].
  eapply (attached_intro _ (set_os l o) s info _ _ _ (take_owner || bool_decide (s_owner s = None)));
    try done.
  - by apply clamp_range.
  - intros Ho. bool_to_prop. done.
  - etrans; [|exact Ew]. by case_test.
Qed.

Lemma exited_P cs X l id status : P cs X l -> P cs X (Loop_exited l id status).
Proof.
  intros H. unfold Loop_exited. cbn [sessions emit set_os].
  destruct (sessions l !! id) as [s|] eqn:Hs.
  - destruct (P_opened (stab cs) X id _ H) as [Hin Hopen]. apply st_mark; [apply stab|].
    exact (C_step _ _ _ _ (St_exited _ l id s status Hs Hin) Hopen).
  - eapply C_step; [|exact H]. by apply (St_early_exit X l id status).
Qed.

Lemma port_event_P cs X l sid event : P cs X l -> P cs X (Loop_port_event l sid event).
Proof.
  intros H. unfold Loop_port_event. destruct (sessions l !! sid) as [s|] eqn:Hs; [|done].
  destruct event as [payload|]; [|done]. apply st_mark; [apply stab|].
  apply (fold_in_session (stab cs) _ sid); [|by eapply C_all_in|by apply st_open, H; apply stab].
  intros Q HQ l0 aid Hin HQl. unfold port_to. destruct (attachments l0 !! aid) as [a|] eqn:Ha; [|done].
  case_test; [|done]. bool_to_prop. destruct (Hin _ Ha) as [Ea _].
  eapply st_step; [done| |exact HQl]. apply St_port; [done|rewrite Ea; set_solver|done].
Qed.

Lemma start_loop_P cs l id req conn :
  P (CmdStart id req conn :: cs) ∅ l -> P cs ∅ (Loop_start l id req conn).
Proof.
  intros H. unfold Loop_start. apply st_mark; [apply stab|]. rewrite right_id_L by apply _.
  apply (cl_insert _ _ HP), (attach_P cs {[id]} _ id conn (Some 0) false) in H.
  set (l1 := Loop_attach _ _ _ _ _) in *. clearbody l1.
  destruct (sessions l1 !! id) as [s|] eqn:Hs; [|done]. case_bool_decide; [|done].
  eapply C_step; [|exact H]. by apply St_hangup_at.
Qed.

Lemma handle_P c cs l : P (c :: cs) ∅ l -> P cs ∅ (handle l c).
Proof.
  intros H. destruct c; cbn [handle];
    try (apply (cl_skip _ _ HP) in H; [|reflexivity]).
  - by apply start_loop_P.
  - case_match; [|by apply refuse_P]. case_bool_decide; [by apply attach_P|by apply refuse_P].
  - eapply C_step; [|exact H]. by apply St_told.
  - by apply (cl_kill _ _ HP).
  - by apply exited_P.
  - by apply port_event_P.
Qed.

Lemma commands_P l : P [] ∅ l -> P [] ∅ (commands l).
Proof.
  intros H%(cl_take _ _ HP). unfold commands. revert H. generalize (set_cmd_queue l []).
  induction (cmd_queue l) as [|c cs IH]; intros l' H; [done|]. by apply IH, handle_P.
Qed.

Lemma reap_P cs X l : P cs X l -> P cs X (Loop_reap l).
Proof.
  intros H. unfold Loop_reap. destruct (sys_reap (os l)) as [[ok exits] o] eqn:E.
  apply sys_reap_world in E. apply (P_os (stab cs) _ _ _ E) in H.
  eapply C_step in H; [|apply (St_reap_pending _ _ (negb ok))]. case_test; [|done].
  eapply C_step in H; [|apply (St_exits _ _ exits)]. done.
Qed.

Lemma fold_P {A} cs X (f : Loop -> A -> Loop) (xs : list A) :
  (forall l x, P cs X l -> P cs X (f l x)) -> forall l, P cs X l -> P cs X (fold_left f xs l).
Proof. intros Hf. induction xs as [|x xs IH]; intros l H; [done|]. by apply IH, Hf. Qed.

Lemma hangup_P cs X l t sid : P cs X l -> P cs X (hangup t l sid).
Proof.
  intros H. unfold hangup. destruct (sessions l !! sid) as [s|] eqn:Hs; [|done].
  case_match; [|done]. case_test; [|done].
  eapply C_step; [by apply St_told|]. eapply C_step; [|exact H]. by apply St_hangup_at.
Qed.

Lemma sweep_loop_P cs X excess t all : forall i l,
  NoDup all.*2 ->
  (forall at_ id, (at_, id) ∈ all -> exists s, sessions l !! id = Some s /\ idle_since s at_) ->
  P cs X l -> P cs X (sweep_loop i excess t l all).
Proof.
  induction all as [|[at_ id] all IH]; intros i l Hnd Hall H; cbn [sweep_loop]; [done|].
  apply NoDup_cons in Hnd as [Hid Hnd].
  destruct (Hall at_ id) as (s & Hs & Hf & Ha & Hk); [left|].
  apply IH; [done| |].
  - intros at' id' Hin. destruct (Hall at' id') as (s' & Hs' & Hi'); [by right|].
    exists s'. split; [|done]. case_test; [|done]. unfold drop_session. rewrite Hs, Ha. cbn.
    rewrite lookup_delete_ne; [done|]. intros <-. apply Hid.
    apply list_elem_of_fmap. by exists (at', id).
  - case_test; [|done]. unfold drop_session. rewrite Hs, Ha.
    eapply C_step; [|exact H]. by apply (St_drop _ _ _ s).
Qed.

Lemma sweep_P cs X l t : P cs X l -> P cs X (sweep l t).
Proof.
  intros H. assert (ids_ok l) as Hid by (intros sid s; by eapply cl_ids).
  apply sweep_loop_P; [by apply NoDup_ended| |done]. intros at_ id. by apply elem_of_ended.
Qed.

Lemma timers_P l : P [] ∅ l -> P [] ∅ (timers l).
Proof.
  intros H. unfold timers.
  set (l1 := fold_left _ _ l).
  assert (P [] ∅ l1) as H1 by (apply fold_P; [intros; by apply hangup_P|done]).
  clearbody l1. clear H.
  set (l2 := if reap_pending l1 || has_kills l1 then _ else l1).
  assert (P [] ∅ l2) as H2.
  { subst l2. case_test; [|done]. apply fold_P; [|by apply commands_P, reap_P].
    intros l3 sid H3. eapply C_step; [|exact H3]. apply St_kill_timer. }
  clearbody l2. case_test; [|done]. apply sweep_P. eapply C_step; [|exact H2]. apply St_next_sweep.
Qed.

Lemma settle_P l : P [] ∅ l -> P [] ∅ (settle l).
Proof.
  unfold settle. generalize (settle_fuel l). intros fuel. revert l.
  induction fuel as [|fuel IH]; intros l H; cbn [settle_loop]; [done|].
  case_match; [|done]. by apply IH, (cl_settle _ _ HP).
Qed.

Lemma pidfd_event_P cs X l sid :
  P cs X l ->
  P cs X (match sessions l !! sid with
          | Some s =>
              match s_pidfd s with
              | Some w => Loop_unwatch (put_session l sid (set_s_pidfd s None)) w
              | None => l
              end
          | None => l
          end).
Proof.
  intros H. destruct (sessions l !! sid) as [s|] eqn:Hs; [|done].
  destruct (s_pidfd s) as [w|] eqn:Hw; [|done]. eapply C_step; [|exact H]. by apply St_pidfd.
Qed.

Lemma event_P cs l token flags : P cs ∅ l -> P cs ∅ (Loop_event l token flags).
Proof.
  intros H. unfold Loop_event. case_test; [done|].
  destruct (sources (poll l) !! token) as [[sid stream|sid|sid|aid]|]; [| | | |done].
  - by apply (read_output_loop_P (stab cs)).
  - by apply (write_stdin_P (stab cs)).
  - by apply pidfd_event_P, reap_P.
  - destruct (attachments l !! aid) as [a|] eqn:Ha; [|done]. set (sid := a_session a).
    apply st_mark; [apply stab|]. rewrite (right_id_L _ (∪)).
    assert (stable (fun X l => P cs X l /\ in_session l aid sid)) as HQ.
    { apply stable_and; [apply stab|]. intros. by eapply in_session_kept. }
    assert (P cs {[sid]} l /\ in_session l aid sid) as H0.
    { split; [|by eapply C_in_session]. rewrite <-(right_id_L ∅ (∪) {[sid]}).
      apply st_open; [apply stab|done]. }
    assert (sid ∈ ({[sid]} : gset Z)) as Hsid by set_solver.
    set (l1 := if negb (Z.land flags (Z.lor IN RDHUP) =? 0) then _ else l).
    assert (P cs {[sid]} l1 /\ in_session l1 aid sid) as H1.
    { subst l1. case_test; [|done]. apply (read_input_P HQ _ _ _ sid); [done|apply H0|done]. }
    clearbody l1. set (l2 := if negb (Z.land flags OUT =? 0) then _ else l1).
    assert (P cs {[sid]} l2 /\ in_session l2 aid sid) as H2.
    { subst l2. case_test; [|done]. apply (flush_P HQ _ _ _ sid); [done|apply H1|done]. }
    clearbody l2. case_test; [apply (detach_P (stab cs))|]; apply H2.
Qed.

Lemma turn_P l events : P [] ∅ l -> P [] ∅ (turn l events).
Proof.
  intros H. unfold turn. apply settle_P, timers_P, commands_P. apply fold_P; [|done].
  intros l' [token flags]. apply event_P.
Qed.

(** The kernel's answers an input brings are as asked. *)
Definition input_ok (i : Input) : Prop :=
  match i with InKernel _ c _ _ _ _ => K c | _ => True end.

Lemma serve_P l i : input_ok i -> P [] ∅ l -> P [] ∅ (feed l i).
Proof.
  intros Hi H. destruct i; cbn [feed].
  - by apply (cl_start _ _ HP).
  - by apply (cl_post _ _ HP).
  - by apply (cl_post _ _ HP).
  - by apply (cl_kill_events _ _ HP).
  - by apply (cl_post _ _ HP).
  - by apply (cl_post _ _ HP).
  - by apply (cl_kernel _ _ HP).
  - by apply turn_P.
Qed.

Lemma serve_closed ins l : Forall input_ok ins -> P [] ∅ l -> P [] ∅ (feed_all ins l).
Proof.
  unfold feed_all. intros Hins. revert l.
  induction Hins as [|i ins Hi _ IH]; intros l H; [done|]. by apply IH, serve_P.
Qed.
End loop.
Arguments input_ok : clear implicits.

(** ** Properties that do not look at which sessions are open *)

Record flat `{SessionEnv} (P : list Cmd -> Loop -> Prop) : Prop := {
  fl_step cs X l l' : step X l l' -> P cs l -> P cs l';
  fl_ids cs l sid s : P cs l -> sessions l !! sid = Some s -> s_id s = sid;
  fl_ring cs l sid s : P cs l -> sessions l !! sid = Some s -> ring_start (s_ring s) <= ring_end (s_ring s);
  fl_owned cs l sid s aid a : P cs l -> sessions l !! sid = Some s -> aid ∈ s_attachments s ->
    attachments l !! aid = Some a -> a_session a = sid;
  fl_sent cs l aid a : P cs l -> attachments l !! aid = Some a -> 0 <= a_sent a;
  fl_attach cs sid l l' : attached sid l l' -> P cs l -> P cs l';
  fl_dirty cs l d : P cs l -> P cs (set_dirty_ids l d);
  fl_take l : P [] l -> P (cmd_queue l) (set_cmd_queue l []);
  fl_skip c cs l : tracked c = false -> P (c :: cs) l -> P cs l;
  fl_post c l : tracked c = false -> P [] l -> P [] (post l c);
  fl_insert id req conn cs l : P (CmdStart id req conn :: cs) l -> P cs (insert_session l id req);
  fl_kill req_id signal timeout chan cs l :
    P (CmdKill req_id signal timeout chan :: cs) l -> P cs (Loop_kill l req_id signal timeout chan);
  fl_start l req conn created spawned : P [] l -> P [] (start l req conn created spawned);
  fl_kill_events l req_id signal timeout : P [] l -> P [] (kill_events l req_id signal timeout);
  fl_kernel l a c p r t u : P [] l -> P [] (set_os l (kernel (os l) a c p r t u));
}.

Lemma flat_stable `{SessionEnv} P cs : flat P -> stable (fun _ l => P cs l).
Proof.
  intros HP. split.
  - intros. by eapply fl_step.
  - done.
  - intros. unfold mark. by apply fl_dirty.
Qed.

Lemma flat_closed `{SessionEnv} K P : flat P -> closed K (fun cs _ l => P cs l).
Proof.
  intros HP. pose proof (fun cs => flat_stable P cs HP) as Hst.
  split; try (by apply HP); try done.
  - intros. by eapply fl_ids.
  - intros. by eapply fl_ring.
  - intros. by eapply fl_owned.
  - intros. by eapply fl_sent.
  - intros. by eapply fl_attach.
  - intros l sid Hl. rewrite settle_one_body.
    assert (forall l, P [] l -> forall s, sessions l !! sid = Some s -> all_in (s_attachments s) sid l) as Hin.
    { intros l0 Hl0 s Hs aid Hin a Ha. split; [by eapply fl_owned|by eapply fl_sent]. }
    apply (fl_dirty _ HP _ _ (dirty_ids l ∖ {[sid]})) in Hl.
    assert (P [] (settle_body (set_dirty_ids l (dirty_ids l ∖ {[sid]})) sid)) as Hb.
    { apply (settle_body_P (Hst []) {[sid]}); [set_solver|by apply Hin|done]. }
    apply (register_P (Hst []) {[sid]}); [set_solver|by apply Hin|done].
  - intros. by apply fl_kernel.
Qed.

Lemma serve_flat `{SessionEnv} P ins l : flat P -> P [] l -> P [] (feed_all ins l).
Proof.
  intros HP. apply (serve_closed (flat_closed (fun _ => True) P HP)).
  apply Forall_forall. intros [] _; done.
Qed.
