(* ===== verification/SessionLinks.v ===== *)
(** * The tables of the session loop fit together

    Sessions name their attachments and attachments their session, the tokens
    of epoll name exactly the descriptors that are open, and every count is
    within its limit, after any events. *)

From Stdlib Require Import Strings.Byte Strings.String.
From stdpp Require Import gmap sorting.
From S2P Require Import Prelude Io Text Frame Ring Vsock SessionTypes Sessions SessionSteps.

(** ** Sessions and attachments *)

Record sess_ok (sid : Z) (s : Session) : Prop := {
  so_id : s_id s = sid;
  so_nodup : NoDup (s_attachments s);
  so_max : zlen (s_attachments s) <= MAX_PER_SESSION;
  so_owner aid : s_owner s = Some aid -> aid ∈ s_attachments s;
  so_kills : zlen (kills s) <= MAX_KILLS;
  so_streams : NoDup (s_outputs s).*1;
  so_stream st : st ∈ (s_outputs s).*1 -> st = STDOUT \/ st = STDERR;
  so_ring : exists hist, ring_inv (s_ring s) hist;
  so_pidfd : is_Some (s_exit s) -> s_pidfd s = None;
  so_finished : is_Some (finished s) -> is_Some (s_exit s) /\ s_outputs s = [] /\ s_stdin s = None;
}.

Record att_ok (a : Attachment) : Prop := {
  ao_sent : 0 <= a_sent a <= zlen (a_out a);
  ao_taken : 0 <= a_taken a <= zlen (a_inp a);
  ao_inp : zlen (a_inp a) - a_taken a <= MAX_FRAME + 4 + READ_CHUNK;
}.

Record links (l : Loop) : Prop := {
  lk_session sid s : sessions l !! sid = Some s -> sess_ok sid s;
  lk_attachment aid a : attachments l !! aid = Some a ->
    att_ok a /\ aid < next_attachment l /\
    exists s, sessions l !! a_session a = Some s /\ aid ∈ s_attachments s;
  lk_back sid s aid : sessions l !! sid = Some s -> aid ∈ s_attachments s ->
    exists a, attachments l !! aid = Some a /\ a_session a = sid;
  lk_max : Z.of_nat (size (attachments l)) <= MAX_ATTACHMENTS;
}.

Lemma links_same l l' :
  sessions l' = sessions l -> attachments l' = attachments l ->
  next_attachment l' = next_attachment l -> links l -> links l'.
Proof. intros E1 E2 E3 []. by split; rewrite ?E1, ?E2, ?E3. Qed.

Lemma links_session l l' sid s s' :
  sessions l !! sid = Some s -> sess_ok sid s' -> s_attachments s' = s_attachments s ->
  sessions l' = <[sid := s']> (sessions l) -> attachments l' = attachments l ->
  next_attachment l' = next_attachment l -> links l -> links l'.
Proof.
  intros Hs Hok Ha E1 E2 E3 []. split; rewrite ?E1, ?E2, ?E3; try done.
  - intros k b. rewrite lookup_insert. case_decide; [|eauto]. by intros; simplify_eq.
  - intros aid a Haid. destruct (lk_attachment0 _ _ Haid) as (? & ? & b & Hb & ?).
    split_and!; [done..|]. rewrite lookup_insert. case_decide; [|eauto]. simplify_eq.
    exists s'. by rewrite Ha.
  - intros k b aid. rewrite lookup_insert. case_decide; [|eauto].
    intros ?; simplify_eq. rewrite Ha. eauto.
Qed.

Lemma links_attachment l l' aid a a' :
  attachments l !! aid = Some a -> att_ok a' -> a_session a' = a_session a ->
  sessions l' = sessions l -> attachments l' = <[aid := a']> (attachments l) ->
  next_attachment l' = next_attachment l -> links l -> links l'.
Proof.
  intros Ha Hok Hs E1 E2 E3 []. split; rewrite ?E1, ?E2, ?E3; try done.
  - intros k b. rewrite lookup_insert. case_decide; [|eauto]. intros; simplify_eq.
    rewrite Hs. destruct (lk_attachment0 _ _ Ha) as (? & ? & ?). eauto.
  - intros sid s k Hk Hin. destruct (lk_back0 _ _ _ Hk Hin) as (b & Hb & ?).
    rewrite lookup_insert. case_decide; [|eauto]. simplify_eq. eauto.
  - rewrite map_size_insert_Some; done.
Qed.

(** Changes that leave what [sess_ok] says as it is. *)
Lemma sess_ok_same sid s s' :
  s_id s' = s_id s -> s_attachments s' = s_attachments s -> s_owner s' = s_owner s ->
  kills s' = kills s -> (s_outputs s').*1 = (s_outputs s).*1 -> s_ring s' = s_ring s ->
  s_exit s' = s_exit s -> finished s' = finished s -> (s_pidfd s = None -> s_pidfd s' = None) ->
  (s_stdin s = None -> s_stdin s' = None) -> sess_ok sid s -> sess_ok sid s'.
Proof.
  intros E1 E2 E3 E4 E5 E6 E7 E8 E9 E10 [].
  split; rewrite ?E1, ?E2, ?E3, ?E4, ?E5, ?E6, ?E7, ?E8; try done; auto.
  intros Hf. destruct (so_finished0 Hf) as (? & Ho & ?). split_and!; auto.
  rewrite Ho in E5. by destruct (s_outputs s').
Qed.

(** ** What the larger steps do *)

Lemma detach_shape l aid :
  (attachments l !! aid = None /\ Loop_detach l aid = l) \/
  exists a o, attachments l !! aid = Some a /\ same_world (os l) o /\
    let l1 := emit (set_os (set_poll (set_attachments l (delete aid (attachments l)))
                     (MkPoll (delete (w_token (a_sock a)) (sources (poll l))) (poll_next (poll l)))) o)
                   (EClosed aid) in
    Loop_detach l aid =
      match sessions l !! a_session a with
      | Some s => mark (put_session l1 (a_session a) (detach_session s aid (now l))) (a_session a)
      | None => l1
      end.
Proof.
  unfold Loop_detach. destruct (attachments l !! aid) as [a|] eqn:Ha; [right|by left].
  destruct (unwatch_shape (set_attachments l (delete aid (attachments l))) (a_sock a)) as (o & Ho & E).
  exists a, o. split_and!; [done|done|]. rewrite E. cbn.
  destruct (sessions l !! a_session a); [|done]. unfold now. cbn. by rewrite (sw_now _ _ Ho).
Qed.

Lemma detach_session_fields s aid t :
  s_attachments (detach_session s aid t) = filter (fun other => other <> aid) (s_attachments s) /\
  s_owner (detach_session s aid t) = (if bool_decide (s_owner s = Some aid) then None else s_owner s) /\
  exists h, detach_session s aid t =
    set_hangup_at (set_s_owner (set_s_attachments s (s_attachments (detach_session s aid t)))
                     (s_owner (detach_session s aid t))) h.
Proof.
  unfold detach_session. cbn. destruct (bool_decide (s_owner s = Some aid)); cbn; case_test; cbn;
    (split_and!; [done..|]); eexists; reflexivity.
Qed.

(** One frame of input. *)
Record framed (l : Loop) (sid aid : Z) (s : Session) (kind : byte) (payload : bytes)
    (s' : Session) (l' : Loop) : Prop := {
  fr_owner : s_owner s' = s_owner s \/ (s_owner s = None /\ s_owner s' = Some aid);
  fr_same : s' = set_last_activity (set_s_size (set_stdin_eof
    (set_s_owner (set_stdin_queue s (stdin_queue s')) (s_owner s')) (stdin_eof s'))
    (s_size s')) (last_activity s');
  fr_queue : exists o es, same_world (os l) o /\ l' = set_os l (set_log o (log o ++ es)) /\
    ((stdin_queue s' = stdin_queue s /\ (es = [] \/ exists e, es = [e] /\ told e = true)) \/
     (kind = STDIN /\ is_Some (s_stdin s) /\ takes_input s aid = true /\
      stdin_queue s' = stdin_queue s ++ payload /\ es = [EQueued sid payload]));
}.

Lemma take_frame_framed l sid aid s kind payload s' l' :
  take_frame l sid aid s kind payload = (s', l') -> framed l sid aid s kind payload s' l'.
Proof.
  assert (Hnil : forall o : Os, set_log o (log o ++ []) = o) by (intros; by rewrite app_nil_r).
  assert (forall s1, (s_owner s1 = s_owner s \/ (s_owner s = None /\ s_owner s1 = Some aid)) ->
    stdin_queue s1 = stdin_queue s ->
    s1 = set_last_activity (set_s_size (set_stdin_eof
       (set_s_owner (set_stdin_queue s (stdin_queue s1)) (s_owner s1)) (stdin_eof s1))
       (s_size s1)) (last_activity s1) ->
    framed l sid aid s kind payload s1 l) as Hsame.
  { intros s1 H1 H2 H3. split; [done|done|]. exists (os l), []. rewrite Hnil. split_and!; [done|done|left; auto]. }
  assert (framed l sid aid s kind payload s l) as Hrefl.
  { apply Hsame; [by left|done|done]. }
  unfold take_frame, Session_claim. intros H.
  case_bool_decide as HK; [|case_bool_decide; [|case_bool_decide; [|case_bool_decide; [|by simplify_eq]]]].
  - destruct (s_owner s) as [ow|] eqn:Eo; cbn in H; case_test_in H; simplify_eq; bool_to_prop.
    + split; [by left|done|]. exists (os l), [EQueued sid payload].
      split_and!; [done|done|]. right. unfold takes_input. rewrite Eo. rewrite Z.eqb_eq. auto.
    + by apply Hrefl.
    + split; [by right|done|]. exists (os l), [EQueued sid payload].
      split_and!; [done|done|]. right. unfold takes_input. rewrite Eo. auto.
    + apply Hsame; [by right|done|done].
  - destruct (s_owner s) as [ow|] eqn:Eo; cbn in H; [case_test_in H|]; simplify_eq;
      (apply Hsame; [by auto|done|done]).
  - destruct (parse_resize payload) as [[rows cols]|]; [|by simplify_eq].
    case_test_in H; [|by simplify_eq]. unfold Loop_resize in H.
    destruct (s_owner s) as [ow|] eqn:Eo; cbn in H; [case_test_in H; [|by simplify_eq]|];
      (destruct (s_stdin s); [|simplify_eq; apply Hsame; [by auto|done|done]]);
      (destruct (sys_ok (os l)) as [ok o] eqn:Ek; apply sys_ok_world in Ek; case_test_in H; simplify_eq);
      (split; [by auto|done|]);
      first [exists o, [EResized sid rows cols]; split_and!; [done|done|left; split; eauto]
            |exists o, []; rewrite Hnil; split_and!; [done|done|left; auto]].
  - simplify_eq. split; [by auto|done|].
    exists (os l), [ESignal sid SIGTERM]. split_and!; [done|done|left; split; eauto].
Qed.

Lemma finish_cases l sid s s' l' :
  finish l sid s = (s', l') ->
  (s' = s /\ l' = l) \/
  (finished s = None /\ is_Some (s_exit s) /\ s_outputs s = [] /\
   s' = set_hangup_at (set_finished s (Some (now l))) None /\ l' = set_os l (release (os l))).
Proof. unfold finish. case_test; intros; simplify_eq; bool_to_prop; [right; by split_and!|by left]. Qed.

Lemma close_cases l sid s :
  (finished s = None /\ close_stdin l sid s = put_session l sid s) \/
  (s_stdin s = None /\ close_stdin l sid s = put_session l sid (set_stdin_queue s [])) \/
  exists w, s_stdin s = Some w /\ (is_Some (finished s) \/ stdin_queue s = []) /\
    close_stdin l sid s =
      emit (Loop_unwatch (put_session l sid (set_s_stdin (set_stdin_queue s []) None)) w) (EStdinClosed sid).
Proof.
  unfold close_stdin. case_test.
  - right. cbn. destruct (s_stdin s) as [w|]; [right|by left]. exists w. split_and!; [done| |done].
    bool_to_prop. destruct H as [?|?]; bool_to_prop; auto.
  - left. split; [|done]. destruct (finished s); [|done]. by rewrite andb_false_r in Heqb.
Qed.

Lemma find_output_elem st outs w : find_output st outs = Some w -> st ∈ outs.*1.
Proof.
  induction outs as [|[st' w'] outs IH]; cbn; [done|]. case_bool_decide; subst; [by left|]. right. auto.
Qed.

Lemma remove_output_sub st outs : (remove_output st outs).*1 `sublist_of` outs.*1.
Proof.
  induction outs as [|[st' w'] outs IH]; cbn; [done|].
  case_bool_decide; cbn; [by apply sublist_cons|by apply sublist_skip].
Qed.

Lemma sess_ok_outputs sid s outs :
  sess_ok sid s -> outs.*1 `sublist_of` (s_outputs s).*1 -> sess_ok sid (set_s_outputs s outs).
Proof.
  intros [] Hsub. split; cbn; try done.
  - by eapply sublist_NoDup.
  - intros st Hst. apply so_stream0. by eapply elem_of_sublist.
  - intros Hf. destruct (so_finished0 Hf) as (? & Ho & ?). rewrite Ho in Hsub.
    apply sublist_nil_r in Hsub. split_and!; auto. by destruct outs.
Qed.

Lemma output_sess_ok sid s stream data t :
  sess_ok sid s -> sess_ok sid (Session_output s stream data t).
Proof.
  intros [? ? ? ? ? ? ? [hist Hr] ? ?]. split; try done. exists (hist ++ tag stream data).
  cbn. by apply push_inv.
Qed.

Lemma framed_sess_ok l sid aid s kind payload s' l' :
  framed l sid aid s kind payload s' l' -> aid ∈ s_attachments s -> sess_ok sid s -> sess_ok sid s'.
Proof.
  intros [Ho Hs _] Hin []. rewrite Hs. split; cbn; try done.
  intros k Hk. destruct Ho as [E|[_ E]]; [apply so_owner0; congruence|]. simplify_eq. congruence.
Qed.

Lemma links_detach l aid : links l -> links (Loop_detach l aid).
Proof.
  intros H. destruct (detach_shape l aid) as [[_ ->]|(a & o & Ha & Ho & E)]; [done|]. rewrite E. clear E.
  destruct (lk_attachment _ H _ _ Ha) as (Hok & Hlt & s & Hs & Hin). rewrite Hs.
  destruct (detach_session_fields s aid (now l)) as (Fa & Fo & h & Fs).
  pose proof (lk_session _ H _ _ Hs) as Hso. split; cbn.
  - intros k b. rewrite lookup_insert. destruct (decide (a_session a = k)) as [<-|]; [|by apply lk_session].
    intros ?; simplify_eq.
    rewrite Fs, Fa, Fo. destruct Hso. split; cbn; try done.
    + by apply NoDup_filter.
    + etrans; [|exact so_max0]. apply Nat2Z.inj_le, length_filter.
    + intros k. case_bool_decide; [done|]. intros Hk. apply list_elem_of_filter. split; [congruence|auto].
  - intros k b [Hne Hb]%lookup_delete_Some. destruct (lk_attachment _ H _ _ Hb) as (? & ? & s1 & Hs1 & Hin1).
    split_and!; [done..|]. rewrite lookup_insert.
    destruct (decide (a_session a = a_session b)) as [Ek|]; [|eauto].
    eexists. split; [done|]. rewrite Fa. apply list_elem_of_filter. rewrite <-Ek in Hs1. by simplify_eq.
  - intros k b aid' Hb Hin'. rewrite lookup_delete_ne.
    + revert Hb. rewrite lookup_insert. destruct (decide (a_session a = k)) as [<-|]; [|by intros; eapply lk_back].
      intros ?; simplify_eq. rewrite Fa in Hin'. apply list_elem_of_filter in Hin' as [_ ?].
      by eapply lk_back.
    + intros <-. revert Hb. rewrite lookup_insert. destruct (decide (a_session a = k)) as [Ek|]; intros Hb.
      * simplify_eq. rewrite Fa in Hin'. by apply list_elem_of_filter in Hin' as [? _].
      * destruct (lk_back _ H _ _ _ Hb Hin') as (a' & Ha' & <-). simplify_eq.
  - rewrite map_size_delete_Some by done. pose proof (lk_max _ H). lia.
Qed.

Ltac frame_session :=
  eapply links_session; [eassumption| | |reflexivity|reflexivity|reflexivity|assumption]; [|done].
Ltac frame_attachment Ha :=
  eapply links_attachment; [exact Ha| | |reflexivity|reflexivity|reflexivity|assumption]; [|done];
  match goal with H : links _ |- _ =>
    let Hok := fresh "Hok" in destruct (lk_attachment _ H _ _ Ha) as [Hok _];
    destruct Hok; split; cbn; try lia end.

Lemma links_finish l sid s s' l' :
  sessions l !! sid = Some s -> finish l sid s = (s', l') -> links l -> links (close_stdin l' sid s').
Proof.
  intros Hs Hf HL. pose proof (lk_session _ HL _ _ Hs) as Hso.
  destruct (finish_cases _ _ _ _ _ Hf) as [[-> ->]|(Hn & He & Ho & -> & ->)];
    match goal with |- links (close_stdin ?l ?sid ?s) =>
      destruct (close_cases l sid s) as [[Hc ->]|[[Hc ->]|(w & Hc & _ & ->)]] end;
    try unwatch; try done; frame_session; destruct Hso; split; cbn; try done;
    (intros Hf'; destruct (so_finished0 Hf') as (? & ? & ?); done).
Qed.

Lemma step_links `{SessionEnv} X l l' : step X l l' -> links l -> links l'.
Proof.
  intros Hstep HL.
  destruct Hstep as [l o Ho|l e He|l sid s st w data t Hs Hw Hd Hr HX|l sid s st w Hs Hw HX
    |l sid s w data rest Hs Hw Hq HX|l sid s w Hs Hw HX|l aid|l aid a data Ha HX Hb Hd|l aid a Ha
    |l aid a s kind payload rest s' l' Ha Hs HX Hp Hz Hk Ht|l aid a s Ha Hs HX Hq|l aid a Ha HX
    |l aid a Ha HX|l aid a s c out Ha Hs HX Hc Hf|l aid a s Ha Hs HX Hf Hc He|l aid a n Ha HX Hn Hle
    |l aid a payload Ha HX Hc|l id s status Hs HX|l id status Hs|l sid s w Hs Hw|l sid s v Hs|l sid t
    |l id s Hs Hf Ha Hk|l sid s s' l' Hs HX Hf|l sid s outs stdin pidfd Hs HX F1 F2 F3
    |l aid a w Ha HX Ht|l exits|l b|l t];
    try (pose proof (lk_session _ HL _ _ Hs) as Hso).
  - by apply (links_same l).
  - by apply (links_same l).
  - frame_session. by apply output_sess_ok.
  - unwatch. frame_session. apply sess_ok_outputs; [done|apply remove_output_sub].
  - frame_session. by apply (sess_ok_same _ s).
  - unwatch. frame_session. by apply (sess_ok_same _ s).
  - by apply links_detach.
  - frame_attachment Ha; zlen_lia.
  - frame_attachment Ha; zlen_lia.
  - apply take_frame_framed in Ht. destruct (lk_attachment _ HL _ _ Ha) as (Hok & _ & s1 & Hs1 & Hin).
    simplify_eq. pose proof (framed_sess_ok _ _ _ _ _ _ _ _ Ht Hin Hso) as Hso'.
    destruct Ht as [_ Fs (o & es & Ho & -> & _)].
    eapply (links_attachment (put_session l (a_session a) s') _ aid a);
      [exact Ha| | |reflexivity|reflexivity|reflexivity|]; [|done|].
    2: { eapply links_session; [exact Hs|exact Hso'| |reflexivity..|exact HL]. by rewrite Fs. }
    assert (zlen (zdrop (a_taken a) (a_inp a)) = 5 + zlen payload + zlen rest) as Hzd.
    { rewrite Hp, zlen_app, zlen_frame_bytes. lia. }
    destruct Hok. split; cbn; zlen_lia.
  - frame_attachment Ha.
  - frame_attachment Ha.
  - frame_attachment Ha; zlen_lia.
  - destruct Hso. destruct so_ring0 as [hist Hr].
    destruct (Ring_frames_spec 0 (s_ring s) hist (a_cursor a) SEND_LOW (a_out a)) as (fs & E & _); [done|done|].
    rewrite Hf in E. simplify_eq. frame_attachment Ha; zlen_lia.
  - frame_attachment Ha. unfold push_frame. zlen_lia.
  - frame_attachment Ha.
  - frame_attachment Ha. unfold push_frame. zlen_lia.
  - cbn. destruct (s_pidfd s) as [w|] eqn:Hw; [unwatch|]; frame_session;
      (destruct Hso; split; cbn; try done; intros Hf; by destruct (so_finished0 Hf) as (? & ? & ?)).
  - by apply (links_same l).
  - unwatch. frame_session. by apply (sess_ok_same _ s).
  - frame_session. by apply (sess_ok_same _ s).
  - destruct (kill_timer_shape t l sid) as [->|(s & ws & o & es & Hs & -> & Ho & Hz & _)]; [done|].
    frame_session. destruct (lk_session _ HL _ _ Hs). split; cbn; try done. lia.
  - destruct HL. split; cbn; try done.
    + intros k b [_ Hb]%lookup_delete_Some. eauto.
    + intros k b Hb. destruct (lk_attachment0 _ _ Hb) as (? & ? & s1 & Hs1 & Hin).
      split_and!; [done..|]. exists s1. split; [|done]. apply lookup_delete_Some. split; [|done].
      intros ->. simplify_eq. rewrite Ha in Hin. by apply elem_of_nil in Hin.
    + intros k b aid [_ Hb]%lookup_delete_Some. eauto.
  - by eapply links_finish.
  - frame_session. eapply sess_ok_same; [..|exact Hso]; cbn; try done.
    + clear -F1. induction F1 as [|?? ?? [E _]]; cbn; [done|]. by f_equal.
    + intros E. rewrite E in F3. by inversion F3.
    + intros E. rewrite E in F2. by inversion F2.
  - frame_attachment Ha.
  - by apply (links_same l).
  - by apply (links_same l).
  - by apply (links_same l).
Qed.

(** ** Tokens and descriptors *)

#[export] Instance Source_eq_dec : EqDecision Source.
Proof. solve_decision. Defined.

(** The descriptor a source stands for, if it is open. *)
Definition descriptor (l : Loop) (src : Source) : option Watched :=
  match src with
  | SrcOutput sid st => s ← sessions l !! sid; find_output st (s_outputs s)
  | SrcStdin sid => s ← sessions l !! sid; s_stdin s
  | SrcPidfd sid => s ← sessions l !! sid; s_pidfd s
  | SrcAttachment aid => a_sock <$> attachments l !! aid
  end.
Definition token_of (l : Loop) (src : Source) : option Z := w_token <$> descriptor l src.

(** The tokens registered are those of the open descriptors. *)
Record poll_ok (l : Loop) : Prop := {
  po_token tok src : sources (poll l) !! tok = Some src <-> token_of l src = Some tok;
  po_range tok src : sources (poll l) !! tok = Some src -> WAKE < tok < poll_next (poll l);
  po_next : WAKE < poll_next (poll l);
}.

Lemma poll_same l l' :
  poll l' = poll l -> (forall src, token_of l' src = token_of l src) -> poll_ok l -> poll_ok l'.
Proof. intros E Ht []. split; rewrite ?E; try done. intros. by rewrite Ht. Qed.

Lemma poll_unwatched l l' src tok :
  token_of l src = Some tok ->
  poll l' = MkPoll (delete tok (sources (poll l))) (poll_next (poll l)) ->
  token_of l' src = None -> (forall src', src' <> src -> token_of l' src' = token_of l src') ->
  poll_ok l -> poll_ok l'.
Proof.
  intros Ht E Hn Ho []. split; rewrite ?E; cbn; try done.
  - intros tok' src'. rewrite lookup_delete_Some, po_token0.
    destruct (decide (src' = src)) as [->|Hne]; [rewrite Hn; naive_solver|].
    rewrite Ho by done. split; [tauto|]. intros H. split; [|done]. intros <-.
    apply po_token0 in H, Ht. congruence.
  - intros tok' src' [_ ?]%lookup_delete_Some. eauto.
Qed.

Lemma poll_watched l l' src w p :
  poll_watch (poll l) src = (w, p) -> poll l' = p -> token_of l src = None ->
  token_of l' src = Some (w_token w) -> (forall src', src' <> src -> token_of l' src' = token_of l src') ->
  poll_ok l -> poll_ok l'.
Proof.
  unfold poll_watch. intros [= <- <-] E Hn Hw Ho []. cbn in *.
  assert (sources (poll l) !! poll_next (poll l) = None) as Hfree.
  { destruct (_ !! _) eqn:E'; [|done]. apply po_range0 in E'. lia. }
  split; rewrite E; cbn.
  - intros tok' src'. rewrite lookup_insert. case_decide as Ht.
    + subst tok'. destruct (decide (src' = src)) as [->|Hne]; [naive_solver|].
      rewrite Ho, <-po_token0, Hfree by done. naive_solver.
    + destruct (decide (src' = src)) as [->|Hne]; [|by rewrite Ho].
      rewrite Hw, po_token0, Hn. naive_solver.
  - intros tok' src'. rewrite lookup_insert. case_decide; [lia|]. intros ?%po_range0. lia.
  - lia.
Qed.

(** A change of one session shows in its own descriptors only. *)
Lemma token_session (keep : Source -> Prop) l l' sid s s' :
  sessions l !! sid = Some s ->
  (forall st, keep (SrcOutput sid st) ->
     w_token <$> find_output st (s_outputs s') = w_token <$> find_output st (s_outputs s)) ->
  (keep (SrcStdin sid) -> w_token <$> s_stdin s' = w_token <$> s_stdin s) ->
  (keep (SrcPidfd sid) -> w_token <$> s_pidfd s' = w_token <$> s_pidfd s) ->
  sessions l' = <[sid := s']> (sessions l) -> attachments l' = attachments l ->
  forall src, keep src -> token_of l' src = token_of l src.
Proof.
  intros Hs H1 H2 H3 E1 E2 src Hk. unfold token_of, descriptor. rewrite E1, E2.
  destruct src as [k st|k|k|k]; [..|done]; rewrite lookup_insert; (case_decide; [|done]); subst k;
    rewrite Hs; cbn; auto.
Qed.

Lemma token_attachment l l' aid a a' :
  attachments l !! aid = Some a -> w_token (a_sock a') = w_token (a_sock a) ->
  sessions l' = sessions l -> attachments l' = <[aid := a']> (attachments l) ->
  forall src, token_of l' src = token_of l src.
Proof.
  intros Ha Ht E1 E2 src. unfold token_of, descriptor. rewrite E1, E2.
  destruct src as [k st|k|k|k]; [done..|]. rewrite lookup_insert. case_decide; [|done]. subst k.
  rewrite Ha. change (Some (w_token (a_sock a')) = Some (w_token (a_sock a))). by rewrite Ht.
Qed.

Lemma find_output_remove st st' outs :
  NoDup outs.*1 -> find_output st' (remove_output st outs) =
    if bool_decide (st' = st) then None else find_output st' outs.
Proof.
  induction outs as [|[k w] outs IH]; cbn; [by case_bool_decide|]. intros [Hk Hnd]%NoDup_cons.
  destruct (decide (k = st)) as [->|Hne].
  - rewrite (bool_decide_eq_true_2 (st = st)) by done.
    destruct (decide (st' = st)) as [->|Hst].
    + rewrite bool_decide_eq_true_2 by done.
      destruct (find_output st outs) eqn:E; [|done]. by apply find_output_elem in E.
    + by rewrite !bool_decide_eq_false_2 by congruence.
  - rewrite (bool_decide_eq_false_2 (k = st)) by done. cbn. rewrite IH by done.
    repeat case_bool_decide; congruence.
Qed.

Lemma find_output_same_tokens st outs outs' :
  Forall2 (fun p p' => p'.1 = p.1 /\ same_token p.2 p'.2) outs outs' ->
  w_token <$> find_output st outs' = w_token <$> find_output st outs.
Proof.
  induction 1 as [|[k w] [k' w'] outs outs' [E Ht] _ IH]; cbn in *; [done|]. subst.
  case_bool_decide; [|done]. change (Some (w_token w') = Some (w_token w)). by rewrite Ht.
Qed.

Ltac keep_tokens Hs :=
  match goal with HP : poll_ok ?l |- _ => apply (poll_same l); [reflexivity| |exact HP] end;
  intros src; eapply (token_session (fun _ => True)); [exact Hs|..|reflexivity|reflexivity|done]; try done.
Ltac keep_sock Ha :=
  match goal with HP : poll_ok ?l |- _ => apply (poll_same l); [reflexivity| |exact HP] end;
  eapply token_attachment; [exact Ha| |reflexivity|reflexivity]; done.

Lemma poll_detach l aid : poll_ok l -> poll_ok (Loop_detach l aid).
Proof.
  intros HP. destruct (detach_shape l aid) as [[_ ->]|(a & o & Ha & Ho & E)]; [done|]. rewrite E. clear E.
  eapply (poll_unwatched l _ (SrcAttachment aid) (w_token (a_sock a))); [| | | |done].
  - unfold token_of, descriptor. by rewrite Ha.
  - by destruct (sessions l !! _).
  - unfold token_of, descriptor. destruct (sessions l !! _); cbn; by rewrite lookup_delete_eq.
  - intros src Hne. destruct (sessions l !! a_session a) as [s|] eqn:Hs; unfold token_of, descriptor; cbn.
    + destruct (detach_session_fields s aid (now l)) as (_ & _ & h & ->).
      destruct src as [k st|k|k|k]; cbn; [..|rewrite lookup_delete_ne; congruence];
        rewrite lookup_insert; (case_decide; [subst k; by rewrite Hs|done]).
    + destruct src; [done..|]. rewrite lookup_delete_ne; congruence.
Qed.

Lemma poll_pidfd l l' sid s s' w :
  sessions l !! sid = Some s -> s_pidfd s = Some w -> s_pidfd s' = None ->
  s_outputs s' = s_outputs s -> s_stdin s' = s_stdin s ->
  sessions l' = <[sid := s']> (sessions l) -> attachments l' = attachments l ->
  poll l' = MkPoll (delete (w_token w) (sources (poll l))) (poll_next (poll l)) ->
  poll_ok l -> poll_ok l'.
Proof.
  intros Hs Hw Hn Ho Hi E1 E2 E3 HP. eapply (poll_unwatched l _ (SrcPidfd sid)); [|exact E3| | |done].
  - unfold token_of, descriptor. rewrite Hs. cbn. by rewrite Hw.
  - unfold token_of, descriptor. rewrite E1, lookup_insert_eq. cbn. by rewrite Hn.
  - apply (token_session _ l l' sid s s'); try done; intros; by rewrite ?Ho, ?Hi.
Qed.

Lemma poll_stdin l l' sid s s' w :
  sessions l !! sid = Some s -> s_stdin s = Some w -> s_stdin s' = None ->
  s_outputs s' = s_outputs s -> s_pidfd s' = s_pidfd s ->
  sessions l' = <[sid := s']> (sessions l) -> attachments l' = attachments l ->
  poll l' = MkPoll (delete (w_token w) (sources (poll l))) (poll_next (poll l)) ->
  poll_ok l -> poll_ok l'.
Proof.
  intros Hs Hw Hn Ho Hi E1 E2 E3 HP. eapply (poll_unwatched l _ (SrcStdin sid)); [|exact E3| | |done].
  - unfold token_of, descriptor. rewrite Hs. cbn. by rewrite Hw.
  - unfold token_of, descriptor. rewrite E1, lookup_insert_eq. cbn. by rewrite Hn.
  - apply (token_session _ l l' sid s s'); try done; intros; by rewrite ?Ho, ?Hi.
Qed.

Ltac drop_fd lem Hs Hw :=
  eapply lem; [exact Hs|exact Hw| | | |reflexivity|reflexivity|reflexivity|eassumption]; done.

Lemma poll_finish l sid s s' l' :
  sessions l !! sid = Some s -> finish l sid s = (s', l') -> poll_ok l -> poll_ok (close_stdin l' sid s').
Proof.
  intros Hs Hf HP.
  destruct (finish_cases _ _ _ _ _ Hf) as [[-> ->]|(Hn & He & Ho & -> & ->)];
    match goal with |- poll_ok (close_stdin ?l ?sid ?s) =>
      destruct (close_cases l sid s) as [[Hc ->]|[[Hc ->]|(w & Hc & _ & ->)]] end;
    try done; try (keep_tokens Hs); unwatch; drop_fd poll_stdin Hs Hc.
Qed.

Lemma step_poll `{SessionEnv} X l l' : step X l l' -> links l -> poll_ok l -> poll_ok l'.
Proof.
  intros Hstep HL HPo.
  destruct Hstep as [l o Ho|l e He|l sid s st w data t Hs Hw Hd Hr HX|l sid s st w Hs Hw HX
    |l sid s w data rest Hs Hw Hq HX|l sid s w Hs Hw HX|l aid|l aid a data Ha HX Hb Hd|l aid a Ha
    |l aid a s kind payload rest s' l' Ha Hs HX Hp Hz Hk Ht|l aid a s Ha Hs HX Hq|l aid a Ha HX
    |l aid a Ha HX|l aid a s c out Ha Hs HX Hc Hf|l aid a s Ha Hs HX Hf Hc He|l aid a n Ha HX Hn Hle
    |l aid a payload Ha HX Hc|l id s status Hs HX|l id status Hs|l sid s w Hs Hw|l sid s v Hs|l sid t
    |l id s Hs Hf Ha Hk|l sid s s' l' Hs HX Hf|l sid s outs stdin pidfd Hs HX F1 F2 F3
    |l aid a w Ha HX Ht|l exits|l b|l t]; try (by apply (poll_same l)); try (by keep_sock Ha).
  - keep_tokens Hs.
  - pose proof (so_streams _ _ (lk_session _ HL _ _ Hs)) as Hnd. unwatch.
    eapply (poll_unwatched l _ (SrcOutput sid st)); [|reflexivity| | |done].
    + unfold token_of, descriptor. rewrite Hs. cbn. by rewrite Hw.
    + unfold token_of, descriptor. cbn. rewrite lookup_insert_eq. cbn.
      by rewrite find_output_remove, bool_decide_eq_true_2.
    + eapply token_session; [exact Hs|..|reflexivity|reflexivity]; try done.
      intros st' Hne. cbn. rewrite find_output_remove, bool_decide_eq_false_2; congruence.
  - keep_tokens Hs.
  - unwatch. drop_fd poll_stdin Hs Hw.
  - by apply poll_detach.
  - destruct (take_frame_framed _ _ _ _ _ _ _ _ Ht) as [_ Fs (o & es & Ho & -> & _)].
    eapply (poll_same (put_session l (a_session a) s')); [done| |].
    + eapply token_attachment; [exact Ha| |reflexivity|reflexivity]; done.
    + rewrite Fs. keep_tokens Hs.
  - cbn. destruct (s_pidfd s) as [w|] eqn:Hw; [unwatch; drop_fd poll_pidfd Hs Hw|keep_tokens Hs].
  - unwatch. drop_fd poll_pidfd Hs Hw.
  - keep_tokens Hs.
  - destruct (kill_timer_shape t l sid) as [->|(s & ws & o & es & Hs & -> & Ho & Hz & _)]; [done|].
    keep_tokens Hs.
  - destruct (lk_session _ HL _ _ Hs). destruct (so_finished0 Hf) as (He & Ho & Hi).
    eapply (poll_same l); [done| |done].
    intros [k st|k|k|k]; unfold token_of, descriptor; cbn; [..|done]; rewrite lookup_delete;
      (case_decide; [subst k|done]); rewrite Hs; cbn; by rewrite ?Ho, ?Hi, ?so_pidfd0.
  - by eapply poll_finish.
  - keep_tokens Hs.
    + intros st _. cbn. by apply find_output_same_tokens.
    + intros _. cbn. inversion F2 as [?? E|]; [|done]. cbn. by rewrite E.
    + intros _. cbn. inversion F3 as [?? E|]; [|done]. cbn. by rewrite E.
Qed.

(** ** New attachments and sessions *)

Lemma links_attached `{SessionEnv} sid l l' : attached sid l l' -> links l -> links l'.
Proof.
  intros Hatt HL. destruct Hatt as [l s info payload sock l' is_owner Hs Hm HM Hj Hid Hr Ho Hw].
  unfold Loop_watch in Hw. destruct (poll_watch _ _) as [w p]. simplify_eq.
  pose proof (lk_session _ HL _ _ Hs) as Hso. set (aid := next_attachment l).
  assert (attachments l !! aid = None) as Hfree.
  { destruct (attachments l !! aid) eqn:E; [|done]. apply lk_attachment in E; [|done].
    unfold aid in E. lia. }
  assert (aid ∉ s_attachments s) as Hnin.
  { intros Hin. destruct (lk_back _ HL _ _ _ Hs Hin) as (? & ? & _). congruence. }
  split; cbn.
  - intros k b. rewrite lookup_insert. case_decide; [subst k|by apply lk_session].
    intros ?; simplify_eq. destruct Hso. split; cbn.
    + by destruct is_owner.
    + apply NoDup_app. split_and!; [done| |apply NoDup_singleton].
      intros k Hk Hk'%list_elem_of_singleton. by subst.
    + zlen_lia.
    + intros k. destruct is_owner; cbn; intros Hk; [simplify_eq|]; apply elem_of_app; [right|left; auto].
      by apply list_elem_of_singleton.
    + by destruct is_owner.
    + by destruct is_owner.
    + by destruct is_owner.
    + by destruct is_owner.
    + by destruct is_owner.
    + by destruct is_owner.
  - intros k b. rewrite lookup_insert. fold aid. case_decide as Ek.
    + subst k. intros ?; simplify_eq. cbn. split_and!; [|lia|].
      * split; cbn; unfold push_frame; change READ_CHUNK with 65536; change MAX_FRAME with 1048576; zlen_lia.
      * rewrite lookup_insert_eq. eexists. split; [done|]. cbn. apply elem_of_app. right.
        by apply list_elem_of_singleton.
    + intros Hb. destruct (lk_attachment _ HL _ _ Hb) as (? & ? & s1 & Hs1 & Hin1).
      split_and!; [done|lia|]. rewrite lookup_insert. case_decide as Es; [|eauto]. subst sid.
      eexists. split; [done|]. cbn. simplify_eq. apply elem_of_app. by left.
  - intros k b aid' Hb Hin. revert Hb. rewrite lookup_insert. fold aid. case_decide as Ek.
    + subst k. intros ?; simplify_eq. cbn in Hin. apply elem_of_app in Hin as [Hin|Hin].
      * rewrite lookup_insert_ne by congruence. by eapply lk_back.
      * apply list_elem_of_singleton in Hin as ->. rewrite lookup_insert_eq. eauto.
    + intros Hb. destruct (lk_back _ HL _ _ _ Hb Hin) as (? & ? & ?).
      rewrite lookup_insert_ne by congruence. eauto.
  - rewrite map_size_insert_None by done. lia.
Qed.

Lemma poll_attached `{SessionEnv} sid l l' : attached sid l l' -> links l -> poll_ok l -> poll_ok l'.
Proof.
  intros Hatt HL HPo. destruct Hatt as [l s info payload sock l' is_owner Hs Hm HM Hj Hid Hr Ho Hw].
  unfold Loop_watch in Hw. destruct (poll_watch _ _) as [w p] eqn:Ep. simplify_eq.
  eapply (poll_watched l _ (SrcAttachment (next_attachment l)) sock p); [exact Ep|done|..|done].
  - unfold token_of, descriptor. destruct (attachments l !! _) eqn:E; [|done].
    apply lk_attachment in E; [lia|done].
  - unfold token_of, descriptor. cbn. by rewrite lookup_insert_eq.
  - intros src Hne. unfold token_of, descriptor. cbn. destruct src as [k st|k|k|k];
      [..|by rewrite lookup_insert_ne by congruence]; rewrite lookup_insert;
      (case_decide; [subst k; rewrite Hs; by destruct is_owner|done]).
Qed.

Lemma links_insert l l' id s :
  sessions l !! id = None -> sess_ok id s -> s_attachments s = [] ->
  sessions l' = <[id := s]> (sessions l) -> attachments l' = attachments l ->
  next_attachment l' = next_attachment l -> links l -> links l'.
Proof.
  intros Hn Hok Ha E1 E2 E3 []. split; rewrite ?E1, ?E2, ?E3; try done.
  - intros k b. rewrite lookup_insert. case_decide; [|eauto]. by intros; simplify_eq.
  - intros k b Hb. destruct (lk_attachment0 _ _ Hb) as (? & ? & s1 & Hs1 & ?).
    split_and!; [done..|]. rewrite lookup_insert_ne by congruence. eauto.
  - intros k b aid. rewrite lookup_insert. case_decide; [|eauto]. intros ? Hin; simplify_eq.
    rewrite Ha in Hin. by apply not_elem_of_nil in Hin.
Qed.

Lemma poll_add l id s s' src w p :
  sessions l !! id = Some s -> poll_watch (poll l) src = (w, p) ->
  token_of l src = None -> token_of (put_session l id s') src = Some (w_token w) ->
  (forall st, SrcOutput id st <> src ->
     w_token <$> find_output st (s_outputs s') = w_token <$> find_output st (s_outputs s)) ->
  (SrcStdin id <> src -> s_stdin s' = s_stdin s) -> (SrcPidfd id <> src -> s_pidfd s' = s_pidfd s) ->
  poll_ok l -> poll_ok (set_poll (put_session l id s') p).
Proof.
  intros Hs Hp Hn Hw H1 H2 H3 HP. eapply (poll_watched l _ src w p); [done|done|done|exact Hw| |done].
  intros src' Hne. eapply (token_session (fun x => x <> src)); [exact Hs|exact H1|..|reflexivity|reflexivity|done];
    intros; by rewrite ?H2, ?H3.
Qed.

Lemma find_output_app st outs outs' :
  find_output st (outs ++ outs') =
    match find_output st outs with Some w => Some w | None => find_output st outs' end.
Proof. induction outs as [|[k w] outs IH]; cbn; [done|]. by case_bool_decide. Qed.

Lemma find_output_fresh st outs : st ∉ outs.*1 -> find_output st outs = None.
Proof. intros H. destruct (find_output st outs) eqn:E; [|done]. by apply find_output_elem in E. Qed.

Lemma poll_outputs id s streams : forall l outs ws l',
  poll_ok (put_session l id (set_s_outputs s outs)) -> NoDup (outs.*1 ++ streams) ->
  watch_outputs l id streams = (ws, l') ->
  poll_ok (put_session l' id (set_s_outputs s (outs ++ ws))) /\ ws.*1 = streams /\
  exists p, l' = set_poll l p.
Proof.
  induction streams as [|st streams IH]; intros l outs ws l' HP Hnd; cbn [watch_outputs].
  { intros; simplify_eq. rewrite app_nil_r. split_and!; [done..|]. by exists (poll l'). }
  unfold Loop_watch. destruct (poll_watch (poll l) (SrcOutput id st)) as [w p] eqn:Ep.
  destruct (watch_outputs (set_poll l p) id streams) as [ws' l1] eqn:E. intros; simplify_eq.
  assert (st ∉ outs.*1) as Hst.
  { apply NoDup_app in Hnd as (_ & Hd & _). intros Hin. apply (Hd _ Hin). left. }
  assert (poll_ok (set_poll (put_session l id (set_s_outputs s (outs ++ [(st, w)]))) p)) as H1.
  { rewrite <-(put_session_twice l id (set_s_outputs s outs)).
    eapply poll_add; [cbn; apply lookup_insert_eq|exact Ep|..|done]; try done.
    - unfold token_of, descriptor. cbn. rewrite lookup_insert_eq. cbn. by rewrite find_output_fresh.
    - unfold token_of, descriptor. cbn. rewrite lookup_insert_eq. cbn.
      rewrite find_output_app, find_output_fresh by done. cbn. by rewrite bool_decide_eq_true_2.
    - intros st' Hne. cbn. rewrite find_output_app. destruct (find_output st' outs); [done|]. cbn.
      by rewrite bool_decide_eq_false_2 by congruence. }
  destruct (IH (set_poll l p) (outs ++ [(st, w)]) ws' l') as (H2 & E2 & p' & ->); [exact H1| |done|].
  { rewrite fmap_app, <-app_assoc. done. }
  rewrite <-app_assoc in H2. split_and!; [done|cbn; by rewrite E2|]. by exists p'.
Qed.

(** What [insert_session] leaves. *)
Record inserted (l : Loop) (id : Z) (s : Session) (l' : Loop) : Prop := {
  in_sessions : sessions l' = <[id := s]> (sessions l);
  in_attachments : attachments l' = attachments l;
  in_next : next_attachment l' = next_attachment l;
  in_queue : cmd_queue l' = cmd_queue l;
  in_dirty : dirty_ids l' = dirty_ids l;
  in_world : same_world (os l) (os l');
  in_early : early_exits l' = delete id (early_exits l);
  in_ok : sess_ok id s;
  in_ring : s_ring s = Ring_new;
  in_stdin_queue : stdin_queue s = [];
  in_atts : s_attachments s = [];
  in_kills : kills s = [];
  in_finished : finished s = None;
  in_exit : s_exit s = exit_code <$> early_exits l !! id;
  in_stdin : is_Some (s_stdin s);
}.

Lemma insert_session_inserted `{SessionEnv} l id req :
  sessions l !! id = None -> poll_ok l ->
  exists s, inserted l id s (insert_session l id req) /\ poll_ok (insert_session l id req).
Proof.
  intros Hn HP. unfold insert_session, Loop_watch.
  destruct (poll_watch (poll l) (SrcPidfd id)) as [pidfd p1] eqn:E1.
  destruct (poll_watch _ (SrcStdin id)) as [stdin p2] eqn:E2.
  destruct (watch_outputs _ id _) as [outs l3] eqn:E3.
  set (tty := default false (st_tty req)) in *.
  set (base u := MkSession id (st_command req) (default [47] (st_cwd req)) tty u (st_pid req)
      None None [] false [] Ring_new None None [] None (seconds <$> st_max_run req) None
      (if tty then Some (default 24 (st_rows req), default 80 (st_cols req)) else None)
      u (replicate (Z.to_nat RATE_WINDOW) (0, 0)) []).
  set (u := unix_now (os l)).
  assert (poll_ok (put_session l id (base u))) as H0.
  { apply (poll_same l); [done| |done]. intros [k st|k|k|k]; unfold token_of, descriptor; cbn; [..|done];
      rewrite lookup_insert; (case_decide; [subst k; by rewrite Hn|done]). }
  assert (poll_ok (set_poll (put_session l id (set_s_pidfd (base u) (Some pidfd))) p1)) as H1.
  { rewrite <-(put_session_twice l id (base u)).
    eapply poll_add; [cbn; apply lookup_insert_eq|exact E1|..|done]; try done;
      unfold token_of, descriptor; cbn; by rewrite lookup_insert_eq. }
  assert (poll_ok (set_poll (put_session l id
    (set_s_stdin (set_s_pidfd (base u) (Some pidfd)) (Some stdin))) p2)) as H2.
  { eapply (poll_add (set_poll (put_session l id (set_s_pidfd (base u) (Some pidfd))) p1) id _
      (set_s_stdin (set_s_pidfd (base u) (Some pidfd)) (Some stdin))) in E2;
      [|cbn; apply lookup_insert_eq|..]; try done.
    - revert E2. unfold put_session. cbn. by rewrite insert_insert_eq.
    - unfold token_of, descriptor; cbn; by rewrite lookup_insert_eq.
    - unfold token_of, descriptor; cbn; by rewrite lookup_insert_eq. }
  destruct (poll_outputs id (set_s_stdin (set_s_pidfd (base u) (Some pidfd)) (Some stdin))
    (spawned_outputs tty) (set_poll (set_poll l p1) p2) [] outs l3) as (H3 & Eo & p3 & ->); [exact H2| |done|].
  { destruct tty; cbn; repeat constructor; set_solver. }
  cbn [app] in H3. clear E1 E2 E3 H0 H1 H2. cbn.
  assert (sess_ok id (set_s_outputs (set_s_stdin (set_s_pidfd (base u) (Some pidfd)) (Some stdin)) outs)) as Hok.
  { split; cbn; try done; try (by intros []); try (unfold zlen, MAX_PER_SESSION, MAX_KILLS; cbn; lia).
    - constructor.
    - rewrite Eo. destruct tty; cbn; repeat constructor; set_solver.
    - rewrite Eo. destruct tty; cbn; set_solver.
    - exists []. apply (Ring_of_inv []). }
  destruct (early_exits l !! id) as [status|] eqn:Ee.
  - set (s2 := set_s_pidfd (set_s_exit _ _) None).
    exists s2. unwatch. split.
    + split; cbn; try done; [|by rewrite Ee]. destruct Hok. split; try done. by intros [].
    + refine (poll_pidfd _ _ id _ s2 pidfd _ _ _ _ _ _ _ _ H3); [cbn; apply lookup_insert_eq|..]; try done.
      cbn. by rewrite insert_insert_eq.
  - eexists. split; [|exact H3]. split; cbn; try done; [by rewrite delete_id|by rewrite Ee].
Qed.

(** ** Ids and the count of running sessions *)

Definition start_ids (cs : list Cmd) : list Z :=
  omap (fun c => match c with CmdStart id _ _ => Some id | _ => None end) cs.

Definition unfinished (m : gmap Z Session) : gmap Z Session :=
  filter (fun p => finished p.2 = None) m.

Record ids_inv (cs : list Cmd) (l : Loop) : Prop := {
  ii_starts : NoDup (start_ids (cs ++ cmd_queue l));
  ii_new id : id ∈ start_ids (cs ++ cmd_queue l) -> id < next_id (os l) /\ sessions l !! id = None;
  ii_old sid : is_Some (sessions l !! sid) -> sid < next_id (os l);
  ii_running : running (os l) =
    Z.of_nat (size (unfinished (sessions l))) + zlen (start_ids (cs ++ cmd_queue l));
  ii_max : running (os l) <= MAX_RUNNING;
}.

Lemma start_ids_app cs cs' : start_ids (cs ++ cs') = start_ids cs ++ start_ids cs'.
Proof. unfold start_ids. apply omap_app. Qed.

Lemma start_ids_exits exits :
  start_ids (map (fun '(id, status) => CmdExited id status) exits) = [].
Proof. induction exits as [|[] exits IH]; [done|]. exact IH. Qed.

Lemma unfinished_insert m k s s' :
  m !! k = Some s -> finished s' = finished s ->
  size (unfinished (<[k := s']> m)) = size (unfinished m).
Proof.
  intros Hk Hf. unfold unfinished. rewrite map_filter_insert. cbn. case_decide as Hn.
  - apply map_size_insert_Some. exists s. apply map_lookup_filter_Some. split; [done|]. cbn. congruence.
  - rewrite map_filter_delete, delete_id; [done|]. apply map_lookup_filter_None. right.
    intros s1 Hs1. simplify_eq. cbn. congruence.
Qed.

Lemma unfinished_finish m k s s' :
  m !! k = Some s -> finished s = None -> is_Some (finished s') ->
  Z.of_nat (size (unfinished (<[k := s']> m))) = Z.of_nat (size (unfinished m)) - 1.
Proof.
  intros Hk Hn [t Ht]. unfold unfinished. rewrite map_filter_insert. cbn. rewrite Ht, decide_False by done.
  rewrite map_filter_delete.
  assert (filter (fun p : Z * Session => finished p.2 = None) m !! k = Some s) as Hks.
  { by apply map_lookup_filter_Some. }
  rewrite map_size_delete_Some by done.
  assert (size (filter (fun p : Z * Session => finished p.2 = None) m) <> 0%nat); [|lia].
  intros E%map_size_empty_iff. by rewrite E, lookup_empty in Hks.
Qed.

Lemma unfinished_drop m k s :
  m !! k = Some s -> is_Some (finished s) -> unfinished (delete k m) = unfinished m.
Proof.
  intros Hk [t Ht]. unfold unfinished. rewrite map_filter_delete, delete_id; [done|].
  apply map_lookup_filter_None. right. intros s1 Hs1. simplify_eq. cbn. congruence.
Qed.

Lemma unfinished_add m k s :
  m !! k = None -> finished s = None -> size (unfinished (<[k := s]> m)) = S (size (unfinished m)).
Proof.
  intros Hk Hn. unfold unfinished. rewrite map_filter_insert. cbn. rewrite decide_True by done.
  apply map_size_insert_None. apply map_lookup_filter_None. by left.
Qed.

Lemma ids_same cs l l' :
  sessions l' = sessions l -> start_ids (cmd_queue l') = start_ids (cmd_queue l) ->
  next_id (os l') = next_id (os l) -> running (os l') = running (os l) -> ids_inv cs l -> ids_inv cs l'.
Proof.
  intros E1 E2 E3 E4 []. rewrite start_ids_app, <-E2, <-start_ids_app in *.
  by split; rewrite ?E1, ?E3, ?E4.
Qed.

Lemma ids_session cs l l' sid s s' :
  sessions l !! sid = Some s -> finished s' = finished s -> sessions l' = <[sid := s']> (sessions l) ->
  cmd_queue l' = cmd_queue l -> next_id (os l') = next_id (os l) -> running (os l') = running (os l) ->
  ids_inv cs l -> ids_inv cs l'.
Proof.
  intros Hs Hf E1 E2 E3 E4 []. split; rewrite ?E1, ?E2, ?E3, ?E4; try done.
  - intros id Hid. destruct (ii_new0 _ Hid) as [? Hn]. split; [done|].
    rewrite lookup_insert_ne; [done|]. intros <-. congruence.
  - intros k. rewrite lookup_insert. case_decide; [subst; eauto|auto].
  - by rewrite (unfinished_insert _ _ s).
Qed.

Lemma ids_finished cs l l' sid s s' :
  sessions l !! sid = Some s -> finished s = None -> is_Some (finished s') ->
  sessions l' = <[sid := s']> (sessions l) ->
  cmd_queue l' = cmd_queue l -> next_id (os l') = next_id (os l) -> running (os l') = running (os l) - 1 ->
  ids_inv cs l -> ids_inv cs l'.
Proof.
  intros Hs Hn Hf E1 E2 E3 E4 []. split; rewrite ?E1, ?E2, ?E3, ?E4; try done; [..|lia].
  - intros id Hid. destruct (ii_new0 _ Hid) as [? Hid0]. split; [done|].
    rewrite lookup_insert_ne; [done|]. intros <-. congruence.
  - intros k. rewrite lookup_insert. case_decide; [subst; eauto|auto].
  - erewrite unfinished_finish; [|exact Hs|done|done]. lia.
Qed.

Ltac same_ids :=
  match goal with HI : ids_inv ?cs ?l |- _ =>
    apply (ids_same cs l); [reflexivity|reflexivity|..|exact HI]; cbn;
    try (match goal with Ho : same_world _ _ |- _ => apply Ho end); reflexivity end.
Ltac session_ids Hs :=
  match goal with HI : ids_inv ?cs ?l |- _ =>
    eapply (ids_session cs l); [exact Hs| |reflexivity|reflexivity|..|exact HI]; cbn;
    try (match goal with Ho : same_world _ _ |- _ => apply Ho end); try reflexivity end.

Lemma ids_finish cs l sid s s' l' :
  sessions l !! sid = Some s -> finish l sid s = (s', l') -> ids_inv cs l -> ids_inv cs (close_stdin l' sid s').
Proof.
  intros Hs Hf HI.
  destruct (finish_cases _ _ _ _ _ Hf) as [[-> ->]|(Hn & He & Ho & -> & ->)];
    match goal with |- ids_inv _ (close_stdin ?l ?sid ?s) =>
      destruct (close_cases l sid s) as [[Hc ->]|[[Hc ->]|(w & Hc & _ & ->)]] end;
    try unwatch; try done; try (session_ids Hs; fail);
    (eapply (ids_finished cs l); [exact Hs|exact Hn| |reflexivity|reflexivity|..|exact HI]; cbn;
     try (match goal with Ho : same_world _ _ |- _ => apply Ho end); done).
Qed.

Lemma step_ids `{SessionEnv} cs X l l' : step X l l' -> ids_inv cs l -> ids_inv cs l'.
Proof.
  intros Hstep HI.
  destruct Hstep as [l o Ho|l e He|l sid s st w data t Hs Hw Hd Hr HX|l sid s st w Hs Hw HX
    |l sid s w data rest Hs Hw Hq HX|l sid s w Hs Hw HX|l aid|l aid a data Ha HX Hb Hd|l aid a Ha
    |l aid a s kind payload rest s' l' Ha Hs HX Hp Hz Hk Ht|l aid a s Ha Hs HX Hq|l aid a Ha HX
    |l aid a Ha HX|l aid a s c out Ha Hs HX Hc Hf|l aid a s Ha Hs HX Hf Hc He|l aid a n Ha HX Hn Hle
    |l aid a payload Ha HX Hc|l id s status Hs HX|l id status Hs|l sid s w Hs Hw|l sid s v Hs|l sid t
    |l id s Hs Hf Ha Hk|l sid s s' l' Hs HX Hf|l sid s outs stdin pidfd Hs HX F1 F2 F3
    |l aid a w Ha HX Ht|l exits|l b|l t]; try same_ids; try (session_ids Hs; fail).
  - unwatch. session_ids Hs.
  - unwatch. session_ids Hs.
  - destruct (detach_shape l aid) as [[_ ->]|(a & o & Ha & Ho & E)]; [done|]. rewrite E. clear E.
    destruct (sessions l !! a_session a) as [s|] eqn:Hs; [|same_ids].
    destruct (detach_session_fields s aid (now l)) as (_ & _ & h & ->). session_ids Hs.
  - destruct (take_frame_framed _ _ _ _ _ _ _ _ Ht) as [_ Fs (o & es & Ho & -> & _)].
    session_ids Hs. by rewrite Fs.
  - cbn. destruct (s_pidfd s); [unwatch|]; session_ids Hs.
  - unwatch. session_ids Hs.
  - destruct (kill_timer_shape t l sid) as [->|(s & ws & o & es & Hs & -> & Ho & Hz & _)]; [done|].
    session_ids Hs.
  - destruct HI. split; cbn; try done.
    + intros k Hk'. destruct (ii_new0 _ Hk') as [? Hn]. split; [done|]. rewrite lookup_delete. by case_decide.
    + intros k. rewrite lookup_delete. case_decide; [by intros []|auto].
    + by erewrite unfinished_drop.
  - by eapply ids_finish.
  - apply (ids_same cs l); [done| |done..]. cbn. by rewrite start_ids_app, start_ids_exits, app_nil_r.
Qed.

(** ** The well-formed loop *)

Lemma kill_shape l req_id signal timeout chan :
  exists o, same_world (os l) o /\
    ((exists es, (es = [EKill chan KeError] \/
                  exists code, es = [EKill chan KeExited; EKill chan (KeComplete code)]) /\
        Loop_kill l req_id signal timeout chan = set_os l (set_log o (log o ++ es))) \/
     (exists sid s sig name d, sessions l !! sid = Some s /\ zlen (kills s) < MAX_KILLS /\
        Loop_kill l req_id signal timeout chan =
          put_session (set_os l (set_log o (log o ++
              [ESignal sid sig; EKill chan (KeSignal sig name (s_pid s))]))) sid
            (set_kills s (kills s ++ [MkKillWait chan d (now l + seconds d) false])))).
Proof.
  unfold Loop_kill.
  destruct (let! id := parse_u64 req_id in let! s := sessions l !! id in Some (id, s)) as [[sid s]|] eqn:E.
  2: { exists (os l). split; [done|]. left. eexists. split; [by left|done]. }
  assert (sessions l !! sid = Some s) as Hs.
  { destruct (parse_u64 req_id) as [id|]; [|done]. destruct (sessions l !! id) eqn:Es; by simplify_eq. }
  destruct (parse_signal _) as [[sig name]|].
  2: { exists (os l). split; [done|]. left. eexists. split; [by left|done]. }
  destruct (sys_populated (os l)) as [b o] eqn:Ep. apply sys_populated_world in Ep as Ho.
  exists o. split; [done|].
  assert (forall l', l' = (if MAX_KILLS <=? zlen (kills s) then emit (set_os l o) (EKill chan KeError) else
      let l := emit (emit (set_os l o) (ESignal sid sig)) (EKill chan (KeSignal sig name (s_pid s))) in
      let d := Z.min (default KILL_TIMEOUT timeout) MAX_KILL_TIMEOUT in
      put_session l sid (set_kills s (kills s ++ [MkKillWait chan d (now l + seconds d) false]))) ->
    (exists es, (es = [EKill chan KeError] \/
                  exists code, es = [EKill chan KeExited; EKill chan (KeComplete code)]) /\
        l' = set_os l (set_log o (log o ++ es))) \/
     (exists sid s sig name d, sessions l !! sid = Some s /\ zlen (kills s) < MAX_KILLS /\
        l' = put_session (set_os l (set_log o (log o ++
              [ESignal sid sig; EKill chan (KeSignal sig name (s_pid s))]))) sid
            (set_kills s (kills s ++ [MkKillWait chan d (now l + seconds d) false])))) as Hrest.
  { intros l' ->. case_test; bool_to_prop; [left; eexists; split; [by left|done]|]. right.
    exists sid, s, sig, name, (Z.min (default KILL_TIMEOUT timeout) MAX_KILL_TIMEOUT).
    split_and!; [done|done|]. unfold now, emit, os_log, put_session. cbn.
    rewrite <-(sw_now _ _ Ho), <-app_assoc. done. }
  destruct (s_exit s) as [code|]; [|by apply Hrest]. destruct b; [by apply Hrest|].
  left. eexists. split; [by right; eexists|]. unfold emit, os_log. cbn. by rewrite <-app_assoc.
Qed.

Definition wf (cs : list Cmd) (l : Loop) : Prop := links l /\ poll_ok l /\ ids_inv cs l.

Lemma ids_inserted cs l id req conn s l' :
  inserted l id s l' -> ids_inv (CmdStart id req conn :: cs) l -> ids_inv cs l'.
Proof.
  intros Hin []. assert (start_ids ((CmdStart id req conn :: cs) ++ cmd_queue l) =
    id :: start_ids (cs ++ cmd_queue l)) as E by done. rewrite E in *. clear E.
  apply NoDup_cons in ii_starts0 as [Hid Hnd].
  destruct (ii_new0 id) as [Hlt Hn]; [apply elem_of_cons; by left|].
  pose proof (sw_next_id _ _ (in_world _ _ _ _ Hin)) as E1.
  pose proof (sw_running _ _ (in_world _ _ _ _ Hin)) as E2. destruct Hin.
  split; rewrite ?in_sessions0, ?in_queue0, ?E1, ?E2; try done.
  - intros k Hk. destruct (ii_new0 k) as [? ?]; [apply elem_of_cons; by right|]. split; [done|].
    rewrite lookup_insert_ne; [done|congruence].
  - intros k. rewrite lookup_insert. case_decide; [by subst|auto].
  - rewrite unfinished_add by done. zlen_lia.
Qed.

Lemma wf_start `{SessionEnv} l req conn created spawned :
  wf [] l -> wf [] (start l req conn created spawned).
Proof.
  intros (HL & HP & HI). unfold start, reserve.
  assert (forall l', sessions l' = sessions l -> attachments l' = attachments l ->
    next_attachment l' = next_attachment l -> poll l' = poll l -> links l' /\ poll_ok l') as Hsame.
  { intros l' E1 E2 E3 E4. split; [by apply (links_same l)|]. apply (poll_same l); [done| |done].
    intros src. unfold token_of, descriptor. by rewrite E1, E2. }
  case_test; cbn [negb]; [|split; [|split]; [by apply (links_same l)|by apply (poll_same l)|by apply (ids_same [] l)]].
  bool_to_prop.
  assert (forall l', sessions l' = sessions l -> cmd_queue l' = cmd_queue l ->
    next_id (os l') = next_id (os l) + 1 -> running (os l') = running (os l) -> ids_inv [] l') as Hnext.
  { intros l' E1 E2 E3 E4. destruct HI. split; rewrite ?E1, ?E2, ?E3, ?E4; try done.
    - intros id Hid. destruct (ii_new0 _ Hid). split; [lia|done].
    - intros sid Hsid. specialize (ii_old0 _ Hsid). lia. }
  case_test; [|case_test]; cbn -[start_ids].
  - split; [|split]; try (by apply Hsame). apply Hnext; cbn; try done. lia.
  - split; [|split]; try (by apply Hsame). destruct HI. unfold post.
    split; cbn -[start_ids app]; rewrite ?start_ids_app in *; cbn [start_ids omap list_omap app] in *.
    + apply NoDup_app. split_and!; [done| |apply NoDup_singleton].
      intros k Hk ->%list_elem_of_singleton. destruct (ii_new0 _ Hk). lia.
    + intros k [Hk|Hk]%elem_of_app; [destruct (ii_new0 _ Hk); split; [lia|done]|].
      apply list_elem_of_singleton in Hk as ->. split; [lia|].
      destruct (sessions l !! next_id (os l)) eqn:E; [|done].
      specialize (ii_old0 (next_id (os l)) ltac:(by rewrite E)). lia.
    + intros k Hk. specialize (ii_old0 _ Hk). lia.
    + zlen_lia.
    + lia.
  - split; [|split]; try (by apply Hsame). apply Hnext; cbn; try done. lia.
Qed.

Lemma wf_same cs cs' l l' :
  sessions l' = sessions l -> attachments l' = attachments l ->
  next_attachment l' = next_attachment l -> poll l' = poll l ->
  start_ids (cs' ++ cmd_queue l') = start_ids (cs ++ cmd_queue l) ->
  next_id (os l') = next_id (os l) -> running (os l') = running (os l) -> wf cs l -> wf cs' l'.
Proof.
  intros E1 E2 E3 E4 E5 E6 E7 (HL & HP & HI). split; [by apply (links_same l)|]. split.
  - apply (poll_same l); [done| |done]. intros src. unfold token_of, descriptor. by rewrite E1, E2.
  - destruct HI. by split; rewrite ?E1, ?E5, ?E6, ?E7.
Qed.

Lemma start_ids_untracked c : tracked c = false -> start_ids [c] = [].
Proof. by destruct c. Qed.

Lemma wf_kill `{SessionEnv} req_id signal timeout chan cs l :
  wf (CmdKill req_id signal timeout chan :: cs) l -> wf cs (Loop_kill l req_id signal timeout chan).
Proof.
  intros Hwf. destruct (kill_shape l req_id signal timeout chan)
    as (o & Ho & [(es & _ & ->)|(sid & s & sig & name & d & Hs & Hk & ->)]).
  - eapply wf_same; [..|exact Hwf]; try done; apply Ho.
  - destruct Hwf as (HL & HP & HI). split; [|split].
    + frame_session. destruct (lk_session _ HL _ _ Hs). split; cbn; try done. zlen_lia.
    + keep_tokens Hs.
    + eapply (ids_session cs l); [exact Hs| |reflexivity|reflexivity|..|]; try done; try apply Ho.
      destruct HI. by split.
Qed.

Lemma wf_insert `{SessionEnv} id req conn cs l :
  wf (CmdStart id req conn :: cs) l -> wf cs (insert_session l id req).
Proof.
  intros (HL & HP & HI). destruct (ii_new _ _ HI id) as [_ Hn]; [apply elem_of_cons; by left|].
  destruct (insert_session_inserted l id req Hn HP) as (s & Hin & HP').
  split; [|split; [done|by eapply ids_inserted]].
  destruct Hin. by eapply links_insert.
Qed.

Lemma wf_flat `{SessionEnv} : flat wf.
Proof.
  split.
  - intros cs X l l' Hstep (HL & HP & HI).
    split; [by eapply step_links|]. split; [by eapply step_poll|by eapply step_ids].
  - intros cs l sid s (HL & _) Hs. apply (lk_session _ HL _ _ Hs).
  - intros cs l sid s (HL & _) Hs. destruct (so_ring _ _ (lk_session _ HL _ _ Hs)) as [hist Hr].
    apply (inv_start _ _ Hr).
  - intros cs l sid s aid a (HL & _) Hs Hin Ha. destruct (lk_back _ HL _ _ _ Hs Hin) as (? & ? & ?).
    by simplify_eq.
  - intros cs l aid a (HL & _) Ha. apply (lk_attachment _ HL _ _ Ha).
  - intros cs sid l l' Hatt (HL & HP & HI).
    split; [by eapply links_attached|]. split; [by eapply poll_attached|].
    destruct Hatt as [l s info payload sock l' is_owner Hs Hm HM Hj Hid Hr Ho Hw].
    unfold Loop_watch in Hw. destruct (poll_watch _ _) as [w p]. simplify_eq.
    session_ids Hs. by destruct is_owner.
  - intros cs l d Hwf. by apply (wf_same cs _ l).
  - intros l Hwf. apply (wf_same [] _ l); try done. cbn. by rewrite app_nil_r.
  - intros c cs l Hc Hwf. apply (wf_same (c :: cs) _ l); try done. by destruct c.
  - intros c l Hc Hwf. apply (wf_same [] _ l); try done. cbn.
    by rewrite start_ids_app, start_ids_untracked, app_nil_r.
  - intros. by eapply wf_insert.
  - intros. by apply wf_kill.
  - intros. by apply wf_start.
  - intros l req_id signal timeout Hwf. apply (wf_same [] _ l); try done. cbn.
    by rewrite start_ids_app, app_nil_r.
  - intros l a c p r t u Hwf. by apply (wf_same [] _ l).
Qed.

Lemma wf_new t : wf [] (Loop_new t).
Proof.
  split; [|split].
  - split; cbn; try done; try (intros; by simplify_map_eq).
  - split; cbn; try done.
    intros tok src. unfold token_of, descriptor. destruct src; cbn; rewrite !lookup_empty; done.
  - split; cbn; try done; [constructor|intros ? []%elem_of_nil|intros ? []; by simplify_map_eq].
Qed.

Lemma served_wf `{SessionEnv} ins t : wf [] (feed_all ins (Loop_new t)).
Proof. apply serve_flat; [apply wf_flat|apply wf_new]. Qed.
