(* ===== verification/SessionStreams.v ===== *)
(** * What the session loop delivers

    The log tells what was read from each process, sent to each attachment,
    received from it and written to each process. After any events, what an
    attachment was sent, with what waits in its buffer, is a whole sequence
    of frames: the session info, then all output from the offset it names,
    and the exit code once there is no more; and what a process was written
    is what the frames of its owners brought, in order. *)

From Stdlib Require Import Strings.Byte Strings.String.
From stdpp Require Import gmap sorting.
From S2P Require Import Prelude Io Text Frame Ring Vsock SessionTypes Sessions SessionSteps SessionLinks.

(** ** The log *)

Definition hist (lg : list Effect) (sid : Z) : list (byte * byte) :=
  flat_map (fun e => match e with ERead k st d => if k =? sid then tag st d else [] | _ => [] end) lg.
Definition sent_to (lg : list Effect) (aid : Z) : bytes :=
  flat_map (fun e => match e with ESent k d => if k =? aid then d else [] | _ => [] end) lg.
Definition recv_from (lg : list Effect) (aid : Z) : bytes :=
  flat_map (fun e => match e with ERecv k d => if k =? aid then d else [] | _ => [] end) lg.
Definition frames_from (lg : list Effect) (aid : Z) : list (byte * bytes) :=
  flat_map (fun e => match e with EFrame k t p => if k =? aid then [(t, p)] else [] | _ => [] end) lg.
Definition queued_for (lg : list Effect) (sid : Z) : bytes :=
  flat_map (fun e => match e with EQueued k d => if k =? sid then d else [] | _ => [] end) lg.
Definition written_to (lg : list Effect) (sid : Z) : bytes :=
  flat_map (fun e => match e with EStdin k d => if k =? sid then d else [] | _ => [] end) lg.

Arguments hist : simpl never.
Arguments sent_to : simpl never.
Arguments recv_from : simpl never.
Arguments frames_from : simpl never.
Arguments queued_for : simpl never.
Arguments written_to : simpl never.

(** The exit code the system reported for a session. *)
Definition exit_reported (lg : list Effect) (sid code : Z) : Prop :=
  exists status, EExited sid status ∈ lg /\ code = exit_code status.

Definition is_output (f : byte * bytes) : Prop := f.1 = STDOUT \/ f.1 = STDERR.
#[export] Instance is_output_dec f : Decision (is_output f).
Proof. unfold is_output. apply _. Defined.

(** Nothing was read from or written to the session yet. *)
Definition unused (lg : list Effect) (sid : Z) : Prop :=
  hist lg sid = [] /\ queued_for lg sid = [] /\ written_to lg sid = [].
Definition unattached (lg : list Effect) (aid : Z) : Prop :=
  sent_to lg aid = [] /\ recv_from lg aid = [] /\ frames_from lg aid = [].

Section output.
Context `{SE : SessionEnv}.

(** What attachment [aid] of session [s] has been given. *)
Record delivered (lg : list Effect) (s : Session) (aid : Z) (a : Attachment)
    (info : SessionInfo) (payload : bytes) (fs : list (byte * bytes)) : Prop := {
  dl_info : info_json info = Some payload /\ si_id info = a_session a;
  dl_bytes : sent_to lg aid ++ zdrop (a_sent a) (a_out a) = frames_of ((SESSION_INFO, payload) :: fs);
  dl_output : tags_of (filter is_output fs) =
    zslice (si_output_offset info) (a_cursor a) (hist lg (a_session a));
  dl_offset : 0 <= si_output_offset info <= a_cursor a;
  dl_cursor : ring_start (s_ring s) <= a_cursor a <= ring_end (s_ring s);
  dl_kinds : Forall (fun f => is_output f \/ f.1 = PORT_EVENT \/ f.1 = EXIT) fs;
  dl_open : a_closing a = false -> Forall (fun f => f.1 <> EXIT) fs;
  dl_closing : a_closing a = true ->
    is_Some (finished s) /\ a_cursor a = ring_end (s_ring s) /\
    exists fs' code, fs = fs' ++ [(EXIT, exit_payload code)] /\ Forall (fun f => f.1 <> EXIT) fs' /\
      exit_reported lg (a_session a) code;
}.

Record out_inv (l : Loop) : Prop := {
  oi_ring sid s : sessions l !! sid = Some s -> ring_inv (s_ring s) (hist (log (os l)) sid);
  oi_streams sid : Forall (fun t => t.1 = STDOUT \/ t.1 = STDERR) (hist (log (os l)) sid);
  oi_exit sid s c : sessions l !! sid = Some s -> s_exit s = Some c -> exit_reported (log (os l)) sid c;
  oi_early id status : early_exits l !! id = Some status -> EExited id status ∈ log (os l);
  oi_delivered aid a s : attachments l !! aid = Some a -> sessions l !! a_session a = Some s ->
    exists info payload fs, delivered (log (os l)) s aid a info payload fs;
}.

(** Logs that say the same about output. *)
Definition same_output (lg lg' : list Effect) : Prop :=
  (forall sid, hist lg' sid = hist lg sid) /\ (forall aid, sent_to lg' aid = sent_to lg aid) /\
  (forall id status, EExited id status ∈ lg -> EExited id status ∈ lg').

Lemma same_output_app lg es :
  Forall (fun e => match e with ERead _ _ _ | ESent _ _ => False | _ => True end) es ->
  same_output lg (lg ++ es).
Proof.
  intros Hes. unfold same_output, hist, sent_to. split_and!.
  - intros sid. rewrite flat_map_app. rewrite <-(app_nil_r (flat_map _ lg)) at 2. f_equal.
    induction Hes as [|e es He _ IH]; [done|]. cbn. rewrite IH. by destruct e.
  - intros aid. rewrite flat_map_app. rewrite <-(app_nil_r (flat_map _ lg)) at 2. f_equal.
    induction Hes as [|e es He _ IH]; [done|]. cbn. rewrite IH. by destruct e.
  - intros. apply elem_of_app. by left.
Qed.

Lemma exit_reported_mono lg lg' sid c :
  same_output lg lg' -> exit_reported lg sid c -> exit_reported lg' sid c.
Proof. intros (_ & _ & H) (st & Hin & ->). exists st. auto. Qed.

Lemma delivered_log lg lg' s aid a info payload fs :
  same_output lg lg' -> delivered lg s aid a info payload fs -> delivered lg' s aid a info payload fs.
Proof.
  intros Hs []. destruct Hs as (H1 & H2 & H3) eqn:E.
  split; rewrite ?H1, ?H2; try done.
  intros Hc. destruct (dl_closing0 Hc) as (? & ? & fs' & code & ? & ? & ?).
  split_and!; [done..|]. exists fs', code. split_and!; [done..|]. by eapply exit_reported_mono.
Qed.

(** Sessions that look the same to their attachments. *)
Lemma delivered_session lg s s' aid a info payload fs :
  s_ring s' = s_ring s -> (is_Some (finished s) -> is_Some (finished s')) ->
  delivered lg s aid a info payload fs -> delivered lg s' aid a info payload fs.
Proof.
  intros E1 E2 []. split; rewrite ?E1; try done.
  intros Hc. destruct (dl_closing0 Hc) as (? & ? & ?). auto.
Qed.

Lemma out_same l l' :
  sessions l' = sessions l -> attachments l' = attachments l -> early_exits l' = early_exits l ->
  same_output (log (os l)) (log (os l')) -> out_inv l -> out_inv l'.
Proof.
  intros E1 E2 E3 Hlg []. destruct (Hlg) as (H1 & H2 & H3).
  split; rewrite ?E1, ?E2, ?E3; try (intros; rewrite H1; by eauto); try (by eauto).
  - intros. eapply exit_reported_mono; eauto.
  - intros aid a s ??. destruct (oi_delivered0 aid a s) as (info & payload & fs & Hd); [done..|].
    exists info, payload, fs. by eapply delivered_log.
Qed.

Lemma out_session l l' sid s s' :
  sessions l !! sid = Some s -> s_ring s' = s_ring s -> (is_Some (finished s) -> is_Some (finished s')) ->
  (s_exit s' = s_exit s \/ exists c, s_exit s' = Some c /\ exit_reported (log (os l')) sid c) ->
  sessions l' = <[sid := s']> (sessions l) -> attachments l' = attachments l ->
  early_exits l' = early_exits l -> same_output (log (os l)) (log (os l')) -> out_inv l -> out_inv l'.
Proof.
  intros Hs Hr Hf He E1 E2 E3 Hlg []. destruct (Hlg) as (H1 & H2 & H3).
  split; rewrite ?E1, ?E2, ?E3; try (intros; rewrite H1; by eauto); try (by eauto).
  - intros k b. rewrite H1, lookup_insert. case_decide; [|eauto]. intros; simplify_eq. rewrite Hr. eauto.
  - intros k b c. rewrite lookup_insert. case_decide.
    + intros; simplify_eq. destruct He as [He|(c' & He & ?)]; [|by simplify_eq].
      eapply exit_reported_mono; [done|]. eapply oi_exit0; [done|congruence].
    + intros. eapply exit_reported_mono; eauto.
  - intros aid a b Ha. rewrite lookup_insert. case_decide as Ek.
    + intros; simplify_eq. destruct (oi_delivered0 aid a s) as (info & payload & fs & Hd); [done..|].
      exists info, payload, fs. eapply delivered_log; [done|]. by eapply delivered_session.
    + intros. destruct (oi_delivered0 aid a b) as (info & payload & fs & Hd); [done..|].
      exists info, payload, fs. by eapply delivered_log.
Qed.

Lemma out_attachment l l' aid a a' :
  attachments l !! aid = Some a -> a_session a' = a_session a ->
  (forall s info payload fs, sessions l !! a_session a = Some s ->
     delivered (log (os l)) s aid a info payload fs ->
     exists fs', delivered (log (os l')) s aid a' info payload fs') ->
  (forall k b s info payload fs, k <> aid -> delivered (log (os l)) s k b info payload fs ->
     delivered (log (os l')) s k b info payload fs) ->
  sessions l' = sessions l -> attachments l' = <[aid := a']> (attachments l) ->
  early_exits l' = early_exits l -> (forall sid, hist (log (os l')) sid = hist (log (os l)) sid) ->
  (forall id status, EExited id status ∈ log (os l) -> EExited id status ∈ log (os l')) ->
  out_inv l -> out_inv l'.
Proof.
  intros Ha Es Hd Ho E1 E2 E3 H1 H3 [].
  split; rewrite ?E1, ?E2, ?E3; try (intros; rewrite H1; by eauto); try (by eauto).
  - intros sid s c ??. destruct (oi_exit0 sid s c) as (st & ? & ?); [done..|]. exists st. auto.
  - intros k b s. rewrite lookup_insert. case_decide as Ek.
    + intros ?; simplify_eq. rewrite Es. intros Hs.
      destruct (oi_delivered0 k a s) as (info & payload & fs & Hd1); [done..|].
      destruct (Hd s info payload fs) as [fs' ?]; eauto.
    + intros. destruct (oi_delivered0 k b s) as (info & payload & fs & Hd1); [done..|].
      exists info, payload, fs. apply Ho; [congruence|done].
Qed.
End output.

(** ** Fresh ids *)

(** The session or attachment an effect is about is in the tables. *)
Definition known (l : Loop) (e : Effect) : Prop :=
  match e with
  | ERead sid _ _ | EStdin sid _ | EQueued sid _ => is_Some (sessions l !! sid)
  | ESent aid _ | ERecv aid _ | EFrame aid _ _ => is_Some (attachments l !! aid)
  | _ => True
  end.

(** What is queued for a process is the payload of the frame just taken. *)
Definition is_queued (e : Effect) : bool := match e with EQueued _ _ => true | _ => false end.
Definition from_frames (lg : list Effect) : Prop :=
  forall i sid p, lg !! i = Some (EQueued sid p) ->
    exists j aid, i = S j /\ lg !! j = Some (EFrame aid STDIN p).
Definition queues (es : list Effect) : Prop :=
  Forall (fun e => is_queued e = false) es \/
  exists aid sid p, es = [EFrame aid STDIN p; EQueued sid p].

Lemma from_frames_app lg es : from_frames lg -> queues es -> from_frames (lg ++ es).
Proof.
  intros Hlg Hes i sid p [Hi|[Hle Hi]]%lookup_app_Some.
  - destruct (Hlg _ _ _ Hi) as (j & aid & -> & Hj). exists j, aid. split; [done|].
    by apply lookup_app_l_Some.
  - destruct Hes as [Hes|(aid & sid' & p' & ->)].
    + by pose proof (Forall_lookup_1 _ _ _ _ Hes Hi).
    + destruct (i - length lg)%nat as [|[|]] eqn:E; simplify_eq/=. exists (length lg), aid.
      split; [lia|]. rewrite lookup_app_r, Nat.sub_diag by done. done.
Qed.

(** What a step adds to the log. *)
Definition logs (l l' : Loop) : Prop :=
  exists es, log (os l') = log (os l) ++ es /\ Forall (known l) es /\ queues es.

Lemma logs_nil l l' : log (os l') = log (os l) -> logs l l'.
Proof. intros E. exists []. rewrite app_nil_r. split_and!; [done|done|by left]. Qed.

Lemma logs_one l l' e :
  log (os l') = log (os l) ++ [e] -> is_queued e = false -> known l e -> logs l l'.
Proof. intros E Hq He. exists [e]. split_and!; [done|by repeat constructor|left; by repeat constructor]. Qed.

Lemma told_known l e : told e = true -> known l e.
Proof. by destruct e. Qed.
Lemma told_queued e : told e = true -> is_queued e = false.
Proof. by destruct e. Qed.

Lemma logs_finish l sid s s' l' :
  finish l sid s = (s', l') -> logs l (close_stdin l' sid s').
Proof.
  intros Hf. destruct (finish_cases _ _ _ _ _ Hf) as [[-> ->]|(Hn & He & Ho & -> & ->)];
    match goal with |- logs _ (close_stdin ?l ?sid ?s) =>
      destruct (close_cases l sid s) as [[Hc ->]|[[Hc ->]|(w & Hc & _ & ->)]] end;
    try unwatch; try (by apply logs_nil);
    (eapply logs_one; [cbn; match goal with Ho : same_world _ _ |- _ => by rewrite (sw_log _ _ Ho) end|done|done]).
Qed.

Ltac logged_one := eapply logs_one; [reflexivity|reflexivity|cbn; first [exact I|by eauto]].

Lemma step_logs `{SessionEnv} X l l' : step X l l' -> logs l l'.
Proof.
  destruct 1 as [l o Ho|l e He|l sid s st w data t Hs Hw Hd Hr HX|l sid s st w Hs Hw HX
    |l sid s w data rest Hs Hw Hq HX|l sid s w Hs Hw HX|l aid|l aid a data Ha HX Hb Hd|l aid a Ha
    |l aid a s kind payload rest s' l' Ha Hs HX Hp Hz Hk Ht|l aid a s Ha Hs HX Hq|l aid a Ha HX
    |l aid a Ha HX|l aid a s c out Ha Hs HX Hc Hf|l aid a s Ha Hs HX Hf Hc He|l aid a n Ha HX Hn Hle
    |l aid a payload Ha HX Hc|l id s status Hs HX|l id status Hs|l sid s w Hs Hw|l sid s v Hs|l sid t
    |l id s Hs Hf Ha Hk|l sid s s' l' Hs HX Hf|l sid s outs stdin pidfd Hs HX F1 F2 F3
    |l aid a w Ha HX Ht|l exits|l b|l t]; try (by apply logs_nil); try logged_one.
  - apply logs_nil, Ho.
  - eapply logs_one; [reflexivity|by apply told_queued|by apply told_known].
  - unwatch. apply logs_nil, Ho.
  - unwatch. eapply logs_one; [cbn; by rewrite (sw_log _ _ Ho)|done|done].
  - destruct (detach_shape l aid) as [[_ ->]|(a & o & Ha & Ho & ->)]; [by apply logs_nil|].
    case_match; (eapply logs_one; [cbn; by rewrite (sw_log _ _ Ho)|done|done]).
  - destruct (take_frame_framed _ _ _ _ _ _ _ _ Ht) as [_ _ (o & es & Ho & -> & Hes)].
    exists (EFrame aid kind payload :: es). split.
    + cbn. rewrite (sw_log _ _ Ho). cbn. by rewrite <-app_assoc.
    + destruct Hes as [[_ [->|(e & -> & He)]]|(-> & _ & _ & _ & ->)]; (split; [constructor; [cbn; eauto|]|]).
      * constructor.
      * left. by repeat constructor.
      * constructor; [by apply told_known|constructor].
      * left. constructor; [done|]. constructor; [by apply told_queued|constructor].
      * constructor; [cbn; eauto|constructor].
      * right. eauto.
  - cbn. destruct (s_pidfd s); [unwatch|]; (apply (logs_one _ _ (EExited id status)); [cbn|done|done]); [|done].
    by rewrite (sw_log _ _ Ho).
  - unwatch. apply logs_nil, Ho.
  - destruct (kill_timer_shape t l sid) as [->|(s & ws & o & es & Hs & -> & Ho & Hz & Hes)]; [by apply logs_nil|].
    exists es. split_and!; [cbn; by rewrite (sw_log _ _ Ho)| |left]; (eapply Forall_impl; [exact Hes|]; by intros []).
  - by eapply logs_finish.
Qed.

Lemma step_counters `{SessionEnv} X l l' :
  step X l l' -> start_ids (cmd_queue l') = start_ids (cmd_queue l) /\
    next_id (os l') = next_id (os l) /\ next_attachment l' = next_attachment l.
Proof.
  destruct 1; try done; try (by unwatch; split_and!; [|apply Ho|]); cbn.
  - split_and!; [done|by apply H0|done].
  - destruct (detach_shape l aid) as [[_ ->]|(a & o & Ha & Ho & ->)]; [done|].
    case_match; cbn; (split_and!; [done|by rewrite (sw_next_id _ _ Ho)|done]).
  - match goal with Ht : take_frame _ _ _ _ _ _ = _ |- _ => apply take_frame_framed in Ht end.
    destruct H6 as [_ _ (o & es & Ho & -> & _)]. cbn. split_and!; [done|by rewrite (sw_next_id _ _ Ho)|done].
  - case_match; [unwatch|done]. split_and!; [done|by rewrite (sw_next_id _ _ Ho)|done].
  - destruct (kill_timer_shape t l sid) as [->|(s & ws & o & es & Hs & -> & Ho & _)]; [done|].
    cbn. split_and!; [done|by rewrite (sw_next_id _ _ Ho)|done].
  - match goal with Hf : finish _ _ _ = _ |- _ => destruct (finish_cases _ _ _ _ _ Hf) as [[-> ->]|(Hn & He & Ho' & -> & ->)] end;
    match goal with |- context [close_stdin ?l ?sid ?s] =>
      destruct (close_cases l sid s) as [[Hc ->]|[[Hc ->]|(w & Hc & _ & ->)]] end; try done;
    unwatch; cbn; (split_and!; [done|by rewrite (sw_next_id _ _ Ho)|done]).
  - rewrite start_ids_app, start_ids_exits, app_nil_r. done.
Qed.

Record fresh_inv (cs : list Cmd) (l : Loop) : Prop := {
  fi_session id : id ∈ start_ids (cs ++ cmd_queue l) \/ next_id (os l) <= id -> unused (log (os l)) id;
  fi_attachment aid : next_attachment l <= aid -> unattached (log (os l)) aid;
  fi_queued : from_frames (log (os l));
}.

Lemma unused_app lg es id :
  unused lg id ->
  Forall (fun e => match e with ERead k _ _ | EStdin k _ | EQueued k _ => k <> id | _ => True end) es ->
  unused (lg ++ es) id.
Proof.
  intros (H1 & H2 & H3) Hes. unfold unused, hist, queued_for, written_to in *.
  rewrite !flat_map_app, H1, H2, H3. cbn.
  split_and!; induction Hes as [|e es He _ IH]; cbn; try done;
    (destruct e; try done); by rewrite (proj2 (Z.eqb_neq _ _) He).
Qed.

Lemma unattached_app lg es aid :
  unattached lg aid ->
  Forall (fun e => match e with ESent k _ | ERecv k _ | EFrame k _ _ => k <> aid | _ => True end) es ->
  unattached (lg ++ es) aid.
Proof.
  intros (H1 & H2 & H3) Hes. unfold unattached, sent_to, recv_from, frames_from in *.
  rewrite !flat_map_app, H1, H2, H3. cbn.
  split_and!; induction Hes as [|e es He _ IH]; cbn; try done;
    (destruct e; try done); by rewrite (proj2 (Z.eqb_neq _ _) He).
Qed.

Lemma fresh_logs cs l l' :
  wf cs l -> logs l l' -> start_ids (cmd_queue l') = start_ids (cmd_queue l) ->
  next_id (os l') = next_id (os l) -> next_attachment l' = next_attachment l ->
  fresh_inv cs l -> fresh_inv cs l'.
Proof.
  intros (HL & _ & HI) (es & Elog & Hes & Hq) E1 E2 E3 []. split; rewrite Elog; [..|by apply from_frames_app].
  - intros id. rewrite start_ids_app, E1, <-start_ids_app, E2. intros Hid.
    apply unused_app; [auto|]. eapply Forall_impl; [exact Hes|].
    assert (forall k, is_Some (sessions l !! k) -> k <> id).
    { intros k Hk ->. destruct Hid as [Hid|Hid].
      - destruct (ii_new _ _ HI _ Hid) as [_ Hn]. rewrite Hn in Hk. by destruct Hk.
      - pose proof (ii_old _ _ HI _ Hk). lia. }
    intros []; cbn; auto.
  - intros aid. rewrite E3. intros Haid. apply unattached_app; [auto|].
    eapply Forall_impl; [exact Hes|].
    assert (forall k, is_Some (attachments l !! k) -> k <> aid).
    { intros k [b Hk] ->. destruct (lk_attachment _ HL _ _ Hk) as (_ & ? & _). lia. }
    intros []; cbn; auto.
Qed.

(** ** Output *)

Lemma minimum_spec xs :
  xs <> [] -> exists m, minimum xs = Some m /\ m ∈ xs /\ forall x, x ∈ xs -> m <= x.
Proof.
  induction xs as [|y xs IH]; [done|]. intros _. cbn. fold (minimum xs).
  destruct (decide (xs = [])) as [->|Hne].
  { exists y. split_and!; [done|left|]. intros x ->%list_elem_of_singleton. lia. }
  destruct (IH Hne) as (m & -> & Hm & Hle). exists (Z.min y m). split_and!; [done| |].
  - destruct (Z.min_spec y m) as [[_ ->]|[_ ->]]; [left|by right].
  - intros x [->|Hx]%elem_of_cons; [lia|]. specialize (Hle _ Hx). lia.
Qed.

Lemma min_cursor_spec l s aid a :
  aid ∈ s_attachments s -> attachments l !! aid = Some a ->
  exists m aid' a', min_cursor l s = Some m /\ m <= a_cursor a /\
    aid' ∈ s_attachments s /\ attachments l !! aid' = Some a' /\ m = a_cursor a'.
Proof.
  intros Hin Ha. unfold min_cursor.
  set (cursors := omap (fun aid => a_cursor <$> attachments l !! aid) (s_attachments s)).
  assert (a_cursor a ∈ cursors) as Hc by (apply list_elem_of_omap; exists aid; by rewrite Ha).
  destruct (minimum_spec cursors) as (m & E & Hm & Hle); [by intros E; rewrite E in Hc; apply elem_of_nil in Hc|].
  apply Hle in Hc. apply list_elem_of_omap in Hm as (k & Hk & Ek).
  destruct (attachments l !! k) as [b|] eqn:Hb; simplify_eq/=. exists (a_cursor b), k, b. auto.
Qed.

Lemma hist_read lg sid st d k :
  hist (lg ++ [ERead sid st d]) k = hist lg k ++ (if sid =? k then tag st d else []).
Proof. unfold hist. rewrite flat_map_app. cbn. by rewrite app_nil_r. Qed.

Lemma sent_read lg sid st d k : sent_to (lg ++ [ERead sid st d]) k = sent_to lg k.
Proof. unfold sent_to. rewrite flat_map_app. cbn. by rewrite app_nil_r. Qed.

Lemma hist_sent lg aid d k : hist (lg ++ [ESent aid d]) k = hist lg k.
Proof. unfold hist. rewrite flat_map_app. cbn. by rewrite app_nil_r. Qed.

Lemma sent_sent lg aid d k :
  sent_to (lg ++ [ESent aid d]) k = sent_to lg k ++ (if aid =? k then d else []).
Proof. unfold sent_to. rewrite flat_map_app. cbn. by rewrite app_nil_r. Qed.

Lemma zslice_app_l {A} from to (xs ys : list A) :
  0 <= from -> to <= zlen xs -> zslice from to (xs ++ ys) = zslice from to xs.
Proof.
  intros. unfold zslice. destruct (Z.le_gt_cases from to).
  - rewrite zdrop_app_le, ztake_app_le by zlen_lia. done.
  - by rewrite !ztake_nonpos by lia.
Qed.

Section out_steps.
Context `{SE : SessionEnv}.

(** Output is read only as far as every attachment can still take it. *)
Lemma read_delivered cs l sid s st w data t aid a info payload fs :
  wf cs l -> out_inv l ->
  sessions l !! sid = Some s -> find_output st (s_outputs s) = Some w ->
  zlen data <= Loop_room l sid st ->
  attachments l !! aid = Some a -> a_session a = sid ->
  delivered (log (os l)) s aid a info payload fs ->
  delivered (log (os l) ++ [ERead sid st data]) (Session_output s st data t) aid a info payload fs.
Proof.
  intros (HL & _ & _) HO Hs Hw Hroom Ha Ea [].
  pose proof (oi_ring _ HO _ _ Hs) as Hr.
  destruct (lk_attachment _ HL _ _ Ha) as (_ & _ & s1 & Hs1 & Hin). rewrite Ea in Hs1. simplify_eq.
  destruct (min_cursor_spec l s aid a Hin Ha) as (m & aid' & a' & Em & Hm & Hin' & Ha' & ->).
  destruct (lk_back _ HL _ _ _ Hs Hin') as (b & Hb & Eb). simplify_eq.
  rewrite <-Eb in Hs. destruct (oi_delivered _ HO _ _ _ Ha' Hs) as (? & ? & ? & Hd'). rewrite Eb in Hs.
  pose proof (dl_cursor _ _ _ _ _ _ _ Hd') as [Hc' _].
  assert (ring_start (Ring_push (s_ring s) st data) <= a_cursor a') as Hkeep.
  { eapply push_keeps; [exact Hr|lia|]. unfold Loop_room in Hroom. rewrite Hs, Em in Hroom. lia. }
  pose proof (push_inv _ _ st data Hr) as Hr'.
  pose proof (inv_end _ _ Hr) as E1. pose proof (inv_end _ _ Hr') as E2. rewrite zlen_app, zlen_tag in E2.
  split; rewrite ?sent_read, ?hist_read; try done.
  - rewrite dl_output0, zslice_app_l; [done|lia|lia].
  - cbn. zlen_lia.
  - intros Hc. destruct (dl_closing0 Hc) as (Hf & _). 
    destruct (so_finished _ _ (lk_session _ HL _ _ Hs) Hf) as (_ & Ho & _). by rewrite Ho in Hw.
Qed.

Lemma out_read cs l sid s st w data t :
  wf cs l -> out_inv l ->
  sessions l !! sid = Some s -> find_output st (s_outputs s) = Some w ->
  zlen data <= Loop_room l sid st ->
  out_inv (emit (put_session l sid (Session_output s st data t)) (ERead sid st data)).
Proof.
  intros Hwf HO Hs Hw Hroom. split; cbn.
  - intros k b. rewrite lookup_insert, hist_read. case_decide as Ek.
    + subst k. intros ?; simplify_eq. rewrite Z.eqb_refl. cbn. by apply push_inv, oi_ring.
    + rewrite (proj2 (Z.eqb_neq _ _)), app_nil_r by done. by apply oi_ring.
  - intros k. rewrite hist_read. apply Forall_app. split; [by apply oi_streams|].
    case_test; [|done]. unfold tag. apply Forall_map, Forall_forall. intros b _. cbn.
    destruct Hwf as (HL & _). eapply (so_stream _ _ (lk_session _ HL _ _ Hs)). by eapply find_output_elem.
  - intros k b c. rewrite lookup_insert. case_decide.
    + subst k. intros ? Hc; simplify_eq. destruct (oi_exit _ HO _ _ _ Hs Hc) as (x & ? & ?).
      exists x. split; [apply elem_of_app; by left|done].
    + intros Hb Hc. destruct (oi_exit _ HO _ _ _ Hb Hc) as (x & ? & ?).
      exists x. split; [apply elem_of_app; by left|done].
  - intros id status He. apply elem_of_app. left. by apply (oi_early _ HO).
  - intros aid a b Ha. rewrite lookup_insert. case_decide as Ek.
    + intros ?; simplify_eq. destruct (oi_delivered _ HO _ _ _ Ha Hs) as (info & payload & fs & Hd).
      exists info, payload, fs. eapply read_delivered; eauto.
    + intros Hb. destruct (oi_delivered _ HO _ _ _ Ha Hb) as (info & payload & fs & []).
      exists info, payload, fs. split; rewrite ?sent_read, ?hist_read; try done.
      * rewrite (proj2 (Z.eqb_neq _ _)), app_nil_r by done. done.
      * intros Hc. destruct (dl_closing0 Hc) as (? & ? & fs' & code & ? & ? & x & ? & ?).
        split_and!; [done..|]. exists fs', code. split_and!; [done..|]. exists x.
        split; [apply elem_of_app; by left|done].
Qed.

(** Changes that leave the output side of an attachment as it is. *)
Lemma delivered_same_att lg s aid a a' info payload fs :
  a_session a' = a_session a -> a_cursor a' = a_cursor a -> a_closing a' = a_closing a ->
  zdrop (a_sent a') (a_out a') = zdrop (a_sent a) (a_out a) ->
  delivered lg s aid a info payload fs -> delivered lg s aid a' info payload fs.
Proof. intros E1 E2 E3 E4 []. by split; rewrite ?E1, ?E2, ?E3, ?E4. Qed.

Lemma delivered_more lg s aid a a' info payload fs new :
  a_session a' = a_session a -> a_sent a' = a_sent a -> 0 <= a_sent a <= zlen (a_out a) ->
  a_out a' = a_out a ++ frames_of new ->
  delivered lg s aid a info payload fs ->
  sent_to lg aid ++ zdrop (a_sent a') (a_out a') = frames_of ((SESSION_INFO, payload) :: fs ++ new).
Proof.
  intros E1 E2 Hs E3 []. rewrite E2, E3, zdrop_app_le by lia.
  rewrite app_assoc, dl_bytes0. unfold frames_of. cbn [map concat]. rewrite map_app, concat_app.
  by rewrite <-app_assoc.
Qed.

Lemma outputs_of_tags new :
  Forall full_frame new -> Forall (fun t => t.1 = STDOUT \/ t.1 = STDERR) (tags_of new) ->
  Forall is_output new.
Proof.
  intros Hn. unfold tags_of. induction Hn as [|[t p] new [_ Hp] _ IH]; cbn; [done|].
  intros [Ht Hnew]%Forall_app. constructor; [|by apply IH].
  destruct p as [|b p]; [done|]. unfold tag in Ht. cbn in Ht. by apply Forall_cons_1 in Ht as [? _].
Qed.

Lemma fill_delivered l aid a s cursor out info payload fs :
  out_inv l -> sessions l !! a_session a = Some s -> 0 <= a_sent a <= zlen (a_out a) ->
  a_cursor a < ring_end (s_ring s) ->
  Ring_frames 0 (s_ring s) (a_cursor a) SEND_LOW (a_out a) = (cursor, out) ->
  delivered (log (os l)) s aid a info payload fs ->
  exists fs', delivered (log (os l)) s aid (set_a_out (set_a_cursor a cursor) out) info payload fs'.
Proof.
  intros HO Hs Hsent Hlt Hf Hd. pose proof (oi_ring _ HO _ _ Hs) as Hr.
  pose proof (dl_cursor _ _ _ _ _ _ _ Hd) as Hc. pose proof (dl_offset _ _ _ _ _ _ _ Hd) as Hoff.
  destruct (Ring_frames_spec 0 _ _ (a_cursor a) SEND_LOW (a_out a) Hr) as (new & E & Hfull & Htags); [done|].
  rewrite (Z.max_l (a_cursor a)) in E, Htags by lia. rewrite E in Hf. injection Hf as <- <-.
  set (n := Z.min SEND_LOW _) in *. assert (0 <= n <= ring_end (s_ring s) - a_cursor a) as Hn.
  { unfold n, SEND_LOW. lia. }
  assert (Forall is_output new) as Hnew.
  { apply outputs_of_tags; [done|]. rewrite Htags. apply Forall_take, Forall_drop, (oi_streams _ HO). }
  assert (a_closing a = false) as Hopen.
  { destruct (a_closing a) eqn:Ec; [|done]. destruct (dl_closing _ _ _ _ _ _ _ Hd Ec) as (_ & ? & _). lia. }
  exists (fs ++ new). split; try (by apply Hd).
  - by eapply (delivered_more _ s aid a).
  - rewrite filter_app, tags_of_app, (dl_output _ _ _ _ _ _ _ Hd).
    assert (filter is_output new = new) as ->.
    { clear -Hnew. induction Hnew as [|f new Hf _ IH]; [done|]. by rewrite filter_cons_True, IH. }
    rewrite Htags, <-(zslice_cat (si_output_offset info) (a_cursor a) (a_cursor a + n)) by lia.
    f_equal. unfold zslice. do 2 f_equal. lia.
  - cbn. lia.
  - cbn. lia.
  - apply Forall_app. split; [by apply Hd|]. eapply Forall_impl; [exact Hnew|]. auto.
  - intros _. apply Forall_app. split; [by apply (dl_open _ _ _ _ _ _ _ Hd)|].
    eapply Forall_impl; [exact Hnew|]. intros f [->| ->]; done.
  - cbn. congruence.
Qed.

Lemma exit_delivered lg s aid a info payload fs code :
  0 <= a_sent a <= zlen (a_out a) -> is_Some (finished s) -> a_closing a = false ->
  a_cursor a = ring_end (s_ring s) -> exit_reported lg (a_session a) code ->
  delivered lg s aid a info payload fs ->
  delivered lg s aid (set_a_closing (set_a_out a (push_frame (a_out a) EXIT (exit_payload code))) true)
    info payload (fs ++ [(EXIT, exit_payload code)]).
Proof.
  intros Hsent Hf Hc Hcur Hcode Hd. split; try (by apply Hd).
  - eapply (delivered_more _ s aid a); [done|done|done| |exact Hd].
    unfold push_frame, frames_of. cbn. by rewrite app_nil_r.
  - rewrite filter_app, tags_of_app, (dl_output _ _ _ _ _ _ _ Hd). cbn. by rewrite app_nil_r.
  - apply Forall_app. split; [by apply Hd|]. constructor; [by right; right|constructor].
  - done.
  - intros _. split_and!; [done|done|]. exists fs, code. split_and!; [done| |done].
    by apply (dl_open _ _ _ _ _ _ _ Hd).
Qed.

Lemma port_delivered lg s aid a info payload fs event :
  0 <= a_sent a <= zlen (a_out a) -> a_closing a = false ->
  delivered lg s aid a info payload fs ->
  delivered lg s aid (set_a_out a (push_frame (a_out a) PORT_EVENT event))
    info payload (fs ++ [(PORT_EVENT, event)]).
Proof.
  intros Hsent Hc Hd. split; try (by apply Hd).
  - eapply (delivered_more _ s aid a); [done|done|done| |exact Hd].
    unfold push_frame, frames_of. cbn. by rewrite app_nil_r.
  - rewrite filter_app, tags_of_app, (dl_output _ _ _ _ _ _ _ Hd). cbn. by rewrite app_nil_r.
  - apply Forall_app. split; [by apply Hd|]. constructor; [by right; left|constructor].
  - intros _. apply Forall_app. split; [by apply (dl_open _ _ _ _ _ _ _ Hd)|by repeat constructor].
  - cbn. congruence.
Qed.

Lemma sent_delivered lg s aid a info payload fs n :
  0 <= a_sent a -> 0 < n -> a_sent a + n <= zlen (a_out a) ->
  delivered lg s aid a info payload fs ->
  delivered (lg ++ [ESent aid (ztake n (zdrop (a_sent a) (a_out a)))]) s aid
    (set_a_sent a (a_sent a + n)) info payload fs.
Proof.
  intros H0 Hn Hle []. split; rewrite ?sent_sent, ?hist_sent; try done.
  - rewrite Z.eqb_refl, <-dl_bytes0, <-app_assoc. f_equal. cbn.
    rewrite <-(zdrop_zdrop n (a_sent a)) by lia. apply ztake_zdrop.
  - intros Hc. destruct (dl_closing0 Hc) as (? & ? & fs' & code & ? & ? & x & ? & ?).
    split_and!; [done..|]. exists fs', code. split_and!; [done..|]. exists x.
    split; [apply elem_of_app; by left|done].
Qed.

Lemma out_detach cs l aid : wf cs l -> out_inv l -> out_inv (Loop_detach l aid).
Proof.
  intros Hwf HO. destruct (detach_shape l aid) as [[_ ->]|(a & o & Ha & Ho & ->)]; [done|].
  set (l0 := set_attachments l (delete aid (attachments l))).
  assert (out_inv l0) as H0.
  { destruct HO. split; try done. intros k b s. cbn. intros [_ Hb]%lookup_delete_Some. eauto. }
  assert (same_output (log (os l0)) (log o ++ [EClosed aid])) as Hlg.
  { rewrite (sw_log _ _ Ho). apply same_output_app. by repeat constructor. }
  destruct (sessions l !! a_session a) as [s|] eqn:Hs.
  - destruct (detach_session_fields s aid (now l)) as (_ & _ & h & ->).
    eapply (out_session l0); [exact Hs| | | |reflexivity|reflexivity|reflexivity|exact Hlg|exact H0];
      [done|done|by left].
  - by apply (out_same l0).
Qed.

(** An attachment's own output side changes, the rest is as it was. *)
Lemma out_own l l' aid a a' :
  attachments l !! aid = Some a -> a_session a' = a_session a ->
  (forall s info payload fs, sessions l !! a_session a = Some s ->
     delivered (log (os l)) s aid a info payload fs ->
     exists fs', delivered (log (os l)) s aid a' info payload fs') ->
  sessions l' = sessions l -> attachments l' = <[aid := a']> (attachments l) ->
  early_exits l' = early_exits l -> same_output (log (os l)) (log (os l')) -> out_inv l -> out_inv l'.
Proof.
  intros Ha Es Hd E1 E2 E3 Hlg HO. destruct (Hlg) as (H1 & _ & H3).
  eapply out_attachment; try done.
  - intros s info payload fs Hs [fs' Hd']%Hd; [|done]. exists fs'. by eapply delivered_log.
  - intros. by eapply delivered_log.
Qed.

Ltac out_sess Hs :=
  match goal with HO : out_inv ?l |- _ =>
    eapply (out_session l); [exact Hs| | | |reflexivity|reflexivity|reflexivity| |exact HO];
    [done|done|by left|] end.
Ltac out_att Ha :=
  match goal with HO : out_inv ?l |- _ =>
    eapply (out_own l); [exact Ha| | |reflexivity|reflexivity|reflexivity| |exact HO]; [done| |] end.
Ltac out_untouched Ha :=
  out_att Ha; [intros ???? _ ?; eexists; eapply delivered_same_att; [..|eassumption]; try done|].
Ltac quiet :=
  cbn; repeat match goal with Ho : same_world _ _ |- _ => rewrite (sw_log _ _ Ho); clear Ho end; cbn;
  first [ by rewrite <-(app_nil_r (log _)) at 2; apply same_output_app; constructor
        | apply same_output_app; by repeat constructor
        | rewrite <-app_assoc; apply same_output_app; by repeat constructor ].

Lemma out_finish l sid s s' l' :
  sessions l !! sid = Some s -> finish l sid s = (s', l') -> out_inv l -> out_inv (close_stdin l' sid s').
Proof.
  intros Hs Hf HO. destruct (finish_cases _ _ _ _ _ Hf) as [[-> ->]|(Hn & He & Ho' & -> & ->)];
    match goal with |- out_inv (close_stdin ?l ?sid ?s) =>
      destruct (close_cases l sid s) as [[Hc ->]|[[Hc ->]|(w & Hc & _ & ->)]] end;
    try unwatch; out_sess Hs; quiet.
Qed.

Lemma step_out cs X l l' : step X l l' -> wf cs l -> out_inv l -> out_inv l'.
Proof.
  intros Hstep Hwf HO.
  destruct Hstep as [l o Ho|l e He|l sid s st w data t Hs Hw Hd Hr HX|l sid s st w Hs Hw HX
    |l sid s w data rest Hs Hw Hq HX|l sid s w Hs Hw HX|l aid|l aid a data Ha HX Hb Hd|l aid a Ha
    |l aid a s kind payload rest s' l' Ha Hs HX Hp Hz Hk Ht|l aid a s Ha Hs HX Hq|l aid a Ha HX
    |l aid a Ha HX|l aid a s c out Ha Hs HX Hc Hf|l aid a s Ha Hs HX Hf Hc He|l aid a n Ha HX Hn Hle
    |l aid a payload Ha HX Hc|l id s status Hs HX|l id status Hs|l sid s w Hs Hw|l sid s v Hs|l sid t
    |l id s Hs Hf Ha Hk|l sid s s' l' Hs HX Hf|l sid s outs stdin pidfd Hs HX F1 F2 F3
    |l aid a w Ha HX Ht|l exits|l b|l t];
    try (destruct (lk_attachment _ (proj1 Hwf) _ _ Ha) as ([Hsent _ _] & _ & _)).
  - apply (out_same l); [done..| |done]. quiet.
  - apply (out_same l); [done..| |done]. cbn. apply same_output_app. constructor; [by destruct e|done].
  - by eapply out_read.
  - unwatch. out_sess Hs. quiet.
  - out_sess Hs. quiet.
  - unwatch. out_sess Hs. quiet.
  - by eapply out_detach.
  - out_untouched Ha. quiet.
  - out_untouched Ha. quiet.
  - destruct (take_frame_framed _ _ _ _ _ _ _ _ Ht) as [_ Fs (o & es & Ho & -> & Hes)].
    assert (out_inv (put_session (set_os l (set_log o (log o ++ es))) (a_session a) s')) as H1.
    { rewrite Fs. out_sess Hs. cbn. rewrite (sw_log _ _ Ho). cbn. rewrite <-app_assoc.
      apply same_output_app. constructor; [done|].
      destruct Hes as [[_ [->|(e & -> & He)]]|(_ & _ & _ & _ & ->)];
        [constructor|constructor; [by destruct e|done]|by repeat constructor]. }
    eapply (out_own (put_session (set_os l (set_log o (log o ++ es))) (a_session a) s') _ aid a _ Ha);
      [| |reflexivity|reflexivity|reflexivity| |exact H1]; [done| |].
    + intros ???? _ ?. eexists. by eapply delivered_same_att; [..|eassumption].
    + cbn. split_and!; done.
  - out_untouched Ha. quiet.
  - out_untouched Ha. quiet.
  - out_untouched Ha. quiet.
  - out_att Ha; [|quiet]. intros s1 info payload fs Hs1 Hd. simplify_eq. by eapply fill_delivered.
  - out_att Ha; [|quiet]. intros s1 info payload fs Hs1 Hd. simplify_eq.
    destruct (so_finished _ _ (lk_session _ (proj1 Hwf) _ _ Hs) Hf) as ([code Hcode] & _ & _).
    rewrite Hcode. eexists. apply exit_delivered; try done. by eapply oi_exit.
  - eapply (out_attachment l); [exact Ha| | | |reflexivity|reflexivity|reflexivity| | |exact HO]; [done|..]; cbn.
    + intros s info payload fs _ Hd. eexists. apply sent_delivered; [lia..|exact Hd].
    + intros k b s info payload fs Hne [].
      split; rewrite ?sent_sent, ?hist_sent, ?(proj2 (Z.eqb_neq aid k)), ?app_nil_r by done; try done.
      intros Hc. destruct (dl_closing0 Hc) as (? & ? & fs' & code & ? & ? & x & ? & ?).
      split_and!; [done..|]. exists fs', code. split_and!; [done..|]. exists x.
      split; [apply elem_of_app; by left|done].
    + intros. apply hist_sent.
    + intros. apply elem_of_app. by left.
  - out_att Ha; [|quiet]. intros s1 info p fs Hs1 Hd. eexists. by apply port_delivered.
  - cbn. destruct (s_pidfd s) as [w|]; [unwatch|];
      (eapply (out_session l); [exact Hs|..|reflexivity|reflexivity|reflexivity| |exact HO]; [done|done|right|];
       [eexists; split; [done|]; eexists; split; [|done]; cbn; rewrite ?(sw_log _ _ Ho); apply elem_of_app; right;
        by apply list_elem_of_singleton|quiet]).
  - destruct HO. destruct (same_output_app (log (os l)) [EExited id status]) as (S1 & S2 & S3);
      [by repeat constructor|]. split; cbn; intros; rewrite ?S1; eauto.
    + eapply exit_reported_mono; [by split|]. eauto.
    + revert H. rewrite lookup_insert. case_decide.
      * intros; simplify_eq. apply elem_of_app. right. by apply list_elem_of_singleton.
      * intros. apply S3. eauto.
    + destruct (oi_delivered0 aid a s) as (info & payload & fs & Hd); [done..|].
      exists info, payload, fs. eapply delivered_log; [by split|done].
  - unwatch. out_sess Hs. quiet.
  - out_sess Hs. quiet.
  - destruct (kill_timer_shape t l sid) as [->|(s & ws & o & es & Hs & -> & Ho & Hz & Hes)]; [done|].
    out_sess Hs. cbn. rewrite (sw_log _ _ Ho). apply same_output_app.
    eapply Forall_impl; [exact Hes|]. by intros [].
  - destruct HO. split; cbn; try done.
    + intros k b [_ Hb]%lookup_delete_Some. eauto.
    + intros k b c [_ Hb]%lookup_delete_Some. eauto.
    + intros k b c Hb [_ Hc]%lookup_delete_Some. eauto.
  - by eapply out_finish.
  - out_sess Hs. quiet.
  - out_untouched Ha. quiet.
  - apply (out_same l); [done..| |done]. quiet.
  - apply (out_same l); [done..| |done]. quiet.
  - apply (out_same l); [done..| |done]. quiet.
Qed.
End out_steps.

(** ** Input *)

(** What was queued for a process is what it was written and what waits. A
    process that closed its stdin loses the rest. *)
Definition stdin_inv (lg : list Effect) (sid : Z) (s : Session) : Prop :=
  zlen (stdin_queue s) < STDIN_QUEUE + MAX_FRAME /\
  match s_stdin s with
  | Some _ => queued_for lg sid = written_to lg sid ++ stdin_queue s
  | None => stdin_queue s = [] /\ exists lost, queued_for lg sid = written_to lg sid ++ lost
  end.

(** What an attachment sent is whole frames, then what is not taken yet. *)
Definition recv_inv (lg : list Effect) (aid : Z) (a : Attachment) : Prop :=
  recv_from lg aid = frames_of (frames_from lg aid) ++ zdrop (a_taken a) (a_inp a) /\
  Forall frame_fits (frames_from lg aid).

Record in_inv (l : Loop) : Prop := {
  ni_stdin sid s : sessions l !! sid = Some s -> stdin_inv (log (os l)) sid s;
  ni_recv aid a : attachments l !! aid = Some a -> recv_inv (log (os l)) aid a;
}.

Definition same_input (lg lg' : list Effect) : Prop :=
  (forall sid, queued_for lg' sid = queued_for lg sid /\ written_to lg' sid = written_to lg sid) /\
  (forall aid, recv_from lg' aid = recv_from lg aid /\ frames_from lg' aid = frames_from lg aid).

Lemma same_input_app lg es :
  Forall (fun e => match e with EStdin _ _ | EQueued _ _ | ERecv _ _ | EFrame _ _ _ => False | _ => True end) es ->
  same_input lg (lg ++ es).
Proof.
  intros Hes. unfold same_input, queued_for, written_to, recv_from, frames_from.
  split; intros k; rewrite !flat_map_app;
    (split; [rewrite <-(app_nil_r (flat_map _ lg)) at 2|rewrite <-(app_nil_r (flat_map _ lg)) at 2]); f_equal;
    (induction Hes as [|e es He _ IH]; [done|]; cbn; rewrite IH; by destruct e).
Qed.

Lemma stdin_same lg lg' sid s s' :
  same_input lg lg' -> stdin_queue s' = stdin_queue s -> (s_stdin s' = None <-> s_stdin s = None) ->
  stdin_inv lg sid s -> stdin_inv lg' sid s'.
Proof.
  intros [Hl _] Eq Ei [Hz Hs]. destruct (Hl sid) as [E1 E2]. unfold stdin_inv. rewrite Eq, E1, E2.
  split; [done|]. destruct (s_stdin s), (s_stdin s'); naive_solver.
Qed.

Lemma recv_same lg lg' aid a a' :
  same_input lg lg' -> zdrop (a_taken a') (a_inp a') = zdrop (a_taken a) (a_inp a) ->
  recv_inv lg aid a -> recv_inv lg' aid a'.
Proof.
  intros [_ Hl] Ez [Hr Hf]. destruct (Hl aid) as [E1 E2]. unfold recv_inv. by rewrite Ez, E1, E2.
Qed.

Lemma in_same l l' :
  sessions l' = sessions l -> attachments l' = attachments l ->
  same_input (log (os l)) (log (os l')) -> in_inv l -> in_inv l'.
Proof.
  intros E1 E2 Hl []. split; rewrite ?E1, ?E2.
  - intros sid s Hs. eapply stdin_same; eauto.
  - intros aid a Ha. eapply recv_same; eauto.
Qed.

Lemma in_sess l l' sid s s' :
  sessions l !! sid = Some s -> stdin_queue s' = stdin_queue s -> (s_stdin s' = None <-> s_stdin s = None) ->
  sessions l' = <[sid := s']> (sessions l) -> attachments l' = attachments l ->
  same_input (log (os l)) (log (os l')) -> in_inv l -> in_inv l'.
Proof.
  intros Hs Eq Ei E1 E2 Hl []. split; rewrite ?E1, ?E2.
  - intros k b. rewrite lookup_insert. case_decide.
    + intros; simplify_eq. eapply stdin_same; eauto.
    + intros Hb. eapply stdin_same; eauto.
  - intros aid a Ha. eapply recv_same; eauto.
Qed.

Lemma in_att l l' aid a a' :
  attachments l !! aid = Some a -> zdrop (a_taken a') (a_inp a') = zdrop (a_taken a) (a_inp a) ->
  sessions l' = sessions l -> attachments l' = <[aid := a']> (attachments l) ->
  same_input (log (os l)) (log (os l')) -> in_inv l -> in_inv l'.
Proof.
  intros Ha Ez E1 E2 Hl []. split; rewrite ?E1, ?E2.
  - intros sid s Hs. eapply stdin_same; eauto.
  - intros k b. rewrite lookup_insert. case_decide.
    + intros; simplify_eq. eapply recv_same; eauto.
    + intros Hb. eapply recv_same; eauto.
Qed.

Ltac hush :=
  cbn; repeat match goal with Ho : same_world _ _ |- _ => rewrite (sw_log _ _ Ho); clear Ho end; cbn;
  first [ by rewrite <-(app_nil_r (log _)) at 2; apply same_input_app; constructor
        | apply same_input_app; by repeat constructor
        | rewrite <-app_assoc; apply same_input_app; by repeat constructor ].
Ltac in_s Hs :=
  match goal with HN : in_inv ?l |- _ =>
    eapply (in_sess l); [exact Hs| | |reflexivity|reflexivity| |exact HN]; [done|done|] end.
Ltac in_a Ha :=
  match goal with HN : in_inv ?l |- _ =>
    eapply (in_att l); [exact Ha| |reflexivity|reflexivity| |exact HN]; [try done|] end.

Ltac read_logs :=
  unfold stdin_inv, recv_inv, queued_for, written_to, recv_from, frames_from in *;
  rewrite ?flat_map_app in *; cbn [flat_map] in *;
  repeat match goal with
         | |- context [?k =? ?k] => rewrite Z.eqb_refl
         | H : ?k <> ?k' |- context [?k =? ?k'] => rewrite (proj2 (Z.eqb_neq k k') H)
         end; rewrite ?app_nil_r in *.

Lemma in_stdin_write l sid s w data rest :
  sessions l !! sid = Some s -> s_stdin s = Some w -> stdin_queue s = data ++ rest -> in_inv l ->
  in_inv (emit (put_session l sid (set_stdin_queue s rest)) (EStdin sid data)).
Proof.
  intros Hs Hw Hq []. split; cbn.
  - intros k b. rewrite lookup_insert. case_decide.
    + intros; simplify_eq. pose proof (ni_stdin0 _ _ Hs) as Hi. read_logs. cbn. rewrite Hw in *.
      destruct Hi as [Hz ->]. rewrite Hq in *. rewrite app_assoc. split; [zlen_lia|done].
    + intros Hb. pose proof (ni_stdin0 _ _ Hb). by read_logs.
  - intros aid a Ha. pose proof (ni_recv0 _ _ Ha). by read_logs.
Qed.

(** Closing stdin loses what waits. *)
Lemma in_stdin_close l l' sid s s' w :
  sessions l !! sid = Some s -> s_stdin s = Some w -> stdin_queue s' = [] -> s_stdin s' = None ->
  sessions l' = <[sid := s']> (sessions l) -> attachments l' = attachments l ->
  same_input (log (os l)) (log (os l')) -> in_inv l -> in_inv l'.
Proof.
  intros Hs Hw Eq Ei E1 E2 Hl []. split; rewrite ?E1, ?E2.
  - intros k b. rewrite lookup_insert. case_decide.
    + intros; simplify_eq. destruct (ni_stdin0 _ _ Hs) as [Hz Hi]. rewrite Hw in Hi.
      destruct (proj1 Hl k) as [L1 L2]. unfold stdin_inv. rewrite Ei, Eq, L1, L2, Hi.
      split; [unfold STDIN_QUEUE; change MAX_FRAME with 1048576; zlen_lia|]. eauto.
    + intros Hb. eapply stdin_same; eauto.
  - intros aid a Ha. eapply recv_same; eauto.
Qed.

Lemma in_finish l sid s s' l' :
  sessions l !! sid = Some s -> finish l sid s = (s', l') -> in_inv l -> in_inv (close_stdin l' sid s').
Proof.
  intros Hs Hf HN. destruct (finish_cases _ _ _ _ _ Hf) as [[-> ->]|(Hn & He & Ho' & -> & ->)];
    match goal with |- in_inv (close_stdin ?l ?sid ?s) =>
      destruct (close_cases l sid s) as [[Hc ->]|[[Hc ->]|(w & Hc & _ & ->)]] end;
    try done; try (in_s Hs; hush);
    try (unwatch; eapply (in_stdin_close l); [exact Hs|exact Hc| | |reflexivity|reflexivity| |exact HN]; [done|done|hush]);
    (destruct (ni_stdin _ HN _ _ Hs) as [_ Hi]; cbn in Hc; rewrite Hc in Hi; destruct Hi as [Hq _];
     eapply (in_sess l); [exact Hs| | |reflexivity|reflexivity| |exact HN]; [by rewrite Hq|done|hush]).
Qed.

Lemma in_recv l aid a data :
  attachments l !! aid = Some a -> 0 <= a_taken a <= zlen (a_inp a) -> in_inv l ->
  in_inv (emit (put_attachment l aid (set_a_inp a (a_inp a ++ data))) (ERecv aid data)).
Proof.
  intros Ha Ht []. split; cbn.
  - intros sid s Hs. pose proof (ni_stdin0 _ _ Hs). by read_logs.
  - intros k b. rewrite lookup_insert. case_decide.
    + intros; simplify_eq. destruct (ni_recv0 _ _ Ha) as [Hr Hf]. read_logs. cbn.
      split; [|done]. by rewrite Hr, <-app_assoc, zdrop_app_le by lia.
    + intros Hb. pose proof (ni_recv0 _ _ Hb). by read_logs.
Qed.

Lemma recv_app lg es aid a :
  Forall (fun e => match e with ERecv _ _ | EFrame _ _ _ => False | _ => True end) es ->
  recv_inv lg aid a -> recv_inv (lg ++ es) aid a.
Proof.
  intros Hes. unfold recv_inv, recv_from, frames_from. rewrite !flat_map_app.
  assert (forall (A : Type) (f : Effect -> list A), (forall e, match e with ERecv _ _ | EFrame _ _ _ => True
      | _ => f e = [] end) -> flat_map f es = []) as Hnil.
  { intros A f Hf. induction Hes as [|e es He _ IH]; [done|]. cbn. rewrite IH, app_nil_r.
    specialize (Hf e). by destruct e. }
  rewrite (Hnil _ (fun e => match e with ERecv k d => _ | _ => _ end)) by (by intros []).
  rewrite (Hnil _ (fun e => match e with EFrame k t p => _ | _ => _ end)) by (by intros []).
  by rewrite !app_nil_r.
Qed.

Lemma recv_frame lg aid a kind payload rest :
  0 <= a_taken a -> zdrop (a_taken a) (a_inp a) = frame_bytes kind payload ++ rest ->
  zlen payload < MAX_FRAME -> recv_inv lg aid a ->
  recv_inv (lg ++ [EFrame aid kind payload]) aid
    (set_a_taken (set_a_blocked a false) (a_taken a + (5 + zlen payload))).
Proof.
  intros Ht Hp Hz [Hr Hf]. read_logs. cbn. split.
  - rewrite Hr, Hp, frames_of_app, <-!app_assoc. f_equal. unfold frames_of. cbn. rewrite app_nil_r. f_equal.
    rewrite <-(zdrop_zdrop (5 + zlen payload)) by zlen_lia. rewrite Hp.
    by rewrite zdrop_app_exact by (rewrite zlen_frame_bytes; lia).
  - apply Forall_app. split; [done|]. constructor; [unfold frame_fits; cbn; lia|done].
Qed.

(** A frame of the owner adds its payload to the input of the process. *)
Lemma stdin_framed lg sid aid s kind payload s' es :
  (kind = STDIN -> takes_input s aid = true -> zlen (stdin_queue s) < STDIN_QUEUE) ->
  zlen payload < MAX_FRAME -> s_stdin s' = s_stdin s ->
  ((stdin_queue s' = stdin_queue s /\ (es = [] \/ exists e, es = [e] /\ told e = true)) \/
   (kind = STDIN /\ is_Some (s_stdin s) /\ takes_input s aid = true /\
    stdin_queue s' = stdin_queue s ++ payload /\ es = [EQueued sid payload])) ->
  (stdin_inv lg sid s -> stdin_inv (lg ++ EFrame aid kind payload :: es) sid s') /\
  (forall k b, k <> sid -> stdin_inv lg k b -> stdin_inv (lg ++ EFrame aid kind payload :: es) k b) /\
  Forall (fun e => match e with ERecv _ _ | EFrame _ _ _ => False | _ => True end) es.
Proof.
  intros Hk Hz Ei Hes. destruct Hes as [[Eq Hes]|(-> & [w Hw] & Ht & Eq & ->)].
  - destruct Hes as [->|(e & -> & He)].
    + split_and!; [|intros k b _|constructor]; intros [? ?]; read_logs; by rewrite ?Eq, ?Ei.
    + split_and!; [|intros k b _|constructor; [by destruct e|constructor]]; intros [? ?];
        destruct e; try done; read_logs; by rewrite ?Eq, ?Ei.
  - split_and!; [| |by repeat constructor].
    + intros [? Hi]. specialize (Hk eq_refl Ht). read_logs. rewrite Eq, Ei, Hw in *.
      split; [zlen_lia|]. cbn [app]. by rewrite Hi, app_assoc.
    + intros k b Hne [? ?]. assert (sid <> k) by done. by read_logs.
Qed.

Lemma in_frame cs l aid a s kind payload rest s' l' :
  wf cs l -> attachments l !! aid = Some a -> sessions l !! a_session a = Some s ->
  zdrop (a_taken a) (a_inp a) = frame_bytes kind payload ++ rest -> zlen payload < MAX_FRAME ->
  (kind = STDIN -> takes_input s aid = true -> zlen (stdin_queue s) < STDIN_QUEUE) ->
  framed (emit l (EFrame aid kind payload)) (a_session a) aid s kind payload s' l' -> in_inv l ->
  in_inv (put_attachment (put_session l' (a_session a) s') aid
            (set_a_taken (set_a_blocked a false) (a_taken a + (5 + zlen payload)))).
Proof.
  intros Hwf Ha Hs Hp Hz Hk [_ Fs (o & es & Ho & -> & Hes)] [].
  destruct (lk_attachment _ (proj1 Hwf) _ _ Ha) as ([_ Htaken _] & _).
  assert (s_stdin s' = s_stdin s) as Ei by (by rewrite Fs).
  destruct (stdin_framed (log (os l)) _ aid s kind payload s' es Hk Hz Ei Hes) as (H1 & H2 & H3).
  split; cbn; rewrite (sw_log _ _ Ho); cbn; rewrite <-app_assoc; cbn.
  - intros k b. rewrite lookup_insert. case_decide; [intros; simplify_eq; eauto|]. intros. apply H2; eauto.
  - change (EFrame aid kind payload :: es) with ([EFrame aid kind payload] ++ es). rewrite app_assoc.
    intros k b. rewrite lookup_insert. destruct (decide (aid = k)) as [<-|Hne].
    + intros; simplify_eq. apply recv_app; [done|]. by eapply recv_frame; [lia|..]; eauto.
    + intros Hb. apply recv_app; [done|]. destruct (ni_recv0 _ _ Hb). by read_logs.
Qed.

Lemma in_detach l aid : in_inv l -> in_inv (Loop_detach l aid).
Proof.
  intros HN. destruct (detach_shape l aid) as [[_ ->]|(a & o & Ha & Ho & ->)]; [done|].
  set (l0 := set_attachments l (delete aid (attachments l))).
  assert (in_inv l0) as H0.
  { destruct HN. split; try done. intros k b. cbn. intros [_ Hb]%lookup_delete_Some. eauto. }
  assert (same_input (log (os l0)) (log o ++ [EClosed aid])) as Hlg.
  { rewrite (sw_log _ _ Ho). apply same_input_app. by repeat constructor. }
  destruct (sessions l !! a_session a) as [s|] eqn:Hs.
  - destruct (detach_session_fields s aid (now l)) as (_ & _ & h & ->).
    eapply (in_sess l0); [exact Hs| | |reflexivity|reflexivity|exact Hlg|exact H0]; done.
  - by apply (in_same l0).
Qed.

Lemma step_in `{SessionEnv} cs X l l' : step X l l' -> wf cs l -> in_inv l -> in_inv l'.
Proof.
  intros Hstep Hwf HN.
  destruct Hstep as [l o Ho|l e He|l sid s st w data t Hs Hw Hd Hr HX|l sid s st w Hs Hw HX
    |l sid s w data rest Hs Hw Hq HX|l sid s w Hs Hw HX|l aid|l aid a data Ha HX Hb Hd|l aid a Ha
    |l aid a s kind payload rest s' l' Ha Hs HX Hp Hz Hk Ht|l aid a s Ha Hs HX Hq|l aid a Ha HX
    |l aid a Ha HX|l aid a s c out Ha Hs HX Hc Hf|l aid a s Ha Hs HX Hf Hc He|l aid a n Ha HX Hn Hle
    |l aid a payload Ha HX Hc|l id s status Hs HX|l id status Hs|l sid s w Hs Hw|l sid s v Hs|l sid t
    |l id s Hs Hf Ha Hk|l sid s s' l' Hs HX Hf|l sid s outs stdin pidfd Hs HX F1 F2 F3
    |l aid a w Ha HX Ht|l exits|l b|l t].
  - apply (in_same l); [done..| |done]. hush.
  - apply (in_same l); [done..| |done]. cbn. apply same_input_app. constructor; [by destruct e|done].
  - in_s Hs. hush.
  - unwatch. in_s Hs. hush.
  - by eapply in_stdin_write.
  - unwatch. eapply (in_stdin_close l); [exact Hs|exact Hw| | |reflexivity|reflexivity| |exact HN]; [done|done|hush].
  - by apply in_detach.
  - apply in_recv; [done| |done]. by destruct (lk_attachment _ (proj1 Hwf) _ _ Ha) as ([] & _).
  - in_a Ha. hush.
  - apply take_frame_framed in Ht. by eapply in_frame.
  - in_a Ha. hush.
  - in_a Ha. hush.
  - in_a Ha. hush.
  - in_a Ha. hush.
  - in_a Ha. hush.
  - in_a Ha. hush.
  - in_a Ha. hush.
  - cbn. destruct (s_pidfd s) as [w|]; [unwatch|]; in_s Hs; hush.
  - apply (in_same l); [done..| |done]. hush.
  - unwatch. in_s Hs. hush.
  - in_s Hs. hush.
  - destruct (kill_timer_shape t l sid) as [->|(s & ws & o & es & Hs & -> & Ho & Hz & Hes)]; [done|].
    in_s Hs. cbn. rewrite (sw_log _ _ Ho). apply same_input_app.
    eapply Forall_impl; [exact Hes|]. by intros [].
  - destruct HN. split; cbn; [|done]. intros k b [_ Hb]%lookup_delete_Some. eauto.
  - by eapply in_finish.
  - match goal with HN : in_inv ?l |- _ =>
      eapply (in_sess l); [exact Hs| | |reflexivity|reflexivity| |exact HN]; [done| |hush] end.
    cbn. by inversion F2.
  - in_a Ha. hush.
  - apply (in_same l); [done..| |done]. hush.
  - apply (in_same l); [done..| |done]. hush.
  - apply (in_same l); [done..| |done]. hush.
Qed.

(** ** All of it, for any events *)

Section streams.
Context `{SE : SessionEnv}.

Definition streams (cs : list Cmd) (l : Loop) : Prop :=
  wf cs l /\ fresh_inv cs l /\ out_inv l /\ in_inv l.

Lemma streams_same cs cs' l l' :
  wf cs' l' -> sessions l' = sessions l -> attachments l' = attachments l ->
  next_attachment l' = next_attachment l -> early_exits l' = early_exits l ->
  (forall id, id ∈ start_ids (cs' ++ cmd_queue l') \/ next_id (os l') <= id ->
     id ∈ start_ids (cs ++ cmd_queue l) \/ next_id (os l) <= id) ->
  (exists es, log (os l') = log (os l) ++ es /\
     Forall (fun e => told e = true \/ match e with EKill _ _ => True | _ => False end) es) ->
  streams cs l -> streams cs' l'.
Proof.
  intros Hwf E1 E2 E3 E4 E5 (es & Elog & Hes) (_ & HF & HO & HN). split_and!; [done| | |].
  - destruct HF. split; rewrite Elog.
    3: { apply from_frames_app; [done|]. left. eapply Forall_impl; [exact Hes|]. by intros [] []. }
    + intros id Hid. apply unused_app; [auto|]. eapply Forall_impl; [exact Hes|]. by intros [] [].
    + intros aid. rewrite E3. intros Haid. apply unattached_app; [auto|].
      eapply Forall_impl; [exact Hes|]. by intros [] [].
  - apply (out_same l); try done. rewrite Elog. apply same_output_app.
    eapply Forall_impl; [exact Hes|]. by intros [] [].
  - apply (in_same l); try done. rewrite Elog. apply same_input_app.
    eapply Forall_impl; [exact Hes|]. by intros [] [].
Qed.

Lemma no_log (o : Os) : exists es, log o = log o ++ es /\
  Forall (fun e => told e = true \/ match e with EKill _ _ => True | _ => False end) es.
Proof. exists []. by rewrite app_nil_r. Qed.

Lemma streams_attached cs sid l l' : attached sid l l' -> streams cs l -> streams cs l'.
Proof.
  intros Hatt (Hwf & [] & HO & []).
  assert (wf cs l') as Hwf' by (by eapply (fl_attach _ wf_flat)). split_and!; [done|..].
  all: destruct Hatt as [l s info payload sock l' is_owner Hs Hm HM Hj Hid Hr Ho Hw];
    unfold Loop_watch in Hw; destruct (poll_watch _ _) as [w p]; simplify_eq.
  - split; [done| |done]. cbn. intros aid Haid. apply fi_attachment0. lia.
  - destruct (fi_attachment0 (next_attachment l)) as (U1 & U2 & U3); [lia|].
    pose proof (so_id _ _ (lk_session _ (proj1 Hwf) _ _ Hs)) as Eid.
    assert (out_inv (put_session l sid (set_hangup_at (set_s_attachments
        (if is_owner then set_s_owner s (Some (next_attachment l)) else s)
        (s_attachments s ++ [next_attachment l])) None))) as [].
    { eapply (out_session l); [exact Hs| | | |reflexivity..| |exact HO]; cbn; try (by destruct is_owner).
      left. by destruct is_owner. }
    split; try done. intros k b s'. cbn. rewrite lookup_insert. case_decide as Ek; [|eauto].
    subst k. intros ?; simplify_eq. cbn. rewrite lookup_insert_eq. intros ?; simplify_eq.
    exists info, payload, []. split; cbn; try done.
    + rewrite U1. unfold push_frame, frames_of. cbn. by rewrite app_nil_r.
    + unfold zslice. by rewrite ztake_nonpos by lia.
    + pose proof (inv_start _ _ (oi_ring _ HO _ _ Hs)). lia.
    + by destruct is_owner.
  - split; cbn.
    + intros k b. rewrite lookup_insert. case_decide; [|auto]. intros; simplify_eq.
      destruct (ni_stdin0 _ _ Hs). by destruct is_owner.
    + intros k b. rewrite lookup_insert. case_decide; [|auto]. intros; simplify_eq.
      destruct (fi_attachment0 (next_attachment l)) as (U1 & U2 & U3); [lia|].
      unfold recv_inv. rewrite U2, U3. done.
Qed.

Lemma streams_insert id req conn cs l :
  streams (CmdStart id req conn :: cs) l -> streams cs (insert_session l id req).
Proof.
  intros (Hwf & [HF1 HF2 HF3] & [] & []).
  assert (wf cs (insert_session l id req)) as Hwf' by (by eapply wf_insert).
  destruct Hwf as (HL & HP & HI).
  destruct (ii_new _ _ HI id) as [_ Hn]; [apply elem_of_cons; by left|].
  destruct (insert_session_inserted l id req Hn HP) as (s & Hin & _).
  destruct (HF1 id) as (U1 & U2 & U3); [left; apply elem_of_cons; by left|].
  pose proof (sw_log _ _ (in_world _ _ _ _ Hin)) as Elog.
  pose proof (sw_next_id _ _ (in_world _ _ _ _ Hin)) as Eid. 
  destruct Hin as [Is Ia In Iq Id Iw Ie Iok Ir Isq Iat Ik If Iex Isi].
  split_and!; [done|..]; split; rewrite ?Elog, ?Eid, ?Iq, ?In, ?Is, ?Ia; try done.
  - intros k Hk. apply HF1. destruct Hk as [Hk|]; [left; apply elem_of_cons; by right|by right].
  - intros k b. rewrite lookup_insert. case_decide; [|eauto]. intros; simplify_eq.
    rewrite U1, Ir. apply (Ring_of_inv []).
  - intros k b c. rewrite lookup_insert. case_decide; [|eauto]. intros ? Hc; simplify_eq.
    rewrite Iex in Hc. destruct (early_exits l !! k) as [status|] eqn:Ee; simplify_eq/=.
    exists status. eauto.
  - intros k st. rewrite Ie. intros [_ ?]%lookup_delete_Some. eauto.
  - intros k a b Ha. destruct (lk_attachment _ HL _ _ Ha) as (_ & _ & s1 & Hs1 & _).
    rewrite lookup_insert_ne by congruence. eauto.
  - intros k b. rewrite lookup_insert. case_decide; [|eauto]. intros; simplify_eq.
    unfold stdin_inv. rewrite U2, U3, Isq. destruct Isi as [w ->]. done.
Qed.

Lemma streams_kill req_id signal timeout chan cs l :
  streams (CmdKill req_id signal timeout chan :: cs) l -> streams cs (Loop_kill l req_id signal timeout chan).
Proof.
  intros Hst. pose proof (wf_kill _ _ _ _ _ _ (proj1 Hst)) as Hwf.
  destruct (kill_shape l req_id signal timeout chan)
    as (o & Ho & [(es & Hes & E)|(sid & s & sig & name & d & Hs & Hk & E)]); rewrite E in *.
  - eapply (streams_same _ _ l); [done..| | |exact Hst]; cbn.
    + by rewrite (sw_next_id _ _ Ho).
    + rewrite (sw_log _ _ Ho). exists es. split; [done|].
      destruct Hes as [->|(code & ->)]; repeat constructor; by right.
  - destruct Hst as (_ & HF & HO & HN). split_and!; [done| | |].
    + destruct HF. split; cbn; rewrite (sw_log _ _ Ho), ?(sw_next_id _ _ Ho).
      * intros id Hid. apply unused_app; [by apply fi_session0|by repeat constructor].
      * intros aid Haid. apply unattached_app; [by apply fi_attachment0|by repeat constructor].
      * apply from_frames_app; [done|left; by repeat constructor].
    + eapply (out_session l); [exact Hs| | | |reflexivity..| |exact HO]; [done|done|by left|].
      cbn. rewrite (sw_log _ _ Ho). apply same_output_app. by repeat constructor.
    + in_s Hs. cbn. rewrite (sw_log _ _ Ho). apply same_input_app. by repeat constructor.
Qed.

Lemma streams_start l req conn created spawned :
  streams [] l -> streams [] (start l req conn created spawned).
Proof.
  intros Hst. pose proof (wf_start l req conn created spawned (proj1 Hst)) as Hwf.
  revert Hwf. unfold start, reserve.
  case_test; cbn [negb]; [case_test; [|case_test]|]; cbn -[start_ids]; intros Hwf;
    (eapply (streams_same _ _ l); [done..| | |exact Hst]; cbn -[start_ids];
     [|first [apply (no_log (os l))|eexists; split; [by rewrite <-?app_assoc|by repeat constructor; left]]]).
  - intros id [?|?]; [by left|right; lia].
  - intros id. rewrite start_ids_app. intros [[?|Hid]%elem_of_app|?]; [by left| |right; lia].
    apply list_elem_of_singleton in Hid. right. lia.
  - intros id [?|?]; [by left|right; lia].
  - done.
Qed.

Lemma streams_flat : flat streams.
Proof.
  split.
  - intros cs X l l' Hstep (Hwf & HF & HO & HN).
    assert (wf cs l') as Hwf' by (by eapply (fl_step _ wf_flat)).
    split_and!; [done| |by eapply step_out|by eapply step_in].
    destruct (step_counters _ _ _ Hstep) as (E1 & E2 & E3). eapply fresh_logs; [exact Hwf|by eapply step_logs|done..].
  - intros cs l sid s [Hwf _]. by apply (fl_ids _ wf_flat cs).
  - intros cs l sid s [Hwf _]. by apply (fl_ring _ wf_flat cs).
  - intros cs l sid s aid a [Hwf _]. by apply (fl_owned _ wf_flat cs).
  - intros cs l aid a [Hwf _]. by apply (fl_sent _ wf_flat cs l aid).
  - intros. by eapply streams_attached.
  - intros cs l d Hst. pose proof (fl_dirty _ wf_flat _ _ d (proj1 Hst)).
    apply (streams_same cs _ l); try done. apply (no_log (os l)).
  - intros l Hst. pose proof (fl_take _ wf_flat _ (proj1 Hst)).
    apply (streams_same [] _ l); try done; [|apply (no_log (os l))]. cbn. by rewrite app_nil_r.
  - intros c cs l Hc Hst. pose proof (fl_skip _ wf_flat _ _ _ Hc (proj1 Hst)).
    apply (streams_same (c :: cs) _ l); try done; [|apply (no_log (os l))]. by destruct c.
  - intros c l Hc Hst. pose proof (fl_post _ wf_flat _ _ Hc (proj1 Hst)).
    apply (streams_same [] _ l); try done; [|apply (no_log (os l))]. cbn.
    by rewrite start_ids_app, start_ids_untracked, app_nil_r.
  - intros. by eapply streams_insert.
  - intros. by apply streams_kill.
  - intros. by apply streams_start.
  - intros l req_id signal timeout Hst. pose proof (fl_kill_events _ wf_flat _ req_id signal timeout (proj1 Hst)).
    apply (streams_same [] _ l); try done; [|apply (no_log (os l))]. cbn.
    by rewrite start_ids_app, app_nil_r.
  - intros l a c p r t u Hst. pose proof (fl_kernel _ wf_flat _ a c p r t u (proj1 Hst)).
    apply (streams_same [] _ l); try done. apply (no_log (os l)).
Qed.

Lemma streams_new t : streams [] (Loop_new t).
Proof. split_and!; [apply wf_new|..]; split; cbn; try done; intros; by simplify_map_eq. Qed.

Lemma served_streams ins t : streams [] (feed_all ins (Loop_new t)).
Proof. apply serve_flat; [apply streams_flat|apply streams_new]. Qed.
End streams.
