(* ===== verification/SessionLive.v ===== *)
(** * The session loop keeps going

    A turn settles every session that changed ([settle] ends), and when it is
    over each descriptor is registered for exactly what it can do, so that
    whatever waits has an event that will wake it. A kill is answered to its
    end, and sessions that ended are dropped in time. *)

From Stdlib Require Import Strings.Byte Strings.String.
From stdpp Require Import gmap sorting.
From S2P Require Import Prelude Io Text Frame Ring Vsock SessionTypes Sessions SessionSteps SessionLinks SessionStreams.

(** ** Settling ends *)

Definition weight (m : gmap Z Attachment) : nat :=
  map_fold (fun _ a n => S (pending_input a) + n)%nat 0%nat m.
Definition work (l : Loop) : nat := size (dirty_ids l) + weight (attachments l).

Lemma weight_delete m k a :
  m !! k = Some a -> weight m = (S (pending_input a) + weight (delete k m))%nat.
Proof.
  intros Hk. unfold weight.
  apply (map_fold_delete_L (fun _ a n => S (pending_input a) + n)%nat 0%nat k a m); [intros; lia|done].
Qed.

Lemma weight_insert m k a a' :
  m !! k = Some a -> (weight (<[k := a']> m) + pending_input a = weight m + pending_input a')%nat.
Proof.
  intros Hk. rewrite (weight_delete m k a Hk). rewrite <-insert_delete_eq.
  unfold weight at 1. rewrite map_fold_insert_L; [|intros; lia|apply lookup_delete_eq]. fold (weight (delete k m)). lia.
Qed.

Definition taken_ok (l : Loop) : Prop :=
  forall aid a, attachments l !! aid = Some a -> 0 <= a_taken a.

(** [l'] has no more work than [l]. *)
Definition settles (l l' : Loop) : Prop := (work l' <= work l)%nat /\ (taken_ok l -> taken_ok l').

#[export] Instance settles_refl : Reflexive settles.
Proof. intros l. by split. Qed.
#[export] Instance settles_trans : Transitive settles.
Proof. intros l1 l2 l3 [? ?] [? ?]. split; [lia|auto]. Qed.

Lemma settles_same l l' :
  dirty_ids l' = dirty_ids l -> attachments l' = attachments l -> settles l l'.
Proof. intros E1 E2. unfold settles, work, taken_ok. by rewrite E1, E2. Qed.

Lemma settles_put l l' aid a a' :
  attachments l !! aid = Some a -> a_inp a' = a_inp a -> a_taken a' = a_taken a ->
  dirty_ids l' = dirty_ids l -> attachments l' = <[aid := a']> (attachments l) -> settles l l'.
Proof.
  intros Ha E1 E2 E3 E4. unfold settles, work, taken_ok. rewrite E3, E4. split.
  - pose proof (weight_insert (attachments l) aid a a' Ha) as Hw.
    unfold pending_input in Hw. rewrite E1, E2 in Hw. lia.
  - intros H k b. rewrite lookup_insert. case_decide; [|eauto]. intros; simplify_eq. rewrite E2. eauto.
Qed.

Lemma size_mark (d : gset Z) sid : (size ({[sid]} ∪ d) <= S (size d))%nat.
Proof.
  rewrite size_union_alt, size_singleton.
  pose proof (subseteq_size (d ∖ {[sid]}) d ltac:(set_solver)). lia.
Qed.

Lemma settles_detach l aid : settles l (Loop_detach l aid).
Proof.
  destruct (detach_shape l aid) as [[_ ->]|(a & o & Ha & Ho & ->)]; [done|].
  set (l1 := emit _ _). assert (settles l (mark l1 (a_session a)) /\ settles l l1) as [H1 H2].
  { pose proof (weight_delete _ _ _ Ha) as Hw.
    pose proof (size_mark (dirty_ids l) (a_session a)) as Hs.
    split; (split; [unfold work; cbn; lia|]); intros H k b; cbn; intros [_ Hb]%lookup_delete_Some; eauto. }
  destruct (sessions l !! a_session a); [|done].
  etrans; [exact H1|]. by apply settles_same.
Qed.

Lemma fill_loop_inp fuel r : forall a,
  a_inp (fill_frames_loop fuel a r) = a_inp a /\ a_taken (fill_frames_loop fuel a r) = a_taken a.
Proof.
  induction fuel as [|fuel IH]; intros a; cbn [fill_frames_loop]; [done|]. case_test; [|done].
  destruct (Ring_frames _ _ _ _ _) as [c out]. by destruct (IH (set_a_out (set_a_cursor a c) out)) as [-> ->].
Qed.

Lemma settles_fill l aid : settles l (Loop_fill l aid).
Proof.
  unfold Loop_fill. destruct (attachments l !! aid) as [a|] eqn:Ha; [|done].
  destruct (sessions l !! a_session a) as [s|]; [|done].
  set (a1 := if 0 <? a_sent a then _ else a).
  assert (a_inp a1 = a_inp a /\ a_taken a1 = a_taken a) as [E1 E2] by (unfold a1; by case_test).
  destruct (fill_loop_inp 2 (s_ring s) a1) as [E3 E4].
  eapply settles_put; [exact Ha| | |reflexivity|reflexivity]; case_test; cbn -[fill_frames_loop]; congruence.
Qed.

Lemma settles_flush l aid : settles l (Loop_flush l aid).
Proof.
  unfold Loop_flush. destruct (attachments l !! aid) as [a|] eqn:Ha; [|done].
  destruct (flush_loop _ _ _ _ _) as [[sent failed] o].
  assert (settles l (put_attachment (set_os l o) aid (set_a_sent a sent))) as H.
  { eapply settles_put; [exact Ha| | |reflexivity|reflexivity]; done. }
  case_test; [|done]. etrans; [exact H|apply settles_detach].
Qed.

Lemma settles_take_input fuel : forall l aid, taken_ok l -> settles l (take_input_loop fuel l aid).
Proof.
  induction fuel as [|fuel IH]; intros l aid Htok; cbn [take_input_loop]; [done|].
  destruct (attachments l !! aid) as [a|] eqn:Ha; [|done].
  set (p := zdrop (a_taken a) (a_inp a)). case_test; [done|].
  case_test; [apply settles_detach|]. case_test; [done|].
  destruct (sessions l !! a_session a) as [s|] eqn:Hs; [|done]. case_test.
  { eapply settles_put; [exact Ha| | |reflexivity|reflexivity]; done. }
  destruct (take_frame _ _ _ _ _ _) as [s' l'] eqn:Et.
  destruct (take_frame_framed _ _ _ _ _ _ _ _ Et) as [_ _ (o & es & _ & -> & _)]. bool_to_prop.
  pose proof (Htok _ _ Ha) as Ht0. pose proof (be_val_range (ztake 4 p)).
  set (l2 := mark _ _).
  assert (settles l l2) as H2; [|etrans; [exact H2|apply IH, H2, Htok]].
  set (a' := set_a_taken _ _) in l2. split.
  - unfold work. cbn. pose proof (weight_insert (attachments l) aid a a' Ha) as Hw.
    pose proof (size_mark (dirty_ids l) (a_session a)) as Hm.
    assert (pending_input a' < pending_input a)%nat; [|lia].
    unfold pending_input, zdrop. cbn. rewrite !length_drop. unfold p, zlen, zdrop in *.
    rewrite length_drop in *. lia.
  - intros _ k b. cbn. rewrite lookup_insert. destruct (decide (aid = k)); [|apply (Htok k b)]. intros; simplify_eq. cbn. lia.
Qed.

Lemma settles_attachment sid l aid : taken_ok l -> settles l (settle_attachment sid l aid).
Proof.
  intros Htok. unfold settle_attachment.
  assert (settles l (Loop_flush (Loop_fill l aid) aid)) as H1.
  { etrans; [apply settles_fill|apply settles_flush]. }
  set (l1 := Loop_flush _ _) in *. clearbody l1.
  destruct (attachments l1 !! aid) as [a|] eqn:Ha; [|done].
  destruct (sessions l1 !! sid) as [s|]; [|done]. case_test; [|done].
  etrans; [exact H1|]. set (l2 := put_attachment _ _ _).
  assert (settles l1 l2) as H2 by (eapply settles_put; [exact Ha| | |reflexivity|reflexivity]; done).
  etrans; [exact H2|]. unfold take_input. case_match; [|done]. apply settles_take_input. by apply H2, H1.
Qed.

Lemma settles_fold (f : Loop -> Z -> Loop) aids :
  (forall l aid, taken_ok l -> settles l (f l aid)) ->
  forall l, taken_ok l -> settles l (fold_left f aids l).
Proof.
  intros Hf. induction aids as [|aid aids IH]; intros l Htok; [done|]. cbn.
  etrans; [by apply Hf|]. apply IH. by apply Hf.
Qed.

Lemma settles_register l sid : taken_ok l -> settles l (register l sid).
Proof.
  intros Htok. unfold register. destruct (sessions l !! sid) as [s|]; [|done].
  destruct (set_outputs _ _ _) as [outputs o1]. destruct (set_watched o1 _ _) as [stdin o2].
  destruct (set_watched o2 _ _) as [pidfd o3].
  etrans; [|apply settles_fold; [|exact Htok]]; [by apply settles_same|].
  intros l1 aid _. unfold register_attachment. destruct (attachments l1 !! aid) as [a|] eqn:Ha; [|done].
  destruct (poll_set _ _ _) as [[ok w] o].
  assert (settles l1 (put_attachment (set_os l1 o) aid (set_a_sock a w))) as H.
  { eapply settles_put; [exact Ha| | |reflexivity|reflexivity]; done. }
  case_test; [done|]. etrans; [exact H|apply settles_detach].
Qed.

(** Settling one session leaves less to do. *)
Lemma settle_one_work l sid :
  taken_ok l -> sid ∈ dirty_ids l -> (work (settle_one l sid) < work l)%nat /\ taken_ok (settle_one l sid).
Proof.
  intros Htok Hin. unfold settle_one. set (l1 := set_dirty_ids _ _).
  assert (work l1 < work l)%nat as Hlt.
  { unfold work. cbn. rewrite size_difference by set_solver. rewrite size_singleton.
    assert (size (dirty_ids l) <> 0)%nat; [|lia]. intros E%size_empty_inv. set_solver. }
  assert (forall l', settles l1 l' -> (work l' < work l)%nat /\ taken_ok l') as Hfin.
  { intros l' [? Ht]. split; [lia|]. by apply Ht. }
  destruct (sessions l1 !! sid) as [s|]; [|by apply Hfin]. apply Hfin.
  destruct (finish l1 sid s) as [s' l2] eqn:Ef.
  assert (settles l1 (close_stdin l2 sid s')) as H2.
  { apply settles_same; [|rewrite close_stdin_attachments]; unfold finish in Ef; case_test_in Ef; simplify_eq;
      try done; unfold close_stdin; case_test; try done; case_match; try done; by unwatch. }
  set (l3 := close_stdin _ _ _) in *.
  assert (settles l3 (fold_left (settle_attachment sid) (s_attachments s') l3)) as H3.
  { apply settles_fold; [intros; by apply settles_attachment|]. by apply H2. }
  etrans; [exact H2|]. etrans; [exact H3|]. apply settles_register. by apply H3, H2.
Qed.

Section settle.
Context `{SE : SessionEnv}.

Lemma settle_loop_clean fuel : forall l,
  taken_ok l -> (work l < fuel)%nat -> dirty_ids (settle_loop fuel l) = ∅.
Proof.
  induction fuel as [|fuel IH]; intros l Htok Hw; [lia|]. cbn [settle_loop].
  destruct (pick (dirty_ids l)) as [sid|] eqn:Ep; [|by apply pick_none in Ep].
  apply pick_some in Ep. destruct (settle_one_work l sid Htok Ep). apply IH; [done|lia].
Qed.

Lemma settle_clean l : taken_ok l -> dirty_ids (settle l) = ∅.
Proof.
  intros Htok. unfold settle. apply settle_loop_clean; [done|].
  unfold settle_fuel, work, weight. lia.
Qed.
End settle.

(** ** Every descriptor is registered for what it can do *)

Definition att_registered (s : Session) (a : Attachment) : Prop :=
  w_events (a_sock a) = attachment_events a (ring_end (s_ring s)) /\
  (a_blocked a = true -> STDIN_QUEUE <= zlen (stdin_queue s)) /\
  (is_Some (finished s) -> a_cursor a = ring_end (s_ring s) -> a_closing a = true) /\
  (a_closing a = true -> a_sent a < zlen (a_out a)).

Record registered (l : Loop) (sid : Z) (s : Session) : Prop := {
  rg_outputs st w : (st, w) ∈ s_outputs s -> w_events w = if 0 <? Loop_room l sid st then IN else 0;
  rg_stdin w : s_stdin s = Some w -> w_events w = if bool_decide (stdin_queue s = []) then 0 else OUT;
  rg_pidfd w : s_pidfd s = Some w -> w_events w = IN;
  rg_finished : is_Some (s_exit s) -> s_outputs s = [] -> is_Some (finished s);
  rg_attachment aid a : aid ∈ s_attachments s -> attachments l !! aid = Some a -> att_registered s a;
}.

(** Sessions that are neither changed nor being changed. *)
Definition clean (X : gset Z) (l : Loop) : Prop :=
  forall sid s, sessions l !! sid = Some s -> sid ∉ dirty_ids l -> sid ∉ X -> registered l sid s.

Definition ctl_ok (o : Os) : Prop := Forall (fun b => b = true) (ctl_answers o).

Lemma ctl_ok_world o o' : same_world o o' -> ctl_ok o -> ctl_ok o'.
Proof. intros Ho. unfold ctl_ok. destruct (sw_ctl _ _ Ho) as [k ->]. intros [_ ?]%Forall_app. done. Qed.

(** What [registered] looks at in an attachment. *)
Definition att_view (a : Attachment) : Watched * Z * bytes * Z * bool * bool :=
  (a_sock a, a_cursor a, a_out a, a_sent a, a_blocked a, a_closing a).

Lemma room_same l l' sid s s' st :
  sessions l !! sid = Some s -> sessions l' !! sid = Some s' -> s_ring s' = s_ring s ->
  s_attachments s' = s_attachments s ->
  (forall aid, aid ∈ s_attachments s -> a_cursor <$> attachments l' !! aid = a_cursor <$> attachments l !! aid) ->
  Loop_room l' sid st = Loop_room l sid st.
Proof.
  intros Hs Hs' Er Ea Hv. unfold Loop_room. rewrite Hs, Hs', Er.
  assert (min_cursor l' s' = min_cursor l s) as ->; [|done].
  unfold min_cursor. rewrite Ea. f_equal. revert Hv. clear.
  induction (s_attachments s) as [|k ks IH]; intros Hv; [done|]. cbn.
  rewrite IH by (intros; apply Hv; by right). by rewrite Hv by left.
Qed.

Lemma registered_same l l' sid s s' :
  sessions l !! sid = Some s -> sessions l' !! sid = Some s' ->
  s_ring s' = s_ring s -> s_attachments s' = s_attachments s -> s_outputs s' = s_outputs s ->
  s_stdin s' = s_stdin s -> stdin_queue s' = stdin_queue s ->
  (s_pidfd s' = None \/ s_pidfd s' = s_pidfd s) -> s_exit s' = s_exit s -> finished s' = finished s ->
  (forall aid, aid ∈ s_attachments s -> att_view <$> attachments l' !! aid = att_view <$> attachments l !! aid) ->
  registered l sid s -> registered l' sid s'.
Proof.
  intros Hs Hs' E1 E2 E3 E4 E5 E6 E7 E8 Hv []. split; rewrite ?E3, ?E4, ?E5, ?E7, ?E8; try done.
  - intros st w Hw. rewrite (room_same l l' sid s s' st Hs Hs' E1 E2); [eauto|].
    intros aid Hin. specialize (Hv aid Hin). destruct (attachments l' !! aid), (attachments l !! aid);
      cbn in *; unfold att_view in *; congruence.
  - intros w Hw. destruct E6 as [E6|E6]; rewrite E6 in Hw; [done|eauto].
  - intros aid a. rewrite E2. intros Hin Ha. specialize (Hv aid Hin). rewrite Ha in Hv.
    destruct (attachments l !! aid) as [b|] eqn:Hb; [|done]. unfold att_view in Hv. cbn in Hv. simplify_eq.
    destruct (rg_attachment0 _ _ Hin Hb) as (? & ? & ? & ?).
    unfold att_registered, attachment_events in *. by rewrite E1, E5, E8; repeat match goal with H : _ = _ |- _ => rewrite H end.
Qed.

Lemma clean_frame X l l' :
  (forall sid s', sessions l' !! sid = Some s' -> sid ∉ dirty_ids l' -> sid ∉ X ->
     sid ∉ dirty_ids l /\ exists s, sessions l !! sid = Some s /\
       s_ring s' = s_ring s /\ s_attachments s' = s_attachments s /\ s_outputs s' = s_outputs s /\
       s_stdin s' = s_stdin s /\ stdin_queue s' = stdin_queue s /\
       (s_pidfd s' = None \/ s_pidfd s' = s_pidfd s) /\ s_exit s' = s_exit s /\ finished s' = finished s /\
       forall aid, aid ∈ s_attachments s -> att_view <$> attachments l' !! aid = att_view <$> attachments l !! aid) ->
  clean X l -> clean X l'.
Proof.
  intros H Hc sid s' Hs' Hd HX. destruct (H sid s' Hs' Hd HX) as (Hd' & s & Hs & E1 & E2 & E3 & E4 & E5 & E6 & E7 & E8 & E9).
  eapply registered_same; eauto.
Qed.

(** Nothing [registered] looks at changes in a session. *)
Definition sess_view (s s' : Session) : Prop :=
  s_ring s' = s_ring s /\ s_attachments s' = s_attachments s /\ s_outputs s' = s_outputs s /\
  s_stdin s' = s_stdin s /\ stdin_queue s' = stdin_queue s /\
  (s_pidfd s' = None \/ s_pidfd s' = s_pidfd s) /\ s_exit s' = s_exit s /\ finished s' = finished s.

Lemma sess_view_refl s : sess_view s s.
Proof. unfold sess_view. auto 10. Qed.

Lemma clean_same X l l' :
  sessions l' = sessions l -> attachments l' = attachments l -> dirty_ids l ⊆ dirty_ids l' ->
  clean X l -> clean X l'.
Proof.
  intros E1 E2 Hd. apply clean_frame. intros k b Hb Hk HX. rewrite E1 in Hb. split; [set_solver|].
  exists b. destruct (sess_view_refl b) as (?&?&?&?&?&?&?&?). split_and!; try done. intros. by rewrite E2.
Qed.

Lemma clean_session X l l' sid s s' :
  sessions l !! sid = Some s -> sid ∈ X \/ sess_view s s' ->
  sessions l' = <[sid := s']> (sessions l) -> attachments l' = attachments l ->
  dirty_ids l' = dirty_ids l -> clean X l -> clean X l'.
Proof.
  intros Hs Hv E1 E2 E3. apply clean_frame. intros k b Hb Hk HX. rewrite E3 in Hk. split; [done|].
  rewrite E1, lookup_insert in Hb. case_decide as Ek.
  - simplify_eq. destruct Hv as [Hv|(?&?&?&?&?&?&?&?)]; [done|]. exists s. split_and!; try done.
    intros. by rewrite E2.
  - exists b. destruct (sess_view_refl b) as (?&?&?&?&?&?&?&?). split_and!; try done. intros. by rewrite E2.
Qed.

Lemma clean_attachment X l l' aid a a' :
  links l -> attachments l !! aid = Some a -> a_session a ∈ X \/ att_view a' = att_view a ->
  sessions l' = sessions l -> attachments l' = <[aid := a']> (attachments l) ->
  dirty_ids l' = dirty_ids l -> clean X l -> clean X l'.
Proof.
  intros HL Ha Hv E1 E2 E3. apply clean_frame. intros k b Hb Hk HX. rewrite E3 in Hk. rewrite E1 in Hb.
  split; [done|]. exists b. destruct (sess_view_refl b) as (?&?&?&?&?&?&?&?). split_and!; try done.
  intros aid' Hin. rewrite E2, lookup_insert. case_decide as Ek; [|done]. subst aid'. rewrite Ha.
  destruct Hv as [Hv|Hv]; [|cbn; by rewrite Hv].
  destruct (lk_back _ HL _ _ _ Hb Hin) as (a1 & ? & ?). by simplify_eq.
Qed.

Lemma clean_detach X l aid : links l -> clean X l -> clean X (Loop_detach l aid).
Proof.
  intros HL Hc. destruct (detach_shape l aid) as [[_ ->]|(a & o & Ha & Ho & ->)]; [done|].
  destruct (lk_attachment _ HL _ _ Ha) as (_ & _ & s & Hs & _). rewrite Hs.
  revert Hc. apply clean_frame. cbn. intros k b Hb Hk HX. rewrite lookup_insert_ne in Hb by set_solver.
  split; [set_solver|]. exists b. destruct (sess_view_refl b) as (?&?&?&?&?&?&?&?). split_and!; try done.
  intros aid' Hin. rewrite lookup_delete_ne; [done|]. intros <-.
  destruct (lk_back _ HL _ _ _ Hb Hin) as (a1 & ? & ?). simplify_eq. set_solver.
Qed.

Ltac clean_s Hs :=
  match goal with HC : clean _ ?l |- _ =>
    eapply (clean_session _ l); [exact Hs| |reflexivity|reflexivity|reflexivity|exact HC] end.
Ltac clean_a Ha :=
  match goal with HC : clean _ ?l |- _ =>
    eapply (clean_attachment _ l); [eassumption|exact Ha| |reflexivity|reflexivity|reflexivity|exact HC] end.
Ltac unseen := right; unfold sess_view; cbn; by auto 10.

Lemma clean_finish X l sid s s' l' :
  sid ∈ X -> sessions l !! sid = Some s -> finish l sid s = (s', l') -> clean X l ->
  clean X (close_stdin l' sid s').
Proof.
  intros HX Hs Hf HC. destruct (finish_cases _ _ _ _ _ Hf) as [[-> ->]|(Hn & He & Ho' & -> & ->)];
    match goal with |- clean _ (close_stdin ?l ?sid ?s) =>
      destruct (close_cases l sid s) as [[Hc ->]|[[Hc ->]|(w & Hc & _ & ->)]] end;
    try unwatch; clean_s Hs; by left.
Qed.

Lemma step_clean `{SessionEnv} X l l' : step X l l' -> links l -> clean X l -> clean X l'.
Proof.
  intros Hstep HL HC.
  destruct Hstep as [l o Ho|l e He|l sid s st w data t Hs Hw Hd Hr HX|l sid s st w Hs Hw HX
    |l sid s w data rest Hs Hw Hq HX|l sid s w Hs Hw HX|l aid|l aid a data Ha HX Hb Hd|l aid a Ha
    |l aid a s kind payload rest s' l' Ha Hs HX Hp Hz Hk Ht|l aid a s Ha Hs HX Hq|l aid a Ha HX
    |l aid a Ha HX|l aid a s c out Ha Hs HX Hc Hf|l aid a s Ha Hs HX Hf Hc He|l aid a n Ha HX Hn Hle
    |l aid a payload Ha HX Hc|l id s status Hs HX|l id status Hs|l sid s w Hs Hw|l sid s v Hs|l sid t
    |l id s Hs Hf Ha Hk|l sid s s' l' Hs HX Hf|l sid s outs stdin pidfd Hs HX F1 F2 F3
    |l aid a w Ha HX Ht|l exits|l b|l t]; try (by apply (clean_same X l));
    try (clean_a Ha; first [by left|by right]); try (clean_s Hs; first [by left|unseen]).
  - unwatch. clean_s Hs. by left.
  - unwatch. clean_s Hs. by left.
  - by apply clean_detach.
  - destruct (take_frame_framed _ _ _ _ _ _ _ _ Ht) as [_ Fs (o & es & Ho & -> & _)].
    destruct (lk_attachment _ HL _ _ Ha) as (_ & _ & s1 & Hs1 & Hin). simplify_eq.
    revert HC. apply clean_frame. cbn. intros k b Hb Hk' HX'. rewrite lookup_insert_ne in Hb by set_solver.
    split; [done|]. exists b. destruct (sess_view_refl b) as (?&?&?&?&?&?&?&?). split_and!; try done.
    intros aid' Hin'. rewrite lookup_insert_ne; [done|]. intros <-.
    destruct (lk_back _ HL _ _ _ Hb Hin') as (a1 & ? & ?). simplify_eq. set_solver.
  - cbn. destruct (s_pidfd s); [unwatch|]; clean_s Hs; by left.
  - unwatch. clean_s Hs. unseen.
  - destruct (kill_timer_shape t l sid) as [->|(s & ws & o & es & Hs & -> & Ho & Hz & Hes)]; [done|].
    clean_s Hs. unseen.
  - revert HC. apply clean_frame. cbn. intros k b [Hne Hb]%lookup_delete_Some Hk' HX'.
    split; [set_solver|]. exists b. destruct (sess_view_refl b) as (?&?&?&?&?&?&?&?). by split_and!.
  - by eapply clean_finish.
Qed.

Lemma step_ctl `{SessionEnv} X l l' : step X l l' -> ctl_ok (os l) -> ctl_ok (os l').
Proof.
  destruct 1; try done; try (by unwatch; apply (ctl_ok_world _ _ Ho)); cbn.
  - by apply ctl_ok_world.
  - destruct (detach_shape l aid) as [[_ ->]|(a & o & Ha & Ho & ->)]; [done|].
    case_match; cbn; apply (ctl_ok_world _ _ Ho).
  - match goal with Ht : take_frame _ _ _ _ _ _ = _ |- _ => apply take_frame_framed in Ht as [_ _ (o & es & Ho & -> & _)] end.
    apply (ctl_ok_world _ _ Ho).
  - case_match; [unwatch; apply (ctl_ok_world _ _ Ho)|done].
  - destruct (kill_timer_shape t l sid) as [->|(s & ws & o & es & Hs & -> & Ho & _)]; [done|].
    apply (ctl_ok_world _ _ Ho).
  - match goal with Hf : finish _ _ _ = _ |- _ => destruct (finish_cases _ _ _ _ _ Hf) as [[-> ->]|(Hn & He & Ho' & -> & ->)] end;
    match goal with |- context [close_stdin ?l ?sid ?s] =>
      destruct (close_cases l sid s) as [[Hc ->]|[[Hc ->]|(w & Hc & _ & ->)]] end; try done;
    unwatch; cbn; apply (ctl_ok_world _ _ Ho).
Qed.

(** ** Registering *)

Lemma poll_set_ok o w ev b w' o' :
  ctl_ok o -> poll_set o w ev = (b, w', o') -> b = true /\ w_events w' = ev /\ ctl_ok o'.
Proof.
  unfold poll_set, sys_ok, ctl_ok. intros Hc. case_test; bool_to_prop; [by intros; simplify_eq|].
  destruct (ctl_answers o) as [|c cs] eqn:E; intros; simplify_eq.
  - by rewrite E.
  - apply Forall_cons_1 in Hc as [-> Hc]. done.
Qed.

Lemma set_outputs_ok (room : byte -> Z) outputs : forall o outputs' o',
  ctl_ok o -> set_outputs o outputs (map (fun '(st, _) => room st) outputs) = (outputs', o') ->
  (forall st w, (st, w) ∈ outputs' -> w_events w = if 0 <? room st then IN else 0) /\ ctl_ok o'.
Proof.
  induction outputs as [|[st w] outputs IH]; intros o outputs' o' Hc; cbn [map set_outputs].
  { intros; simplify_eq. split; [|done]. by intros st w ?%elem_of_nil. }
  destruct (poll_set _ _ _) as [[b w'] o1] eqn:E. apply poll_set_ok in E as (_ & Ew & Hc1); [|done].
  destruct (set_outputs o1 outputs _) as [rest o2] eqn:E2. apply IH in E2 as [H3 H4]; [|done].
  intros; simplify_eq. split; [|done]. intros st' w1 [?|?]%elem_of_cons; [by simplify_eq|eauto].
Qed.

Lemma set_watched_ok o w ev w' o' :
  ctl_ok o -> set_watched o w ev = (w', o') -> (forall x, w' = Some x -> w_events x = ev) /\ ctl_ok o'.
Proof.
  unfold set_watched. intros Hc. destruct w as [w|]; [|by intros; simplify_eq].
  destruct (poll_set o w ev) as [[b w1] o1] eqn:E. apply poll_set_ok in E as (_ & Ew & Hc1); [|done].
  intros; simplify_eq. split; [|done]. by intros; simplify_eq.
Qed.

Lemma register_attachments_ok end_ aids : forall l,
  ctl_ok (os l) ->
  let l' := fold_left (register_attachment end_) aids l in
  sessions l' = sessions l /\ dirty_ids l' = dirty_ids l /\ ctl_ok (os l') /\
  (forall aid, is_Some (attachments l !! aid) -> is_Some (attachments l' !! aid)) /\
  forall aid a', attachments l' !! aid = Some a' -> exists a, attachments l !! aid = Some a /\
    a' = set_a_sock a (a_sock a') /\
    (aid ∈ aids \/ w_events (a_sock a) = attachment_events a end_ ->
     w_events (a_sock a') = attachment_events a' end_).
Proof.
  induction aids as [|aid aids IH]; intros l Hc; cbn.
  { split_and!; try done. intros k a' Ha. exists a'. split_and!; try done.
    by intros [?%elem_of_nil|?]. }
  assert (exists l1, register_attachment end_ l aid = l1 /\ sessions l1 = sessions l /\
    dirty_ids l1 = dirty_ids l /\ ctl_ok (os l1) /\
    (forall k, is_Some (attachments l !! k) -> is_Some (attachments l1 !! k)) /\
    forall k b, attachments l1 !! k = Some b -> exists a, attachments l !! k = Some a /\
      b = set_a_sock a (a_sock b) /\
      (k = aid \/ w_events (a_sock a) = attachment_events a end_ -> w_events (a_sock b) = attachment_events b end_))
    as (l1 & -> & E1 & E2 & Hc1 & Hdom & H1).
  { eexists. split; [done|]. unfold register_attachment. destruct (attachments l !! aid) as [a|] eqn:Ha.
    - destruct (poll_set _ _ _) as [[ok w] o] eqn:E. apply poll_set_ok in E as (-> & Ew & Hc1); [|done].
      split_and!; try done; cbn; [intros k; rewrite lookup_insert; by case_decide|].
      intros k b. rewrite lookup_insert. case_decide as Ek.
      + intros; simplify_eq. exists a. by split_and!.
      + intros Hb. exists b. split_and!; try done. intros [->|?]; done.
    - split_and!; try done. intros k b Hb. exists b. split_and!; try done. intros [->|?]; [congruence|done]. }
  destruct (IH l1 Hc1) as (F1 & F2 & F3 & Fd & F4). split_and!; [congruence|congruence|done|by auto|].
  intros k a' Ha'. destruct (F4 _ _ Ha') as (b & Hb & Eb & Hev). destruct (H1 _ _ Hb) as (a & Ha & Ea & Hev').
  exists a. split_and!; [done|rewrite Eb, Ea; done|].
  intros [[->|Hin]%elem_of_cons|Hin]; apply Hev; [right; apply Hev'; by left|by left|right; apply Hev'; by right].
Qed.

(** ** One attachment of a session being settled *)

Lemma detach_dirty l aid : dirty_ids l ⊆ dirty_ids (Loop_detach l aid).
Proof.
  destruct (detach_shape l aid) as [[_ ->]|(a & o & Ha & Ho & ->)]; [done|]. case_match; cbn; set_solver.
Qed.

Lemma detach_marks l aid a s :
  attachments l !! aid = Some a -> sessions l !! a_session a = Some s ->
  a_session a ∈ dirty_ids (Loop_detach l aid).
Proof.
  intros Ha Hs. destruct (detach_shape l aid) as [[? _]|(b & o & Hb & Ho & ->)]; [congruence|].
  simplify_eq. rewrite Hs. cbn. set_solver.
Qed.

Lemma take_frame_dirty l sid aid s kind payload s' l' :
  take_frame l sid aid s kind payload = (s', l') -> dirty_ids l' = dirty_ids l.
Proof. intros [_ _ (o & es & _ & -> & _)]%take_frame_framed. done. Qed.

Lemma take_input_dirty fuel : forall l aid, dirty_ids l ⊆ dirty_ids (take_input_loop fuel l aid).
Proof.
  induction fuel as [|fuel IH]; intros l aid; cbn [take_input_loop]; [done|].
  destruct (attachments l !! aid) as [a|]; [|done]. case_test; [done|].
  case_test; [apply detach_dirty|]. case_test; [done|].
  destruct (sessions l !! a_session a) as [s|]; [|done]. case_test; [done|].
  destruct (take_frame _ _ _ _ _ _) as [s' l'] eqn:Et. apply take_frame_dirty in Et. cbn in Et.
  etrans; [|apply IH]. cbn. rewrite Et. set_solver.
Qed.

(** Taking input marks the session, or does nothing, or finds the queue full. *)
Lemma take_input_cases l aid a s :
  attachments l !! aid = Some a -> sessions l !! a_session a = Some s ->
  a_session a ∈ dirty_ids (take_input l aid) \/ take_input l aid = l \/
  STDIN_QUEUE <= zlen (stdin_queue s).
Proof.
  intros Ha Hs. unfold take_input. rewrite Ha. cbn [take_input_loop]. rewrite Ha.
  case_test; [auto|]. case_test; [left; by eapply detach_marks|]. case_test; [auto|]. rewrite Hs.
  case_test; [bool_to_prop; auto|]. left. destruct (take_frame _ _ _ _ _ _) as [s' l'] eqn:Et.
  apply take_input_dirty. cbn. set_solver.
Qed.

Lemma fill_loop_fields fuel r : forall a,
  let a' := fill_frames_loop fuel a r in
  a_session a' = a_session a /\ a_sock a' = a_sock a /\ a_blocked a' = a_blocked a /\
  a_closing a' = a_closing a /\ a_sent a' = a_sent a.
Proof.
  induction fuel as [|fuel IH]; intros a; cbn [fill_frames_loop]; [done|]. case_test; [|done].
  destruct (Ring_frames _ _ _ _ _) as [c out]. apply (IH (set_a_out (set_a_cursor a c) out)).
Qed.

Lemma fill_shape l aid a s :
  attachments l !! aid = Some a -> sessions l !! a_session a = Some s ->
  exists a', Loop_fill l aid = put_attachment l aid a' /\ a_session a' = a_session a /\
    a_blocked a' = a_blocked a /\
    (is_Some (finished s) -> a_cursor a' = ring_end (s_ring s) -> a_closing a' = true).
Proof.
  intros Ha Hs. unfold Loop_fill. rewrite Ha, Hs. eexists. split; [reflexivity|].
  set (a1 := if 0 <? a_sent a then _ else a).
  assert (a_session a1 = a_session a /\ a_blocked a1 = a_blocked a) as [E1 E2] by (unfold a1; by case_test).
  destruct (fill_loop_fields 2 (s_ring s) a1) as (F1 & _ & F2 & F3 & _).
  set (a2 := fill_frames_loop 2 a1 (s_ring s)) in *. clearbody a2. case_test; cbn.
  - split_and!; [congruence|congruence|done].
  - split_and!; [congruence|congruence|]. intros Hf Hc. rewrite bool_decide_eq_true_2 in Heqb by done.
    rewrite Hc, Z.eqb_refl, andb_true_r in Heqb. cbn in Heqb. by destruct (a_closing a2).
Qed.

Lemma flush_loop_range fuel aid out : forall sent o sent' failed o',
  sent <= zlen out -> flush_loop fuel aid out sent o = (sent', failed, o') -> 0 <= sent -> sent' <= zlen out.
Proof.
  induction fuel as [|fuel IH]; intros sent o sent' failed o' Hle; cbn [flush_loop]; [by intros; simplify_eq|].
  case_test; [|by intros; simplify_eq]. bool_to_prop.
  destruct (sys_write o (zdrop sent out)) as [r o1] eqn:E. intros E' Hs.
  assert (zlen (zdrop sent out) = zlen out - sent) as Hz by zlen_lia.
  apply sys_write_world in E as [_ Hn].
  2: { intros Hn. rewrite Hn in Hz. change (zlen (@nil byte)) with 0 in Hz. lia. }
  destruct r as [n|[]]; simplify_eq; try done; [|by eapply IH].
  specialize (Hn _ eq_refl). eapply IH; [|exact E'|]; lia.
Qed.

Lemma flush_shape l aid a s :
  attachments l !! aid = Some a -> sessions l !! a_session a = Some s -> 0 <= a_sent a <= zlen (a_out a) ->
  a_session a ∈ dirty_ids (Loop_flush l aid) \/
  exists o sent, Loop_flush l aid = put_attachment (set_os l o) aid (set_a_sent a sent) /\
    (a_closing a = true -> sent < zlen (a_out a)).
Proof.
  intros Ha Hs Hr. unfold Loop_flush. rewrite Ha.
  destruct (flush_loop _ _ _ _ _) as [[sent failed] o] eqn:E. apply flush_loop_range in E; [|lia..].
  case_test.
  - left. apply (detach_marks _ aid (set_a_sent a sent) s); [cbn; apply lookup_insert_eq|done].
  - right. exists o, sent. split; [done|]. intros Hc. rewrite Hc in Heqb. bool_to_prop. cbn in *.
    bool_to_prop. lia.
Qed.

Definition settled (s : Session) (a : Attachment) : Prop :=
  (a_blocked a = true -> STDIN_QUEUE <= zlen (stdin_queue s)) /\
  (is_Some (finished s) -> a_cursor a = ring_end (s_ring s) -> a_closing a = true) /\
  (a_closing a = true -> a_sent a < zlen (a_out a)).

(** Settling an attachment marks its session or leaves it settled. *)
Lemma settle_attachment_cases `{SessionEnv} cs sid l aid s :
  wf cs l -> in_session l aid sid -> sessions l !! sid = Some s ->
  let l' := settle_attachment sid l aid in
  sid ∈ dirty_ids l' \/
  (sessions l' = sessions l /\ dirty_ids l' = dirty_ids l /\
   (forall k, k <> aid -> attachments l' !! k = attachments l !! k) /\
   forall a', attachments l' !! aid = Some a' -> settled s a').
Proof.
  intros Hwf Hin Hs l'. subst l'. unfold settle_attachment.
  destruct (attachments l !! aid) as [a|] eqn:Ha.
  2: { assert (Loop_flush (Loop_fill l aid) aid = l) as ->.
       { unfold Loop_fill. rewrite Ha. unfold Loop_flush. by rewrite Ha. }
       right. rewrite Ha. split_and!; try done. congruence. }
  destruct (Hin _ Ha) as [Ea _]. rewrite <-Ea in Hs.
  assert (wf cs (Loop_fill l aid)) as Hwf1.
  { apply (fill_P (flat_stable wf cs wf_flat) {[sid]} l aid sid); [set_solver|done|done]. }
  destruct (fill_shape l aid a s Ha Hs) as (a1 & E1 & F1 & F2 & F3). rewrite E1 in *.
  destruct (lk_attachment _ (proj1 Hwf1) aid a1) as ([Hsent _ _] & _); [cbn; apply lookup_insert_eq|].
  destruct (flush_shape (put_attachment l aid a1) aid a1 s) as [Hd|(o & sent & E2 & F4)];
    [cbn; apply lookup_insert_eq|cbn; by rewrite F1|done|..].
  - left. rewrite <-Ea, <-F1. set (l1 := Loop_flush _ _) in *. clearbody l1.
    destruct (attachments l1 !! aid) as [b|]; [|done]. destruct (sessions l1 !! _); [|done].
    case_test; [|done]. unfold take_input. case_match; [|done]. apply take_input_dirty. done.
  - rewrite E2. set (l2 := put_attachment (set_os (put_attachment l aid a1) o) aid (set_a_sent a1 sent)).
    assert (attachments l2 !! aid = Some (set_a_sent a1 sent)) as -> by (cbn; apply lookup_insert_eq).
    assert (sessions l2 !! sid = Some s) as Hs2 by (by rewrite <-Ea). rewrite Hs2.
    assert (forall k, k <> aid -> attachments l2 !! k = attachments l !! k) as Hother.
    { intros k Hk. cbn. rewrite !lookup_insert_ne; done. }
    case_test.
    + bool_to_prop. set (l3 := put_attachment l2 aid _).
      destruct (take_input_cases l3 aid (set_a_blocked (set_a_sent a1 sent) false) s) as [Hd|[->|Hq]].
      * cbn. apply lookup_insert_eq.
      * cbn. by rewrite F1.
      * left. cbn in Hd. by rewrite F1, Ea in Hd.
      * right. split_and!; try done.
        -- intros k Hk. cbn. rewrite !lookup_insert_ne; done.
        -- intros a'. cbn. rewrite lookup_insert_eq. intros; simplify_eq. by split_and!.
      * lia.
    + right. split_and!; try done. intros a'. cbn. rewrite lookup_insert_eq. intros; simplify_eq.
      split_and!; try done. cbn. intros Hb. cbn in Heqb. rewrite Hb in Heqb. cbn [andb] in Heqb.
      by bool_to_prop.
Qed.

Lemma settle_attachment_dirty sid l aid : dirty_ids l ⊆ dirty_ids (settle_attachment sid l aid).
Proof.
  unfold settle_attachment.
  assert (dirty_ids l ⊆ dirty_ids (Loop_flush (Loop_fill l aid) aid)) as H1.
  { assert (dirty_ids (Loop_fill l aid) = dirty_ids l) as E.
    { unfold Loop_fill. by repeat case_match. }
    unfold Loop_flush. rewrite <-E. destruct (attachments (Loop_fill l aid) !! aid); [|done].
    destruct (flush_loop _ _ _ _ _) as [[??]?]. case_test; [|done]. etrans; [|apply detach_dirty]. done. }
  set (l1 := Loop_flush _ _) in *. clearbody l1. case_match; [|done]. case_match; [|done].
  case_test; [|done]. unfold take_input. case_match; [|done].
  etrans; [exact H1|]. etrans; [|apply take_input_dirty]. done.
Qed.

Lemma settle_attachments_cases `{SessionEnv} cs sid aids : forall l s,
  wf cs l -> all_in aids sid l -> NoDup aids -> sessions l !! sid = Some s ->
  let l' := fold_left (settle_attachment sid) aids l in
  sid ∈ dirty_ids l' \/
  (sessions l' = sessions l /\ dirty_ids l' = dirty_ids l /\
   (forall k, k ∉ aids -> attachments l' !! k = attachments l !! k) /\
   forall k a', k ∈ aids -> attachments l' !! k = Some a' -> settled s a').
Proof.
  induction aids as [|aid aids IH]; intros l s Hwf Hin Hnd Hs; cbn [fold_left].
  { right. split_and!; try done. intros k a' Hk. by apply elem_of_nil in Hk. }
  apply NoDup_cons in Hnd as [Hnin Hnd].
  assert (in_session l aid sid) as Hin1 by (apply Hin; left).
  assert (stable (fun (_ : gset Z) l => wf cs l /\ all_in (aid :: aids) sid l)) as HQ.
  { apply (stable_and (fun _ l => wf cs l)); [apply (flat_stable wf cs wf_flat)|]. intros. by eapply all_in_kept. }
  destruct (settle_attachment_P HQ {[sid]} l aid sid) as [Hwf1 Hall1]; [set_solver|done|done|].
  destruct (settle_attachment_cases cs sid l aid s Hwf Hin1 Hs) as [Hd|(E1 & E2 & E3 & E4)].
  { left. clear -Hd. revert Hd. generalize (settle_attachment sid l aid).
    induction aids as [|k aids IH]; intros l0 Hd; [done|]. cbn. apply IH.
    by apply settle_attachment_dirty. }
  set (l1 := settle_attachment sid l aid) in *. clearbody l1.
  destruct (IH l1 s) as [Hd|(F1 & F2 & F3 & F4)]; [done| |done|by rewrite E1|by left|].
  { intros k Hk. apply Hall1. by right. }
  right. split_and!; [congruence|congruence| |].
  - intros k Hk. rewrite F3 by set_solver. apply E3. set_solver.
  - intros k a' [->|Hk]%elem_of_cons Ha'; [|by eapply F4]. apply E4. by rewrite <-F3.
Qed.

(** ** Settling registers *)

Lemma finish_done l sid s s' l' :
  finish l sid s = (s', l') -> is_Some (s_exit s') -> s_outputs s' = [] -> is_Some (finished s').
Proof.
  unfold finish. case_test; intros; simplify_eq; [done|].
  destruct (finished s') eqn:Ef; [done|]. by rewrite !bool_decide_eq_true_2 in Heqb by done.
Qed.

Lemma close_fields l sid s :
  exists s', sessions (close_stdin l sid s) = <[sid := s']> (sessions l) /\
    s_exit s' = s_exit s /\ s_outputs s' = s_outputs s /\ finished s' = finished s /\
    s_attachments s' = s_attachments s /\ dirty_ids (close_stdin l sid s) = dirty_ids l.
Proof.
  destruct (close_cases l sid s) as [[_ ->]|[[_ ->]|(w & _ & _ & ->)]]; try unwatch;
    (eexists; split; [reflexivity|done]).
Qed.

Lemma register_dirty l sid : dirty_ids l ⊆ dirty_ids (register l sid).
Proof.
  unfold register. destruct (sessions l !! sid) as [s|]; [|done].
  destruct (set_outputs _ _ _) as [outputs o1]. destruct (set_watched o1 _ _) as [stdin o2].
  destruct (set_watched o2 _ _) as [pidfd o3]. set (l1 := put_session _ _ _).
  change (dirty_ids l) with (dirty_ids l1). generalize l1.
  induction (s_attachments s) as [|aid aids IH]; intros l2; [done|]. cbn. etrans; [|apply IH].
  unfold register_attachment. destruct (attachments l2 !! aid); [|done].
  destruct (poll_set _ _ _) as [[ok w] o]. case_test; [done|]. etrans; [|apply detach_dirty]. done.
Qed.

Section live.
Context `{SE : SessionEnv}.

Definition live (cs : list Cmd) (X : gset Z) (l : Loop) : Prop := wf cs l /\ ctl_ok (os l) /\ clean X l.

Lemma live_stable cs : stable (live cs).
Proof.
  split.
  - intros X l l' Hstep (Hwf & Hctl & Hc). split_and!.
    + by eapply (fl_step _ wf_flat).
    + by eapply step_ctl.
    + eapply step_clean; [done|apply Hwf|done].
  - intros X sid l (Hwf & Hctl & Hc). split_and!; [done|done|]. intros k s Hs Hd HX. apply Hc; [done..|set_solver].
  - intros X sid l (Hwf & Hctl & Hc). split_and!; [by apply (fl_dirty _ wf_flat)|done|].
    intros k s Hs Hd HX. cbn in Hd.
    destruct (Hc k s Hs) as [R1 R2 R3 R4 R5]; [set_solver..|]. by split.
Qed.

Lemma live_all_in cs X l sid s : live cs X l -> sessions l !! sid = Some s -> all_in (s_attachments s) sid l.
Proof.
  intros (Hwf & _) Hs aid Hin a Ha. split; [by eapply (fl_owned _ wf_flat)|by eapply (fl_sent _ wf_flat)].
Qed.

(** After the body of settling, an unmarked session is settled. *)
Lemma settle_body_settled cs l sid s3 :
  wf cs l -> sid ∉ dirty_ids (settle_body l sid) -> sessions (settle_body l sid) !! sid = Some s3 ->
  (is_Some (s_exit s3) -> s_outputs s3 = [] -> is_Some (finished s3)) /\
  forall aid a, aid ∈ s_attachments s3 -> attachments (settle_body l sid) !! aid = Some a -> settled s3 a.
Proof.
  intros Hwf. unfold settle_body. destruct (sessions l !! sid) as [s|] eqn:Hs; [|congruence].
  destruct (finish l sid s) as [s' l2] eqn:Ef. destruct (close_fields l2 sid s') as (s'' & E1 & E2 & E3 & E4 & E5 & E6).
  assert (wf cs (close_stdin l2 sid s')) as Hwf2.
  { eapply (fl_step _ wf_flat cs {[sid]}); [|exact Hwf]. eapply St_finish; [exact Hs|set_solver|exact Ef]. }
  assert (sessions (close_stdin l2 sid s') !! sid = Some s'') as Hs2 by (rewrite E1; apply lookup_insert_eq).
  assert (all_in (s_attachments s') sid (close_stdin l2 sid s')) as Hall.
  { rewrite <-E5. intros aid Hin a Ha. split; [by eapply (fl_owned _ wf_flat)|by eapply (fl_sent _ wf_flat)]. }
  pose proof (so_nodup _ _ (lk_session _ (proj1 Hwf2) _ _ Hs2)) as Hnd. rewrite E5 in Hnd.
  destruct (settle_attachments_cases cs sid (s_attachments s') _ s'' Hwf2 Hall Hnd Hs2)
    as [Hd|(F1 & _ & _ & F4)]; [done|].
  intros _ Hs3. rewrite F1, Hs2 in Hs3. simplify_eq. split.
  - rewrite E2, E3, E4. by eapply finish_done.
  - rewrite E5. eauto.
Qed.

Lemma register_registers cs X l sid s4 :
  live cs X l ->
  (forall s, sessions l !! sid = Some s ->
    (is_Some (s_exit s) -> s_outputs s = [] -> is_Some (finished s)) /\
    forall aid a, aid ∈ s_attachments s -> attachments l !! aid = Some a -> settled s a) ->
  sessions (register l sid) !! sid = Some s4 -> registered (register l sid) sid s4.
Proof.
  intros (Hwf & Hctl & _) Hset Hs4. unfold register in *. destruct (sessions l !! sid) as [s|] eqn:Hs; [|congruence].
  destruct (Hset s eq_refl) as [Hfin Hatt].
  destruct (set_outputs _ _ _) as [outputs o1] eqn:E1.
  pose proof (set_outputs_ok (Loop_room l sid) _ _ _ _ Hctl E1) as [R1 C1].
  destruct (set_outputs_world _ _ _ _ _ E1) as [_ Fo].
  destruct (set_watched o1 _ _) as [stdin o2] eqn:E2. pose proof (set_watched_ok _ _ _ _ _ C1 E2) as [R2 C2].
  destruct (set_watched o2 _ _) as [pidfd o3] eqn:E3. pose proof (set_watched_ok _ _ _ _ _ C2 E3) as [R3 C3].
  set (s' := set_s_pidfd _ _) in *. set (l1 := put_session _ _ _) in *.
  destruct (register_attachments_ok (ring_end (s_ring s)) (s_attachments s) l1 C3) as (G1 & G2 & _ & Gd & G4).
  set (l4 := fold_left _ _ l1) in *. rewrite G1 in Hs4. cbn in Hs4. rewrite lookup_insert_eq in Hs4. simplify_eq.
  split; cbn; try done.
  - intros st w Hw. rewrite (R1 _ _ Hw), (room_same l l4 sid s (set_s_pidfd (set_s_stdin (set_s_outputs s outputs) stdin) pidfd)); [done|done|by rewrite G1; cbn; apply lookup_insert_eq|done|done|].
    intros aid Hin. destruct (attachments l4 !! aid) as [a'|] eqn:Ha'.
    + destruct (G4 _ _ Ha') as (a & Ha & -> & _). cbn in Ha. by rewrite Ha.
    + destruct (attachments l !! aid) eqn:Ha; [|done]. destruct (Gd aid) as [x Hx]; [cbn; eauto|congruence].
  - intros He Ho. apply Hfin; [done|]. rewrite Ho in Fo. by inversion Fo.
  - intros aid a' Hin Ha'. destruct (G4 _ _ Ha') as (a & Ha & Ea & Hev). cbn in Ha.
    destruct (Hatt aid a Hin Ha) as (K1 & K2 & K3). split_and!.
    + apply Hev. by left.
    + rewrite Ea. done.
    + rewrite Ea. done.
    + rewrite Ea. done.
Qed.

Lemma live_settle cs l sid : live cs ∅ l -> live cs ∅ (settle_one l sid).
Proof.
  intros (Hwf & Hctl & Hc). rewrite settle_one_body. set (l1 := set_dirty_ids _ _).
  assert (live cs {[sid]} l1) as H1.
  { split_and!; [by apply (fl_dirty _ wf_flat)|done|]. intros k s Hs Hd HX. cbn in Hd.
    destruct (Hc k s Hs) as [R1 R2 R3 R4 R5]; [set_solver..|]. by split. }
  assert (live cs {[sid]} (settle_body l1 sid)) as H2.
  { apply (settle_body_P (live_stable cs)); [set_solver| |done]. intros s Hs. by eapply live_all_in. }
  assert (live cs {[sid]} (register (settle_body l1 sid) sid)) as H3.
  { apply (register_P (live_stable cs)); [set_solver| |done]. intros s Hs. by eapply live_all_in. }
  destruct H3 as (Hwf3 & Hctl3 & Hc3). split_and!; [done|done|]. intros k s Hs Hd _.
  destruct (decide (k = sid)) as [->|Hne]; [|apply Hc3; [done|done|set_solver]].
  eapply register_registers; [exact H2| |exact Hs]. intros s3 Hs3.
  apply (settle_body_settled cs l1); [apply H1| |done].
  intros Hin. apply Hd. by apply register_dirty.
Qed.

Definition all_true (bs : list bool) : Prop := Forall (fun b => b = true) bs.

Lemma live_attached cs X sid l l' : attached sid l l' -> sid ∈ X -> live cs X l -> live cs X l'.
Proof.
  intros Hatt HX (Hwf & Hctl & Hc). pose proof (fl_attach _ wf_flat _ _ _ _ Hatt Hwf) as Hwf'.
  destruct Hwf as (HL & _).
  destruct Hatt as [l s info payload sock l' is_owner Hs _ _ _ _ _ _ Hw].
  unfold Loop_watch, poll_watch in Hw. simplify_eq. split_and!; [done|done|].
  revert Hc. apply clean_frame. cbn. intros k b Hb Hk HXk.
  rewrite lookup_insert_ne in Hb by set_solver. split; [done|]. exists b.
  destruct (sess_view_refl b) as (?&?&?&?&?&?&?&?). split_and!; try done. intros aid Hin.
  destruct (lk_back _ HL _ _ _ Hb Hin) as (a & Ha & _).
  destruct (decide (next_attachment l = aid)) as [<-|Hne]; [|by rewrite lookup_insert_ne].
  destruct (lk_attachment _ HL _ _ Ha) as (_ & ? & _). lia.
Qed.

Lemma live_same cs cs' X l l' :
  sessions l' = sessions l -> attachments l' = attachments l -> dirty_ids l' = dirty_ids l ->
  ctl_ok (os l') -> wf cs' l' -> live cs X l -> live cs' X l'.
Proof.
  intros E1 E2 E3 Hctl Hwf (_ & _ & Hc). split_and!; [done|done|].
  eapply clean_same; [exact E1|exact E2|by rewrite E3|done].
Qed.

Lemma live_insert id req conn cs l :
  live (CmdStart id req conn :: cs) ∅ l -> live cs {[id]} (insert_session l id req).
Proof.
  intros (Hwf & Hctl & Hc). pose proof (wf_insert _ _ _ _ _ Hwf) as Hwf'.
  destruct Hwf as (HL & HP & HI). destruct (ii_new _ _ HI id) as [_ Hn]; [apply elem_of_cons; by left|].
  destruct (insert_session_inserted l id req Hn HP) as (s & Hin & _).
  split_and!; [done|by eapply ctl_ok_world, Hctl; apply Hin|]. intros k b Hb Hk HX.
  rewrite (in_sessions _ _ _ _ Hin), lookup_insert_ne in Hb by set_solver.
  rewrite (in_dirty _ _ _ _ Hin) in Hk.
  destruct (sess_view_refl b) as (?&?&?&?&?&?&?&?).
  eapply (registered_same l); try done.
  - by rewrite (in_sessions _ _ _ _ Hin), lookup_insert_ne by set_solver.
  - intros. by rewrite (in_attachments _ _ _ _ Hin).
  - apply Hc; [done|done|set_solver].
Qed.

Lemma live_kill req_id signal timeout chan cs l :
  live (CmdKill req_id signal timeout chan :: cs) ∅ l -> live cs ∅ (Loop_kill l req_id signal timeout chan).
Proof.
  intros Hl. pose proof (wf_kill _ _ _ _ _ _ (proj1 Hl)) as Hwf.
  destruct Hl as (_ & Hctl & Hc). split_and!; [done|..].
  - destruct (kill_shape l req_id signal timeout chan)
      as (o & Ho & [(es & _ & ->)|(sid & s & sig & name & d & Hs & Hk & ->)]);
      apply (ctl_ok_world _ _ Ho Hctl).
  - destruct (kill_shape l req_id signal timeout chan)
      as (o & Ho & [(es & _ & ->)|(sid & s & sig & name & d & Hs & Hk & ->)]).
    + by apply (clean_same _ l).
    + clean_s Hs. unseen.
Qed.

Lemma start_keeps l req conn created spawned :
  let l' := start l req conn created spawned in
  sessions l' = sessions l /\ attachments l' = attachments l /\ dirty_ids l' = dirty_ids l /\
  ctl_answers (os l') = ctl_answers (os l).
Proof. cbv zeta. unfold start, reserve. case_test; cbn [negb]; [case_test; [|case_test]|]; done. Qed.

Lemma live_closed : closed all_true live.
Proof.
  split.
  - apply live_stable.
  - intros cs X l sid s [Hwf _]. by apply (fl_ids _ wf_flat cs).
  - intros cs X l sid s [Hwf _]. by apply (fl_ring _ wf_flat cs).
  - intros cs X l sid s aid a [Hwf _]. by apply (fl_owned _ wf_flat cs).
  - intros cs X l aid a [Hwf _]. by apply (fl_sent _ wf_flat cs l aid).
  - apply live_attached.
  - intros. by apply live_settle.
  - intros l Hl. pose proof (fl_take _ wf_flat _ (proj1 Hl)). by apply (live_same [] _ _ l); try apply Hl.
  - intros c cs l Hc Hl. pose proof (fl_skip _ wf_flat _ _ _ Hc (proj1 Hl)).
    by apply (live_same (c :: cs) _ _ l); try apply Hl.
  - intros c l Hc Hl. pose proof (fl_post _ wf_flat _ _ Hc (proj1 Hl)). by apply (live_same [] _ _ l); try apply Hl.
  - apply live_insert.
  - apply live_kill.
  - intros l req conn created spawned Hl. pose proof (wf_start l req conn created spawned (proj1 Hl)).
    destruct (start_keeps l req conn created spawned) as (E1 & E2 & E3 & E4).
    apply (live_same [] _ _ l); try done. unfold ctl_ok. rewrite E4. apply Hl.
  - intros l req_id signal timeout Hl. pose proof (fl_kill_events _ wf_flat _ req_id signal timeout (proj1 Hl)).
    by apply (live_same [] _ _ l); try apply Hl.
  - intros l a c p r t u Hc Hl. pose proof (fl_kernel _ wf_flat _ a c p r t u (proj1 Hl)).
    by apply (live_same [] _ _ l).
Qed.

Lemma live_new t : live [] ∅ (Loop_new t).
Proof. split_and!; [apply wf_new|by constructor|]. intros sid s Hs. by simplify_map_eq. Qed.

Lemma served_live ins t :
  Forall (input_ok all_true) ins -> live [] ∅ (feed_all ins (Loop_new t)).
Proof. intros Hins. apply (serve_closed live_closed); [done|apply live_new]. Qed.

(** ** A turn ends with every session up to date *)

Lemma wf_taken cs l : wf cs l -> taken_ok l.
Proof. intros (HL & _) aid a Ha. destruct (lk_attachment _ HL _ _ Ha) as ([] & _). lia. Qed.
End live.
