(* ===== verification/SessionKills.v ===== *)
(** * Kills are answered

    A kill request opens a channel. The loop reports on it that the signal
    was sent, that it timed out and a SIGKILL followed, and in the end that
    the processes are gone or that something failed. After any events each
    channel is waiting for the loop to take its request, or waits in a
    session with the reports so far, or has been answered to its end, once. *)

From Stdlib Require Import Strings.Byte Strings.String.
From stdpp Require Import gmap sorting.
From S2P Require Import Prelude Io Text Frame Ring Vsock SessionTypes Sessions SessionSteps SessionLinks.

(** ** Channels *)

(** What was reported on a channel. *)
Definition reports (lg : list Effect) (chan : Z) : list KillEvent :=
  flat_map (fun e => match e with EKill c ev => if c =? chan then [ev] else [] | _ => [] end) lg.
Arguments reports : simpl never.

Definition kill_chans (cs : list Cmd) : list Z :=
  omap (fun c => match c with CmdKill _ _ _ chan => Some chan | _ => None end) cs.

Definition waits (l : Loop) (sid : Z) : list KillWait := default [] (kills <$> sessions l !! sid).
Definition wait_chans (l : Loop) (sid : Z) : list Z := kw_events <$> waits l sid.

(** What a wait has been told. *)
Definition waiting (w : KillWait) (es : list KillEvent) : Prop :=
  exists signal name pid, es = KeSignal signal name pid ::
    (if kw_escalated w then [KeTimeout (kw_timeout w)] else []).

(** The reports of a kill that is over. *)
Inductive answered : list KillEvent -> Prop :=
  | answered_error : answered [KeError]
  | answered_gone code : answered [KeExited; KeComplete code]
  | answered_exited signal name pid code :
      answered [KeSignal signal name pid; KeExited; KeComplete code]
  | answered_killed signal name pid after code :
      answered [KeSignal signal name pid; KeTimeout after; KeKilled; KeComplete code]
  | answered_stuck signal name pid after :
      answered [KeSignal signal name pid; KeTimeout after; KeError].

Record kill_inv (cs : list Cmd) (l : Loop) : Prop := {
  ki_queue : NoDup (kill_chans (cs ++ cmd_queue l));
  ki_nodup sid : NoDup (wait_chans l sid);
  ki_once sid sid' c : c ∈ wait_chans l sid -> c ∈ wait_chans l sid' -> sid = sid';
  ki_apart sid c : c ∈ kill_chans (cs ++ cmd_queue l) -> c ∉ wait_chans l sid;
  ki_queued c : c ∈ kill_chans (cs ++ cmd_queue l) -> c < next_chan (os l);
  ki_waits sid c : c ∈ wait_chans l sid -> c < next_chan (os l);
  ki_fresh c : next_chan (os l) <= c \/ c ∈ kill_chans (cs ++ cmd_queue l) -> reports (log (os l)) c = [];
  ki_waiting sid w : w ∈ waits l sid -> waiting w (reports (log (os l)) (kw_events w));
  ki_answered c : 0 <= c < next_chan (os l) -> c ∉ kill_chans (cs ++ cmd_queue l) ->
    (forall sid, c ∉ wait_chans l sid) -> answered (reports (log (os l)) c);
}.

Lemma reports_app lg es c : reports (lg ++ es) c = reports lg c ++ reports es c.
Proof. apply flat_map_app. Qed.

Lemma kill_chans_app cs cs' : kill_chans (cs ++ cs') = kill_chans cs ++ kill_chans cs'.
Proof. apply omap_app. Qed.

(** ** Steps that leave kills alone *)

Record quiet_kills (l l' : Loop) : Prop := {
  qk_waits sid : waits l' sid = waits l sid;
  qk_reports c : reports (log (os l')) c = reports (log (os l)) c;
  qk_queue : kill_chans (cmd_queue l') = kill_chans (cmd_queue l);
  qk_next : next_chan (os l') = next_chan (os l);
}.

Definition is_kill (e : Effect) : bool := match e with EKill _ _ => true | _ => false end.

Lemma reports_quiet es c : Forall (fun e => is_kill e = false) es -> reports es c = [].
Proof. induction 1 as [|[] es He _ IH]; done. Qed.

Lemma waits_put l sid s s' :
  sessions l !! sid = Some s -> kills s' = kills s -> forall k, waits (put_session l sid s') k = waits l k.
Proof.
  intros Hs Hk k. unfold waits. cbn. rewrite lookup_insert. case_decide; [|done]. subst k. rewrite Hs. exact Hk.
Qed.

(** [l'] is [l] but for one session, whose kills are as they were. *)
Lemma quiet_session l l' sid s s' es :
  sessions l !! sid = Some s -> kills s' = kills s -> sessions l' = <[sid := s']> (sessions l) ->
  log (os l') = log (os l) ++ es -> Forall (fun e => is_kill e = false) es ->
  cmd_queue l' = cmd_queue l -> next_chan (os l') = next_chan (os l) -> quiet_kills l l'.
Proof.
  intros Hs Hk E1 E2 Hes E3 E4. split; [| |by rewrite E3|done].
  - intros k. rewrite <-(waits_put l sid s s' Hs Hk k). unfold waits. by rewrite E1.
  - intros c. by rewrite E2, reports_app, (reports_quiet es), app_nil_r.
Qed.

Lemma quiet_same l l' es :
  sessions l' = sessions l -> log (os l') = log (os l) ++ es -> Forall (fun e => is_kill e = false) es ->
  kill_chans (cmd_queue l') = kill_chans (cmd_queue l) -> next_chan (os l') = next_chan (os l) -> quiet_kills l l'.
Proof.
  intros E1 E2 Hes E3 E4. split; [|intros c|done|done].
  - intros sid. unfold waits. by rewrite E1.
  - by rewrite E2, reports_app, (reports_quiet es), app_nil_r.
Qed.

Lemma kill_chans_exits exits : kill_chans (map (fun '(id, status) => CmdExited id status) exits) = [].
Proof. induction exits as [|[]]; done. Qed.

Lemma told_quiet e : told e = true -> is_kill e = false.
Proof. by destruct e. Qed.

Ltac world :=
  cbn; rewrite ?app_nil_r; repeat match goal with
  | Ho : same_world _ _ |- _ => rewrite ?(sw_log _ _ Ho), ?(sw_next_chan _ _ Ho); clear Ho end;
  rewrite ?app_nil_r; done.
Ltac quiet_s Hs es :=
  eapply (quiet_session _ _ _ _ _ es); [exact Hs|..];
  [|reflexivity|world|by repeat constructor|done|world]; [done].
Ltac quiet_l es := eapply (quiet_same _ _ es); [done|world|by repeat constructor|done|world].

Lemma quiet_detach l aid : quiet_kills l (Loop_detach l aid).
Proof.
  destruct (detach_shape l aid) as [[_ ->]|(a & o & Ha & Ho & ->)]; [quiet_l (@nil Effect)|].
  destruct (sessions l !! a_session a) as [s|] eqn:Hs; [|quiet_l [EClosed aid]].
  destruct (detach_session_fields s aid (now l)) as (_ & _ & h & E).
  eapply (quiet_session _ _ _ _ _ [EClosed aid]); [exact Hs| |reflexivity|world|by repeat constructor|done|world].
  by rewrite E.
Qed.

Lemma quiet_finish l sid s s' l' :
  sessions l !! sid = Some s -> finish l sid s = (s', l') -> quiet_kills l (close_stdin l' sid s').
Proof.
  intros Hs Hf. destruct (finish_cases _ _ _ _ _ Hf) as [[-> ->]|(Hn & He & Ho' & -> & ->)];
    match goal with |- quiet_kills _ (close_stdin ?l ?sid ?s) =>
      destruct (close_cases l sid s) as [[Hc ->]|[[Hc ->]|(w & Hc & _ & ->)]] end;
    try unwatch; first [quiet_s Hs (@nil Effect)|quiet_s Hs [EStdinClosed sid]].
Qed.

Lemma step_quiet `{SessionEnv} X l l' :
  step X l l' -> quiet_kills l l' \/ exists t sid, l' = kill_timer t l sid.
Proof.
  destruct 1 as [l o Ho|l e He|l sid s st w data t Hs Hw Hd Hr HX|l sid s st w Hs Hw HX
    |l sid s w data rest Hs Hw Hq HX|l sid s w Hs Hw HX|l aid|l aid a data Ha HX Hb Hd|l aid a Ha
    |l aid a s kind payload rest s' l' Ha Hs HX Hp Hz Hk Ht|l aid a s Ha Hs HX Hq|l aid a Ha HX
    |l aid a Ha HX|l aid a s c out Ha Hs HX Hc Hf|l aid a s Ha Hs HX Hf Hc He|l aid a n Ha HX Hn Hle
    |l aid a payload Ha HX Hc|l id s status Hs HX|l id status Hs|l sid s w Hs Hw|l sid s v Hs|l sid t
    |l id s Hs Hf Ha Hk|l sid s s' l' Hs HX Hf|l sid s outs stdin pidfd Hs HX F1 F2 F3
    |l aid a w Ha HX Ht|l exits|l b|l t]; [..|by right; eauto| | | | | | |]; left;
    try (quiet_l (@nil Effect)).
  - apply (quiet_same _ _ [e]); [done|world|constructor; [by apply told_quiet|constructor]|done|world].
  - quiet_s Hs [ERead sid st data].
  - unwatch. quiet_s Hs (@nil Effect).
  - quiet_s Hs [EStdin sid data].
  - unwatch. quiet_s Hs [EStdinClosed sid].
  - apply quiet_detach.
  - quiet_l [ERecv aid data].
  - apply take_frame_framed in Ht as [_ Es (o & es & Ho & -> & Hes)].
    apply (quiet_session _ _ _ _ s' (EFrame aid kind payload :: es) Hs); [by rewrite Es|done| |..|done|world].
    + cbn. rewrite (sw_log _ _ Ho). cbn. by rewrite <-app_assoc.
    + constructor; [done|]. destruct Hes as [[_ [->|(e & -> & He)]]|(_ & _ & _ & _ & ->)];
        [constructor|constructor; [by apply told_quiet|constructor]|by repeat constructor].
  - quiet_l [ESent aid (ztake n (zdrop (a_sent a) (a_out a)))].
  - cbn. destruct (s_pidfd s); [unwatch|]; quiet_s Hs [EExited id status].
  - quiet_l [EExited id status].
  - unwatch. quiet_s Hs (@nil Effect).
  - quiet_s Hs (@nil Effect).
  - split; try done. intros k. unfold waits. cbn. destruct (decide (k = id)) as [->|].
    + rewrite lookup_delete_eq, Hs. symmetry. exact Hk.
    + by rewrite lookup_delete_ne.
  - by eapply quiet_finish.
  - quiet_s Hs (@nil Effect).
  - apply (quiet_same _ _ []); try world. cbn. by rewrite kill_chans_app, kill_chans_exits, app_nil_r.
Qed.

(** ** The kill timer *)

(** What the timer does with one wait, and what it reports. *)
Definition wait_step (done_ : option Z) (t : Z) (w : KillWait) : option KillWait * list KillEvent :=
  match done_ with
  | Some code => (None, [if kw_escalated w then KeKilled else KeExited; KeComplete code])
  | None =>
      if t <? kw_deadline w then (Some w, [])
      else if kw_escalated w then (None, [KeError])
      else (Some (MkKillWait (kw_events w) (kw_timeout w) (t + SIGKILL_WAIT) true),
            [KeTimeout (kw_timeout w)])
  end.

Lemma kill_step_spec sid done_ t o w :
  exists es, kill_step sid done_ t o w = ((wait_step done_ t w).1, set_log o (log o ++ es)) /\
    forall c, reports es c = if kw_events w =? c then (wait_step done_ t w).2 else [].
Proof.
  assert (set_log o (log o ++ []) = o) as Hnil by (by rewrite app_nil_r).
  unfold kill_step, wait_step, os_log. cbn.
  destruct done_ as [code|]; [|case_test; [|destruct (kw_escalated w); cbn [negb]]].
  - eexists. split; [cbn; by rewrite <-app_assoc|]. intros c. cbn. unfold reports; cbn.
    destruct (kw_events w =? c); done.
  - exists []. rewrite Hnil. split; [done|]. intros c. by destruct (kw_events w =? c).
  - eexists. split; [done|]. intros c. unfold reports; cbn. by destruct (kw_events w =? c).
  - eexists. split; [cbn; by rewrite <-app_assoc|]. intros c. unfold reports; cbn. by destruct (kw_events w =? c).
Qed.

Lemma kill_waits_spec sid done_ t ws : forall o,
  exists es, kill_waits sid done_ t o ws =
      (omap (fun w => (wait_step done_ t w).1) ws, set_log o (log o ++ es)) /\
    forall c, reports es c = flat_map (fun w => if kw_events w =? c then (wait_step done_ t w).2 else []) ws.
Proof.
  induction ws as [|w ws IH]; intros o; cbn [kill_waits].
  { exists []. by rewrite app_nil_r. }
  destruct (kill_step_spec sid done_ t o w) as (es1 & -> & H1).
  destruct (IH (set_log o (log o ++ es1))) as (es2 & -> & H2).
  exists (es1 ++ es2). cbn. rewrite <-app_assoc. split; [by case_match|].
  intros c. by rewrite reports_app, H1, H2.
Qed.

Lemma wait_step_chan done_ t w w' : (wait_step done_ t w).1 = Some w' -> kw_events w' = kw_events w.
Proof. unfold wait_step. repeat case_match; intros; by simplify_eq/=. Qed.

Lemma reports_elsewhere (f : KillWait -> list KillEvent) ws c :
  c ∉ kw_events <$> ws -> flat_map (fun w => if kw_events w =? c then f w else []) ws = [].
Proof.
  induction ws as [|x ws IH]; [done|]. cbn. intros [Hne Hn]%not_elem_of_cons.
  rewrite IH by done. by destruct (Z.eqb_spec (kw_events x) c).
Qed.

(** A channel that occurs once gets the report of its wait. *)
Lemma reports_of_wait (f : KillWait -> list KillEvent) ws w :
  NoDup (kw_events <$> ws) -> w ∈ ws ->
  flat_map (fun w' => if kw_events w' =? kw_events w then f w' else []) ws = f w.
Proof.
  induction ws as [|x ws IH]; [intros _ []%elem_of_nil|]. cbn.
  intros [Hx Hnd]%NoDup_cons [->|Hw]%elem_of_cons.
  - by rewrite Z.eqb_refl, reports_elsewhere, app_nil_r.
  - rewrite IH by done. destruct (Z.eqb_spec (kw_events x) (kw_events w)) as [E|]; [|done].
    exfalso. apply Hx. rewrite E. by apply list_elem_of_fmap_2.
Qed.

Lemma kill_timer_spec t l sid :
  exists done_,
    (forall k, waits (kill_timer t l sid) k =
       if decide (k = sid) then omap (fun w => (wait_step done_ t w).1) (waits l sid) else waits l k) /\
    (forall c, reports (log (os (kill_timer t l sid))) c = reports (log (os l)) c ++
       flat_map (fun w => if kw_events w =? c then (wait_step done_ t w).2 else []) (waits l sid)) /\
    cmd_queue (kill_timer t l sid) = cmd_queue l /\
    next_chan (os (kill_timer t l sid)) = next_chan (os l) /\ now (kill_timer t l sid) = now l.
Proof.
  assert (waits l sid = [] -> kill_timer t l sid = l) as Hnone.
  { unfold waits, kill_timer. destruct (sessions l !! sid); [|done]. intros Hk. by rewrite bool_decide_eq_true_2. }
  destruct (decide (waits l sid = [])) as [Hw|Hw].
  { rewrite (Hnone Hw), Hw. exists None. split_and!; [|intros c; by rewrite app_nil_r|done..].
    intros k. cbn. by destruct (decide (k = sid)) as [->|]. }
  unfold kill_timer. unfold waits in Hw |- *. destruct (sessions l !! sid) as [s|] eqn:Hs; [|done].
  cbn [fmap option_fmap option_map default from_option] in *. rewrite bool_decide_eq_false_2 by done.
  destruct (match s_exit s with Some _ => _ | None => _ end) as [done_ o] eqn:E.
  assert (same_world (os l) o) as Ho.
  { destruct (s_exit s); [|by simplify_eq].
    destruct (sys_populated (os l)) as [b o1] eqn:Ep. apply sys_populated_world in Ep. by simplify_eq. }
  exists done_. destruct (kill_waits_spec sid done_ t (kills s) o) as (es & -> & Hes). cbn. split_and!.
  - intros k. rewrite lookup_insert. destruct (decide (k = sid)) as [->|]; [by rewrite decide_True|].
    by rewrite decide_False.
  - intros c. by rewrite reports_app, Hes, (sw_log _ _ Ho).
  - done.
  - apply Ho.
  - apply Ho.
Qed.

Lemma wait_step_waiting done_ t w w' es :
  (wait_step done_ t w).1 = Some w' -> waiting w es -> waiting w' (es ++ (wait_step done_ t w).2).
Proof.
  unfold wait_step, waiting. intros E (sig & name & pid & ->). exists sig, name, pid.
  destruct done_; [done|]. destruct (t <? kw_deadline w); simplify_eq/=; [by rewrite app_nil_r|].
  destruct (kw_escalated w); by simplify_eq/=.
Qed.

Lemma wait_step_answered done_ t w es :
  (wait_step done_ t w).1 = None -> waiting w es -> answered (es ++ (wait_step done_ t w).2).
Proof.
  unfold wait_step. intros E (sig & name & pid & ->).
  destruct done_ as [code|]; [|destruct (t <? kw_deadline w); [done|]];
    destruct (kw_escalated w); simplify_eq/=; constructor.
Qed.

Lemma elem_of_wait_chans l sid c : c ∈ wait_chans l sid <-> exists w, w ∈ waits l sid /\ kw_events w = c.
Proof. unfold wait_chans. rewrite list_elem_of_fmap. naive_solver. Qed.

Lemma wait_chans_timer t l sid k c :
  c ∈ wait_chans (kill_timer t l sid) k -> c ∈ wait_chans l k.
Proof.
  destruct (kill_timer_spec t l sid) as (done_ & Hw & _).
  rewrite !elem_of_wait_chans. intros (w & Hin & <-). rewrite Hw in Hin.
  case_decide as Ek; [|by eauto]. subst k. apply list_elem_of_omap in Hin as (w0 & Hin & E).
  exists w0. split; [done|]. by apply wait_step_chan in E.
Qed.

Lemma NoDup_omap_chans done_ t ws :
  NoDup (kw_events <$> ws) -> NoDup (kw_events <$> omap (fun w => (wait_step done_ t w).1) ws).
Proof.
  induction ws as [|w ws IH]; [done|]. cbn. intros [Hn Hnd]%NoDup_cons.
  destruct ((wait_step done_ t w).1) as [w'|] eqn:E; [|auto]. cbn. apply NoDup_cons. split; [|auto].
  rewrite (wait_step_chan _ _ _ _ E). intros (w1 & E1 & (w2 & Hw2 & E2)%list_elem_of_omap)%list_elem_of_fmap.
  apply Hn. rewrite E1, (wait_step_chan _ _ _ _ E2). by apply list_elem_of_fmap_2.
Qed.

Lemma kill_timer_inv cs t l sid : kill_inv cs l -> kill_inv cs (kill_timer t l sid).
Proof.
  intros []. pose proof (wait_chans_timer t l sid) as Hsub.
  destruct (kill_timer_spec t l sid) as (done_ & Hw & Hr & Eq & En & _).
  assert (forall c, c ∉ wait_chans l sid ->
    reports (log (os (kill_timer t l sid))) c = reports (log (os l)) c) as Hquiet.
  { intros c Hc. by rewrite Hr, reports_elsewhere, app_nil_r. }
  split; rewrite ?Eq, ?En; eauto.
  - intros k. unfold wait_chans. rewrite Hw. case_decide; [|apply ki_nodup0]. apply NoDup_omap_chans, ki_nodup0.
  - intros k c Hc Hin. by eapply ki_apart0, Hsub.
  - intros c Hc. rewrite Hquiet; [auto|]. intros Hin. destruct Hc as [Hc|Hc]; [|by eapply ki_apart0].
    apply ki_waits0 in Hin. lia.
  - intros k w Hin. rewrite Hw in Hin. case_decide as Ek.
    + apply list_elem_of_omap in Hin as (w0 & Hin & E). rewrite Hr, (wait_step_chan _ _ _ _ E).
      rewrite reports_of_wait by (done || apply ki_nodup0).
      eapply wait_step_waiting; [done|]. by eapply ki_waiting0.
    + rewrite Hquiet; [by eapply ki_waiting0|]. intros Hc. apply Ek.
      eapply ki_once0; [|exact Hc]. apply elem_of_wait_chans. eauto.
  - intros c Hc Hq Hn. destruct (decide (c ∈ wait_chans l sid)) as [Hin|Hin].
    + apply elem_of_wait_chans in Hin as (w & Hin & <-).
      rewrite Hr, reports_of_wait by (done || apply ki_nodup0).
      apply wait_step_answered; [|by eapply ki_waiting0].
      destruct ((wait_step done_ t w).1) as [w'|] eqn:E; [|done]. exfalso. apply (Hn sid).
      apply elem_of_wait_chans. exists w'. split; [|by eapply wait_step_chan].
      rewrite Hw, decide_True by done. apply list_elem_of_omap. eauto.
    + rewrite Hquiet by done. apply ki_answered0; [done|done|]. intros k Hk. apply (Hn k).
      apply elem_of_wait_chans in Hk as (w & Hk & E). apply elem_of_wait_chans. exists w. split; [|done].
      rewrite Hw, decide_False; [done|]. intros ->. apply Hin, elem_of_wait_chans. eauto.
Qed.

Lemma quiet_inv cs cs' l l' :
  (forall sid, waits l' sid = waits l sid) -> (forall c, reports (log (os l')) c = reports (log (os l)) c) ->
  kill_chans (cs' ++ cmd_queue l') = kill_chans (cs ++ cmd_queue l) ->
  next_chan (os l') = next_chan (os l) -> kill_inv cs l -> kill_inv cs' l'.
Proof.
  intros Hw Hr Eq En []. assert (forall sid, wait_chans l' sid = wait_chans l sid) as Hc.
  { intros sid. unfold wait_chans. by rewrite Hw. }
  split; rewrite ?Eq, ?En; intros *; rewrite ?Hc, ?Hw, ?Hr; eauto.
  intros Hc1 Hc2 Hc3. apply ki_answered0; [done|done|]. intros sid. rewrite <-Hc. apply Hc3.
Qed.

Lemma step_kill_inv `{SessionEnv} cs X l l' : step X l l' -> kill_inv cs l -> kill_inv cs l'.
Proof.
  intros [[]|(t & sid & ->)]%step_quiet; [|apply kill_timer_inv].
  apply quiet_inv; try done. by rewrite !kill_chans_app, qk_queue0.
Qed.

(** ** Requests *)

Lemma kill_chans_untracked c : tracked c = false -> kill_chans [c] = [].
Proof. by destruct c. Qed.

(** A request that is answered at once. *)
Lemma kill_refused cs l l' chan es req_id signal timeout :
  (forall sid, waits l' sid = waits l sid) ->
  (forall c, reports (log (os l')) c = reports (log (os l)) c ++ if chan =? c then es else []) ->
  cmd_queue l' = cmd_queue l -> next_chan (os l') = next_chan (os l) -> answered es ->
  kill_inv (CmdKill req_id signal timeout chan :: cs) l -> kill_inv cs l'.
Proof.
  intros Hw Hr Eq En Hes []. cbn in *. apply NoDup_cons in ki_queue0 as [Hout Hnd].
  fold (kill_chans (cs ++ cmd_queue l)) in *.
  assert (forall sid, wait_chans l' sid = wait_chans l sid) as Hc.
  { intros sid. unfold wait_chans. by rewrite Hw. }
  assert (forall c, c <> chan -> reports (log (os l')) c = reports (log (os l)) c) as Hne.
  { intros c Hcc. rewrite Hr. rewrite (proj2 (Z.eqb_neq chan c)) by done. by rewrite app_nil_r. }
  split; rewrite ?Eq, ?En; intros *; rewrite ?Hc, ?Hw.
  - done.
  - apply ki_nodup0.
  - apply ki_once0.
  - intros Hin. apply ki_apart0. by right.
  - intros Hin. apply ki_queued0. by right.
  - apply ki_waits0.
  - intros Hin. rewrite Hne; [apply ki_fresh0; destruct Hin; [by left|right; by right]|].
    intros ->. destruct Hin as [Hin|]; [|done]. specialize (ki_queued0 chan ltac:(by left)). lia.
  - intros Hin. rewrite Hne; [by eapply ki_waiting0|]. intros E.
    apply (ki_apart0 sid chan); [by left|]. apply elem_of_wait_chans. eauto.
  - intros Hc1 Hc2 Hc3. destruct (decide (c = chan)) as [->|Hcc].
    + rewrite Hr, Z.eqb_refl, ki_fresh0 by (right; by left). done.
    + rewrite Hne by done. apply ki_answered0; [done|by apply not_elem_of_cons|]. intros sid. rewrite <-Hc. apply Hc3.
Qed.

(** A request that waits. *)
Lemma kill_waiting cs l l' sid chan w req_id signal timeout es :
  waits l' sid = waits l sid ++ [w] -> (forall k, k <> sid -> waits l' k = waits l k) ->
  kw_events w = chan ->
  (forall c, reports (log (os l')) c = reports (log (os l)) c ++ if chan =? c then es else []) ->
  cmd_queue l' = cmd_queue l -> next_chan (os l') = next_chan (os l) -> waiting w es ->
  kill_inv (CmdKill req_id signal timeout chan :: cs) l -> kill_inv cs l'.
Proof.
  intros Hw Hwk Ew Hr Eq En Hes []. cbn in *. apply NoDup_cons in ki_queue0 as [Hout Hnd].
  fold (kill_chans (cs ++ cmd_queue l)) in *.
  assert (forall k c, c ∈ wait_chans l' k -> c ∈ wait_chans l k \/ (k = sid /\ c = chan)) as Hc.
  { intros k c. rewrite !elem_of_wait_chans. intros (x & Hx & <-).
    destruct (decide (k = sid)) as [->|]; [|rewrite Hwk in Hx by done; eauto].
    rewrite Hw in Hx. apply elem_of_app in Hx as [Hx|Hx%list_elem_of_singleton]; subst; eauto. }
  assert (forall k, chan ∉ wait_chans l k) as Hchan by (intros k; apply ki_apart0; by left).
  assert (forall c, c <> chan -> reports (log (os l')) c = reports (log (os l)) c) as Hne.
  { intros c Hcc. rewrite Hr. rewrite (proj2 (Z.eqb_neq chan c)) by done. by rewrite app_nil_r. }
  split; rewrite ?Eq, ?En.
  - done.
  - intros k. unfold wait_chans. destruct (decide (k = sid)) as [->|]; [|rewrite Hwk by done; apply ki_nodup0].
    rewrite Hw, fmap_app. apply NoDup_app. split_and!; [apply ki_nodup0| |apply NoDup_singleton].
    intros c Hin ->%list_elem_of_singleton. rewrite Ew in Hin. by apply (Hchan sid).
  - intros k k' c [Hk|[-> ->]]%Hc [Hk'|[-> E]]%Hc; subst; try done; [by eapply ki_once0|..]; exfalso; by eapply Hchan.
  - intros k c Hin [Hk|[-> ->]]%Hc; [|done]. eapply ki_apart0; [by right|done].
  - intros c Hin. apply ki_queued0. by right.
  - intros k c [Hk|[-> ->]]%Hc; [by eapply ki_waits0|]. apply ki_queued0. by left.
  - intros c Hin. rewrite Hne; [apply ki_fresh0; destruct Hin; [by left|right; by right]|].
    intros ->. destruct Hin as [Hin|]; [|done]. specialize (ki_queued0 chan ltac:(by left)). lia.
  - intros k x Hx. destruct (decide (k = sid)) as [->|].
    + rewrite Hw in Hx. apply elem_of_app in Hx as [Hx|Hx%list_elem_of_singleton]; [|subst x].
      * rewrite Hne; [by eapply ki_waiting0|]. intros E. apply (Hchan sid), elem_of_wait_chans. eauto.
      * by rewrite Ew, Hr, Z.eqb_refl, ki_fresh0 by (right; by left).
    + rewrite Hwk in Hx by done. rewrite Hne; [by eapply ki_waiting0|].
      intros E. apply (Hchan k), elem_of_wait_chans. eauto.
  - intros c Hc1 Hc2 Hc3. assert (c <> chan) as Hcc.
    { intros ->. apply (Hc3 sid), elem_of_wait_chans. exists w. rewrite Hw. split; [set_solver|done]. }
    rewrite Hne by done. apply ki_answered0; [done|by apply not_elem_of_cons|].
    intros k (x & Hx & E)%elem_of_wait_chans. apply (Hc3 k), elem_of_wait_chans. exists x. split; [|done].
    destruct (decide (k = sid)) as [->|]; [rewrite Hw; set_solver|by rewrite Hwk].
Qed.

Section killed.
Context `{SE : SessionEnv}.

Definition killed (cs : list Cmd) (l : Loop) : Prop := wf cs l /\ kill_inv cs l.

Lemma killed_kill req_id signal timeout chan cs l :
  killed (CmdKill req_id signal timeout chan :: cs) l -> killed cs (Loop_kill l req_id signal timeout chan).
Proof.
  intros [Hwf HK]. split; [by eapply wf_kill|].
  destruct (kill_shape l req_id signal timeout chan)
    as (o & Ho & [(es & Hes & E)|(sid & s & sig & name & d & Hs & Hk & E)]); rewrite E.
  - destruct Hes as [->|(code & ->)].
    + eapply (kill_refused cs l _ chan [KeError]); [done| |done|apply Ho|constructor|exact HK].
      intros c. cbn. rewrite reports_app, (sw_log _ _ Ho). unfold reports at 2; cbn. by destruct (chan =? c).
    + eapply (kill_refused cs l _ chan [KeExited; KeComplete code]); [done| |done|apply Ho|constructor|exact HK].
      intros c. cbn. rewrite reports_app, (sw_log _ _ Ho). unfold reports at 2; cbn. by destruct (chan =? c).
  - eapply (kill_waiting cs l _ sid chan _ _ _ _ [KeSignal sig name (s_pid s)]);
      [| | | |done|apply Ho| |exact HK]; unfold waits; cbn.
    + by rewrite lookup_insert_eq, Hs.
    + intros k Hne. by rewrite lookup_insert_ne.
    + done.
    + intros c. rewrite reports_app, (sw_log _ _ Ho). unfold reports at 2; cbn. by destruct (chan =? c).
    + by exists sig, name, (s_pid s).
Qed.

Lemma killed_insert id req conn cs l :
  killed (CmdStart id req conn :: cs) l -> killed cs (insert_session l id req).
Proof.
  intros [Hwf HK]. split; [by eapply wf_insert|]. destruct Hwf as (HL & HP & HI).
  destruct (ii_new _ _ HI id) as [_ Hn]; [apply elem_of_cons; by left|].
  destruct (insert_session_inserted l id req Hn HP) as (s & Hin & _).
  revert HK. apply quiet_inv.
  - intros k. unfold waits. rewrite (in_sessions _ _ _ _ Hin), lookup_insert. case_decide; [|done].
    subst k. rewrite Hn. apply (in_kills _ _ _ _ Hin).
  - intros c. by rewrite (sw_log _ _ (in_world _ _ _ _ Hin)).
  - by rewrite (in_queue _ _ _ _ Hin).
  - apply (in_world _ _ _ _ Hin).
Qed.

Lemma killed_new_request l req_id signal timeout :
  kill_inv [] l -> kill_inv [] (kill_events l req_id signal timeout).
Proof.
  intros []. unfold kill_events, post. cbn in *. split; cbn; rewrite ?kill_chans_app; cbn.
  - apply NoDup_app. split_and!; [done| |apply NoDup_singleton].
    intros c Hc%ki_queued0 ->%list_elem_of_singleton. lia.
  - apply ki_nodup0.
  - apply ki_once0.
  - intros sid c [Hc|Hc%list_elem_of_singleton]%elem_of_app; [by apply ki_apart0|].
    intros Hin%ki_waits0. lia.
  - intros c [Hc%ki_queued0|Hc%list_elem_of_singleton]%elem_of_app; lia.
  - intros sid c Hc%ki_waits0. lia.
  - intros c [Hc|[Hc|Hc%list_elem_of_singleton]%elem_of_app]; apply ki_fresh0; [left; lia|by right|left; lia].
  - apply ki_waiting0.
  - intros c Hc Hq Hn. apply ki_answered0; [|set_solver|done].
    assert (c <> next_chan (os l)) by set_solver. lia.
Qed.

Lemma killed_flat : flat killed.
Proof.
  split.
  - intros cs X l l' Hstep [Hwf HK]. split; [by eapply (fl_step _ wf_flat)|by eapply step_kill_inv].
  - intros cs l sid s [Hwf _]. by apply (fl_ids _ wf_flat cs).
  - intros cs l sid s [Hwf _]. by apply (fl_ring _ wf_flat cs).
  - intros cs l sid s aid a [Hwf _]. by apply (fl_owned _ wf_flat cs).
  - intros cs l aid a [Hwf _]. by apply (fl_sent _ wf_flat cs l aid).
  - intros cs sid l l' Hatt [Hwf HK]. split; [by eapply (fl_attach _ wf_flat)|].
    destruct Hatt as [l s info payload sock l' is_owner Hs _ _ _ _ _ _ Hw].
    unfold Loop_watch, poll_watch in Hw. simplify_eq. revert HK. apply quiet_inv; try done.
    apply (waits_put l sid s _ Hs). by destruct is_owner.
  - intros cs l d [Hwf HK]. split; [by apply (fl_dirty _ wf_flat)|by apply (quiet_inv cs _ l)].
  - intros l [Hwf HK]. split; [by apply (fl_take _ wf_flat)|]. apply (quiet_inv [] _ l); try done. cbn. by rewrite app_nil_r.
  - intros c cs l Hc [Hwf HK]. split; [by eapply (fl_skip _ wf_flat)|]. apply (quiet_inv (c :: cs) _ l); try done. by destruct c.
  - intros c l Hc [Hwf HK]. split; [by apply (fl_post _ wf_flat)|]. apply (quiet_inv [] _ l); try done. cbn.
    by rewrite kill_chans_app, kill_chans_untracked, app_nil_r.
  - intros. by eapply killed_insert.
  - intros. by apply killed_kill.
  - intros l req conn created spawned [Hwf HK]. split; [by apply wf_start|].
    unfold start, reserve. case_test; cbn [negb]; [case_test; [|case_test]|];
      (eapply (quiet_inv [] _ l); [done| | |done|exact HK]); cbn -[kill_chans];
      try done; try (intros c; by rewrite <-?app_assoc, reports_app, app_nil_r).
    by rewrite kill_chans_app, app_nil_r.
  - intros l req_id signal timeout [Hwf HK]. split; [by apply (fl_kill_events _ wf_flat)|by apply killed_new_request].
  - intros l a c p r t u [Hwf HK]. split; [by apply (fl_kernel _ wf_flat)|by apply (quiet_inv [] _ l)].
Qed.

Lemma killed_new t : killed [] (Loop_new t).
Proof.
  split; [apply wf_new|].
  split; unfold wait_chans, waits; cbn; try done; intros *; rewrite ?lookup_empty; cbn; try constructor;
    intros; try (by apply elem_of_nil in H); try lia.
Qed.

Lemma served_killed ins t : killed [] (feed_all ins (Loop_new t)).
Proof. apply serve_flat; [apply killed_flat|apply killed_new]. Qed.
End killed.

(** ** Deadlines *)

Definition in_time (t : Z) (ws : list KillWait) : Prop := Forall (fun w => t < kw_deadline w) ws.

Lemma wait_step_in_time done_ t ws : in_time t (omap (fun w => (wait_step done_ t w).1) ws).
Proof.
  apply Forall_forall. intros w' (w & _ & E)%list_elem_of_omap. unfold wait_step in E.
  destruct done_; [done|]. destruct (Z.ltb_spec t (kw_deadline w)); [by simplify_eq/=|].
  destruct (kw_escalated w); simplify_eq/=. change SIGKILL_WAIT with 5000. lia.
Qed.

Lemma kill_timers_in_time t ids : forall l,
  (forall k, k ∉ ids -> in_time t (waits l k)) ->
  forall k, in_time t (waits (fold_left (kill_timer t) ids l) k).
Proof.
  induction ids as [|id ids IH]; intros l Hl; cbn [fold_left]; [intros k; apply Hl, not_elem_of_nil|].
  apply IH. intros k Hk. destruct (kill_timer_spec t l id) as (done_ & Hw & _). rewrite Hw.
  case_decide; [apply wait_step_in_time|]. apply Hl. by apply not_elem_of_cons.
Qed.

Lemma waits_hangup t l sid k : waits (hangup t l sid) k = waits l k.
Proof.
  unfold hangup. destruct (sessions l !! sid) as [s|] eqn:Hs; [|done].
  destruct (hangup_at s) as [at_|]; [|done]. case_test; [|done]. by apply (waits_put l sid s).
Qed.

Lemma waits_detach l aid k : waits (Loop_detach l aid) k = waits l k.
Proof. apply quiet_detach. Qed.

Lemma waits_fold {A} (f : Loop -> A -> Loop) xs k :
  (forall l x, waits (f l x) k = waits l k) -> forall l, waits (fold_left f xs l) k = waits l k.
Proof. intros Hf. induction xs as [|x xs IH]; intros l; [done|]. cbn. by rewrite IH, Hf. Qed.

Lemma waits_drop l id k : waits (drop_session l id) k = [] \/ waits (drop_session l id) k = waits l k.
Proof.
  unfold drop_session. set (l1 := match sessions l !! id with Some _ => _ | None => _ end).
  assert (waits l1 k = waits l k) as <-.
  { unfold l1. destruct (sessions l !! id); [|done]. apply waits_fold. intros. apply waits_detach. }
  unfold waits. cbn. rewrite lookup_delete. case_decide; [by left|by right].
Qed.

Lemma sweep_in_time t all k : forall i excess now_ l,
  in_time t (waits l k) -> in_time t (waits (sweep_loop i excess now_ l all) k).
Proof.
  induction all as [|[at_ id] all IH]; intros i excess now_ l Hl; [done|]. cbn [sweep_loop]. apply IH.
  case_test; [|done]. destruct (waits_drop l id k) as [->| ->]; [constructor|done].
Qed.

Lemma no_kills l k : has_kills l = false -> waits l k = [].
Proof.
  unfold has_kills, waits. intros H. destruct (sessions l !! k) as [s|] eqn:Hs; [|done].
  apply elem_of_map_to_list, list_elem_of_In in Hs.
  destruct (kills s) as [|w ws] eqn:Hk; [exact Hk|].
  exfalso. apply not_true_iff_false in H. apply H, existsb_exists. exists (k, s). split; [done|].
  by rewrite bool_decide_eq_false_2 by (rewrite Hk; done).
Qed.
