(* ===== verification/SessionSweep.v ===== *)
(** * Sessions that ended are dropped in time

    Once a second the loop drops sessions that finished and that nobody is
    attached to or waits for: those that ended ten minutes ago, and all but
    the 64 that ended last. *)

From Stdlib Require Import Strings.Byte Strings.String.
From stdpp Require Import gmap sorting.
From S2P Require Import Prelude Io Text Frame Ring Vsock SessionTypes Sessions SessionSteps.

(** When a session that can be dropped ended. *)
Definition idle_at (s : Session) : option Z :=
  if bool_decide (s_attachments s = []) && bool_decide (kills s = []) then finished s else None.

(** Whether it ended after [p], a time and an id, and how many did. *)
Definition is_newer (p : Z * Z) (ks : Z * Session) : bool :=
  match idle_at ks.2 with
  | Some at_ => negb (bool_decide (ended_le (at_, ks.1) p))
  | None => false
  end.
Definition newer (m : gmap Z Session) (p : Z * Z) : Z :=
  Z.of_nat (size (filter (fun ks => is_newer p ks = true) m)).

(** What the sweep at time [t] is to drop. *)
Definition to_drop (m : gmap Z Session) (t : Z) (sid : Z) (s : Session) : Prop :=
  exists at_, idle_at s = Some at_ /\ (KEEP_EXITED <= t - at_ \/ MAX_EXITED <= newer m (at_, sid)).

Lemma idle_at_since s at_ : idle_at s = Some at_ <-> idle_since s at_.
Proof.
  unfold idle_at, idle_since. destruct (s_attachments s), (kills s); cbn;
    rewrite ?bool_decide_eq_true_2, ?bool_decide_eq_false_2 by done; cbn; naive_solver.
Qed.

#[export] Instance ended_le_trans : Transitive ended_le.
Proof. intros [] [] []. unfold ended_le. cbn. lia. Qed.
#[export] Instance ended_le_total : Total ended_le.
Proof. intros [] []. unfold ended_le. cbn. lia. Qed.

(** ** The loop of the sweep *)

(** The ids the loop drops. *)
Fixpoint dropped (i excess t : Z) (all : list (Z * Z)) : list Z :=
  match all with
  | [] => []
  | (at_, id) :: all =>
      (if (i <? excess) || (KEEP_EXITED <=? saturating_sub t at_) then [id] else []) ++
      dropped (i + 1) excess t all
  end.

Lemma elem_of_dropped excess t all sid : forall i,
  sid ∈ dropped i excess t all <->
  exists j at_, all !! j = Some (at_, sid) /\
    (i + Z.of_nat j < excess \/ KEEP_EXITED <= saturating_sub t at_).
Proof.
  induction all as [|[at_ id] all IH]; intros i; cbn [dropped].
  { split; [intros []%elem_of_nil|]. intros (j & a & Hj & _). by rewrite lookup_nil in Hj. }
  rewrite elem_of_app, IH. split.
  - intros [H|(j & a & Hj & H)].
    + case_test_in H; [|by apply elem_of_nil in H]. apply list_elem_of_singleton in H as ->.
      exists 0%nat, at_. split; [done|]. bool_to_prop. lia.
    + exists (S j), a. split; [done|]. lia.
  - intros ([|j] & a & Hj & H); simplify_eq/=; [left|right].
    + case_test; [left|]. bool_to_prop. lia.
    + exists j, a. split; [done|]. lia.
Qed.

Lemma sweep_loop_sessions excess t all : forall i l,
  NoDup all.*2 ->
  (forall at_ id, (at_, id) ∈ all -> exists s, sessions l !! id = Some s /\ idle_since s at_) ->
  sessions (sweep_loop i excess t l all) =
    filter (fun '(k, _) => k ∉ dropped i excess t all) (sessions l).
Proof.
  induction all as [|[at_ id] all IH]; intros i l Hnd Hall; cbn [sweep_loop dropped].
  { symmetry. apply map_filter_id. intros k s _. apply not_elem_of_nil. }
  apply NoDup_cons in Hnd as [Hid Hnd].
  destruct (Hall at_ id) as (s & Hs & Hf & Ha & Hk); [left|].
  assert (forall at' id', (at', id') ∈ all -> id' <> id) as Hne.
  { intros at' id' Hin ->. apply Hid, list_elem_of_fmap. by exists (at', id). }
  case_test; [|rewrite IH; [done|done|intros; apply Hall; by right]].
  assert (sessions (drop_session l id) = delete id (sessions l)) as Ed.
  { unfold drop_session. by rewrite Hs, Ha. }
  rewrite IH; [|done|].
  - rewrite Ed. apply map_eq. intros k. apply option_eq. intros b.
    rewrite !map_lookup_filter_Some, lookup_delete_Some. cbn. rewrite not_elem_of_cons. naive_solver.
  - intros at' id' Hin. rewrite Ed, lookup_delete_ne by (intros <-; by eapply Hne). apply Hall. by right.
Qed.

(** ** Places in the sorted list *)

#[export] Instance ended_le_anti : AntiSymm (=) ended_le.
Proof. intros [] []. unfold ended_le. cbn. intros. f_equal; lia. Qed.

Lemma filter_all (P : Z * Z -> Prop) `{!forall x, Decision (P x)} xs : Forall P xs -> filter P xs = xs.
Proof. induction 1; [done|]. rewrite filter_cons, decide_True by done. by f_equal. Qed.

(** What follows an element is greater. *)
Lemma sorted_after xs x : forall j,
  StronglySorted ended_le xs -> NoDup xs -> xs !! j = Some x ->
  (length (filter (fun y => ~ ended_le y x) xs) + S j = length xs)%nat.
Proof.
  assert (forall y, ended_le y y) as Hrefl by (intros []; unfold ended_le; cbn; lia).
  induction xs as [|y xs IH]; intros [|j] Hs Hnd Hj; simplify_eq/=;
    apply StronglySorted_inv in Hs as [Hs Hy]; apply NoDup_cons in Hnd as [Hn Hnd].
  - rewrite filter_cons, decide_False by (intros H; by apply H).
    rewrite filter_all; [lia|]. apply Forall_forall. intros z Hz Hle.
    rewrite Forall_forall in Hy. assert (z = x) by (apply (anti_symm ended_le); auto). by subst.
  - rewrite filter_cons, decide_False.
    + specialize (IH _ Hs Hnd Hj). lia.
    + intros H. apply H. rewrite Forall_forall in Hy. by eapply Hy, list_elem_of_lookup_2.
Qed.

Lemma newer_ended l p :
  ids_ok l -> newer (sessions l) p = zlen (filter (fun y => ~ ended_le y p) (ended l)).
Proof.
  intros Hid. unfold newer, zlen. f_equal. rewrite <-(size_dom (D := gset Z)).
  assert (dom (filter (fun ks => is_newer p ks = true) (sessions l)) =@{gset Z}
    list_to_set (filter (fun y => ~ ended_le y p) (ended l)).*2) as ->.
  2: { rewrite size_list_to_set, length_fmap; [done|].
    eapply sublist_NoDup; [by apply (NoDup_ended l)|]. apply fmap_sublist, sublist_filter. }
  - apply set_eq. intros k. rewrite elem_of_dom, elem_of_list_to_set, list_elem_of_fmap. split.
    + intros [s [Hs Hn]%map_lookup_filter_Some]. unfold is_newer in Hn. cbn in Hn.
      destruct (idle_at s) as [at_|] eqn:E; [|done]. bool_to_prop. exists (at_, k). split; [done|].
      apply list_elem_of_filter. split; [done|]. apply elem_of_ended; [done|]. exists s. by rewrite <-idle_at_since.
    + intros ([at_ k'] & -> & [Hn Hin]%list_elem_of_filter). cbn in *.
      apply elem_of_ended in Hin as (s & Hs & Hi); [|done]. exists s. apply map_lookup_filter_Some.
      split; [done|]. unfold is_newer. cbn. apply idle_at_since in Hi. rewrite Hi.
      by rewrite bool_decide_eq_false_2.
Qed.

Lemma sweep_sessions l t sid s :
  ids_ok l -> sessions (sweep l t) !! sid = Some s <->
  sessions l !! sid = Some s /\ ~ to_drop (sessions l) t sid s.
Proof.
  intros Hid. unfold sweep. rewrite sweep_loop_sessions; [|by apply NoDup_ended|intros *; by apply elem_of_ended].
  rewrite map_lookup_filter_Some, elem_of_dropped. cbn.
  assert (forall s', sessions l !! sid = Some s' ->
    (exists j at_, ended l !! j = Some (at_, sid) /\
       (0 + Z.of_nat j < saturating_sub (zlen (ended l)) MAX_EXITED \/ KEEP_EXITED <= saturating_sub t at_)) <->
    to_drop (sessions l) t sid s') as Hiff; [|by split; intros [Hs Hn]; (split; [done|]); rewrite ?Hiff in *].
  intros s' Hs. unfold to_drop.
  assert (forall at_, KEEP_EXITED <= saturating_sub t at_ <-> KEEP_EXITED <= t - at_) as Hkeep.
  { intros at_. unfold saturating_sub. change KEEP_EXITED with 600000. lia. }
  assert (forall j at_, ended l !! j = Some (at_, sid) ->
    newer (sessions l) (at_, sid) + Z.of_nat j + 1 = zlen (ended l)) as Hnew.
  { intros j at_ Hj. rewrite newer_ended by done. unfold zlen.
    rewrite <-(sorted_after (ended l) (at_, sid) j); [lia|apply (StronglySorted_merge_sort ended_le)| |done].
    apply (NoDup_fmap_1 snd), (NoDup_ended l Hid). }
  split.
  - intros (j & at_ & Hj & H). exists at_. pose proof (Hnew _ _ Hj).
    apply list_elem_of_lookup_2, elem_of_ended in Hj as (s1 & Hs1 & Hi); [|done]. simplify_eq.
    split; [by apply idle_at_since|]. rewrite Hkeep in H. unfold saturating_sub in H. change MAX_EXITED with 64 in *. lia.
  - intros (at_ & Hi & H). assert ((at_, sid) ∈ ended l) as Hin.
    { apply elem_of_ended; [done|]. exists s'. by rewrite <-idle_at_since. }
    apply list_elem_of_lookup in Hin as [j Hj]. exists j, at_. split; [done|]. pose proof (Hnew _ _ Hj).
    rewrite Hkeep. unfold saturating_sub. change MAX_EXITED with 64 in *. lia.
Qed.
