(* ===== verification/SessionServer.v ===== *)
(** * What the session server guarantees

    The properties of the session loop after any sequence of inputs: starts,
    attachments, kills, exits, answers of the kernel and turns of the loop in
    any order. *)

From Stdlib Require Import Strings.Byte Strings.String.
From stdpp Require Import gmap sorting.
From S2P Require Import Prelude Io Text Frame Ring Vsock SessionTypes Sessions SessionSteps SessionLinks SessionStreams SessionLive SessionKills SessionSweep.

(** ** Descriptors that will wake the loop *)

(** The descriptor is registered for the events. *)
Definition wakes (w : Watched) (events : Z) : Prop := Z.land (w_events w) events = events.

(** Whatever is left to do for a session has an event that will wake the
    loop: output that is not read waits for a client to take some, a client
    that is not read waits for the process to take input. *)
Record awake (l : Loop) (s : Session) : Prop := {
  aw_output st w : (st, w) ∈ s_outputs s ->
    wakes w IN \/
    exists aid a, aid ∈ s_attachments s /\ attachments l !! aid = Some a /\ wakes (a_sock a) OUT;
  aw_stdin : stdin_queue s <> [] -> exists w, s_stdin s = Some w /\ wakes w OUT;
  aw_process w : s_pidfd s = Some w -> wakes w IN;
  aw_finish : is_Some (s_exit s) -> s_outputs s = [] -> is_Some (finished s);
  aw_attachment aid a : aid ∈ s_attachments s -> attachments l !! aid = Some a ->
    wakes (a_sock a) RDHUP /\
    (wakes (a_sock a) IN \/ exists w, s_stdin s = Some w /\ wakes w OUT) /\
    (a_sent a < zlen (a_out a) \/ a_cursor a < ring_end (s_ring s) \/ is_Some (finished s) ->
     wakes (a_sock a) OUT);
}.

Lemma no_room_behind r h st keep :
  ring_inv r h -> keep <= ring_end r -> Ring_room r st keep <= 0 -> keep < ring_end r.
Proof.
  intros [] Hk. assert (total (ring_runs r) = ring_end r - ring_start r) as Ht by lia.
  unfold Ring_room, saturating_sub. assert (0 < BUFFER) by done.
  destruct (ring_runs r) as [|[st0 n] runs] eqn:Er; [lia|]. case_test; [|lia]. bool_to_prop.
  intros _. cbn in Ht. apply Forall_cons in inv_pos as [_ Hpos]. apply total_nonneg in Hpos. lia.
Qed.

Lemma attachment_wakes a end_ :
  let w := MkWatched 0 (attachment_events a end_) in
  wakes w RDHUP /\ (a_blocked a = false -> wakes w IN) /\
  (a_sent a < zlen (a_out a) \/ a_cursor a < end_ -> wakes w OUT).
Proof.
  unfold attachment_events, wakes. cbn [w_events]. split_and!.
  - destruct (a_blocked a), ((a_sent a <? zlen (a_out a)) || (a_cursor a <? end_)); done.
  - intros ->. by destruct ((a_sent a <? zlen (a_out a)) || (a_cursor a <? end_)).
  - intros H. case_test; [by destruct (a_blocked a)|]. bool_to_prop. lia.
Qed.

Section server.
Context `{SE : SessionEnv}.

Lemma registered_awake l sid s :
  streams [] l -> sessions l !! sid = Some s -> registered l sid s -> awake l s.
Proof.
  intros (Hwf & _ & HO & HN) Hs [R1 R2 R3 R4 R5].
  pose proof (oi_ring _ HO _ _ Hs) as Hring. pose proof (ni_stdin _ HN _ _ Hs) as [_ Hin].
  assert (forall aid a, aid ∈ s_attachments s -> attachments l !! aid = Some a ->
    a_cursor a <= ring_end (s_ring s)) as Hcur.
  { intros aid a Hai Ha. destruct (lk_back _ (proj1 Hwf) _ _ _ Hs Hai) as (a1 & ? & E). simplify_eq.
    destruct (oi_delivered _ HO aid a s Ha Hs) as (info & p & fs & Hd). apply (dl_cursor _ _ _ _ _ _ _ Hd). }
  assert (stdin_queue s <> [] -> exists w, s_stdin s = Some w /\ wakes w OUT) as Hst.
  { intros Hq. destruct (s_stdin s) as [w|] eqn:Ew; [|by destruct Hin]. exists w. split; [done|].
    unfold wakes. by rewrite (R2 _ eq_refl), bool_decide_eq_false_2. }
  split; [|done| |done|].
  - intros st w Hw. unfold wakes at 1. rewrite (R1 _ _ Hw).
    destruct (Z.ltb_spec 0 (Loop_room l sid st)) as [|Hroom]; [by left|right].
    unfold Loop_room in Hroom. rewrite Hs in Hroom.
    destruct (min_cursor l s) as [keep|] eqn:Em; [|done].
    assert (exists aid a, aid ∈ s_attachments s /\ attachments l !! aid = Some a /\ a_cursor a = keep)
      as (aid & a & Hai & Ha & <-).
    { unfold min_cursor in Em. destruct (minimum_spec (omap (fun aid => a_cursor <$> attachments l !! aid) (s_attachments s)))
        as (m & E & (aid & Hai & Ea)%list_elem_of_omap & _); [by intros E; rewrite E in Em|].
      rewrite E in Em. simplify_eq. destruct (attachments l !! aid) eqn:Ha; simplify_eq/=. eauto 6. }
    exists aid, a. split_and!; [done|done|]. destruct (R5 _ _ Hai Ha) as (Ev & _). unfold wakes. rewrite Ev.
    apply (attachment_wakes a). right. eapply no_room_behind; [done|by eapply Hcur|].
    change READ_CHUNK with 65536 in Hroom. instantiate (1 := st). lia.
  - intros w Hw. unfold wakes. by rewrite (R3 _ Hw).
  - intros aid a Hai Ha. destruct (R5 _ _ Hai Ha) as (Ev & Hb & Hf & Hc).
    destruct (attachment_wakes a (ring_end (s_ring s))) as (W1 & W2 & W3). unfold wakes in *. rewrite Ev.
    split_and!; [done| |].
    + destruct (a_blocked a) eqn:Eb; [right|left; by apply W2]. apply Hst. intros Hq.
      specialize (Hb eq_refl). rewrite Hq in Hb. by vm_compute in Hb.
    + intros [H|[H|H]]; apply W3; [by left|by right|].
      destruct (decide (a_cursor a = ring_end (s_ring s))) as [E|]; [left; auto|right].
      specialize (Hcur _ _ Hai Ha). lia.
Qed.

Lemma served_turn ins events t :
  feed_all (ins ++ [InTurn events]) (Loop_new t) = turn (feed_all ins (Loop_new t)) events.
Proof. unfold feed_all. by rewrite fold_left_app. Qed.

Lemma turn_clean ins events t : dirty_ids (feed_all (ins ++ [InTurn events]) (Loop_new t)) = ∅.
Proof.
  rewrite served_turn. unfold turn. apply settle_clean, (wf_taken []).
  set (l := fold_left _ events _). pose proof (flat_closed (fun _ => True) wf wf_flat) as HP.
  apply (timers_P HP), (commands_P HP), (fold_P (P := fun cs _ l => wf cs l) [] ∅); [|apply served_wf].
  intros l' [token flags] Hl'. by apply (event_P HP).
Qed.

(** ** What clients are told *)

Definition json_size (s : text) : Z := fold_right (fun c n => json_len c + n) 0 s.
Definition args_size (command : list text) : Z := fold_right (fun arg n => 3 + json_size arg + n) 0 command.

Lemma json_len_pos c : 1 <= json_len c.
Proof. unfold json_len, len_utf8. repeat case_match; lia. Qed.

Lemma json_size_nonneg s : 0 <= json_size s.
Proof. induction s as [|c s IH]; cbn; [lia|]. fold (json_size s). pose proof (json_len_pos c). lia. Qed.

Lemma clip_spec s : forall left_, 0 <= left_ ->
  let '(out, rest) := clip s left_ in
  out `prefix_of` s /\ 0 <= rest /\ json_size out + rest = left_ /\ (json_size s <= left_ -> out = s).
Proof.
  induction s as [|c s IH]; intros left_ Hl; cbn [clip]; [done|]. fold (json_size s).
  pose proof (json_len_pos c). pose proof (json_size_nonneg s).
  case_test; bool_to_prop.
  { split_and!; [apply prefix_nil|done|done|]. cbn. fold (json_size s). lia. }
  specialize (IH (left_ - json_len c) ltac:(lia)). destruct (clip s (left_ - json_len c)) as [out rest].
  destruct IH as (H1 & H2 & H3 & H4). cbn. fold (json_size s) (json_size out).
  split_and!; [by apply prefix_cons|done|lia|]. intros. rewrite H4 by lia. done.
Qed.

Lemma shown_loop_spec command : forall left_, 0 <= left_ ->
  let shown := shown_loop command left_ in
  args_size shown <= left_ /\
  Forall2 prefix shown (take (length shown) command) /\
  (args_size command <= left_ -> shown = command).
Proof.
  induction command as [|arg command IH]; intros left_ Hl; cbn [shown_loop]; [by split_and!|].
  pose proof (json_size_nonneg arg).
  assert (0 <= args_size command) as Hn.
  { clear. induction command as [|a cs IH]; cbn; [lia|]. fold (args_size cs). pose proof (json_size_nonneg a). lia. }
  case_test; bool_to_prop.
  { split_and!; [done|constructor|]. cbn. fold (args_size command). lia. }
  pose proof (clip_spec arg (left_ - 3) ltac:(lia)) as Hc. destruct (clip arg (left_ - 3)) as [out rest].
  destruct Hc as (H1 & H2 & H3 & H4). destruct (IH rest H2) as (I1 & I2 & I3). cbn.
  fold (args_size command) (args_size (shown_loop command rest)). split_and!; [lia|by constructor|].
  intros. assert (out = arg) as -> by (apply H4; lia). rewrite I3 by lia. done.
Qed.

(** ** How long the loop sleeps *)

Definition no_later (next : option Z) (at_ : Z) : Prop := exists n, next = Some n /\ n <= at_.

Lemma sooner_at next at_ : no_later (sooner next at_) at_.
Proof. unfold no_later, sooner. destruct next; eexists; (split; [done|lia]). Qed.
Lemma sooner_no_later next at_ at' : no_later next at' -> no_later (sooner next at_) at'.
Proof. intros (n & -> & Hn). eexists. split; [done|lia]. Qed.

Lemma due_no_later l s next at_ : no_later next at_ -> no_later (session_due l next s) at_.
Proof. intros H. unfold session_due. repeat case_match; repeat apply sooner_no_later; done. Qed.

Definition due (l : Loop) (s : Session) (at_ : Z) : Prop :=
  hangup_at s = Some at_ \/ (kills s <> [] /\ at_ = now l + KILL_TICK) \/
  (is_Some (finished s) /\ at_ = next_sweep l).

Lemma session_due_at l s next at_ : due l s at_ -> no_later (session_due l next s) at_.
Proof.
  unfold session_due. intros [->|[[Hk ->]|[[t Hf] ->]]].
  - repeat case_match; repeat first [apply sooner_at|apply sooner_no_later].
  - rewrite (bool_decide_eq_false_2 (kills s = [])) by done. case_test; [|apply sooner_no_later]; apply sooner_at.
  - rewrite (bool_decide_eq_false_2 (finished s = None)) by (by rewrite Hf). apply sooner_at.
Qed.

Lemma fold_due l s at_ ss : s ∈ ss -> due l s at_ -> forall next, no_later (fold_left (session_due l) ss next) at_.
Proof.
  intros Hin Hd. assert (forall ss next, no_later next at_ -> no_later (fold_left (session_due l) ss next) at_) as Hkeep.
  { intros ss'. induction ss' as [|x ss' IH]; intros next H; [done|]. cbn. by apply IH, due_no_later. }
  induction ss as [|x ss IH]; [by apply elem_of_nil in Hin|]. intros next. cbn.
  apply elem_of_cons in Hin as [->|Hin]; [by apply Hkeep, session_due_at|by apply IH].
Qed.

(** ** The session loop *)

(** C26: Whatever happens, the loop's tables fit together: each attachment
    belongs to one session that lists it, owners are attached, descriptors
    and epoll tokens correspond one to one, rings are well formed, an ended
    session has no open descriptor, ids are never used twice, and the count
    of running sessions is the number of unfinished ones and stays within its
    bound. *)
Theorem loop_well_formed ins t :
  let l := feed_all ins (Loop_new t) in links l /\ poll_ok l /\ ids_inv [] l.
Proof. apply served_wf. Qed.

(** C3: What an attachment has been sent, with what waits in its buffer, is
    a sequence of whole frames: first the session info, which names an offset,
    then the output of the session from that offset up to the attachment's
    cursor, no byte missing, repeated or of the wrong stream. The exit frame
    comes last, with the exit code the system reported, and only when the
    session has finished and the cursor is at the end of its output. *)
Theorem attached_client_sees_output ins t aid a :
  let l := feed_all ins (Loop_new t) in
  attachments l !! aid = Some a ->
  exists s info payload fs, sessions l !! a_session a = Some s /\
    delivered (log (os l)) s aid a info payload fs /\
    ring_end (s_ring s) = zlen (hist (log (os l)) (a_session a)).
Proof.
  intros l Ha. destruct (served_streams ins t) as (Hwf & _ & HO & _). fold l in Hwf, HO.
  destruct (lk_attachment _ (proj1 Hwf) _ _ Ha) as (_ & _ & s & Hs & _).
  destruct (oi_delivered _ HO _ _ _ Ha Hs) as (info & payload & fs & Hd).
  exists s, info, payload, fs. split_and!; [done|done|]. apply (inv_end _ _ (oi_ring _ HO _ _ Hs)).
Qed.


(** A turn of the loop comes to an end with every session that changed
    settled: no session is left marked. *)
Theorem turn_settles ins events t : dirty_ids (feed_all (ins ++ [InTurn events]) (Loop_new t)) = ∅.
Proof. apply turn_clean. Qed.

(** C5: No wakeup is lost. As long as epoll accepts what it is told, after
    every turn whatever is left to do for a session has a descriptor
    registered that will wake the loop for it. *)
Theorem no_lost_wakeup ins events t sid s :
  Forall (input_ok all_true) ins ->
  let l := feed_all (ins ++ [InTurn events]) (Loop_new t) in
  sessions l !! sid = Some s -> awake l s.
Proof.
  intros Hins l Hs. apply (registered_awake l sid); [apply served_streams|done|].
  destruct (served_live (ins ++ [InTurn events]) t) as (_ & _ & Hc).
  { apply Forall_app. split; [done|]. by repeat constructor. }
  fold l in Hc. apply Hc; [done| |set_solver].
  pose proof (turn_clean ins events t) as E. fold l in E. rewrite E. set_solver.
Qed.

(** Every kill request is answered once. Its channel waits in the queue
    with nothing reported, or waits in a session with the signal (and the
    timeout) reported, or the reports are those of a kill that is over. *)
Theorem kills_answered ins t chan :
  let l := feed_all ins (Loop_new t) in
  0 <= chan < next_chan (os l) ->
  let es := reports (log (os l)) chan in
  (chan ∈ kill_chans (cmd_queue l) /\ es = []) \/
  (exists sid w, w ∈ waits l sid /\ kw_events w = chan /\ waiting w es) \/
  answered es.
Proof.
  intros l Hc es. destruct (served_killed ins t) as (_ & []). fold l in ki_fresh, ki_waiting, ki_answered.
  destruct (decide (chan ∈ kill_chans (cmd_queue l))) as [Hq|Hq]; [left; split; [done|]; apply ki_fresh; by right|right].
  destruct (decide (map_Exists (fun _ s => chan ∈ kw_events <$> kills s) (sessions l))) as [Hw|Hw].
  - left. destruct Hw as (sid & s & Hs & (w & -> & Hw)%list_elem_of_fmap). exists sid, w.
    assert (w ∈ waits l sid) by (unfold waits; by rewrite Hs). split_and!; [done|done|]. by eapply ki_waiting.
  - right. apply ki_answered; [done|done|]. intros sid (w & Hin & E)%elem_of_wait_chans. apply Hw.
    unfold waits in Hin. destruct (sessions l !! sid) as [s|] eqn:Hs; [|by apply elem_of_nil in Hin].
    exists sid, s. split; [done|]. apply list_elem_of_fmap. eauto.
Qed.

(** No kill is left overdue: once the timers have run, every wait that
    is left has its deadline ahead. *)
Theorem kills_in_time l sid w : w ∈ waits (timers l) sid -> now l < kw_deadline w.
Proof.
  intros Hw. assert (in_time (now l) (waits (timers l) sid)) as Hall; [|by apply (proj1 (Forall_forall _ _) Hall)].
  clear w Hw. unfold timers. set (t := now l). set (l1 := fold_left (hangup t) _ l).
  match goal with |- context [next_sweep ?x <=? _] => set (l2 := x) end.
  assert (in_time t (waits l2 sid)) as H2; [|case_test; [by apply sweep_in_time|done]].
  unfold l2. case_test.
  - apply kill_timers_in_time. intros k Hk. set (l3 := commands (Loop_reap l1)) in *.
    unfold waits. destruct (sessions l3 !! k) eqn:Ek; [|constructor].
    exfalso. apply Hk, elem_of_sorted_ids. eauto.
  - bool_to_prop. rewrite no_kills by tauto. constructor.
Qed.

(** The sweep drops exactly the sessions that finished and that nobody
    is attached to or waits for, when they ended ten minutes ago or 64 of
    them ended later. *)
Theorem sweep_keeps_newest ins t at_ sid s :
  let l := feed_all ins (Loop_new t) in
  sessions (sweep l at_) !! sid = Some s <->
  sessions l !! sid = Some s /\ ~ to_drop (sessions l) at_ sid s.
Proof.
  apply sweep_sessions. intros k b Hb. destruct (served_wf ins t) as (HL & _). apply (lk_session _ HL _ _ Hb).
Qed.

(** The loop sleeps no longer than until the next hangup, the next look
    at a kill, the next sweep of an ended session, or the next try to reap. *)
Theorem timeout_covers_timers l sid s at_ :
  sessions l !! sid = Some s -> due l s at_ \/ (reap_pending l = true /\ at_ = now l + REAP_RETRY) ->
  0 <= Loop_timeout l <= Z.max 0 (at_ - now l) + 1.
Proof.
  intros Hs Hd. unfold Loop_timeout.
  match goal with |- context [fold_left ?f ?ss None] => set (next := fold_left f ss None) end.
  assert (no_later (if reap_pending l then sooner next (now l + REAP_RETRY) else next) at_) as (n & -> & Hn).
  { destruct Hd as [Hd|[-> ->]]; [|apply sooner_at].
    assert (no_later next at_) as Hn; [|case_test; [by apply sooner_no_later|done]].
    apply (fold_due l s); [|done]. apply list_elem_of_omap. exists sid. split; [|done]. apply elem_of_sorted_ids. eauto. }
  unfold saturating_sub. lia.
Qed.

(** The command a client is shown fits the room for it when it is
    written as JSON, its arguments are prefixes of the first arguments, and a
    command that fits is shown whole. *)
Theorem shown_command_fits command :
  let shown := shown_command command in
  args_size shown <= SHOWN_COMMAND /\
  Forall2 prefix shown (take (length shown) command) /\
  (args_size command <= SHOWN_COMMAND -> shown = command).
Proof. apply shown_loop_spec. done. Qed.
End server.

(** ** A run of the server *)

(** An encoder that writes an empty object, and the smallest id first. *)
#[refine] Definition sample_env : SessionEnv :=
  {| info_json _ := Some [x7b; x7d]; pick X := head (elements X) |}.
Proof.
  - intros X x H. apply elem_of_elements. destruct (elements X); simplify_eq/=. left.
  - intros X H. apply leibniz_equiv, elements_empty_iff. by destruct (elements X).
Defined.

(** A shell is started, prints, is typed to, killed and exits. *)
Definition sample_inputs : list Input :=
  [InStart (MkStart [[115; 104]] None None None None (Some 3) 77) 5 true true;
   InKernel [AnsWrite 100] [] [] [] 1 1; InTurn [];
   InKernel [AnsRead [x61; x62]; AnsWrite 3] [] [] [] 1 1; InTurn [(3, 1)];
   InKernel [AnsRead (frame_bytes STDIN [x41; x42]); AnsErr EAGAIN; AnsWrite 1] [] [] [] 1 1;
   InTurn [(5, 1); (2, 4)];
   InKill (str "1") (Some (str "int")) (Some 0); InTurn [(1, 1)]].
Definition sample : Loop := feed_all (SE := sample_env) sample_inputs (Loop_new 0).

Lemma attached_client_sees_output_witness :
  exists a s, attachments sample !! 1 = Some a /\ sessions sample !! 1 = Some s /\
    sent_to (log (os sample)) 1 ++ zdrop (a_sent a) (a_out a) =
      frames_of [(SESSION_INFO, [x7b; x7d]); (STDOUT, [x61; x62])] /\
    ring_end (s_ring s) = 2.
Proof.
  unfold sample. destruct (attachments (feed_all (SE := sample_env) sample_inputs (Loop_new 0)) !! 1) as [a|] eqn:Ha; [|vm_compute in Ha; discriminate].
  pose proof (attached_client_sees_output (SE := sample_env) sample_inputs 0 1 a) as H.
  cbv zeta in H. destruct (H Ha) as (s & info & payload & fs & Hs & Hd & Hr).
  exists a, s. vm_compute in Ha. injection Ha as <-.
  split; [reflexivity|]. split; [exact Hs|]. split; [vm_compute; reflexivity|].
  rewrite Hr. vm_compute. reflexivity.
Defined.

Lemma no_lost_wakeup_witness :
  exists s, sessions sample !! 1 = Some s /\ awake sample s.
Proof.
  unfold sample. destruct (sessions (feed_all (SE := sample_env) sample_inputs (Loop_new 0)) !! 1) as [s|] eqn:Hs;
    [|vm_compute in Hs; discriminate].
  exists s. split; [reflexivity|].
  pose proof (no_lost_wakeup (SE := sample_env) (take 8 sample_inputs) [(1, 1)] 0 1 s) as H.
  change (take 8 sample_inputs ++ [InTurn [(1, 1)]]) with sample_inputs in H.
  cbv zeta in H. apply H; [|exact Hs]. repeat (constructor; try exact I).
Defined.

Lemma kills_answered_witness :
  exists sid w, w ∈ waits sample sid /\ kw_events w = 0 /\ waiting w (reports (log (os sample)) 0).
Proof.
  unfold sample. pose proof (kills_answered (SE := sample_env) sample_inputs 0 0) as Hk.
  cbv zeta in Hk. destruct Hk as [[H _]|[H|H]].
  - vm_compute. split; congruence.
  - exfalso. vm_compute in H. inversion H.
  - exact H.
  - exfalso. vm_compute in H. inversion H.
Defined.

Lemma kills_in_time_witness :
  exists w, w ∈ waits (timers (SE := sample_env) sample) 1 /\ 3 < kw_deadline w.
Proof.
  exists (MkKillWait 0 0 5003 true). assert (MkKillWait 0 0 5003 true ∈ waits (timers (SE := sample_env) sample) 1) as Hw.
  { vm_compute. left. }
  split; [exact Hw|]. apply (kills_in_time (SE := sample_env) sample 1 _ Hw).
Defined.

Lemma timeout_covers_timers_witness :
  Loop_timeout sample <= KILL_TICK + 1.
Proof.
  assert (exists s, sessions sample !! 1 = Some s /\ kills s <> []) as (s & Hs & Hk).
  { eexists. split; [vm_compute; reflexivity|discriminate]. }
  assert (due sample s (now sample + KILL_TICK)) as Hd.
  { right. left. split; [exact Hk|reflexivity]. }
  destruct (timeout_covers_timers sample 1 s _ Hs (or_introl Hd)) as [_ H].
  transitivity (Z.max 0 (now sample + KILL_TICK - now sample) + 1); [exact H|]. change KILL_TICK with 20. lia.
Defined.
