(* ===== verification/Hub.v ===== *)
(** * Session hubs of the node daemon

    [crates/shuru-node/src/serve/hub.rs]: one guest connection per exec
    session, fanned out to its clients.

    The state behind the hub's lock is [Hub]. Every critical section is one
    function of it, and [hub_step] lets them happen in any order, as the
    clients' tasks and the reader do. A client's unbounded channel and its
    lag counter are a [Chan], which lives as long as the client's
    [Attachment]; [ch_seen] is what the client has received. The iteration
    over the clients touches each channel by itself, so its order does not
    matter. [h_log] is all output published, with its stream, from
    [h_base] on; [to_guest] the input accepted for the guest, with its
    sender, the wait for room in the writer's channel left out. *)

From Stdlib Require Import Strings.Byte.
From stdpp Require Import gmap.
From S2P Require Import Prelude Frame Ring.

Definition MAX_BEHIND : Z := Z.shiftl 1 20.
Definition READ_ON_BELOW : Z := Z.shiftl 256 10.
Definition KEPT : Z := Z.shiftl 1 20.
Definition MAX_CLIENTS : Z := 64.
Definition INPUT_CHUNK : Z := 64 * 1024.

Inductive HubEvent :=
  | Output (stream : byte) (data : bytes)
  | Exit (status : Z)
  | Error (message : bytes) (* before [from_utf8_lossy] *)
  | Behind (offset : Z)
  | Gone
  | Port (json : bytes).

Record Chan := MkChan {
  ch_queue : list (HubEvent * Z);
  ch_queued : Z;
  ch_seen : list HubEvent;
  ch_from : Z;
}.

Record Hub := MkHub {
  clients : gset Z;
  chans : gmap Z Chan;
  owner : option Z;
  next_client : Z;
  kept : list (byte * bytes);
  kept_bytes : Z;
  h_start : Z;
  h_end : Z;
  done : bool;
  closed : bool;
  to_guest : list (Z * (byte * bytes));
  h_base : Z;
  h_log : list (byte * byte);
}.

Definition set_clients (h : Hub) (cs : gset Z) (chs : gmap Z Chan) (o : option Z) : Hub :=
  MkHub cs chs o (next_client h) (kept h) (kept_bytes h) (h_start h) (h_end h) (done h) (closed h)
    (to_guest h) (h_base h) (h_log h).
Definition set_next (h : Hub) (n : Z) : Hub :=
  MkHub (clients h) (chans h) (owner h) n (kept h) (kept_bytes h) (h_start h) (h_end h) (done h) (closed h)
    (to_guest h) (h_base h) (h_log h).
Definition set_kept (h : Hub) (k : list (byte * bytes)) (n start : Z) : Hub :=
  MkHub (clients h) (chans h) (owner h) (next_client h) k n start (h_end h) (done h) (closed h)
    (to_guest h) (h_base h) (h_log h).
Definition set_output (h : Hub) (end_ : Z) (log : list (byte * byte)) : Hub :=
  MkHub (clients h) (chans h) (owner h) (next_client h) (kept h) (kept_bytes h) (h_start h) end_ (done h) (closed h)
    (to_guest h) (h_base h) log.
Definition set_done (h : Hub) (d c : bool) : Hub :=
  MkHub (clients h) (chans h) (owner h) (next_client h) (kept h) (kept_bytes h) (h_start h) (h_end h) d c
    (to_guest h) (h_base h) (h_log h).
Definition set_to_guest (h : Hub) (l : list (Z * (byte * bytes))) : Hub :=
  MkHub (clients h) (chans h) (owner h) (next_client h) (kept h) (kept_bytes h) (h_start h) (h_end h) (done h)
    (closed h) l (h_base h) (h_log h).

(** [tx.send((event, counted))] *)
Definition chan_send (c : Chan) (e : HubEvent) (counted : Z) : Chan :=
  MkChan (ch_queue c ++ [(e, counted)]) (ch_queued c) (ch_seen c) (ch_from c).
Definition chan_count (c : Chan) (n : Z) : Chan :=
  MkChan (ch_queue c) (ch_queued c + n) (ch_seen c) (ch_from c).

(** The output kept from [from] on, the first byte kept at [at_]. *)
Fixpoint replay (kept : list (byte * bytes)) (at_ from : Z) : list (HubEvent * Z) :=
  match kept with
  | [] => []
  | (stream, data) :: kept =>
      let len := zlen data in
      (if from <? at_ + len then [(Output stream (zdrop (Z.max 0 (from - at_)) data), 0)] else [])
      ++ replay kept (at_ + len) from
  end.

(** The new client, its place in the output, and the bytes it misses. *)
Definition Hub_add (h : Hub) (offset : option Z) : Hub * (Z * Z * option Z) :=
  let from := Z.min (Z.max (default (h_start h) offset) (h_start h)) (h_end h) in
  let gap := match offset with
             | Some asked => if asked <? from then Some (from - asked) else None
             | None => None
             end in
  let id := next_client h in
  let o := match owner h with Some o => o | None => id end in
  let chan := MkChan (replay (kept h) (h_start h) from) 0 [] from in
  (set_next (set_clients h (clients h ∪ {[ id ]}) (<[ id := chan ]> (chans h)) (Some o)) (id + 1), (id, from, gap)).

(** [None] is a hub that is done, [Err] one with too many clients. *)
Definition Hub_join (h : Hub) (offset : option Z) : Hub * result (option (Z * Z * option Z)) ErrorKind :=
  if done h then (h, Ok None) else
  if MAX_CLIENTS <=? Z.of_nat (size (clients h)) then (h, Err Other) else
  let '(h, a) := Hub_add h offset in (h, Ok (Some a)).

(** [Attachment] dropped. *)
Definition Hub_leave (h : Hub) (id : Z) : Hub :=
  set_clients h (clients h ∖ {[ id ]}) (delete id (chans h))
    (if bool_decide (owner h = Some id) then None else owner h).

Definition is_behind (len : Z) (c : Chan) : bool := MAX_BEHIND <? ch_queued c + len.

(** What [queue] does to the channel of a client. *)
Definition queue_chan (len offset : Z) (event : HubEvent) (c : Chan) : Chan :=
  if is_behind len c then chan_send c (Behind offset) 0
  else chan_send (chan_count c len) event len.

Definition client_behind (h : Hub) (len id : Z) : bool :=
  match chans h !! id with Some c => is_behind len c | None => false end.

Definition queue (h : Hub) (len offset : Z) (event : HubEvent) : Hub :=
  let behind := filter (fun id => client_behind h len id = true) (clients h) in
  let chs := map_imap (fun id c => Some (if bool_decide (id ∈ clients h) then queue_chan len offset event c else c))
               (chans h) in
  let o := match owner h with Some id => if bool_decide (id ∈ behind) then None else Some id | None => None end in
  set_clients h (clients h ∖ behind) chs o.

(** The oldest output goes when too much is kept. *)
Fixpoint trim_kept (k : list (byte * bytes)) (n start : Z) : list (byte * bytes) * Z * Z :=
  match k with
  | (_, old) :: ((_ :: _) as rest) =>
      if KEPT <? n then trim_kept rest (n - zlen old) (start + zlen old) else (k, n, start)
  | _ => (k, n, start)
  end.

Definition publish (h : Hub) (stream : byte) (data : bytes) : Hub :=
  let before := h_end h in
  let len := zlen data in
  let h := set_output h (h_end h + len) (h_log h ++ tag stream data) in
  let '(k, n, start) := trim_kept (kept h ++ [(stream, data)]) (kept_bytes h + len) (h_start h) in
  queue (set_kept h k n start) len before (Output stream data).

Definition notify (h : Hub) (event : bytes) : Hub := queue h (zlen event) (h_end h) (Port event).

(** The last event for everyone. *)
Definition finish (h : Hub) (event : HubEvent) : Hub :=
  let chs := map_imap (fun id c => Some (if bool_decide (id ∈ clients h) then chan_send c event 0 else c)) (chans h) in
  set_done (set_clients h ∅ chs (owner h)) true (closed h).

Definition has_room (h : Hub) (id : Z) : bool :=
  match chans h !! id with Some c => ch_queued c <? READ_ON_BELOW | None => false end.

(** Whether some client has room; a hub without clients is done. *)
Definition room (h : Hub) : Hub * option bool :=
  if bool_decide (clients h = ∅) then (set_done h true (closed h), None)
  else (h, Some (existsb (has_room h) (elements (clients h)))).

(** Input of a client, which only the owner's reaches the guest. *)
Definition input (h : Hub) (id : Z) (kind : byte) (payload : bytes) : Hub * result unit ErrorKind :=
  if done h || negb (bool_decide (id ∈ clients h)) then (h, Err BrokenPipe) else
  if bool_decide (kind = KILL) then (set_to_guest h (to_guest h ++ [(id, (kind, payload))]), Ok tt) else
  let o := match owner h with Some o => o | None => id end in
  let h := set_clients h (clients h) (chans h) (Some o) in
  if o =? id then (set_to_guest h (to_guest h ++ [(id, (kind, payload))]), Ok tt) else (h, Ok tt).

(** [data.chunks(INPUT_CHUNK)] *)
Fixpoint write_loop (fuel : nat) (h : Hub) (id : Z) (data : bytes) : Hub * result unit ErrorKind :=
  match fuel with
  | O => (h, Ok tt)
  | S fuel =>
      if bool_decide (data = []) then (h, Ok tt) else
      let '(h, r) := input h id STDIN (ztake INPUT_CHUNK data) in
      match r with Err e => (h, Err e) | Ok _ => write_loop fuel h id (zdrop INPUT_CHUNK data) end
  end.
Definition Input_write (h : Hub) (id : Z) (data : bytes) : Hub * result unit ErrorKind :=
  write_loop (length data) h id data.

(** What the API sends for an exit. *)
Definition exit_byte (payload : bytes) : Z := wrap 8 (default 1 (parse_exit_code payload)).

(** What the reader does with what it read; whether it goes on. *)
Definition on_frame (h : Hub) (frame : result (option (byte * bytes)) ErrorKind) : Hub * bool :=
  match frame with
  | Ok (Some (kind, payload)) =>
      if bool_decide (kind = STDOUT) || bool_decide (kind = STDERR) then
        (if bool_decide (payload = []) then h else publish h kind payload, true)
      else if bool_decide (kind = PORT_EVENT) then (notify h payload, true)
      else if bool_decide (kind = EXIT) then (finish h (Exit (exit_byte payload)), false)
      else if bool_decide (kind = ERROR) then (finish h (Error payload), false)
      else (h, true)
  | Ok None | Err _ => (finish h Gone, false)
  end.

(** The end of the reader: the guest connection is closed. *)
Definition tear_down (h : Hub) : Hub := set_done h true true.

(** The next event of a client, [None] when it waits or after the last. *)
Definition recv (h : Hub) (id : Z) : Hub * option HubEvent :=
  match chans h !! id with
  | Some (MkChan ((e, counted) :: q) queued seen from) =>
      (set_clients h (clients h) (<[ id := MkChan q (queued - counted) (seen ++ [e]) from ]> (chans h)) (owner h), Some e)
  | _ => (h, None)
  end.

(** A hub over a new guest connection, with its first client. *)
Definition Hub_open (output_offset : Z) (offset : option Z) : Hub * (Z * Z * option Z) :=
  Hub_add (MkHub ∅ ∅ None 0 [] 0 output_offset output_offset false false [] output_offset []) offset.

(** ** What can happen to a hub *)

Inductive HubStep :=
  | SJoin (offset : option Z)
  | SLeave (id : Z)
  | SRecv (id : Z)
  | SInput (id : Z) (kind : byte) (payload : bytes)
  | SFrame (frame : result (option (byte * bytes)) ErrorKind)
  | SRoom.

(** The reader reads and looks for room until it is torn down. *)
Definition hub_step (h : Hub) (s : HubStep) : Hub :=
  match s with
  | SJoin offset => (Hub_join h offset).1
  | SLeave id => Hub_leave h id
  | SRecv id => (recv h id).1
  | SInput id kind payload => (input h id kind payload).1
  | SFrame frame =>
      if closed h then h else
      let '(h, on) := on_frame h frame in if on : bool then h else tear_down h
  | SRoom =>
      if closed h then h else
      let '(h, r) := room h in match r with None => tear_down h | Some _ => h end
  end.

Definition hub_run (h : Hub) (steps : list HubStep) : Hub := fold_left hub_step steps h.
