(* ===== verification/HubProofs.v ===== *)
(** * What clients of a hub see

    In any order of joins, reads, departures, input and guest output, a client
    gets the session's output from its offset on, without gap or repeat; when
    it is dropped it is told exactly how far it got, and when it is told of
    the end it has got everything. *)

From Stdlib Require Import Strings.Byte.
From stdpp Require Import gmap.
From S2P Require Import Prelude Frame Ring Hub.

(** ** Events *)

Definition ev_tags (e : HubEvent) : list (byte * byte) :=
  match e with Output s d => tag s d | _ => [] end.

(** The output in events. *)
Definition outs (evs : list HubEvent) : list (byte * byte) := concat (map ev_tags evs).

(** Events after which no other comes. *)
Definition ending (e : HubEvent) : bool :=
  match e with Output _ _ | Port _ => false | _ => true end.

Definition chan_events (c : Chan) : list HubEvent := ch_seen c ++ map fst (ch_queue c).

Lemma outs_app evs1 evs2 : outs (evs1 ++ evs2) = outs evs1 ++ outs evs2.
Proof. unfold outs. by rewrite map_app, concat_app. Qed.

Lemma outs_one e : outs [e] = ev_tags e.
Proof. unfold outs. cbn. by rewrite app_nil_r. Qed.

Lemma ending_tags e : ending e = true -> ev_tags e = [].
Proof. by destruct e. Qed.

Lemma chan_send_events c e n : chan_events (chan_send c e n) = chan_events c ++ [e].
Proof. unfold chan_events. cbn. by rewrite map_app, app_assoc. Qed.

(** ** Kept output *)

Lemma tags_cons s d k : tags_of ((s, d) :: k) = tag s d ++ tags_of k.
Proof. done. Qed.

Lemma replay_outs k : forall at_ from, outs (map fst (replay k at_ from)) = zdrop (from - at_) (tags_of k).
Proof.
  induction k as [|[s d] k IH]; intros at_ from; cbn [replay].
  { unfold outs, zdrop. cbn. by rewrite drop_nil. }
  rewrite map_app, outs_app, IH, tags_cons. case_test; bool_to_prop.
  - cbn [map]. rewrite outs_one. cbn. rewrite zdrop_app_le by (rewrite zlen_tag; lia). rewrite zdrop_tag. f_equal.
    + f_equal. destruct (Z.le_ge_cases 0 (from - at_)); [by rewrite Z.max_r|].
      by rewrite Z.max_l, !zdrop_nonpos by lia.
    + apply zdrop_nonpos. lia.
  - cbn [map]. change (outs []) with (@nil (byte * byte)). rewrite app_nil_l.
    rewrite zdrop_app_ge by (rewrite zlen_tag; lia). f_equal. rewrite zlen_tag. lia.
Qed.

Lemma replay_plain k : forall at_ from,
  Forall (fun '(e, n) => ending e = false /\ n = 0) (replay k at_ from).
Proof.
  induction k as [|[s d] k IH]; intros at_ from; cbn [replay]; [constructor|].
  apply Forall_app. split; [|apply IH]. case_test; [|constructor]. by constructor.
Qed.

Lemma trim_kept_spec k : forall n start k' n' start',
  trim_kept k n start = (k', n', start') ->
  exists pre, tags_of k = pre ++ tags_of k' /\ start' = start + zlen pre /\ n' = n - zlen pre /\
    (n' <= KEPT \/ zlen k' <= 1).
Proof.
  induction k as [|[s d] k IH]; intros n start k' n' start'; cbn [trim_kept].
  { intros [= <- <- <-]. exists []. change (zlen (@nil (byte * byte))) with 0. split_and!; [done|lia|lia|right; by cbn]. }
  destruct k as [|kd k].
  { intros [= <- <- <-]. exists []. change (zlen (@nil (byte * byte))) with 0. split_and!; [done|lia|lia|right; by cbn]. }
  case_test; bool_to_prop.
  - intros H. apply IH in H as (pre & E & -> & -> & Hs). exists (tag s d ++ pre).
    rewrite tags_cons, E, app_assoc, zlen_app, zlen_tag. split_and!; [done|lia|lia|done].
  - intros [= <- <- <-]. exists []. change (zlen (@nil (byte * byte))) with 0. split_and!; [done|lia|lia|by left].
Qed.

(** ** The invariant *)

Record kept_ok (h : Hub) : Prop := {
  ko_end : h_end h = h_base h + zlen (h_log h);
  ko_start : h_base h <= h_start h <= h_end h;
  ko_kept : tags_of (kept h) = zdrop (h_start h - h_base h) (h_log h);
  ko_bytes : kept_bytes h = h_end h - h_start h;
  ko_small : kept_bytes h <= KEPT \/ zlen (kept h) <= 1;
}.

Record reg_ok (h : Hub) : Prop := {
  ro_clients : clients h ⊆ dom (chans h);
  ro_ids : forall id, id ∈ dom (chans h) -> id < next_client h;
  ro_owner : forall o, owner h = Some o -> o ∈ clients h \/ done h = true;
  ro_size : Z.of_nat (size (clients h)) <= MAX_CLIENTS;
  ro_done : done h = true -> clients h = ∅;
  ro_closed : closed h = true -> done h = true;
}.

(** Where a client is in the output. *)
Definition served_to (h : Hub) (c : Chan) (pos : Z) : Prop :=
  h_base h <= ch_from c <= pos /\ pos <= h_end h /\
  outs (chan_events c) = zslice (ch_from c - h_base h) (pos - h_base h) (h_log h).

Definition running (h : Hub) (c : Chan) : Prop :=
  served_to h c (h_end h) /\ Forall (fun e => ending e = false) (chan_events c).

Definition ended (h : Hub) (c : Chan) : Prop :=
  exists evs e pos, chan_events c = evs ++ [e] /\ Forall (fun e => ending e = false) evs /\ ending e = true /\
    served_to h c pos /\ (e = Behind pos \/ (forall o, e <> Behind o) /\ pos = h_end h /\ closed h = true).

Definition lag (c : Chan) : Z := fold_right Z.add 0 (map snd (ch_queue c)).

Record chan_ok (h : Hub) (id : Z) (c : Chan) : Prop := {
  co_view : if bool_decide (id ∈ clients h) then running h c else ended h c;
  co_lag : ch_queued c = lag c /\ Forall (fun q => 0 <= snd q) (ch_queue c) /\ ch_queued c <= MAX_BEHIND;
}.

Record hub_inv (h : Hub) : Prop := {
  hi_kept : kept_ok h;
  hi_reg : reg_ok h;
  hi_chans : map_Forall (chan_ok h) (chans h);
}.

Lemma lag_nonneg c : Forall (fun q => 0 <= snd q) (ch_queue c) -> 0 <= lag c.
Proof. unfold lag. induction 1 as [|[e n] q Hn _ IH]; cbn in *; lia. Qed.

Lemma lag_app q1 q2 :
  fold_right Z.add 0 (map snd (q1 ++ q2)) = fold_right Z.add 0 (map snd q1) + fold_right Z.add 0 (map (@snd HubEvent Z) q2).
Proof. induction q1 as [|[e n] q IH]; cbn in *; lia. Qed.

(** ** Joining *)

Lemma zero_lag q : Forall (fun '(e, n) => ending e = false /\ n = 0) q -> fold_right Z.add 0 (map (@snd HubEvent Z) q) = 0.
Proof. induction 1 as [|[e n] q [_ ->] _ IH]; cbn in *; lia. Qed.

Lemma add_inv h offset :
  hub_inv h -> done h = false -> Z.of_nat (size (clients h)) < MAX_CLIENTS -> hub_inv (Hub_add h offset).1.
Proof.
  intros [Hk Hr Hc] Hd Hs. pose proof Hk as [Hend Hst Hkept Hby Hsm]. pose proof Hr as [R1 R2 R3 R4 R5 R6].
  unfold Hub_add. set (from := Z.min _ _). assert (h_start h <= from <= h_end h) as Hfrom by (unfold from; lia).
  set (id := next_client h).
  assert (id ∉ dom (chans h)) as Hfresh by (intros H%R2; unfold id in H; lia).
  assert (id ∉ clients h) as Hnew by (intros H; apply Hfresh, R1, H).
  cbn [fst]. split.
  - by split.
  - split; cbn.
    + rewrite dom_insert_L. set_solver.
    + intros i. rewrite dom_insert_L. intros [->%elem_of_singleton|Hi%R2]%elem_of_union; [unfold id; lia|lia].
    + intros o [= <-]. left. destruct (owner h) as [o|] eqn:Eo; [|set_solver].
      destruct (R3 o eq_refl); [set_solver|congruence].
    + rewrite size_union by set_solver. rewrite size_singleton. lia.
    + congruence.
    + done.
  - cbn. apply map_Forall_insert_2.
    + split; cbn.
      * rewrite bool_decide_eq_true_2 by set_solver. split.
        -- split_and!; cbn [ch_from h_base h_end h_log set_next set_clients]; [lia|lia|lia|].
           unfold chan_events. cbn [ch_seen ch_queue app]. rewrite replay_outs, Hkept, zdrop_zdrop by lia.
           unfold zslice. rewrite ztake_ge.
           ++ f_equal. lia.
           ++ rewrite zlen_drop. lia.
        -- unfold chan_events. cbn [ch_seen ch_queue app]. apply Forall_map. eapply Forall_impl; [apply replay_plain|]. by intros [e n] [? _].
      * unfold lag. cbn [ch_queue ch_queued]. rewrite zero_lag by apply replay_plain. split_and!; [done| |by cbn].
        eapply Forall_impl; [apply replay_plain|]. intros [e n] [_ ->]. by cbn.
    + intros i c Hi. specialize (Hc i c Hi) as [V L]. split; [|done]. cbn.
      assert (i <> id) as Hne by (intros ->; apply Hfresh; by apply elem_of_dom_2 in Hi).
      replace (bool_decide (i ∈ clients h ∪ {[id]})) with (bool_decide (i ∈ clients h)); [exact V|].
      apply bool_decide_ext. set_solver.
Qed.

Lemma join_inv h offset : hub_inv h -> hub_inv (Hub_join h offset).1.
Proof.
  intros Hi. unfold Hub_join. destruct (done h) eqn:Ed; [done|]. case_test; [done|]. bool_to_prop.
  pose proof (add_inv h offset Hi Ed ltac:(lia)). by destruct (Hub_add h offset).
Qed.

Lemma leave_inv h id : hub_inv h -> hub_inv (Hub_leave h id).
Proof.
  intros [Hk Hr Hc]. pose proof Hr as [R1 R2 R3 R4 R5 R6]. unfold Hub_leave. split.
  - by destruct Hk.
  - split; cbn.
    + rewrite dom_delete_L. set_solver.
    + intros i. rewrite dom_delete_L. intros [Hi _]%elem_of_difference. by apply R2.
    + intros o. case_bool_decide as E; [done|]. intros Eo. destruct (R3 o Eo); [|by right]. left. set_solver.
    + pose proof (subseteq_size (clients h ∖ {[id]}) (clients h) ltac:(set_solver)). lia.
    + intros H%R5. set_solver.
    + done.
  - cbn. intros i c [Hne Hi]%lookup_delete_Some. specialize (Hc i c Hi) as [V L]. split; [|done]. cbn.
    replace (bool_decide (i ∈ clients h ∖ {[id]})) with (bool_decide (i ∈ clients h)); [exact V|].
    apply bool_decide_ext. set_solver.
Qed.

(** ** Output *)

Lemma slice_grows {A} (l x : list A) a b : 0 <= a -> b <= zlen l -> zslice a b (l ++ x) = zslice a b l.
Proof.
  intros Ha Hb. unfold zslice. destruct (Z.le_gt_cases a b).
  - rewrite zdrop_app_le by lia. apply ztake_app_le. rewrite zlen_drop. lia.
  - by rewrite !ztake_nonpos by lia.
Qed.

Lemma slice_to_end {A} (l x : list A) a :
  0 <= a <= zlen l -> zslice a (zlen l + zlen x) (l ++ x) = zslice a (zlen l) l ++ x.
Proof.
  intros Ha. unfold zslice. rewrite zdrop_app_le by lia. pose proof (zlen_nonneg x).
  rewrite (ztake_ge (zlen l - a)) by (rewrite zlen_drop; lia). rewrite ztake_ge; [done|]. rewrite zlen_app, zlen_drop. lia.
Qed.

Lemma zlen_tags_of_event e : 0 <= zlen (ev_tags e).
Proof. apply zlen_nonneg. Qed.

(** [h1] is [h] with more output, which its clients have yet to get. *)
Record grown (h h1 : Hub) (e : HubEvent) : Prop := {
  gr_log : h_log h1 = h_log h ++ ev_tags e;
  gr_end : h_end h1 = h_end h + zlen (ev_tags e);
  gr_base : h_base h1 = h_base h;
  gr_clients : clients h1 = clients h;
  gr_chans : chans h1 = chans h;
  gr_owner : owner h1 = owner h;
  gr_next : next_client h1 = next_client h;
  gr_done : done h1 = done h;
  gr_closed : closed h1 = closed h;
}.

(** Some client that is behind what [h1] has. *)
Lemma served_grown h h1 e h2 c pos :
  kept_ok h -> grown h h1 e -> h_log h2 = h_log h1 -> h_end h2 = h_end h1 -> h_base h2 = h_base h1 ->
  served_to h c pos -> served_to h2 c pos.
Proof.
  intros Hk G E1 E2 E3 (Hf & Hp & Ho). pose proof (ko_end _ Hk). pose proof (zlen_tags_of_event e).
  destruct G. split_and!; [congruence || lia..| |]; [lia|].
  rewrite Ho, E3, E1, gr_base0, gr_log0. symmetry. apply slice_grows; lia.
Qed.

Lemma queue_chan_running h h1 e len h2 c :
  kept_ok h -> grown h h1 e -> h_log h2 = h_log h1 -> h_end h2 = h_end h1 -> h_base h2 = h_base h1 ->
  ending e = false -> running h c ->
  if is_behind len c then ended h2 (queue_chan len (h_end h) e c) else running h2 (queue_chan len (h_end h) e c).
Proof.
  intros Hk G E1 E2 E3 He [Hs Hr]. unfold queue_chan. destruct (is_behind len c).
  - exists (chan_events c), (Behind (h_end h)), (h_end h). split_and!; [apply chan_send_events|done|done| |by left].
    destruct (served_grown h h1 e h2 c (h_end h) Hk G E1 E2 E3 Hs) as (A & B & C). split; [exact A|]. split; [exact B|].
    rewrite chan_send_events, outs_app, outs_one. cbn [ev_tags]. by rewrite app_nil_r.
  - pose proof (ko_end _ Hk) as Hend. destruct Hs as (Hf & Hp & Ho). pose proof (zlen_tags_of_event e). destruct G.
    assert (chan_events (chan_send (chan_count c len) e len) = chan_events c ++ [e]) as Ev by (rewrite chan_send_events; done).
    split.
    + split_and!; cbn [ch_from chan_send chan_count]; [congruence || lia..| |]; [lia|].
      rewrite Ev, outs_app, outs_one, Ho, E1, E2, E3, gr_log0, gr_end0, gr_base0, Hend.
      replace (h_base h + zlen (h_log h) + zlen (ev_tags e) - h_base h) with (zlen (h_log h) + zlen (ev_tags e)) by lia.
      rewrite slice_to_end by lia. do 2 f_equal. lia.
    + rewrite Ev. apply Forall_app. split; [done|]. by constructor.
Qed.

Lemma queue_chan_lag len off e c :
  0 <= len -> ch_queued c = lag c /\ Forall (fun q => 0 <= snd q) (ch_queue c) /\ ch_queued c <= MAX_BEHIND ->
  let c' := queue_chan len off e c in
  ch_queued c' = lag c' /\ Forall (fun q => 0 <= snd q) (ch_queue c') /\ ch_queued c' <= MAX_BEHIND.
Proof.
  intros Hl (Hq & Hn & Hm) c'. unfold c', queue_chan, is_behind. case_test; bool_to_prop; unfold lag in *; cbn.
  - rewrite lag_app. cbn. split_and!; [lia| |done]. apply Forall_app. split; [done|]. constructor; [by cbn|constructor].
  - rewrite lag_app. cbn. split_and!; [lia| |lia]. apply Forall_app. split; [done|]. constructor; [by cbn|constructor].
Qed.

Lemma ended_grown h h1 e h2 c :
  kept_ok h -> grown h h1 e -> h_log h2 = h_log h1 -> h_end h2 = h_end h1 -> h_base h2 = h_base h1 ->
  closed h = false -> ended h c -> ended h2 c.
Proof.
  intros Hk G E1 E2 E3 Hc (evs & x & pos & H1 & H2 & H3 & Hs & [Hx|(_ & _ & Hx)]); [|congruence].
  exists evs, x, pos. split_and!; [done..| |by left]. by eapply served_grown.
Qed.

(** Handing an event to every client. *)
Lemma queue_inv h h1 len e :
  hub_inv h -> closed h = false -> grown h h1 e -> kept_ok h1 -> ending e = false -> 0 <= len ->
  hub_inv (queue h1 len (h_end h) e).
Proof.
  intros [Hk Hr Hc] Hcl G Hk1 He Hl. pose proof Hr as [R1 R2 R3 R4 R5 R6]. pose proof G as [_ _ _ Gc Gch Go Gn Gd Gcl].
  unfold queue. set (behind := filter _ _). set (h2 := set_clients _ _ _ _).
  assert (forall id c, chans h !! id = Some c -> id ∈ behind <-> id ∈ clients h /\ is_behind len c = true) as Hbeh.
  { intros id c Hid. unfold behind. rewrite elem_of_filter, Gc. unfold client_behind. rewrite Gch, Hid. tauto. }
  split.
  - destruct Hk1. by split.
  - split; cbn.
    + rewrite Gc, Gch. intros id [Hid _]%elem_of_difference. apply R1, elem_of_dom in Hid as [c Hid].
      apply elem_of_dom. rewrite map_lookup_imap, Hid. by eexists.
    + rewrite Gch. intros id [c Hid]%elem_of_dom. rewrite map_lookup_imap in Hid. rewrite Gn. apply R2, elem_of_dom.
      destruct (chans h !! id); [by eexists|done].
    + rewrite Go. intros o. destruct (owner h) as [o'|] eqn:Eo; [|done]. case_bool_decide as Eb; [done|]. intros [= <-].
      rewrite Gd. destruct (R3 o' eq_refl); [left|by right]. rewrite Gc. set_solver.
    + pose proof (subseteq_size (clients h1 ∖ behind) (clients h1) ltac:(set_solver)). rewrite Gc in *. lia.
    + rewrite Gd. intros H%R5. rewrite Gc. set_solver.
    + rewrite Gd, Gcl. done.
  - cbn. intros id c' Hid. rewrite map_lookup_imap, Gch in Hid. destruct (chans h !! id) as [c|] eqn:Ec; [|done].
    cbn in Hid. injection Hid as <-. specialize (Hc id c Ec) as [V L]. specialize (Hbeh id c Ec). rewrite Gc.
    assert (h_log h2 = h_log h1 /\ h_end h2 = h_end h1 /\ h_base h2 = h_base h1) as (E1 & E2 & E3) by done.
    case_bool_decide as Hin.
    + split; [|by apply queue_chan_lag]. cbn [clients h2 set_clients].
      pose proof (queue_chan_running h h1 e len h2 c Hk G E1 E2 E3 He V) as Hq.
      destruct (is_behind len c) eqn:Eb.
      * rewrite bool_decide_eq_false_2 by set_solver. done.
      * rewrite bool_decide_eq_true_2; [done|]. rewrite Gc. apply elem_of_difference. split; [done|]. rewrite Hbeh. by intros [_ ?].
    + split; [|done]. cbn [clients h2 set_clients].
      rewrite bool_decide_eq_false_2 by (rewrite Gc; set_solver). eapply (ended_grown h h1 e); done.
Qed.

Lemma publish_inv h stream data : hub_inv h -> closed h = false -> hub_inv (publish h stream data).
Proof.
  intros Hi Hc. unfold publish. destruct (trim_kept _ _ _) as [[k n] start] eqn:Et. cbn in Et.
  pose proof (hi_kept _ Hi) as [Hend Hst Hk Hby Hsm].
  apply trim_kept_spec in Et as (pre & Epre & -> & -> & Hsmall). cbn [h_end h_start set_output] in *.
  assert (tags_of [(stream, data)] = tag stream data) as E1 by (rewrite tags_cons; apply app_nil_r).
  rewrite tags_of_app, E1, Hk in Epre.
  pose proof (f_equal zlen Epre) as Hlen. rewrite !zlen_app, zlen_drop, zlen_tag in Hlen.
  pose proof (zlen_nonneg pre). pose proof (zlen_nonneg (tags_of k)). pose proof (zlen_nonneg data).
  apply queue_inv; [done|done| | |done|lia].
  - split; cbn; try done. by rewrite zlen_tag.
  - split; cbn.
    + rewrite zlen_app, zlen_tag. lia.
    + lia.
    + replace (h_start h + zlen pre - h_base h) with (h_start h - h_base h + zlen pre) by lia.
      rewrite <-zdrop_zdrop, zdrop_app_le, Epre by lia. symmetry. by apply zdrop_app_exact.
    + lia.
    + done.
Qed.

Lemma notify_inv h event : hub_inv h -> closed h = false -> hub_inv (notify h event).
Proof.
  intros Hi Hc. apply queue_inv; [done|done| |apply Hi|done|apply zlen_nonneg].
  split; cbn; try done; [by rewrite app_nil_r|]. change (zlen (@nil (byte * byte))) with 0. lia.
Qed.

(** ** The end *)

Lemma ended_same h h2 c :
  h_log h2 = h_log h -> h_end h2 = h_end h -> h_base h2 = h_base h -> (closed h = true -> closed h2 = true) ->
  ended h c -> ended h2 c.
Proof.
  intros E1 E2 E3 Hc (evs & x & pos & H1 & H2 & H3 & Hs & Hx). exists evs, x, pos. unfold served_to in *.
  rewrite E1, E2, E3. destruct Hs as (? & ? & ?). destruct Hx as [Hx|(Hx & Hp & Hcl)]; split_and!; try done; auto; lia.
Qed.

Lemma finish_inv h e :
  hub_inv h -> closed h = false -> ending e = true -> (forall o, e <> Behind o) -> hub_inv (tear_down (finish h e)).
Proof.
  intros [Hk Hr Hc] Hcl He Hb. pose proof Hr as [R1 R2 R3 R4 R5 R6]. split.
  - by destruct Hk.
  - split; cbn.
    + set_solver.
    + intros id [c Hid]%elem_of_dom. rewrite map_lookup_imap in Hid. apply R2, elem_of_dom.
      destruct (chans h !! id); [by eexists|done].
    + intros o Ho. by right.
    + rewrite size_empty. unfold MAX_CLIENTS. lia.
    + done.
    + done.
  - cbn. intros id c' Hid. rewrite map_lookup_imap in Hid. destruct (chans h !! id) as [c|] eqn:Ec; [|done].
    cbn in Hid. injection Hid as <-. specialize (Hc id c Ec) as [V L]. case_bool_decide as Hin.
    + destruct V as [(Hf & Hp & Ho) Hrun]. split.
      * cbn. exists (chan_events c), e, (h_end h). rewrite chan_send_events. split; [done|]. split; [done|]. split; [done|].
        split; [|by right]. split; [exact Hf|]. split; [exact Hp|]. cbn [h_base h_log tear_down set_done finish set_clients].
        rewrite chan_send_events, outs_app, outs_one, ending_tags, app_nil_r by done. exact Ho.
      * destruct L as (Hq & Hn & Hm). unfold lag in *. cbn. rewrite lag_app. cbn. split_and!; [lia| |done].
        apply Forall_app. split; [done|]. constructor; [by cbn|constructor].
    + split; [|done]. cbn. by eapply (ended_same h).
Qed.

Lemma room_inv h : hub_inv h -> let '(h', r) := room h in hub_inv (match r with None => tear_down h' | Some _ => h' end).
Proof.
  intros Hi. pose proof Hi as [Hk Hr Hc]. unfold room. case_bool_decide as E; [|done].
  pose proof Hr as [R1 R2 R3 R4 R5 R6]. split.
  - by destruct Hk.
  - split; cbn; try done. intros o Ho. by right.
  - cbn. intros id c Hid. specialize (Hc id c Hid) as [V L]. split; [|done]. cbn.
    rewrite E in *. rewrite bool_decide_eq_false_2 in * by set_solver. by eapply (ended_same h).
Qed.

(** Clients and their channels stay, output stays. *)
Lemma owner_inv h o l :
  hub_inv h -> (forall x, o = Some x -> x ∈ clients h \/ done h = true) ->
  hub_inv (set_to_guest (set_clients h (clients h) (chans h) o) l).
Proof.
  intros [Hk Hr Hc] Ho. destruct Hr as [R1 R2 R3 R4 R5 R6]. split; [by destruct Hk|by split|].
  cbn. intros id c Hid. specialize (Hc id c Hid) as [V L]. by split.
Qed.

Lemma input_inv h id kind payload : hub_inv h -> hub_inv (input h id kind payload).1.
Proof.
  intros Hi. pose proof (ro_owner _ (hi_reg _ Hi)) as Ho. unfold input. case_test; [done|]. bool_to_prop.
  assert (forall l, hub_inv (set_to_guest h l)) as Hl.
  { intros l. pose proof (owner_inv h (owner h) l Hi Ho) as H'. by destruct h. }
  case_bool_decide; [apply Hl|].
  assert (forall x, Some (match owner h with Some o => o | None => id end) = Some x -> x ∈ clients h \/ done h = true) as Ho'.
  { intros x [= <-]. destruct (owner h) as [o|] eqn:E; [by apply Ho|by left]. }
  case_test; [by apply owner_inv|].
  pose proof (owner_inv h _ (to_guest h) Hi Ho') as H'. by destruct h.
Qed.

Lemma recv_inv h id : hub_inv h -> hub_inv (recv h id).1.
Proof.
  intros Hi. pose proof Hi as [Hk Hr Hc]. unfold recv.
  destruct (chans h !! id) as [[q queued seen from]|] eqn:E; [|done]. destruct q as [|[e n] q]; [done|].
  pose proof Hr as [R1 R2 R3 R4 R5 R6]. split.
  - by destruct Hk.
  - split; cbn; try done.
    + rewrite dom_insert_L. set_solver.
    + intros i. rewrite dom_insert_L. intros [->%elem_of_singleton|Hi']%elem_of_union; [|by apply R2].
      apply R2, elem_of_dom. by eexists.
  - cbn. apply map_Forall_insert_2; [|intros i c Hic; specialize (Hc i c Hic) as [V L]; by split].
    specialize (Hc id _ E) as [V L]. set (c := MkChan ((e, n) :: q) queued seen from) in *.
    set (c' := MkChan q (queued - n) (seen ++ [e]) from).
    assert (chan_events c' = chan_events c) as Ev by (unfold chan_events; cbn; by rewrite <-app_assoc).
    split.
    + cbn. unfold running, ended, served_to in *. rewrite Ev. exact V.
    + destruct L as (Hq & Hn & Hm). unfold lag in *. cbn in *. apply Forall_cons in Hn as [Hn1 Hn]. cbn in Hn1.
      split_and!; [lia|done|lia].
Qed.

Lemma frame_inv h frame : hub_inv h -> hub_inv (hub_step h (SFrame frame)).
Proof.
  intros Hi. cbn. destruct (closed h) eqn:Ec; [done|]. unfold on_frame.
  destruct frame as [[[kind payload]|]|]; [|by apply finish_inv..].
  case_test; [destruct (bool_decide (payload = [])); [done|by apply publish_inv]|].
  destruct (bool_decide (kind = PORT_EVENT)); [by apply notify_inv|].
  destruct (bool_decide (kind = EXIT)); [by apply finish_inv|].
  destruct (bool_decide (kind = ERROR)); [by apply finish_inv|done].
Qed.

Lemma hub_step_inv h s : hub_inv h -> hub_inv (hub_step h s).
Proof.
  intros Hi. destruct s as [offset|id|id|id kind payload|frame|].
  - by apply join_inv.
  - by apply leave_inv.
  - by apply recv_inv.
  - by apply input_inv.
  - by apply frame_inv.
  - cbn. destruct (closed h); [done|]. pose proof (room_inv h Hi). by destruct (room h).
Qed.

Lemma open_inv base off : hub_inv (Hub_open base off).1.
Proof.
  apply add_inv; [|done|cbn; rewrite size_empty; unfold MAX_CLIENTS; lia]. split.
  - split; cbn; [change (zlen (@nil (byte * byte))) with 0; lia|lia| |lia|by left].
    unfold zdrop. by rewrite drop_nil.
  - split; cbn; done.
  - apply map_Forall_empty.
Qed.

Lemma hub_run_inv steps : forall h, hub_inv h -> hub_inv (hub_run h steps).
Proof. induction steps as [|s steps IH]; intros h Hi; [done|]. apply IH. by apply hub_step_inv. Qed.

(** ** What a client gets *)

Lemma cut_in_front {A} (l1 l2 evs : list A) (e : A) x :
  l1 ++ l2 = evs ++ [e] -> x ∈ l1 -> x ∉ evs -> l1 = evs ++ [e] /\ l2 = [] /\ x = e.
Proof.
  intros E Hx Hn. destruct l2 as [|y l2 _] using rev_ind.
  - rewrite app_nil_r in E. subst l1. apply elem_of_app in Hx as [Hx|Hx]; [done|].
    apply list_elem_of_singleton in Hx. done.
  - rewrite app_assoc in E. apply app_inj_tail in E as [E ->]. exfalso. apply Hn. rewrite <-E. apply elem_of_app. by left.
Qed.

Lemma outs_prefix (l1 l2 log : list (byte * byte)) a b :
  0 <= a -> a <= b -> b <= zlen log -> l1 ++ l2 = zslice a b log ->
  l1 = zslice a (a + zlen l1) log /\ a + zlen l1 <= b.
Proof.
  intros Ha Hab Hb E. pose proof (f_equal zlen E) as Hz. rewrite zlen_app, zlen_slice in Hz by lia.
  pose proof (zlen_nonneg l1). pose proof (zlen_nonneg l2). split; [|lia].
  assert (zslice a b log = zslice a (a + zlen l1) log ++ zslice (a + zlen l1) b log) as E2 by (rewrite zslice_cat; lia || done).
  rewrite E2 in E. apply app_inj_1 in E as [E _]; [done|].
  assert (zlen (zslice a (a + zlen l1) log) = zlen l1) as H' by (rewrite zlen_slice; lia). apply Nat2Z.inj. symmetry. exact H'.
Qed.

(** Where a client is, whether or not it is still served. *)
Lemma chan_position h id c :
  hub_inv h -> chans h !! id = Some c ->
  exists pos, served_to h c pos /\
    (id ∈ clients h -> pos = h_end h) /\
    (forall e, e ∈ ch_seen c -> ending e = true -> ch_queue c = [] /\ id ∉ clients h /\
       (e = Behind pos \/ (forall o, e <> Behind o) /\ pos = h_end h)).
Proof.
  intros Hi Hid. pose proof (hi_chans _ Hi id c Hid) as [V _]. case_bool_decide as Hin.
  - destruct V as [Hs Hr]. exists (h_end h). split; [done|]. split; [done|]. intros e He Hend.
    unfold chan_events in Hr. apply Forall_app in Hr as [Hr _]. pose proof (proj1 (Forall_forall _ _) Hr e He). congruence.
  - destruct V as (evs & x & pos & E & Hn & Hx & Hs & Hpos). exists pos. split; [done|]. split; [done|].
    intros e He Hend. assert (e ∉ evs) as Hne.
    { intros H. pose proof (proj1 (Forall_forall _ _) Hn e H). congruence. }
    unfold chan_events in E. destruct (cut_in_front _ _ _ _ e E He Hne) as (_ & Eq & ->).
    split; [by apply map_eq_nil in Eq|]. split; [done|]. destruct Hpos as [?|(?&?&_)]; [by left|by right].
Qed.

(** C4: In any order of joins, departures, reads, input and guest output, what
    a client has received is the session's output from its offset on, without
    gap or repeat; while the hub serves it, what is queued for it completes
    that to all of the output; a client dropped for falling behind is told
    exactly the offset it got to; and one that is told of the end of the
    session has received every byte. *)
Theorem hub_client_sees_output base off steps id c :
  let h := hub_run (Hub_open base off).1 steps in
  chans h !! id = Some c ->
  let at_ := ch_from c - h_base h in
  let got := zlen (outs (ch_seen c)) in
  0 <= at_ /\ at_ + got <= zlen (h_log h) /\
  outs (ch_seen c) = zslice at_ (at_ + got) (h_log h) /\
  (id ∈ clients h -> outs (ch_seen c ++ map fst (ch_queue c)) = zdrop at_ (h_log h)) /\
  (forall o, Behind o ∈ ch_seen c -> o = ch_from c + got) /\
  (forall e, e ∈ ch_seen c -> ending e = true -> (forall o, e <> Behind o) -> outs (ch_seen c) = zdrop at_ (h_log h)).
Proof.
  intros h Hid at_ got. assert (hub_inv h) as Hi by apply hub_run_inv, open_inv.
  destruct (chan_position h id c Hi Hid) as (pos & (Hf & Hp & Ho) & Hin & Hend). pose proof (ko_end _ (hi_kept _ Hi)) as Ee.
  assert (zslice at_ (h_end h - h_base h) (h_log h) = zdrop at_ (h_log h)) as Hall.
  { unfold zslice. apply ztake_ge. rewrite zlen_drop. lia. }
  pose proof Ho as Ho'. unfold chan_events in Ho'. rewrite outs_app in Ho'.
  pose proof (f_equal zlen Ho') as Hz. rewrite zlen_app, zlen_slice in Hz by lia.
  apply outs_prefix in Ho' as [H1 H2]; [|lia..]. fold at_ in H1. fold got in H1, H2.
  assert (ch_queue c = [] -> got = pos - ch_from c) as Hq.
  { intros E. rewrite E in Hz. change (zlen (outs (map fst (@nil (HubEvent * Z))))) with 0 in Hz. unfold got. lia. }
  split_and!; [unfold at_; lia|unfold at_; lia|exact H1| | |].
  - intros Hc. specialize (Hin Hc). subst pos. fold (chan_events c). rewrite Ho. exact Hall.
  - intros o Hb. destruct (Hend _ Hb eq_refl) as (Eq & _ & [[= ->]|[Hne _]]); [|by destruct (Hne o)]. rewrite Hq by done. lia.
  - intros e He He1 Hne. destruct (Hend e He He1) as (Eq & _ & [->|[_ Hpe]]); [by destruct (Hne pos)|].
    rewrite H1, Hq, <-Hall by done. f_equal. unfold at_. lia.
Qed.

(** A client that joins at an offset the hub still keeps starts exactly
    there and is told of no gap; one that asks for older output starts at the
    oldest byte kept and is told exactly how many bytes it misses; and what
    it will get is the output from there on. *)
Theorem hub_join_is_exact base off steps o h' id from gap :
  let h := hub_run (Hub_open base off).1 steps in
  Hub_join h (Some o) = (h', Ok (Some (id, from, gap))) ->
  o <= h_end h ->
  (h_start h <= o -> from = o /\ gap = None) /\
  (o < h_start h -> from = h_start h /\ gap = Some (h_start h - o)) /\
  exists c, chans h' !! id = Some c /\ ch_seen c = [] /\ ch_from c = from /\ ch_queued c = 0 /\
    outs (map fst (ch_queue c)) = zdrop (from - h_base h) (h_log h).
Proof.
  intros h Hj Ho. assert (hub_inv h) as Hi by apply hub_run_inv, open_inv. pose proof (hi_kept _ Hi) as [E1 E2 E3 _ _].
  clearbody h. unfold Hub_join in Hj. destruct (done h); [done|]. case_test_in Hj; [done|].
  unfold Hub_add in Hj. cbn [default] in Hj. unfold Datatypes.id in Hj. set (f := Z.min _ _) in Hj. injection Hj as <- <- <- <-.
  assert (h_start h <= f <= h_end h) as Hf by (unfold f; lia).
  split_and!.
  - intros Hs. assert (f = o) as -> by (unfold f; lia). split; [done|]. destruct (Z.ltb_spec o o); [lia|done].
  - intros Hs. assert (f = h_start h) as -> by (unfold f; lia). split; [done|].
    destruct (Z.ltb_spec o (h_start h)); [done|lia].
  - eexists. split; [apply lookup_insert_eq|]. split_and!; [done..|]. cbn [ch_queue]. rewrite replay_outs, E3, zdrop_zdrop by lia.
    f_equal. lia.
Qed.

(** ** Input *)

(** Input reaches the guest only from the client that owns it, except a
    kill; a client that sends while no one owns the input becomes its owner,
    and no one else does; a client the hub does not serve gets an error and
    changes nothing; and the owner is always a client the hub serves, so one
    that left or was dropped never keeps others from the input. *)
Theorem hub_input_from_owner base off steps id kind payload h' r :
  let h := hub_run (Hub_open base off).1 steps in
  input h id kind payload = (h', r) ->
  match r with
  | Err _ => h' = h /\ (done h = true \/ id ∉ clients h)
  | Ok _ =>
      id ∈ clients h /\
      to_guest h' = to_guest h ++
        (if bool_decide (kind = KILL) || bool_decide (owner h' = Some id) then [(id, (kind, payload))] else []) /\
      (owner h <> None -> owner h' = owner h) /\
      (kind <> KILL -> owner h = None -> owner h' = Some id) /\
      (forall o, owner h' = Some o -> o ∈ clients h')
  end.
Proof.
  intros h Hin. assert (hub_inv h) as Hi by apply hub_run_inv, open_inv. clearbody h.
  pose proof (ro_owner _ (hi_reg _ Hi)) as Ho. unfold input in Hin.
  destruct (done h) eqn:Ed; [injection Hin as <- <-; split; [done|by left]|].
  destruct (bool_decide (id ∈ clients h)) eqn:Ei; bool_to_prop; cbn [orb negb] in Hin.
  2: { injection Hin as <- <-. split; [done|by right]. }
  assert (forall o, owner h = Some o -> o ∈ clients h) as Ho'.
  { intros o Eo. destruct (Ho o Eo); [done|congruence]. }
  destruct (bool_decide (kind = KILL)) eqn:Ek; bool_to_prop.
  { injection Hin as <- <-. cbn. split_and!; [done|done|done|done|exact Ho']. }
  destruct (owner h) as [o|] eqn:Eo.
  - destruct (Z.eqb_spec o id) as [->|Hne]; injection Hin as <- <-; cbn.
    + rewrite bool_decide_eq_true_2 by done. split_and!; try done; intros o [= <-]; by apply Ho'.
    + rewrite bool_decide_eq_false_2 by congruence. rewrite app_nil_r. split_and!; try done; intros x [= <-]; by apply Ho'.
  - rewrite Z.eqb_refl in Hin. injection Hin as <- <-. cbn. rewrite bool_decide_eq_true_2 by done.
    split_and!; try done; by intros o [= <-].
Qed.

Lemma hub_write_loop_spec id fuel : forall h data,
  done h = false -> id ∈ clients h -> owner h = Some id \/ owner h = None -> (length data <= fuel)%nat ->
  exists h' fs, write_loop fuel h id data = (h', Ok tt) /\ to_guest h' = to_guest h ++ map (fun p => (id, (STDIN, p))) fs /\
    concat fs = data /\ Forall (fun p => 0 < zlen p <= INPUT_CHUNK) fs.
Proof.
  induction fuel as [|fuel IH]; intros h data Hd Hc Ho Hf; cbn [write_loop].
  { exists h, []. rewrite app_nil_r. split_and!; [done|done|by destruct data; [|cbn in Hf; lia]|constructor]. }
  destruct (bool_decide (data = [])) eqn:E; bool_to_prop.
  { subst. exists h, []. rewrite app_nil_r. split_and!; [done|done|done|constructor]. }
  unfold input at 1. rewrite Hd, bool_decide_eq_true_2 by done. cbn [orb negb]. rewrite bool_decide_eq_false_2 by done.
  assert (match owner h with Some o => o | None => id end = id) as -> by (by destruct Ho as [E1|E1]; rewrite E1). rewrite Z.eqb_refl.
  set (h1 := set_to_guest _ _).
  assert (0 < zlen data) as Hz. { destruct data; [done|]. rewrite zlen_cons. pose proof (zlen_nonneg data). lia. }
  destruct (IH h1 (zdrop INPUT_CHUNK data)) as (h' & fs & -> & Ht & Hcat & Hfs); [done|done|by left| |].
  { unfold zdrop, INPUT_CHUNK. rewrite length_drop. unfold zlen in Hz. lia. }
  exists h', (ztake INPUT_CHUNK data :: fs). split_and!; [done| | |].
  - rewrite Ht. cbn. by rewrite <-app_assoc.
  - cbn. rewrite Hcat. apply ztake_zdrop.
  - constructor; [|done]. rewrite zlen_take. unfold INPUT_CHUNK. lia.
Qed.

(** What the owner writes reaches the guest whole and in order, in frames
    of at most [INPUT_CHUNK] bytes. *)
Theorem hub_write_whole h id data :
  done h = false -> id ∈ clients h -> owner h = Some id \/ owner h = None ->
  exists h' fs, Input_write h id data = (h', Ok tt) /\
    to_guest h' = to_guest h ++ map (fun p => (id, (STDIN, p))) fs /\
    concat fs = data /\ Forall (fun p => 0 < zlen p <= INPUT_CHUNK) fs.
Proof. intros Hd Hc Ho. by apply hub_write_loop_spec. Qed.

(** Whatever its clients do, a hub has at most [MAX_CLIENTS] of them, holds
    at most [MAX_BEHIND] bytes of live output that a client has not read, and
    keeps at most [KEPT] bytes for later ones, or a single frame. *)
Theorem hub_bounds base off steps :
  let h := hub_run (Hub_open base off).1 steps in
  Z.of_nat (size (clients h)) <= MAX_CLIENTS /\
  (forall id c, chans h !! id = Some c -> 0 <= lag c <= MAX_BEHIND) /\
  zlen (tags_of (kept h)) = kept_bytes h /\ (kept_bytes h <= KEPT \/ zlen (kept h) <= 1).
Proof.
  intros h. assert (hub_inv h) as Hi by apply hub_run_inv, open_inv. clearbody h.
  pose proof Hi as [[E1 E2 E3 E4 E5] Hr Hc]. split_and!; [apply Hr| | |done].
  - intros id c Hid. destruct (Hc id c Hid) as [_ (Hq & Hn & Hm)]. pose proof (lag_nonneg c Hn). lia.
  - rewrite E3, E4, zlen_drop. lia.
Qed.

(** ** Examples *)

(** Two clients; the first reads and leaves, the session ends. *)
Definition demo_steps : list HubStep :=
  [SFrame (Ok (Some (STDOUT, [x68; x69]))); SJoin (Some 101); SRecv 0; SRoom; SLeave 0;
   SFrame (Ok (Some (STDERR, [x21]))); SFrame (Ok (Some (EXIT, [x00; x00; x00; x07]))); SRecv 1; SRecv 1; SRecv 1].
Definition demo_hub : Hub := hub_run (Hub_open 100 None).1 demo_steps.

Lemma hub_client_sees_output_witness :
  match chans demo_hub !! 1 with
  | Some c => ch_seen c = [Output STDOUT [x69]; Output STDERR [x21]; Exit 7] /\
              outs (ch_seen c) = zdrop (ch_from c - h_base demo_hub) (h_log demo_hub)
  | None => False
  end.
Proof.
  unfold demo_hub. pose proof (hub_client_sees_output 100 None demo_steps 1) as H. cbv zeta in H.
  destruct (chans (hub_run (Hub_open 100 None).1 demo_steps) !! 1) as [c|] eqn:E; [|vm_compute in E; discriminate E].
  specialize (H c eq_refl) as (_ & _ & _ & _ & _ & H).
  assert (ch_seen c = [Output STDOUT [x69]; Output STDERR [x21]; Exit 7]) as Es.
  { vm_compute in E. injection E as <-. reflexivity. }
  split; [exact Es|]. refine (H (Exit 7) _ eq_refl _); [|discriminate]. rewrite Es.
  apply elem_of_cons. right. apply elem_of_cons. right. apply list_elem_of_singleton. reflexivity.
Defined.

Definition is_ok (r : result (option (Z * Z * option Z)) ErrorKind) : bool :=
  match r with Ok (Some _) => true | _ => false end.

Lemma hub_join_is_exact_witness :
  match Hub_join (hub_run (Hub_open 100 None).1 [SFrame (Ok (Some (STDOUT, [x68; x69])))]) (Some 90) with
  | (h', Ok (Some (id, from, gap))) => from = 100 /\ gap = Some 10
  | _ => False
  end.
Proof.
  pose proof (hub_join_is_exact 100 None [SFrame (Ok (Some (STDOUT, [x68; x69])))] 90) as H. cbv zeta in H.
  set (h := hub_run _ _) in *. assert (90 <= h_end h /\ 90 < h_start h /\ h_start h = 100) as (H1 & H2 & H3).
  { vm_compute. repeat split; discriminate. }
  assert (is_ok (Hub_join h (Some 90)).2 = true) as Hr by (vm_compute; reflexivity).
  destruct (Hub_join h (Some 90)) as [h' [[[[id from] gap]|]|]]; try discriminate Hr.
  destruct (H h' id from gap eq_refl H1) as (_ & H4 & _). destruct (H4 H2) as [-> ->]. rewrite H3. split; reflexivity.
Defined.

Lemma hub_input_from_owner_witness :
  match input demo_hub 1 STDIN [x61] with
  | (h', Err _) => h' = demo_hub
  | (_, Ok _) => False
  end.
Proof.
  unfold demo_hub. pose proof (hub_input_from_owner 100 None demo_steps 1 STDIN [x61]) as H. cbv zeta in H.
  assert (done (hub_run (Hub_open 100 None).1 demo_steps) = true) as Hd by (vm_compute; reflexivity).
  set (h := hub_run _ _) in *. assert (input h 1 STDIN [x61] = (h, Err BrokenPipe)) as E.
  { unfold input. rewrite Hd. reflexivity. }
  rewrite E. exact (proj1 (H _ _ E)).
Defined.

Lemma hub_write_whole_witness :
  exists h' fs, Input_write (Hub_open 0 None).1 0 [x61; x62] = (h', Ok tt) /\ concat fs = [x61; x62] /\
    to_guest h' = map (fun p => (0, (STDIN, p))) fs.
Proof.
  destruct (hub_write_whole (Hub_open 0 None).1 0 [x61; x62]) as (h' & fs & E & H1 & H2 & _).
  - reflexivity.
  - apply elem_of_union. right. apply elem_of_singleton. reflexivity.
  - left. reflexivity.
  - exists h', fs. split; [exact E|]. split; [exact H2|exact H1].
Defined.
