(* ===== verification/HubRegistry.v ===== *)
(** * One hub connection per session

    [Hubs] of [crates/shuru-node/src/serve/hub.rs]: the map from sessions to
    slots, the lock of each slot, and the lock between starts and attaches.
    Tasks run interleaved at their awaits and may be cancelled at any of them.

    A task is where it stands, [Pc]. A lock is held by the tasks whose place
    is after its acquisition: [pc_lock] for slots, [pc_reads] and [pc_writes]
    for [starting]. The guest numbers sessions upwards and answers an attach
    only to a session it has. Locking a slot and looking whether it is still
    the one in the map are one step: only the holder of a slot's lock takes it
    out of the map, and a slot taken out never returns. *)

From stdpp Require Import gmap.
From S2P Require Import Prelude.

(** What a task locks a slot for. *)
Inductive Kont :=
  | KStart (id : Z)
  | KJoin (id : Z)
  | KAttach (id : Z)
  | KRemove (hub : nat) (id : Z).

Definition k_id (k : Kont) : Z :=
  match k with KStart id | KJoin id | KAttach id | KRemove _ id => id end.

Inductive Pc :=
  | StartWait
  | StartRead
  | AttachWait (id : Z)
  | Seek (k : Kont)
  | Got (k : Kont) (slot : nat)
  | Have (k : Kont) (slot : nat)
  | Opening (id : Z) (slot : nat)
  | OpeningConn (id : Z) (slot : nat).

Definition pc_k (p : Pc) : option Kont :=
  match p with Seek k | Got k _ | Have k _ => Some k | _ => None end.

(** The slot whose lock the task holds, and the session it is for. *)
Definition pc_lock (p : Pc) : option (nat * Z) :=
  match p with
  | Have k s => Some (s, k_id k)
  | Opening id s | OpeningConn id s => Some (s, id)
  | _ => None
  end.

Definition pc_reads (p : Pc) : bool :=
  match p with
  | StartRead => true
  | _ => match pc_k p with Some (KStart _) => true | _ => false end
  end.

Definition pc_writes (p : Pc) : bool :=
  match p with
  | Opening _ _ | OpeningConn _ _ => true
  | _ => match pc_k p with Some (KAttach _) => true | _ => false end
  end.

Record SlotState := MkSlot { sl_id : Z; sl_hub : option nat }.
Record HubInfo := MkHubInfo { hs_id : Z; hs_done : bool; hs_closed : bool }.

Record Reg := MkReg {
  sessions : gmap Z nat;
  slots : gmap nat SlotState;
  hubs : gmap nat HubInfo;
  tasks : gmap nat Pc;
  guest_next : Z;
}.

Definition Reg_new (guest_next : Z) : Reg := MkReg ∅ ∅ ∅ ∅ guest_next.

Definition move (r : Reg) (t : nat) (p : Pc) : Reg :=
  MkReg (sessions r) (slots r) (hubs r) (<[ t := p ]> (tasks r)) (guest_next r).
Definition leave (r : Reg) (t : nat) : Reg :=
  MkReg (sessions r) (slots r) (hubs r) (delete t (tasks r)) (guest_next r).
Definition set_slot (r : Reg) (s : nat) (sl : SlotState) : Reg :=
  MkReg (sessions r) (<[ s := sl ]> (slots r)) (hubs r) (tasks r) (guest_next r).
Definition set_session (r : Reg) (id : Z) (s : nat) : Reg :=
  MkReg (<[ id := s ]> (sessions r)) (slots r) (hubs r) (tasks r) (guest_next r).
Definition set_hub (r : Reg) (h : nat) (x : HubInfo) : Reg :=
  MkReg (sessions r) (slots r) (<[ h := x ]> (hubs r)) (tasks r) (guest_next r).

(** [Reserved] let go of: a slot without a hub leaves the map. *)
Definition drop_reserved (r : Reg) (s : nat) : Reg :=
  match slots r !! s with
  | Some (MkSlot id None) =>
      if bool_decide (sessions r !! id = Some s)
      then MkReg (delete id (sessions r)) (slots r) (hubs r) (tasks r) (guest_next r) else r
  | _ => r
  end.

(** [*slot.hub = Some(hub)] with a new hub. *)
Definition open_hub (r : Reg) (s : nat) (id : Z) (h : nat) : Reg :=
  set_slot (set_hub r h (MkHubInfo id false false)) s (MkSlot id (Some h)).

Definition slot_free (r : Reg) (s : nat) : Prop :=
  forall t p, tasks r !! t = Some p -> fst <$> pc_lock p <> Some s.
Definition no_reader (r : Reg) : Prop := forall t p, tasks r !! t = Some p -> pc_reads p = false.
Definition no_writer (r : Reg) : Prop := forall t p, tasks r !! t = Some p -> pc_writes p = false.

(** The hub in a slot, when it can be joined. *)
Definition joinable (r : Reg) (s : nat) : Prop :=
  exists sl h x, slots r !! s = Some sl /\ sl_hub sl = Some h /\ hubs r !! h = Some x /\ hs_done x = false.

(** No hub in the slot whose guest connection is open. *)
Definition slot_closed (r : Reg) (s : nat) : Prop :=
  forall sl h x, slots r !! s = Some sl -> sl_hub sl = Some h -> hubs r !! h = Some x -> hs_closed x = true.

Inductive reg_step (r : Reg) : Reg -> Prop :=
  (* A request to start a session. *)
  | st_start t : tasks r !! t = None -> reg_step r (move r t StartWait)
  | st_read t : tasks r !! t = Some StartWait -> no_writer r -> reg_step r (move r t StartRead)
  | st_started t : tasks r !! t = Some StartRead ->
      reg_step r (MkReg (sessions r) (slots r) (hubs r) (<[ t := Seek (KStart (guest_next r)) ]> (tasks r))
                    (guest_next r + 1))
  (* A request to attach to one. *)
  | st_attach t id : tasks r !! t = None -> reg_step r (move r t (Seek (KJoin id)))
  (* [lock_slot]. *)
  | st_seek t k s : tasks r !! t = Some (Seek k) -> sessions r !! k_id k = Some s -> reg_step r (move r t (Got k s))
  | st_create t k s : tasks r !! t = Some (Seek k) -> sessions r !! k_id k = None -> slots r !! s = None ->
      reg_step r (move (set_session (set_slot r s (MkSlot (k_id k) None)) (k_id k) s) t (Got k s))
  | st_lock t k s : tasks r !! t = Some (Got k s) -> slot_free r s -> sessions r !! k_id k = Some s ->
      reg_step r (move r t (Have k s))
  | st_again t k s : tasks r !! t = Some (Got k s) -> slot_free r s -> sessions r !! k_id k <> Some s ->
      reg_step r (move r t (Seek k))
  (* A started session gets its hub. *)
  | st_start_open t id s h : tasks r !! t = Some (Have (KStart id) s) -> hubs r !! h = None ->
      reg_step r (leave (open_hub r s id h) t)
  (* [join]: the hub takes the client, or there is none to join. *)
  | st_joined t id s : tasks r !! t = Some (Have (KJoin id) s) -> joinable r s ->
      reg_step r (leave (drop_reserved r s) t)
  | st_not_joined t id s : tasks r !! t = Some (Have (KJoin id) s) -> ~ joinable r s ->
      reg_step r (move (drop_reserved r s) t (AttachWait id))
  | st_write t id : tasks r !! t = Some (AttachWait id) -> no_reader r -> no_writer r ->
      reg_step r (move r t (Seek (KAttach id)))
  (* The second look, which waits for a hub that is done to close. *)
  | st_joined_late t id s : tasks r !! t = Some (Have (KAttach id) s) -> joinable r s ->
      reg_step r (leave (drop_reserved r s) t)
  | st_opening t id s : tasks r !! t = Some (Have (KAttach id) s) -> slot_closed r s ->
      reg_step r (move r t (Opening id s))
  | st_answered t id s : tasks r !! t = Some (Opening id s) -> id < guest_next r ->
      reg_step r (move r t (OpeningConn id s))
  | st_attach_open t id s h : tasks r !! t = Some (OpeningConn id s) -> hubs r !! h = None ->
      reg_step r (leave (open_hub r s id h) t)
  (* A hub ends, closes its connection, and is removed. *)
  | st_done h x : hubs r !! h = Some x -> reg_step r (set_hub r h (MkHubInfo (hs_id x) true (hs_closed x)))
  | st_closed h x t : hubs r !! h = Some x -> hs_done x = true -> tasks r !! t = None ->
      reg_step r (move (set_hub r h (MkHubInfo (hs_id x) true true)) t (Seek (KRemove h (hs_id x))))
  | st_removed t h id s sl : tasks r !! t = Some (Have (KRemove h id) s) -> slots r !! s = Some sl ->
      reg_step r (leave (drop_reserved
        (if bool_decide (sl_hub sl = Some h) then set_slot r s (MkSlot (sl_id sl) None) else r) s) t)
  (* A request fails or is cancelled. *)
  | st_cancel t p : tasks r !! t = Some p ->
      (forall h id, pc_k p <> Some (KRemove h id)) ->
      reg_step r (leave (match pc_lock p with Some (s, _) => drop_reserved r s | None => r end) t).

Inductive reg_reachable (n : Z) : Reg -> Prop :=
  | rr_new : reg_reachable n (Reg_new n)
  | rr_step r r' : reg_reachable n r -> reg_step r r' -> reg_reachable n r'.

(** ** The invariant *)

(** Who a session's guest connection belongs to: a hub, a start that has its
    answer, or an attach that has asked for it. *)
Inductive Holder := HubConn (h : nat) | StartConn (t : nat) | AttachConn (t : nat).

Definition holds (r : Reg) (id : Z) (c : Holder) : Prop :=
  match c with
  | HubConn h => exists x, hubs r !! h = Some x /\ hs_id x = id /\ hs_closed x = false
  | StartConn t => exists p, tasks r !! t = Some p /\ pc_k p = Some (KStart id)
  | AttachConn t => exists s, tasks r !! t = Some (Opening id s) \/ tasks r !! t = Some (OpeningConn id s)
  end.

(** The place asks the guest for the session in slot [s]. *)
Definition pc_opens (p : Pc) : option (nat * Z) :=
  match p with Opening id s | OpeningConn id s => Some (s, id) | _ => None end.

(** What holds of the tables, whatever the tasks. *)
Record tables_ok (r : Reg) : Prop := {
  ok_slot : forall id s, sessions r !! id = Some s -> exists sl, slots r !! s = Some sl /\ sl_id sl = id;
  ok_hub : forall h x, hubs r !! h = Some x -> hs_closed x = false ->
    exists s, sessions r !! hs_id x = Some s /\ slots r !! s = Some (MkSlot (hs_id x) (Some h));
  ok_known : forall s sl h, slots r !! s = Some sl -> sl_hub sl = Some h -> hubs r !! h <> None;
  ok_bound : forall h x, hubs r !! h = Some x -> hs_id x < guest_next r;
}.

(** What a task at [p] may count on, alone. *)
Record stands (r : Reg) (p : Pc) : Prop := {
  st_cur : forall s id, pc_lock p = Some (s, id) -> sessions r !! id = Some s;
  st_new : forall id, pc_k p = Some (KStart id) ->
    id < guest_next r /\ forall h x, hubs r !! h = Some x -> hs_id x <> id;
  st_shut : forall s id, pc_opens p = Some (s, id) -> slot_closed r s;
  st_known : forall id s, p = OpeningConn id s -> id < guest_next r;
  st_over : forall h id, pc_k p = Some (KRemove h id) -> exists x, hubs r !! h = Some x /\ hs_closed x = true;
}.

(** What two tasks may not do at once. *)
Record apart (p q : Pc) : Prop := {
  ap_slot : forall s i j, pc_lock p = Some (s, i) -> pc_lock q = Some (s, j) -> False;
  ap_rw : pc_writes p = true -> pc_reads q = true -> False;
  ap_wr : pc_reads p = true -> pc_writes q = true -> False;
  ap_ww : pc_writes p = true -> pc_writes q = true -> False;
  ap_start : forall i, pc_k p = Some (KStart i) -> pc_k q = Some (KStart i) -> False;
}.

Record reg_ok (r : Reg) : Prop := {
  ok_tables : tables_ok r;
  ok_stands : forall t p, tasks r !! t = Some p -> stands r p;
  ok_apart : forall t u p q, tasks r !! t = Some p -> tasks r !! u = Some q -> t <> u -> apart p q;
}.

Lemma apart_sym p q : apart p q -> apart q p.
Proof. intros []. split; naive_solver. Qed.

(** ** The operations keep it *)

Lemma leave_ok r t : reg_ok r -> reg_ok (leave r t).
Proof.
  intros [[] Hs Ha]. split; [split; done| |]; cbn.
  - intros u p Hu%lookup_delete_Some. destruct (Hs u p) as []; [tauto|]. split; done.
  - intros u v p q Hu%lookup_delete_Some Hv%lookup_delete_Some. apply Ha; tauto.
Qed.

Lemma move_ok r t p :
  reg_ok r -> stands r p ->
  (forall u q, tasks r !! u = Some q -> u <> t -> apart p q) -> reg_ok (move r t p).
Proof.
  intros [[] Hs Ha] Hp Hq. split; [split; done| |]; cbn.
  - intros u q [[<- <-]|[_ Hu]]%lookup_insert_Some; [destruct Hp|destruct (Hs u q Hu)]; split; done.
  - intros u v q q' [[<- <-]|[Hn Hu]]%lookup_insert_Some [[<- <-]|[Hn' Hv]]%lookup_insert_Some Hne.
    + done.
    + eauto.
    + apply apart_sym. eauto.
    + eauto.
Qed.

(** A task that goes on with no more than it had. *)
Lemma apart_less p p' q :
  (forall x, pc_lock p' = Some x -> pc_lock p = Some x) ->
  (pc_reads p' = true -> pc_reads p = true) -> (pc_writes p' = true -> pc_writes p = true) ->
  (forall id, pc_k p' = Some (KStart id) -> pc_k p = Some (KStart id)) ->
  apart p q -> apart p' q.
Proof. intros ???? []. split; naive_solver. Qed.

Lemma drop_ok r s : reg_ok r -> slot_free r s -> reg_ok (drop_reserved r s).
Proof.
  intros [[Hsl Hh Hk Hb] Hs Ha] Hf. unfold drop_reserved.
  destruct (slots r !! s) as [[id [h|]]|] eqn:Es; [done | | done].
  case_bool_decide as Hc; [|done]. split; [split| |]; cbn; try done.
  - intros i u [_ Hu]%lookup_delete_Some. eauto.
  - intros h x Hx Ho. destruct (Hh h x Hx Ho) as (u & Hu & Hus). exists u. split; [|done].
    apply lookup_delete_Some. split; [|done]. intros ->. simplify_eq.
  - intros t p Ht. destruct (Hs t p Ht). split; try done. cbn.
    intros u i Hl. apply lookup_delete_Some. split; [|eauto]. intros <-.
    specialize (st_cur0 u id Hl). simplify_eq. apply (Hf t p Ht). by rewrite Hl.
Qed.

Lemma slot_free_leave r t s id p :
  reg_ok r -> tasks r !! t = Some p -> pc_lock p = Some (s, id) -> slot_free (leave r t) s.
Proof.
  intros Hr Ht Hl u q Hu Hq. cbn in Hu. apply lookup_delete_Some in Hu as [Hne Hu]. destruct (pc_lock q) as [[s' j]|] eqn:E; [|done].
  cbn in Hq. simplify_eq. by apply (ap_slot _ _ (ok_apart r Hr t u p q Ht Hu Hne) s id j).
Qed.

Lemma leave_drop r t s : leave (drop_reserved r s) t = drop_reserved (leave r t) s.
Proof.
  unfold drop_reserved, leave. cbn. destruct (slots r !! s) as [[id [h|]]|]; [done| |done].
  by case_bool_decide.
Qed.

Lemma move_leave r t p : move (leave r t) t p = move r t p.
Proof. unfold move, leave. cbn. by rewrite insert_delete_eq. Qed.

Lemma leave_drop_ok r t s id p :
  reg_ok r -> tasks r !! t = Some p -> pc_lock p = Some (s, id) -> reg_ok (leave (drop_reserved r s) t).
Proof. intros. rewrite leave_drop. apply drop_ok; [by apply leave_ok|by eapply slot_free_leave]. Qed.

Lemma open_ok r s id h :
  reg_ok r -> slot_free r s -> sessions r !! id = Some s -> hubs r !! h = None -> id < guest_next r ->
  (forall h' x, hubs r !! h' = Some x -> hs_id x = id -> hs_closed x = true) ->
  (forall t p, tasks r !! t = Some p -> pc_k p <> Some (KStart id)) ->
  reg_ok (open_hub r s id h).
Proof.
  intros [[Hsl Hh Hk Hb] Hs Ha] Hf Hc Hn Hlt Hcl Hst.
  split; [split| |]; cbn.
  - intros i u Hu. destruct (decide (u = s)) as [->|Hne].
    + rewrite lookup_insert_eq. eexists. split; [done|]. cbn.
      destruct (Hsl _ _ Hu) as (? & ? & ?), (Hsl _ _ Hc) as (? & ? & ?). congruence.
    + rewrite lookup_insert_ne by done. eauto.
  - intros h' x [[<- <-]|[Hne Hx]]%lookup_insert_Some Ho; cbn.
    + exists s. by rewrite lookup_insert_eq.
    + destruct (Hh h' x Hx Ho) as (u & Hu & Hus). exists u. split; [done|].
      rewrite lookup_insert_ne; [done|]. intros ->.
      destruct (Hsl _ _ Hc) as (sl & Hsl' & Hid). rewrite Hus in Hsl'. injection Hsl' as <-. cbn in Hid.
      specialize (Hcl h' x Hx Hid). congruence.
  - intros u sl h' [[<- <-]|[Hne Hu]]%lookup_insert_Some Hh'; cbn in Hh'.
    + injection Hh' as <-. by rewrite lookup_insert_eq.
    + specialize (Hk u sl h' Hu Hh'). destruct (decide (h' = h)) as [->|?]; [done|].
      by rewrite lookup_insert_ne.
  - intros h' x [[<- <-]|[Hne Hx]]%lookup_insert_Some; [done|eauto].
  - intros t p Ht. destruct (Hs t p Ht) as [S1 S2 S3 S4 S5]. split; cbn; try done.
    + intros i Hi. destruct (S2 i Hi) as [? Hno]. split; [done|].
      intros h' x [[<- <-]|[Hne Hx]]%lookup_insert_Some; [|eauto]. cbn. intros ->. by apply (Hst t p).
    + intros u i Hu sl h' x Hsl' Hh' Hx. cbn in Hsl', Hx. apply lookup_insert_Some in Hsl' as [[<- <-]|[Hne Hsl']].
      * destruct (Hf t p Ht). destruct p; cbn in *; simplify_eq; done.
      * apply lookup_insert_Some in Hx as [[<- <-]|[_ Hx]]; [|by eapply (S3 u i Hu)].
        by destruct (Hk u sl h Hsl' Hh').
    + intros h' i Hi. destruct (S5 h' i Hi) as (x & Hx & Hcx). exists x. split; [|done].
      rewrite lookup_insert_ne; [done|]. congruence.
  - done.
Qed.

(** A hub that has ended, or whose connection has closed. *)
Lemma hub_over_ok r h x d c :
  reg_ok r -> hubs r !! h = Some x -> (hs_closed x = true -> c = true) ->
  reg_ok (set_hub r h (MkHubInfo (hs_id x) d c)).
Proof.
  intros [[Hsl Hh Hk Hb] Hs Ha] Hx Hc. split; [split| |]; cbn; try done.
  - intros h' y [[<- <-]|[Hne Hy]]%lookup_insert_Some Ho; cbn in *; [|eauto].
    apply Hh; [done|]. destruct (hs_closed x); [|done]. by rewrite Hc in Ho.
  - intros s sl h' Hs' Hh'. specialize (Hk s sl h' Hs' Hh').
    destruct (decide (h' = h)) as [->|?]; [by rewrite lookup_insert_eq|by rewrite lookup_insert_ne].
  - intros h' y [[<- <-]|[Hne Hy]]%lookup_insert_Some; cbn; eauto.
  - intros t p Ht. destruct (Hs t p Ht) as [S1 S2 S3 S4 S5]. split; cbn; try done.
    + intros i Hi. destruct (S2 i Hi) as [? Hno]. split; [done|].
      intros h' y [[<- <-]|[Hne Hy]]%lookup_insert_Some; cbn; eauto.
    + intros u i Hu sl h' y Hsl' Hh' Hy. cbn in *. apply lookup_insert_Some in Hy as [[<- <-]|[_ Hy]].
      * apply Hc. by eapply (S3 u i Hu).
      * by eapply (S3 u i Hu).
    + intros h' i Hi. destruct (S5 h' i Hi) as (y & Hy & Hcy).
      destruct (decide (h' = h)) as [->|?]; [|exists y; by rewrite lookup_insert_ne].
      eexists. rewrite lookup_insert_eq. split; [done|]. simplify_eq. cbn. eauto.
Qed.

(** The slot of a hub that has closed is emptied. *)
Lemma empty_ok r s sl h x :
  reg_ok r -> slots r !! s = Some sl -> sl_hub sl = Some h -> hubs r !! h = Some x -> hs_closed x = true ->
  reg_ok (set_slot r s (MkSlot (sl_id sl) None)).
Proof.
  intros [[Hsl Hh Hk Hb] Hs Ha] Hsl' Hsh Hx Hc. split; [split| |]; cbn; try done.
  - intros i u Hu. destruct (decide (u = s)) as [->|Hne].
    + rewrite lookup_insert_eq. eexists. split; [done|]. cbn. destruct (Hsl _ _ Hu) as (? & ? & ?). congruence.
    + rewrite lookup_insert_ne by done. eauto.
  - intros h' y Hy Ho. destruct (Hh h' y Hy Ho) as (u & Hu & Hus). exists u. split; [done|].
    rewrite lookup_insert_ne; [done|]. intros ->. rewrite Hus in Hsl'. injection Hsl' as <-. cbn in Hsh.
    congruence.
  - intros u sl' h' [[<- <-]|[Hne Hu]]%lookup_insert_Some Hh'; cbn in Hh'; [done|eauto].
  - intros t p Ht. destruct (Hs t p Ht) as [S1 S2 S3 S4 S5]. split; cbn; try done.
    intros u i Hu sl' h' y Hsl'' Hh' Hy. cbn in *. apply lookup_insert_Some in Hsl'' as [[<- <-]|[_ Hy']]; [done|].
    by eapply (S3 u i Hu).
Qed.

(** A slot nobody has is put in the map. *)
Lemma create_ok r s id :
  reg_ok r -> sessions r !! id = None -> slots r !! s = None ->
  reg_ok (set_session (set_slot r s (MkSlot id None)) id s).
Proof.
  intros [[Hsl Hh Hk Hb] Hs Ha] Hn Hf. split; [split| |]; cbn; try done.
  - intros i u [[<- <-]|[Hne Hu]]%lookup_insert_Some.
    + rewrite lookup_insert_eq. eauto.
    + destruct (Hsl _ _ Hu) as (? & ? & ?). rewrite lookup_insert_ne by congruence. eauto.
  - intros h' y Hy Ho. destruct (Hh h' y Hy Ho) as (u & Hu & Hus). exists u.
    rewrite !lookup_insert_ne by congruence. done.
  - intros u sl' h' [[<- <-]|[Hne Hu]]%lookup_insert_Some Hh'; cbn in Hh'; [done|eauto].
  - intros t p Ht. destruct (Hs t p Ht) as [S1 S2 S3 S4 S5]. split; cbn; try done.
    + intros u i Hu. specialize (S1 u i Hu). rewrite lookup_insert_ne by congruence. done.
    + intros u i Hu sl' h' y Hsl'' Hh' Hy. cbn in *. apply lookup_insert_Some in Hsl'' as [[<- <-]|[_ Hy']]; [done|].
      by eapply (S3 u i Hu).
Qed.

(** A task goes on from [p] to [p'], with no more than it had. *)
Lemma go_ok r t p p' :
  reg_ok r -> tasks r !! t = Some p -> stands r p' ->
  (forall x, pc_lock p' = Some x -> pc_lock p = Some x) ->
  (pc_reads p' = true -> pc_reads p = true) -> (pc_writes p' = true -> pc_writes p = true) ->
  (forall id, pc_k p' = Some (KStart id) -> pc_k p = Some (KStart id)) ->
  reg_ok (move r t p').
Proof.
  intros Hr Ht Hp H1 H2 H3 H4. apply move_ok; [done..|]. intros u q Hu Hne.
  apply (apart_less p); [done..|]. by apply (ok_apart r Hr t u).
Qed.

(** A task that comes to nothing it could share. *)
Lemma plain_ok r t p :
  reg_ok r -> stands r p -> pc_lock p = None -> pc_reads p = false -> pc_writes p = false -> reg_ok (move r t p).
Proof.
  intros Hr Hp Hl Hrd Hw. apply move_ok; [done..|]. intros u q Hu Hne. split; try congruence.
  intros i Hi. destruct p; cbn in *; simplify_eq.
Qed.

Ltac stands_from H :=
  let S1 := fresh in let S2 := fresh in let S3 := fresh in let S4 := fresh in let S5 := fresh in
  destruct H as [S1 S2 S3 S4 S5]; split; cbn in *; naive_solver.

Lemma no_start_while_writing r t p u q id :
  reg_ok r -> tasks r !! t = Some p -> pc_writes p = true -> tasks (leave r t) !! u = Some q ->
  pc_k q <> Some (KStart id).
Proof.
  intros Hr Ht Hw Hu Hk. cbn in Hu. apply lookup_delete_Some in Hu as [Hne Hu].
  apply (ap_rw _ _ (ok_apart r Hr t u p q Ht Hu Hne)); [done|]. unfold pc_reads. rewrite Hk. by destruct q.
Qed.

Lemma closed_hubs r s id :
  reg_ok r -> sessions r !! id = Some s -> slot_closed r s ->
  forall h x, hubs r !! h = Some x -> hs_id x = id -> hs_closed x = true.
Proof.
  intros Hr Hs Hc h x Hx <-. destruct (hs_closed x) eqn:E; [done|].
  destruct (ok_hub r (ok_tables r Hr) h x Hx E) as (u & Hu & Hus). simplify_eq.
  rewrite <- E. by eapply (Hc _ h x Hus).
Qed.

(** Opening the hub of a session one has alone. *)
Lemma open_leave_ok r t p s id h :
  reg_ok r -> tasks r !! t = Some p -> pc_lock p = Some (s, id) -> hubs r !! h = None -> id < guest_next r ->
  (forall h' x, hubs r !! h' = Some x -> hs_id x = id -> hs_closed x = true) ->
  (forall u q, tasks (leave r t) !! u = Some q -> pc_k q <> Some (KStart id)) ->
  reg_ok (leave (open_hub r s id h) t).
Proof.
  intros Hr Ht Hl Hh Hlt Hc Hst.
  change (leave (open_hub r s id h) t) with (open_hub (leave r t) s id h).
  apply open_ok; [by apply leave_ok|by eapply slot_free_leave| |done..].
  by apply (st_cur r p (ok_stands r Hr t p Ht)).
Qed.

Lemma started_ok r t :
  reg_ok r -> tasks r !! t = Some StartRead ->
  reg_ok (MkReg (sessions r) (slots r) (hubs r) (<[ t := Seek (KStart (guest_next r)) ]> (tasks r)) (guest_next r + 1)).
Proof.
  intros Hr Ht.
  assert (Hr' : reg_ok (MkReg (sessions r) (slots r) (hubs r) (tasks r) (guest_next r + 1))).
  { destruct Hr as [[Hsl Hh Hk Hb] Hs Ha]. split; [split| |]; cbn; try done.
    - intros h x Hx. specialize (Hb h x Hx). lia.
    - intros u p Hu. destruct (Hs u p Hu) as [S1 S2 S3 S4 S5]. split; cbn; try done.
      + intros i Hi. destruct (S2 i Hi). split; [lia|done].
      + intros i s Hi. specialize (S4 i s Hi). lia. }
  apply (move_ok _ t (Seek (KStart (guest_next r))) Hr').
  - split; cbn; try done. intros ? [= <-]. split; [lia|].
    intros h x Hx. pose proof (ok_bound r (ok_tables r Hr) h x Hx). lia.
  - intros u q Hu Hne. cbn in Hu. pose proof (ok_apart r Hr t u _ _ Ht Hu (not_eq_sym Hne)) as [].
    split; try done. intros i [= <-] Hq. destruct (st_new r q (ok_stands r Hr u q Hu) _ Hq). lia.
Qed.

Lemma step_ok r r' : reg_ok r -> reg_step r r' -> reg_ok r'.
Proof.
  intros Hr Hstep. destruct Hstep as
    [t Ht|t Ht Hw|t Ht|t id Ht|t k s Ht Hs|t k s Ht Hs Hf|t k s Ht Hf Hs|t k s Ht Hf Hs|t id s h Ht Hh
    |t id s Ht Hj|t id s Ht Hj|t id Ht Hrd Hw|t id s Ht Hj|t id s Ht Hc|t id s Ht Hlt|t id s h Ht Hh
    |h x Hx|h x t Hx Hd Ht|t h id s sl Ht Hsl|t p Ht Hp];
    try (pose proof (ok_stands r Hr t _ Ht) as Hst).
  - by apply plain_ok.
  - apply move_ok; [done|by split|]. intros u q Hu _. specialize (Hw u q Hu). split; cbn; congruence.
  - by apply started_ok.
  - by apply plain_ok.
  - eapply go_ok; [done|done|stands_from Hst|naive_solver..].
  - eapply (go_ok _ t (Seek k)); [by apply create_ok|done| |done..].
    pose proof (ok_stands _ (create_ok r s (k_id k) Hr Hs Hf) t _ Ht) as Hst'. stands_from Hst'.
  - apply move_ok; [done|destruct Hst as [S1 S2 S3 S4 S5]; split; cbn in *; naive_solver|].
    intros u q Hu Hne. pose proof (ok_apart r Hr t u _ _ Ht Hu (not_eq_sym Hne)) as [].
    split; cbn in *; try done. intros s' i j [= <- <-] Hq. apply (Hf u q Hu). by rewrite Hq.
  - eapply go_ok; [done|done|stands_from Hst|naive_solver..].
  - destruct (st_new _ _ Hst id eq_refl) as [Hlt Hno].
    eapply open_leave_ok; [done..| |].
    + intros h' x Hx Hi. by destruct (Hno h' x Hx).
    + intros u q Hu Hq. cbn in Hu. apply lookup_delete_Some in Hu as [Hne Hu].
      by apply (ap_start _ _ (ok_apart r Hr t u _ _ Ht Hu Hne) id).
  - by eapply leave_drop_ok.
  - rewrite <- move_leave. apply plain_ok; [by eapply leave_drop_ok|by split|done..].
  - apply move_ok; [done|by split|]. intros u q Hu _. specialize (Hw u q Hu). specialize (Hrd u q Hu).
    split; cbn; congruence.
  - by eapply leave_drop_ok.
  - eapply go_ok; [done|done|stands_from Hst|naive_solver..].
  - eapply go_ok; [done|done|stands_from Hst|naive_solver..].
  - eapply open_leave_ok; [done..|by eapply st_known| |].
    + eapply closed_hubs; [done|by apply (st_cur _ _ Hst)|by apply (st_shut _ _ Hst s id)].
    + intros u q. by eapply no_start_while_writing.
  - by apply hub_over_ok.
  - apply plain_ok; [by apply hub_over_ok| |done..]. split; cbn; try done.
    intros ?? [= <- <-]. eexists. by rewrite lookup_insert_eq.
  - destruct (st_over _ _ Hst h id eq_refl) as (x & Hx & Hcx).
    case_bool_decide as Hb; [|by eapply leave_drop_ok].
    eapply leave_drop_ok; [by eapply empty_ok|done..].
  - destruct (pc_lock p) as [[s id]|] eqn:El; [by eapply leave_drop_ok|by apply leave_ok].
Qed.

Lemma reg_reachable_ok n r : reg_reachable n r -> reg_ok r.
Proof. induction 1; [split; [split| |]; cbn; done|by eapply step_ok]. Qed.

(** ** The theorem *)

Lemma attach_opens r t id s :
  reg_ok r -> tasks r !! t = Some (Opening id s) \/ tasks r !! t = Some (OpeningConn id s) ->
  exists p, tasks r !! t = Some p /\ pc_writes p = true /\ sessions r !! id = Some s /\ slot_closed r s.
Proof.
  intros Hr [Ht|Ht]; eexists; (split; [exact Ht|]); pose proof (ok_stands r Hr t _ Ht) as Hst;
    (split; [done|]); split; [by apply (st_cur _ _ Hst)|by eapply (st_shut _ _ Hst)
                             |by apply (st_cur _ _ Hst)|by eapply (st_shut _ _ Hst)].
Qed.

Lemma held_once r id c : reg_ok r -> holds r id c -> forall c', holds r id c' -> c = c'.
Proof.
  intros Hr Hc c' Hc'. destruct c as [h|t|t], c' as [h'|t'|t']; cbn in *.
  - destruct Hc as (x & Hx & Hi & Ho), Hc' as (x' & Hx' & Hi' & Ho').
    destruct (ok_hub r (ok_tables r Hr) h x Hx Ho) as (s & Hs & Hsl).
    destruct (ok_hub r (ok_tables r Hr) h' x' Hx' Ho') as (s' & Hs' & Hsl'). congruence.
  - destruct Hc as (x & Hx & Hi & Ho), Hc' as (p & Hp & Hk).
    by destruct (proj2 (st_new r p (ok_stands r Hr t' p Hp) id Hk) h x Hx).
  - destruct Hc as (x & Hx & Hi & Ho), Hc' as (s & Ht). destruct (attach_opens _ _ _ _ Hr Ht) as (p & _ & _ & Hs & Hcl).
    by rewrite (closed_hubs r s id Hr Hs Hcl h x Hx Hi) in Ho.
  - destruct Hc' as (x & Hx & Hi & Ho), Hc as (p & Hp & Hk).
    by destruct (proj2 (st_new r p (ok_stands r Hr t p Hp) id Hk) h' x Hx).
  - destruct Hc as (p & Hp & Hk), Hc' as (p' & Hp' & Hk'). f_equal. destruct (decide (t = t')) as [|Hne]; [done|].
    by destruct (ap_start _ _ (ok_apart r Hr t t' p p' Hp Hp' Hne) id).
  - destruct Hc as (p & Hp & Hk), Hc' as (s & Ht). destruct (attach_opens _ _ _ _ Hr Ht) as (q & Hq & Hw & _).
    destruct (decide (t' = t)) as [->|Hne]; [destruct Ht; simplify_eq|].
    by destruct (no_start_while_writing r t' q t p id Hr Hq Hw (proj2 (lookup_delete_Some _ _ _ _) (conj Hne Hp))).
  - destruct Hc' as (x & Hx & Hi & Ho), Hc as (s & Ht). destruct (attach_opens _ _ _ _ Hr Ht) as (p & _ & _ & Hs & Hcl).
    by rewrite (closed_hubs r s id Hr Hs Hcl h' x Hx Hi) in Ho.
  - destruct Hc' as (p & Hp & Hk), Hc as (s & Ht). destruct (attach_opens _ _ _ _ Hr Ht) as (q & Hq & Hw & _).
    destruct (decide (t = t')) as [->|Hne]; [destruct Ht; simplify_eq|].
    by destruct (no_start_while_writing r t q t' p id Hr Hq Hw (proj2 (lookup_delete_Some _ _ _ _) (conj Hne Hp))).
  - destruct Hc as (s & Ht), Hc' as (s' & Ht'). f_equal. destruct (decide (t = t')) as [|Hne]; [done|].
    destruct (attach_opens _ _ _ _ Hr Ht) as (q & Hq & Hw & _), (attach_opens _ _ _ _ Hr Ht') as (q' & Hq' & Hw' & _).
    by destruct (ap_ww _ _ (ok_apart r Hr t t' q q' Hq Hq' Hne)).
Qed.

(** C25: whatever starts, attaches, joins, failures, cancellations and endings
    interleave, no two parties hold a guest connection to the same session:
    of the hubs whose connection is open, the starts the guest has answered
    and the attaches that have asked for it, at most one is for a session. *)
Theorem one_guest_connection n r id c c' :
  reg_reachable n r -> holds r id c -> holds r id c' -> c = c'.
Proof. intros Hr Hc. by apply held_once; [by eapply reg_reachable_ok|]. Qed.

(** Two starts: the first has its hub, the second waits for its slot. *)
Definition demo_reg : Reg :=
  MkReg {[ 7 := 0%nat; 8 := 1%nat ]} {[ 0%nat := MkSlot 7 (Some 0%nat); 1%nat := MkSlot 8 None ]}
    {[ 0%nat := MkHubInfo 7 false false ]} {[ 1%nat := Got (KStart 8) 1%nat ]} 9.

Ltac every_task :=
  let u := fresh in let q := fresh in let Hu := fresh in
  intros u q Hu; cbn in Hu;
  repeat (apply lookup_insert_Some in Hu as [[<- <-]|[_ Hu]]; [done|]); by rewrite lookup_empty in Hu.

Lemma demo_reg_reachable : reg_reachable 7 demo_reg.
Proof.
  eassert (H : reg_reachable 7 (leave (open_hub _ 0 7 0) 0)).
  {
  1: eapply rr_step; [|apply st_start_open].
  1: eapply rr_step; [|apply (st_lock _ 0%nat (KStart 7) 0%nat)].
  1: eapply rr_step; [|apply (st_create _ 1%nat (KStart 8) 1%nat)].
  1: eapply rr_step; [|apply (st_create _ 0%nat (KStart 7) 0%nat)].
  1: eapply rr_step; [|apply (st_started _ 1%nat)].
  1: eapply rr_step; [|apply (st_started _ 0%nat)].
  1: eapply rr_step; [|apply (st_read _ 1%nat)].
  1: eapply rr_step; [|apply (st_read _ 0%nat)].
  1: eapply rr_step; [|apply (st_start _ 1%nat)].
  1: eapply rr_step; [|apply (st_start _ 0%nat)].
  1: apply rr_new.
  all: first [reflexivity|every_task]. }
  exact H.
Qed.

Lemma one_guest_connection_witness :
  holds demo_reg 7 (HubConn 0) /\ holds demo_reg 8 (StartConn 1) /\
  (forall c, holds demo_reg 7 c -> c = HubConn 0) /\ (forall c, holds demo_reg 8 c -> c = StartConn 1).
Proof.
  assert (H7 : holds demo_reg 7 (HubConn 0)) by (eexists; split; [reflexivity|done]).
  assert (H8 : holds demo_reg 8 (StartConn 1)) by (eexists; split; [reflexivity|done]).
  split; [exact H7|]. split; [exact H8|]. split; intros c Hc.
  - exact (one_guest_connection 7 demo_reg 7 c (HubConn 0) demo_reg_reachable Hc H7).
  - exact (one_guest_connection 7 demo_reg 8 c (StartConn 1) demo_reg_reachable Hc H8).
Defined.
