(* ===== verification/FsWire.v ===== *)
(** * The FUSE wire protocol of the file system device

    The first half of [crates/shuru-linux/src/kvm/virtio_fs.rs]: constants,
    the C structs of requests and replies, and the reader and writer that
    walk the descriptor spans of a request.

    A struct is read by its offsets, little endian, padding of [repr(C)]
    included. A cursor is the spans from [span_idx] on and [span_off]. The
    turn of a read that has used up its span only moves to the next, so the
    loops go down the spans. *)

From Stdlib Require Import Strings.Byte.
From S2P Require Import Prelude Vsock Queue Virtio.

Definition FUSE_KERNEL_VERSION : Z := 7.
Definition FUSE_KERNEL_MINOR_VERSION : Z := 31.
Definition FUSE_ROOT_ID : Z := 1.

Definition FUSE_LOOKUP : Z := 1.
Definition FUSE_FORGET : Z := 2.
Definition FUSE_GETATTR : Z := 3.
Definition FUSE_SETATTR : Z := 4.
Definition FUSE_MKDIR : Z := 9.
Definition FUSE_UNLINK : Z := 10.
Definition FUSE_RMDIR : Z := 11.
Definition FUSE_RENAME : Z := 12.
Definition FUSE_OPEN : Z := 14.
Definition FUSE_READ : Z := 15.
Definition FUSE_WRITE : Z := 16.
Definition FUSE_STATFS : Z := 17.
Definition FUSE_RELEASE : Z := 18.
Definition FUSE_FSYNC : Z := 20.
Definition FUSE_FLUSH : Z := 25.
Definition FUSE_INIT : Z := 26.
Definition FUSE_OPENDIR : Z := 27.
Definition FUSE_READDIR : Z := 28.
Definition FUSE_RELEASEDIR : Z := 29.
Definition FUSE_FSYNCDIR : Z := 30.
Definition FUSE_ACCESS : Z := 34.
Definition FUSE_CREATE : Z := 35.
Definition FUSE_DESTROY : Z := 38.
Definition FUSE_BATCH_FORGET : Z := 42.
Definition FUSE_READDIRPLUS : Z := 44.
Definition FUSE_RENAME2 : Z := 45.

Definition FUSE_ASYNC_READ : Z := Z.shiftl 1 0.
Definition FUSE_BIG_WRITES : Z := Z.shiftl 1 5.
Definition FUSE_DONT_MASK : Z := Z.shiftl 1 6.
Definition FUSE_DO_READDIRPLUS : Z := Z.shiftl 1 13.
Definition FUSE_READDIRPLUS_AUTO : Z := Z.shiftl 1 14.
Definition FUSE_ASYNC_DIO : Z := Z.shiftl 1 15.

Definition MAX_WRITE : Z := 128 * 1024.
Definition MAX_OPEN_FILES : Z := 512.
Definition MAX_INODES : Z := Z.shiftl 1 18.

Definition FATTR_MODE : Z := Z.shiftl 1 0.
Definition FATTR_UID : Z := Z.shiftl 1 1.
Definition FATTR_GID : Z := Z.shiftl 1 2.
Definition FATTR_SIZE : Z := Z.shiftl 1 3.
Definition FATTR_ATIME : Z := Z.shiftl 1 4.
Definition FATTR_MTIME : Z := Z.shiftl 1 5.
Definition FATTR_ATIME_NOW : Z := Z.shiftl 1 7.
Definition FATTR_MTIME_NOW : Z := Z.shiftl 1 8.

(** From [libc] on Linux. *)
Definition ENOENT : Z := 2.
Definition EIO : Z := 5.
Definition EBADF : Z := 9.
Definition EACCES : Z := 13.
Definition EINVAL : Z := 22.
Definition ENFILE : Z := 23.
Definition EMFILE : Z := 24.
Definition EROFS : Z := 30.
Definition ENOSYS : Z := 38.
Definition O_WRONLY : Z := 1.
Definition O_RDWR : Z := 2.
Definition O_CREAT : Z := 64.
Definition O_EXCL : Z := 128.
Definition O_TRUNC : Z := 512.
Definition O_APPEND : Z := 1024.
Definition UTIME_NOW : Z := Z.shiftl 1 30 - 1.
Definition UTIME_OMIT : Z := Z.shiftl 1 30 - 2.
Definition PATH_MAX : Z := 4096.
Definition S_IFMT : Z := 0xF000.

(** [x as i64] of a [u64], and [x as u32] of an [i32] *)
Definition as_i64 (x : Z) : Z := if x <? 2 ^ 63 then x else x - 2 ^ 64.

(** ** Structs *)

(** The [n] bytes at [off]. *)
Definition field (bs : bytes) (off n : Z) : Z := le_val (zslice off (off + n) bs).

Class Wire (T : Type) := { wire_size : Z; wire_of : bytes -> T }.
Arguments wire_size T {_}.

Record FuseInHeader := MkInHeader { ih_len : Z; ih_opcode : Z; ih_unique : Z; ih_nodeid : Z;
  ih_uid : Z; ih_gid : Z; ih_pid : Z }.
#[export] Instance in_header_wire : Wire FuseInHeader := { wire_size := 40;
  wire_of bs := MkInHeader (field bs 0 4) (field bs 4 4) (field bs 8 8) (field bs 16 8)
                  (field bs 24 4) (field bs 28 4) (field bs 32 4) }.

Record FuseInitIn := MkInitIn { ii_major : Z; ii_minor : Z; ii_max_readahead : Z; ii_flags : Z }.
#[export] Instance init_in_wire : Wire FuseInitIn := { wire_size := 16;
  wire_of bs := MkInitIn (field bs 0 4) (field bs 4 4) (field bs 8 4) (field bs 12 4) }.

Record FuseSetattrIn := MkSetattrIn { sa_valid : Z; sa_fh : Z; sa_size : Z; sa_lock_owner : Z; sa_atime : Z;
  sa_mtime : Z; sa_ctime : Z; sa_atimensec : Z; sa_mtimensec : Z; sa_ctimensec : Z; sa_mode : Z; sa_uid : Z; sa_gid : Z }.
#[export] Instance setattr_in_wire : Wire FuseSetattrIn := { wire_size := 88;
  wire_of bs := MkSetattrIn (field bs 0 4) (field bs 8 8) (field bs 16 8) (field bs 24 8) (field bs 32 8)
                  (field bs 40 8) (field bs 48 8) (field bs 56 4) (field bs 60 4) (field bs 64 4) (field bs 68 4)
                  (field bs 76 4) (field bs 80 4) }.

Record FuseOpenIn := MkOpenIn { oi_flags : Z }.
#[export] Instance open_in_wire : Wire FuseOpenIn := { wire_size := 8; wire_of bs := MkOpenIn (field bs 0 4) }.

Record FuseCreateIn := MkCreateIn { ci_flags : Z; ci_mode : Z; ci_umask : Z }.
#[export] Instance create_in_wire : Wire FuseCreateIn := { wire_size := 16;
  wire_of bs := MkCreateIn (field bs 0 4) (field bs 4 4) (field bs 8 4) }.

Record FuseReadIn := MkReadIn { ri_fh : Z; ri_offset : Z; ri_size : Z }.
#[export] Instance read_in_wire : Wire FuseReadIn := { wire_size := 40;
  wire_of bs := MkReadIn (field bs 0 8) (field bs 8 8) (field bs 16 4) }.

Record FuseWriteIn := MkWriteIn { wi_fh : Z; wi_offset : Z; wi_size : Z }.
#[export] Instance write_in_wire : Wire FuseWriteIn := { wire_size := 40;
  wire_of bs := MkWriteIn (field bs 0 8) (field bs 8 8) (field bs 16 4) }.

Record FuseReleaseIn := MkReleaseIn { rl_fh : Z }.
#[export] Instance release_in_wire : Wire FuseReleaseIn := { wire_size := 24; wire_of bs := MkReleaseIn (field bs 0 8) }.

Record FuseMkdirIn := MkMkdirIn { mi_mode : Z; mi_umask : Z }.
#[export] Instance mkdir_in_wire : Wire FuseMkdirIn := { wire_size := 8;
  wire_of bs := MkMkdirIn (field bs 0 4) (field bs 4 4) }.

Record FuseForgetIn := MkForgetIn { fi_nlookup : Z }.
#[export] Instance forget_in_wire : Wire FuseForgetIn := { wire_size := 8; wire_of bs := MkForgetIn (field bs 0 8) }.

Record FuseBatchForgetIn := MkBatchForgetIn { bi_count : Z }.
#[export] Instance batch_forget_in_wire : Wire FuseBatchForgetIn := { wire_size := 8;
  wire_of bs := MkBatchForgetIn (field bs 0 4) }.

Record FuseForgetOne := MkForgetOne { fo_nodeid : Z; fo_nlookup : Z }.
#[export] Instance forget_one_wire : Wire FuseForgetOne := { wire_size := 16;
  wire_of bs := MkForgetOne (field bs 0 8) (field bs 8 8) }.

Record FuseFsyncIn := MkFsyncIn { fs_fh : Z }.
#[export] Instance fsync_in_wire : Wire FuseFsyncIn := { wire_size := 16; wire_of bs := MkFsyncIn (field bs 0 8) }.

Record FuseFlushIn := MkFlushIn { fl_fh : Z }.
#[export] Instance flush_in_wire : Wire FuseFlushIn := { wire_size := 24; wire_of bs := MkFlushIn (field bs 0 8) }.

(** The [RenameIn] and [Rename2In] of [op_rename]. *)
Record RenameIn := MkRenameIn { rn_newdir : Z }.
#[export] Instance rename_in_wire : Wire RenameIn := { wire_size := 8; wire_of bs := MkRenameIn (field bs 0 8) }.
Record Rename2In := MkRename2In { rn2_newdir : Z; rn2_flags : Z }.
#[export] Instance rename2_in_wire : Wire Rename2In := { wire_size := 16;
  wire_of bs := MkRename2In (field bs 0 8) (field bs 8 4) }.

(** What [std::fs::Metadata] says of a file. *)
Record Meta := MkMeta { m_dev : Z; m_ino : Z; m_size : Z; m_blocks : Z; m_atime : Z; m_mtime : Z; m_ctime : Z;
  m_atimensec : Z; m_mtimensec : Z; m_ctimensec : Z; m_mode : Z; m_nlink : Z; m_uid : Z; m_gid : Z; m_rdev : Z;
  m_blksize : Z }.

(** [le_bytes] keeps the low bytes, as the casts do. *)
Definition FuseOutHeader (len error unique : Z) : bytes :=
  le_bytes 4 len ++ le_bytes 4 (wrap 32 error) ++ le_bytes 8 unique.

Definition FuseInitOut (minor max_readahead flags : Z) : bytes :=
  le_bytes 4 FUSE_KERNEL_VERSION ++ le_bytes 4 minor ++ le_bytes 4 max_readahead ++ le_bytes 4 flags ++
  le_bytes 2 16 ++ le_bytes 2 12 ++ le_bytes 4 MAX_WRITE ++ le_bytes 4 1 ++ le_bytes 2 (MAX_WRITE / 4096) ++
  le_bytes 2 0 ++ replicate 32 x00.

Definition attr_from_meta (ino : Z) (m : Meta) : bytes :=
  le_bytes 8 ino ++ le_bytes 8 (m_size m) ++ le_bytes 8 (m_blocks m) ++ le_bytes 8 (wrap 64 (m_atime m)) ++
  le_bytes 8 (wrap 64 (m_mtime m)) ++ le_bytes 8 (wrap 64 (m_ctime m)) ++ le_bytes 4 (wrap 32 (m_atimensec m)) ++
  le_bytes 4 (wrap 32 (m_mtimensec m)) ++ le_bytes 4 (wrap 32 (m_ctimensec m)) ++ le_bytes 4 (m_mode m) ++
  le_bytes 4 (wrap 32 (m_nlink m)) ++ le_bytes 4 (m_uid m) ++ le_bytes 4 (m_gid m) ++ le_bytes 4 (wrap 32 (m_rdev m)) ++
  le_bytes 4 (wrap 32 (m_blksize m)) ++ le_bytes 4 0.

Definition FuseEntryOut (nodeid : Z) (m : Meta) : bytes :=
  le_bytes 8 nodeid ++ le_bytes 8 0 ++ le_bytes 8 1 ++ le_bytes 8 1 ++ le_bytes 4 0 ++ le_bytes 4 0 ++
  attr_from_meta nodeid m.

Definition FuseAttrOut (nodeid : Z) (m : Meta) : bytes :=
  le_bytes 8 1 ++ le_bytes 4 0 ++ le_bytes 4 0 ++ attr_from_meta nodeid m.

Definition FuseOpenOut (fh : Z) : bytes := le_bytes 8 fh ++ le_bytes 4 0 ++ le_bytes 4 0.
Definition FuseWriteOut (size : Z) : bytes := le_bytes 4 size ++ le_bytes 4 0.
Definition FuseDirent (ino off namelen kind : Z) : bytes :=
  le_bytes 8 ino ++ le_bytes 8 off ++ le_bytes 4 namelen ++ le_bytes 4 kind.

(** The fields of [libc::statvfs] that are used. *)
Record Statvfs := MkStatvfs { f_blocks : Z; f_bfree : Z; f_bavail : Z; f_files : Z; f_ffree : Z;
  f_bsize : Z; f_namemax : Z; f_frsize : Z }.
Definition FuseStatfsOut (s : Statvfs) : bytes :=
  le_bytes 8 (f_blocks s) ++ le_bytes 8 (f_bfree s) ++ le_bytes 8 (f_bavail s) ++ le_bytes 8 (f_files s) ++
  le_bytes 8 (f_ffree s) ++ le_bytes 4 (wrap 32 (f_bsize s)) ++ le_bytes 4 (wrap 32 (f_namemax s)) ++
  le_bytes 4 (wrap 32 (f_frsize s)) ++ le_bytes 4 0 ++ replicate 24 x00.

(** ** Spans *)

Record DescSpan := MkSpan { sp_addr : Z; sp_len : Z; sp_writable : bool }.
Record Cursor := MkCursor { cu_spans : list DescSpan; cu_off : Z }.

Section spans.
Context `{GM : GuestMemory M}.
Implicit Types (mem : M) (cu : Cursor) (spans : list DescSpan).

Definition collect_desc_chain mem (q : VirtioQueueState) (head : Z) : list DescSpan :=
  map (fun desc => MkSpan (d_addr desc) (d_len desc) (has_bits (d_flags desc) VRING_DESC_F_WRITE))
    (default [] (chain q mem head (Z.lor VRING_DESC_F_NEXT VRING_DESC_F_WRITE))).

(** [need] bytes are still to be read, [acc] have been. *)
Fixpoint read_loop mem spans (off need : Z) (acc : bytes) : option bytes * Cursor :=
  if need <=? 0 then (Some acc, MkCursor spans off) else
  match spans with
  | [] => (None, MkCursor spans off)
  | span :: rest =>
      if sp_writable span then (None, MkCursor spans off) else
      let remaining := Z.max 0 (sp_len span - off) in
      if remaining =? 0 then read_loop mem rest 0 need acc else
      let chunk := Z.min need remaining in
      match read_slice mem (wrapping_add 64 (sp_addr span) off) chunk with
      | None => (None, MkCursor spans off)
      | Some bs =>
          if chunk =? need then (Some (acc ++ bs), MkCursor spans (off + chunk))
          else read_loop mem rest 0 (need - chunk) (acc ++ bs)
      end
  end.
Definition read_bytes mem cu (n : Z) : option bytes * Cursor := read_loop mem (cu_spans cu) (cu_off cu) n [].

(** [room] more bytes fit before [PATH_MAX]. *)
Fixpoint cstr_loop mem (room : nat) cu (acc : bytes) : option bytes * Cursor :=
  match read_bytes mem cu 1 with
  | (Some [b], cu) =>
      if bool_decide (b = x00) then (Some acc, cu) else
      match room with
      | O => (None, cu)
      | S room => cstr_loop mem room cu (acc ++ [b])
      end
  | (_, cu) => (None, cu)
  end.

(** The read-only spans at the start are the request. *)
Fixpoint skip_readable spans : list DescSpan :=
  match spans with
  | span :: rest => if sp_writable span then spans else skip_readable rest
  | [] => []
  end.

(** Whether all of [bs] fitted, the memory, the cursor and the bytes written. *)
Fixpoint write_loop mem spans (off : Z) (bs : bytes) (total : Z) : bool * M * Cursor * Z :=
  if zlen bs <=? 0 then (true, mem, MkCursor spans off, total) else
  match spans with
  | [] => (false, mem, MkCursor spans off, total)
  | span :: rest =>
      if negb (sp_writable span) then (false, mem, MkCursor spans off, total) else
      let remaining := Z.max 0 (sp_len span - off) in
      if remaining =? 0 then write_loop mem rest 0 bs total else
      let chunk := Z.min (zlen bs) remaining in
      match write_slice mem (wrapping_add 64 (sp_addr span) off) (ztake chunk bs) with
      | None => (false, mem, MkCursor spans off, total)
      | Some mem =>
          let total := wrapping_add 32 total chunk in
          if chunk =? zlen bs then (true, mem, MkCursor spans (off + chunk), total)
          else write_loop mem rest 0 (zdrop chunk bs) total
      end
  end.
Definition write_bytes mem cu (bs : bytes) (total : Z) : bool * M * Cursor * Z :=
  write_loop mem (cu_spans cu) (cu_off cu) bs total.

Definition rewrite_header mem spans (hdr : bytes) : M :=
  match skip_readable spans with
  | span :: _ => match write_slice mem (sp_addr span) hdr with Some mem => mem | None => mem end
  | [] => mem
  end.
End spans.
