(* ===== verification/Fs.v ===== *)
(** * The shared directory device

    [crates/shuru-linux/src/kvm/virtio_fs.rs]: a host directory served to the
    guest over FUSE. The guest names inodes by number and children by name;
    the device keeps the paths and the open files.

    The host's file system is a parameter, [host]: it answers each system
    call [Sys] and may change anything else meanwhile. [calls] records every
    call with its answer, oldest first. A path is the list of its components
    below the root of the host, as [PathBuf] compares them; the device joins
    only plain names. Open flags are the bits of the [i32]. A file dropped is
    closed. The entries of a directory are read at once. The device's thread
    is the only user of its locks. The 64-bit counters of nodes and handles
    count host calls and do not come to wrap. *)

From Stdlib Require Import Strings.Byte.
From stdpp Require Import gmap.
From S2P Require Import Prelude Vsock Queue Virtio FsWire.

Definition Path : Type := list bytes.

(** ** System calls *)

Inductive Sys : Type -> Type :=
  | SymlinkMetadata (p : Path) : Sys (result Meta (option Z))
  | Metadata (p : Path) : Sys (result Meta (option Z))
  | EntryMetadata (p : Path) : Sys (result Meta (option Z))
  | ReadDir (p : Path) : Sys (result (list (result bytes (option Z))) (option Z))
  | FileOpen (p : Path) : Sys (result Z (option Z))
  | Open (p : Path) (flags mode : Z) : Sys (result Z (option Z))
  | Close (fd : Z) : Sys unit
  | Pread (fd len offset : Z) : Sys (result bytes (option Z))
  | Pwrite (fd : Z) (data : bytes) (offset : Z) : Sys (result Z (option Z))
  | Fsync (fd : Z) : Sys (result unit (option Z))
  | StatvfsOf (p : Path) : Sys (result Statvfs (option Z))
  | Chmod (p : Path) (mode : Z) : Sys (result unit (option Z))
  | Chown (p : Path) (uid gid : Z) : Sys (result unit (option Z))
  | Truncate (p : Path) (size : Z) : Sys (result unit (option Z))
  | Utimensat (p : Path) (atime mtime : Z * Z) : Sys (result unit (option Z))
  | Unlink (p : Path) : Sys (result unit (option Z))
  | Rmdir (p : Path) : Sys (result unit (option Z))
  | Mkdir (p : Path) (mode : Z) : Sys (result unit (option Z))
  | Rename (p q : Path) : Sys (result unit (option Z)).

(** A call that was made, and its answer. *)
Inductive Called : Type :=
  | Did (A : Type) (c : Sys A) (a : A).
Arguments Did {A}.

(** [raw_os_error().unwrap_or(EIO)] *)
Definition io_errno (e : option Z) : Z := default EIO e.

(** ** Names *)

Definition is_plain_name (name : bytes) : bool :=
  if bool_decide (name = []) || bool_decide (name = [x2e]) || bool_decide (name = [x2e; x2e]) then false
  else negb (bool_decide (x2f ∈ name)) && negb (bool_decide (x00 ∈ name)).

Definition path_bytes (p : Path) : bytes := concat (map (fun name => x2f :: name) p).

(** [CString::new(path)] fails on a zero byte. *)
Definition path_cstr (p : Path) : bool := negb (bool_decide (x00 ∈ path_bytes p)).

Definition join (p : Path) (name : bytes) : Path := p ++ [name].

Definition mode_to_dt (mode : Z) : Z :=
  let m := Z.land mode S_IFMT in
  if m =? 0x8000 then 8 else if m =? 0x4000 then 4 else if m =? 0xA000 then 10 else if m =? 0x1000 then 1
  else if m =? 0xC000 then 12 else if m =? 0x2000 then 2 else if m =? 0x6000 then 6 else 0.

Definition align_up (n a : Z) : Z := Z.land (n + a - 1) (Z.lnot (a - 1)).

(** ** Tables *)

Record InodeEntry := MkInode { in_path : Path; in_refs : Z; in_ino : Z; in_dev : Z }.

Record InodeTable := MkInodes {
  it_root : Path;
  it_read_only : bool;
  by_id : gmap Z InodeEntry;
  by_hostid : gmap (Z * Z) Z;
  next_id : Z;
}.

Definition InodeTable_new (root : Path) (read_only : bool) (meta : Meta) : InodeTable :=
  MkInodes root read_only {[ FUSE_ROOT_ID := MkInode root 1 (m_ino meta) (m_dev meta) ]}
    {[ (m_dev meta, m_ino meta) := FUSE_ROOT_ID ]} 2.

Definition path_of (t : InodeTable) (nodeid : Z) : option Path := in_path <$> by_id t !! nodeid.

Definition inodes_full (t : InodeTable) : bool := MAX_INODES <=? Z.of_nat (size (by_id t)).

Definition intern (t : InodeTable) (path : Path) (meta : Meta) : option Z * InodeTable :=
  let key := (m_dev meta, m_ino meta) in
  match by_hostid t !! key with
  | Some id =>
      let ids := match by_id t !! id with
                 | Some e => <[ id := MkInode (in_path e) (Z.min (2 ^ 64 - 1) (in_refs e + 1)) (in_ino e) (in_dev e) ]> (by_id t)
                 | None => by_id t
                 end in
      (Some id, MkInodes (it_root t) (it_read_only t) ids (by_hostid t) (next_id t))
  | None =>
      if inodes_full t then (None, t) else
      let id := next_id t in
      (Some id, MkInodes (it_root t) (it_read_only t)
                  (<[ id := MkInode path 1 (m_ino meta) (m_dev meta) ]> (by_id t))
                  (<[ key := id ]> (by_hostid t)) (id + 1))
  end.

Definition forget (t : InodeTable) (nodeid n : Z) : InodeTable :=
  if nodeid =? FUSE_ROOT_ID then t else
  match by_id t !! nodeid with
  | Some e =>
      let refs := Z.max 0 (in_refs e - n) in
      if refs =? 0
      then MkInodes (it_root t) (it_read_only t) (delete nodeid (by_id t))
             (delete (in_dev e, in_ino e) (by_hostid t)) (next_id t)
      else MkInodes (it_root t) (it_read_only t)
             (<[ nodeid := MkInode (in_path e) refs (in_ino e) (in_dev e) ]> (by_id t)) (by_hostid t) (next_id t)
  | None => t
  end.

(** [path.starts_with(&self.root)] *)
Definition contains (t : InodeTable) (path : Path) : bool := bool_decide (it_root t `prefix_of` path).

(** A file is its descriptor. *)
Record FhTable := MkFhs { files : gmap Z Z; fh_next : Z }.
Definition FhTable_new : FhTable := MkFhs ∅ 1.
Definition fhs_full (t : FhTable) : bool := MAX_OPEN_FILES <=? Z.of_nat (size (files t)).
Definition FhTable_insert (t : FhTable) (fd : Z) : option Z * FhTable :=
  if fhs_full t then (None, t) else
  (Some (fh_next t), MkFhs (<[ fh_next t := fd ]> (files t)) (fh_next t + 1)).
Definition FhTable_remove (t : FhTable) (fh : Z) : FhTable := MkFhs (delete fh (files t)) (fh_next t).

Record FsBackend (W : Type) := MkFs {
  tag : bytes;
  inodes : InodeTable;
  fhs : FhTable;
  world : W;
  calls : list Called;
}.
Arguments MkFs {W}. Arguments tag {W}. Arguments inodes {W}. Arguments fhs {W}. Arguments world {W}. Arguments calls {W}.

Section fs.
Context `{GM : GuestMemory M} {W : Type} (host : forall A, Sys A -> W -> A * W).
Implicit Types (mem : M) (b : FsBackend W).

Definition set_inodes b (t : InodeTable) : FsBackend W := MkFs (tag b) t (fhs b) (world b) (calls b).
Definition set_fhs b (t : FhTable) : FsBackend W := MkFs (tag b) (inodes b) t (world b) (calls b).

Definition call {A} (c : Sys A) b : A * FsBackend W :=
  let '(a, w) := host A c (world b) in (a, MkFs (tag b) (inodes b) (fhs b) w (calls b ++ [Did c a])).

(** [root] is [canonicalize] of the path shared. *)
Definition FsBackend_new (tag : bytes) (root : Path) (read_only : bool) (w : W) : result (FsBackend W) (option Z) :=
  match host _ (Metadata root) w with
  | (Ok meta, w) => Ok (MkFs tag (InodeTable_new root read_only meta) FhTable_new w [])
  | (Err e, _) => Err e
  end.

(** ** Requests

    A handler runs over the memory, the two cursors and the device, and
    returns the length of the reply's body, or early with an error and that
    length. *)

Record Run := MkRun { r_mem : M; r_rd : Cursor; r_wr : Cursor; r_total : Z; r_fs : FsBackend W }.

Definition Op (A : Type) : Type := Run -> result A (Z * Z) * Run.
#[local] Instance op_ret : MRet Op := fun A a r => (Ok a, r).
#[local] Instance op_bind : MBind Op := fun A B k m r =>
  match m r with (Ok a, r) => k a r | (Err e, r) => (Err e, r) end.

Definition fail {A} (errno : Z) : Op A := fun r => (Err (- errno, 0), r).
Definition or_fail {A} (o : option A) (errno : Z) : Op A := match o with Some a => mret a | None => fail errno end.
Definition ok_or_errno {A} (x : result A (option Z)) : Op A :=
  match x with Ok a => mret a | Err e => fail (io_errno e) end.

Definition sys {A} (c : Sys A) : Op A := fun r =>
  let '(a, b) := call c (r_fs r) in (Ok a, MkRun (r_mem r) (r_rd r) (r_wr r) (r_total r) b).
Definition get_inodes : Op InodeTable := fun r => (Ok (inodes (r_fs r)), r).
Definition get_fhs : Op FhTable := fun r => (Ok (fhs (r_fs r)), r).
Definition put_inodes (t : InodeTable) : Op unit := fun r =>
  (Ok tt, MkRun (r_mem r) (r_rd r) (r_wr r) (r_total r) (set_inodes (r_fs r) t)).
Definition put_fhs (t : FhTable) : Op unit := fun r =>
  (Ok tt, MkRun (r_mem r) (r_rd r) (r_wr r) (r_total r) (set_fhs (r_fs r) t)).

Definition with_rd {A} (x : A * Cursor) (r : Run) : result A (Z * Z) * Run :=
  (Ok x.1, MkRun (r_mem r) x.2 (r_wr r) (r_total r) (r_fs r)).
Definition read_vec (n : Z) : Op (option bytes) := fun r => with_rd (read_bytes (r_mem r) (r_rd r) n) r.
Definition read_cstr : Op (option bytes) := fun r => with_rd (cstr_loop (r_mem r) (Z.to_nat PATH_MAX) (r_rd r) []) r.
Definition read_struct (T : Type) `{Wire T} : Op (option T) :=
  bs ← read_vec (wire_size T); mret (wire_of <$> bs).

Definition put_bytes (bs : bytes) : Op bool := fun r =>
  let '(done, mem, wr, total) := write_bytes (r_mem r) (r_wr r) bs (r_total r) in
  (Ok done, MkRun mem (r_rd r) wr total (r_fs r)).

(** [if !writer.write_struct(..) { return (-EIO, 0) }] *)
Definition reply (bs : bytes) : Op Z :=
  done ← put_bytes bs; if done : bool then mret (zlen bs) else fail EIO.

(** [fhs.insert(file)], which drops the file when it returns [None]. *)
Definition insert_file (fd : Z) : Op (option Z) :=
  t ← get_fhs;
  let '(fh, t) := FhTable_insert t fd in
  put_fhs t;;
  match fh with Some fh => mret (Some fh) | None => sys (Close fd);; mret None end.

Definition intern_file (path : Path) (meta : Meta) : Op (option Z) :=
  t ← get_inodes;
  let '(id, t) := intern t path meta in
  put_inodes t;; mret id.

Definition op_init : Op Z :=
  init ← read_struct FuseInitIn; init ← or_fail init EIO;
  let allowed := Z.lor (Z.lor (Z.lor (Z.lor (Z.lor FUSE_ASYNC_READ FUSE_BIG_WRITES) FUSE_DONT_MASK)
                   FUSE_DO_READDIRPLUS) FUSE_READDIRPLUS_AUTO) FUSE_ASYNC_DIO in
  reply (FuseInitOut (Z.min FUSE_KERNEL_MINOR_VERSION (ii_minor init)) (ii_max_readahead init)
           (Z.land (ii_flags init) allowed)).

Definition op_forget (nodeid : Z) : Op unit :=
  f ← read_struct FuseForgetIn;
  match f with
  | Some f => t ← get_inodes; put_inodes (forget t nodeid (fi_nlookup f))
  | None => mret tt
  end.

Fixpoint batch_forget_loop (count : nat) : Op unit :=
  match count with
  | O => mret tt
  | S count =>
      one ← read_struct FuseForgetOne;
      match one with
      | Some one => t ← get_inodes; put_inodes (forget t (fo_nodeid one) (fo_nlookup one));; batch_forget_loop count
      | None => mret tt
      end
  end.
Definition op_batch_forget : Op unit :=
  hdr ← read_struct FuseBatchForgetIn;
  match hdr with Some hdr => batch_forget_loop (Z.to_nat (bi_count hdr)) | None => mret tt end.

Definition op_lookup (parent : Z) : Op Z :=
  name ← read_cstr; name ← or_fail name EIO;
  t ← get_inodes;
  parent_path ← or_fail (path_of t parent) ENOENT;
  if negb (is_plain_name name) then fail EINVAL else
  let child_path := join parent_path name in
  meta ← sys (SymlinkMetadata child_path); meta ← ok_or_errno meta;
  if negb (contains t child_path) then fail EACCES else
  nodeid ← intern_file child_path meta; nodeid ← or_fail nodeid ENFILE;
  reply (FuseEntryOut nodeid meta).

Definition op_getattr (nodeid : Z) : Op Z :=
  t ← get_inodes;
  path ← or_fail (path_of t nodeid) ENOENT;
  meta ← sys (SymlinkMetadata path); meta ← ok_or_errno meta;
  reply (FuseAttrOut nodeid meta).

(** [libc::timespec] as seconds and nanoseconds. *)
Definition time_spec (valid now set sec nsec : Z) : Z * Z :=
  if has_bits valid now then (0, UTIME_NOW)
  else if has_bits valid set then (as_i64 sec, nsec) else (0, UTIME_OMIT).

(** [if valid & bits != 0 { call, returning its error }] *)
Definition set_if (valid bits : Z) (c : Sys (result unit (option Z))) : Op unit :=
  if has_bits valid bits then r ← sys c; ok_or_errno r else mret tt.

Definition op_setattr (nodeid : Z) : Op Z :=
  req ← read_struct FuseSetattrIn; req ← or_fail req EIO;
  t ← get_inodes;
  if it_read_only t then fail EROFS else
  path ← or_fail (path_of t nodeid) ENOENT;
  if negb (path_cstr path) then fail EINVAL else
  let valid := sa_valid req in
  set_if valid FATTR_MODE (Chmod path (sa_mode req));;
  set_if valid (Z.lor FATTR_UID FATTR_GID)
    (Chown path (if has_bits valid FATTR_UID then sa_uid req else 2 ^ 32 - 1)
                (if has_bits valid FATTR_GID then sa_gid req else 2 ^ 32 - 1));;
  set_if valid FATTR_SIZE (Truncate path (as_i64 (sa_size req)));;
  set_if valid (Z.lor (Z.lor (Z.lor FATTR_ATIME FATTR_MTIME) FATTR_ATIME_NOW) FATTR_MTIME_NOW)
    (Utimensat path (time_spec valid FATTR_ATIME_NOW FATTR_ATIME (sa_atime req) (sa_atimensec req))
                    (time_spec valid FATTR_MTIME_NOW FATTR_MTIME (sa_mtime req) (sa_mtimensec req)));;
  meta ← sys (SymlinkMetadata path); meta ← ok_or_errno meta;
  reply (FuseAttrOut nodeid meta).

Definition op_opendir (nodeid : Z) : Op Z :=
  t ← get_inodes;
  path ← or_fail (path_of t nodeid) ENOENT;
  f ← sys (FileOpen path); fd ← ok_or_errno f;
  fh ← insert_file fd; fh ← or_fail fh EMFILE;
  reply (FuseOpenOut fh).

(** A piece of a directory listing, [written] bytes of which are out. *)
Definition put_or (written : Z) (bs : bytes) : Op unit :=
  done ← put_bytes bs; if done : bool then mret tt else fun r => (Err (- EIO, written), r).

Fixpoint readdir_loop (plus : bool) (dir : Path) (max : Z) (entries : list (result bytes (option Z)))
    (idx offset cur_offset written : Z) : Op Z :=
  match entries with
  | [] => mret written
  | ent :: entries =>
      if cur_offset <? offset then readdir_loop plus dir max entries (idx + 1) offset (idx + 1) written else
      match ent with
      | Err _ => readdir_loop plus dir max entries (idx + 1) offset cur_offset written
      | Ok name =>
          let child_path := join dir name in
          meta ← sys (EntryMetadata child_path);
          match meta with
          | Err _ => readdir_loop plus dir max entries (idx + 1) offset cur_offset written
          | Ok meta =>
              let namelen := zlen name in
              let entry_size := (if plus then 128 else 0) + 24 + align_up namelen 8 in
              if max <? written + entry_size then mret written else
              t ← get_inodes;
              if plus && negb (contains t child_path)
              then readdir_loop plus dir max entries (idx + 1) offset cur_offset written else
              this ← (if plus then intern_file child_path meta else mret (Some (m_ino meta)));
              match this with
              | None => mret written
              | Some nodeid =>
                  (if plus then put_or written (FuseEntryOut nodeid meta) else mret tt);;
                  let written := written + (if plus then 128 else 0) in
                  put_or written (FuseDirent nodeid (idx + 1) namelen (mode_to_dt (m_mode meta)));;
                  let written := written + 24 in
                  put_or written name;;
                  let pad := align_up namelen 8 - namelen in
                  (if 0 <? pad then put_or written (replicate (Z.to_nat pad) x00) else mret tt);;
                  readdir_loop plus dir max entries (idx + 1) 0 (idx + 1) (written + namelen + pad)
              end
          end
      end
  end.

Definition op_readdir (nodeid : Z) (plus : bool) : Op Z :=
  req ← read_struct FuseReadIn; req ← or_fail req EIO;
  t ← get_inodes;
  dir ← or_fail (path_of t nodeid) ENOENT;
  entries ← sys (ReadDir dir); entries ← ok_or_errno entries;
  readdir_loop plus dir (ri_size req) entries 0 (ri_offset req) 0 0.

Definition op_open (nodeid : Z) : Op Z :=
  req ← read_struct FuseOpenIn; req ← or_fail req EIO;
  t ← get_inodes;
  path ← or_fail (path_of t nodeid) ENOENT;
  let wants_write := has_bits (oi_flags req) (Z.lor (Z.lor (Z.lor O_WRONLY O_RDWR) O_APPEND) O_TRUNC) in
  if wants_write && it_read_only t then fail EROFS else
  if negb (path_cstr path) then fail EINVAL else
  let flags := Z.land (oi_flags req) (lnot_w 32 (Z.lor O_CREAT O_EXCL)) in
  fd ← sys (Open path flags 0); fd ← ok_or_errno fd;
  fh ← insert_file fd; fh ← or_fail fh EMFILE;
  reply (FuseOpenOut fh).

Definition op_create (parent : Z) : Op Z :=
  req ← read_struct FuseCreateIn; req ← or_fail req EIO;
  name ← read_cstr; name ← or_fail name EIO;
  t ← get_inodes;
  if it_read_only t then fail EROFS else
  if inodes_full t then fail ENFILE else
  f ← get_fhs;
  if fhs_full f then fail EMFILE else
  parent_path ← or_fail (path_of t parent) ENOENT;
  if negb (is_plain_name name) then fail EINVAL else
  let child := join parent_path name in
  if negb (path_cstr child) then fail EINVAL else
  fd ← sys (Open child (Z.lor (ci_flags req) O_CREAT) (Z.land (ci_mode req) (lnot_w 32 (ci_umask req))));
  fd ← ok_or_errno fd;
  meta ← sys (Metadata child);
  match meta with
  | Err e => sys (Close fd);; fail (io_errno e)
  | Ok meta =>
      nodeid ← intern_file child meta;
      let nodeid := default 0 nodeid in
      fh ← insert_file fd;
      let fh := default 0 fh in
      n ← reply (FuseEntryOut nodeid meta);
      m ← reply (FuseOpenOut fh);
      mret (n + m)
  end.

Definition op_read : Op Z :=
  req ← read_struct FuseReadIn; req ← or_fail req EIO;
  t ← get_fhs;
  fd ← or_fail (files t !! ri_fh req) EBADF;
  n ← sys (Pread fd (Z.min (ri_size req) MAX_WRITE) (as_i64 (ri_offset req)));
  data ← ok_or_errno n;
  reply data.

Definition op_write : Op Z :=
  req ← read_struct FuseWriteIn; req ← or_fail req EIO;
  t ← get_inodes;
  if it_read_only t then fail EROFS else
  if MAX_WRITE <? wi_size req then fail EINVAL else
  data ← read_vec (wi_size req); data ← or_fail data EIO;
  f ← get_fhs;
  fd ← or_fail (files f !! wi_fh req) EBADF;
  n ← sys (Pwrite fd data (as_i64 (wi_offset req))); n ← ok_or_errno n;
  reply (FuseWriteOut (wrap 32 n)).

Definition op_release : Op Z :=
  req ← read_struct FuseReleaseIn; req ← or_fail req EIO;
  t ← get_fhs;
  put_fhs (FhTable_remove t (rl_fh req));;
  match files t !! rl_fh req with Some fd => sys (Close fd);; mret 0 | None => mret 0 end.

Definition op_flush : Op Z := read_struct FuseFlushIn;; mret 0.

Definition op_fsync : Op Z :=
  req ← read_struct FuseFsyncIn; req ← or_fail req EIO;
  t ← get_fhs;
  fd ← or_fail (files t !! fs_fh req) EBADF;
  r ← sys (Fsync fd); ok_or_errno r;; mret 0.

Definition op_statfs (nodeid : Z) : Op Z :=
  t ← get_inodes;
  path ← or_fail (path_of t nodeid) ENOENT;
  if negb (path_cstr path) then fail EINVAL else
  s ← sys (StatvfsOf path); s ← ok_or_errno s;
  reply (FuseStatfsOut s).

Definition op_unlink (parent : Z) (is_dir : bool) : Op Z :=
  name ← read_cstr; name ← or_fail name EIO;
  t ← get_inodes;
  if it_read_only t then fail EROFS else
  parent_path ← or_fail (path_of t parent) ENOENT;
  if negb (is_plain_name name) then fail EINVAL else
  let child := join parent_path name in
  if negb (path_cstr child) then fail EINVAL else
  rc ← (if is_dir then sys (Rmdir child) else sys (Unlink child));
  ok_or_errno rc;; mret 0.

Definition op_mkdir (parent : Z) : Op Z :=
  req ← read_struct FuseMkdirIn; req ← or_fail req EIO;
  name ← read_cstr; name ← or_fail name EIO;
  t ← get_inodes;
  if it_read_only t then fail EROFS else
  parent_path ← or_fail (path_of t parent) ENOENT;
  if negb (is_plain_name name) then fail EINVAL else
  let child := join parent_path name in
  if negb (path_cstr child) then fail EINVAL else
  rc ← sys (Mkdir child (Z.land (mi_mode req) (lnot_w 32 (mi_umask req))));
  ok_or_errno rc;;
  meta ← sys (Metadata child); meta ← ok_or_errno meta;
  nodeid ← intern_file child meta; nodeid ← or_fail nodeid ENFILE;
  reply (FuseEntryOut nodeid meta).

Definition op_rename (parent : Z) (v2 : bool) : Op Z :=
  newdir ← (if v2 then v ← read_struct Rename2In; v ← or_fail v EIO; mret (rn2_newdir v)
            else v ← read_struct RenameIn; v ← or_fail v EIO; mret (rn_newdir v));
  oldname ← read_cstr; oldname ← or_fail oldname EIO;
  newname ← read_cstr; newname ← or_fail newname EIO;
  t ← get_inodes;
  if it_read_only t then fail EROFS else
  old_parent ← or_fail (path_of t parent) ENOENT;
  new_parent ← or_fail (path_of t newdir) ENOENT;
  if negb (is_plain_name oldname) || negb (is_plain_name newname) then fail EINVAL else
  let old_path := join old_parent oldname in
  let new_path := join new_parent newname in
  if negb (path_cstr old_path) then fail EINVAL else
  if negb (path_cstr new_path) then fail EINVAL else
  rc ← sys (Rename old_path new_path);
  ok_or_errno rc;; mret 0.

(** The requests that are answered; what is not served is [ENOSYS]. *)
Definition serve_op (opcode nodeid : Z) : Op Z :=
  if opcode =? FUSE_INIT then op_init
  else if opcode =? FUSE_DESTROY then mret 0
  else if opcode =? FUSE_LOOKUP then op_lookup nodeid
  else if opcode =? FUSE_GETATTR then op_getattr nodeid
  else if opcode =? FUSE_SETATTR then op_setattr nodeid
  else if opcode =? FUSE_OPENDIR then op_opendir nodeid
  else if opcode =? FUSE_READDIR then op_readdir nodeid false
  else if opcode =? FUSE_READDIRPLUS then op_readdir nodeid true
  else if opcode =? FUSE_RELEASEDIR then op_release
  else if opcode =? FUSE_OPEN then op_open nodeid
  else if opcode =? FUSE_CREATE then op_create nodeid
  else if opcode =? FUSE_READ then op_read
  else if opcode =? FUSE_WRITE then op_write
  else if opcode =? FUSE_RELEASE then op_release
  else if opcode =? FUSE_FLUSH then op_flush
  else if (opcode =? FUSE_FSYNC) || (opcode =? FUSE_FSYNCDIR) then op_fsync
  else if opcode =? FUSE_STATFS then op_statfs nodeid
  else if opcode =? FUSE_ACCESS then mret 0
  else if opcode =? FUSE_UNLINK then op_unlink nodeid false
  else if opcode =? FUSE_RMDIR then op_unlink nodeid true
  else if opcode =? FUSE_MKDIR then op_mkdir nodeid
  else if (opcode =? FUSE_RENAME) || (opcode =? FUSE_RENAME2) then op_rename nodeid (opcode =? FUSE_RENAME2)
  else fail ENOSYS.

(** The length for the used ring, the device and the memory after a request. *)
Definition handle_request b mem (spans : list DescSpan) : Z * FsBackend W * M :=
  let r := MkRun mem (MkCursor spans 0) (MkCursor (skip_readable spans) 0) 0 b in
  match read_struct FuseInHeader r with
  | (Ok (Some hdr), r) =>
      match put_bytes (FuseOutHeader 0 0 0) r with
      | (Ok true, r) =>
          if ih_opcode hdr =? FUSE_FORGET then
            let '(_, r) := op_forget (ih_nodeid hdr) r in (0, r_fs r, r_mem r)
          else if ih_opcode hdr =? FUSE_BATCH_FORGET then
            let '(_, r) := op_batch_forget r in (0, r_fs r, r_mem r)
          else
            let '(answer, r) := serve_op (ih_opcode hdr) (ih_nodeid hdr) r in
            let '(error, body_len) := match answer with Ok n => (0, n) | Err e => e end in
            let total_len := wrapping_add 32 16 body_len in
            (total_len, r_fs r, rewrite_header (r_mem r) spans (FuseOutHeader total_len error (ih_unique hdr)))
      | (_, r) => (0, r_fs r, r_mem r)
      end
  | (_, r) => (0, r_fs r, r_mem r)
  end.

Definition serve_fs b (q : VirtioQueueState) mem (head : Z) : Z * FsBackend W * M :=
  handle_request b mem (collect_desc_chain mem q head).

Definition fs_process_queue b (index : nat) (qs : list VirtioQueueState) mem
    : bool * FsBackend W * list VirtioQueueState * M :=
  match qs !! index with
  | None => (false, b, qs, mem)
  | Some q => let '(used, b, q, mem) := ring_serve serve_fs b q mem in (used, b, <[index := q]> qs, mem)
  end.

Definition fs_config_read b (offset : Z) : Z :=
  if offset <? 36 then
    let tag_bytes := ztake 36 (tag b) ++ replicate (Z.to_nat (36 - Z.min 36 (zlen (tag b)))) x00 in
    le_val (zslice offset (offset + Z.min 4 (36 - offset)) tag_bytes)
  else if offset =? 36 then 1 else 0.

(** [files.clear()] closes them. *)
Definition fs_reset b : FsBackend W :=
  fold_left (fun b fd => (call (Close fd) b).2) (map snd (map_to_list (files (fhs b))))
    (set_fhs b (MkFhs ∅ (fh_next (fhs b)))).

(** A device that is not saved takes the defaults of the trait. *)
#[export] Instance fs_backend : VirtioBackend (FsBackend W) M := {
  device_id _ := 26;
  device_features _ := VIRTIO_F_VERSION_1;
  queue_count _ := 2%nat;
  queue_max_size _ := 128;
  config_read := fs_config_read;
  config_write b _ _ := b;
  features_ok b _ := b;
  activate b _ _ := b;
  process_queue := fs_process_queue;
  take_kicks _ := false;
  backend_reset := fs_reset;
  backend_save b := (Err Unsupported, b);
  backend_restore b _ _ _ := Err Unsupported;
  backend_resume b := b;
}.
End fs.
