(* ===== verification/FsProofs.v ===== *)
(** * What a guest can do to the host with a shared directory

    Every handler of [Fs] is proved against one invariant with a calculus of
    weakest preconditions, [wp]: the tables agree, every call of the host
    names a path below the shared directory and a descriptor that is open,
    and what is open is what the table of handles holds. *)

From Stdlib Require Import Strings.Byte.
From stdpp Require Import gmap.
From S2P Require Import Prelude Vsock Queue Virtio VirtioProofs FsWire Fs.

(** ** What a call may do *)

Definition in_root (root p : Path) : Prop :=
  exists names, p = root ++ names /\ Forall (fun name => is_plain_name name = true) names.

Lemma plain_name name : is_plain_name name = true ->
  name <> [] /\ name <> [x2e] /\ name <> [x2e; x2e] /\ x2f ∉ name /\ x00 ∉ name.
Proof.
  unfold is_plain_name. destruct (bool_decide (name = [])) eqn:E1; [done|].
  destruct (bool_decide (name = [x2e])) eqn:E2; [done|]. destruct (bool_decide (name = [x2e; x2e])) eqn:E3; [done|].
  cbn [orb]. intros [H1 H2]%andb_true_iff. bool_to_prop. by split_and!.
Qed.

(** The bits of an open that can change a file or make one. *)
Definition WRITE_BITS : Z := Z.lor (Z.lor (Z.lor (Z.lor (Z.lor O_WRONLY O_RDWR) O_APPEND) O_TRUNC) O_CREAT) O_EXCL.

Definition changes {A} (c : Sys A) : bool :=
  match c with
  | Open _ flags _ => has_bits flags WRITE_BITS
  | Pwrite _ _ _ | Chmod _ _ | Chown _ _ _ | Truncate _ _ | Utimensat _ _ _ | Unlink _ | Rmdir _ | Mkdir _ _
  | Rename _ _ => true
  | _ => false
  end.

Definition sys_paths {A} (c : Sys A) : list Path :=
  match c with
  | SymlinkMetadata p | Metadata p | EntryMetadata p | ReadDir p | FileOpen p | Open p _ _ | StatvfsOf p | Chmod p _
  | Chown p _ _ | Truncate p _ | Utimensat p _ _ | Unlink p | Rmdir p | Mkdir p _ => [p]
  | Rename p q => [p; q]
  | _ => []
  end.

Definition sys_fd {A} (c : Sys A) : option Z :=
  match c with Close fd | Pread fd _ _ | Pwrite fd _ _ | Fsync fd => Some fd | _ => None end.

Fixpoint remove_one (fd : Z) (fds : list Z) : list Z :=
  match fds with
  | [] => []
  | x :: fds => if x =? fd then fds else x :: remove_one fd fds
  end.

(** The descriptors open after a call. *)
Definition after_call (fds : list Z) (d : Called) : list Z :=
  match d with
  | Did (FileOpen _) (Ok fd) | Did (Open _ _ _) (Ok fd) => fd :: fds
  | Did (Close fd) _ => remove_one fd fds
  | _ => fds
  end.

Definition open_fds (l : list Called) : list Z := fold_left after_call l [].
#[global] Arguments open_fds : simpl never.

(** What a device with root [root] may call while [fds] are open. *)
Definition call_ok (root : Path) (ro : bool) (fds : list Z) (d : Called) : Prop :=
  match d with
  | Did c _ =>
      Forall (in_root root) (sys_paths c) /\ (forall fd, sys_fd c = Some fd -> fd ∈ fds) /\
      (ro = true -> changes c = false)
  end.

Definition log_ok (root : Path) (ro : bool) (l : list Called) : Prop :=
  forall l1 d l2, l = l1 ++ d :: l2 -> call_ok root ro (open_fds l1) d.

Lemma log_ok_snoc root ro l d : log_ok root ro l -> call_ok root ro (open_fds l) d -> log_ok root ro (l ++ [d]).
Proof.
  intros Hl Hd l1 x l2 E. destruct l2 as [|y l3 _] using rev_ind.
  - apply app_inj_tail in E as [-> ->]. done.
  - rewrite app_comm_cons, app_assoc in E. apply app_inj_tail in E as [-> ->]. by eapply Hl.
Qed.

Lemma open_fds_snoc l d : open_fds (l ++ [d]) = after_call (open_fds l) d.
Proof. unfold open_fds. by rewrite fold_left_app. Qed.

Lemma remove_one_perm fd fds rest : fds ≡ₚ fd :: rest -> remove_one fd fds ≡ₚ rest.
Proof.
  intros H. cut (fd :: remove_one fd fds ≡ₚ fd :: rest); [by intros ?%Permutation_cons_inv|].
  rewrite <- H. assert (fd ∈ fds) as Hin by (rewrite H; left). clear H rest.
  induction fds as [|x fds IH]; [by apply not_elem_of_nil in Hin|]. cbn.
  destruct (Z.eqb_spec x fd) as [->|Hne]; [done|]. rewrite Permutation_swap. constructor. apply IH.
  by apply elem_of_cons in Hin as [->|].
Qed.

Lemma in_root_join root p name : in_root root p -> is_plain_name name = true -> in_root root (join p name).
Proof.
  intros (names & -> & Hn) Hp. exists (names ++ [name]). unfold join. rewrite app_assoc. split; [done|].
  apply Forall_app. split; [done|]. by apply Forall_singleton.
Qed.

(** ** The tables *)

Record table_ok (root : Path) (ro : bool) (t : InodeTable) : Prop := {
  to_root : it_root t = root;
  to_ro : it_read_only t = ro;
  to_top : exists e, by_id t !! FUSE_ROOT_ID = Some e /\ in_path e = root;
  to_paths : forall id e, by_id t !! id = Some e -> in_root root (in_path e);
  to_ids : forall id e, by_id t !! id = Some e -> FUSE_ROOT_ID <= id < next_id t;
  to_refs : forall id e, by_id t !! id = Some e -> 1 <= in_refs e < 2 ^ 64;
  to_keys : forall k id, by_hostid t !! k = Some id <-> exists e, by_id t !! id = Some e /\ k = (in_dev e, in_ino e);
  to_size : Z.of_nat (size (by_id t)) <= MAX_INODES;
}.

Record fhs_ok (f : FhTable) : Prop := {
  ho_ids : forall fh fd, files f !! fh = Some fd -> 1 <= fh < fh_next f;
  ho_next : 1 <= fh_next f;
  ho_size : Z.of_nat (size (files f)) <= MAX_OPEN_FILES;
}.

Definition held (f : FhTable) : list Z := map snd (map_to_list (files f)).

(** [ex] are descriptors that are open and not in the table yet. *)
Record fs_at (root : Path) (ro : bool) {W} (ex : list Z) (t : InodeTable) (f : FhTable) (b : FsBackend W) : Prop := {
  fa_inodes : inodes b = t;
  fa_fhs : fhs b = f;
  fa_table : table_ok root ro t;
  fa_handles : fhs_ok f;
  fa_log : log_ok root ro (calls b);
  fa_fds : open_fds (calls b) ≡ₚ ex ++ held f;
}.

Lemma path_of_in_root root ro t id p : table_ok root ro t -> path_of t id = Some p -> in_root root p.
Proof. intros Ht. unfold path_of. intros (e & He & ->)%fmap_Some. by eapply to_paths. Qed.

Lemma intern_ok root ro t p m : table_ok root ro t -> in_root root p -> table_ok root ro (intern t p m).2.
Proof.
  intros [H1 H2 (e0 & H3 & H3') H4 H5 H6 H7 H8] Hp. unfold intern. cbv zeta.
  destruct (by_hostid t !! (m_dev m, m_ino m)) as [id|] eqn:Ek.
  - destruct (proj1 (H7 _ id) Ek) as (e & He & _). rewrite He.
    pose proof (H6 id e He). split; cbn; try done.
    + destruct (decide (id = FUSE_ROOT_ID)) as [->|Hne]; [|rewrite lookup_insert_ne by done; eauto].
      rewrite lookup_insert_eq. simplify_eq. eauto.
    + intros i x [[<- <-]|[_ Hi]]%lookup_insert_Some; cbn; eauto.
    + intros i x [[<- <-]|[_ Hi]]%lookup_insert_Some; cbn; eauto.
    + intros i x [[<- <-]|[_ Hi]]%lookup_insert_Some; cbn; [lia|eauto].
    + intros k i. rewrite H7. destruct (decide (i = id)) as [->|Hne].
      * rewrite lookup_insert_eq. split; intros (x & Hx & ->); simplify_eq; eauto.
      * by rewrite lookup_insert_ne.
    + rewrite map_size_insert_Some by eauto. done.
  - destruct (inodes_full t) eqn:Ef; [by split; eauto|]. unfold inodes_full in Ef. apply Z.leb_gt in Ef.
    assert (by_id t !! next_id t = None) as Hn.
    { destruct (by_id t !! next_id t) as [x|] eqn:E; [|done]. specialize (H5 _ _ E). lia. }
    pose proof (H5 _ _ H3) as Hr. split; cbn; try done.
    + rewrite lookup_insert_ne by lia. eauto.
    + intros i x [[<- <-]|[_ Hi]]%lookup_insert_Some; cbn; eauto.
    + intros i x [[<- <-]|[_ Hi]]%lookup_insert_Some; cbn; [lia|]. specialize (H5 _ _ Hi). lia.
    + intros i x [[<- <-]|[_ Hi]]%lookup_insert_Some; cbn; [lia|eauto].
    + intros k i. rewrite lookup_insert_Some, H7. split.
      * intros [[<- <-]|[Hne (x & Hx & ->)]]; [rewrite lookup_insert_eq; eauto|].
        exists x. rewrite lookup_insert_ne by congruence. done.
      * intros (x & Hx & ->). apply lookup_insert_Some in Hx as [[<- <-]|[Hne Hx]]; [by left|].
        right. split; [|eauto]. intros E. assert (by_hostid t !! (in_dev x, in_ino x) = Some i) by (apply H7; eauto).
        congruence.
    + rewrite map_size_insert_None by done. lia.
Qed.

Lemma forget_ok root ro t id n : 0 <= n -> table_ok root ro t -> table_ok root ro (forget t id n).
Proof.
  intros Hn0 [H1 H2 (e0 & H3 & H3') H4 H5 H6 H7 H8]. unfold forget.
  destruct (Z.eqb_spec id FUSE_ROOT_ID) as [->|Hr]; [by split; eauto|].
  destruct (by_id t !! id) as [e|] eqn:He; [|by split; eauto]. pose proof (H6 id e He). case_match eqn:Er.
  - split; cbn; try done.
    + rewrite lookup_delete_ne by done. eauto.
    + intros i x [_ Hi]%lookup_delete_Some. eauto.
    + intros i x [_ Hi]%lookup_delete_Some. eauto.
    + intros i x [_ Hi]%lookup_delete_Some. eauto.
    + intros k i. rewrite lookup_delete_Some, H7. split.
      * intros [Hne (x & Hx & ->)]. exists x. rewrite lookup_delete_ne by congruence. done.
      * intros (x & [Hne Hx]%lookup_delete_Some & ->). split; [|eauto].
        intros E. apply Hne. assert (by_hostid t !! (in_dev e, in_ino e) = Some id) by (apply H7; eauto).
        assert (by_hostid t !! (in_dev x, in_ino x) = Some i) by (apply H7; eauto). congruence.
    + rewrite map_size_delete_Some by eauto. lia.
  - apply Z.eqb_neq in Er. split; cbn; try done.
    + rewrite lookup_insert_ne by done. eauto.
    + intros i x [[<- <-]|[_ Hi]]%lookup_insert_Some; cbn; eauto.
    + intros i x [[<- <-]|[_ Hi]]%lookup_insert_Some; cbn; eauto.
    + intros i x [[<- <-]|[_ Hi]]%lookup_insert_Some; cbn; [lia|eauto].
    + intros k i. rewrite H7. destruct (decide (i = id)) as [->|Hne].
      * rewrite lookup_insert_eq. split; intros (x & Hx & ->); simplify_eq; eauto.
      * by rewrite lookup_insert_ne.
    + rewrite map_size_insert_Some by eauto. done.
Qed.

(** ** Weakest preconditions *)

Section wp.
Context `{GM : GuestMemory M} {W : Type} (host : forall A, Sys A -> W -> A * W) (root : Path) (ro : bool).
Implicit Types (b : FsBackend W) (ex : list Z) (t : InodeTable) (f : FhTable).
Notation Op := (@Op M W).
#[local] Existing Instances op_ret op_bind.

(** Run from a device at [ex], [t] and [f], the handler ends in one where [Q]
    holds, or early with nothing left open. *)
Definition wp {A} (m : Op A) (Q : A -> list Z -> InodeTable -> FhTable -> Prop) ex t f : Prop :=
  forall r, fs_at root ro ex t f (r_fs r) ->
  match m r with
  | (Ok a, r') => exists ex' t' f', fs_at root ro ex' t' f' (r_fs r') /\ Q a ex' t' f'
  | (Err _, r') => exists t' f', fs_at root ro [] t' f' (r_fs r')
  end.

Lemma wp_mono {A} (m : Op A) (Q Q' : A -> list Z -> InodeTable -> FhTable -> Prop) ex t f :
  (forall a ex t f, Q a ex t f -> Q' a ex t f) -> wp m Q ex t f -> wp m Q' ex t f.
Proof. intros HQ Hm r Hr. specialize (Hm r Hr). destruct (m r) as [[a|e] r']; [|done]. naive_solver. Qed.

Lemma wp_ret {A} (a : A) Q ex t f : Q a ex t f -> wp (mret a) Q ex t f.
Proof. intros HQ r Hr. cbn. eauto. Qed.

Lemma wp_bind {A B} (m : Op A) (k : A -> Op B) Q ex t f :
  wp m (fun a ex t f => wp (k a) Q ex t f) ex t f -> wp (m ≫= k) Q ex t f.
Proof.
  intros Hm r Hr. specialize (Hm r Hr). unfold mbind, op_bind. destruct (m r) as [[a|e] r'] eqn:E; [|done].
  destruct Hm as (ex' & t' & f' & Hr' & Hk). by apply Hk.
Qed.

Lemma wp_early {A} e (Q : A -> list Z -> InodeTable -> FhTable -> Prop) t f : wp (fun r => (Err e, r)) Q [] t f.
Proof. intros r Hr. eauto. Qed.

Lemma wp_or_fail {A} (o : option A) e Q t f :
  (forall a, o = Some a -> Q a [] t f) -> wp (or_fail o e) Q [] t f.
Proof. intros HQ. destruct o; [by apply wp_ret, HQ|apply wp_early]. Qed.

Lemma wp_errno {A} (x : result A (option Z)) Q t f :
  (forall a, x = Ok a -> Q a [] t f) -> wp (ok_or_errno x) Q [] t f.
Proof. intros HQ. destruct x; [by apply wp_ret, HQ|apply wp_early]. Qed.

Lemma wp_get_inodes Q ex t f : Q t ex t f -> wp get_inodes Q ex t f.
Proof. intros HQ r Hr. cbn. rewrite (fa_inodes _ _ _ _ _ _ Hr). eauto. Qed.

Lemma wp_get_fhs Q ex t f : Q f ex t f -> wp get_fhs Q ex t f.
Proof. intros HQ r Hr. cbn. rewrite (fa_fhs _ _ _ _ _ _ Hr). eauto. Qed.

Lemma wp_put_inodes t' Q ex t f : (table_ok root ro t -> table_ok root ro t') -> Q tt ex t' f -> wp (put_inodes t') Q ex t f.
Proof. intros Ht HQ r []. cbn. exists ex, t', f. split; [|done]. split; cbn; auto. Qed.

Lemma wp_read_vec n Q ex t f : (forall o, Q o ex t f) -> wp (read_vec n) Q ex t f.
Proof. intros HQ r Hr. cbn. eauto 6. Qed.

Lemma wp_read_cstr Q ex t f : (forall o, Q o ex t f) -> wp read_cstr Q ex t f.
Proof. intros HQ r Hr. cbn. eauto 6. Qed.

Lemma wp_read_struct T `{Wire T} Q ex t f :
  (forall bs, Q (wire_of <$> bs) ex t f) -> wp (read_struct T) Q ex t f.
Proof. intros HQ. apply wp_bind, wp_read_vec. intros o. by apply wp_ret. Qed.

Lemma wp_put_bytes bs Q ex t f : (forall d, Q d ex t f) -> wp (put_bytes bs) Q ex t f.
Proof.
  intros HQ r Hr. unfold put_bytes. destruct (write_bytes _ _ _ _) as [[[d mem] wr] n]. cbn. eauto 6.
Qed.

Lemma wp_reply bs Q t f : Q (zlen bs) [] t f -> wp (reply bs) Q [] t f.
Proof. intros HQ. apply wp_bind, wp_put_bytes. intros [|]; [by apply wp_ret|apply wp_early]. Qed.

(** A call leaves the tables alone. *)
Lemma wp_call {A} (c : Sys A) Q ex t f :
  (forall a fds, fds ≡ₚ ex ++ held f -> call_ok root ro fds (Did c a)) ->
  (forall a, exists ex', Q a ex' t f /\
     forall fds, fds ≡ₚ ex ++ held f -> after_call fds (Did c a) ≡ₚ ex' ++ held f) ->
  wp (sys host c) Q ex t f.
Proof.
  intros Hc HQ r []. unfold sys, call. destruct (host A c (world (r_fs r))) as [a w]. cbn.
  destruct (HQ a) as (ex' & HQa & Hfd). exists ex', t, f. split; [|done]. split; cbn; try done.
  - apply log_ok_snoc; auto.
  - rewrite open_fds_snoc. auto.
Qed.

(** One that opens and closes nothing. *)
Lemma wp_sys {A} (c : Sys A) Q ex t f :
  Forall (in_root root) (sys_paths c) -> (forall fd, sys_fd c = Some fd -> fd ∈ ex ++ held f) ->
  (ro = true -> changes c = false) -> (forall fds a, after_call fds (Did c a) = fds) ->
  (forall a, Q a ex t f) -> wp (sys host c) Q ex t f.
Proof.
  intros Hp Hfd Hro Hs HQ. apply wp_call.
  - intros a fds Hf. split; [done|]. split; [|done]. intros fd E. rewrite Hf. auto.
  - intros a. exists ex. split; [done|]. intros fds. by rewrite Hs.
Qed.

Lemma wp_open (c : Sys (result Z (option Z))) Q t f :
  (exists p, c = FileOpen p \/ exists flags mode, c = Open p flags mode) ->
  Forall (in_root root) (sys_paths c) -> (ro = true -> changes c = false) ->
  (forall e, Q (Err e) [] t f) -> (forall fd, Q (Ok fd) [fd] t f) -> wp (sys host c) Q [] t f.
Proof.
  intros (p & Hc) Hp Hro He Hok. apply wp_call.
  - intros a fds _. split; [done|]. split; [|done]. intros fd. by destruct Hc as [->|(? & ? & ->)].
  - intros [fd|e]; [exists [fd]|exists []]; (split; [auto|]); intros fds Hf;
      destruct Hc as [->|(? & ? & ->)]; cbn; by rewrite Hf.
Qed.

Lemma wp_close fd Q t f : Q tt [] t f -> wp (sys host (Close fd)) Q [fd] t f.
Proof.
  intros HQ. apply wp_call.
  - intros a fds Hf. split; [constructor|]. split; [|done]. intros ? [= <-]. rewrite Hf. left.
  - intros []. exists []. split; [done|]. intros fds Hf. cbn. by apply remove_one_perm.
Qed.

(** A handle taken out of the table leaves its descriptor to close. *)
Lemma held_delete f fh fd : files f !! fh = Some fd -> held f ≡ₚ fd :: held (FhTable_remove f fh).
Proof.
  intros Hf. unfold held. cbn. rewrite <- (map_to_list_delete (files f) fh fd Hf). done.
Qed.

Lemma wp_remove fh Q t f :
  Q tt (option_list (files f !! fh)) t (FhTable_remove f fh) -> wp (put_fhs (FhTable_remove f fh)) Q [] t f.
Proof.
  intros HQ r [H1 H2 H3 [H4 H4n H4'] H5 H6]. cbn. do 3 eexists. split; [|exact HQ]. split; cbn; try done.
  - split; cbn; [|done|].
    + intros i x [_ Hi]%lookup_delete_Some. eauto.
    + destruct (files f !! fh) eqn:E; [rewrite map_size_delete_Some by eauto; lia|].
      by rewrite (delete_id (files f) fh E).
  - rewrite H6. cbn. destruct (files f !! fh) as [fd|] eqn:E; cbn.
    + by apply held_delete.
    + unfold held. cbn. by rewrite delete_id.
Qed.

(** A descriptor just opened goes into the table, or is closed. *)
Lemma wp_insert_file fd Q t f :
  (forall fh f', Q (Some fh) [] t f') -> (fhs_full f = true -> Q None [] t f) -> wp (insert_file host fd) Q [fd] t f.
Proof.
  intros Hs Hn. apply wp_bind, wp_get_fhs. unfold FhTable_insert. destruct (fhs_full f) eqn:Ef.
  - apply wp_bind. intros r Hr. cbn. exists [fd], t, f. split; [by destruct Hr; split|].
    apply wp_bind, wp_close. apply wp_ret. auto.
  - apply wp_bind. unfold fhs_full in Ef. apply Z.leb_gt in Ef.
    intros r [H1 H2 H3 [H4 H4n H4'] H5 H6]. cbn. do 3 eexists. split; [|apply wp_ret, Hs].
    assert (files f !! fh_next f = None) as Hfr.
    { destruct (files f !! fh_next f) as [x|] eqn:E; [|done]. specialize (H4 _ _ E). lia. }
    split; cbn; try done.
    + split; cbn; [|lia|].
      * intros i x [[<- <-]|[_ Hi]]%lookup_insert_Some; [lia|]. specialize (H4 _ _ Hi). lia.
      * rewrite map_size_insert_None by done. lia.
    + rewrite H6. unfold held. cbn. by rewrite map_to_list_insert.
Qed.

Lemma wp_intern p m Q ex t f :
  in_root root p ->
  (forall id t', it_root t' = it_root t -> it_read_only t' = it_read_only t ->
     (id = None -> inodes_full t = true) -> Q id ex t' f) ->
  wp (intern_file p m) Q ex t f.
Proof.
  intros Hp HQ. apply wp_bind, wp_get_inodes. destruct (intern t p m) as [id t'] eqn:E.
  assert (table_ok root ro t -> table_ok root ro t') as Hok.
  { intros Ht. pose proof (intern_ok root ro t p m Ht Hp) as H. by rewrite E in H. }
  apply wp_bind, wp_put_inodes; [done|]. apply wp_ret, HQ; unfold intern in E; repeat case_match; simplify_eq; done.
Qed.

Lemma wp_have {A} (m : Op A) Q ex t f : (table_ok root ro t -> wp m Q ex t f) -> wp m Q ex t f.
Proof. intros H r Hr. by apply H; [destruct Hr|]. Qed.

Lemma held_elem f fh fd : files f !! fh = Some fd -> fd ∈ held f.
Proof.
  intros H. unfold held. change fd with (fh, fd).2. by apply list_elem_of_fmap_2, elem_of_map_to_list.
Qed.

(** ** The handlers *)

(** What [ReadDir] gives are names in a directory, [.] and [..] left out. *)
Context (host_names : forall p w l w' name,
  host _ (ReadDir p) w = (Ok l, w') -> Ok name ∈ l -> is_plain_name name = true).

Lemma wp_read_dir p Q ex t f :
  in_root root p -> (forall e, Q (Err e) ex t f) ->
  (forall l, (forall name, Ok name ∈ l -> is_plain_name name = true) -> Q (Ok l) ex t f) ->
  wp (sys host (ReadDir p)) Q ex t f.
Proof.
  intros Hp He Hl r []. unfold sys, call. destruct (host _ (ReadDir p) (world (r_fs r))) as [a w] eqn:E. cbn.
  exists ex, t, f. split.
  - split; cbn; try done.
    + apply log_ok_snoc; [done|]. split; [by repeat constructor|]. done.
    + by rewrite open_fds_snoc.
  - destruct a as [l|e]; [|auto]. apply Hl. intros name. by eapply host_names.
Qed.

Definition settled {A} (_ : A) (ex : list Z) (_ : InodeTable) (_ : FhTable) : Prop := ex = [].

Ltac wp_plain := repeat match goal with
  | |- wp (mret _) _ _ _ _ => apply wp_ret
  | |- wp (mbind _ _) _ _ _ _ => apply wp_bind
  | |- wp (fail _) _ _ _ _ => apply wp_early
  | |- wp (fun r => (Err _, r)) _ _ _ _ => apply wp_early
  | |- wp (or_fail _ _) _ _ _ _ => apply wp_or_fail; intros ? ?
  | |- wp (ok_or_errno (Ok ?a)) _ _ _ _ => apply (wp_ret a)
  | |- wp (ok_or_errno (Err _)) _ _ _ _ => apply wp_early
  | |- wp (ok_or_errno _) _ _ _ _ => apply wp_errno; intros ? ?
  | |- wp get_inodes _ _ _ _ => apply wp_get_inodes
  | |- wp get_fhs _ _ _ _ => apply wp_get_fhs
  | |- wp (read_struct _) _ _ _ _ => apply wp_read_struct; intros ?
  | |- wp (read_vec _) _ _ _ _ => apply wp_read_vec; intros ?
  | |- wp read_cstr _ _ _ _ => apply wp_read_cstr; intros ?
  | |- wp (reply _) _ _ _ _ => apply wp_reply
  | |- wp (put_bytes _) _ _ _ _ => apply wp_put_bytes; intros ?
  | |- wp (let _ := _ in _) _ _ _ _ => cbv zeta
  | |- wp (if ?c then _ else _) _ _ _ _ => let H := fresh "Hif" in destruct c eqn:H
  | |- wp (match ?x with _ => _ end) _ _ _ _ => let H := fresh "Hm" in destruct x eqn:H
  | |- settled _ _ _ _ => reflexivity
  end.

(** The side conditions of a call on the file of a node or one of its
    children. *)
Ltac in_root_tac :=
  repeat first
    [ apply Forall_nil_2 | apply Forall_cons_2
    | apply in_root_join; [|by bool_to_prop; try done; apply negb_false_iff]
    | by eapply path_of_in_root ].
Ltac read_only_tac := match goal with Ht : table_ok _ _ _ |- _ => intros; destruct Ht; congruence end.
Ltac wp_sys_tac :=
  apply wp_sys; cbn [sys_paths sys_fd changes];
    [ in_root_tac | intros ? [=]; subst; try (by eapply held_elem) | first [done|read_only_tac] | done | intros ? ].

Ltac op_tac := repeat first [progress wp_plain | wp_sys_tac].

Lemma op_lookup_wp n t f : wp (op_lookup host n) settled [] t f.
Proof.
  apply wp_have. intros Ht. unfold op_lookup. op_tac.
  apply wp_intern; [in_root_tac|]. intros. op_tac.
Qed.

Lemma op_getattr_wp n t f : wp (op_getattr host n) settled [] t f.
Proof. apply wp_have. intros Ht. unfold op_getattr. op_tac. Qed.

Lemma set_if_wp valid bits c (Q : unit -> list Z -> InodeTable -> FhTable -> Prop) t f :
  (has_bits valid bits = true -> Forall (in_root root) (sys_paths c)) -> sys_fd c = None ->
  (ro = true -> changes c = false) -> (forall fds a, after_call fds (Did c a) = fds) -> Q tt [] t f ->
  wp (set_if host valid bits c) Q [] t f.
Proof.
  intros Hp Hfd Hro Hs HQ. unfold set_if. destruct (has_bits valid bits) eqn:E; [|by apply wp_ret].
  apply wp_bind, wp_sys; [auto|congruence|done|done|]. intros []; [|apply wp_early]. by apply wp_errno; intros [].
Qed.

Lemma op_setattr_wp n t f : wp (op_setattr host n) settled [] t f.
Proof.
  apply wp_have. intros Ht. unfold op_setattr. wp_plain.
  all: do 4 (try apply wp_bind; apply set_if_wp; cbn [sys_paths sys_fd changes];
    [intros _; in_root_tac|done|read_only_tac|done|]).
  all: op_tac.
Qed.

Ltac wp_open_tac :=
  apply wp_open; cbn [sys_paths changes];
    [ eauto | in_root_tac | first [done|read_only_tac|idtac] | intros ? | intros ? ].

Lemma op_opendir_wp n t f : wp (op_opendir host n) settled [] t f.
Proof.
  apply wp_have. intros Ht. unfold op_opendir. op_tac. wp_open_tac; wp_plain.
  apply wp_insert_file; intros; wp_plain.
Qed.

Lemma readonly_flags flags :
  has_bits flags (Z.lor (Z.lor (Z.lor O_WRONLY O_RDWR) O_APPEND) O_TRUNC) = false ->
  has_bits (Z.land flags (lnot_w 32 (Z.lor O_CREAT O_EXCL))) WRITE_BITS = false.
Proof. unfold has_bits. by rewrite <-Z.land_assoc. Qed.

Lemma op_open_wp n t f : wp (op_open host n) settled [] t f.
Proof.
  apply wp_have. intros Ht. unfold op_open. op_tac. wp_open_tac; wp_plain.
  - intros Hro. destruct Ht as [_ Hro' _ _ _ _ _ _]. rewrite Hro', Hro, andb_true_r in Hif. by apply readonly_flags.
  - apply wp_insert_file; intros; wp_plain.
Qed.

Lemma op_create_wp n t f : wp (op_create host n) settled [] t f.
Proof.
  apply wp_have. intros Ht. unfold op_create. op_tac. wp_open_tac; wp_plain.
  wp_sys_tac. wp_plain.
  - apply wp_intern; [in_root_tac|]. intros. wp_plain. apply wp_insert_file; intros; wp_plain.
  - apply wp_close. wp_plain.
Qed.

Lemma op_read_wp t f : wp (op_read host) settled [] t f.
Proof. unfold op_read. op_tac. Qed.

Lemma op_write_wp t f : wp (op_write host) settled [] t f.
Proof. apply wp_have. intros Ht. unfold op_write. op_tac. Qed.

Lemma op_release_wp t f : wp (op_release host) settled [] t f.
Proof.
  unfold op_release. wp_plain. apply wp_remove. destruct (files f !! _); wp_plain. apply wp_close. wp_plain.
Qed.

Lemma op_flush_wp t f : wp op_flush settled [] t f.
Proof. unfold op_flush. wp_plain. Qed.

Lemma op_fsync_wp t f : wp (op_fsync host) settled [] t f.
Proof. unfold op_fsync. op_tac. Qed.

Lemma op_statfs_wp n t f : wp (op_statfs host n) settled [] t f.
Proof. apply wp_have. intros Ht. unfold op_statfs. op_tac. Qed.

Lemma op_unlink_wp n d t f : wp (op_unlink host n d) settled [] t f.
Proof. apply wp_have. intros Ht. unfold op_unlink. op_tac. Qed.

Lemma op_mkdir_wp n t f : wp (op_mkdir host n) settled [] t f.
Proof.
  apply wp_have. intros Ht. unfold op_mkdir. op_tac. apply wp_intern; [in_root_tac|]. intros. op_tac.
Qed.

Lemma op_rename_wp n v t f : wp (op_rename host n v) settled [] t f.
Proof. apply wp_have. intros Ht. unfold op_rename. op_tac. Qed.

Lemma op_init_wp t f : wp op_init settled [] t f.
Proof. unfold op_init. wp_plain. Qed.

Lemma field_nonneg bs off n : 0 <= field bs off n.
Proof. unfold field. pose proof (le_val_range (zslice off (off + n) bs)). lia. Qed.

Lemma op_forget_wp n t f : wp (op_forget n) settled [] t f.
Proof.
  unfold op_forget. wp_plain. apply wp_put_inodes; [|done]. apply forget_ok.
  destruct bs as [bs|]; [|done]. cbn in Hm. simplify_eq. apply field_nonneg.
Qed.

Lemma batch_forget_wp n : forall t f, wp (batch_forget_loop n) settled [] t f.
Proof.
  induction n as [|n IH]; intros t f; cbn [batch_forget_loop]; wp_plain.
  apply wp_put_inodes; [|apply IH]. apply forget_ok. destruct bs as [bs|]; [|done]. cbn in Hm. simplify_eq. apply field_nonneg.
Qed.

Lemma op_batch_forget_wp t f : wp op_batch_forget settled [] t f.
Proof. unfold op_batch_forget. wp_plain. apply batch_forget_wp. Qed.

Lemma put_or_wp n bs Q t f : Q tt [] t f -> wp (put_or n bs) Q [] t f.
Proof. intros HQ. unfold put_or. wp_plain. done. Qed.

Lemma readdir_loop_wp plus dir max entries : forall idx offset cur written t f,
  in_root root dir -> (forall name, Ok name ∈ entries -> is_plain_name name = true) ->
  wp (readdir_loop host plus dir max entries idx offset cur written) settled [] t f.
Proof.
  induction entries as [|ent entries IH]; intros idx offset cur written t f Hd Hn; cbn [readdir_loop]; [wp_plain|].
  assert (forall idx offset cur written t f,
    wp (readdir_loop host plus dir max entries idx offset cur written) settled [] t f) as IH'.
  { intros. apply IH; [done|]. intros name Hin. apply Hn. by right. }
  clear IH. destruct (cur <? offset); [apply IH'|]. destruct ent as [name|e]; [|apply IH'].
  assert (in_root root (join dir name)) as Hj by (apply in_root_join; [done|apply Hn; by left]).
  apply wp_bind, wp_sys; cbn [sys_paths sys_fd changes]; [by apply Forall_singleton|done..|].
  intros [meta|e]; [|apply IH'].
  destruct (max <? _); [wp_plain|]. apply wp_bind, wp_get_inodes. destruct (plus && _); [apply IH'|].
  destruct plus.
  - apply wp_bind, wp_intern; [done|]. intros [id|] t' _ _ _; [|wp_plain].
    apply wp_bind, put_or_wp, wp_bind, put_or_wp, wp_bind, put_or_wp, wp_bind.
    destruct (0 <? _); [apply put_or_wp|apply wp_ret]; apply IH'.
  - apply wp_bind, wp_ret, wp_bind, wp_ret, wp_bind, put_or_wp, wp_bind, put_or_wp, wp_bind.
    destruct (0 <? _); [apply put_or_wp|apply wp_ret]; apply IH'.
Qed.

Lemma op_readdir_wp n plus t f : wp (op_readdir host n plus) settled [] t f.
Proof.
  apply wp_have. intros Ht. unfold op_readdir. wp_plain. apply wp_read_dir.
  - by eapply path_of_in_root.
  - intros. wp_plain.
  - intros l Hl. wp_plain. apply readdir_loop_wp; [by eapply path_of_in_root|done].
Qed.

Lemma serve_op_wp opcode n t f : wp (serve_op host opcode n) settled [] t f.
Proof.
  unfold serve_op. repeat case_match; try apply wp_early; try (by apply wp_ret);
    auto using op_init_wp, op_lookup_wp, op_getattr_wp, op_setattr_wp, op_opendir_wp, op_readdir_wp, op_release_wp,
      op_open_wp, op_create_wp, op_read_wp, op_write_wp, op_flush_wp, op_fsync_wp, op_statfs_wp, op_unlink_wp,
      op_mkdir_wp, op_rename_wp.
Qed.

(** ** The device *)

Definition fs_ok b : Prop := exists t f, fs_at root ro [] t f b.

Lemma wp_fs_ok {A} (m : Op A) r : (forall t f, wp m settled [] t f) -> fs_ok (r_fs r) -> fs_ok (r_fs (m r).2).
Proof.
  intros Hm (t & f & Hr). specialize (Hm t f r Hr). destruct (m r) as [[a|e] r']; cbn; [|done].
  destruct Hm as (ex & t' & f' & H & E). hnf in E. subst. by exists t', f'.
Qed.

Lemma handle_request_ok b mem spans : fs_ok b -> fs_ok (handle_request host b mem spans).1.2.
Proof.
  intros Hb. unfold handle_request. set (r0 := MkRun _ _ _ _ _).
  assert (fs_ok (r_fs r0)) as H0 by done. clearbody r0.
  pose proof (wp_fs_ok (read_struct FuseInHeader) r0 ltac:(intros; by apply wp_read_struct) H0) as H1.
  destruct (read_struct FuseInHeader r0) as [[[hdr|]|e] r1]; [|done..].
  pose proof (wp_fs_ok (put_bytes (FuseOutHeader 0 0 0)) r1 ltac:(intros; by apply wp_put_bytes) H1) as H2.
  destruct (put_bytes (FuseOutHeader 0 0 0) r1) as [[[|]|e] r2]; [|done..].
  case_match.
  { pose proof (wp_fs_ok _ r2 (op_forget_wp (ih_nodeid hdr)) H2) as Hk. by destruct (op_forget _ _) as [? r3]. }
  case_match.
  { pose proof (wp_fs_ok _ r2 op_batch_forget_wp H2) as Hk. by destruct (op_batch_forget _) as [? r3]. }
  pose proof (wp_fs_ok _ r2 (serve_op_wp (ih_opcode hdr) (ih_nodeid hdr)) H2) as Hk.
  destruct (serve_op _ _ _ _) as [[n|[er n]] r3]; done.
Qed.

Lemma reset_fds fds : forall b t f, fs_at root ro (fds ++ []) t f b ->
  fs_at root ro [] t f (fold_left (fun b fd => (call host (Close fd) b).2) fds b).
Proof.
  induction fds as [|fd fds IH]; intros b t f Hb; [done|]. cbn [fold_left]. apply IH. destruct Hb.
  unfold call. destruct (host unit (Close fd) (world b)) as [[] w]. split; cbn; try done.
  - apply log_ok_snoc; [done|]. split; [constructor|]. split; [|done]. intros ? [= <-]. rewrite fa_fds0. left.
  - rewrite open_fds_snoc. cbn. by apply remove_one_perm.
Qed.

Lemma reset_ok b : fs_ok b -> fs_ok (fs_reset host b).
Proof.
  intros (t & f & [H1 H2 H3 [H4 H4n H4'] H5 H6]). exists t, (MkFhs ∅ (fh_next f)). unfold fs_reset. apply reset_fds.
  split; cbn; try done.
  - by rewrite H2.
  - rewrite H6, H2, app_nil_r. cbn. by rewrite app_nil_r.
Qed.
End wp.

(** ** Whatever the guest does *)

Section device.
Context `{GM : GuestMemory M, GL : !GuestMemoryLaws M} {W : Type} (host : forall A, Sys A -> W -> A * W).
Context (host_names : forall p w l w' name,
  host _ (ReadDir p) w = (Ok l, w') -> Ok name ∈ l -> is_plain_name name = true).
#[local] Instance shared : VirtioBackend (FsBackend W) M := fs_backend host.

#[export] Instance fs_laws : VirtioLaws (FsBackend W) M.
Proof.
  split.
  - intros b. cbn. unfold MAX_QUEUE_SIZE. lia.
  - intros b i qs mem used b' qs' mem'. cbn. unfold fs_process_queue.
    destruct (qs !! i) as [q|] eqn:Eq; [|intros [= <- <- <- <-]; apply same_rings].
    pose proof (ring_serve_ring (serve_fs host) b q mem) as Hr.
    destruct (ring_serve _ _ _ _) as [[[u s] q'] m']. intros [= <- <- <- <-]. cbn in Hr.
    rewrite <- (list_insert_id qs i q Eq) at 1. apply Forall2_insert; [apply same_rings|done].
Qed.

Lemma fs_keeps root ro : backend_keeps (fs_ok root ro (W := W)).
Proof.
  split; cbn; try done.
  - intros b i qs mem Hb. unfold fs_process_queue. destruct (qs !! i) as [q|]; [|done].
    pose proof (ring_serve_keeps (serve_fs host) (fs_ok root ro)
      ltac:(intros; by apply handle_request_ok) b q mem Hb) as H.
    by destruct (ring_serve _ _ _ _) as [[[u s] q'] m'].
  - intros b. apply reset_ok.
Qed.

Lemma new_table_ok root ro m : table_ok root ro (InodeTable_new root ro m).
Proof.
  unfold InodeTable_new. split; cbn [it_root it_read_only by_id by_hostid next_id]; try done.
  - eexists. by rewrite lookup_singleton_eq.
  - intros i x [<- <-]%lookup_singleton_Some. exists []. by rewrite app_nil_r.
  - intros i x [<- <-]%lookup_singleton_Some. unfold FUSE_ROOT_ID. lia.
  - intros i x [<- <-]%lookup_singleton_Some. cbn. lia.
  - intros k i. rewrite lookup_singleton_Some. split.
    + intros [<- <-]. eexists. by rewrite lookup_singleton_eq.
    + intros (x & [<- <-]%lookup_singleton_Some & ->). done.
Qed.

Lemma new_ok tag root ro w b : FsBackend_new host tag root ro w = Ok b -> fs_ok root ro b.
Proof.
  unfold FsBackend_new. destruct (host _ (Metadata root) w) as [[m|e] w'] eqn:E; [|done]. intros [= <-].
  eexists _, _. split; [reflexivity|reflexivity|apply new_table_ok|by split|by intros [] ? ?|done].
Qed.

Lemma fs_run_ok tag root ro w b mem evs :
  FsBackend_new host tag root ro w = Ok b -> fs_ok root ro (behind (dev_run evs (Device_new b, mem)).1).
Proof. intros Hb. apply (dev_run_keeps (fs_ok root ro) (fs_keeps root ro)). by eapply new_ok. Qed.

(** C2: Whatever a guest writes to the device's registers, its queues and
    its memory, every path the device hands to the host is the shared
    directory followed by plain names, none of them [..], and every
    descriptor it reads, writes, syncs or closes is one it has opened in the
    directory and not closed. *)
Theorem fs_stays_in_root tag root ro w b mem evs l1 A (c : Sys A) a l2 :
  FsBackend_new host tag root ro w = Ok b ->
  calls (behind (dev_run evs (Device_new b, mem)).1) = l1 ++ Did c a :: l2 ->
  (forall p, p ∈ sys_paths c -> exists names, p = root ++ names /\
     Forall (fun name => name <> [] /\ name <> [x2e] /\ name <> [x2e; x2e] /\ x2f ∉ name /\ x00 ∉ name) names) /\
  (forall fd, sys_fd c = Some fd -> fd ∈ open_fds l1).
Proof.
  intros Hb E. destruct (fs_run_ok tag root ro w b mem evs Hb) as (t & f & [_ _ _ _ Hl _]).
  destruct (Hl l1 (Did c a) l2 E) as (Hp & Hfd & _). split; [|done]. intros p Hin.
  rewrite Forall_forall in Hp. destruct (Hp p Hin) as (names & -> & Hn). exists names. split; [done|].
  eapply Forall_impl; [exact Hn|]. intros name. apply plain_name.
Qed.

(** C12: A directory shared read-only is not changed: no call that could
    change a file, its attributes or the directory is made, and files are
    opened for reading only. *)
Theorem fs_read_only_changes_nothing tag root w b mem evs A (c : Sys A) a :
  FsBackend_new host tag root true w = Ok b ->
  Did c a ∈ calls (behind (dev_run evs (Device_new b, mem)).1) -> changes c = false.
Proof.
  intros Hb (l1 & l2 & E)%list_elem_of_split. destruct (fs_run_ok tag root true w b mem evs Hb) as (t & f & [_ _ _ _ Hl _]).
  by destruct (Hl l1 (Did c a) l2 E) as (_ & _ & H); apply H.
Qed.

(** C29: The device leaks no descriptor: what it has opened and not closed is
    what its table of handles holds, at most [MAX_OPEN_FILES]; the inodes it
    knows are at most [MAX_INODES], each with a reference count of at least
    one, found by its host identity and by no other, and the directory itself
    is always one of them. *)
Theorem fs_resources_bounded tag root ro w b mem evs :
  FsBackend_new host tag root ro w = Ok b ->
  let b' := behind (dev_run evs (Device_new b, mem)).1 in
  open_fds (calls b') ≡ₚ map snd (map_to_list (files (fhs b'))) /\
  Z.of_nat (length (open_fds (calls b'))) <= MAX_OPEN_FILES /\
  Z.of_nat (size (by_id (inodes b'))) <= MAX_INODES /\
  path_of (inodes b') FUSE_ROOT_ID = Some root /\
  forall id e, by_id (inodes b') !! id = Some e -> 1 <= in_refs e /\
    forall id', by_hostid (inodes b') !! (in_dev e, in_ino e) = Some id' <-> id' = id.
Proof.
  intros Hb b'. destruct (fs_run_ok tag root ro w b mem evs Hb) as (t & f & [<- <- Ht Hf _ Hfd]). fold b' in Ht, Hf, Hfd.
  clearbody b'. cbn in Hfd. split; [done|]. split.
  { rewrite Hfd. unfold held. rewrite length_map, length_map_to_list. apply Hf. }
  split; [apply Ht|]. destruct Ht as [_ _ (e0 & H3 & H3') _ _ H6 H7 _]. split.
  { unfold path_of. by rewrite H3, <-H3'. }
  intros id e He. split; [apply (H6 id e He)|]. intros id'. rewrite H7. split; [|intros ->; eauto].
  intros (x & Hx & Ek). assert (by_hostid (inodes b') !! (in_dev e, in_ino e) = Some id) as Hk by (apply H7; eauto).
  assert (by_hostid (inodes b') !! (in_dev e, in_ino e) = Some id') as Hk' by (apply H7; eauto). congruence.
Qed.
End device.
