(* ===== verification/FsReply.v ===== *)
(** * Requests and replies of the shared directory

    What the reader and the writer of [FsWire] do to spans that lie in guest
    memory and apart from each other: the request is read as the bytes of its
    spans one after another, and the reply appears so in the spans it is
    written to. With that, reads and writes of files are shown whole, from
    the guest's buffers to the calls of the host and back. *)

From Stdlib Require Import Strings.Byte.
From stdpp Require Import gmap.
From S2P Require Import Prelude Vsock Queue Virtio VirtioProofs Block BlockProofs FsWire Fs.

Section memory.
Context `{GM : GuestMemory M, GL : !GuestMemoryLaws M}.
Implicit Types (mem : M) (s : DescSpan) (spans post ws rs : list DescSpan).

Definition span_in mem s : Prop := 0 <= sp_addr s /\ 0 <= sp_len s /\ check_range mem (sp_addr s) (sp_len s) = true.

(** The bytes of the spans, one after another. *)
Fixpoint view mem spans : option bytes :=
  match spans with
  | [] => Some []
  | s :: spans => v1 ← read_slice mem (sp_addr s) (sp_len s); v2 ← view mem spans; Some (v1 ++ v2)
  end.

Definition off_spans spans (a n : Z) : Prop := Forall (fun s => off_range (sp_addr s) (sp_len s) a n) spans.

Fixpoint spans_apart spans : Prop :=
  match spans with
  | [] => True
  | s :: spans => off_spans spans (sp_addr s) (sp_len s) /\ spans_apart spans
  end.

Lemma view_cons mem s spans v :
  view mem (s :: spans) = Some v ->
  exists v1 v2, v = v1 ++ v2 /\ read_slice mem (sp_addr s) (sp_len s) = Some v1 /\ view mem spans = Some v2.
Proof.
  cbn. intros (v1 & E1 & (v2 & E2 & [= <-])%bind_Some)%bind_Some. eauto.
Qed.

Lemma view_app mem spans1 spans2 :
  view mem (spans1 ++ spans2) = (v1 ← view mem spans1; v2 ← view mem spans2; Some (v1 ++ v2)).
Proof.
  induction spans1 as [|s spans1 IH]; cbn.
  - by destruct (view mem spans2).
  - rewrite IH. destruct (read_slice _ _ _); cbn; [|done]. destruct (view mem spans1); cbn; [|done].
    destruct (view mem spans2); cbn; [|done]. by rewrite app_assoc.
Qed.

(** Part of a span. *)
Lemma span_part mem s v off k :
  span_in mem s -> read_slice mem (sp_addr s) (sp_len s) = Some v -> 0 <= off -> 0 <= k -> off + k <= sp_len s ->
  check_range mem (sp_addr s + off) k = true /\ read_slice mem (sp_addr s + off) k = Some (zslice off (off + k) v).
Proof.
  intros (Ha & Hl & Hc) Hr Ho Hk Hle. pose proof (mem_read_len mem _ _ _ Hr Hl) as Hz.
  split; [apply (mem_sub mem (sp_addr s) (sp_len s)); (done || lia)|].
  assert (check_range mem (sp_addr s) (off + k) = true) as Hc1
    by (apply (mem_sub mem (sp_addr s) (sp_len s)); (done || lia)).
  destruct (mem_read_split mem (sp_addr s) off k Hc1) as (b1 & b2 & E1 & E2 & E12); [lia..|].
  destruct (mem_read_split mem (sp_addr s) (off + k) (sp_len s - (off + k))) as (b3 & b4 & E3 & E4 & E34); [|lia..|].
  { by replace (off + k + (sp_len s - (off + k))) with (sp_len s) by lia. }
  replace (off + k + (sp_len s - (off + k))) with (sp_len s) in E34 by lia.
  rewrite E2. f_equal. rewrite E12 in E3. injection E3 as <-. rewrite Hr in E34. injection E34 as ->.
  pose proof (mem_read_len mem _ _ _ E1). pose proof (mem_read_len mem _ _ _ E2).
  rewrite <-app_assoc. rewrite zslice_middle; [done|lia..].
Qed.

Lemma part_address mem s off k :
  span_in mem s -> 0 <= off -> 0 < k -> off + k <= sp_len s -> wrapping_add 64 (sp_addr s) off = sp_addr s + off.
Proof.
  intros (Ha & Hl & Hc) Ho Hk Hle. pose proof (mem_top mem _ _ Hc Ha Hl). unfold wrapping_add.
  apply wrap_small. unfold in_width. lia.
Qed.

(** A cursor [k] bytes into [spans], with [ws] after them. *)
Definition cursor_at spans ws (k : Z) (cu : Cursor) : Prop :=
  exists pre post off, spans = pre ++ post /\ cu = MkCursor (post ++ ws) off /\
    k = fold_right (fun s n => sp_len s + n) 0 pre + off /\ 0 <= off /\
    match post with s :: _ => off <= sp_len s | [] => off = 0 end.

Lemma cursor_start spans ws : Forall (fun s => 0 <= sp_len s) spans -> cursor_at spans ws 0 (MkCursor (spans ++ ws) 0).
Proof. intros H. exists [], spans, 0. split_and!; try done. by destruct H. Qed.

Lemma cursor_cons s spans ws k cu : cursor_at spans ws k cu -> cursor_at (s :: spans) ws (sp_len s + k) cu.
Proof.
  intros (pre & post & off & -> & -> & -> & Ho & Hp). exists (s :: pre), post, off. split_and!; try done. cbn. lia.
Qed.

Lemma cursor_pre pre spans ws k cu :
  cursor_at spans ws k cu -> cursor_at (pre ++ spans) ws (fold_right (fun s n => sp_len s + n) 0 pre + k) cu.
Proof.
  intros H. induction pre as [|s pre IH]; [done|]. cbn. rewrite <-Z.add_assoc. by apply cursor_cons.
Qed.

Lemma view_len mem spans v :
  Forall (span_in mem) spans -> view mem spans = Some v -> zlen v = fold_right (fun s n => sp_len s + n) 0 spans.
Proof.
  intros H. revert v. induction H as [|s spans (Ha & Hl & Hc) Hs IH]; intros v.
  - by intros [= <-].
  - intros (v1 & v2 & -> & E1 & E2)%view_cons. rewrite zlen_app, (IH _ E2), (mem_read_len mem _ _ _ E1 Hl). done.
Qed.

Lemma spans_start mem spans :
  Forall (span_in mem) spans -> match spans with s :: _ => 0 <= sp_len s | [] => 0 = 0 end.
Proof. by intros [|s l (? & ? & ?) _]. Qed.

(** ** Reading *)

Lemma read_loop_view mem ws post : forall off n acc v,
  Forall (span_in mem) post -> Forall (fun s => sp_writable s = false) post -> view mem post = Some v ->
  0 <= off -> (match post with s :: _ => off <= sp_len s | [] => off = 0 end) -> 0 <= n -> off + n <= zlen v ->
  exists cu, read_loop mem (post ++ ws) off n acc = (Some (acc ++ zslice off (off + n) v), cu) /\
    cursor_at post ws (off + n) cu.
Proof.
  induction post as [|s post IH]; intros off n acc v Hin Hrd Hv Ho Hhd Hn Hle.
  { injection Hv as <-. change (zlen (@nil byte)) with 0 in Hle. assert (off = 0) by lia. assert (n = 0) by lia. subst.
    exists (MkCursor ws 0). split; [|by exists [], [], 0]. change (zslice 0 (0 + 0) (@nil byte)) with (@nil byte).
    rewrite app_nil_r. by destruct ws. }
  cbn [app read_loop]. apply Forall_cons in Hin as [Hs Hin]. apply Forall_cons in Hrd as [Hw Hrd].
  destruct (view_cons _ _ _ _ Hv) as (v1 & v2 & -> & E1 & E2). pose proof (mem_read_len mem _ _ _ E1 ltac:(apply Hs)) as Hz.
  destruct (Z.leb_spec n 0) as [Hn0|Hn0].
  { assert (n = 0) as -> by lia. rewrite Z.add_0_r. exists (MkCursor (s :: post ++ ws) off). split.
    - unfold zslice. by rewrite Z.sub_diag, ztake_nonpos, app_nil_r.
    - exists [], (s :: post), off. split_and!; done. }
  rewrite Hw. replace (Z.max 0 (sp_len s - off)) with (sp_len s - off) by lia.
  destruct (Z.eqb_spec (sp_len s - off) 0) as [H0|H0].
  { destruct (IH 0 n acc v2) as (cu & -> & Hcu); try done; [by apply (spans_start mem)|zlen_lia|].
    exists cu. split.
    - rewrite zslice_app_r by lia. do 4 f_equal; lia.
    - replace (off + n) with (sp_len s + (0 + n)) by lia. by apply cursor_cons. }
  set (k := Z.min n (sp_len s - off)).
  destruct (span_part mem s v1 off k Hs E1) as [_ Er]; [lia..|].
  rewrite (part_address mem s off k) by (done || lia). rewrite Er.
  destruct (Z.eqb_spec k n) as [Hk|Hk].
  - eexists. split; [|exists [], (s :: post), (off + k); split_and!; try done; cbn [fold_right]; lia].
    do 2 f_equal. rewrite Hk. f_equal. unfold zslice. rewrite zdrop_app_le, ztake_app_le by zlen_lia. done.
  - assert (k = sp_len s - off) as Hk' by lia. rewrite zlen_app in Hle.
    destruct (IH 0 (n - k) (acc ++ zslice off (off + k) v1) v2) as (cu & -> & Hcu); try done;
      [by apply (spans_start mem)|lia|lia|].
    exists cu. split.
    + do 2 f_equal. rewrite <-app_assoc. f_equal. unfold zslice. rewrite zdrop_app_le, ztake_app_ge by zlen_lia.
      f_equal; [rewrite !ztake_ge by zlen_lia; done|]. rewrite zdrop_nonpos by lia. f_equal. zlen_lia.
    + replace (off + n) with (sp_len s + (0 + (n - k))) by lia. by apply cursor_cons.
Qed.

Lemma view_split mem pre post v :
  view mem (pre ++ post) = Some v -> exists v1 v2, view mem pre = Some v1 /\ view mem post = Some v2 /\ v = v1 ++ v2.
Proof. rewrite view_app. intros (v1 & E1 & (v2 & E2 & [= <-])%bind_Some)%bind_Some. eauto. Qed.

(** The next [n] bytes of a request. *)
Lemma read_bytes_view mem rs ws v k n cu :
  Forall (span_in mem) rs -> Forall (fun s => sp_writable s = false) rs -> view mem rs = Some v ->
  cursor_at rs ws k cu -> 0 <= n -> k + n <= zlen v ->
  exists cu', read_bytes mem cu n = (Some (zslice k (k + n) v), cu') /\ cursor_at rs ws (k + n) cu'.
Proof.
  intros Hin Hrd Hv (pre & post & off & -> & -> & -> & Ho & Hhd) Hn Hle.
  apply Forall_app in Hin as [Hin1 Hin2]. apply Forall_app in Hrd as [_ Hrd].
  destruct (view_split _ _ _ _ Hv) as (v1 & v2 & E1 & E2 & ->). pose proof (view_len _ _ _ Hin1 E1) as Hz.
  rewrite zlen_app in Hle.
  destruct (read_loop_view mem ws post off n [] v2) as (cu' & Hr & Hcu); try done; [lia|].
  exists cu'. unfold read_bytes. cbn [cu_spans cu_off]. rewrite Hr. split.
  - do 2 f_equal. cbn [app]. rewrite zslice_app_r by lia. f_equal; lia.
  - rewrite <-Z.add_assoc. by apply cursor_pre.
Qed.

(** ** Writing *)

(** What a write to the spans did not touch. *)
Definition only_spans spans mem mem' : Prop :=
  (forall a n, check_range mem' a n = check_range mem a n) /\
  (forall a n, 0 <= n -> off_spans spans a n -> read_slice mem' a n = read_slice mem a n).

Lemma only_trans spans mem1 mem2 mem3 :
  only_spans spans mem1 mem2 -> only_spans spans mem2 mem3 -> only_spans spans mem1 mem3.
Proof. intros [H1 H1'] [H2 H2']. split; intros; [by rewrite H2, H1|by rewrite H2', H1']. Qed.

Lemma only_more spans spans' mem mem' :
  (forall s, s ∈ spans -> s ∈ spans') -> only_spans spans mem mem' -> only_spans spans' mem mem'.
Proof.
  intros Hs [H1 H2]. split; [done|]. intros a n Hn Hoff. apply H2; [done|]. apply Forall_forall. intros x Hx.
  by apply (proj1 (Forall_forall _ _) Hoff x), Hs.
Qed.

Lemma span_in_only spans mem mem' s : only_spans spans mem mem' -> span_in mem s -> span_in mem' s.
Proof. intros [H _] (? & ? & ?). split_and!; [done..|]. by rewrite H. Qed.

Lemma view_only spans mem mem' others :
  only_spans spans mem mem' -> Forall (span_in mem) others ->
  Forall (fun s => off_spans spans (sp_addr s) (sp_len s)) others -> view mem' others = view mem others.
Proof.
  intros [_ Ho] Hin Hoff. induction Hoff as [|s others Hs _ IH]; [done|]. apply Forall_cons in Hin as [(_ & Hl & _) Hin].
  cbn. by rewrite Ho, IH.
Qed.

(** Bytes written into a part of a span. *)
Lemma write_part mem s v off bs :
  span_in mem s -> read_slice mem (sp_addr s) (sp_len s) = Some v -> 0 <= off -> off + zlen bs <= sp_len s ->
  exists mem', write_slice mem (sp_addr s + off) bs = Some mem' /\
    read_slice mem' (sp_addr s) (sp_len s) = Some (splice v off bs) /\ only_spans [s] mem mem'.
Proof.
  intros Hs Hr Ho Hle. pose proof (zlen_nonneg bs). pose proof Hs as (Ha & Hl & Hc).
  pose proof (mem_read_len mem _ _ _ Hr Hl) as Hz.
  destruct (span_part mem s v off (zlen bs) Hs Hr) as [Hck _]; [lia..|].
  destruct (mem_write mem (sp_addr s + off) bs Hck) as (mem' & Hw & Hr' & Hoff). exists mem'. split; [done|].
  pose proof (mem_write_ranges _ _ _ _ Hw) as Hrg.
  assert (span_in mem' s) as Hs' by (split_and!; [done..|by rewrite Hrg]).
  destruct (mem_read mem' (sp_addr s) (sp_len s)) as (v' & Ev & Hz'); [by rewrite Hrg|lia|].
  split.
  - rewrite Ev, splice_in by lia. f_equal.
    destruct (span_part mem' s v' 0 off Hs' Ev) as [_ E1]; [lia..|].
    destruct (span_part mem' s v' off (zlen bs) Hs' Ev) as [_ E2]; [lia..|].
    destruct (span_part mem' s v' (off + zlen bs) (sp_len s - (off + zlen bs)) Hs' Ev) as [_ E3]; [lia..|].
    destruct (span_part mem s v 0 off Hs Hr) as [_ F1]; [lia..|].
    destruct (span_part mem s v (off + zlen bs) (sp_len s - (off + zlen bs)) Hs Hr) as [_ F3]; [lia..|].
    rewrite Hoff, F1 in E1 by lia. rewrite Hr' in E2. rewrite Hoff, F3 in E3 by lia.
    injection E1 as E1. injection E2 as E2. injection E3 as E3. unfold zslice in E1, E2, E3.
    rewrite !Z.sub_0_r, !Z.add_0_l, !(zdrop_nonpos 0) in E1 by lia.
    rewrite (ztake_ge _ (zdrop _ v)), (ztake_ge _ (zdrop _ v')) in E3 by zlen_lia.
    replace (off + zlen bs - off) with (zlen bs) in E2 by lia.
    rewrite E1, E3. rewrite <-(ztake_zdrop off v') at 1. f_equal.
    rewrite <-(ztake_zdrop (zlen bs) (zdrop off v')) at 1. rewrite zdrop_zdrop by lia. by rewrite <-E2.
  - split; [done|]. intros a n Hn Hoffs. apply Forall_cons_1 in Hoffs as [Hoffs _]. apply Hoff; [done|].
    cbn in Hoffs. unfold off_range in Hoffs. lia.
Qed.

Lemma splice_app_l v1 v2 off bs :
  0 <= off -> off + zlen bs <= zlen v1 -> splice (v1 ++ v2) off bs = splice v1 off bs ++ v2.
Proof.
  intros. pose proof (zlen_nonneg bs). rewrite !splice_in by zlen_lia.
  rewrite ztake_app_le, zdrop_app_le by lia. by rewrite <-!app_assoc.
Qed.

Lemma splice_app_r v1 v2 off bs :
  zlen v1 <= off -> off + zlen bs <= zlen v1 + zlen v2 -> splice (v1 ++ v2) off bs = v1 ++ splice v2 (off - zlen v1) bs.
Proof.
  intros. pose proof (zlen_nonneg bs). pose proof (zlen_nonneg v1). rewrite !splice_in by zlen_lia.
  rewrite ztake_app_ge, zdrop_app_ge by lia. rewrite <-!app_assoc. do 4 f_equal. lia.
Qed.

Lemma apart_off s post : off_spans post (sp_addr s) (sp_len s) -> Forall (fun x => off_spans [s] (sp_addr x) (sp_len x)) post.
Proof.
  intros H. eapply Forall_impl; [exact H|]. intros x Hx. apply Forall_singleton. unfold off_range in *. lia.
Qed.

Lemma write_loop_view post : forall mem off bs total v,
  Forall (span_in mem) post -> Forall (fun s => sp_writable s = true) post -> spans_apart post -> view mem post = Some v ->
  0 <= off -> (match post with s :: _ => off <= sp_len s | [] => off = 0 end) -> off + zlen bs <= zlen v ->
  exists mem' cu total', write_loop mem post off bs total = (true, mem', cu, total') /\
    view mem' post = Some (splice v off bs) /\ cursor_at post [] (off + zlen bs) cu /\ only_spans post mem mem'.
Proof.
  induction post as [|s post IH]; intros mem off bs total v Hin Hw Hap Hv Ho Hhd Hle; assert (Hb := zlen_nonneg bs).
  { injection Hv as <-. change (zlen (@nil byte)) with 0 in Hle. assert (off = 0) by lia. assert (zlen bs = 0) as Hz by lia.
    apply zlen_zero in Hz as ->. subst off. exists mem, (MkCursor [] 0), total. split_and!; try done. by exists [], [], 0. }
  cbn [write_loop]. apply Forall_cons in Hin as [Hs Hin]. apply Forall_cons in Hw as [Hw1 Hw]. destruct Hap as [Hap1 Hap].
  destruct (view_cons _ _ _ _ Hv) as (v1 & v2 & -> & E1 & E2). pose proof (mem_read_len mem _ _ _ E1 ltac:(apply Hs)) as Hz.
  rewrite zlen_app in Hle. destruct (Z.leb_spec (zlen bs) 0) as [Hn0|Hn0].
  { assert (zlen bs = 0) as Hz0 by lia. apply zlen_zero in Hz0 as ->. change (zlen (@nil byte)) with 0 in *. rewrite Z.add_0_r.
    exists mem, (MkCursor (s :: post) off), total. split_and!; try done.
    - rewrite Hv, splice_in by (change (zlen (@nil byte)) with 0; zlen_lia). change (zlen (@nil byte)) with 0.
      rewrite Z.add_0_r. cbn [app]. by rewrite ztake_zdrop.
    - exists [], (s :: post), off. rewrite app_nil_r. split_and!; done. }
  rewrite Hw1. cbn [negb]. replace (Z.max 0 (sp_len s - off)) with (sp_len s - off) by lia.
  destruct (Z.eqb_spec (sp_len s - off) 0) as [H0|H0].
  { destruct (IH mem 0 bs total v2) as (mem' & cu & total' & -> & Hv' & Hcu & Hon); try done; [by apply (spans_start mem)|lia|].
    exists mem', cu, total'. split_and!; [done| | |].
    - cbn. rewrite (proj2 Hon), E1 by (done || apply Hs). cbn. rewrite Hv'. cbn.
      rewrite splice_app_r by lia. do 3 f_equal. lia.
    - replace (off + zlen bs) with (sp_len s + (0 + zlen bs)) by lia. by apply cursor_cons.
    - eapply only_more; [|exact Hon]. intros. by right. }
  set (k := Z.min (zlen bs) (sp_len s - off)). assert (zlen (ztake k bs) = k) as Hk0 by zlen_lia.
  destruct (write_part mem s v1 off (ztake k bs) Hs E1) as (mem1 & Ew & Er & Hon1); [lia|lia|].
  rewrite (part_address mem s off k) by (done || lia). rewrite Ew.
  assert (view mem1 post = Some v2) as E2' by (rewrite (view_only [s] mem mem1); [done..|by apply apart_off]).
  destruct (Z.eqb_spec k (zlen bs)) as [Hk|Hk].
  - rewrite (ztake_ge k bs) in * by lia. eexists _, _, _. split_and!; [done| | |].
    + cbn. rewrite Er. cbn. rewrite E2'. cbn. by rewrite splice_app_l by lia.
    + exists [], (s :: post), (off + k). rewrite app_nil_r. split_and!; try done; cbn [fold_right]; lia.
    + eapply only_more; [|exact Hon1]. intros x ->%list_elem_of_singleton. left.
  - assert (k = sp_len s - off) as Hk' by lia.
    destruct (IH mem1 0 (zdrop k bs) (wrapping_add 32 total k) v2) as (mem' & cu & total' & -> & Hv' & Hcu & Hon); try done.
    { eapply Forall_impl; [exact Hin|]. intros x. by apply (span_in_only [s]). }
    { apply (spans_start mem); done. }
    { zlen_lia. }
    exists mem', cu, total'. split_and!; [done| | |].
    + cbn. rewrite (proj2 Hon), Er by (done || apply Hs). cbn. rewrite Hv'. cbn. f_equal.
      rewrite <-(ztake_zdrop k bs) at 3. rewrite <-splice_splice by zlen_lia.
      rewrite (splice_app_l v1 v2 off) by lia. rewrite splice_app_r by (rewrite ?zlen_splice; zlen_lia).
      do 2 f_equal. rewrite zlen_splice by lia. lia.
    + replace (off + zlen bs) with (sp_len s + (0 + zlen (zdrop k bs))) by zlen_lia. by apply cursor_cons.
    + apply (only_trans _ mem mem1).
      * eapply only_more; [|exact Hon1]. intros x ->%list_elem_of_singleton. left.
      * eapply only_more; [|exact Hon]. intros. by right.
Qed.

Lemma apart_app pre post :
  spans_apart (pre ++ post) -> spans_apart post /\ Forall (fun s => off_spans post (sp_addr s) (sp_len s)) pre.
Proof.
  induction pre as [|s pre IH]; [done|]. cbn. intros [H1 [H2 H3]%IH]. apply Forall_app in H1 as [_ H1]. by split; [|constructor].
Qed.

Lemma write_bytes_view mem ws v k bs cu total :
  Forall (span_in mem) ws -> Forall (fun s => sp_writable s = true) ws -> spans_apart ws -> view mem ws = Some v ->
  cursor_at ws [] k cu -> k + zlen bs <= zlen v ->
  exists mem' cu' total', write_bytes mem cu bs total = (true, mem', cu', total') /\
    view mem' ws = Some (splice v k bs) /\ cursor_at ws [] (k + zlen bs) cu' /\ only_spans ws mem mem'.
Proof.
  intros Hin Hw Hap Hv (pre & post & off & -> & -> & -> & Ho & Hhd) Hle.
  apply Forall_app in Hin as [Hin1 Hin2]. apply Forall_app in Hw as [_ Hw]. apply apart_app in Hap as [Hap Hoff].
  destruct (view_split _ _ _ _ Hv) as (v1 & v2 & E1 & E2 & ->). pose proof (view_len _ _ _ Hin1 E1) as Hz.
  rewrite zlen_app in Hle.
  destruct (write_loop_view post mem off bs total v2) as (mem' & cu' & total' & Hwr & Hv' & Hcu & Hon); try done; [lia|].
  exists mem', cu', total'. unfold write_bytes. cbn [cu_spans cu_off]. rewrite app_nil_r, Hwr. split_and!; [done| | |].
  - rewrite view_app, (view_only post mem mem' pre), E1, Hv' by done. cbn. rewrite splice_app_r by lia. do 3 f_equal. lia.
  - rewrite <-Z.add_assoc. by apply cursor_pre.
  - eapply only_more; [|exact Hon]. intros. apply elem_of_app. by right.
Qed.

(** ** Well-formed requests *)

(** A request in [rs] and room for a reply in [ws], the reply's header in one
    piece. *)
Record good_spans mem rs ws : Prop := {
  gs_rs : Forall (span_in mem) rs;
  gs_readable : Forall (fun s => sp_writable s = false) rs;
  gs_ws : Forall (span_in mem) ws;
  gs_writable : Forall (fun s => sp_writable s = true) ws;
  gs_apart : spans_apart ws;
  gs_off : Forall (fun s => off_spans ws (sp_addr s) (sp_len s)) rs;
  gs_header : exists s rest, ws = s :: rest /\ 16 <= sp_len s;
}.

Lemma good_only mem mem' rs ws : only_spans ws mem mem' -> good_spans mem rs ws -> good_spans mem' rs ws.
Proof.
  intros Ho []. split; try done; (apply (Forall_impl (span_in mem)); [done|intros s; by apply (span_in_only ws mem)]).
Qed.

Lemma skip_request rs ws : Forall (fun s => sp_writable s = false) rs -> (exists s rest, ws = s :: rest /\ sp_writable s = true) ->
  skip_readable (rs ++ ws) = ws.
Proof.
  intros H (s & rest & -> & Hs). induction H as [|r rs Hr _ IH]; cbn; [by rewrite Hs|]. by rewrite Hr.
Qed.

Lemma good_skip mem rs ws : good_spans mem rs ws -> skip_readable (rs ++ ws) = ws.
Proof.
  intros [_ Hr _ Hw _ _ (s & rest & -> & _)]. apply skip_request; [done|]. exists s, rest. split; [done|].
  by apply Forall_cons in Hw as [? _].
Qed.

Lemma rewrite_header_view mem rs ws v hdr :
  good_spans mem rs ws -> view mem ws = Some v -> zlen hdr = 16 ->
  view (rewrite_header mem (rs ++ ws) hdr) ws = Some (splice v 0 hdr) /\
  only_spans ws mem (rewrite_header mem (rs ++ ws) hdr).
Proof.
  intros Hg Hv Hh. unfold rewrite_header. rewrite (good_skip _ _ _ Hg). destruct Hg as [_ _ Hin _ Hap _ (s & rest & -> & Hl)].
  apply Forall_cons in Hin as [Hs Hin]. destruct Hap as [Hap _].
  destruct (view_cons _ _ _ _ Hv) as (v1 & v2 & -> & E1 & E2). pose proof (mem_read_len mem _ _ _ E1 ltac:(apply Hs)) as Hz.
  destruct (write_part mem s v1 0 hdr Hs E1) as (mem' & Hw & Hr & Ho); [lia..|]. rewrite Z.add_0_r in Hw. rewrite Hw. split.
  - cbn. rewrite Hr. cbn. rewrite (view_only [s] mem mem'), E2 by (done || by apply apart_off). cbn.
    by rewrite splice_app_l by lia.
  - eapply only_more; [|exact Ho]. intros x ->%list_elem_of_singleton. left.
Qed.
End memory.

Section requests.
Context `{GM : GuestMemory M, GL : !GuestMemoryLaws M} {W : Type} (host : forall A, Sys A -> W -> A * W).
Implicit Types (b : FsBackend W) (mem : M) (rs ws : list DescSpan) (r : @Run M W).
#[local] Existing Instances op_ret op_bind.

(** A run that has read [k] bytes of [req] and written [j] bytes of the reply
    buffer, which now holds [out]. *)
Record run_at rs ws (req out : bytes) (k j : Z) r : Prop := {
  ra_good : good_spans (r_mem r) rs ws;
  ra_req : view (r_mem r) rs = Some req;
  ra_rd : cursor_at rs ws k (r_rd r);
  ra_out : view (r_mem r) ws = Some out;
  ra_wr : cursor_at ws [] j (r_wr r);
}.

Lemma read_vec_at rs ws req out k j r n :
  run_at rs ws req out k j r -> 0 <= n -> k + n <= zlen req ->
  exists rd, read_vec n r = (Ok (Some (zslice k (k + n) req)), MkRun (r_mem r) rd (r_wr r) (r_total r) (r_fs r)) /\
    run_at rs ws req out (k + n) j (MkRun (r_mem r) rd (r_wr r) (r_total r) (r_fs r)).
Proof.
  intros [Hg Hq Hrd Ho Hwr] Hn Hle.
  destruct (read_bytes_view (r_mem r) rs ws req k n (r_rd r)) as (cu & Hr & Hcu); [apply Hg|apply Hg|done..|].
  exists cu. unfold read_vec, with_rd. rewrite Hr. cbn. by split.
Qed.

Lemma read_struct_at T `{Wire T} rs ws req out k j r :
  run_at rs ws req out k j r -> 0 <= wire_size T -> k + wire_size T <= zlen req ->
  exists rd, read_struct T r = (Ok (Some (wire_of (zslice k (k + wire_size T) req))),
      MkRun (r_mem r) rd (r_wr r) (r_total r) (r_fs r)) /\
    run_at rs ws req out (k + wire_size T) j (MkRun (r_mem r) rd (r_wr r) (r_total r) (r_fs r)).
Proof.
  intros Hr Hn Hle. destruct (read_vec_at _ _ _ _ _ _ _ _ Hr Hn Hle) as (rd & E & Hr'). exists rd. split; [|done].
  unfold read_struct, mbind, op_bind. by rewrite E.
Qed.

Lemma put_bytes_at rs ws req out k j r bs :
  run_at rs ws req out k j r -> j + zlen bs <= zlen out ->
  exists mem wr total, put_bytes bs r = (Ok true, MkRun mem (r_rd r) wr total (r_fs r)) /\
    run_at rs ws req (splice out j bs) k (j + zlen bs) (MkRun mem (r_rd r) wr total (r_fs r)) /\
    only_spans ws (r_mem r) mem.
Proof.
  intros [Hg Hq Hrd Ho Hwr] Hle.
  destruct (write_bytes_view (r_mem r) ws out j bs (r_wr r) (r_total r)) as (mem & cu & total & Hw & Hv & Hcu & Hon);
    [apply Hg..|done|done|done|].
  exists mem, cu, total. unfold put_bytes. rewrite Hw. split_and!; [done| |done]. split; cbn; try done.
  - by apply (good_only (r_mem r)).
  - by rewrite (view_only ws (r_mem r) mem rs) by (done || apply Hg).
Qed.

Lemma reply_at rs ws req out k j r bs :
  run_at rs ws req out k j r -> j + zlen bs <= zlen out ->
  exists mem wr total, reply bs r = (Ok (zlen bs), MkRun mem (r_rd r) wr total (r_fs r)) /\
    run_at rs ws req (splice out j bs) k (j + zlen bs) (MkRun mem (r_rd r) wr total (r_fs r)) /\
    only_spans ws (r_mem r) mem.
Proof.
  intros Hr Hle. destruct (put_bytes_at _ _ _ _ _ _ _ _ Hr Hle) as (mem & wr & total & E & H). exists mem, wr, total.
  split; [|done]. unfold reply, mbind, op_bind. by rewrite E.
Qed.

Definition header_of (req : bytes) : FuseInHeader := wire_of (zslice 0 40 req).

Lemma zlen_out_header len error unique : zlen (FuseOutHeader len error unique) = 16.
Proof. unfold FuseOutHeader. by rewrite !zlen_app, !zlen_le_bytes. Qed.

Lemma reply_bytes v h0 hdr body :
  zlen h0 = 16 -> zlen hdr = 16 -> 16 + zlen body <= zlen v ->
  splice (splice (splice v 0 h0) 16 body) 0 hdr = hdr ++ body ++ zdrop (16 + zlen body) v.
Proof.
  intros H0 H1 Hl. pose proof (zlen_nonneg body). replace 16 with (0 + zlen h0) at 1 by lia.
  rewrite splice_splice by lia. rewrite (splice_in v) by (rewrite ?zlen_app; lia).
  rewrite splice_in by zlen_lia. rewrite !ztake_nonpos by lia. cbn [app]. f_equal. rewrite Z.add_0_l, H1, <-app_assoc.
  rewrite zdrop_app_exact by done. do 2 f_equal. zlen_lia.
Qed.

(** The whole of a request whose handler runs to an answer that has put
    [body] after the header. *)
Lemma request_answered b b' mem rs ws req v body error n :
  good_spans mem rs ws -> view mem rs = Some req -> view mem ws = Some v -> 40 <= zlen req ->
  ih_opcode (header_of req) <> FUSE_FORGET -> ih_opcode (header_of req) <> FUSE_BATCH_FORGET ->
  16 + zlen body <= zlen v -> 0 <= n < 2 ^ 32 - 16 ->
  (forall r, run_at rs ws req (splice v 0 (FuseOutHeader 0 0 0)) 40 16 r -> r_fs r = b ->
     exists r', (serve_op host (ih_opcode (header_of req)) (ih_nodeid (header_of req)) r) =
         ((if error =? 0 then Ok n else Err (error, n)), r') /\ r_fs r' = b' /\
       view (r_mem r') ws = Some (splice (splice v 0 (FuseOutHeader 0 0 0)) 16 body) /\
       good_spans (r_mem r') rs ws /\ only_spans ws (r_mem r) (r_mem r')) ->
  exists mem', handle_request host b mem (rs ++ ws) = (16 + n, b', mem') /\
    view mem' ws = Some (FuseOutHeader (16 + n) error (ih_unique (header_of req)) ++ body ++ zdrop (16 + zlen body) v) /\
    only_spans ws mem mem'.
Proof.
  intros Hg Hq Hv Hl Hf Hbf Hfit Hn Hop. unfold handle_request. rewrite (good_skip _ _ _ Hg).
  set (r0 := MkRun _ _ _ _ _).
  assert (run_at rs ws req v 0 0 r0) as H0.
  { split; cbn; try done.
    - apply cursor_start. eapply Forall_impl; [apply (gs_rs _ _ _ Hg)|]. by intros s (_ & ? & _).
    - rewrite <-(app_nil_r ws) at 2. apply cursor_start. eapply Forall_impl; [apply (gs_ws _ _ _ Hg)|]. by intros s (_ & ? & _). }
  destruct (read_struct_at FuseInHeader _ _ _ _ _ _ _ H0) as (rd & E1 & H1); [done|done|]. rewrite E1. clear E1.
  change (0 + wire_size FuseInHeader) with 40 in *. fold (header_of req).
  assert (0 + zlen (FuseOutHeader 0 0 0) <= zlen v) as Hh by (rewrite zlen_out_header; pose proof (zlen_nonneg body); lia).
  destruct (put_bytes_at _ _ _ _ _ _ _ _ H1 Hh) as (mem2 & wr2 & total2 & E2 & H2 & Hon2). rewrite E2. clear E2.
  rewrite zlen_out_header in H2. cbn [r_mem r_rd r_wr r_fs r_total] in *.
  apply Z.eqb_neq in Hf, Hbf. rewrite Hf, Hbf.
  destruct (Hop _ H2 eq_refl) as (r' & -> & Hb & Hv' & Hg' & Hon3).
  set (out := splice (splice v 0 _) 16 body) in Hv'. set (hdr := FuseOutHeader (16 + n) error (ih_unique (header_of req))).
  assert ((let '(error0, body_len) := match (if error =? 0 then Ok n else Err (error, n)) with Ok x => (0, x) | Err e => e end in
           (error0, body_len)) = (error, n)) as Eans by (destruct (Z.eqb_spec error 0); subst; done).
  destruct (match _ with Ok x => (0, x) | Err e => e end) as [er bl]. injection Eans as -> ->.
  assert (wrapping_add 32 16 n = 16 + n) as -> by (unfold wrapping_add; apply wrap_small; unfold in_width; lia).
  fold hdr. destruct (rewrite_header_view (r_mem r') rs ws out hdr Hg' Hv') as [Hvf Honf]; [apply zlen_out_header|].
  eexists. split; [by rewrite Hb|]. split.
  - rewrite Hvf. unfold out, hdr. by rewrite reply_bytes by (done || apply zlen_out_header).
  - eapply only_trans; [exact Hon2|]. by eapply only_trans.
Qed.

Definition did {A} b (w : W) (c : Sys A) (a : A) : FsBackend W :=
  MkFs (tag b) (inodes b) (fhs b) w (calls b ++ [Did c a]).

(** A read of an open file puts into the guest's buffers, whatever spans
    they are cut into, the header that names the request and the length, then
    exactly the bytes the host read at that offset of that file; it makes no
    other call and touches no other memory. *)
Theorem fs_read_delivers b mem rs ws req v fd data w :
  let rd : FuseReadIn := wire_of (zslice 40 80 req) in
  let c := Pread fd (Z.min (ri_size rd) MAX_WRITE) (as_i64 (ri_offset rd)) in
  good_spans mem rs ws -> view mem rs = Some req -> view mem ws = Some v -> 80 <= zlen req ->
  ih_opcode (header_of req) = FUSE_READ -> files (fhs b) !! ri_fh rd = Some fd ->
  host _ c (world b) = (Ok data, w) -> zlen data <= Z.min (ri_size rd) MAX_WRITE -> 16 + zlen data <= zlen v ->
  exists mem', handle_request host b mem (rs ++ ws) = (16 + zlen data, did b w c (Ok data), mem') /\
    view mem' ws = Some (FuseOutHeader (16 + zlen data) 0 (ih_unique (header_of req)) ++ data ++
                         zdrop (16 + zlen data) v) /\
    only_spans ws mem mem'.
Proof.
  intros rd c Hg Hq Hv Hl Hop Hfh Hh Hd Hfit. pose proof (zlen_nonneg data). unfold MAX_WRITE in Hd.
  apply (request_answered b (did b w c (Ok data)) mem rs ws req v data 0); try done; try lia; try (rewrite Hop; done).
  intros r Hr <-. rewrite Hop. change (serve_op host FUSE_READ _) with (op_read host).
  destruct (read_struct_at FuseReadIn _ _ _ _ _ _ _ Hr) as (rc & E1 & H1); [done|cbn; lia|].
  unfold op_read, mbind, op_bind. rewrite E1. cbn [or_fail mret op_ret].
  change (40 + wire_size FuseReadIn) with 80 in *. fold rd. unfold get_fhs. cbn [r_fs]. rewrite Hfh. cbn [or_fail mret op_ret].
  unfold sys, call. cbn [r_fs]. fold c. rewrite Hh. cbn [ok_or_errno mret op_ret r_mem r_rd r_wr r_total].
  set (r2 := MkRun _ _ _ _ _). assert (run_at rs ws req (splice v 0 (FuseOutHeader 0 0 0)) 80 16 r2) as H2 by (by destruct H1; split).
  destruct (reply_at _ _ _ _ _ _ _ data H2) as (mem3 & wr3 & t3 & E3 & H3 & Ho3).
  { rewrite zlen_splice; rewrite ?zlen_out_header; lia. }
  rewrite E3. eexists. split; [reflexivity|]. by destruct H3; split_and!.
Qed.

(** A write to an open file hands the host exactly the bytes that follow
    the request's header in the guest's buffers, at that offset of that file,
    and answers with the count the host took; it makes no other call. *)
Theorem fs_write_lands b mem rs ws req v fd n w :
  let wi : FuseWriteIn := wire_of (zslice 40 80 req) in
  let c := Pwrite fd (zslice 80 (80 + wi_size wi) req) (as_i64 (wi_offset wi)) in
  good_spans mem rs ws -> view mem rs = Some req -> view mem ws = Some v -> 80 + wi_size wi <= zlen req -> 24 <= zlen v ->
  ih_opcode (header_of req) = FUSE_WRITE -> it_read_only (inodes b) = false -> wi_size wi <= MAX_WRITE ->
  files (fhs b) !! wi_fh wi = Some fd -> host _ c (world b) = (Ok n, w) ->
  exists mem', handle_request host b mem (rs ++ ws) = (24, did b w c (Ok n), mem') /\
    view mem' ws = Some (FuseOutHeader 24 0 (ih_unique (header_of req)) ++ FuseWriteOut (wrap 32 n) ++ zdrop 24 v) /\
    only_spans ws mem mem'.
Proof.
  intros wi c Hg Hq Hv Hl Hfit Hop Hro Hs Hfh Hh.
  assert (0 <= wi_size wi) as Hpos.
  { unfold wi. cbn. unfold field. pose proof (le_val_range (zslice 16 (16 + 4) (zslice 40 80 req))). lia. }
  assert (zlen (FuseWriteOut (wrap 32 n)) = 8) as Hz by (unfold FuseWriteOut; by rewrite !zlen_app, !zlen_le_bytes).
  replace (zdrop 24 v) with (zdrop (16 + zlen (FuseWriteOut (wrap 32 n))) v) by (by rewrite Hz).
  apply (request_answered b (did b w c (Ok n)) mem rs ws req v (FuseWriteOut (wrap 32 n)) 0 8);
    try done; try lia; try (rewrite Hop; done).
  intros r Hr <-. rewrite Hop. change (serve_op host FUSE_WRITE _) with (op_write host).
  destruct (read_struct_at FuseWriteIn _ _ _ _ _ _ _ Hr) as (rc & E1 & H1); [done|cbn; lia|].
  unfold op_write, mbind, op_bind. rewrite E1. cbn [or_fail mret op_ret]. change (40 + wire_size FuseWriteIn) with 80 in *. fold wi.
  unfold get_inodes at 1. cbn [r_fs]. rewrite Hro. destruct (Z.ltb_spec MAX_WRITE (wi_size wi)); [lia|].
  destruct (read_vec_at _ _ _ _ _ _ _ (wi_size wi) H1) as (rc2 & E2 & H2); [done|done|]. rewrite E2.
  cbn [or_fail mret op_ret]. unfold get_fhs. cbn [r_fs]. rewrite Hfh. cbn [or_fail mret op_ret].
  unfold sys, call. cbn [r_fs]. fold c. rewrite Hh. cbn [ok_or_errno mret op_ret r_mem r_rd r_wr r_total].
  set (r3 := MkRun _ _ _ _ _).
  assert (run_at rs ws req (splice v 0 (FuseOutHeader 0 0 0)) (80 + wi_size wi) 16 r3) as H3 by (by destruct H2; split).
  destruct (reply_at _ _ _ _ _ _ _ (FuseWriteOut (wrap 32 n)) H3) as (mem4 & wr4 & t4 & E4 & H4 & Ho4).
  { rewrite Hz. rewrite zlen_splice; rewrite ?zlen_out_header; lia. }
  rewrite E4, Hz. eexists. split; [reflexivity|]. by destruct H4; split_and!.
Qed.
End requests.
