(* ===== verification/FsHost.v ===== *)
(** * A host for the shared directory

    A small file system that answers the calls of [Fs], requests of a guest
    against it, and what they show: the theorems of [FsProofs] and [FsReply]
    at work, and a file that is lost to the guest by renaming it. *)

From Stdlib Require Import Strings.Byte.
From stdpp Require Import gmap.
From S2P Require Import Prelude Vsock Queue Virtio VirtioProofs Block BlockProofs FsWire Fs FsProofs FsReply.

(** Files by path, with their inode and content, and open descriptors. *)
Record Disk := MkDisk { dk_files : list (Path * (Z * bytes)); dk_fds : list (Z * Z); dk_next : Z }.

Definition demo_root : Path := [[x73]].

Definition stat (ino size mode : Z) : Meta := MkMeta 9 ino size 0 0 0 0 0 0 0 mode 1 0 0 0 512.

Fixpoint assoc {K V} `{EqDecision K} (k : K) (l : list (K * V)) : option V :=
  match l with
  | [] => None
  | (k', v) :: l => if bool_decide (k' = k) then Some v else assoc k l
  end.

Definition disk_stat (d : Disk) (p : Path) : result Meta (option Z) :=
  if bool_decide (p = demo_root) then Ok (stat 1 0 0x41ED) else
  match assoc p (dk_files d) with
  | Some (ino, data) => Ok (stat ino (zlen data) 0x81A4)
  | None => Err (Some ENOENT)
  end.

Definition disk_open (d : Disk) (p : Path) : result Z (option Z) * Disk :=
  match disk_stat d p with
  | Ok m => (Ok (dk_next d), MkDisk (dk_files d) ((dk_next d, m_ino m) :: dk_fds d) (dk_next d + 1))
  | Err e => (Err e, d)
  end.

Definition content (d : Disk) (fd : Z) : option (Z * bytes) :=
  ino ← assoc fd (dk_fds d); data ← assoc ino (map snd (dk_files d)); Some (ino, data).

Definition child_name (dir : Path) (f : Path * (Z * bytes)) : option bytes :=
  match drop (length dir) f.1 with [name] => if bool_decide (take (length dir) f.1 = dir) then Some name else None | _ => None end.

Definition demo_host (A : Type) (c : Sys A) : Disk -> A * Disk :=
  match c in Sys A return Disk -> A * Disk with
  | SymlinkMetadata p | Metadata p | EntryMetadata p => fun d => (disk_stat d p, d)
  | ReadDir p => fun d =>
      (Ok (map Ok (List.filter is_plain_name (omap (child_name p) (dk_files d)))), d)
  | FileOpen p => fun d => disk_open d p
  | Open p _ _ => fun d => disk_open d p
  | Close fd => fun d => (tt, MkDisk (dk_files d) (List.filter (fun x => negb (x.1 =? fd)) (dk_fds d)) (dk_next d))
  | Pread fd len offset => fun d =>
      match content d fd with
      | Some (_, data) => (Ok (ztake len (zdrop offset data)), d)
      | None => (Err (Some EBADF), d)
      end
  | Pwrite fd data offset => fun d =>
      match content d fd with
      | Some (ino, old) =>
          (Ok (zlen data), MkDisk (map (fun f => if f.2.1 =? ino then (f.1, (ino, splice old offset data)) else f)
                                     (dk_files d)) (dk_fds d) (dk_next d))
      | None => (Err (Some EBADF), d)
      end
  | Fsync _ => fun d => (Ok tt, d)
  | StatvfsOf _ => fun d => (Ok (MkStatvfs 0 0 0 0 0 512 255 512), d)
  | Rename p q => fun d =>
      match assoc p (dk_files d) with
      | Some f => (Ok tt, MkDisk ((q, f) :: List.filter (fun x => negb (bool_decide (x.1 = p))) (dk_files d)) (dk_fds d) (dk_next d))
      | None => (Err (Some ENOENT), d)
      end
  | Unlink p | Rmdir p | Mkdir p _ | Chmod p _ | Chown p _ _ | Truncate p _ | Utimensat p _ _ => fun d => (Err (Some EACCES), d)
  end.

Lemma demo_host_names p w l w' name :
  demo_host _ (ReadDir p) w = (Ok l, w') -> Ok name ∈ l -> is_plain_name name = true.
Proof.
  intros [= <- <-]. intros (x & [= ->] & H)%list_elem_of_fmap. apply list_elem_of_In, filter_In in H. tauto.
Qed.

Definition demo_disk0 : Disk := MkDisk [([[x73]; [x61]], (7, [x68; x69]))] [] 3.
Definition demo_fs (ro : bool) : FsBackend Disk :=
  MkFs [x74] (InodeTable_new demo_root ro (stat 1 0 0x41ED)) FhTable_new demo_disk0 [].

Lemma demo_fs_new ro : FsBackend_new demo_host [x74] demo_root ro demo_disk0 = Ok (demo_fs ro).
Proof. reflexivity. Qed.

(** ** A guest looks up a file *)

Definition fuse_request (opcode nodeid unique : Z) (body : bytes) : bytes :=
  le_bytes 4 (40 + zlen body) ++ le_bytes 4 opcode ++ le_bytes 8 unique ++ le_bytes 8 nodeid ++ replicate 16 x00 ++ body.

(** Two descriptors, the available and the used ring, the request at 200. *)
Definition demo_fs_ring (req : bytes) : Flat :=
  (le_bytes 8 200 ++ le_bytes 4 (zlen req) ++ le_bytes 2 1 ++ le_bytes 2 1) ++
  (le_bytes 8 400 ++ le_bytes 4 200 ++ le_bytes 2 2 ++ le_bytes 2 0) ++
  (le_bytes 2 0 ++ le_bytes 2 1 ++ replicate 28 x00) ++ replicate 136 x00 ++ req ++ replicate 600 x00.

Definition demo_driver : list (@DevEvent Flat) :=
  setup_queue 1 2 0 32 64 ++ [EvWrite VIRTIO_MMIO_STATUS (le_bytes 4 15); EvKick 1; EvServe].

(** The device after [evs], as the theorems see it. *)
#[local] Notation device_after b mem evs :=
  (behind (dev_run (VB := shared demo_host) evs (Device_new (VB := shared demo_host) b, mem)).1).

Definition demo_lookup : bytes := fuse_request FUSE_LOOKUP 1 77 [x61; x00].

Definition demo_call : Sys (result Meta (option Z)) := SymlinkMetadata [[x73]; [x61]].
Definition demo_answer : result Meta (option Z) := Ok (stat 7 2 0x81A4).

Lemma demo_lookup_calls :
  calls (device_after (demo_fs true) (demo_fs_ring demo_lookup) demo_driver) = [] ++ Did demo_call demo_answer :: [].
Proof. vm_compute. reflexivity. Qed.

Lemma fs_stays_in_root_witness :
  exists names, [[x73]; [x61]] = demo_root ++ names /\
    Forall (fun name => name <> [] /\ name <> [x2e] /\ name <> [x2e; x2e] /\ x2f ∉ name /\ x00 ∉ name) names.
Proof.
  pose proof (fs_stays_in_root demo_host demo_host_names [x74] demo_root true demo_disk0 (demo_fs true)
    (demo_fs_ring demo_lookup) demo_driver [] _ demo_call demo_answer []
    (demo_fs_new true) demo_lookup_calls) as [H _].
  apply H. apply list_elem_of_here.
Defined.

Lemma fs_read_only_changes_nothing_witness :
  Did demo_call demo_answer ∈ calls (device_after (demo_fs true) (demo_fs_ring demo_lookup) demo_driver) /\
  changes demo_call = false.
Proof.
  assert (Did demo_call demo_answer ∈ calls (device_after (demo_fs true) (demo_fs_ring demo_lookup) demo_driver)) as H by (rewrite demo_lookup_calls; left).
  split; [exact H|].
  exact (fs_read_only_changes_nothing demo_host demo_host_names [x74] demo_root demo_disk0 (demo_fs true)
    (demo_fs_ring demo_lookup) demo_driver _ demo_call demo_answer (demo_fs_new true) H).
Defined.

(** ** A guest reads and writes a file *)

Definition spans_of (req : bytes) : list DescSpan := [MkSpan 0 (zlen req) false; MkSpan 200 150 true].

(** The reply to a request. *)
Definition ask (b : FsBackend Disk) (req : bytes) : bytes * FsBackend Disk :=
  let '(len, b, mem) := handle_request demo_host b (req ++ replicate 400 x00 : Flat) (spans_of req) in
  (zslice 200 (200 + len) mem, b).

Definition demo_opened (ro : bool) : FsBackend Disk :=
  (ask (ask (demo_fs ro) (fuse_request FUSE_LOOKUP 1 1 [x61; x00])).2 (fuse_request FUSE_OPEN 2 2 (replicate 8 x00))).2.

Lemma fs_resources_bounded_witness :
  let b' := device_after (demo_fs true) (demo_fs_ring demo_lookup) demo_driver in
  open_fds (calls b') ≡ₚ map snd (map_to_list (files (fhs b'))) /\ path_of (inodes b') FUSE_ROOT_ID = Some demo_root.
Proof.
  pose proof (fs_resources_bounded demo_host demo_host_names [x74] demo_root true demo_disk0 (demo_fs true)
    (demo_fs_ring demo_lookup) demo_driver (demo_fs_new true)) as (H1 & _ & _ & H2 & _).
  split; [exact H1|exact H2].
Defined.

(** Requests and buffers cut into pieces. *)
Definition demo_rs : list DescSpan := [MkSpan 0 30 false; MkSpan 30 60 false].
Definition demo_ws : list DescSpan := [MkSpan 100 17 true; MkSpan 130 20 true].

Lemma demo_spans (mem : Flat) : zlen mem = 200 -> good_spans mem demo_rs demo_ws.
Proof.
  intros Hm. assert (forall a n, 0 <= a -> 0 <= n -> a + n <= 200 -> flat_check mem a n = true) as Hc.
  { intros. unfold flat_check. rewrite Hm. destruct (Z.leb_spec 0 a), (Z.leb_spec 0 n), (Z.leb_spec (a + n) (Z.min 200 (2 ^ 64))); lia || done. }
  split.
  - repeat constructor; cbn; try lia; apply Hc; lia.
  - repeat constructor.
  - repeat constructor; cbn; try lia; apply Hc; lia.
  - repeat constructor.
  - split; [|split; [constructor|done]]. apply Forall_singleton. unfold off_range. cbn. lia.
  - unfold off_spans. repeat (apply Forall_cons_2 || apply Forall_nil_2); unfold off_range; cbn; lia.
  - eexists _, _. split; [reflexivity|]. cbn. lia.
Qed.

Definition demo_read_req : bytes := fuse_request FUSE_READ 2 78 (le_bytes 8 1 ++ le_bytes 8 0 ++ le_bytes 4 10 ++ replicate 30 x00).
Definition demo_write_req : bytes :=
  fuse_request FUSE_WRITE 2 79 (le_bytes 8 1 ++ le_bytes 8 1 ++ le_bytes 4 2 ++ replicate 20 x00 ++ [x41; x42] ++ replicate 8 x00).
Definition demo_mem (req : bytes) : Flat := req ++ replicate (Z.to_nat (200 - zlen req)) x00.

Ltac demo_side := first [by apply demo_spans | by (vm_compute; reflexivity) | by (vm_compute; congruence)].

Lemma fs_read_delivers_witness :
  exists mem' b', handle_request demo_host (demo_opened true) (demo_mem demo_read_req) (demo_rs ++ demo_ws) = (18, b', mem') /\
    view mem' demo_ws = Some (FuseOutHeader 18 0 78 ++ [x68; x69] ++ replicate 19 x00).
Proof.
  destruct (fs_read_delivers (M := Flat) demo_host (demo_opened true) (demo_mem demo_read_req) demo_rs demo_ws demo_read_req
    (replicate 37 x00) 3 [x68; x69] (world (demo_opened true))) as (mem' & H1 & H2 & _);
    [demo_side..|].
  exists mem'. eexists. split; [exact H1|exact H2].
Defined.

Lemma fs_write_lands_witness :
  exists mem' b', handle_request demo_host (demo_opened false) (demo_mem demo_write_req) (demo_rs ++ demo_ws) = (24, b', mem') /\
    assoc [[x73]; [x61]] (dk_files (world b')) = Some (7, [x68; x41; x42]).
Proof.
  destruct (fs_write_lands (M := Flat) demo_host (demo_opened false) (demo_mem demo_write_req) demo_rs demo_ws demo_write_req
    (replicate 37 x00) 3 2 (MkDisk [([[x73]; [x61]], (7, [x68; x41; x42]))] [(3, 7)] 4)) as (mem' & H1 & _);
    [demo_side..|].
  exists mem'. eexists. split; [exact H1|reflexivity].
Defined.

(** ** A renamed file *)



(** A reply header cut by the end of its first span is written past it, and
    the guest finds zero where the number of its request should be. *)
Lemma split_header_is_lost :
  let req := fuse_request FUSE_ACCESS 1 (2 ^ 40 + 5) [] in
  let '(len, _, mem) := handle_request demo_host (demo_fs false) (req ++ replicate 400 x00 : Flat)
    [MkSpan 0 40 false; MkSpan 200 8 true; MkSpan 300 8 true] in
  len = 16 /\ zslice 208 216 mem = le_bytes 8 (2 ^ 40 + 5) /\ zslice 300 308 mem = le_bytes 8 0.
Proof. vm_compute. split_and!; reflexivity. Qed.
