(* ===== verification/FsNodes.v ===== *)
(** * The references a guest holds

    The guest counts the lookups it was answered for each node and the
    forgets it sent. [Nodes] is that count, with the path the node was first
    found at; the inode table of [Fs] implements it, its index by host
    identity and its saturating counters included. *)

From Stdlib Require Import Strings.Byte.
From stdpp Require Import gmap.
From S2P Require Import Prelude FsWire Fs FsProofs.

(** What a guest may hold: for each node, its path, its host identity and the
    lookups not forgotten. *)
Definition Nodes : Type := gmap Z (Path * (Z * Z) * Z).

Inductive NodeEvent :=
  | Looked (p : Path) (m : Meta)
  | Forgot (id n : Z).

(** The node of a host file that is held. *)
Definition holds_file (ns : Nodes) (key : Z * Z) (id : Z) : Prop :=
  exists p n, ns !! id = Some (p, key, n).

(** A lookup answers with the node that is held for the file, or with a new
    one while there is room; a forget takes its references back. *)
Inductive node_step (ns : Nodes) : NodeEvent -> option Z -> Nodes -> Prop :=
  | ns_again p m id q n : ns !! id = Some (q, (m_dev m, m_ino m), n) ->
      node_step ns (Looked p m) (Some id) (<[ id := (q, (m_dev m, m_ino m), n + 1) ]> ns)
  | ns_new p m id : (forall i, ~ holds_file ns (m_dev m, m_ino m) i) -> ns !! id = None ->
      Z.of_nat (size ns) < MAX_INODES ->
      node_step ns (Looked p m) (Some id) (<[ id := (p, (m_dev m, m_ino m), 1) ]> ns)
  | ns_full p m : (forall i, ~ holds_file ns (m_dev m, m_ino m) i) -> MAX_INODES <= Z.of_nat (size ns) ->
      node_step ns (Looked p m) None ns
  | ns_kept id n q k c : id <> FUSE_ROOT_ID -> ns !! id = Some (q, k, c) -> n < c ->
      node_step ns (Forgot id n) None (<[ id := (q, k, c - n) ]> ns)
  | ns_gone id n q k c : id <> FUSE_ROOT_ID -> ns !! id = Some (q, k, c) -> c <= n ->
      node_step ns (Forgot id n) None (delete id ns)
  | ns_unknown id n : id = FUSE_ROOT_ID \/ ns !! id = None -> node_step ns (Forgot id n) None ns.

(** What the table says of the nodes. *)
Definition nodes_of (t : InodeTable) : Nodes :=
  (fun e => (in_path e, (in_dev e, in_ino e), in_refs e)) <$> by_id t.

Definition table_step (t : InodeTable) (e : NodeEvent) : option Z * InodeTable :=
  match e with Looked p m => intern t p m | Forgot id n => (None, forget t id n) end.

Lemma nodes_lookup t id : nodes_of t !! id = (fun e => (in_path e, (in_dev e, in_ino e), in_refs e)) <$> by_id t !! id.
Proof. apply lookup_fmap. Qed.

Lemma nodes_size t : size (nodes_of t) = size (by_id t).
Proof. exact (map_size_fmap (fun e => (in_path e, (in_dev e, in_ino e), in_refs e)) (by_id t)). Qed.

Lemma nodes_insert t t' id e :
  by_id t' = <[ id := e ]> (by_id t) ->
  nodes_of t' = <[ id := (in_path e, (in_dev e, in_ino e), in_refs e) ]> (nodes_of t).
Proof. intros H. unfold nodes_of. by rewrite H, fmap_insert. Qed.

Lemma nodes_delete t t' id : by_id t' = delete id (by_id t) -> nodes_of t' = delete id (nodes_of t).
Proof. intros H. unfold nodes_of. by rewrite H, fmap_delete. Qed.

Lemma nodes_holds root ro t k id : table_ok root ro t -> holds_file (nodes_of t) k id <-> by_hostid t !! k = Some id.
Proof.
  intros Ht. rewrite (to_keys _ _ _ Ht). unfold holds_file. rewrite nodes_lookup. split.
  - intros (p & n & H). apply fmap_Some in H as (e & He & [= -> -> ->]). eauto.
  - intros (e & He & ->). rewrite He. cbn. eauto.
Qed.

(** The table refines the guest's count, as long as no count overflows. *)
Lemma table_refines root ro t e :
  table_ok root ro t -> (forall id x, by_id t !! id = Some x -> in_refs x < 2 ^ 64 - 1) ->
  (match e with Forgot _ n => 0 <= n | Looked p _ => in_root root p end) ->
  table_ok root ro (table_step t e).2 /\ node_step (nodes_of t) e (table_step t e).1 (nodes_of (table_step t e).2).
Proof.
  intros Ht Hlt He. destruct e as [p m|id n].
  - split; [by apply intern_ok|]. cbn [table_step]. unfold intern. cbv zeta.
    destruct (by_hostid t !! (m_dev m, m_ino m)) as [id|] eqn:Ek.
    + destruct (proj1 (to_keys _ _ _ Ht _ id) Ek) as (e & Ee & Hk). rewrite Ee. cbn [fst snd].
      erewrite (nodes_insert t (MkInodes _ _ _ _ _)) by done. cbn [in_path in_dev in_ino in_refs]. specialize (Hlt id e Ee).
      rewrite Z.min_r by lia. rewrite <-Hk. apply ns_again. rewrite nodes_lookup, Ee. cbn. by rewrite Hk.
    + assert (forall i, ~ holds_file (nodes_of t) (m_dev m, m_ino m) i) as Hno.
      { intros i Hi. apply (nodes_holds root ro) in Hi; [|done]. congruence. }
      unfold inodes_full. destruct (Z.leb_spec MAX_INODES (Z.of_nat (size (by_id t)))) as [Hf|Hf]; cbn [fst snd].
      * apply ns_full; [done|]. by rewrite nodes_size.
      * erewrite (nodes_insert t (MkInodes _ _ _ _ _)) by done. cbn [in_path in_dev in_ino in_refs].
        apply ns_new; [done| |by rewrite nodes_size]. rewrite nodes_lookup. destruct (by_id t !! next_id t) as [x|] eqn:E; [|done].
        pose proof (to_ids _ _ _ Ht _ _ E). lia.
  - split; [by apply forget_ok|]. cbn. unfold forget. destruct (Z.eqb_spec id FUSE_ROOT_ID) as [->|Hr].
    { apply ns_unknown. by left. }
    destruct (by_id t !! id) as [e|] eqn:Ee.
    2: { apply ns_unknown. right. by rewrite nodes_lookup, Ee. }
    pose proof (to_refs _ _ _ Ht id e Ee).
    assert (nodes_of t !! id = Some (in_path e, (in_dev e, in_ino e), in_refs e)) as Hn by (by rewrite nodes_lookup, Ee).
    destruct (Z.eqb_spec (Z.max 0 (in_refs e - n)) 0) as [Hz|Hz].
    + erewrite (nodes_delete t (MkInodes _ _ _ _ _)) by done. eapply ns_gone; [done|exact Hn|lia].
    + erewrite (nodes_insert t (MkInodes _ _ _ _ _)) by done. cbn [in_path in_dev in_ino in_refs]. rewrite Z.max_r by lia. eapply ns_kept; [done|exact Hn|lia].
Qed.

(** Lookups and forgets in any order, with their answers. *)
Fixpoint table_run (t : InodeTable) (es : list NodeEvent) : list (option Z) * InodeTable :=
  match es with
  | [] => ([], t)
  | e :: es => let '(a, t) := table_step t e in let '(as_, t) := table_run t es in (a :: as_, t)
  end.

Inductive nodes_run : Nodes -> list NodeEvent -> list (option Z) -> Nodes -> Prop :=
  | nr_nil ns : nodes_run ns [] [] ns
  | nr_cons ns e a ns1 es as_ ns2 : node_step ns e a ns1 -> nodes_run ns1 es as_ ns2 -> nodes_run ns (e :: es) (a :: as_) ns2.

Definition event_ok (root : Path) (e : NodeEvent) : Prop :=
  match e with Forgot _ n => 0 <= n | Looked p _ => in_root root p end.

Lemma refs_grow t e bound :
  0 <= bound -> (match e with Forgot _ n => 0 <= n | _ => True end) ->
  (forall id x, by_id t !! id = Some x -> in_refs x <= bound) ->
  forall id x, by_id (table_step t e).2 !! id = Some x -> in_refs x <= bound + 1.
Proof.
  intros H0 Hn Hb id x. assert (forall i y, by_id t !! i = Some y -> in_refs y <= bound + 1) as Hb'.
  { intros i y Hy. specialize (Hb i y Hy). lia. }
  destruct e as [p m|i n]; cbn [table_step snd].
  - unfold intern. cbv zeta. destruct (by_hostid t !! _) as [j|]; cbn [by_id snd].
    + destruct (by_id t !! j) as [y|] eqn:E; [|apply Hb']. intros [[<- <-]|[_ Hx]]%lookup_insert_Some; [|by eapply Hb'].
      cbn. specialize (Hb j y E). lia.
    + destruct (inodes_full t); [apply Hb'|]. cbn. intros [[<- <-]|[_ Hx]]%lookup_insert_Some; [cbn; lia|by eapply Hb'].
  - unfold forget. destruct (i =? FUSE_ROOT_ID); [apply Hb'|]. destruct (by_id t !! i) as [y|] eqn:E; [|apply Hb'].
    destruct (_ =? 0); cbn.
    + intros [_ Hx]%lookup_delete_Some. by eapply Hb'.
    + intros [[<- <-]|[_ Hx]]%lookup_insert_Some; [|by eapply Hb']. cbn. specialize (Hb i y E). lia.
Qed.

Lemma table_run_refines root ro es : forall t bound,
  table_ok root ro t -> 0 <= bound -> (forall id x, by_id t !! id = Some x -> in_refs x <= bound) ->
  bound + zlen es < 2 ^ 64 - 1 -> Forall (event_ok root) es ->
  nodes_run (nodes_of t) es (table_run t es).1 (nodes_of (table_run t es).2) /\ table_ok root ro (table_run t es).2.
Proof.
  induction es as [|e es IH]; intros t bound Ht H0 Hb Hlen Hev; cbn [table_run].
  { split; [constructor|done]. }
  apply Forall_cons in Hev as [He Hev]. rewrite zlen_cons in Hlen. pose proof (zlen_nonneg es).
  destruct (table_refines root ro t e Ht) as [Ht' Hs]; [|done|].
  { intros id x Hx. specialize (Hb id x Hx). lia. }
  pose proof (refs_grow t e bound H0 ltac:(by destruct e) Hb) as Hb'.
  destruct (table_step t e) as [a t1]. cbn [fst snd] in *.
  destruct (IH t1 (bound + 1) Ht' ltac:(lia) Hb' ltac:(lia) Hev) as [Hr Hok].
  destruct (table_run t1 es) as [as_ t2]. split; [by econstructor|done].
Qed.

(** C30: The inode table keeps the guest's references exactly: in any order of
    lookups and forgets, the answers and the nodes it holds are those of a
    guest's own count, so a node stays, with its path, while a reference to
    it is left, a file held has one node, and a node forgotten is gone. *)
Theorem inode_table_counts_references root ro m es :
  zlen es < 2 ^ 63 -> Forall (event_ok root) es ->
  let t := InodeTable_new root ro m in
  nodes_run (nodes_of t) es (table_run t es).1 (nodes_of (table_run t es).2).
Proof.
  intros Hl Hev t. apply (table_run_refines root ro es t 1); [apply new_table_ok|lia| |lia|done].
  intros id x Hx. cbn in Hx. apply (lookup_singleton_Some (M := gmap Z)) in Hx as [<- <-]. cbn. lia.
Qed.

Definition demo_meta : Meta := MkMeta 9 7 2 0 0 0 0 0 0 0 0x81A4 1 0 0 0 512.
Definition demo_events : list NodeEvent :=
  [Looked [[x61]] demo_meta; Looked [[x62]] demo_meta; Forgot 2 1; Looked [[x61]] demo_meta; Forgot 2 5; Looked [[x61]] demo_meta].

Lemma inode_table_counts_references_witness :
  (table_run (InodeTable_new [] false (MkMeta 9 1 0 0 0 0 0 0 0 0 0 1 0 0 0 512)) demo_events).1 =
    [Some 2; Some 2; None; Some 2; None; Some 3] /\
  exists ns, nodes_run (nodes_of (InodeTable_new [] false (MkMeta 9 1 0 0 0 0 0 0 0 0 0 1 0 0 0 512))) demo_events
    [Some 2; Some 2; None; Some 2; None; Some 3] ns.
Proof.
  split; [vm_compute; reflexivity|].
  assert (forall name, is_plain_name name = true -> in_root [] [name]) as Hp.
  { intros name H. exists [name]. split; [done|]. by apply Forall_singleton. }
  pose proof (inode_table_counts_references [] false (MkMeta 9 1 0 0 0 0 0 0 0 0 0 1 0 0 0 512) demo_events
    ltac:(vm_compute; reflexivity) ltac:(repeat constructor; cbn; try lia; by apply Hp)) as H.
  cbv zeta in H. eexists. exact H.
Defined.
