(* ===== verification/Children.v ===== *)
(** * Children of the guest

    [crates/shuru-guest/src/children.rs]: the table of children the guest has
    started, and the reaping of them. The kernel reuses a pid once a process
    is reaped; the table must not mistake the next holder of a pid for the
    child it knew.

    [procs] are the guest's children as the kernel has them: the process that
    holds a pid, by a number of its own, and its wait status once it has
    exited. The closure a child is registered with is known by the process it
    was registered for. Each function runs under the table's lock, so a step
    is one of them, an exit, or an orphan coming to the guest. [told] is what
    the closures got, [signalled] which process each signal reached. *)

From stdpp Require Import gmap.
From S2P Require Import Prelude.

Record Proc := MkProc { pr_id : nat; pr_status : option Z }.

(** A registered child. *)
Record Watch := MkWatch { w_pid : Z; w_serial : Z }.

Record Children := MkChildren {
  serial : Z;
  children : gmap Z (Z * nat);
  procs : gmap Z Proc;
  forked : nat;
  (* what happened *)
  registered : gmap Z nat;
  exited : gmap nat Z;
  told : list (nat * Z);
  signalled : list (Watch * nat * Z);
}.

Definition Children_new : Children := MkChildren 0 ∅ ∅ 0 ∅ ∅ [] [].

(** ** The kernel *)

(** A new child of the guest at [pid], which no process holds. *)
Definition fork (s : Children) (pid : Z) : Children :=
  MkChildren (serial s) (children s) (<[ pid := MkProc (forked s) None ]> (procs s)) (S (forked s))
    (registered s) (exited s) (told s) (signalled s).

Definition exit (s : Children) (pid status : Z) : Children :=
  match procs s !! pid with
  | Some (MkProc id None) =>
      MkChildren (serial s) (children s) (<[ pid := MkProc id (Some status) ]> (procs s)) (forked s)
        (registered s) (<[ id := status ]> (exited s)) (told s) (signalled s)
  | _ => s
  end.

(** [waitpid(pid, &status, WNOHANG)] *)
Definition waitpid (s : Children) (pid : Z) : option Z * Children :=
  match procs s !! pid with
  | Some (MkProc _ (Some status)) =>
      (Some status, MkChildren (serial s) (children s) (delete pid (procs s)) (forked s)
                      (registered s) (exited s) (told s) (signalled s))
  | _ => (None, s)
  end.

(** ** The table *)

Definition Watched_insert (s : Children) (pid : Z) (on_exit : nat) : Watch * Children :=
  let n := serial s + 1 in
  (MkWatch pid n,
   MkChildren n (<[ pid := (n, on_exit) ]> (children s)) (procs s) (forked s)
     (<[ n := on_exit ]> (registered s)) (exited s) (told s) (signalled s)).

(** [start] and [spawn_with], when the child starts at [pid]. *)
Definition start (s : Children) (pid : Z) : Watch * Children :=
  Watched_insert (fork s pid) pid (forked s).

(** [spawn], whose [pidfd_open] may fail; the child is then killed and waited
    for. *)
Definition spawn (s : Children) (pid : Z) (pidfd_ok : bool) : option Watch * Children :=
  if pidfd_ok then let '(w, s) := start s pid in (Some w, s)
  else (None, (waitpid (exit (fork s pid) pid 9) pid).2).

Definition signal (s : Children) (child : Watch) (sig : Z) : Children :=
  match children s !! w_pid child with
  | Some (n, _) =>
      if n =? w_serial child then
        match procs s !! w_pid child with
        | Some p => MkChildren (serial s) (children s) (procs s) (forked s) (registered s) (exited s) (told s)
                      (signalled s ++ [(child, pr_id p, sig)])
        | None => s
        end
      else s
  | None => s
  end.

(** A child that was reaped leaves the table, and its closure runs. *)
Definition unregister (s : Children) (pid status : Z) : Children :=
  match children s !! pid with
  | Some (_, on_exit) =>
      MkChildren (serial s) (delete pid (children s)) (procs s) (forked s) (registered s) (exited s)
        (told s ++ [(on_exit, status)]) (signalled s)
  | None => s
  end.

Definition reap_one (s : Children) (pid : Z) : Children :=
  match waitpid s pid with
  | (Some status, s) => unregister s pid status
  | (None, s) => s
  end.

(** [locked] says a start holds the lock. *)
Definition reap_watched (s : Children) (locked : bool) : bool * Children :=
  if locked then (false, s) else (true, fold_left reap_one (map fst (map_to_list (children s))) s).

(** [waitpid(-1, ..)] gives the exited children in an order of the kernel's. *)
Definition reap_all (s : Children) (order : list Z) : Children := fold_left reap_one order s.

(** ** Steps *)

Inductive child_step (s : Children) : Children -> Prop :=
  | cs_start pid : procs s !! pid = None -> child_step s (start s pid).2
  | cs_spawn pid ok : procs s !! pid = None -> child_step s (spawn s pid ok).2
  | cs_orphan pid : procs s !! pid = None -> child_step s (fork s pid)
  | cs_exit pid status : child_step s (exit s pid status)
  | cs_signal child sig : child_step s (signal s child sig)
  | cs_reap_watched locked : child_step s (reap_watched s locked).2
  | cs_reap_all order : child_step s (reap_all s order).

Inductive child_reachable : Children -> Prop :=
  | cr_new : child_reachable Children_new
  | cr_step s s' : child_reachable s -> child_step s s' -> child_reachable s'.

(** ** Invariant *)










(** ** Results *)


(** Reaping in any order. *)
Lemma reap_other s pid q : q <> pid -> children (reap_one s pid) !! q = children s !! q /\ procs (reap_one s pid) !! q = procs s !! q.
Proof.
  intros Hne. unfold reap_one, waitpid. destruct (procs s !! pid) as [[id [st|]]|]; [|done..]. unfold unregister. cbn.
  destruct (children s !! pid) as [[n i]|]; cbn; rewrite ?lookup_delete_ne by done; done.
Qed.

Lemma reap_same s pid n id st :
  children s !! pid = Some (n, id) -> procs s !! pid = Some (MkProc id (Some st)) ->
  (id, st) ∈ told (reap_one s pid) /\ children (reap_one s pid) !! pid = None.
Proof.
  intros Hc Hp. unfold reap_one, waitpid. rewrite Hp. unfold unregister. cbn. rewrite Hc. cbn. split; [|apply lookup_delete_eq].
  apply elem_of_app. right. apply list_elem_of_here.
Qed.

Lemma told_mono order : forall s x, x ∈ told s -> x ∈ told (fold_left reap_one order s).
Proof.
  induction order as [|pid order IH]; intros s x Hx; [done|]. apply IH. unfold reap_one, waitpid.
  destruct (procs s !! pid) as [[id [st|]]|]; [|done..]. unfold unregister. cbn.
  destruct (children s !! pid) as [[n i]|]; [|done]. cbn. apply elem_of_app. by left.
Qed.

Lemma reap_order order pid n id st : forall s,
  pid ∈ order -> children s !! pid = Some (n, id) -> procs s !! pid = Some (MkProc id (Some st)) ->
  (id, st) ∈ told (fold_left reap_one order s).
Proof.
  induction order as [|q order IH]; intros s Hin Hc Hp; [by apply not_elem_of_nil in Hin|]. cbn.
  destruct (decide (q = pid)) as [->|Hne].
  - apply told_mono. by eapply reap_same.
  - apply elem_of_cons in Hin as [->|Hin]; [done|]. destruct (reap_other s q pid) as [E1 E2]; [done|].
    apply IH; [done|by rewrite E1|by rewrite E2].
Qed.

(** No exit is missed: after a pass of the reaper that met every exited
    child, and after [reap_watched] when no start held the lock, the closure
    of every registered child that had exited has been told its status. *)
Theorem reaping_tells_all s pid n id status :
  child_reachable s -> children s !! pid = Some (n, id) -> procs s !! pid = Some (MkProc id (Some status)) ->
  (forall order, pid ∈ order -> (id, status) ∈ told (reap_all s order)) /\
  (id, status) ∈ told (reap_watched s false).2.
Proof.
  intros Hr Hc Hp. split.
  - intros order Hin. by eapply reap_order.
  - cbn. eapply reap_order; [|done..]. change pid with (pid, (n, id)).1. by apply list_elem_of_fmap_2, elem_of_map_to_list.
Qed.

(** ** Example: a pid used again *)

Definition demo_children : Children :=
  let s := (start Children_new 100).2 in
  let s := exit s 100 7 in
  let s := reap_all s [100] in
  let s := (start s 100).2 in
  let s := signal s (MkWatch 100 1) 15 in
  let s := signal s (MkWatch 100 2) 15 in
  exit s 100 0.

Lemma demo_children_reachable : child_reachable demo_children.
Proof.
  unfold demo_children. do 7 (eapply cr_step; [|by constructor]). apply cr_new.
Qed.


Lemma reaping_tells_all_witness : (1%nat, 0) ∈ told (reap_watched demo_children false).2.
Proof.
  apply (reaping_tells_all demo_children 100 2 1 0 demo_children_reachable); vm_compute; reflexivity.
Defined.
