(* ===== verification/Idle.v ===== *)
(** * When a sandbox is idle

    [crates/shuru-node/src/serve/idle.rs], the policy that stops a sandbox
    nothing has used, and [crates/shuru-proxy/src/flows.rs], which tells how
    long ago each open connection of its guest carried bytes.

    Instants and durations are nanoseconds. [Instant::now()] is an argument;
    the events of a run come in the order of their times. [uses] remembers
    when the sandbox was seen in use and until when. *)

From stdpp Require Import gmap.
From S2P Require Import Prelude.

Definition SECOND : Z := 1000 * 1000 * 1000.
Definition SESSION_POLL : Z := 5 * SECOND.
Definition BUSY_CPU : Z := 20 * 1000 * 1000.
Definition WAIT_LIMIT : Z := 10 * 60 * SECOND.

Definition as_micros (d : Z) : Z := d / 1000.
Definition as_millis (d : Z) : Z := d / (1000 * 1000).
(** [saturating_duration_since] *)
Definition since (now at_ : Z) : Z := Z.max 0 (now - at_).

(** ** Connections *)

Record Flow := MkFlow { from_guest : Z; to_guest : option Z }.
Definition Flows : Type := gmap Z Flow.
Record FlowAge := MkAge { from_guest_ms : Z; to_guest_ms : option Z }.

Definition opened (fs : Flows) (serial now : Z) : Flows := <[ serial := MkFlow now None ]> fs.
Definition sent_by_guest (fs : Flows) (serial now : Z) : Flows :=
  match fs !! serial with Some f => <[ serial := MkFlow now (to_guest f) ]> fs | None => fs end.
Definition sent_to_guest (fs : Flows) (serial now : Z) : Flows :=
  match fs !! serial with Some f => <[ serial := MkFlow (from_guest f) (Some now) ]> fs | None => fs end.
Definition closed (fs : Flows) (serial : Z) : Flows := delete serial fs.

Definition age_of (now : Z) (f : Flow) : FlowAge :=
  MkAge (as_millis (since now (from_guest f))) ((fun at_ => as_millis (since now at_)) <$> to_guest f).
Definition ages (fs : Flows) (now : Z) : list FlowAge := map (age_of now) (map snd (map_to_list fs)).

Definition in_use (flow : FlowAge) (after : Z) : bool :=
  (from_guest_ms flow <? as_millis WAIT_LIMIT) ||
  match to_guest_ms flow with Some to => to <? as_millis after | None => false end.

(** [flows.iter().any(|flow| in_use(flow, after))] *)
Definition on_the_network (fs : Flows) (now after : Z) : bool := existsb (fun flow => in_use flow after) (ages fs now).

(** ** Activity *)

Definition busy_cpu (used_usec over : Z) : bool :=
  negb (over =? 0) && (as_micros BUSY_CPU * as_micros over <=? used_usec * 1000000).

Record Activity := MkActivity {
  busy : Z;
  idle_since : Z;
  working : bool;
  checking : bool;
  cpu : option (Z * Z);
}.

Definition Activity_new (now : Z) : Activity := MkActivity 0 now false false None.

Definition Activity_busy (a : Activity) : Activity :=
  MkActivity (busy a + 1) (idle_since a) (working a) (checking a) (cpu a).
Definition drop_busy (a : Activity) (now : Z) : Activity :=
  let n := busy a - 1 in
  MkActivity n (if n =? 0 then now else idle_since a) (working a) (checking a) (cpu a).
Definition restart (a : Activity) (now : Z) : Activity := MkActivity (busy a) now false (checking a) None.

Definition saw_cpu (a : Activity) (cpu_usec now : Z) : Activity :=
  let since_ := match cpu a with
    | Some (at_, before) =>
        if busy_cpu (Z.max 0 (cpu_usec - before)) (since now at_) then Z.max (idle_since a) now else idle_since a
    | None => idle_since a
    end in
  MkActivity (busy a) since_ (working a) (checking a) (Some (now, cpu_usec)).

Definition due (a : Activity) (now after : Z) : bool * Activity :=
  let wait := if working a then Z.min SESSION_POLL after else after in
  if checking a || (0 <? busy a) || (since now (idle_since a) <? wait) then (false, a)
  else (true, MkActivity (busy a) (idle_since a) (working a) true (cpu a)).
Definition drop_checking (a : Activity) : Activity :=
  MkActivity (busy a) (idle_since a) (working a) false (cpu a).

Definition saw_work (a : Activity) (w : bool) (now : Z) : Activity :=
  MkActivity (busy a) (if w then Z.max (idle_since a) now else idle_since a) w (checking a) (cpu a).

Definition idle (a : Activity) (now after : Z) : bool :=
  (busy a =? 0) && negb (working a) && (after <=? since now (idle_since a)).

(** [stop_when] of [serve/sandboxes.rs] with the lock on the VM held: whether
    the VM stops. *)
Definition stop_idle (a : Activity) (now after : Z) : bool := idle a now after.

(** ** Runs *)

Inductive IdleEvent :=
  | IBusy
  | IDone
  | IRestart
  | ICpu (usec read_at : Z)
  | IDue (after : Z)
  | IChecked (work : bool)
  | ICheckEnd.

(** The activity, the requests open, and the instants of use so far. *)
Record IdleRun := MkIdleRun { ir_act : Activity; ir_open : Z; ir_uses : list Z; ir_found : bool }.

(** [None] is an event that cannot happen: nothing is open to end, or a
    reading from the future. *)
Definition idle_event (r : IdleRun) (e : IdleEvent) (now : Z) : option IdleRun :=
  let a := ir_act r in
  match e with
  | IBusy => Some (MkIdleRun (Activity_busy a) (ir_open r + 1) (ir_uses r) (ir_found r))
  | IDone => if 0 <? ir_open r then Some (MkIdleRun (drop_busy a now) (ir_open r - 1) (now :: ir_uses r) (ir_found r)) else None
  | IRestart => Some (MkIdleRun (restart a now) (ir_open r) (now :: ir_uses r) false)
  | ICpu usec at_ =>
      if now <? at_ then None else
      let used := match cpu a with
                  | Some (was, before) => busy_cpu (Z.max 0 (usec - before)) (since at_ was)
                  | None => false
                  end in
      Some (MkIdleRun (saw_cpu a usec at_) (ir_open r) (if used then at_ :: ir_uses r else ir_uses r) (ir_found r))
  | IDue after => Some (MkIdleRun (due a now after).2 (ir_open r) (ir_uses r) (ir_found r))
  | IChecked w => Some (MkIdleRun (saw_work a w now) (ir_open r) (if w then now :: ir_uses r else ir_uses r) w)
  | ICheckEnd => Some (MkIdleRun (drop_checking a) (ir_open r) (ir_uses r) (ir_found r))
  end.

(** Events with their times, none before [now]. *)
Fixpoint idle_run (r : IdleRun) (now : Z) (es : list (Z * IdleEvent)) : option (IdleRun * Z) :=
  match es with
  | [] => Some (r, now)
  | (t, e) :: es => if t <? now then None else r ← idle_event r e t; idle_run r t es
  end.

Definition idle_start (now : Z) : IdleRun := MkIdleRun (Activity_new now) 0 [now] false.

Record idle_ok (r : IdleRun) (now : Z) : Prop := {
  io_open : busy (ir_act r) = ir_open r;
  io_nonneg : 0 <= ir_open r;
  io_found : working (ir_act r) = ir_found r;
  io_since : idle_since (ir_act r) <= now;
  (* while a request is open, its end is still to count *)
  io_uses : ir_open r = 0 -> Forall (fun t => t <= idle_since (ir_act r)) (ir_uses r);
  io_past : Forall (fun t => t <= now) (ir_uses r);
}.

Lemma uses_later (l : list Z) x y : x <= y -> Forall (fun t => t <= x) l -> Forall (fun t => t <= y) l.
Proof. intros H Hl. eapply Forall_impl; [exact Hl|]. cbn. intros. lia. Qed.

Lemma idle_event_ok r e now now' r' :
  idle_ok r now -> now <= now' -> idle_event r e now' = Some r' -> idle_ok r' now'.
Proof.
  intros [H1 H2 H3 H4 H5 H6] Hle. assert (Forall (fun t => t <= now') (ir_uses r)) as H6' by (by eapply uses_later).
  destruct e as [| | |usec at_|after|w|]; cbn.
  - intros [= <-]. split; cbn; try done; lia.
  - destruct (Z.ltb_spec 0 (ir_open r)) as [Ho|]; [|done]. intros [= <-]. split; cbn; rewrite ?H1; try done; try lia.
    + case_match; lia.
    + intros E. rewrite E, Z.eqb_refl. by constructor.
    + by constructor.
  - intros [= <-]. split; cbn; try done; try lia; [intros _|]; by constructor.
  - destruct (Z.ltb_spec now' at_) as [|Hat]; [done|]. intros [= <-].
    destruct (cpu (ir_act r)) as [[was before]|] eqn:Ec; cbn [ir_uses].
    + destruct (busy_cpu _ _) eqn:Eb; split; cbn; rewrite ?Ec, ?Eb; try done; try lia.
      * intros E. constructor; [lia|]. eapply uses_later; [|by apply H5]. lia.
      * by constructor.
    + split; cbn; rewrite ?Ec; try done; lia.
  - intros [= <-]. unfold due. destruct (_ || _ || _); split; cbn; try done; lia.
  - intros [= <-]. split; cbn; try done; [destruct w; lia| |destruct w; [by constructor|done]].
    intros E. destruct w; [|by apply H5]. constructor; [lia|]. eapply uses_later; [|by apply H5]. lia.
  - intros [= <-]. split; cbn; try done; lia.
Qed.

Lemma idle_run_ok es : forall r now r' now', idle_ok r now -> idle_run r now es = Some (r', now') -> idle_ok r' now'.
Proof.
  induction es as [|[t e] es IH]; intros r now r' now' Hr; cbn.
  - by intros [= <- <-].
  - destruct (Z.ltb_spec t now) as [|Ht]; [done|]. destruct (idle_event r e t) as [r1|] eqn:E; [|done]. cbn.
    apply IH. by eapply idle_event_ok.
Qed.

(** A sandbox is stopped as idle only if no request or connection is
    open, the last look at its guest since the boot found nothing at work, and
    nothing it was seen to be used by, a request, a session or connection at
    work, CPU time or the boot itself, is less than the idle time old. *)
Theorem parked_only_when_unused t0 es r now later after :
  idle_run (idle_start t0) t0 es = Some (r, now) -> now <= later -> 0 < after ->
  stop_idle (ir_act r) later after = true ->
  ir_open r = 0 /\ ir_found r = false /\ Forall (fun t => after <= later - t) (ir_uses r).
Proof.
  intros Hr Hl Ha Hs. assert (idle_ok r now) as [H1 H2 H3 H4 H5 H6].
  { eapply idle_run_ok; [|exact Hr]. split; cbn; try done; try lia; [intros _|]; repeat constructor; lia. }
  unfold stop_idle, idle in Hs. apply andb_true_iff in Hs as [[Hb Hw]%andb_true_iff Hd]. apply Z.eqb_eq in Hb.
  apply negb_true_iff in Hw. apply Z.leb_le in Hd. unfold since in Hd. rewrite H1 in Hb. rewrite H3 in Hw.
  split_and!; [done..|]. eapply Forall_impl; [by apply H5|]. cbn. intros. lia.
Qed.

(** A sandbox that stays unused is stopped: once the idle time has gone
    by with nothing open and no check under way, a look at the guest is due,
    and if it finds nothing at work the sandbox is stopped. *)
Theorem unused_is_parked a now after :
  busy a = 0 -> checking a = false -> after <= since now (idle_since a) ->
  (due a now after).1 = true /\ stop_idle (saw_work (due a now after).2 false now) now after = true.
Proof.
  intros Hb Hc Hd. unfold due. rewrite Hc, Hb. cbn [orb Z.ltb].
  destruct (Z.ltb_spec (since now (idle_since a)) (if working a then Z.min SESSION_POLL after else after)) as [Hlt|_].
  { destruct (working a); lia. }
  split; [done|]. unfold stop_idle, idle. cbn. rewrite ?Hb. cbn. by apply Z.leb_le.
Qed.

(** A connection holds a sandbox exactly while it is open and the guest
    sent on it within [WAIT_LIMIT] or the remote within the idle time, to the
    millisecond. *)
Theorem network_use_is_recent fs now after :
  on_the_network fs now after = true <->
  exists serial f, fs !! serial = Some f /\
    (as_millis (since now (from_guest f)) < as_millis WAIT_LIMIT \/
     exists t, to_guest f = Some t /\ as_millis (since now t) < as_millis after).
Proof.
  unfold on_the_network, ages. rewrite existsb_exists. split.
  - intros (x & Hx & Hu). apply in_map_iff in Hx as (f & <- & Hf). apply in_map_iff in Hf as ([s f'] & <- & Hf).
    apply list_elem_of_In, elem_of_map_to_list in Hf. exists s, f'. split; [done|].
    unfold in_use in Hu. cbn in Hu. apply orb_true_iff in Hu as [Hu|Hu]; [left; by apply Z.ltb_lt|right].
    destruct (to_guest f') as [t|]; [|done]. exists t. split; [done|]. by apply Z.ltb_lt.
  - intros (s & f & Hf & Hu). exists (age_of now f). split.
    + apply in_map, in_map_iff. exists (s, f). split; [done|]. by apply list_elem_of_In, elem_of_map_to_list.
    + unfold in_use. cbn. apply orb_true_iff. destruct Hu as [Hu|(t & -> & Hu)]; [left|right]; by apply Z.ltb_lt.
Qed.

(** ** Example *)

Definition demo_idle : list (Z * IdleEvent) :=
  [(10, IBusy); (20 * SECOND, IDone); (30 * SECOND, ICpu 0 (30 * SECOND)); (31 * SECOND, ICpu 900 (31 * SECOND));
   (60 * SECOND, IDue (30 * SECOND)); (61 * SECOND, IChecked false); (61 * SECOND, ICheckEnd)].

Lemma parked_only_when_unused_witness :
  match idle_run (idle_start 0) 0 demo_idle with
  | Some (r, now) => stop_idle (ir_act r) now (30 * SECOND) = true /\ ir_open r = 0 /\
      Forall (fun t => 30 * SECOND <= now - t) (ir_uses r)
  | None => False
  end.
Proof.
  destruct (idle_run (idle_start 0) 0 demo_idle) as [[r now]|] eqn:E; [|by vm_compute in E].
  assert (stop_idle (ir_act r) now (30 * SECOND) = true) as Hs by (vm_compute in E; injection E as <- <-; reflexivity).
  split; [exact Hs|].
  destruct (parked_only_when_unused 0 demo_idle r now now (30 * SECOND) E ltac:(lia) ltac:(unfold SECOND; lia) Hs) as (H1 & _ & H2).
  split; [exact H1|exact H2].
Defined.

Lemma unused_is_parked_witness :
  (due (Activity_new 0) (40 * SECOND) (30 * SECOND)).1 = true.
Proof.
  apply (unused_is_parked (Activity_new 0) (40 * SECOND) (30 * SECOND)); [reflexivity|reflexivity|vm_compute; congruence].
Defined.
