(* ===== verification/Seccomp.v ===== *)
(** * The seccomp filters of the node

    [crates/shuru-node/src/seccomp.rs], on x86_64: the filters the VMM and the
    network process install before they meet a guest.

    System call numbers and flags are those of [libc]. A filter built by the
    [seccompiler] crate is run by a parameter, [run_filter], which does what
    the crate documents; the one program written by hand, against x32 calls,
    is run by the kernel's machine for classic BPF. Of stacked filters the
    kernel takes the strictest answer. *)

From stdpp Require Import gmap.
From S2P Require Import Prelude.

(** ** Numbers *)

Definition SYS_ioctl : Z := 16.
Definition SYS_mmap : Z := 9.
Definition SYS_mprotect : Z := 10.
Definition SYS_madvise : Z := 28.
Definition SYS_clone : Z := 56.
Definition SYS_prctl : Z := 157.
Definition SYS_clone3 : Z := 435.
Definition SYS_socket : Z := 41.
Definition SYS_openat2 : Z := 437.
Definition SYS_open : Z := 2.
Definition SYS_creat : Z := 85.
Definition SYS_accept4 : Z := 288.
Definition SYS_brk : Z := 12.
Definition SYS_clock_gettime : Z := 228.
Definition SYS_clock_nanosleep : Z := 230.
Definition SYS_close : Z := 3.
Definition SYS_epoll_ctl : Z := 233.
Definition SYS_epoll_pwait : Z := 281.
Definition SYS_eventfd2 : Z := 290.
Definition SYS_exit : Z := 60.
Definition SYS_exit_group : Z := 231.
Definition SYS_fallocate : Z := 285.
Definition SYS_fcntl : Z := 72.
Definition SYS_fdatasync : Z := 75.
Definition SYS_fsync : Z := 74.
Definition SYS_futex : Z := 202.
Definition SYS_getpid : Z := 39.
Definition SYS_getrandom : Z := 318.
Definition SYS_gettid : Z := 186.
Definition SYS_lseek : Z := 8.
Definition SYS_mremap : Z := 25.
Definition SYS_munmap : Z := 11.
Definition SYS_nanosleep : Z := 35.
Definition SYS_openat : Z := 257.
Definition SYS_ppoll : Z := 271.
Definition SYS_pread64 : Z := 17.
Definition SYS_pwrite64 : Z := 18.
Definition SYS_read : Z := 0.
Definition SYS_readv : Z := 19.
Definition SYS_recvfrom : Z := 45.
Definition SYS_recvmsg : Z := 47.
Definition SYS_restart_syscall : Z := 219.
Definition SYS_rseq : Z := 334.
Definition SYS_rt_sigaction : Z := 13.
Definition SYS_rt_sigprocmask : Z := 14.
Definition SYS_rt_sigreturn : Z := 15.
Definition SYS_sched_getaffinity : Z := 204.
Definition SYS_sched_yield : Z := 24.
Definition SYS_sendmsg : Z := 46.
Definition SYS_sendto : Z := 44.
Definition SYS_set_robust_list : Z := 273.
Definition SYS_setsockopt : Z := 54.
Definition SYS_shutdown : Z := 48.
Definition SYS_sigaltstack : Z := 131.
Definition SYS_tgkill : Z := 234.
Definition SYS_write : Z := 1.
Definition SYS_writev : Z := 20.
Definition SYS_epoll_wait : Z := 232.
Definition SYS_poll : Z := 7.
Definition SYS_acct : Z := 163.
Definition SYS_add_key : Z := 248.
Definition SYS_bpf : Z := 321.
Definition SYS_capset : Z := 126.
Definition SYS_chroot : Z := 161.
Definition SYS_delete_module : Z := 176.
Definition SYS_execve : Z := 59.
Definition SYS_execveat : Z := 322.
Definition SYS_fanotify_init : Z := 300.
Definition SYS_finit_module : Z := 313.
Definition SYS_init_module : Z := 175.
Definition SYS_io_uring_enter : Z := 426.
Definition SYS_io_uring_register : Z := 427.
Definition SYS_io_uring_setup : Z := 425.
Definition SYS_kexec_file_load : Z := 320.
Definition SYS_kexec_load : Z := 246.
Definition SYS_keyctl : Z := 250.
Definition SYS_mount : Z := 165.
Definition SYS_name_to_handle_at : Z := 303.
Definition SYS_open_by_handle_at : Z := 304.
Definition SYS_perf_event_open : Z := 298.
Definition SYS_personality : Z := 135.
Definition SYS_pivot_root : Z := 155.
Definition SYS_process_vm_readv : Z := 310.
Definition SYS_process_vm_writev : Z := 311.
Definition SYS_ptrace : Z := 101.
Definition SYS_quotactl : Z := 179.
Definition SYS_reboot : Z := 169.
Definition SYS_request_key : Z := 249.
Definition SYS_setgid : Z := 106.
Definition SYS_setgroups : Z := 116.
Definition SYS_setns : Z := 308.
Definition SYS_setregid : Z := 114.
Definition SYS_setresgid : Z := 119.
Definition SYS_setresuid : Z := 117.
Definition SYS_setreuid : Z := 113.
Definition SYS_setuid : Z := 105.
Definition SYS_swapoff : Z := 168.
Definition SYS_swapon : Z := 167.
Definition SYS_umount2 : Z := 166.
Definition SYS_unshare : Z := 272.
Definition SYS_userfaultfd : Z := 323.
Definition SYS_ioperm : Z := 173.
Definition SYS_iopl : Z := 172.
Definition SYS_modify_ldt : Z := 154.
Definition SYS_uselib : Z := 134.

Definition PROT_EXEC : Z := 4.
Definition MADV_DONTNEED : Z := 4.
Definition CLONE_THREAD : Z := 0x10000.
Definition CLONE_NEWUSER : Z := 0x10000000.
Definition PR_SET_NAME : Z := 15.
Definition FIONBIO : Z := 0x5421.
Definition AF_INET : Z := 2.
Definition AF_INET6 : Z := 10.
Definition SC_EPERM : Z := 1.
Definition SC_ENOSYS : Z := 38.

Definition KVMIO : Z := 0xae.
Definition IOC_WRITE : Z := 1.
Definition IOC_READ : Z := 2.
Definition io (nr : Z) : Z := Z.lor (Z.shiftl KVMIO 8) nr.
Definition ioc (dir nr size : Z) : Z :=
  Z.lor (Z.lor (Z.lor (Z.shiftl dir 30) (Z.shiftl size 16)) (Z.shiftl KVMIO 8)) nr.
Definition iow (nr size : Z) : Z := ioc IOC_WRITE nr size.
Definition ior (nr size : Z) : Z := ioc IOC_READ nr size.
Definition iowr (nr size : Z) : Z := ioc (Z.lor IOC_READ IOC_WRITE) nr size.

(** With the sizes of the structs of [kvm_bindings]. *)
Definition KVM_RUN : Z := io 0x80.
Definition KVM_IRQ_LINE : Z := iow 0x61 8.
Definition KVM_IOEVENTFD : Z := iow 0x79 0x40.
Definition KVM_GET_MP_STATE : Z := ior 0x98 4.
Definition KVM_GET_VCPU_EVENTS : Z := ior 0x9f 0x40.
Definition SNAPSHOT_READS : list Z :=
  [iowr 0x62 0x208; ior 0x7c 0x30; ior 0x81 0x90; ior 0x83 0x138; iowr 0x88 8; ior 0x8e 0x400; iowr 0x91 8;
   ior 0x9f 0x70; ior 0xa1 0x80; io 0xa3; ior 0xa4 0x1000; ior 0xa6 0x188].

Definition ALLOWED : list Z :=
  [SYS_accept4; SYS_brk; SYS_clock_gettime; SYS_clock_nanosleep; SYS_close; SYS_epoll_ctl; SYS_epoll_pwait;
   SYS_eventfd2; SYS_exit; SYS_exit_group; SYS_fallocate; SYS_fcntl; SYS_fdatasync; SYS_fsync; SYS_futex;
   SYS_getpid; SYS_getrandom; SYS_gettid; SYS_lseek; SYS_mremap; SYS_munmap; SYS_nanosleep; SYS_openat;
   SYS_ppoll; SYS_pread64; SYS_pwrite64; SYS_read; SYS_readv; SYS_recvfrom; SYS_recvmsg; SYS_restart_syscall;
   SYS_rseq; SYS_rt_sigaction; SYS_rt_sigprocmask; SYS_rt_sigreturn; SYS_sched_getaffinity; SYS_sched_yield;
   SYS_sendmsg; SYS_sendto; SYS_set_robust_list; SYS_setsockopt; SYS_shutdown; SYS_sigaltstack; SYS_tgkill;
   SYS_write; SYS_writev].
Definition ALLOWED_LEGACY : list Z := [SYS_epoll_wait; SYS_poll].
Definition NETD_DENIED : list Z :=
  [SYS_acct; SYS_add_key; SYS_bpf; SYS_capset; SYS_chroot; SYS_delete_module; SYS_execve; SYS_execveat;
   SYS_fanotify_init; SYS_finit_module; SYS_init_module; SYS_io_uring_enter; SYS_io_uring_register;
   SYS_io_uring_setup; SYS_kexec_file_load; SYS_kexec_load; SYS_keyctl; SYS_mount; SYS_name_to_handle_at;
   SYS_open_by_handle_at; SYS_perf_event_open; SYS_personality; SYS_pivot_root; SYS_process_vm_readv;
   SYS_process_vm_writev; SYS_ptrace; SYS_quotactl; SYS_reboot; SYS_request_key; SYS_setgid; SYS_setgroups;
   SYS_setns; SYS_setregid; SYS_setresgid; SYS_setresuid; SYS_setreuid; SYS_setuid; SYS_swapoff; SYS_swapon;
   SYS_umount2; SYS_unshare; SYS_userfaultfd].
Definition NETD_DENIED_ARCH : list Z := [SYS_ioperm; SYS_iopl; SYS_modify_ldt; SYS_uselib].
Definition OPENS : list Z := [SYS_openat; SYS_openat2; SYS_open; SYS_creat].

(** ** Filters *)

Inductive SeccompAction := Allow | Log | Errno (e : Z) | KillProcess.
#[export] Instance action_eq_dec : EqDecision SeccompAction.
Proof. solve_decision. Defined.

(** [u32::from(action)] *)
Definition action_u32 (a : SeccompAction) : Z :=
  match a with Allow => 0x7fff0000 | Log => 0x7ffc0000 | Errno e => Z.lor 0x00050000 (Z.land e 0xffff) | KillProcess => 0x80000000 end.

Inductive Len := Dword | Qword.
Inductive CmpOp := Eq | Ne | MaskedEq (mask : Z).
Record Cond := MkCond { cd_arg : nat; cd_len : Len; cd_op : CmpOp; cd_value : Z }.

(** A rule is met when all of its conditions are. *)
Definition SeccompRule : Type := list Cond.
Record SeccompFilter := MkFilter {
  sf_rules : gmap Z (list SeccompRule);
  sf_mismatch : SeccompAction;
  sf_match : SeccompAction;
}.

(** One instruction of classic BPF. *)
Record sock_filter := MkOp { code : Z; jt : Z; jf : Z; k : Z }.

Inductive BpfProgram :=
  | Compiled (f : SeccompFilter)
  | Raw (ops : list sock_filter).

Definition equals (arg : nat) (value : Z) : SeccompRule := [MkCond arg Qword Eq value].
Definition not_executable (arg : nat) : SeccompRule := [MkCond arg Dword (MaskedEq PROT_EXEC) 0].

(** [rules] of calls that are met whatever their arguments. *)
Definition any_args (calls : list Z) : gmap Z (list SeccompRule) := list_to_map (map (fun c => (c, [])) calls).

(** The rules of the allowlist. *)
Definition vmm_rules : gmap Z (list SeccompRule) :=
  let rules := any_args (ALLOWED ++ ALLOWED_LEGACY) in
  let rules := <[ SYS_ioctl := map (equals 1)
      ([KVM_RUN; KVM_IRQ_LINE; KVM_IOEVENTFD; KVM_GET_MP_STATE; KVM_GET_VCPU_EVENTS; FIONBIO] ++ SNAPSHOT_READS) ]> rules in
  let rules := <[ SYS_mmap := [not_executable 2] ]> rules in
  let rules := <[ SYS_mprotect := [not_executable 2] ]> rules in
  let rules := <[ SYS_madvise := [equals 2 MADV_DONTNEED] ]> rules in
  let rules := <[ SYS_clone := [[MkCond 0 Qword (MaskedEq CLONE_THREAD) CLONE_THREAD]] ]> rules in
  let rules := <[ SYS_prctl := [equals 0 PR_SET_NAME] ]> rules in
  <[ SYS_clone3 := [] ]> rules.

Definition vmm_allowlist (mismatch : SeccompAction) : BpfProgram := Compiled (MkFilter vmm_rules mismatch Allow).

Definition refuse_clone3 : BpfProgram := Compiled (MkFilter {[ SYS_clone3 := [] ]} Allow (Errno SC_ENOSYS)).

(** The rules of the deny list. *)
Definition netd_rules : gmap Z (list SeccompRule) :=
  <[ SYS_clone := [[MkCond 0 Qword (MaskedEq CLONE_NEWUSER) CLONE_NEWUSER]] ]>
    (any_args (NETD_DENIED ++ NETD_DENIED_ARCH)).

Definition netd_kills (matched : SeccompAction) : BpfProgram := Compiled (MkFilter netd_rules Allow matched).

(** [rules] with the calls that open files, met whatever their arguments. *)
Definition with_opens (rules : gmap Z (list SeccompRule)) : gmap Z (list SeccompRule) :=
  fold_left (fun rules call => <[ call := [] ]> rules) OPENS rules.

Definition refusals (rules : gmap Z (list SeccompRule)) : BpfProgram :=
  Compiled (MkFilter (with_opens rules) Allow (Errno SC_EPERM)).

Definition netd_refusals : BpfProgram :=
  refusals {[ SYS_socket := [[MkCond 0 Dword Ne AF_INET; MkCond 0 Dword Ne AF_INET6]] ]}.

Definition LD_W_ABS : Z := 0x20.
Definition JEQ_K : Z := 0x15.
Definition JGE_K : Z := 0x35.
Definition RET_K : Z := 0x06.
Definition AUDIT_ARCH_X86_64 : Z := Z.lor (Z.lor 62 0x80000000) 0x40000000.
Definition X32_SYSCALL_BIT : Z := 0x40000000.

Definition refuse_x32 (action : SeccompAction) : list BpfProgram :=
  let refuse := action_u32 action in
  let allow := action_u32 Allow in
  [Raw [MkOp LD_W_ABS 0 0 4; MkOp JEQ_K 1 0 AUDIT_ARCH_X86_64; MkOp RET_K 0 0 refuse; MkOp LD_W_ABS 0 0 0;
        MkOp JGE_K 0 1 X32_SYSCALL_BIT; MkOp RET_K 0 0 refuse; MkOp RET_K 0 0 allow]].

Definition violation (log : bool) : SeccompAction := if log then Log else KillProcess.

Definition vmm_programs (log : bool) : list BpfProgram :=
  refuse_x32 (violation log) ++ [refuse_clone3; refusals ∅; vmm_allowlist (violation log)].
Definition netd_programs (log : bool) : list BpfProgram :=
  refuse_x32 (violation log) ++ [refuse_clone3; netd_refusals; netd_kills (violation log)].

(** ** Running them *)

(** [seccomp_data]: a call, with its six arguments of 64 bits. *)
Record SeccompData := MkData { sd_nr : Z; sd_arch : Z; sd_args : list Z }.

(** What the crate documents. *)
Definition arg_of (d : SeccompData) (c : Cond) : Z :=
  let v := default 0 (sd_args d !! cd_arg c) in
  match cd_len c with Dword => wrap 32 v | Qword => v end.
Definition cond_met (d : SeccompData) (c : Cond) : bool :=
  match cd_op c with
  | Eq => arg_of d c =? cd_value c
  | Ne => negb (arg_of d c =? cd_value c)
  | MaskedEq mask => Z.land (arg_of d c) mask =? Z.land (cd_value c) mask
  end.
Definition rules_met (d : SeccompData) (rs : list SeccompRule) : bool :=
  bool_decide (rs = []) || existsb (forallb (cond_met d)) rs.
Definition documented (f : SeccompFilter) (d : SeccompData) : SeccompAction :=
  if negb (sd_arch d =? AUDIT_ARCH_X86_64) then KillProcess else
  match sf_rules f !! sd_nr d with
  | Some rs => if rules_met d rs then sf_match f else sf_mismatch f
  | None => sf_mismatch f
  end.

(** The kernel's machine, as far as the program uses it; [acc] is the
    accumulator. [None] is a program the kernel would not load. *)
Fixpoint run_bpf (fuel : nat) (ops : list sock_filter) (d : SeccompData) (pc acc : Z) : option Z :=
  match fuel with
  | O => None
  | S fuel =>
      op ← znth ops pc;
      if code op =? LD_W_ABS then
        (if k op =? 0 then run_bpf fuel ops d (pc + 1) (sd_nr d)
         else if k op =? 4 then run_bpf fuel ops d (pc + 1) (sd_arch d) else None)
      else if code op =? JEQ_K then run_bpf fuel ops d (pc + 1 + (if acc =? k op then jt op else jf op)) acc
      else if code op =? JGE_K then run_bpf fuel ops d (pc + 1 + (if k op <=? acc then jt op else jf op)) acc
      else if code op =? RET_K then Some (k op)
      else None
  end.

(** The answer of a filter by its value. *)
Definition u32_action (x : Z) : SeccompAction :=
  if x =? action_u32 Allow then Allow else if x =? action_u32 Log then Log
  else if Z.shiftr x 16 =? 5 then Errno (Z.land x 0xffff) else KillProcess.

Definition rank (a : SeccompAction) : Z :=
  match a with KillProcess => 0 | Errno _ => 1 | Log => 2 | Allow => 3 end.
Definition stricter (a b : SeccompAction) : SeccompAction := if rank b <? rank a then b else a.

Section filters.
Context (run_filter : SeccompFilter -> SeccompData -> SeccompAction).

(** Jumps go forward, so a program ends within its length. *)
Definition run_program (p : BpfProgram) (d : SeccompData) : SeccompAction :=
  match p with
  | Compiled f => run_filter f d
  | Raw ops => match run_bpf (length ops) ops d 0 0 with Some x => u32_action x | None => KillProcess end
  end.

(** The kernel's verdict on a call. *)
Definition verdict (ps : list BpfProgram) (d : SeccompData) : SeccompAction :=
  fold_left (fun a p => stricter a (run_program p d)) ps Allow.
End filters.

(** ** Answers *)

Section answers.
Context (run_filter : SeccompFilter -> SeccompData -> SeccompAction).
Hypothesis seccompiler_meaning : forall f d, run_filter f d = documented f d.

Lemma any_args_lookup l nr : any_args l !! nr = if decide (nr ∈ l) then Some [] else None.
Proof.
  unfold any_args. induction l as [|c l IH]; [done|]. cbn.
  rewrite lookup_insert, IH. repeat case_decide; subst; set_solver.
Qed.

Lemma run_bpf_ld n ops d pc acc j f off : znth ops pc = Some (MkOp LD_W_ABS j f off) -> off = 0 \/ off = 4 ->
  run_bpf (S n) ops d pc acc = run_bpf n ops d (pc + 1) (if off =? 0 then sd_nr d else sd_arch d).
Proof. intros H Ho. cbn [run_bpf]. rewrite H. destruct Ho as [-> | ->]; reflexivity. Qed.

Lemma run_bpf_jeq n ops d pc acc j f x : znth ops pc = Some (MkOp JEQ_K j f x) ->
  run_bpf (S n) ops d pc acc = run_bpf n ops d (pc + 1 + (if acc =? x then j else f)) acc.
Proof. intros H. cbn [run_bpf]. rewrite H. reflexivity. Qed.

Lemma run_bpf_jge n ops d pc acc j f x : znth ops pc = Some (MkOp JGE_K j f x) ->
  run_bpf (S n) ops d pc acc = run_bpf n ops d (pc + 1 + (if x <=? acc then j else f)) acc.
Proof. intros H. cbn [run_bpf]. rewrite H. reflexivity. Qed.

Lemma run_bpf_ret n ops d pc acc j f x : znth ops pc = Some (MkOp RET_K j f x) ->
  run_bpf (S n) ops d pc acc = Some x.
Proof. intros H. cbn [run_bpf]. rewrite H. reflexivity. Qed.

Lemma violation_u32 log : u32_action (action_u32 (violation log)) = violation log.
Proof. by destruct log. Qed.

(** The program written by hand lets through the calls of x86_64 below bit 30. *)
Lemma x32_answer log d p :
  p ∈ refuse_x32 (violation log) ->
  run_program run_filter p d
  = if (sd_arch d =? AUDIT_ARCH_X86_64) && (sd_nr d <? X32_SYSCALL_BIT) then Allow else violation log.
Proof.
  intros ->%list_elem_of_singleton. unfold run_program. cbn [length]. rewrite Z.ltb_antisym.
  erewrite run_bpf_ld by (reflexivity || by right). erewrite run_bpf_jeq by reflexivity.
  cbn [Z.eqb]. destruct (sd_arch d =? AUDIT_ARCH_X86_64); cbn [andb].
  - erewrite run_bpf_ld by (reflexivity || by left). erewrite run_bpf_jge by reflexivity. cbn [Z.eqb].
    destruct (X32_SYSCALL_BIT <=? sd_nr d); erewrite run_bpf_ret by reflexivity;
      [apply violation_u32 | reflexivity].
  - erewrite run_bpf_ret by reflexivity. apply violation_u32.
Qed.

(** The verdict of a hand-written program with three compiled filters. *)
Lemma verdict_stack log fs d :
  verdict run_filter (refuse_x32 (violation log) ++ map Compiled fs) d
  = fold_left (fun a f => stricter a (documented f d)) fs
      (if (sd_arch d =? AUDIT_ARCH_X86_64) && (sd_nr d <? X32_SYSCALL_BIT) then Allow else violation log).
Proof.
  unfold verdict. rewrite fold_left_app. cbn [refuse_x32 fold_left].
  rewrite (x32_answer log) by (unfold refuse_x32; set_solver).
  assert (forall x, stricter Allow x = x) as -> by (by intros []).
  generalize (if (sd_arch d =? AUDIT_ARCH_X86_64) && (sd_nr d <? X32_SYSCALL_BIT) then Allow else violation log).
  induction fs as [|f fs IH]; intros a; [done|]. cbn. by rewrite seccompiler_meaning, IH.
Qed.

(** The bit a masked comparison looks at. *)
Lemma land_pow2 x n : 0 <= n -> Z.land x (2 ^ n) = if Z.testbit x n then 2 ^ n else 0.
Proof.
  intros Hn. apply Z.bits_inj'. intros m Hm. rewrite Z.land_spec, Z.pow2_bits_eqb by lia.
  destruct (Z.eqb_spec n m) as [<-|Hne].
  - rewrite andb_true_r. destruct (Z.testbit x n); [by rewrite Z.pow2_bits_true | by rewrite Z.bits_0].
  - rewrite andb_false_r. destruct (Z.testbit x n); [by rewrite Z.pow2_bits_false | by rewrite Z.bits_0].
Qed.

Lemma wrap32_testbit x n : 0 <= n < 32 -> Z.testbit (wrap 32 x) n = Z.testbit x n.
Proof. intros. unfold wrap. by rewrite Z.mod_pow2_bits_low by lia. Qed.

(** What a call of x86_64 is asked, argument [i] of [d]. *)
Definition arg (d : SeccompData) (i : nat) : Z := default 0 (sd_args d !! i).

Definition VMM_REQUESTS : list Z :=
  [KVM_RUN; KVM_IRQ_LINE; KVM_IOEVENTFD; KVM_GET_MP_STATE; KVM_GET_VCPU_EVENTS; FIONBIO] ++ SNAPSHOT_READS.

Lemma cond_equals d i v : forallb (cond_met d) (equals i v) = (arg d i =? v).
Proof. cbn. apply andb_true_r. Qed.

Lemma cond_not_executable d i : forallb (cond_met d) (not_executable i) = negb (Z.testbit (arg d i) 2).
Proof.
  unfold not_executable, forallb, cond_met, arg_of. cbn [cd_op cd_len cd_arg cd_value]. rewrite andb_true_r.
  change PROT_EXEC with (2 ^ 2). rewrite land_pow2, wrap32_testbit by lia. unfold arg. by destruct (Z.testbit _ 2).
Qed.

Lemma cond_flag d i n : 0 <= n ->
  forallb (cond_met d) [MkCond i Qword (MaskedEq (2 ^ n)) (2 ^ n)] = Z.testbit (arg d i) n.
Proof.
  intros Hn. unfold forallb, cond_met, arg_of. cbn [cd_op cd_len cd_arg cd_value]. rewrite andb_true_r.
  rewrite Z.land_diag, land_pow2 by done. unfold arg.
  destruct (Z.testbit _ n); [apply Z.eqb_refl|]. apply Z.eqb_neq. pose proof (Z.pow_pos_nonneg 2 n). lia.
Qed.

Lemma existsb_equals d i l : existsb (forallb (cond_met d)) (map (equals i) l) = bool_decide (arg d i ∈ l).
Proof.
  induction l as [|v l IH]; [done|]. cbn [map existsb]. rewrite IH, cond_equals.
  apply eq_true_iff_eq. rewrite orb_true_iff, Z.eqb_eq, !bool_decide_eq_true. set_solver.
Qed.

(** The calls the allowlist lets through, on x86_64. *)
Definition vmm_passes (d : SeccompData) : Prop :=
  sd_nr d ∈ ALLOWED ++ ALLOWED_LEGACY \/
  sd_nr d = SYS_clone3 \/
  (sd_nr d = SYS_ioctl /\ arg d 1 ∈ VMM_REQUESTS) \/
  ((sd_nr d = SYS_mmap \/ sd_nr d = SYS_mprotect) /\ Z.testbit (arg d 2) 2 = false) \/
  (sd_nr d = SYS_madvise /\ arg d 2 = MADV_DONTNEED) \/
  (sd_nr d = SYS_clone /\ Z.testbit (arg d 0) 16 = true) \/
  (sd_nr d = SYS_prctl /\ arg d 0 = PR_SET_NAME).
#[export] Instance vmm_passes_dec d : Decision (vmm_passes d) := _.


(** Whether a call is among [rules]. *)
Definition meets (rules : gmap Z (list SeccompRule)) (d : SeccompData) : bool :=
  match rules !! sd_nr d with Some rs => rules_met d rs | None => false end.

Lemma documented_x86 rules a b d : sd_arch d = AUDIT_ARCH_X86_64 ->
  documented (MkFilter rules a b) d = if meets rules d then b else a.
Proof.
  intros Ha. unfold documented, meets. rewrite Ha, Z.eqb_refl. cbn [negb sf_rules sf_match sf_mismatch].
  by destruct (rules !! sd_nr d).
Qed.

Lemma meets_insert c rs rules d :
  meets (<[c := rs]> rules) d = if decide (c = sd_nr d) then rules_met d rs else meets rules d.
Proof. unfold meets. rewrite lookup_insert. by case_decide. Qed.

Lemma meets_any_args l d : meets (any_args l) d = bool_decide (sd_nr d ∈ l).
Proof.
  unfold meets. rewrite any_args_lookup.
  case_decide; [by rewrite bool_decide_true | by rewrite bool_decide_false].
Qed.

Lemma rules_met_nil d : rules_met d [] = true.
Proof. done. Qed.

Lemma rules_met_one d r : rules_met d [r] = forallb (cond_met d) r.
Proof. unfold rules_met. cbn. apply orb_false_r. Qed.

(** Case analysis on the number of a call, against the numbers the rules name. *)
Ltac by_number nr :=
  repeat match goal with
  | |- context [decide (?c = nr)] => destruct (decide (c = nr)) as [<-|]
  | |- context [decide (nr = ?c)] => destruct (decide (nr = c)) as [->|]
  end;
  rewrite ?negb_true_iff, ?Z.eqb_eq, ?orb_false_l, ?bool_decide_eq_true; intuition (discriminate || congruence).

Lemma vmm_meets d : meets vmm_rules d = bool_decide (vmm_passes d).
Proof.
  unfold vmm_rules. rewrite !meets_insert, meets_any_args, !rules_met_nil, !rules_met_one.
  rewrite !cond_not_executable, !cond_equals. change CLONE_THREAD with (2 ^ 16). rewrite cond_flag by done.
  unfold rules_met. rewrite existsb_equals. fold VMM_REQUESTS.
  change (bool_decide (map (equals 1) _ = [])) with false.
  apply eq_true_iff_eq. rewrite bool_decide_eq_true. unfold vmm_passes.
  assert (SYS_ioctl ∉ ALLOWED ++ ALLOWED_LEGACY /\ SYS_mmap ∉ ALLOWED ++ ALLOWED_LEGACY /\
    SYS_mprotect ∉ ALLOWED ++ ALLOWED_LEGACY /\ SYS_madvise ∉ ALLOWED ++ ALLOWED_LEGACY /\
    SYS_clone ∉ ALLOWED ++ ALLOWED_LEGACY /\ SYS_prctl ∉ ALLOWED ++ ALLOWED_LEGACY)
    as (? & ? & ? & ? & ? & ?) by by apply (bool_decide_unpack _).
  generalize dependent (ALLOWED ++ ALLOWED_LEGACY). generalize (sd_nr d). intros nr A **.
  by_number nr.
Qed.

(** The calls that open files. *)
Lemma opens_meets rules d :
  meets (with_opens rules) d = bool_decide (sd_nr d ∈ OPENS) || meets rules d.
Proof.
  unfold with_opens. generalize OPENS. intros l. revert rules.
  induction l as [|c l IH]; intros rules; [done|]. cbn [fold_left]. rewrite IH, meets_insert, rules_met_nil.
  destruct (decide (c = sd_nr d)) as [->|Hne].
  - rewrite orb_true_r. symmetry. apply orb_true_intro. left. apply bool_decide_eq_true. set_solver.
  - f_equal. apply bool_decide_ext. set_solver.
Qed.

(** The sockets the network process may not make: those of no IP family. *)
Definition not_ip (d : SeccompData) : Prop :=
  sd_nr d = SYS_socket /\ wrap 32 (arg d 0) <> AF_INET /\ wrap 32 (arg d 0) <> AF_INET6.
#[export] Instance not_ip_dec d : Decision (not_ip d) := _.

Lemma socket_meets d :
  meets {[ SYS_socket := [[MkCond 0 Dword Ne AF_INET; MkCond 0 Dword Ne AF_INET6]] ]} d = bool_decide (not_ip d).
Proof.
  unfold meets. rewrite lookup_singleton. unfold not_ip. apply eq_true_iff_eq. rewrite bool_decide_eq_true.
  case_decide; [|intuition congruence]. rewrite rules_met_one. unfold forallb, cond_met, arg_of.
  cbn [cd_op cd_len cd_arg cd_value]. rewrite andb_true_r, andb_true_iff, !negb_true_iff, !Z.eqb_neq.
  unfold arg. intuition congruence.
Qed.

(** The calls the deny list names. *)
Definition netd_denies (d : SeccompData) : Prop :=
  sd_nr d ∈ NETD_DENIED ++ NETD_DENIED_ARCH \/ (sd_nr d = SYS_clone /\ Z.testbit (arg d 0) 28 = true).
#[export] Instance netd_denies_dec d : Decision (netd_denies d) := _.

Lemma netd_meets d : meets netd_rules d = bool_decide (netd_denies d).
Proof.
  unfold netd_rules. rewrite meets_insert, meets_any_args, rules_met_one.
  change CLONE_NEWUSER with (2 ^ 28). rewrite cond_flag by done.
  apply eq_true_iff_eq. rewrite bool_decide_eq_true. unfold netd_denies.
  assert (SYS_clone ∉ NETD_DENIED ++ NETD_DENIED_ARCH) by by apply (bool_decide_unpack _).
  generalize dependent (NETD_DENIED ++ NETD_DENIED_ARCH). generalize (sd_nr d). intros nr A **. by_number nr.
Qed.

Lemma clone3_meets d : meets {[ SYS_clone3 := [] ]} d = bool_decide (sd_nr d = SYS_clone3).
Proof.
  unfold meets. rewrite lookup_singleton. destruct (decide (sd_nr d = SYS_clone3)) as [->|].
  - by rewrite decide_True.
  - by rewrite decide_False, bool_decide_false.
Qed.

(** A call of another architecture is killed by the compiled filters, in both modes. *)
Lemma foreign_killed log f fs d : sd_arch d <> AUDIT_ARCH_X86_64 ->
  verdict run_filter (refuse_x32 (violation log) ++ map Compiled (f :: fs)) d = KillProcess.
Proof.
  intros Ha. rewrite verdict_stack. cbn [fold_left].
  assert (forall f, documented f d = KillProcess) as Hk.
  { intros. unfold documented. by rewrite (proj2 (Z.eqb_neq _ _) Ha). }
  rewrite Hk. assert (forall a, stricter a KillProcess = KillProcess) as Hs by (by intros []). rewrite Hs.
  induction fs as [|g fs IH]; [done|]. cbn. by rewrite Hk, Hs.
Qed.

Lemma vmm_verdict log d : sd_arch d = AUDIT_ARCH_X86_64 ->
  verdict run_filter (vmm_programs log) d =
  stricter (stricter (stricter (if sd_nr d <? X32_SYSCALL_BIT then Allow else violation log)
    (if bool_decide (sd_nr d = SYS_clone3) then Errno SC_ENOSYS else Allow))
    (if bool_decide (sd_nr d ∈ OPENS) then Errno SC_EPERM else Allow))
    (if bool_decide (vmm_passes d) then Allow else violation log).
Proof.
  intros Ha. etrans; [exact (verdict_stack log [_; _; _] d)|]. cbn [fold_left].
  rewrite !documented_x86, clone3_meets, opens_meets, vmm_meets, Ha, Z.eqb_refl by done.
  unfold meets at 1. by rewrite lookup_empty, orb_false_r.
Qed.

Lemma netd_verdict log d : sd_arch d = AUDIT_ARCH_X86_64 ->
  verdict run_filter (netd_programs log) d =
  stricter (stricter (stricter (if sd_nr d <? X32_SYSCALL_BIT then Allow else violation log)
    (if bool_decide (sd_nr d = SYS_clone3) then Errno SC_ENOSYS else Allow))
    (if bool_decide (sd_nr d ∈ OPENS) || bool_decide (not_ip d) then Errno SC_EPERM else Allow))
    (if bool_decide (netd_denies d) then violation log else Allow).
Proof.
  intros Ha. etrans; [exact (verdict_stack log [_; _; _] d)|]. cbn [fold_left].
  by rewrite !documented_x86, clone3_meets, opens_meets, socket_meets, netd_meets, Ha, Z.eqb_refl by done.
Qed.

(** The calls the rules of the monitor name are not of x32, and of those that open files they name one. *)
Lemma vmm_passes_low d : vmm_passes d -> sd_nr d < X32_SYSCALL_BIT.
Proof.
  unfold vmm_passes. intros [Hin | H].
  - revert Hin. generalize (sd_nr d). apply Forall_forall. by apply (bool_decide_unpack _).
  - assert (SYS_clone3 < X32_SYSCALL_BIT) by done. assert (SYS_ioctl < X32_SYSCALL_BIT) by done.
    assert (SYS_mmap < X32_SYSCALL_BIT) by done. assert (SYS_mprotect < X32_SYSCALL_BIT) by done.
    assert (SYS_madvise < X32_SYSCALL_BIT) by done. assert (SYS_clone < X32_SYSCALL_BIT) by done.
    assert (SYS_prctl < X32_SYSCALL_BIT) by done. destruct_or?; destruct_and?; destruct_or?; congruence.
Qed.

Lemma vmm_opens d : vmm_passes d -> sd_nr d ∈ OPENS -> sd_nr d = SYS_openat.
Proof.
  unfold vmm_passes. intros H Ho. unfold OPENS in Ho. rewrite !elem_of_cons in Ho.
  destruct Ho as [-> | [Ho | [Ho | [Ho | Ho%elem_of_nil]]]]; [done| | | |done].
  all: rewrite Ho in H; exfalso; destruct H as [H | H];
    [revert H; by apply (bool_decide_unpack _) | intuition discriminate].
Qed.

(** The monitor: a call passes when the allowlist names it and its arguments
    are those the rules ask for; [clone3] answers that it does not exist, so
    that the C library falls back to [clone], and [openat] that it is not
    permitted; every other call, of another architecture or of x32 too, ends
    the process. *)
Theorem vmm_filter_confines d :
  (verdict run_filter (vmm_programs false) d = Allow <->
     sd_arch d = AUDIT_ARCH_X86_64 /\ vmm_passes d /\ sd_nr d <> SYS_clone3 /\ sd_nr d <> SYS_openat) /\
  (forall e, verdict run_filter (vmm_programs false) d = Errno e <->
     sd_arch d = AUDIT_ARCH_X86_64 /\ ((sd_nr d = SYS_clone3 /\ e = SC_ENOSYS) \/ (sd_nr d = SYS_openat /\ e = SC_EPERM))) /\
  (verdict run_filter (vmm_programs false) d <> Log).
Proof.
  destruct (decide (sd_arch d = AUDIT_ARCH_X86_64)) as [Ha|Ha]; cycle 1.
  { rewrite (foreign_killed false _ [_; _] d Ha : verdict run_filter (vmm_programs false) d = _).
    split_and!; intuition discriminate. }
  rewrite vmm_verdict by done. pose proof (vmm_passes_low d) as Hlow. pose proof (vmm_opens d) as Hopen.
  assert (sd_nr d = SYS_clone3 \/ sd_nr d = SYS_openat -> vmm_passes d) as Hp.
  { unfold vmm_passes. intros [-> | ->]; [tauto|]. left. by apply (bool_decide_unpack _). }
  assert (sd_nr d = SYS_openat -> sd_nr d ∈ OPENS) as Ho by (intros ->; unfold OPENS; set_solver).
  destruct (bool_decide_reflect (vmm_passes d)) as [Hpass|Hpass]; cycle 1.
  { assert (forall a, stricter a (violation false) = KillProcess) as -> by (by intros []).
    split_and!; intuition discriminate. }
  rewrite (proj2 (Z.ltb_lt _ _) (Hlow Hpass)).
  case_bool_decide as H3; case_bool_decide as Hopn; cbn.
  - rewrite (Hopen Hpass Hopn) in H3. discriminate.
  - split_and!; [intuition discriminate | | done]. intros e. split; [intros [= <-]; tauto | intuition congruence].
  - rewrite (Hopen Hpass Hopn) in *.
    split_and!; [intuition discriminate | | done]. intros e. split; [intros [= <-]; tauto | intuition congruence].
  - split_and!; [tauto | intuition congruence | done].
Qed.

(** The calls the network process is refused are not ones that end it. *)
Lemma netd_refused_apart d : sd_nr d ∈ [SYS_clone3; SYS_socket] ++ OPENS ->
  sd_nr d < X32_SYSCALL_BIT /\ ~ netd_denies d.
Proof.
  unfold netd_denies. generalize (sd_nr d). intros nr Hin.
  assert (nr < X32_SYSCALL_BIT /\ nr ∉ NETD_DENIED ++ NETD_DENIED_ARCH /\ nr <> SYS_clone); [|tauto].
  revert nr Hin. apply Forall_forall. by apply (bool_decide_unpack _).
Qed.

(** The network process: what the deny list names and what is of x32 or of
    another architecture ends it; [clone3] answers that it does not exist;
    opening a file and making a socket of no IP family answer that they are not
    permitted; every other call passes. *)
Theorem netd_filter_confines d :
  (verdict run_filter (netd_programs false) d = KillProcess <->
     sd_arch d <> AUDIT_ARCH_X86_64 \/ X32_SYSCALL_BIT <= sd_nr d \/ netd_denies d) /\
  (forall e, verdict run_filter (netd_programs false) d = Errno e <->
     sd_arch d = AUDIT_ARCH_X86_64 /\
     ((sd_nr d = SYS_clone3 /\ e = SC_ENOSYS) \/ ((sd_nr d ∈ OPENS \/ not_ip d) /\ e = SC_EPERM))) /\
  (verdict run_filter (netd_programs false) d = Allow <->
     sd_arch d = AUDIT_ARCH_X86_64 /\ sd_nr d < X32_SYSCALL_BIT /\ ~ netd_denies d /\
     sd_nr d <> SYS_clone3 /\ sd_nr d ∉ OPENS /\ ~ not_ip d).
Proof.
  destruct (decide (sd_arch d = AUDIT_ARCH_X86_64)) as [Ha|Ha]; cycle 1.
  { rewrite (foreign_killed false _ [_; _] d Ha : verdict run_filter (netd_programs false) d = _).
    split_and!; intuition discriminate. }
  rewrite netd_verdict by done. pose proof (netd_refused_apart d) as Hap.
  assert (not_ip d -> sd_nr d = SYS_socket) as Hs by (by intros []).
  assert (sd_nr d ∈ [SYS_clone3; SYS_socket] ++ OPENS <->
    sd_nr d = SYS_clone3 \/ sd_nr d = SYS_socket \/ sd_nr d ∈ OPENS) as Hr by (generalize OPENS; set_solver).
  assert (sd_nr d = SYS_clone3 -> sd_nr d ∉ OPENS /\ sd_nr d <> SYS_socket) as H3 by (intros ->; by apply (bool_decide_unpack _)).
  assert (sd_nr d = SYS_socket -> sd_nr d ∉ OPENS) as H4 by (intros ->; by apply (bool_decide_unpack _)).
  rewrite Hr in Hap. clear Hr.
  destruct (Z.ltb_spec (sd_nr d) X32_SYSCALL_BIT) as [Hlt|Hge]; repeat case_bool_decide; cbn.
  all: split_and!; first [intros e; split; [intros [= <-] || discriminate | ] | idtac].
  all: intuition (discriminate || congruence || lia).
Qed.

(** With [log] the same calls pass and the same are refused; what would end the
    process is logged and let through, apart from a call of another
    architecture, which the compiled filters still end, and, in the monitor,
    from a call that opens a file, which is refused. *)
Theorem log_mode_logs_kills d :
  verdict run_filter (vmm_programs true) d =
    match verdict run_filter (vmm_programs false) d with
    | KillProcess => if decide (sd_arch d = AUDIT_ARCH_X86_64) then
                       if decide (sd_nr d ∈ OPENS) then Errno SC_EPERM else Log
                     else KillProcess
    | a => a
    end /\
  verdict run_filter (netd_programs true) d =
    match verdict run_filter (netd_programs false) d with
    | KillProcess => if decide (sd_arch d = AUDIT_ARCH_X86_64) then Log else KillProcess
    | a => a
    end.
Proof.
  destruct (decide (sd_arch d = AUDIT_ARCH_X86_64)) as [Ha|Ha]; cycle 1.
  { assert (forall b, verdict run_filter (vmm_programs b) d = KillProcess) as Hv
      by (intros b; exact (foreign_killed b _ [_; _] d Ha)).
    assert (forall b, verdict run_filter (netd_programs b) d = KillProcess) as Hn
      by (intros b; exact (foreign_killed b _ [_; _] d Ha)).
    by rewrite !Hv, !Hn. }
  rewrite !vmm_verdict, !netd_verdict by done. split.
  - pose proof (vmm_passes_low d) as Hlow.
    assert (sd_nr d = SYS_clone3 -> vmm_passes d) as H3 by (unfold vmm_passes; tauto).
    destruct (Z.ltb_spec (sd_nr d) X32_SYSCALL_BIT) as [Hlt|Hge]; repeat case_bool_decide; case_decide; cbn;
      reflexivity || (exfalso; intuition lia).
  - pose proof (netd_refused_apart d) as Hap.
    assert (not_ip d -> sd_nr d = SYS_socket) as Hs by (by intros []).
    assert (sd_nr d = SYS_clone3 \/ sd_nr d = SYS_socket \/ sd_nr d ∈ OPENS ->
      sd_nr d ∈ [SYS_clone3; SYS_socket] ++ OPENS) as Hr by (generalize OPENS; set_solver).
    destruct (Z.ltb_spec (sd_nr d) X32_SYSCALL_BIT) as [Hlt|Hge]; repeat case_bool_decide; cbn;
      reflexivity || (exfalso; intuition lia).
Qed.
End answers.

(** ** Witnesses *)

Lemma vmm_filter_confines_witness :
  verdict documented (vmm_programs false) (MkData SYS_mmap AUDIT_ARCH_X86_64 [0; 4096; 3; 2; 0; 0]) = Allow /\
  verdict documented (vmm_programs false) (MkData SYS_mmap AUDIT_ARCH_X86_64 [0; 4096; 7; 2; 0; 0]) = KillProcess.
Proof.
  split; [|vm_compute; reflexivity].
  apply (vmm_filter_confines documented ltac:(reflexivity)). by apply (bool_decide_unpack _).
Defined.

Lemma netd_filter_confines_witness :
  verdict documented (netd_programs false) (MkData SYS_socket AUDIT_ARCH_X86_64 [1; 1; 0; 0; 0; 0]) = Errno SC_EPERM /\
  verdict documented (netd_programs false) (MkData (X32_SYSCALL_BIT + SYS_getpid) AUDIT_ARCH_X86_64 []) = KillProcess.
Proof.
  split; apply (netd_filter_confines documented ltac:(reflexivity)); by apply (bool_decide_unpack _).
Defined.

Lemma log_mode_logs_kills_witness :
  verdict documented (vmm_programs true) (MkData SYS_execve AUDIT_ARCH_X86_64 []) = Log.
Proof. etrans; [apply (log_mode_logs_kills documented ltac:(reflexivity))|]. vm_compute. reflexivity. Defined.
