(* ===== verification/Node.v ===== *)
(** * The sandboxes of the daemon

    [crates/shuru-node/src/serve/sandboxes.rs]: the entries of [Node], the
    tasks that create, delete, stop, park, configure, checkpoint, restore and
    boot them, the thread that holds each virtual machine, and the shutdown.

    A request is a task that goes from one shared access to the next; what
    happens between two of them is a single step. A step is a function of the
    state and of an event, which names the task or thread that moves and what
    the host answered it (whether a file was written, a VM booted, what time it
    is). The lock on the VM of an entry is [e_lock]; what it guards is touched
    by its holder only. Maps keyed by number stand for the [Arc]s. *)

From stdpp Require Import gmap.
From S2P Require Import Prelude Cas.

Definition MIB : Z := 2 ^ 20.
Definition GIB : Z := 2 ^ 30.

(** ** Checks of a request *)

Definition lower_digit_dash (b : byte) : bool :=
  ((97 <=? b2z b) && (b2z b <=? 122)) || ((48 <=? b2z b) && (b2z b <=? 57)) || (b2z b =? 45).

Definition valid_name (name : bytes) : bool :=
  (1 <=? zlen name) && (zlen name <=? 63) && forallb lower_digit_dash name &&
  negb (bool_decide (head name = Some (z2b 45))) && negb (bool_decide (last name = Some (z2b 45))).

(** What an [ApiError] answers. *)
Inductive ApiError := BadRequest | NotFound | Conflict | Full | Unavailable | Internal.
#[export] Instance ApiError_eq_dec : EqDecision ApiError.
Proof. solve_decision. Defined.

Definition disk_room (free reserve : Z) : option ApiError := if free <? reserve then Some Full else None.
Definition memory_room (available memory reserve : Z) : option ApiError :=
  if available <? Z.min (2 ^ 64 - 1) (memory + reserve) then Some Full else None.

(** A config: its version, and whether it has secrets and provided ones. *)
Record SandboxConfig := MkConfig { version : option Z; has_secrets : bool; has_provided : bool; settings : bytes }.

Record Config := MkNodeConfig {
  cf_memory_mib : Z;
  min_free_disk : Z;
  min_free_memory : Z;
  network : bool;
  provider : bool;
}.

Definition check_config (nc : Config) (c : SandboxConfig) : option ApiError :=
  if has_secrets c && negb (network nc) then Some BadRequest
  else if has_provided c && negb (provider nc) then Some BadRequest else None.

(** A number above that of any start or restore before. *)
Definition boot_after (last now : Z) : Z := Z.max now (wrapping_add 64 last 1).

(** ** State *)

(** The directory of a sandbox: not there yet, in place, or renamed aside. *)
Inductive Dir := NotMade | Made | Buried.
Record Ended := MkEnded { en_boot : Z; en_cpu_usec : Z }.

Record Entry := MkEntry {
  e_name : bytes;
  e_memory_mib : Z;
  e_lock : option nat;
  e_vm : option nat;
  e_running : bool;
  e_deleted : bool;
  e_last_boot : Z;
  e_ended : option Ended;
  e_config : SandboxConfig;
  e_saved : SandboxConfig;
  e_dir : Dir;
}.

(** The thread of a VM: what it is at, what it was told, and what it told
    the task that started it. *)
Inductive Phase := VBooting | VFailed | VHeld | VStopping (graceful : bool) | VStopped | VDone.
Record Thread := MkThread {
  v_entry : nat;
  v_slot : Z;
  v_boot : Z;
  v_phase : Phase;
  v_stop : option bool;
  v_ready : option bool;
}.

Inductive Kind :=
  | KCreate (imported : bool) (start : bool) (config : SandboxConfig)
  | KDelete (if_stopped : bool)
  | KStop
  | KIdle
  | KPark (if_stopped : bool)
  | KConfigure (config : SandboxConfig)
  | KCheckpoint
  | KRestore
  | KGuest
  | KUsage
  | KShut.

Inductive Reply :=
  | RDone
  | RKept
  | RParked (boot : Z)
  | RBoot (boot : Z)
  | RUsage (running : bool) (boot : option Z) (measured : option Z)
  | RErr (e : ApiError).

(** Where a task is: asking for a permit, checking that the node is open,
    finding the entry, waiting for its lock, and then, with the lock held, at the
    access that comes next. *)
Inductive Pc :=
  | PPermit
  | PCheck
  | PFind
  | PPeek
  | PPeeked
  | PLock
  | PHeld
  | PName
  | PMake
  | PRead (slot boot : Z)
  | PJoin (thread : nat)
  | PStopped
  | PSync
  | PCopy
  | PRestore (boot : Z)
  | PMemory
  | PSlot
  | PBoot (slot : Z)
  | PSave (slot boot : Z)
  | PSpawn (slot boot : Z)
  | PReady (thread : nat)
  | PFailed (err : ApiError)
  | PBury (r : Reply)
  | PBuried (r : Reply)
  | PForgotten (r : Reply)
  | PDone (r : Reply).

Record Task := MkTask { t_kind : Kind; t_name : bytes; t_entry : option nat; t_op : bool; t_pc : Pc }.

Inductive Shutdown := SOpen | SClosing | SStopping | SOver.
#[export] Instance Shutdown_eq_dec : EqDecision Shutdown.
Proof. solve_decision. Defined.

Record Node := MkNode {
  n_config : Config;
  n_sandboxes : gmap bytes nat;
  n_entries : gmap nat Entry;
  n_slots : gset Z;
  n_last_boot : Z;
  n_shutdown : Shutdown;
  n_tasks : gmap nat Task;
  n_threads : gmap nat Thread;
}.

Definition set_sandboxes (s : Node) (m : gmap bytes nat) : Node :=
  MkNode (n_config s) m (n_entries s) (n_slots s) (n_last_boot s) (n_shutdown s) (n_tasks s) (n_threads s).
Definition set_entry (s : Node) (e : nat) (E : Entry) : Node :=
  MkNode (n_config s) (n_sandboxes s) (<[ e := E ]> (n_entries s)) (n_slots s) (n_last_boot s) (n_shutdown s)
    (n_tasks s) (n_threads s).
Definition set_slots (s : Node) (x : gset Z) : Node :=
  MkNode (n_config s) (n_sandboxes s) (n_entries s) x (n_last_boot s) (n_shutdown s) (n_tasks s) (n_threads s).
Definition set_last_boot (s : Node) (b : Z) : Node :=
  MkNode (n_config s) (n_sandboxes s) (n_entries s) (n_slots s) b (n_shutdown s) (n_tasks s) (n_threads s).
Definition set_shutdown (s : Node) (d : Shutdown) : Node :=
  MkNode (n_config s) (n_sandboxes s) (n_entries s) (n_slots s) (n_last_boot s) d (n_tasks s) (n_threads s).
Definition set_task (s : Node) (t : nat) (T : Task) : Node :=
  MkNode (n_config s) (n_sandboxes s) (n_entries s) (n_slots s) (n_last_boot s) (n_shutdown s)
    (<[ t := T ]> (n_tasks s)) (n_threads s).
Definition set_thread (s : Node) (v : nat) (V : Thread) : Node :=
  MkNode (n_config s) (n_sandboxes s) (n_entries s) (n_slots s) (n_last_boot s) (n_shutdown s) (n_tasks s)
    (<[ v := V ]> (n_threads s)).

Definition with_lock (E : Entry) (l : option nat) : Entry :=
  MkEntry (e_name E) (e_memory_mib E) l (e_vm E) (e_running E) (e_deleted E) (e_last_boot E) (e_ended E) (e_config E)
    (e_saved E) (e_dir E).
Definition with_vm (E : Entry) (v : option nat) : Entry :=
  MkEntry (e_name E) (e_memory_mib E) (e_lock E) v (e_running E) (e_deleted E) (e_last_boot E) (e_ended E) (e_config E)
    (e_saved E) (e_dir E).
Definition with_running (E : Entry) (b : bool) : Entry :=
  MkEntry (e_name E) (e_memory_mib E) (e_lock E) (e_vm E) b (e_deleted E) (e_last_boot E) (e_ended E) (e_config E)
    (e_saved E) (e_dir E).
Definition with_deleted (E : Entry) : Entry :=
  MkEntry (e_name E) (e_memory_mib E) (e_lock E) (e_vm E) (e_running E) true (e_last_boot E) (e_ended E) (e_config E)
    (e_saved E) (e_dir E).
Definition with_last_boot (E : Entry) (b : Z) : Entry :=
  MkEntry (e_name E) (e_memory_mib E) (e_lock E) (e_vm E) (e_running E) (e_deleted E) b (e_ended E) (e_config E)
    (e_saved E) (e_dir E).
Definition with_ended (E : Entry) (x : option Ended) : Entry :=
  MkEntry (e_name E) (e_memory_mib E) (e_lock E) (e_vm E) (e_running E) (e_deleted E) (e_last_boot E) x (e_config E)
    (e_saved E) (e_dir E).
Definition with_config (E : Entry) (c : SandboxConfig) : Entry :=
  MkEntry (e_name E) (e_memory_mib E) (e_lock E) (e_vm E) (e_running E) (e_deleted E) (e_last_boot E) (e_ended E) c c
    (e_dir E).
Definition with_dir (E : Entry) (d : Dir) : Entry :=
  MkEntry (e_name E) (e_memory_mib E) (e_lock E) (e_vm E) (e_running E) (e_deleted E) (e_last_boot E) (e_ended E)
    (e_config E) (e_saved E) d.

Definition with_phase (V : Thread) (p : Phase) : Thread :=
  MkThread (v_entry V) (v_slot V) (v_boot V) p (v_stop V) (v_ready V).
Definition with_stop (V : Thread) (g : bool) : Thread :=
  MkThread (v_entry V) (v_slot V) (v_boot V) (v_phase V) (Some g) (v_ready V).
Definition with_ready (V : Thread) (ok : bool) : Thread :=
  MkThread (v_entry V) (v_slot V) (v_boot V) (v_phase V) (v_stop V) (Some ok).

(** The task goes on at [pc]. *)
Definition go (s : Node) (t : nat) (T : Task) (pc : Pc) : Node :=
  set_task s t (MkTask (t_kind T) (t_name T) (t_entry T) (t_op T) pc).
(** The task lets go of the lock and answers [r]. *)
Definition leave (s : Node) (t : nat) (T : Task) (e : nat) (E : Entry) (r : Reply) : Node :=
  go (set_entry s e (with_lock E None)) t T (PDone r).

(** ** The node *)

(** [Entry::new] *)
Definition Entry_new (name : bytes) (memory_mib last_boot : Z) (c : SandboxConfig) (d : Dir) : Entry :=
  MkEntry name memory_mib None None false false last_boot None c c d.

(** A directory of the state directory that [load] reads: whether its record
    has its file name for an id, and the record with its config. *)
Record Stored := MkStored { st_id_ok : bool; st_name : bytes; st_memory_mib : Z; st_last_boot : Z; st_config : SandboxConfig }.

Definition load_one (acc : Node * nat) (st : Stored) : Node * nat :=
  let '(s, n) := acc in
  if negb (st_id_ok st) || negb (valid_name (st_name st)) || bool_decide (is_Some (n_sandboxes s !! st_name st))
  then (s, n)
  else (set_sandboxes
          (set_entry (set_last_boot s (Z.max (n_last_boot s) (st_last_boot st))) n
             (Entry_new (st_name st) (st_memory_mib st) (st_last_boot st) (st_config st) Made))
          (<[ st_name st := n ]> (n_sandboxes s)), S n).

Definition load (s : Node) (l : list Stored) : Node := (fold_left load_one l (s, O)).1.

(** [Node::open], with the slots that could be reclaimed. *)
Definition open (nc : Config) (slots : gset Z) (l : list Stored) : Node :=
  load (MkNode nc ∅ ∅ slots 0 SOpen ∅ ∅) l.

(** More creates, deletes and boots than ever run at once. *)
Definition OPS : nat := Nat.pow 2 20.
Definition ops_taken (s : Node) : nat := length (filter (fun T => t_op T = true) (map snd (map_to_list (n_tasks s)))).

Definition is_closing (s : Node) : bool := negb (bool_decide (n_shutdown s = SOpen)).
(** Whether [shut_down] holds every permit. *)
Definition drained (s : Node) : bool := bool_decide (n_shutdown s = SStopping) || bool_decide (n_shutdown s = SOver).

(** [BTreeSet::pop_first] *)
Definition first_slot (x : gset Z) : option Z :=
  match elements x with [] => None | y :: ys => Some (fold_left Z.min ys y) end.

(** [vm.as_ref().filter(|running| running.alive)] *)
Definition alive (s : Node) (E : Entry) : option Thread :=
  match e_vm E with
  | Some v => if e_running E then n_threads s !! v else None
  | None => None
  end.

Definition has_cgroup (V : Thread) : bool :=
  match v_phase V with VBooting | VHeld | VStopping _ => true | _ => false end.
(** The VM whose processes the cgroup of [slot] holds. *)
Definition slot_user (s : Node) (slot : Z) : option Thread :=
  head (filter (fun V => v_slot V = slot /\ has_cgroup V = true) (map snd (map_to_list (n_threads s)))).

(** What the host answers a task: whether what it did worked, and what it did
    next, the time and the memory it reads, and the number of what it makes. *)
Record Answer := MkAnswer { a_ok : bool; a_ok2 : bool; a_now : Z; a_available : Z; a_fresh : nat }.

(** ** Tasks *)

(** [if let Some(running) = vm.take() { running.stop(graceful) }]: tells the
    thread and waits for it at [PJoin], or goes on at [next]. *)
Definition take_and_stop (s : Node) (t : nat) (T : Task) (e : nat) (E : Entry) (graceful : bool) (next : Pc) : Node :=
  match e_vm E with
  | Some v =>
      let s := set_entry s e (with_vm E None) in
      let s := match n_threads s !! v with Some V => set_thread s v (with_stop V graceful) | None => s end in
      go s t T (PJoin v)
  | None => go s t T next
  end.

(** [op]: a permit, then a look at whether the node is closing. *)
Definition op_permit (s : Node) (t : nat) (T : Task) : Node :=
  if drained s || Nat.leb OPS (ops_taken s) then go s t T (PDone (RErr Unavailable))
  else set_task s t (MkTask (t_kind T) (t_name T) (t_entry T) true PCheck).

Definition op_check (s : Node) (t : nat) (T : Task) (a : Answer) : option Node :=
  if is_closing s then Some (go s t T (PDone (RErr Unavailable)))
  else match t_kind T, t_entry T with
  | KCreate _ _ c, _ =>
      if bool_decide (is_Some (n_entries s !! a_fresh a)) then None else
      Some (set_task
        (set_entry s (a_fresh a) (with_lock (Entry_new (t_name T) (cf_memory_mib (n_config s)) 0 c NotMade) (Some t)))
        t (MkTask (t_kind T) (t_name T) (Some (a_fresh a)) (t_op T) PName))
  | _, Some _ => Some (go s t T PLock)
  | _, None => Some (go s t T PFind)
  end.

(** [get] *)
Definition find (s : Node) (t : nat) (T : Task) : Node :=
  match n_sandboxes s !! t_name T with
  | None => go s t T (PDone (RErr NotFound))
  | Some e =>
      set_task s t (MkTask (t_kind T) (t_name T) (Some e) (t_op T)
        match t_kind T with KGuest => PPeek | KIdle => PPermit | _ => PLock end)
  end.

(** A version no older than the one kept, or the one kept. *)
Definition configured (kept c : SandboxConfig) : option SandboxConfig :=
  match version c, version kept with
  | Some v, Some k => if v <? k then None else Some c
  | None, k => Some (MkConfig k (has_secrets c) (has_provided c) (settings c))
  | _, _ => Some c
  end.

(** Refuses a sandbox deleted while its caller waited for the lock. *)
Definition present (E : Entry) : option ApiError := if e_deleted E then Some NotFound else None.
(** Refuses one that runs, for a caller that saw it stopped. *)
Definition still_stopped (s : Node) (E : Entry) : option ApiError :=
  if bool_decide (is_Some (alive s E)) then Some Conflict else None.

(** What each request does first with the lock held. *)
Definition usage_now (s : Node) (t : nat) (T : Task) (e : nat) (E : Entry) : Node :=
  match alive s E with
  | Some V => go s t T (PRead (v_slot V) (v_boot V))
  | None => leave s t T e E (RUsage false (en_boot <$> e_ended E) None)
  end.
Definition delete_now (s : Node) (t : nat) (T : Task) (e : nat) (E : Entry) (if_stopped : bool) : Node :=
  match present E with
  | Some err => leave s t T e E (RErr err)
  | None =>
      match (if if_stopped then still_stopped s E else None) with
      | Some err => leave s t T e E (RErr err)
      | None => take_and_stop s t T e E false PStopped
      end
  end.
Definition park_now (s : Node) (t : nat) (T : Task) (e : nat) (E : Entry) (if_stopped : bool) : Node :=
  match present E with
  | Some err => leave s t T e E (RErr err)
  | None =>
      match (if if_stopped then still_stopped s E else None) with
      | Some err => leave s t T e E (RErr err)
      | None => take_and_stop s t T e E true PStopped
      end
  end.
Definition stop_when (s : Node) (t : nat) (T : Task) (e : nat) (E : Entry) (when : bool) : Node :=
  match present E with
  | Some err => leave s t T e E (RErr err)
  | None => if negb when then leave s t T e E RKept else take_and_stop s t T e E true PStopped
  end.
Definition configure_now (s : Node) (t : nat) (T : Task) (e : nat) (E : Entry) (c : SandboxConfig) (a : Answer) : Node :=
  match present E with
  | Some err => leave s t T e E (RErr err)
  | None =>
      match configured (e_config E) c with
      | None => leave s t T e E RDone
      | Some c =>
          if negb (a_ok a) then leave s t T e E (RErr Internal) else
          leave s t T e (with_config E c)
            (if bool_decide (is_Some (alive s E)) && network (n_config s) && negb (a_ok2 a) then RErr Internal else RDone)
      end
  end.
Definition checkpoint_now (s : Node) (t : nat) (T : Task) (e : nat) (E : Entry) : Node :=
  match present E with
  | Some err => leave s t T e E (RErr err)
  | None => go s t T (if bool_decide (is_Some (alive s E)) then PSync else PCopy)
  end.
Definition restore_now (s : Node) (t : nat) (T : Task) (e : nat) (E : Entry) : Node :=
  match present E with
  | Some err => leave s t T e E (RErr err)
  | None => take_and_stop s t T e E true PStopped
  end.
Definition guest_now (s : Node) (t : nat) (T : Task) (e : nat) (E : Entry) : Node :=
  match present E with
  | Some err => leave s t T e E (RErr err)
  | None =>
      match alive s E with
      | Some V => leave s t T e E (RBoot (v_boot V))
      | None => take_and_stop s t T e E false PMemory
      end
  end.

Definition held (s : Node) (t : nat) (T : Task) (e : nat) (E : Entry) (a : Answer) : option Node :=
  match t_kind T with
  | KUsage => Some (usage_now s t T e E)
  | KShut => Some (take_and_stop s t T e E true PStopped)
  | KDelete if_stopped => Some (delete_now s t T e E if_stopped)
  | KPark if_stopped => Some (park_now s t T e E if_stopped)
  | KStop => Some (stop_when s t T e E true)
  | KIdle => Some (stop_when s t T e E (a_ok a))
  | KConfigure c => Some (configure_now s t T e E c a)
  | KCheckpoint => Some (checkpoint_now s t T e E)
  | KRestore => Some (restore_now s t T e E)
  | KGuest => Some (guest_now s t T e E)
  | KCreate _ _ _ => None
  end.

(** Once the VM has stopped: the copy of [park], the boot of [restore]. *)
Definition restore_boot (s : Node) (t : nat) (T : Task) (e : nat) (E : Entry) (a : Answer) : Node :=
  let boot := boot_after (n_last_boot s) (a_now a) in
  go (set_entry (set_last_boot s boot) e (with_last_boot E boot)) t T (PRestore boot).
Definition park_end (s : Node) (t : nat) (T : Task) (e : nat) (E : Entry) (a : Answer) : Node :=
  leave s t T e E (if a_ok a then RParked (e_last_boot E) else RErr Internal).
Definition stopped (s : Node) (t : nat) (T : Task) (e : nat) (E : Entry) (a : Answer) : Node :=
  match t_kind T with
  | KDelete _ => go s t T (PBury RDone)
  | KPark _ => park_end s t T e E a
  | KRestore => restore_boot s t T e E a
  | _ => leave s t T e E RDone
  end.

(** [start] fails: a create goes on to remove what it made. *)
Definition start_failed (s : Node) (t : nat) (T : Task) (e : nat) (E : Entry) (err : ApiError) : Node :=
  match t_kind T with
  | KCreate _ _ _ => go s t T (PFailed err)
  | _ => leave s t T e E (RErr err)
  end.

Definition give_slot (s : Node) (slot : Z) : Node := set_slots s ({[ slot ]} ∪ n_slots s).

(** [start], after the VM there was is gone. *)
Definition start_memory (s : Node) (t : nat) (T : Task) (e : nat) (E : Entry) (a : Answer) : Node :=
  if negb (a_ok a) then start_failed s t T e E Internal else
  match memory_room (a_available a) (Z.min (2 ^ 64 - 1) (e_memory_mib E * MIB)) (min_free_memory (n_config s)) with
  | Some err => start_failed s t T e E err
  | None => go s t T PSlot
  end.
Definition start_slot (s : Node) (t : nat) (T : Task) (e : nat) (E : Entry) : Node :=
  match first_slot (n_slots s) with
  | None => start_failed s t T e E Unavailable
  | Some slot => go (set_slots s (n_slots s ∖ {[ slot ]})) t T (PBoot slot)
  end.
Definition start_boot (s : Node) (t : nat) (T : Task) (slot : Z) (a : Answer) : Node :=
  let boot := boot_after (n_last_boot s) (a_now a) in
  go (set_last_boot s boot) t T (PSave slot boot).
Definition start_save (s : Node) (t : nat) (T : Task) (e : nat) (E : Entry) (slot boot : Z) (a : Answer) : Node :=
  if a_ok a then go (set_entry s e (with_last_boot E boot)) t T (PSpawn slot boot)
  else start_failed (give_slot s slot) t T e E Internal.
Definition start_spawn (s : Node) (t : nat) (T : Task) (e : nat) (E : Entry) (slot boot : Z) (a : Answer) : option Node :=
  if negb (a_ok a) then Some (start_failed (give_slot s slot) t T e E Internal) else
  if bool_decide (is_Some (n_threads s !! a_fresh a)) then None else
  Some (go (set_thread s (a_fresh a) (MkThread e slot boot VBooting None None)) t T (PReady (a_fresh a))).
Definition start_ready (s : Node) (t : nat) (T : Task) (e : nat) (E : Entry) (v : nat) : option Node :=
  match n_threads s !! v with
  | Some V =>
      match v_ready V with
      | Some true =>
          Some (leave s t T e (with_vm E (Some v)) match t_kind T with KCreate _ _ _ => RDone | _ => RBoot (v_boot V) end)
      | Some false =>
          match v_phase V with VDone => Some (start_failed s t T e E Internal) | _ => None end
      | None => None
      end
  | None => None
  end.

(** [bury]: the rename, which may be found done, and the sync that follows it. *)
Definition bury (s : Node) (t : nat) (T : Task) (e : nat) (E : Entry) (r : Reply) (a : Answer) : Node :=
  let failed s E := leave s t T e E match t_kind T with KCreate _ _ _ => r | _ => RErr Internal end in
  match e_dir E with
  | Made =>
      if negb (a_ok a) then failed s E
      else if negb (a_ok2 a) then failed s (with_dir E Buried)
      else go (set_entry s e (with_dir E Buried)) t T (PBuried r)
  | _ => go s t T (PBuried r)
  end.

(** Forgets the name, unless another sandbox has taken it. *)
Definition forget (s : Node) (t : nat) (T : Task) (e : nat) (E : Entry) (r : Reply) : Node :=
  let s := if bool_decide (n_sandboxes s !! e_name E = Some e)
           then set_sandboxes s (delete (e_name E) (n_sandboxes s)) else s in
  leave s t T e E r.

(** [create_now], its name and its directory. *)
Definition create_name (s : Node) (t : nat) (T : Task) (e : nat) (E : Entry) : Node :=
  if bool_decide (is_Some (n_sandboxes s !! t_name T)) then leave s t T e E (RErr Conflict)
  else go (set_sandboxes s (<[ t_name T := e ]> (n_sandboxes s))) t T PMake.
Definition create_make (s : Node) (t : nat) (T : Task) (e : nat) (E : Entry) (a : Answer) : Node :=
  if a_ok a then
    let E := with_dir E Made in
    match t_kind T with
    | KCreate _ true _ => go (set_entry s e E) t T PMemory
    | _ => leave s t T e E RDone
    end
  else go (set_entry s e (with_dir E (if a_ok2 a then Made else NotMade))) t T (PFailed Internal).

(** A task that waits for the lock on the VM of [E]. *)
Definition acquire (s : Node) (t : nat) (T : Task) (e : nat) (E : Entry) (pc : Pc) : option Node :=
  match e_lock E with
  | Some _ => None
  | None => Some (go (set_entry s e (with_lock E (Some t))) t T pc)
  end.

(** The next step of task [t]; [None] while it has to wait. *)
Definition task_step (s : Node) (t : nat) (a : Answer) : option Node :=
  let! T := n_tasks s !! t in
  match t_pc T with
  | PPermit => Some (op_permit s t T)
  | PCheck => op_check s t T a
  | PFind => Some (find s t T)
  | PDone r => if t_op T then Some (set_task s t (MkTask (t_kind T) (t_name T) (t_entry T) false (PDone r))) else None
  | pc =>
      let! e := t_entry T in
      let! E := n_entries s !! e in
      match pc with
      | PPeek => acquire s t T e E PPeeked
      | PPeeked =>
          match alive s E with
          | Some V => Some (leave s t T e E (RBoot (v_boot V)))
          | None => Some (go (set_entry s e (with_lock E None)) t T PPermit)
          end
      | PLock => acquire s t T e E PHeld
      | PHeld => held s t T e E a
      | PName => Some (create_name s t T e E)
      | PMake => Some (create_make s t T e E a)
      | PRead slot boot =>
          Some (leave s t T e E
            match slot_user s slot with Some V => RUsage true (Some boot) (Some (v_boot V)) | None => RErr Internal end)
      | PJoin v =>
          match n_threads s !! v with
          | Some V =>
              match v_phase V with
              | VDone => Some (go s t T match t_kind T with KGuest => PMemory | _ => PStopped end)
              | _ => None
              end
          | None => None
          end
      | PStopped => Some (stopped s t T e E a)
      | PSync => Some (if a_ok a then go s t T PCopy else leave s t T e E (RErr Internal))
      | PCopy => Some (leave s t T e E (if a_ok a then RDone else RErr Internal))
      | PRestore boot => Some (leave s t T e E (if a_ok a then RBoot boot else RErr Internal))
      | PMemory => Some (start_memory s t T e E a)
      | PSlot => Some (start_slot s t T e E)
      | PBoot slot => Some (start_boot s t T slot a)
      | PSave slot boot => Some (start_save s t T e E slot boot a)
      | PSpawn slot boot => start_spawn s t T e E slot boot a
      | PReady v => start_ready s t T e E v
      | PFailed err => Some (go s t T (PBury (RErr err)))
      | PBury r => Some (bury s t T e E r a)
      | PBuried r => Some (go (set_entry s e (with_deleted E)) t T (PForgotten r))
      | PForgotten r => Some (forget s t T e E r)
      | _ => None
      end
  end.

(** A request comes in: [create] checks its own first. *)
Definition ask (s : Node) (t : nat) (k : Kind) (name : bytes) (a : Answer) : option Node :=
  if bool_decide (is_Some (n_tasks s !! t)) then None else
  let at_ pc := Some (set_task s t (MkTask k name None false pc)) in
  match k with
  | KCreate imported _ c =>
      if negb (valid_name name) then at_ (PDone (RErr BadRequest)) else
      match check_config (n_config s) c with
      | Some err => at_ (PDone (RErr err))
      | None =>
          match disk_room (a_available a) (min_free_disk (n_config s)) with
          | Some err => at_ (PDone (RErr err))
          | None => if imported && negb (a_ok a) then at_ (PDone (RErr BadRequest)) else at_ PPermit
          end
      end
  | KConfigure c =>
      match check_config (n_config s) c with Some err => at_ (PDone (RErr err)) | None => at_ PPermit end
  | KRestore => if a_ok a then at_ PPermit else at_ (PDone (RErr BadRequest))
  | KGuest | KIdle | KUsage => at_ PFind
  | KShut => None
  | _ => at_ PPermit
  end.

(** A caller that goes away before its task runs on its own. *)
Definition cancel (s : Node) (t : nat) : option Node :=
  let! T := n_tasks s !! t in
  match t_kind T, t_pc T with
  | KGuest, PPeek => Some (go s t T (PDone (RErr Internal)))
  | KUsage, PLock => Some (go s t T (PDone (RErr Internal)))
  | KGuest, PPeeked | KUsage, PHeld | KUsage, PRead _ _ =>
      let! e := t_entry T in let! E := n_entries s !! e in Some (leave s t T e E (RErr Internal))
  | _, _ => None
  end.

(** ** Threads *)

(** What happens to the thread of a VM. *)
Inductive Happening :=
  | HBoot (ok : bool)
  | HStop
  | HExit
  | HStopVm (used : option Z)
  | HRelease (ok : bool).

(** [release]: the slot goes back if nothing is left in it. *)
Definition release (s : Node) (slot : Z) (reclaimed : bool) : Node := if reclaimed then give_slot s slot else s.

(** [hold] *)
Definition thread_step (s : Node) (v : nat) (h : Happening) : option Node :=
  let! V := n_threads s !! v in
  let! E := n_entries s !! v_entry V in
  match v_phase V, h with
  | VBooting, HBoot true =>
      Some (set_thread (set_entry s (v_entry V) (with_running E true)) v (with_ready (with_phase V VHeld) true))
  | VBooting, HBoot false => Some (set_thread s v (with_phase V VFailed))
  | VFailed, HRelease ok => Some (set_thread (release s (v_slot V) ok) v (with_ready (with_phase V VDone) false))
  | VHeld, HStop =>
      match v_stop V with
      | Some g => Some (set_thread (set_entry s (v_entry V) (with_running E false)) v (with_phase V (VStopping g)))
      | None => None
      end
  | VHeld, HExit => Some (set_thread (set_entry s (v_entry V) (with_running E false)) v (with_phase V (VStopping false)))
  | VStopping _, HStopVm used =>
      Some (set_thread
        (set_entry s (v_entry V)
           match used with Some cpu => with_ended E (Some (MkEnded (v_boot V) cpu)) | None => E end)
        v (with_phase V VStopped))
  | VStopped, HRelease ok => Some (set_thread (release s (v_slot V) ok) v (with_phase V VDone))
  | _, _ => None
  end.

(** ** Shutdown *)

Definition no_ops (s : Node) : bool := forallb (fun T => negb (t_op T)) (map snd (map_to_list (n_tasks s))).
Definition above (s : Node) (base : nat) : bool := forallb (fun t => Nat.ltb t base) (map fst (map_to_list (n_tasks s))).
Definition is_shut (T : Task) : bool := match t_kind T with KShut => true | _ => false end.
Definition is_done (T : Task) : bool := match t_pc T with PDone _ => true | _ => false end.

Definition shut_task (acc : Node * nat) (entry : bytes * nat) : Node * nat :=
  (set_task acc.1 acc.2 (MkTask KShut entry.1 (Some entry.2) false PLock), S acc.2).

(** [shut_down]: closes the node, waits for the permits, stops every entry on
    a task of its own, from number [base] on, and waits for those. *)
Inductive ShutEvent := SClose | SDrain (base : nat) | SEnd.
Definition shut_down (s : Node) (ev : ShutEvent) : option Node :=
  match n_shutdown s, ev with
  | SOpen, SClose => Some (set_shutdown s SClosing)
  | SClosing, SDrain base =>
      if no_ops s && above s base
      then Some (fold_left shut_task (map_to_list (n_sandboxes s)) (set_shutdown s SStopping, base)).1 else None
  | SStopping, SEnd =>
      if forallb (fun T => negb (is_shut T) || is_done T) (map snd (map_to_list (n_tasks s)))
      then Some (set_shutdown s SOver) else None
  | _, _ => None
  end.

(** ** Runs *)

Inductive Event :=
  | EAsk (t : nat) (k : Kind) (name : bytes) (a : Answer)
  | ETask (t : nat) (a : Answer)
  | ECancel (t : nat)
  | EThread (v : nat) (h : Happening)
  | EShut (ev : ShutEvent).

Definition step (s : Node) (ev : Event) : option Node :=
  match ev with
  | EAsk t k name a => ask s t k name a
  | ETask t a => task_step s t a
  | ECancel t => cancel s t
  | EThread v h => thread_step s v h
  | EShut ev => shut_down s ev
  end.

Fixpoint run (s : Node) (evs : list Event) : option Node :=
  match evs with [] => Some s | ev :: evs => let! s := step s ev in run s evs end.
