(* ===== verification/NodeInv.v ===== *)
(** * What holds of the entries, the tasks and the threads of a node

    The invariant of [Node] on which the theorems of [NodeProofs] rest: a lock
    has one holder, and a VM that is not over belongs to its entry, which it is
    the only one of, as [e_vm] or as what the holder of the lock waits for. *)

From stdpp Require Import gmap.
From S2P Require Import Prelude Cas Node.

(** The points at which a task holds the lock on the VM. *)
Definition holds (pc : Pc) : bool :=
  match pc with PPermit | PCheck | PFind | PPeek | PLock | PDone _ => false | _ => true end.

(** The points with no VM left in the entry. *)
Definition vacant (pc : Pc) : bool :=
  match pc with
  | PName | PMake | PJoin _ | PStopped | PRestore _ | PMemory | PSlot | PBoot _ | PSave _ _ | PSpawn _ _ | PReady _
  | PFailed _ | PBury _ | PBuried _ | PForgotten _ => true
  | _ => false
  end.

(** The thread a task waits for. *)
Definition awaits (pc : Pc) : option nat := match pc with PJoin v | PReady v => Some v | _ => None end.

(** The points of [start], and those before it, at which the sandbox is not
    deleted. *)
Definition starting (pc : Pc) : bool :=
  match pc with PName | PMake | PJoin _ | PMemory | PSlot | PBoot _ | PSave _ _ | PSpawn _ _ | PReady _ => true | _ => false end.

Definition booted (V : Thread) : Prop := v_phase V <> VBooting /\ v_phase V <> VFailed.
Definition live (V : Thread) : Prop := v_phase V <> VDone.
(** What a thread told the task that started it. *)
Definition told_ready (V : Thread) : Prop :=
  match v_ready V with
  | None => v_phase V = VBooting \/ v_phase V = VFailed
  | Some true => booted V
  | Some false => v_phase V = VDone
  end.

(** The thread of the VM of an entry. *)
Definition current (ta : gmap nat Task) (E : Entry) : option nat :=
  match e_vm E with
  | Some v => Some v
  | None => t ← e_lock E; T ← ta !! t; awaits (t_pc T)
  end.

Section inv.
Context (en : gmap nat Entry) (ta : gmap nat Task) (th : gmap nat Thread).

(** What the point of a task says of the thread it waits for. *)
Definition waits_ok (e : nat) (pc : Pc) : Prop :=
  match pc with
  | PJoin v => exists V, th !! v = Some V /\ v_entry V = e /\ is_Some (v_stop V) /\ v_ready V = Some true /\ booted V
  | PReady v => exists V, th !! v = Some V /\ v_entry V = e
  | _ => True
  end.

Definition kind_ok (k : Kind) (pc : Pc) : Prop :=
  match pc with
  | PName | PMake | PFailed _ => exists i st c, k = KCreate i st c
  | PMemory | PSlot | PBoot _ | PSave _ _ | PSpawn _ _ | PReady _ => k = KGuest \/ exists i st c, k = KCreate i st c
  | PRestore _ => k = KRestore
  | PRead _ _ => k = KUsage
  | PPeek | PPeeked => k = KGuest
  | PSync | PCopy => k = KCheckpoint
  | PBury _ | PBuried _ | PForgotten _ => (exists b, k = KDelete b) \/ exists i st c, k = KCreate i st c
  | PPermit | PCheck => k <> KUsage /\ k <> KShut
  | PFind => k <> KShut /\ forall i st c, k <> KCreate i st c
  | PLock | PHeld => forall i st c, k <> KCreate i st c
  | PJoin _ | PStopped => k <> KUsage /\ forall i st c, k <> KCreate i st c
  | PDone _ => True
  end.

Record task_ok (t : nat) (T : Task) : Prop := {
  to_entry : forall e, t_entry T = Some e -> is_Some (en !! e);
  to_kind : kind_ok (t_kind T) (t_pc T);
  to_known : holds (t_pc T) = true \/ t_pc T = PPeek \/ t_pc T = PLock -> is_Some (t_entry T);
  to_lock : forall e E, holds (t_pc T) = true -> t_entry T = Some e -> en !! e = Some E -> e_lock E = Some t;
  to_vacant : forall e E, vacant (t_pc T) = true -> t_entry T = Some e -> en !! e = Some E -> e_vm E = None;
  to_present : forall e E, starting (t_pc T) = true -> t_entry T = Some e -> en !! e = Some E -> e_deleted E = false;
  to_waits : forall e, t_entry T = Some e -> waits_ok e (t_pc T);
}.

Record entry_ok (e : nat) (E : Entry) : Prop := {
  eo_lock : forall t, e_lock E = Some t ->
    exists T, ta !! t = Some T /\ t_entry T = Some e /\ holds (t_pc T) = true;
  eo_vm : forall v, e_vm E = Some v -> exists V, th !! v = Some V /\ v_entry V = e /\ v_ready V = Some true /\ booted V;
  eo_live : forall v V, th !! v = Some V -> v_entry V = e -> live V -> current ta E = Some v;
  eo_running : e_running E = true <-> exists v V, th !! v = Some V /\ v_entry V = e /\ v_phase V = VHeld;
  eo_deleted : e_deleted E = true -> e_vm E = None;
}.

Record inv : Prop := {
  in_task : forall t T, ta !! t = Some T -> task_ok t T;
  in_entry : forall e E, en !! e = Some E -> entry_ok e E;
  in_thread : forall v V, th !! v = Some V -> is_Some (en !! v_entry V);
  in_told : forall v V, th !! v = Some V -> told_ready V;
}.
End inv.

(** ** The steps of a task that holds the lock *)

(** Two tasks do not hold the same lock. *)
Lemma holder_unique en ta th t T t' T' e :
  inv en ta th -> ta !! t = Some T -> holds (t_pc T) = true -> t_entry T = Some e ->
  ta !! t' = Some T' -> holds (t_pc T') = true -> t_entry T' = Some e -> t' = t.
Proof.
  intros Hi Ht Hh He Ht' Hh' He'. destruct (to_entry _ _ _ _ (in_task _ _ _ Hi _ _ Ht) e He) as [E HE].
  pose proof (to_lock _ _ _ _ (in_task _ _ _ Hi _ _ Ht) e E Hh He HE).
  pose proof (to_lock _ _ _ _ (in_task _ _ _ Hi _ _ Ht') e E Hh' He' HE). congruence.
Qed.

(** A task that stays as it was, when the entry of the holder changes. *)
Lemma task_ok_other en ta th e E' t T t' T' :
  inv en ta th -> ta !! t = Some T -> holds (t_pc T) = true -> t_entry T = Some e ->
  ta !! t' = Some T' -> t' <> t -> task_ok (<[ e := E' ]> en) th t' T'.
Proof.
  intros Hi Ht Hh He Ht' Hne. destruct (in_task _ _ _ Hi _ _ Ht') as [H1 Hk Hkn H2 H3 H4 H5].
  assert (t_entry T' = Some e -> holds (t_pc T') = false) as Hno.
  { intros He'. destruct (holds (t_pc T')) eqn:Hh'; [|done]. by destruct (Hne (holder_unique _ _ _ _ _ _ _ _ Hi Ht Hh He Ht' Hh' He')). }
  assert (forall e0, t_entry T' = Some e0 -> holds (t_pc T') = true -> e <> e0) as Hd.
  { intros e0 He0 Hh' ->. by rewrite Hno in Hh'. }
  assert (vacant (t_pc T') = true -> holds (t_pc T') = true) as Hem by by destruct (t_pc T').
  assert (starting (t_pc T') = true -> holds (t_pc T') = true) as Hst by by destruct (t_pc T').
  split; [| done.. | | | | done].
  - intros e0 He0. destruct (decide (e0 = e)) as [->|?]; [by rewrite lookup_insert_eq|rewrite lookup_insert_ne by done; eauto].
  - intros e0 E0 Hh' He0. rewrite lookup_insert_ne by eauto. eauto.
  - intros e0 E0 Hh' He0. rewrite lookup_insert_ne by eauto. eauto.
  - intros e0 E0 Hh' He0. rewrite lookup_insert_ne by eauto. eauto.
Qed.

(** An entry whose lock the task does not hold. *)
Lemma entry_ok_other ta th t T' e E :
  (forall T, ta !! t = Some T -> holds (t_pc T) = true -> t_entry T <> Some e) ->
  entry_ok ta th e E -> entry_ok (<[ t := T' ]> ta) th e E.
Proof.
  intros Hno [H1 H2 H3 H4 H5].
  assert (e_lock E <> Some t) as Hl.
  { intros Hl. destruct (H1 t Hl) as (T & HT & He & Hh). by apply (Hno T HT Hh). }
  split; [| done | | done | done].
  - intros t' Ht'. rewrite lookup_insert_ne by congruence. eauto.
  - intros v V Hv He Hlv. rewrite <- (H3 v V Hv He Hlv). unfold current. destruct (e_vm E); [done|].
    destruct (e_lock E) as [t'|]; [|done]. cbn. rewrite lookup_insert_ne by congruence. done.
Qed.

(** The thread an entry has, once its holder is at [T']. *)
Definition next_current (E' : Entry) (T' : Task) : option nat :=
  match e_vm E' with Some v => Some v | None => awaits (t_pc T') end.

Lemma awaits_holds pc v : awaits pc = Some v -> holds pc = true.
Proof. by destruct pc. Qed.

Lemma current_holder en ta th t T e E :
  inv en ta th -> ta !! t = Some T -> holds (t_pc T) = true -> t_entry T = Some e -> en !! e = Some E ->
  current ta E = next_current E T.
Proof.
  intros Hi Ht Hh He HE. unfold current, next_current. destruct (e_vm E); [done|].
  rewrite (to_lock _ _ _ _ (in_task _ _ _ Hi _ _ Ht) e E Hh He HE). cbn. by rewrite Ht.
Qed.

(** The holder of a lock goes on, or lets go of it; no thread changes. *)
Lemma hold_step en ta th t T e E T' E' :
  inv en ta th -> ta !! t = Some T -> holds (t_pc T) = true -> t_entry T = Some e -> en !! e = Some E ->
  t_entry T' = Some e -> e_running E' = e_running E ->
  e_lock E' = (if holds (t_pc T') then Some t else None) ->
  kind_ok (t_kind T') (t_pc T') ->
  (vacant (t_pc T') = true -> e_vm E' = None) ->
  (starting (t_pc T') = true -> e_deleted E' = false) ->
  (e_deleted E' = true -> e_vm E' = None) ->
  waits_ok th e (t_pc T') ->
  (forall v, e_vm E' = Some v -> exists V, th !! v = Some V /\ v_entry V = e /\ v_ready V = Some true /\ booted V) ->
  (forall v V, next_current E T = Some v -> th !! v = Some V -> live V -> next_current E' T' = Some v) ->
  inv (<[ e := E' ]> en) (<[ t := T' ]> ta) th.
Proof.
  intros Hi Ht Hh He HE He' Hr Hl Hk Hv Hs Hd Hw Hvm Hcur.
  assert (forall e0, is_Some (en !! e0) -> is_Some (<[ e := E' ]> en !! e0)) as Hsome.
  { intros e0 ?. destruct (decide (e0 = e)) as [->|?]; [by rewrite lookup_insert_eq|by rewrite lookup_insert_ne]. }
  split.
  - intros t' T0 [[<- <-]|[Hne Ht']]%lookup_insert_Some; [|by eapply task_ok_other with (t := t)].
    split; [| done | by rewrite He' | | | | ]; rewrite He'; intros e0.
    + intros [= <-]. by rewrite lookup_insert_eq.
    + intros E0 Hh0 [= <-] <-%lookup_insert_rev. by rewrite Hl, Hh0.
    + intros E0 Hh0 [= <-] <-%lookup_insert_rev. auto.
    + intros E0 Hh0 [= <-] <-%lookup_insert_rev. auto.
    + by intros [= <-].
  - intros e0 E0 [[<- <-]|[Hne HE0]]%lookup_insert_Some.
    + destruct (in_entry _ _ _ Hi e E HE) as [H1 H2 H3 H4 H5]. split; [| done | | by rewrite Hr | done].
      * intros t'. rewrite Hl. destruct (holds (t_pc T')) eqn:Hh'; [|done]. intros [= <-].
        rewrite lookup_insert_eq. eauto.
      * intros v V Hv0 Hve Hlv. specialize (H3 v V Hv0 Hve Hlv).
        rewrite (current_holder _ _ _ _ _ _ _ Hi Ht Hh He HE) in H3.
        specialize (Hcur v V H3 Hv0 Hlv). unfold current, next_current in *.
        destruct (e_vm E'); [done|]. rewrite Hl, (awaits_holds _ _ Hcur). cbn. by rewrite lookup_insert_eq.
    + apply entry_ok_other; [|by apply (in_entry _ _ _ Hi)]. intros T0 HT0 _. congruence.
  - intros v V Hv0. apply Hsome. by eapply in_thread.
  - by apply Hi.
Qed.

(** A task without the lock goes on without it. *)
Lemma free_step en ta th t T' :
  inv en ta th -> (forall T, ta !! t = Some T -> holds (t_pc T) = false) -> holds (t_pc T') = false ->
  kind_ok (t_kind T') (t_pc T') -> (t_pc T' = PPeek \/ t_pc T' = PLock -> is_Some (t_entry T')) ->
  (forall e, t_entry T' = Some e -> is_Some (en !! e)) ->
  inv en (<[ t := T' ]> ta) th.
Proof.
  intros Hi Hf Hh Hk Hkn He. split; [| |by apply Hi..].
  - intros t' T0 [[<- <-]|[Hne Ht']]%lookup_insert_Some; [|by apply Hi].
    split; try done.
    + rewrite Hh. naive_solver.
    + congruence.
    + destruct (t_pc T'); done.
    + destruct (t_pc T'); done.
    + destruct (t_pc T'); done.
  - intros e E HE. apply entry_ok_other; [|by apply Hi]. intros T HT Hh'. by rewrite (Hf T HT) in Hh'.
Qed.

(** A task takes the lock. *)
Lemma acquire_step en ta th t T e E T' :
  inv en ta th -> ta !! t = Some T -> holds (t_pc T) = false -> en !! e = Some E -> e_lock E = None ->
  t_entry T' = Some e -> t_pc T' = PPeeked \/ t_pc T' = PHeld -> kind_ok (t_kind T') (t_pc T') ->
  inv (<[ e := with_lock E (Some t) ]> en) (<[ t := T' ]> ta) th.
Proof.
  intros Hi Ht Hh HE Hl He' Hpc Hk.
  assert (awaits (t_pc T') = None /\ vacant (t_pc T') = false /\ starting (t_pc T') = false /\ holds (t_pc T') = true)
    as (Haw & Hva & Hst & Hho) by (by destruct Hpc as [-> | ->]).
  assert (forall e0, is_Some (en !! e0) -> is_Some (<[ e := with_lock E (Some t) ]> en !! e0)) as Hsome.
  { intros e0 ?. destruct (decide (e0 = e)) as [->|?]; [by rewrite lookup_insert_eq|by rewrite lookup_insert_ne]. }
  split.
  - intros t' T0 [[<- <-]|[Hne Ht']]%lookup_insert_Some.
    + split; [| done | by rewrite He' | | by rewrite Hva | by rewrite Hst | ]; rewrite He'; intros e0.
      * intros [= <-]. by rewrite lookup_insert_eq.
      * by intros E0 _ [= <-] <-%lookup_insert_rev.
      * destruct Hpc as [-> | ->]; done.
    + destruct (in_task _ _ _ Hi _ _ Ht') as [H1 H0 Hkn H2 H3 H4 H5].
      assert (holds (t_pc T0) = true -> t_entry T0 <> Some e) as Hno.
      { intros Hh0 He0. by rewrite (H2 e E Hh0 He0 HE) in Hl. }
      split; [eauto | done.. | | | | done]; intros e0 E0 Hh0 He0.
      * rewrite lookup_insert_ne by (intros ->; by apply Hno). eauto.
      * rewrite lookup_insert_ne by (intros ->; apply Hno; [by destruct (t_pc T0)|done]). eauto.
      * rewrite lookup_insert_ne by (intros ->; apply Hno; [by destruct (t_pc T0)|done]). eauto.
  - intros e0 E0 [[<- <-]|[Hne HE0]]%lookup_insert_Some.
    + destruct (in_entry _ _ _ Hi e E HE) as [H1 H2 H3 H4 H5]. split; [| done | | done | done].
      * intros t' [= <-]. rewrite lookup_insert_eq. eauto.
      * intros v V Hv Hve Hlv. specialize (H3 v V Hv Hve Hlv). unfold current in *. cbn.
        destruct (e_vm E); [done|]. by rewrite Hl in H3.
    + apply entry_ok_other; [|by apply Hi]. intros T0 HT0 ?. congruence.
  - intros v V Hv. apply Hsome. by eapply in_thread.
  - by apply Hi.
Qed.

(** A create makes its entry, with the lock held. *)
Lemma new_entry_step en ta th t T e E T' :
  inv en ta th -> ta !! t = Some T -> holds (t_pc T) = false -> en !! e = None ->
  e_lock E = Some t -> e_vm E = None -> e_running E = false -> e_deleted E = false ->
  t_entry T' = Some e -> t_pc T' = PName -> kind_ok (t_kind T') PName ->
  inv (<[ e := E ]> en) (<[ t := T' ]> ta) th.
Proof.
  intros Hi Ht Hh HE Hl Hv Hr Hd He' Hpc Hk.
  assert (forall e0 x, en !! e0 = Some x -> <[ e := E ]> en !! e0 = Some x) as Hkeep.
  { intros e0 x Hx. rewrite lookup_insert_ne; [done|]. congruence. }
  split.
  - intros t' T0 [[<- <-]|[Hne Ht']]%lookup_insert_Some.
    + split; [| by rewrite Hpc | by rewrite He' | | | | by rewrite Hpc ]; rewrite He', ?Hpc; intros e0.
      * intros [= <-]. by rewrite lookup_insert_eq.
      * by intros E0 _ [= <-] <-%lookup_insert_rev.
      * by intros E0 _ [= <-] <-%lookup_insert_rev.
      * by intros E0 _ [= <-] <-%lookup_insert_rev.
    + destruct (in_task _ _ _ Hi _ _ Ht') as [H1 H0 Hkn H2 H3 H4 H5].
      assert (forall e0, t_entry T0 = Some e0 -> e <> e0) as Hno.
      { intros e0 He0 <-. destruct (H1 e He0). congruence. }
      split; [| done.. | | | | done]; intros e0.
      * intros He0. destruct (H1 e0 He0) as [x Hx]. eauto.
      * intros E0 Hh0 He0. rewrite lookup_insert_ne by eauto. eauto.
      * intros E0 Hh0 He0. rewrite lookup_insert_ne by eauto. eauto.
      * intros E0 Hh0 He0. rewrite lookup_insert_ne by eauto. eauto.
  - intros e0 E0 [[<- <-]|[Hne HE0]]%lookup_insert_Some.
    + assert (forall v V, th !! v = Some V -> v_entry V <> e) as Hno.
      { intros v V HV Hve. destruct (in_thread _ _ _ Hi v V HV). congruence. }
      split; [| | | |]; rewrite ?Hv, ?Hr, ?Hd; try done.
      * rewrite Hl. intros t' [= <-]. exists T'. by rewrite lookup_insert_eq, Hpc.
      * intros v V HV Hve. by destruct (Hno v V HV).
      * split; [done|]. intros (v & V & HV & Hve & _). by destruct (Hno v V HV).
    + apply entry_ok_other; [|by apply Hi]. intros T0 HT0 ?. congruence.
  - intros v V HV. destruct (in_thread _ _ _ Hi v V HV) as [x Hx]. eauto.
  - by apply Hi.
Qed.

(** ** The steps of a thread *)

(** The thread moves on, and its entry with it. *)
Lemma thread_update en ta th v V V' e E E' :
  inv en ta th -> th !! v = Some V -> v_entry V = e -> v_entry V' = e -> en !! e = Some E ->
  e_lock E' = e_lock E -> e_vm E' = e_vm E -> e_deleted E' = e_deleted E ->
  (is_Some (v_stop V) -> is_Some (v_stop V')) ->
  (v_ready V = Some true -> v_ready V' = Some true) ->
  (booted V -> booted V') -> (live V' -> live V) -> (told_ready V -> told_ready V') ->
  (v_phase V' = v_phase V /\ e_running E' = e_running E \/ live V /\ (e_running E' = true <-> v_phase V' = VHeld)) ->
  inv (<[ e := E' ]> en) ta (<[ v := V' ]> th).
Proof.
  intros Hi HV He He' HE Hl Hvm Hd Hst Hrd Hbo Hlv Hto Hrun.
  assert (forall e0, is_Some (en !! e0) -> is_Some (<[ e := E' ]> en !! e0)) as Hsome.
  { intros e0 ?. destruct (decide (e0 = e)) as [->|?]; [by rewrite lookup_insert_eq|by rewrite lookup_insert_ne]. }
  assert (forall v0 V0, <[ v := V' ]> th !! v0 = Some V0 -> exists V1, th !! v0 = Some V1 /\ v_entry V1 = v_entry V0 /\ (live V0 -> live V1)) as Hback.
  { intros v0 V0 [[<- <-]|[_ H0]]%lookup_insert_Some; [|by eauto]. exists V. split_and!; [done|congruence|done]. }
  split.
  - intros t T HT. destruct (in_task _ _ _ Hi t T HT) as [H1 H0 Hkn H2 H3 H4 H5]. split; [eauto | done.. | | | | ].
    + intros e0 E0 Hh0 He0 [[<- <-]|[_ HE0]]%lookup_insert_Some; [rewrite Hl|]; eauto.
    + intros e0 E0 Hh0 He0 [[<- <-]|[_ HE0]]%lookup_insert_Some; [rewrite Hvm|]; eauto.
    + intros e0 E0 Hh0 He0 [[<- <-]|[_ HE0]]%lookup_insert_Some; [rewrite Hd|]; eauto.
    + intros e0 He0. specialize (H5 e0 He0). destruct (t_pc T) as [| | | | | | | | | |v0| | | | | | | | | |v0| | | | |]; try done.
      * destruct H5 as (V0 & HV0 & Hve & Hs & Hr & Hb). destruct (decide (v0 = v)) as [->|Hne].
        -- cbn. rewrite lookup_insert_eq. exists V'. simplify_eq. split_and!; [done|congruence|auto..].
        -- cbn. rewrite lookup_insert_ne by done. eauto 10.
      * destruct H5 as (V0 & HV0 & Hve). destruct (decide (v0 = v)) as [->|Hne].
        -- cbn. rewrite lookup_insert_eq. exists V'. simplify_eq. split; [done|congruence].
        -- cbn. rewrite lookup_insert_ne by done. eauto 10.
  - intros e0 E0 [[<- <-]|[Hne HE0]]%lookup_insert_Some.
    + destruct (in_entry _ _ _ Hi e E HE) as [H1 H2 H3 H4 H5]. split.
      * by rewrite Hl.
      * rewrite Hvm. intros v0 Hv0. destruct (H2 v0 Hv0) as (V0 & HV0 & Hve & Hr & Hb).
        destruct (decide (v0 = v)) as [->|Hne'].
        -- rewrite lookup_insert_eq. exists V'. simplify_eq. split_and!; [done|congruence|auto..].
        -- rewrite lookup_insert_ne by done. eauto 10.
      * intros v0 V0 HV0 Hve Hlv0. unfold current. rewrite Hvm, Hl.
        destruct (Hback v0 V0 HV0) as (V1 & HV1 & Hve1 & Hl1). apply (H3 v0 V1); [done|congruence|auto].
      * destruct Hrun as [[Hp Hr] | [Hlv1 Hr]].
        -- rewrite Hr, H4. split; intros (v0 & V0 & HV0 & Hve & Hph).
           ++ destruct (decide (v0 = v)) as [->|Hne'].
              ** exists v, V'. rewrite lookup_insert_eq. simplify_eq. split_and!; congruence.
              ** exists v0, V0. by rewrite lookup_insert_ne.
           ++ apply lookup_insert_Some in HV0 as [[<- <-]|[_ HV0]]; [|by eauto].
              exists v, V. split_and!; congruence.
        -- rewrite Hr. split.
           ++ intros Hph. exists v, V'. by rewrite lookup_insert_eq.
           ++ intros (v0 & V0 & HV0 & Hve & Hph). apply lookup_insert_Some in HV0 as [[<- <-]|[Hne' HV0]]; [done|].
              assert (live V0) as Hlv0 by (unfold live; congruence).
              pose proof (H3 v0 V0 HV0 Hve Hlv0). pose proof (H3 v V HV He Hlv1). congruence.
      * by rewrite Hd, Hvm.
    + destruct (in_entry _ _ _ Hi e0 E0 HE0) as [H1 H2 H3 H4 H5].
      assert (forall v0 V0, v_entry V0 = e0 -> th !! v0 = Some V0 <-> <[ v := V' ]> th !! v0 = Some V0) as Hsame.
      { intros v0 V0 Hve. destruct (decide (v0 = v)) as [->|?]; [|by rewrite lookup_insert_ne].
        rewrite lookup_insert_eq, HV. split; intros [= <-]; congruence. }
      split; [done | | | | done].
      * intros v0 Hv0. destruct (H2 v0 Hv0) as (V0 & HV0 & Hve & ?). exists V0. split; [by apply Hsame|done].
      * intros v0 V0 HV0 Hve. apply H3; [by apply Hsame|done].
      * rewrite H4. split; intros (v0 & V0 & HV0 & Hve & ?); exists v0, V0; (split; [by apply Hsame|done]).
  - intros v0 V0 HV0. destruct (Hback v0 V0 HV0) as (V1 & HV1 & <- & _). apply Hsome. by eapply in_thread.
  - intros v0 V0 [[<- <-]|[_ H0]]%lookup_insert_Some; [apply Hto|]; by eapply in_told.
Qed.

(** A VM is started: the entry has none. *)
Lemma spawn_step en ta th t T e E T' v V :
  inv en ta th -> ta !! t = Some T -> (exists slot boot, t_pc T = PSpawn slot boot) -> t_entry T = Some e -> en !! e = Some E ->
  t_entry T' = Some e -> t_pc T' = PReady v -> t_kind T' = t_kind T -> th !! v = None ->
  v_entry V = e -> v_phase V = VBooting -> v_ready V = None ->
  inv en (<[ t := T' ]> ta) (<[ v := V ]> th).
Proof.
  intros Hi Ht (slot & boot & Hpc) He HE He' Hpc' Hk Hv Hve Hph Hrd.
  assert (holds (t_pc T) = true) as Hh by by rewrite Hpc.
  destruct (in_task _ _ _ Hi t T Ht) as [H1 H0 Hkn H2 H3 H4 H5]. rewrite Hpc in *.
  assert (forall v0 V0, th !! v0 = Some V0 -> <[ v := V ]> th !! v0 = Some V0) as Hkeep.
  { intros v0 V0 H'. rewrite lookup_insert_ne; [done|]. congruence. }
  assert (forall v0 V0, th !! v0 = Some V0 -> v_entry V0 = e -> v_phase V0 = VDone) as Hnone.
  { intros v0 V0 HV0 He0. destruct (v_phase V0) eqn:Hp; try done.
    all: assert (live V0) as Hn by (unfold live; congruence); exfalso.
    all: pose proof (eo_live _ _ _ _ (in_entry _ _ _ Hi e E HE) v0 V0 HV0 He0 Hn) as Hc.
    all: rewrite (current_holder _ _ _ _ _ _ _ Hi Ht ltac:(by rewrite Hpc) He HE) in Hc.
    all: unfold next_current in Hc; by rewrite (H3 e E eq_refl He HE), Hpc in Hc. }
  split.
  - intros t' T0 [[<- <-]|[Hne Ht']]%lookup_insert_Some.
    + split; rewrite ?He', ?Hpc'; try done.
      * intros e0 [= <-]. eauto.
      * rewrite Hk. exact H0.
      * intros e0 E0 _ [= ->] ?. by apply (H2 e0).
      * intros e0 E0 _ [= ->] ?. by apply (H3 e0).
      * intros e0 E0 _ [= ->] ?. by apply (H4 e0).
      * intros e0 [= <-]. exists V. by rewrite lookup_insert_eq.
    + destruct (in_task _ _ _ Hi t' T0 Ht') as [G1 G0 Gkn G2 G3 G4 G5]. split; try done.
      intros e0 He0. specialize (G5 e0 He0). destruct (t_pc T0); try done.
      all: destruct G5 as (V0 & HV0 & ?); exists V0; split; [by apply Hkeep|done].
  - intros e0 E0 HE0. destruct (decide (e0 = e)) as [->|Hne].
    + rewrite HE in HE0. injection HE0 as <-.
      destruct (in_entry _ _ _ Hi e E HE) as [G1 G2 G3 G4 G5]. split; try done.
      * rewrite (H2 e E eq_refl He HE). intros t0 [= <-]. exists T'. by rewrite lookup_insert_eq, Hpc'.
      * by rewrite (H3 e E eq_refl He HE).
      * intros v0 V0 [[<- <-]|[_ HV0]]%lookup_insert_Some He0 Hlv.
        -- unfold current. rewrite (H3 e E eq_refl He HE), (H2 e E eq_refl He HE). cbn.
           by rewrite lookup_insert_eq; cbn; rewrite Hpc'.
        -- by destruct (Hlv (Hnone v0 V0 HV0 He0)).
      * rewrite G4. split; intros (v0 & V0 & HV0 & He0 & Hp).
        -- by rewrite (Hnone v0 V0 HV0 He0) in Hp.
        -- apply lookup_insert_Some in HV0 as [[<- <-]|[_ HV0]]; [congruence|eauto].
    + apply entry_ok_other; [intros T0 HT0 _; congruence|].
      destruct (in_entry _ _ _ Hi e0 E0 HE0) as [G1 G2 G3 G4 G5]. split; try done.
      * intros v0 Hv0. destruct (G2 v0 Hv0) as (V0 & HV0 & ?). eauto.
      * intros v0 V0 [[<- <-]|[_ HV0]]%lookup_insert_Some He0 Hlv; [congruence|eauto].
      * rewrite G4. split; intros (v0 & V0 & HV0 & He0 & Hp); [eauto 10|].
        apply lookup_insert_Some in HV0 as [[<- <-]|[_ HV0]]; [congruence|eauto].
  - intros v0 V0 [[<- <-]|[_ HV0]]%lookup_insert_Some; [rewrite Hve; eauto|by eapply in_thread].
  - intros v0 V0 [[<- <-]|[_ HV0]]%lookup_insert_Some; [|by eapply in_told].
    unfold told_ready. rewrite Hrd. by left.
Qed.

(** ** The invariant of a node *)

Definition node_inv (s : Node) : Prop := inv (n_entries s) (n_tasks s) (n_threads s).

Section holder.
Context (s : Node) (t : nat) (T : Task) (e : nat) (E : Entry).
Hypothesis Hi : node_inv s.
Hypothesis Ht : n_tasks s !! t = Some T.
Hypothesis Hh : holds (t_pc T) = true.
Hypothesis He : t_entry T = Some e.
Hypothesis HE : n_entries s !! e = Some E.

(** What the node has of other kinds may change as well. *)
Definition same_tables (s' : Node) : Prop := n_tasks s' = n_tasks s /\ n_threads s' = n_threads s.

Lemma holder_task : task_ok (n_entries s) (n_threads s) t T.
Proof. by apply (in_task _ _ _ Hi). Qed.
Lemma holder_entry : entry_ok (n_tasks s) (n_threads s) e E.
Proof. by apply (in_entry _ _ _ Hi e E HE). Qed.

(** The holder goes on at [pc], its entry changed to [E']. *)
Lemma hold_go s' E' pc :
  same_tables s' -> n_entries s' = <[ e := E' ]> (n_entries s) ->
  e_lock E' = e_lock E -> e_vm E' = e_vm E -> e_running E' = e_running E ->
  holds pc = true -> kind_ok (t_kind T) pc ->
  (vacant pc = true -> e_vm E = None) -> (starting pc = true -> e_deleted E' = false) ->
  (e_deleted E' = true -> e_vm E = None) -> waits_ok (n_threads s) e pc ->
  (forall v V, awaits (t_pc T) = Some v -> n_threads s !! v = Some V -> live V -> awaits pc = Some v) ->
  node_inv (go s' t T pc).
Proof.
  intros [Hta Hth] Hen Hl Hvm Hr Hhp Hk Hva Hst Hd Hw Hc. unfold node_inv. cbn. rewrite Hen, Hta, Hth.
  apply (hold_step _ _ _ t T e E); try done; cbn.
  - by rewrite Hhp, Hl, (to_lock _ _ _ _ holder_task e E Hh He HE).
  - by rewrite Hvm.
  - by rewrite Hvm.
  - rewrite Hvm. apply holder_entry.
  - intros v V. unfold next_current. rewrite Hvm. cbn. destruct (e_vm E); [done|]. apply Hc.
Qed.

(** The holder lets go of the lock. *)
Lemma hold_leave s' E' r :
  same_tables s' -> (n_entries s' = n_entries s \/ exists x, n_entries s' = <[ e := x ]> (n_entries s)) ->
  e_running E' = e_running E -> (e_deleted E' = true -> e_vm E' = None) ->
  (forall v, e_vm E' = Some v -> exists V, n_threads s !! v = Some V /\ v_entry V = e /\ v_ready V = Some true /\ booted V) ->
  (forall v V, next_current E T = Some v -> n_threads s !! v = Some V -> live V -> e_vm E' = Some v) ->
  node_inv (leave s' t T e E' r).
Proof.
  intros [Hta Hth] Hen Hr Hd Hvm Hc. unfold node_inv. cbn. rewrite Hta, Hth.
  assert (<[ e := with_lock E' None ]> (n_entries s') = <[ e := with_lock E' None ]> (n_entries s)) as ->.
  { destruct Hen as [-> | [x ->]]; [done|]. by rewrite insert_insert_eq. }
  apply (hold_step _ _ _ t T e E); try done; cbn.
  intros v V H1 H2 H3. unfold next_current. cbn. by rewrite (Hc v V H1 H2 H3).
Qed.

Hypothesis Haw : awaits (t_pc T) = None.

(** The common case: no VM comes or goes. *)
Lemma quiet_leave s' E' r :
  same_tables s' -> (n_entries s' = n_entries s \/ exists x, n_entries s' = <[ e := x ]> (n_entries s)) ->
  e_running E' = e_running E -> e_deleted E' = e_deleted E -> e_vm E' = e_vm E ->
  node_inv (leave s' t T e E' r).
Proof.
  intros Hs Hen Hr Hd Hvm. destruct holder_entry as [H1 H2 H3 H4 H5].
  apply hold_leave; [done..| | |]; rewrite ?Hd, ?Hvm; try done.
  intros v V. unfold next_current. rewrite Haw. by destruct (e_vm E).
Qed.

Lemma quiet_go s' E' pc :
  same_tables s' -> n_entries s' = <[ e := E' ]> (n_entries s) ->
  e_lock E' = e_lock E -> e_vm E' = e_vm E -> e_running E' = e_running E -> e_deleted E' = e_deleted E ->
  holds pc = true -> kind_ok (t_kind T) pc ->
  (vacant pc = true -> e_vm E = None) -> (starting pc = true -> e_deleted E = false) -> awaits pc = None ->
  node_inv (go s' t T pc).
Proof.
  intros Hs Hen Hl Hvm Hr Hd Hhp Hk Hva Hst Hap. destruct holder_entry as [H1 H2 H3 H4 H5].
  apply (hold_go s' E'); try done.
  - by rewrite Hd.
  - by rewrite Hd.
  - by destruct pc.
  - by rewrite Haw.
Qed.

Lemma quiet_stay s' pc :
  same_tables s' -> n_entries s' = n_entries s ->
  holds pc = true -> kind_ok (t_kind T) pc ->
  (vacant pc = true -> e_vm E = None) -> (starting pc = true -> e_deleted E = false) -> awaits pc = None ->
  node_inv (go s' t T pc).
Proof. intros Hs Hen. intros. apply (quiet_go s' E); try done. by rewrite Hen, insert_id. Qed.

(** The VM is told to stop and waited for. *)
Lemma take_and_stop_ok g next :
  kind_ok (t_kind T) PStopped -> holds next = true -> kind_ok (t_kind T) next ->
  (starting next = true -> e_deleted E = false) -> awaits next = None ->
  node_inv (take_and_stop s t T e E g next).
Proof.
  intros Hk Hn Hkn Hst Hap. unfold take_and_stop. destruct (e_vm E) as [v|] eqn:Hv; [|by apply quiet_stay].
  destruct (eo_vm _ _ _ _ holder_entry v Hv) as (V & HV & Hve & Hr & Hb). cbn. rewrite HV. unfold node_inv. cbn.
  assert (e_deleted E = true -> e_vm E = None) as Hd by apply holder_entry.
  pose proof (thread_update _ _ _ v V (with_stop V g) e E E Hi HV Hve Hve HE eq_refl eq_refl eq_refl ltac:(by eexists)
    ltac:(done) ltac:(done) ltac:(done) ltac:(done) ltac:(by left)) as Hi'.
  rewrite insert_id in Hi' by done.
  apply (hold_step _ _ _ t T e E); try done; cbn.
  - by rewrite (to_lock _ _ _ _ holder_task e E Hh He HE).
  - intros _. destruct (e_deleted E) eqn:Hde; [|done]. by rewrite (Hd eq_refl) in Hv.
  - eexists. rewrite lookup_insert_eq. split_and!; [done..|by eexists|done|done].
  - unfold next_current. rewrite Hv. done.
Qed.
End holder.

Lemma alive_running s E V : alive s E = Some V -> e_running E = true /\ is_Some (e_vm E).
Proof. unfold alive. destruct (e_vm E); [|done]. by destruct (e_running E). Qed.

Ltac same := first [by split | by left | by right; eexists].

Section operations.
Context (s : Node) (t : nat) (T : Task) (e : nat) (E : Entry).
Hypothesis Hi : node_inv s.
Hypothesis Ht : n_tasks s !! t = Some T.
Hypothesis He : t_entry T = Some e.
Hypothesis HE : n_entries s !! e = Some E.

(** What each request does. *)
Ltac requests :=
  unfold usage_now, delete_now, park_now, stop_when, configure_now, checkpoint_now, restore_now, guest_now, present,
    still_stopped, restore_boot, park_end in *.

(** The holder at a point known by [Hpc]. *)
Ltac at_point Hpc := try rewrite Hpc in *; try done.
Ltac leave_quietly Hpc := apply (quiet_leave s t T e E); at_point Hpc; try same.
Ltac stay_quietly Hpc := apply (quiet_stay s t T e E); at_point Hpc; try same.

Lemma held_ok a s' : t_pc T = PHeld -> held s t T e E a = Some s' -> node_inv s'.
Proof.
  intros Hpc. pose proof (to_kind _ _ _ _ (in_task _ _ _ Hi t T Ht)) as Hk. rewrite Hpc in Hk. cbn in Hk.
  unfold held. destruct (t_kind T) eqn:Hkind; try (by edestruct Hk).
  all: intros [= <-]; requests; repeat case_match; simplify_eq; try leave_quietly Hpc.
  all: try (apply take_and_stop_ok; at_point Hpc; rewrite Hkind; try done; by left).
  all: stay_quietly Hpc; rewrite Hkind; done.
Qed.

(** The facts the point of the holder gives. *)
Ltac facts Hpc :=
  pose proof (to_kind _ _ _ _ (in_task _ _ _ Hi t T Ht)) as Hkind;
  pose proof (fun H => to_vacant _ _ _ _ (in_task _ _ _ Hi t T Ht) e E H He HE) as Hvac;
  pose proof (fun H => to_present _ _ _ _ (in_task _ _ _ Hi t T Ht) e E H He HE) as Hpres;
  pose proof (to_waits _ _ _ _ (in_task _ _ _ Hi t T Ht) e He) as Hwait;
  rewrite Hpc in Hkind, Hvac, Hpres, Hwait; cbn in Hkind, Hvac, Hpres, Hwait.

Lemma stopped_ok a : t_pc T = PStopped -> node_inv (stopped s t T e E a).
Proof.
  intros Hpc. facts Hpc. unfold stopped. requests. destruct (t_kind T) eqn:Hk; try leave_quietly Hpc.
  - stay_quietly Hpc; rewrite Hk; cbn; eauto.
  - apply (quiet_go s t T e E) with (E' := with_last_boot E (boot_after (n_last_boot s) (a_now a)));
      at_point Hpc; try same; auto.
Qed.

Lemma start_failed_ok s' err :
  starting (t_pc T) = true -> awaits (t_pc T) = None -> same_tables s s' -> n_entries s' = n_entries s ->
  node_inv (start_failed s' t T e E err).
Proof.
  intros Hst Haw Hs Hen. assert (holds (t_pc T) = true) as Hh by by destruct (t_pc T).
  pose proof (to_kind _ _ _ _ (in_task _ _ _ Hi t T Ht)) as Hk.
  pose proof (fun H => to_vacant _ _ _ _ (in_task _ _ _ Hi t T Ht) e E H He HE) as Hvac.
  unfold start_failed. destruct (t_kind T) eqn:Hkind; try (apply (quiet_leave s t T e E); by try left).
  apply (quiet_stay s t T e E); try done.
  - rewrite Hkind. cbn. eauto.
  - intros _. apply Hvac. by destruct (t_pc T).
Qed.

Lemma start_ok a s' :
  match t_pc T with
  | PMemory => s' = start_memory s t T e E a
  | PSlot => s' = start_slot s t T e E
  | PBoot slot => s' = start_boot s t T slot a
  | PSave slot boot => s' = start_save s t T e E slot boot a
  | _ => False
  end -> node_inv s'.
Proof.
  destruct (t_pc T) eqn:Hpc; try done; intros ->; facts Hpc.
  - unfold start_memory. repeat case_match; try (apply start_failed_ok; at_point Hpc; same). stay_quietly Hpc; auto.
  - unfold start_slot. repeat case_match; try (apply start_failed_ok; at_point Hpc; same). stay_quietly Hpc; auto.
  - unfold start_boot. stay_quietly Hpc; auto.
  - unfold start_save. repeat case_match; try (apply start_failed_ok; at_point Hpc; same).
    apply (quiet_go s t T e E) with (E' := with_last_boot E boot); at_point Hpc; try same; auto.
Qed.

Lemma start_spawn_ok slot boot a s' :
  t_pc T = PSpawn slot boot -> start_spawn s t T e E slot boot a = Some s' -> node_inv s'.
Proof.
  intros Hpc. facts Hpc. unfold start_spawn. repeat case_match; intros [= <-].
  { apply start_failed_ok; at_point Hpc; same. }
  case_bool_decide as Hf; [done|]. unfold node_inv. cbn.
  apply (spawn_step _ _ _ t T e E); try done; eauto. by apply eq_None_not_Some.
Qed.

Lemma start_ready_ok v s' : t_pc T = PReady v -> start_ready s t T e E v = Some s' -> node_inv s'.
Proof.
  intros Hpc. facts Hpc. unfold start_ready. destruct Hwait as (V & HV & Hve). rewrite HV in *.
  pose proof (in_told _ _ _ Hi v V HV) as Hrd. unfold told_ready in Hrd.
  destruct (v_ready V) as [[|]|] eqn:Hr; [| |done].
  - intros [= <-]. apply (hold_leave s t T e E); at_point Hpc; try same; cbn.
    + intros Hd. by rewrite Hpres in Hd.
    + intros v0 [= <-]. eauto.
    + unfold next_current. rewrite Hvac, Hpc by done. cbn. congruence.
  - case_match; [done..|]. intros [= <-]. unfold start_failed.
    assert (forall v0 V0, next_current E T = Some v0 -> n_threads s !! v0 = Some V0 -> live V0 -> e_vm E = Some v0) as Hc.
    { intros v0 V0. unfold next_current. rewrite Hvac, Hpc by done. cbn. intros [= <-] HV0 Hlv.
      rewrite HV in HV0. injection HV0 as <-. by destruct Hlv. }
    destruct (t_kind T) eqn:Hk; try (apply (hold_leave s t T e E); at_point Hpc; try same;
      first [exact Hc | by apply (in_entry _ _ _ Hi e E HE)]).
    apply (hold_go s t T e E) with (E' := E); at_point Hpc; try same.
    + by rewrite insert_id.
    + rewrite Hk. cbn. eauto.
    + by apply (in_entry _ _ _ Hi e E HE).
    + cbn. intros v0 V0 [= <-] HV0 Hlv. rewrite HV in HV0. injection HV0 as <-. by destruct Hlv.
Qed.

Lemma join_ok v V :
  t_pc T = PJoin v -> n_threads s !! v = Some V -> v_phase V = VDone ->
  node_inv (go s t T match t_kind T with KGuest => PMemory | _ => PStopped end).
Proof.
  intros Hpc HV Hph. facts Hpc.
  apply (hold_go s t T e E) with (E' := E); at_point Hpc; try same.
  - by rewrite insert_id.
  - by destruct (t_kind T).
  - destruct (t_kind T); cbn; auto.
  - auto.
  - destruct (t_kind T); cbn; auto.
  - by apply (in_entry _ _ _ Hi e E HE).
  - by destruct (t_kind T).
  - cbn. intros v0 V0 [= <-] HV0 Hlv. rewrite HV in HV0. injection HV0 as <-. by destruct Hlv.
Qed.

Lemma bury_ok r a : t_pc T = PBury r -> node_inv (bury s t T e E r a).
Proof.
  intros Hpc. facts Hpc. unfold bury. repeat case_match; try leave_quietly Hpc; try (stay_quietly Hpc; by auto).
  apply (quiet_go s t T e E) with (E' := with_dir E Buried); at_point Hpc; try same; auto.
Qed.

Lemma buried_ok r : t_pc T = PBuried r -> node_inv (go (set_entry s e (with_deleted E)) t T (PForgotten r)).
Proof.
  intros Hpc. facts Hpc. apply (hold_go s t T e E) with (E' := with_deleted E); at_point Hpc; try same; auto.
Qed.

Lemma forget_name_ok r : t_pc T = PForgotten r -> node_inv (forget s t T e E r).
Proof. intros Hpc. unfold forget. case_bool_decide; leave_quietly Hpc. Qed.

Lemma create_name_ok : t_pc T = PName -> node_inv (create_name s t T e E).
Proof.
  intros Hpc. facts Hpc. unfold create_name. case_bool_decide; [leave_quietly Hpc|].
  stay_quietly Hpc; auto.
Qed.

Lemma create_make_ok a : t_pc T = PMake -> node_inv (create_make s t T e E a).
Proof.
  intros Hpc. facts Hpc. destruct Hkind as (i & st & c & Hk). unfold create_make. rewrite Hk.
  destruct (a_ok a); [destruct st|].
  - apply (quiet_go s t T e E) with (E' := with_dir E Made); at_point Hpc; try same; auto. rewrite Hk. cbn. eauto.
  - leave_quietly Hpc.
  - apply (quiet_go s t T e E) with (E' := with_dir E (if a_ok2 a then Made else NotMade)); at_point Hpc; try same; auto.
    rewrite Hk. cbn. eauto.
Qed.

Lemma read_or_copy_ok r :
  match t_pc T with PPeeked | PRead _ _ | PSync | PCopy | PRestore _ | PHeld => True | _ => False end ->
  node_inv (leave s t T e E r).
Proof. destruct (t_pc T) eqn:Hpc; try done; intros _; leave_quietly Hpc. Qed.

Lemma acquire_ok pc s' :
  (t_pc T = PPeek /\ pc = PPeeked \/ t_pc T = PLock /\ pc = PHeld) -> acquire s t T e E pc = Some s' -> node_inv s'.
Proof.
  intros Hpc. unfold acquire. destruct (e_lock E) eqn:Hl; [done|]. intros [= <-].
  pose proof (to_kind _ _ _ _ (in_task _ _ _ Hi t T Ht)) as Hk. unfold node_inv. cbn.
  apply (acquire_step _ _ _ t T e E); try done; cbn.
  - by destruct Hpc as [[-> _] | [-> _]].
  - naive_solver.
  - by destruct Hpc as [[Hp ->] | [Hp ->]]; rewrite Hp in Hk.
Qed.
End operations.

(** ** Every step keeps it *)

(** A task that does not hold a lock. *)
Lemma free_go s t T' :
  node_inv s -> (forall T, n_tasks s !! t = Some T -> holds (t_pc T) = false) -> holds (t_pc T') = false ->
  kind_ok (t_kind T') (t_pc T') -> (t_pc T' = PPeek \/ t_pc T' = PLock -> is_Some (t_entry T')) ->
  (forall e, t_entry T' = Some e -> is_Some (n_entries s !! e)) ->
  node_inv (set_task s t T').
Proof. intros. by apply free_step. Qed.

Lemma op_ok s t T a s' :
  node_inv s -> n_tasks s !! t = Some T ->
  (t_pc T = PPermit /\ s' = op_permit s t T \/ t_pc T = PCheck /\ op_check s t T a = Some s') -> node_inv s'.
Proof.
  intros Hi Ht Hc. destruct (in_task _ _ _ Hi t T Ht) as [H1 Hk _ _ _ _ _].
  assert (forall T0, n_tasks s !! t = Some T0 -> holds (t_pc T0) = false) as Hf.
  { intros T0 HT0. rewrite Ht in HT0. injection HT0 as <-. by destruct Hc as [[-> _] | [-> _]]. }
  destruct Hc as [[Hpc ->] | [Hpc Hs]]; rewrite Hpc in Hk.
  - unfold op_permit. case_match; apply free_go; cbn; try done; by intros [|].
  - unfold op_check in Hs. destruct (is_closing s); [simplify_eq; apply free_go; cbn; try done; by intros [|]|].
    destruct (t_kind T) eqn:Hkind.
    1: { case_bool_decide as Hn; [done|]. simplify_eq. unfold node_inv. cbn.
         apply (new_entry_step _ _ _ t T); cbn; try done; [by rewrite Hpc|by apply eq_None_not_Some|eauto]. }
    all: destruct (t_entry T) as [e|] eqn:He; simplify_eq; apply free_go; cbn; rewrite ?He, ?Hkind; try done.
    all: try (by intros [|]). all: by destruct Hk.
Qed.

Lemma find_ok s t T :
  node_inv s -> n_tasks s !! t = Some T -> t_pc T = PFind ->
  (forall n e, n_sandboxes s !! n = Some e -> is_Some (n_entries s !! e)) -> node_inv (find s t T).
Proof.
  intros Hi Ht Hpc Hn. destruct (in_task _ _ _ Hi t T Ht) as [H1 Hk _ _ _ _ _]. rewrite Hpc in Hk.
  unfold find. destruct (n_sandboxes s !! t_name T) as [e|] eqn:He.
  - apply free_go; cbn; try done.
    + intros T0 HT0. rewrite Ht in HT0. injection HT0 as <-. by rewrite Hpc.
    + by destruct (t_kind T).
    + destruct Hk as [Hs Hc]. destruct (t_kind T); try done; by destruct (Hc imported start config).
    + intros e0 [= <-]. eauto.
  - apply free_go; cbn; try done; [|by intros [|]].
    intros T0 HT0. rewrite Ht in HT0. injection HT0 as <-. by rewrite Hpc.
Qed.

Lemma task_step_ok s t a s' :
  node_inv s -> (forall n e, n_sandboxes s !! n = Some e -> is_Some (n_entries s !! e)) ->
  task_step s t a = Some s' -> node_inv s'.
Proof.
  intros Hi Hn. unfold task_step. destruct (n_tasks s !! t) as [T|] eqn:Ht; [|done].
  destruct (t_pc T) eqn:Hpc.
  1: { intros [= <-]. eapply (op_ok s t T a); eauto. }
  1: { intros H. eapply op_ok; eauto. }
  1: { intros [= <-]. by apply find_ok. }
  all: try (destruct (t_entry T) as [e|] eqn:He; [|done]; destruct (n_entries s !! e) as [E|] eqn:HE; [|done]).
  - intros H. eapply (acquire_ok s t T e E); eauto.
  - case_match; intros [= <-]; [eapply read_or_copy_ok; rewrite ?Hpc; done|].
    unfold node_inv. cbn. apply (hold_step _ _ _ t T e E); try done; cbn; try apply (in_entry _ _ _ Hi e E HE).
    + by rewrite Hpc.
    + pose proof (to_kind _ _ _ _ (in_task _ _ _ Hi t T Ht)) as Hk. rewrite Hpc in Hk. cbn in Hk. by rewrite Hk.
    + unfold next_current. rewrite Hpc. cbn. by destruct (e_vm E).
  - intros H. eapply (acquire_ok s t T e E); eauto.
  - by eapply held_ok.
  - intros [= <-]. by apply create_name_ok.
  - intros [= <-]. by apply create_make_ok.
  - intros [= <-]. eapply read_or_copy_ok; rewrite ?Hpc; done.
  - destruct (n_threads s !! thread) as [V|] eqn:HV; [|done]. destruct (v_phase V) eqn:Hph; try done.
    intros [= <-]. by eapply (join_ok s t T e E).
  - intros [= <-]. by apply stopped_ok.
  - intros [= <-]. destruct (a_ok a); [|eapply read_or_copy_ok; rewrite ?Hpc; done].
    pose proof (to_kind _ _ _ _ (in_task _ _ _ Hi t T Ht)) as Hk. rewrite Hpc in Hk.
    apply (quiet_stay s t T e E); rewrite ?Hpc; done.
  - intros [= <-]. eapply read_or_copy_ok; rewrite ?Hpc; done.
  - intros [= <-]. eapply read_or_copy_ok; rewrite ?Hpc; done.
  - intros [= <-]. eapply start_ok with (s := s) (T := T) (E := E) (a := a); rewrite ?Hpc; done.
  - intros [= <-]. eapply start_ok with (s := s) (T := T) (E := E) (a := a); rewrite ?Hpc; done.
  - intros [= <-]. eapply start_ok with (s := s) (T := T) (E := E) (a := a); rewrite ?Hpc; done.
  - intros [= <-]. eapply start_ok with (s := s) (T := T) (E := E) (a := a); rewrite ?Hpc; done.
  - intros H. by eapply (start_spawn_ok s t T e E).
  - intros H. by eapply (start_ready_ok s t T e E).
  - intros [= <-]. pose proof (to_kind _ _ _ _ (in_task _ _ _ Hi t T Ht)) as Hk. rewrite Hpc in Hk.
    pose proof (to_vacant _ _ _ _ (in_task _ _ _ Hi t T Ht) e E) as Hv. rewrite Hpc in Hv.
    apply (quiet_stay s t T e E); rewrite ?Hpc; try done; [by right|auto].
  - intros [= <-]. by apply bury_ok.
  - intros [= <-]. by apply buried_ok.
  - intros [= <-]. by apply forget_name_ok.
  - destruct (t_op T); intros [= <-]. apply free_go; cbn; try done; [|by intros [|]|apply (in_task _ _ _ Hi t T Ht)].
    intros T0 HT0. rewrite Ht in HT0. injection HT0 as <-. by rewrite Hpc.
Qed.

Lemma release_tables s slot ok :
  n_entries (release s slot ok) = n_entries s /\ n_tasks (release s slot ok) = n_tasks s /\
  n_threads (release s slot ok) = n_threads s.
Proof. by destruct ok. Qed.

(** A VM that is not over runs exactly when its entry says so. *)
Lemma live_running s v V E :
  node_inv s -> n_threads s !! v = Some V -> n_entries s !! v_entry V = Some E -> live V ->
  (e_running E = true <-> v_phase V = VHeld).
Proof.
  intros Hi HV HE Hlv. destruct (in_entry _ _ _ Hi _ _ HE) as [_ _ H3 H4 _]. rewrite H4. split; [|eauto].
  intros (v0 & V0 & HV0 & Hve & Hph). assert (live V0) as Hl0 by (unfold live; congruence).
  pose proof (H3 v V HV eq_refl Hlv). pose proof (H3 v0 V0 HV0 Hve Hl0). congruence.
Qed.

Lemma thread_step_ok s v h s' : node_inv s -> thread_step s v h = Some s' -> node_inv s'.
Proof.
  intros Hi. unfold thread_step. destruct (n_threads s !! v) as [V|] eqn:HV; [|done].
  destruct (n_entries s !! v_entry V) as [E|] eqn:HE; [|done].
  pose proof (in_told _ _ _ Hi v V HV) as Hto. pose proof (live_running s v V E Hi HV HE) as Hrun.
  destruct (v_phase V) eqn:Hph, h; try done.
  all: assert (live V) as Hlv by (unfold live; congruence); specialize (Hrun Hlv).
  all: repeat case_match; intros [= <-]; unfold node_inv; cbn.
  all: try (destruct (release_tables s (v_slot V) ok) as (-> & -> & ->)).
  all: match goal with |- inv (<[_ := _]> _) _ _ => idtac | _ => rewrite <- (insert_id (n_entries s) (v_entry V) E HE) end.
  all: apply (thread_update _ _ _ v V _ _ E); try done;
    unfold told_ready, live in *; unfold booted in *; cbn; rewrite ?Hph in *.
  all: try (right; split; [done|]).
  all: try naive_solver.
  all: destruct (v_ready V) as [[]|]; naive_solver.
Qed.
