(* ===== verification/NodeNames.v ===== *)
(** * Names, permits and slots of a node

    More of what holds of a run of [Node]: a VM belongs to a sandbox the node
    lists, a task that may start or stop one holds a permit, and a slot has one
    user. *)

From stdpp Require Import gmap.
From S2P Require Import Prelude Cas Node NodeInv.

(** ** Names *)

(** What the point of a task says of its name. *)
Definition placed (sb : gmap bytes nat) (e : nat) (E : Entry) (pc : Pc) : Prop :=
  match pc with
  | PName | PDone _ => True
  | PForgotten _ => e_deleted E = true
  | _ => sb !! e_name E = Some e \/ e_deleted E = true
  end.

Record named (sb : gmap bytes nat) (en : gmap nat Entry) (ta : gmap nat Task) : Prop := {
  nm_entry : forall n e, sb !! n = Some e -> exists E, en !! e = Some E /\ e_name E = n;
  nm_task : forall t T e, ta !! t = Some T -> t_entry T = Some e ->
    exists E, en !! e = Some E /\ e_name E = t_name T /\ placed sb e E (t_pc T);
  nm_vm : forall e E v, en !! e = Some E -> e_vm E = Some v -> sb !! e_name E = Some e;
}.

(** A task moves, and the entry it has changes with it. *)
Lemma named_update sb en ta t T' e E E' :
  named sb en ta -> en !! e = Some E -> e_name E' = e_name E -> (e_deleted E = true -> e_deleted E' = true) ->
  (forall v, e_vm E' = Some v -> sb !! e_name E = Some e) ->
  (forall e0, t_entry T' = Some e0 -> exists E0, <[ e := E' ]> en !! e0 = Some E0 /\ e_name E0 = t_name T' /\ placed sb e0 E0 (t_pc T')) ->
  named sb (<[ e := E' ]> en) (<[ t := T' ]> ta).
Proof.
  intros [H1 H2 H3] HE Hn Hd Hv Ht.
  assert (forall e0 E0, en !! e0 = Some E0 -> exists E1, <[ e := E' ]> en !! e0 = Some E1 /\ e_name E1 = e_name E0 /\
    (e_deleted E0 = true -> e_deleted E1 = true)) as Hup.
  { intros e0 E0 HE0. destruct (decide (e0 = e)) as [->|?].
    - exists E'. rewrite lookup_insert_eq. simplify_eq. auto.
    - exists E0. by rewrite lookup_insert_ne. }
  split.
  - intros n e0 Hs. destruct (H1 n e0 Hs) as (E0 & HE0 & <-). destruct (Hup e0 E0 HE0) as (E1 & ? & ? & _). eauto.
  - intros t0 T0 e0 [[<- <-]|[_ HT0]]%lookup_insert_Some He0; [by apply Ht|].
    destruct (H2 t0 T0 e0 HT0 He0) as (E0 & HE0 & Hn0 & Hp). destruct (Hup e0 E0 HE0) as (E1 & ? & Hn1 & Hd1).
    exists E1. split_and!; [done|congruence|]. unfold placed in *. rewrite Hn1. destruct (t_pc T0); auto; destruct Hp; auto.
  - intros e0 E0 v [[<- <-]|[_ HE0]]%lookup_insert_Some Hv0; [rewrite Hn; eauto|eauto].
Qed.

Lemma named_task sb en ta t T' :
  named sb en ta ->
  (forall e0, t_entry T' = Some e0 -> exists E0, en !! e0 = Some E0 /\ e_name E0 = t_name T' /\ placed sb e0 E0 (t_pc T')) ->
  named sb en (<[ t := T' ]> ta).
Proof.
  intros [H1 H2 H3] Ht. split; [done| |done].
  intros t0 T0 e0 [[<- <-]|[_ HT0]]%lookup_insert_Some He0; [by apply Ht|eauto].
Qed.

Section moves.
Context (s : Node) (t : nat) (T : Task) (e : nat) (E : Entry).
Hypothesis Hn : named (n_sandboxes s) (n_entries s) (n_tasks s).
Hypothesis Ht : n_tasks s !! t = Some T.
Hypothesis He : t_entry T = Some e.
Hypothesis HE : n_entries s !! e = Some E.

Lemma task_named : e_name E = t_name T /\ placed (n_sandboxes s) e E (t_pc T).
Proof. destruct (nm_task _ _ _ Hn t T e Ht He) as (E0 & HE0 & ? & ?). by simplify_eq. Qed.

(** The usual move: the entry keeps its name and the task its place. *)
Lemma named_go s' E' pc :
  n_sandboxes s' = n_sandboxes s -> n_tasks s' = n_tasks s ->
  (n_entries s' = n_entries s /\ E' = E \/ n_entries s' = <[ e := E' ]> (n_entries s)) ->
  e_name E' = e_name E -> (e_deleted E = true -> e_deleted E' = true) ->
  (forall v, e_vm E' = Some v -> n_sandboxes s !! e_name E = Some e) ->
  placed (n_sandboxes s) e E' pc ->
  named (n_sandboxes (go s' t T pc)) (n_entries (go s' t T pc)) (n_tasks (go s' t T pc)).
Proof.
  intros Hsb Hta Hen HnE Hd Hv Hp. cbn. rewrite Hsb, Hta. destruct task_named as [Hname _].
  assert (n_entries s' = <[ e := E' ]> (n_entries s)) as ->.
  { destruct Hen as [[-> ->] | ->]; [by rewrite insert_id|done]. }
  eapply named_update; try done. cbn. rewrite He. intros e0 [= <-]. exists E'. rewrite lookup_insert_eq.
  split_and!; [done|congruence|done].
Qed.

Lemma named_leave s' E' r :
  n_sandboxes s' = n_sandboxes s -> n_tasks s' = n_tasks s ->
  (n_entries s' = n_entries s \/ exists x, n_entries s' = <[ e := x ]> (n_entries s)) ->
  e_name E' = e_name E -> (e_deleted E = true -> e_deleted E' = true) ->
  (forall v, e_vm E' = Some v -> n_sandboxes s !! e_name E = Some e) ->
  named (n_sandboxes (leave s' t T e E' r)) (n_entries (leave s' t T e E' r)) (n_tasks (leave s' t T e E' r)).
Proof.
  intros Hsb Hta Hen HnE Hd Hv. apply (named_go _ (with_lock E' None)); try done. right. cbn.
  destruct Hen as [-> | [x ->]]; [done|]. by rewrite insert_insert_eq.
Qed.
End moves.

Definition node_named (s : Node) : Prop := named (n_sandboxes s) (n_entries s) (n_tasks s).

(** All the ways a task moves, by its point. *)
Ltac operations :=
  unfold held, stopped, usage_now, delete_now, park_now, stop_when, configure_now, checkpoint_now, restore_now, guest_now,
    park_end, restore_boot, present, still_stopped, take_and_stop, start_memory, start_slot, start_boot, start_save,
    start_spawn, start_ready, start_failed, bury, forget, create_name, create_make, acquire in *.

Lemma named_new sb en ta t T' e E :
  named sb en ta -> en !! e = None -> e_vm E = None -> t_entry T' = Some e -> e_name E = t_name T' -> t_pc T' = PName ->
  named sb (<[ e := E ]> en) (<[ t := T' ]> ta).
Proof.
  intros [H1 H2 H3] He Hv Ht Hn Hp.
  assert (forall e0 x, en !! e0 = Some x -> <[ e := E ]> en !! e0 = Some x) as Hkeep.
  { intros e0 x Hx. rewrite lookup_insert_ne; [done|]. congruence. }
  split.
  - intros n e0 Hs. destruct (H1 n e0 Hs) as (E0 & HE0 & ?). eauto.
  - intros t0 T0 e0 [[<- <-]|[_ HT0]]%lookup_insert_Some He0.
    + rewrite Ht in He0. injection He0 as <-. exists E. by rewrite lookup_insert_eq, Hp.
    + destruct (H2 t0 T0 e0 HT0 He0) as (E0 & HE0 & ?). eauto.
  - intros e0 E0 v [[<- <-]|[_ HE0]]%lookup_insert_Some Hv0; [congruence|eauto].
Qed.

(** A task that has no lock yet. *)
Lemma early_named s t T a s' :
  node_inv s -> node_named s -> n_tasks s !! t = Some T ->
  (t_pc T = PPermit /\ s' = op_permit s t T \/ t_pc T = PCheck /\ op_check s t T a = Some s' \/
   t_pc T = PFind /\ s' = find s t T \/
   exists r, t_pc T = PDone r /\ s' = set_task s t (MkTask (t_kind T) (t_name T) (t_entry T) false (PDone r))) ->
  node_named s'.
Proof.
  intros Hi Hn Ht Hc.
  assert (forall pc op, (forall e E, placed (n_sandboxes s) e E (t_pc T) -> placed (n_sandboxes s) e E pc) ->
    node_named (set_task s t (MkTask (t_kind T) (t_name T) (t_entry T) op pc))) as Hgo.
  { intros pc op Hp. apply named_task; [done|]. cbn. intros e He.
    destruct (nm_task _ _ _ Hn t T e Ht He) as (E & ? & ? & ?). exists E. auto. }
  destruct Hc as [[Hpc ->] | [[Hpc Hs] | [[Hpc ->] | (r & Hpc & ->)]]]; rewrite Hpc in Hgo.
  - unfold op_permit. case_match; by apply Hgo.
  - unfold op_check in Hs. destruct (is_closing s); [simplify_eq; by apply Hgo|].
    destruct (t_kind T) eqn:Hk.
    1: { case_bool_decide as Hf; [done|]. simplify_eq. apply named_new; try done. by apply eq_None_not_Some. }
    all: destruct (t_entry T) eqn:He; simplify_eq; unfold go; rewrite ?Hk, ?He; by apply Hgo.
  - unfold find. destruct (n_sandboxes s !! t_name T) as [e|] eqn:Hs; [|by apply Hgo].
    apply named_task; [done|]. cbn. intros e0 [= <-]. destruct (nm_entry _ _ _ Hn _ _ Hs) as (E & HE & HnE).
    exists E. split_and!; [done..|]. rewrite <- HnE in Hs. destruct (t_kind T); cbn; auto.
  - by apply Hgo.
Qed.

(** A name nobody has is given. *)
Lemma named_register sb en ta n e E :
  named sb en ta -> sb !! n = None -> en !! e = Some E -> e_name E = n -> named (<[ n := e ]> sb) en ta.
Proof.
  intros [H1 H2 H3] Hf HE Hn.
  assert (forall m x, sb !! m = Some x -> <[ n := e ]> sb !! m = Some x) as Hkeep.
  { intros m x Hx. rewrite lookup_insert_ne; [done|]. congruence. }
  split.
  - intros m e0 [[<- <-]|[_ Hs]]%lookup_insert_Some; eauto.
  - intros t T e0 HT He0. destruct (H2 t T e0 HT He0) as (E0 & HE0 & Hn0 & Hp). exists E0. split_and!; [done..|].
    unfold placed in *. destruct (t_pc T); auto; destruct Hp; auto.
  - eauto.
Qed.

(** The name of a deleted sandbox without a VM is forgotten. *)
Lemma named_forget sb en ta e E :
  named sb en ta -> sb !! e_name E = Some e -> en !! e = Some E -> e_deleted E = true -> e_vm E = None ->
  named (delete (e_name E) sb) en ta.
Proof.
  intros [H1 H2 H3] Hs HE Hd Hv.
  assert (forall m x, sb !! m = Some x -> x <> e -> delete (e_name E) sb !! m = Some x) as Hkeep.
  { intros m x Hx Hne. rewrite lookup_delete_ne; [done|]. intros <-. congruence. }
  split.
  - intros m e0 [_ Hm]%lookup_delete_Some. eauto.
  - intros t T e0 HT He0. destruct (H2 t T e0 HT He0) as (E0 & HE0 & Hn0 & Hp). exists E0. split_and!; [done..|].
    destruct (decide (e0 = e)) as [->|Hne].
    + simplify_eq. unfold placed. destruct (t_pc T); auto.
    + unfold placed in *. destruct (t_pc T); auto; destruct Hp; auto.
  - intros e0 E0 v HE0 Hv0. apply Hkeep; [eauto|]. intros ->. congruence.
Qed.

Lemma task_step_named s t a s' : node_inv s -> node_named s -> task_step s t a = Some s' -> node_named s'.
Proof.
  intros Hi Hn. unfold task_step. destruct (n_tasks s !! t) as [T|] eqn:Ht; [|done].
  destruct (t_pc T) eqn:Hpc.
  1: { intros [= <-]. eapply (early_named s t T a); eauto. }
  1: { intros H. eapply (early_named s t T a); eauto. }
  1: { intros [= <-]. eapply (early_named s t T a); eauto. }
  all: try (destruct (t_op T); intros [= <-]; eapply (early_named s t T a); by eauto 10).
  all: destruct (t_entry T) as [e|] eqn:He; [|done]; destruct (n_entries s !! e) as [E|] eqn:HE; [|done].
  all: destruct (task_named s t T e E Hn Ht He HE) as [HnE Hpl]; rewrite Hpc in Hpl; cbn in Hpl.
  all: pose proof (fun v => nm_vm _ _ _ Hn e E v HE) as Hvm.
  all: pose proof (fun H => to_vacant _ _ _ _ (in_task _ _ _ Hi t T Ht) e E H He HE) as Hvac; rewrite Hpc in Hvac; cbn in Hvac.
  all: pose proof (fun H => to_present _ _ _ _ (in_task _ _ _ Hi t T Ht) e E H He HE) as Hpres; rewrite Hpc in Hpres; cbn in Hpres.
  all: operations; repeat case_match; intros ?; simplify_eq; try done.
  all: try (eapply (named_leave s t T e E); try done; try (by left); try (by right; eexists); cbn;
    first [by auto | intros; destruct Hpl; [done|]; rewrite Hpres in *; done]).
  all: try (eapply (named_go s t T e E Hn Ht He HE); [done|done|first [left; split; reflexivity | right; reflexivity]|done|done|..];
    cbn; solve [auto | intros; congruence | destruct Hpl; auto; congruence]).
  - case_bool_decide as Hf; [done|]. apply eq_None_not_Some in Hf.
    apply named_task; [by eapply named_register|]. cbn. rewrite He. intros e0 [= <-]. exists E.
    split_and!; [done..|]. rewrite HnE, lookup_insert_eq. by left.
  - case_bool_decide as Hf; [|done]. apply (named_leave (set_sandboxes s (delete (e_name E) (n_sandboxes s))) t T e E);
      try done; [by apply (named_forget _ _ _ e E); auto|by left|]. by rewrite Hvac.
Qed.

Lemma thread_step_named s v h s' : node_named s -> thread_step s v h = Some s' -> node_named s'.
Proof.
  intros Hn. unfold thread_step. destruct (n_threads s !! v) as [V|] eqn:HV; [|done].
  destruct (n_entries s !! v_entry V) as [E|] eqn:HE; [|done].
  assert (forall E', e_name E' = e_name E -> e_deleted E' = e_deleted E -> e_vm E' = e_vm E ->
    named (n_sandboxes s) (<[ v_entry V := E' ]> (n_entries s)) (n_tasks s)) as Hup.
  { intros E' H1 H2 H3. destruct Hn as [G1 G2 G3].
    assert (forall e0 E0, n_entries s !! e0 = Some E0 -> exists E1, <[ v_entry V := E' ]> (n_entries s) !! e0 = Some E1 /\
      e_name E1 = e_name E0 /\ e_deleted E1 = e_deleted E0) as Hk.
    { intros e0 E0 HE0. destruct (decide (e0 = v_entry V)) as [->|?].
      - exists E'. rewrite lookup_insert_eq. simplify_eq. auto.
      - exists E0. by rewrite lookup_insert_ne. }
    split.
    - intros n e0 Hs. destruct (G1 n e0 Hs) as (E0 & HE0 & <-). destruct (Hk e0 E0 HE0) as (E1 & ? & ? & _). eauto.
    - intros t T e0 HT He0. destruct (G2 t T e0 HT He0) as (E0 & HE0 & Hn0 & Hp). destruct (Hk e0 E0 HE0) as (E1 & ? & Hn1 & Hd1).
      exists E1. split_and!; [done|congruence|]. unfold placed in *. rewrite Hn1, Hd1. done.
    - intros e0 E0 x [[<- <-]|[_ HE0]]%lookup_insert_Some Hx; [rewrite H1; rewrite H3 in Hx|]; eauto. }
  destruct (v_phase V), h; try done.
  all: repeat case_match; intros [= <-]; unfold node_named, release; repeat case_match; cbn; try done; by apply Hup.
Qed.

(** ** Requests and the shutdown *)

Lemma ask_task s t k name a s' :
  ask s t k name a = Some s' ->
  n_tasks s !! t = None /\ exists pc, s' = set_task s t (MkTask k name None false pc) /\ kind_ok k pc /\
  (pc = PPermit \/ pc = PFind \/ exists r, pc = PDone r).
Proof.
  unfold ask. case_bool_decide as Hf; [done|]. apply eq_None_not_Some in Hf.
  intros Hs. split; [done|]. revert Hs. destruct k; repeat case_match; intros [= <-]; eexists; split_and!; eauto; done.
Qed.

Lemma ask_ok s t k name a s' :
  node_inv s -> node_named s -> ask s t k name a = Some s' -> node_inv s' /\ node_named s'.
Proof.
  intros Hi Hn (Hf & pc & -> & Hk & Hpc)%ask_task. split; [|by apply named_task].
  apply free_go; cbn; try done.
  - congruence.
  - by destruct Hpc as [-> | [-> | [r ->]]].
  - by destruct Hpc as [-> | [-> | [r ->]]]; intros [|].
Qed.

Lemma cancel_ok s t s' : node_inv s -> node_named s -> cancel s t = Some s' -> node_inv s' /\ node_named s'.
Proof.
  intros Hi Hn. unfold cancel. destruct (n_tasks s !! t) as [T|] eqn:Ht; [|done].
  assert (forall r, holds (t_pc T) = false -> node_inv (go s t T (PDone r)) /\ node_named (go s t T (PDone r))) as Hgo.
  { intros r Hh. split.
    - apply free_go; cbn; try done; [congruence|by intros [|]|apply (in_task _ _ _ Hi t T Ht)].
    - apply named_task; [done|]. cbn. intros e He.
      destruct (nm_task _ _ _ Hn t T e Ht He) as (E & ? & ? & ?). exists E. auto. }
  assert (forall e E r, t_entry T = Some e -> n_entries s !! e = Some E -> holds (t_pc T) = true -> awaits (t_pc T) = None ->
    node_inv (leave s t T e E r) /\ node_named (leave s t T e E r)) as Hle.
  { intros e E r He HE Hh Ha. split.
    - apply (quiet_leave s t T e E); try done. by left.
    - apply (named_leave s t T e E); try done; [by left|]. intros v Hv. by eapply (nm_vm _ _ _ Hn). }
  destruct (t_kind T), (t_pc T) eqn:Hpc; try done.
  all: try (intros [= <-]; apply Hgo; rewrite ?Hpc; done).
  all: destruct (t_entry T) as [e|] eqn:He; [|done]; destruct (n_entries s !! e) as [E|] eqn:HE; [|done].
  all: intros [= <-]; apply Hle; rewrite ?Hpc; done.
Qed.

(** The tasks of the shutdown. *)
Lemma shut_tasks_ok l : forall s base,
  node_inv s -> node_named s -> (forall n e, (n, e) ∈ l -> n_sandboxes s !! n = Some e) ->
  (forall t, (base <= t)%nat -> n_tasks s !! t = None) ->
  let s' := (fold_left shut_task l (s, base)).1 in
  node_inv s' /\ node_named s' /\ n_entries s' = n_entries s /\ n_threads s' = n_threads s /\
  n_sandboxes s' = n_sandboxes s /\ n_slots s' = n_slots s /\ n_last_boot s' = n_last_boot s /\
  n_shutdown s' = n_shutdown s /\
  (forall t T, n_tasks s' !! t = Some T -> n_tasks s !! t = Some T \/
     exists n e, (n, e) ∈ l /\ T = MkTask KShut n (Some e) false PLock) /\
  (forall t T, n_tasks s !! t = Some T -> n_tasks s' !! t = Some T) /\
  (forall n e, (n, e) ∈ l -> exists t, n_tasks s' !! t = Some (MkTask KShut n (Some e) false PLock)).
Proof.
  induction l as [|[n e] l IH]; intros s base Hi Hn Hl Hf; cbn [fold_left].
  { cbn. split_and!; try done; [auto|]. intros ?? []%elem_of_nil. }
  set (s1 := set_task s base (MkTask KShut n (Some e) false PLock)).
  assert (n_sandboxes s !! n = Some e) as Hne by (apply Hl; left).
  destruct (nm_entry _ _ _ Hn n e Hne) as (E & HE & HnE).
  assert (node_inv s1) as Hi1.
  { apply free_go; cbn; try done; [by rewrite Hf by lia|]. intros e0 [= <-]. by eexists. }
  assert (node_named s1) as Hn1.
  { apply named_task; [done|]. cbn. intros e0 [= <-]. exists E. rewrite HnE. auto. }
  destruct (IH s1 (S base) Hi1 Hn1) as (H1 & H2 & H3 & H4 & H5 & H6 & H7 & H8 & H9 & H10 & H11).
  { intros. apply Hl. by right. }
  { intros t Ht. cbn. rewrite lookup_insert_ne by lia. apply Hf. lia. }
  split_and!; try done.
  - intros t T HT. cbn in H9. destruct (H9 t T HT) as [[[<- <-]|[_ H]]%lookup_insert_Some | (n' & e' & Hin & ->)].
    + right. exists n, e. split; [left|done].
    + by left.
    + right. exists n', e'. split; [by right|done].
  - intros t T HT. apply H10. cbn. rewrite lookup_insert_ne; [done|]. intros <-. by rewrite Hf in HT.
  - intros n' e' [[= <- <-]|Hin]%elem_of_cons; [|by apply H11].
    exists base. apply H10. cbn. by rewrite lookup_insert_eq.
Qed.
