(* ===== verification/NodeShut.v ===== *)
(** * Permits and the shutdown of a node

    A task that creates, deletes, boots or stops holds a permit until it is
    over, so that once the shutdown has them all nothing starts any more, and
    what runs is stopped by the tasks the shutdown makes. *)

From stdpp Require Import gmap.
From S2P Require Import Prelude Cas Node NodeInv NodeNames.

(** The points at which a task has a permit. *)
Definition needs_op (T : Task) : bool :=
  match t_kind T, t_pc T with
  | (KUsage | KShut), _ => false
  | _, (PPermit | PPeek | PPeeked | PDone _) => false
  | (KGuest | KIdle), PFind => false
  | _, _ => true
  end.

(** What a step of a task does to the threads. *)
Inductive on_threads (s s' : Node) (T T' : Task) : Prop :=
  | ot_same : n_threads s' = n_threads s -> on_threads s s' T T'
  | ot_stop v V g : n_threads s !! v = Some V -> t_pc T' = PJoin v ->
      n_threads s' = <[ v := with_stop V g ]> (n_threads s) -> on_threads s s' T T'
  | ot_spawn v V : needs_op T = true -> n_threads s !! v = None ->
      n_threads s' = <[ v := V ]> (n_threads s) -> on_threads s s' T T'.

(** What a task of the shutdown does. *)
Definition shut_moves (s : Node) (T T' : Task) : Prop :=
  match t_pc T with
  | PLock => t_pc T' = PHeld
  | PHeld => exists e E, t_entry T = Some e /\ n_entries s !! e = Some E /\
      match e_vm E with Some v => t_pc T' = PJoin v | None => t_pc T' = PStopped end
  | PJoin v => exists V, n_threads s !! v = Some V /\ v_phase V = VDone
  | _ => True
  end.

Record effect (s : Node) (t : nat) (s' : Node) (T T' : Task) : Prop := {
  ef_task : n_tasks s !! t = Some T;
  ef_tasks : n_tasks s' = <[ t := T' ]> (n_tasks s);
  ef_kind : t_kind T' = t_kind T;
  ef_entry : t_kind T = KShut -> t_entry T' = t_entry T;
  ef_shutdown : n_shutdown s' = n_shutdown s;
  ef_op : (needs_op T = true -> t_op T = true) -> needs_op T' = true -> t_op T' = true;
  ef_drained : drained s = true -> t_op T = false -> t_op T' = false;
  ef_threads : on_threads s s' T T';
  ef_shut : t_kind T = KShut -> shut_moves s T T';
  ef_done : is_done T = true -> is_done T' = true;
}.

Lemma task_step_effect s t a s' : node_inv s -> task_step s t a = Some s' -> exists T T', effect s t s' T T'.
Proof.
  intros Hi. unfold task_step. destruct (n_tasks s !! t) as [T|] eqn:Ht; [|done].
  pose proof (to_kind _ _ _ _ (in_task _ _ _ Hi t T Ht)) as Hk.
  exists T. destruct (t_pc T) eqn:Hpc; cbn in Hk.
  4-25: destruct (t_entry T) as [e|] eqn:He; [|done]; destruct (n_entries s !! e) as [E|] eqn:HE; [|done].
  all: unfold op_permit, op_check, find in *; operations.
  all: repeat case_match; simplify_eq; try done.
  all: eexists; split; cbn; try done; try by apply ot_same.
  all: unfold shut_moves, needs_op, is_done; cbn; rewrite ?Hpc, ?He; try done.
  all: try (by intros Hop _; apply Hop; congruence).
  all: try (by destruct (t_kind T); auto).
  all: try (by eapply ot_stop).
  all: try (by intros _; eexists e, E; rewrite HE; split_and!; [done..|]; by case_match; simplify_eq).
  all: try (by intros _; eauto).
  - intros Hd. by rewrite Hd in *.
  - intros Hs. by destruct Hk as [? _].
  - case_bool_decide as Hf; [done|]. eapply ot_spawn; [|by apply eq_None_not_Some|reflexivity].
    unfold needs_op. rewrite Hpc. by destruct Hk as [-> | (? & ? & ? & ->)].
Qed.

(** The shutdown has a task that will stop the VM [v] of entry [e]. *)
Definition will_stop (s : Node) (v e : nat) : Prop :=
  exists t T, n_tasks s !! t = Some T /\ t_kind T = KShut /\ t_entry T = Some e /\
    (t_pc T = PLock \/ t_pc T = PHeld \/ t_pc T = PJoin v).

Record permits (s : Node) : Prop := {
  pm_op : forall t T, n_tasks s !! t = Some T -> needs_op T = true -> t_op T = true;
  pm_drained : forall t T, drained s = true -> n_tasks s !! t = Some T -> t_op T = false;
  pm_shut : forall t T, drained s = false -> n_tasks s !! t = Some T -> t_kind T <> KShut;
  pm_live : forall v V, drained s = true -> n_threads s !! v = Some V -> live V -> will_stop s v (v_entry V);
}.

Lemma drained_same s s' : n_shutdown s' = n_shutdown s -> drained s' = drained s.
Proof. unfold drained. by intros ->. Qed.

(** The task of the shutdown that will stop a VM still will, after a step. *)
Lemma will_stop_step s t s' T T' v V :
  node_inv s -> effect s t s' T T' -> n_threads s !! v = Some V -> live V -> will_stop s v (v_entry V) ->
  will_stop s' v (v_entry V).
Proof.
  intros Hi Hef HV Hlv (t0 & T0 & HT0 & Hk0 & He0 & Hpc0). unfold will_stop. rewrite (ef_tasks _ _ _ _ _ Hef).
  destruct (decide (t0 = t)) as [->|Hne]; [|exists t0, T0; by rewrite lookup_insert_ne].
  pose proof (ef_task _ _ _ _ _ Hef) as HT. rewrite HT0 in HT. injection HT as <-.
  exists t, T'. rewrite lookup_insert_eq, (ef_kind _ _ _ _ _ Hef), (ef_entry _ _ _ _ _ Hef) by done.
  split_and!; [done..|]. pose proof (ef_shut _ _ _ _ _ Hef Hk0) as Hm. unfold shut_moves in Hm.
  destruct Hpc0 as [Hpc | [Hpc | Hpc]]; rewrite Hpc in Hm; [auto| |].
  - right; right. destruct Hm as (e & E & He & HE & Hm). rewrite He0 in He. injection He as <-.
    pose proof (eo_live _ _ _ _ (in_entry _ _ _ Hi _ _ HE) v V HV eq_refl Hlv) as Hc.
    rewrite (current_holder _ _ _ t T0 (v_entry V) E Hi HT0 ltac:(by rewrite Hpc) He0 HE) in Hc.
    unfold next_current in Hc. rewrite Hpc in Hc. destruct (e_vm E); [congruence|done].
  - destruct Hm as (V0 & HV0 & Hph). rewrite HV in HV0. injection HV0 as <-. by destruct Hlv.
Qed.

Lemma task_step_permits s t a s' : node_inv s -> permits s -> task_step s t a = Some s' -> permits s'.
Proof.
  intros Hi [H1 H2 H3 H4] Hs. destruct (task_step_effect s t a s' Hi Hs) as (T & T' & Hef).
  pose proof (ef_task _ _ _ _ _ Hef) as HT. pose proof (drained_same _ _ (ef_shutdown _ _ _ _ _ Hef)) as Hdr.
  split; rewrite ?Hdr, ?(ef_tasks _ _ _ _ _ Hef).
  - intros t0 T0 [[<- <-]|[_ HT0]]%lookup_insert_Some; [|eauto]. apply (ef_op _ _ _ _ _ Hef). eauto.
  - intros t0 T0 Hd [[<- <-]|[_ HT0]]%lookup_insert_Some; [|eauto]. apply (ef_drained _ _ _ _ _ Hef); eauto.
  - intros t0 T0 Hd [[<- <-]|[_ HT0]]%lookup_insert_Some; [|eauto]. rewrite (ef_kind _ _ _ _ _ Hef). eauto.
  - intros v V Hd HV Hlv. destruct (ef_threads _ _ _ _ _ Hef) as [Hth | v0 V0 g HV0 Hpc Hth | v0 V0 Hop Hf Hth]; rewrite Hth in HV.
    + eapply will_stop_step; eauto.
    + apply lookup_insert_Some in HV as [[<- <-]|[_ HV]].
      * eapply (will_stop_step _ _ _ _ _ _ V0); eauto.
      * eapply will_stop_step; eauto.
    + pose proof (H1 t T HT Hop). by rewrite (H2 t T Hd HT) in *.
Qed.

Lemma thread_step_permits s v h s' : node_inv s -> permits s -> thread_step s v h = Some s' -> permits s'.
Proof.
  intros Hi [H1 H2 H3 H4]. unfold thread_step. destruct (n_threads s !! v) as [V|] eqn:HV; [|done].
  destruct (n_entries s !! v_entry V) as [E|] eqn:HE; [|done].
  assert (forall s0 V', n_tasks s0 = n_tasks s -> n_shutdown s0 = n_shutdown s -> n_threads s0 = n_threads s ->
    v_entry V' = v_entry V -> (live V' -> live V) -> permits (set_thread s0 v V')) as Hup.
  { intros s0 V' Hta Hsh Hth Hve Hl. assert (drained (set_thread s0 v V') = drained s) as Hdr by by apply drained_same.
    split; rewrite ?Hdr; cbn; rewrite ?Hta, ?Hth; try done.
    intros v0 V0 Hd [[<- <-]|[_ HV0]]%lookup_insert_Some Hl0; unfold will_stop; cbn; rewrite Hta.
    - rewrite Hve. apply H4; auto.
    - by apply H4. }
  unfold live in Hup. destruct (v_phase V) eqn:Hph, h; try done.
  all: repeat case_match; intros [= <-]; apply Hup; unfold release; repeat case_match; cbn; try done.
Qed.

(** A task changes, and the shutdown does not. *)
Lemma permits_task s s' t T' :
  permits s -> n_tasks s' = <[ t := T' ]> (n_tasks s) -> n_shutdown s' = n_shutdown s -> n_threads s' = n_threads s ->
  needs_op T' = false -> (drained s = true -> t_op T' = false) -> t_kind T' <> KShut ->
  (forall T, n_tasks s !! t = Some T -> t_kind T <> KShut) -> permits s'.
Proof.
  intros [H1 H2 H3 H4] Hta Hsh Hth Hn Hd Hk Hk0. pose proof (drained_same _ _ Hsh) as Hdr.
  split; rewrite ?Hdr, ?Hta, ?Hth.
  - intros t0 T0 [[<- <-]|[_ HT0]]%lookup_insert_Some; [congruence|eauto].
  - intros t0 T0 Hd0 [[<- <-]|[_ HT0]]%lookup_insert_Some; [auto|eauto].
  - intros t0 T0 Hd0 [[<- <-]|[_ HT0]]%lookup_insert_Some; [auto|eauto].
  - intros v V Hd0 HV Hlv. destruct (H4 v V Hd0 HV Hlv) as (t0 & T0 & HT0 & ? & ?). exists t0, T0.
    rewrite Hta, lookup_insert_ne; [done|]. intros <-. by apply (Hk0 T0).
Qed.

Lemma ask_permits s t k name a s' : permits s -> ask s t k name a = Some s' -> permits s'.
Proof.
  intros Hp Hs. assert (k <> KShut) as Hk by (intros ->; unfold ask in Hs; by case_bool_decide).
  unfold ask in Hs. case_bool_decide as Hf; [done|]. apply eq_None_not_Some in Hf.
  destruct k; repeat case_match; simplify_eq; eapply permits_task; try done; cbn; congruence.
Qed.

Lemma cancel_permits s t s' : permits s -> cancel s t = Some s' -> permits s'.
Proof.
  intros Hp. unfold cancel. destruct (n_tasks s !! t) as [T|] eqn:Ht; [|done].
  destruct (t_kind T) eqn:Hk, (t_pc T) eqn:Hpc; try done; repeat case_match; intros [= <-].
  all: eapply permits_task; try done; unfold needs_op; cbn; rewrite ?Hk; try done; try congruence.
  all: intros Hd; by apply (pm_drained s Hp t T).
Qed.

Lemma no_ops_spec s : no_ops s = true <-> forall t T, n_tasks s !! t = Some T -> t_op T = false.
Proof.
  unfold no_ops. rewrite forallb_forall. split.
  - intros H t T HT. specialize (H T). rewrite negb_true_iff in H. apply H.
    apply list_elem_of_In, list_elem_of_fmap. exists (t, T). split; [done|]. by apply elem_of_map_to_list.
  - intros H T HT%list_elem_of_In. apply list_elem_of_fmap in HT as ([t T0] & -> & HT%elem_of_map_to_list).
    rewrite negb_true_iff. eauto.
Qed.

Lemma above_spec s base : above s base = true <-> forall t, (base <= t)%nat -> n_tasks s !! t = None.
Proof.
  unfold above. rewrite forallb_forall. split.
  - intros H t Ht. destruct (n_tasks s !! t) as [T|] eqn:HT; [|done]. specialize (H t). rewrite Nat.ltb_lt in H.
    assert (t < base)%nat; [|lia]. apply H. apply list_elem_of_In, list_elem_of_fmap. exists (t, T).
    split; [done|]. by apply elem_of_map_to_list.
  - intros H t HT%list_elem_of_In. apply list_elem_of_fmap in HT as ([t0 T0] & -> & HT%elem_of_map_to_list).
    apply Nat.ltb_lt. cbn. destruct (decide (t0 < base)%nat); [done|]. rewrite H in HT by lia. done.
Qed.

Definition node_ok (s : Node) : Prop := node_inv s /\ node_named s /\ permits s.

(** At the drain no task awaits a VM, so each is the one of its entry. *)
Lemma drain_vm s v V :
  node_ok s -> drained s = false -> no_ops s = true -> n_threads s !! v = Some V -> live V ->
  exists E, n_entries s !! v_entry V = Some E /\ n_sandboxes s !! e_name E = Some (v_entry V).
Proof.
  intros (Hi & Hn & Hp) Hd Hno HV Hlv. destruct (in_thread _ _ _ Hi v V HV) as [E HE]. exists E. split; [done|].
  pose proof (eo_live _ _ _ _ (in_entry _ _ _ Hi _ _ HE) v V HV eq_refl Hlv) as Hc. unfold current in Hc.
  destruct (e_vm E) as [v0|] eqn:Hv; [by eapply (nm_vm _ _ _ Hn)|].
  destruct (e_lock E) as [t|]; [|done]. cbn in Hc. destruct (n_tasks s !! t) as [T|] eqn:HT; [|done]. cbn in Hc.
  exfalso. pose proof (pm_shut s Hp t T Hd HT) as Hk. pose proof (to_kind _ _ _ _ (in_task _ _ _ Hi t T HT)) as Hkind.
  rewrite no_ops_spec in Hno. specialize (Hno t T HT). pose proof (pm_op s Hp t T HT) as Hop. unfold needs_op in Hop.
  rewrite Hno in Hop. destruct (t_pc T); try discriminate Hc; cbn in Hkind.
  - destruct Hkind as [Hu _]. destruct (t_kind T); try done; by specialize (Hop eq_refl).
  - destruct Hkind as [Hu | (? & ? & ? & Hu)]; rewrite Hu in Hop; by specialize (Hop eq_refl).
Qed.

Lemma shutdown_over s d :
  node_ok s -> (d = SClosing /\ n_shutdown s = SOpen \/ d = SOver /\ n_shutdown s = SStopping) -> node_ok (set_shutdown s d).
Proof.
  intros (Hi & Hn & [H1 H2 H3 H4]) Hd. split; [done|]. split; [done|].
  assert (drained (set_shutdown s d) = drained s) as Hdr.
  { unfold drained. cbn. by destruct Hd as [[-> ->] | [-> ->]]. }
  split; rewrite ?Hdr; done.
Qed.

Lemma shut_down_ok s ev s' : node_ok s -> shut_down s ev = Some s' -> node_ok s'.
Proof.
  intros Hok. unfold shut_down. destruct (n_shutdown s) eqn:Hsd, ev; try done.
  - intros [= <-]. apply shutdown_over; auto.
  - destruct (no_ops s) eqn:Hno; [|done]. destruct (above s base) eqn:Hab; [|done]. intros [= <-].
    assert (drained s = false) as Hd by (unfold drained; by rewrite Hsd).
    pose proof (drain_vm s) as Hvm. destruct Hok as (Hi & Hn & Hp).
    rewrite no_ops_spec in Hno. rewrite above_spec in Hab.
    destruct (shut_tasks_ok (map_to_list (n_sandboxes s)) (set_shutdown s SStopping) base)
      as (H1 & H2 & H3 & H4 & H5 & H6 & H7 & H8 & H9 & H10 & H11); [done..| |done|].
    { intros n e Hin%elem_of_map_to_list. done. }
    set (s' := (fold_left shut_task _ _).1) in *.
    assert (drained s' = true) as Hd' by (unfold drained; by rewrite H8).
    split; [done|]. split; [done|]. split; rewrite ?Hd'; try done.
    + intros t T HT Hneed. destruct (H9 t T HT) as [HT0 | (n & e & _ & ->)]; [by eapply (pm_op s Hp)|done].
    + intros t T _ HT. destruct (H9 t T HT) as [HT0 | (n & e & _ & ->)]; [by eapply Hno|done].
    + intros v V _ HV Hlv. rewrite H4 in HV. cbn in HV.
      assert (no_ops s = true) as Hno' by by apply no_ops_spec.
      destruct (Hvm v V (conj Hi (conj Hn Hp)) Hd Hno' HV Hlv) as (E & HE & Hs).
      destruct (H11 (e_name E) (v_entry V)) as [t Ht]; [by apply elem_of_map_to_list|].
      exists t. eexists. split; [done|]. cbn. auto.
  - case_match; [|done]. intros [= <-]. apply shutdown_over; auto.
Qed.

(** ** Every step keeps what holds of a node *)

Lemma named_exist s n e : node_named s -> n_sandboxes s !! n = Some e -> is_Some (n_entries s !! e).
Proof. intros Hn Hs. destruct (nm_entry _ _ _ Hn n e Hs) as (E & HE & _). eauto. Qed.

Lemma node_step_ok s ev s' : node_ok s -> step s ev = Some s' -> node_ok s'.
Proof.
  intros Hok. pose proof Hok as (Hi & Hn & Hp). destruct ev as [t k name a|t a|t|v h|ev]; cbn.
  - intros Hs. destruct (ask_ok s t k name a s' Hi Hn Hs). split_and!; [done..|by eapply ask_permits].
  - intros Hs. split_and!.
    + eapply task_step_ok; [done| |done]. intros. by eapply named_exist.
    + by eapply task_step_named.
    + by eapply task_step_permits.
  - intros Hs. destruct (cancel_ok s t s' Hi Hn Hs). split_and!; [done..|by eapply cancel_permits].
  - intros Hs. split_and!; [by eapply thread_step_ok|by eapply thread_step_named|by eapply thread_step_permits].
  - by apply shut_down_ok.
Qed.

Lemma run_ok evs : forall s s', node_ok s -> run s evs = Some s' -> node_ok s'.
Proof.
  induction evs as [|ev evs IH]; intros s s' Hok; cbn; [by intros [= <-]|].
  destruct (step s ev) as [s1|] eqn:Hs; [|done]. apply IH. by eapply node_step_ok.
Qed.

(** ** A node that has just been opened *)

(** Entries read from the state directory: none runs, each has its name. *)
Record loaded (s : Node) (n : nat) : Prop := {
  ld_tasks : n_tasks s = ∅;
  ld_threads : n_threads s = ∅;
  ld_open : n_shutdown s = SOpen;
  ld_fresh : forall e, (n <= e)%nat -> n_entries s !! e = None;
  ld_entry : forall e E, n_entries s !! e = Some E ->
    e_lock E = None /\ e_vm E = None /\ e_running E = false /\ n_sandboxes s !! e_name E = Some e /\
    0 <= e_last_boot E <= n_last_boot s;
  ld_name : forall nm e, n_sandboxes s !! nm = Some e -> exists E, n_entries s !! e = Some E /\ e_name E = nm;
}.

Lemma load_one_ok s n st :
  0 <= st_last_boot st -> loaded s n -> loaded (load_one (s, n) st).1 (load_one (s, n) st).2.
Proof.
  intros Hb [H1 H2 H3 H4 H5 H6]. unfold load_one. case_match eqn:Hc; [done|]. cbn.
  apply orb_false_iff in Hc as [_ Hc]. apply bool_decide_eq_false, eq_None_not_Some in Hc.
  split; cbn; try done.
  - intros e He. rewrite lookup_insert_ne by lia. apply H4. lia.
  - intros e E [[<- <-]|[Hne HE]]%lookup_insert_Some; cbn; [rewrite lookup_insert_eq; split_and!; done || lia|].
    destruct (H5 e E HE) as (? & ? & ? & Hs & ?). split_and!; try done; [|lia|lia]. rewrite lookup_insert_ne; [done|]. congruence.
  - intros nm e [[<- <-]|[Hne Hs]]%lookup_insert_Some; [eexists; by rewrite lookup_insert_eq|].
    destruct (H6 nm e Hs) as (E & HE & ?). exists E. rewrite lookup_insert_ne; [done|]. intros <-.
    rewrite H4 in HE by lia. done.
Qed.

Lemma open_loaded nc slots l : Forall (fun st => 0 <= st_last_boot st) l -> exists n, loaded (open nc slots l) n.
Proof.
  intros Hl. unfold open, load.
  assert (loaded (MkNode nc ∅ ∅ slots 0 SOpen ∅ ∅) 0) as H0 by by split.
  revert H0. generalize (MkNode nc ∅ ∅ slots 0 SOpen ∅ ∅), 0%nat. induction Hl as [|st l Hst _ IH]; intros s n H0; [eauto|].
  cbn [fold_left]. pose proof (load_one_ok s n st Hst H0) as H1. destruct (load_one (s, n) st) as [s1 n1]. by apply (IH s1 n1).
Qed.

Lemma loaded_ok s n : loaded s n -> node_ok s.
Proof.
  intros [H1 H2 H3 H4 H5 H6]. unfold node_ok, node_inv, node_named. rewrite H1, H2. split_and!.
  - split; try done. intros e E HE. destruct (H5 e E HE) as (Hl & Hv & Hr & _). split; rewrite ?Hl, ?Hv, ?Hr; try done.
    split; [done|]. by intros (v & V & ? & _).
  - split; try done. intros e E v HE Hv. destruct (H5 e E HE) as (_ & Hv' & _). congruence.
  - assert (drained s = false) as Hd by (unfold drained; by rewrite H3). split; rewrite ?H1, ?H2, ?Hd; done.
Qed.
