(* ===== verification/NodeSlots.v ===== *)
(** * Slots and boots of a node

    A slot is free or has one user, a task that is about to start a VM in it or
    the thread of that VM; a boot is the number of one start only, and while a
    VM is not over its boot is the last one its entry has saved. *)

From stdpp Require Import gmap.
From S2P Require Import Prelude Cas Node NodeInv NodeNames NodeShut.

(** ** Slots *)

Definition task_slot (T : Task) : option Z :=
  match t_pc T with PBoot x | PSave x _ | PSpawn x _ => Some x | _ => None end.
Definition thread_slot (V : Thread) : option Z := match v_phase V with VDone => None | _ => Some (v_slot V) end.

(** The slot of a task or of a thread. *)
Definition slot_of (ta : gmap nat Task) (th : gmap nat Thread) (h : nat + nat) : option Z :=
  match h with
  | inl t => T ← ta !! t; task_slot T
  | inr v => V ← th !! v; thread_slot V
  end.

Definition slots_ok (sl : gset Z) (ta : gmap nat Task) (th : gmap nat Thread) : Prop :=
  (forall h x, slot_of ta th h = Some x -> x ∉ sl) /\
  (forall h h' x, slot_of ta th h = Some x -> slot_of ta th h' = Some x -> h = h').

Lemma slot_of_task ta th t T' h :
  slot_of (<[ t := T' ]> ta) th h = if decide (h = inl t) then task_slot T' else slot_of ta th h.
Proof.
  destruct h as [t'|v]; cbn; case_decide as Hd; try done.
  - injection Hd as ->. by rewrite lookup_insert_eq.
  - by rewrite lookup_insert_ne by congruence.
Qed.

Lemma slot_of_thread ta th v V' h :
  slot_of ta (<[ v := V' ]> th) h = if decide (h = inr v) then thread_slot V' else slot_of ta th h.
Proof.
  destruct h as [t'|v']; cbn; case_decide as Hd; try done.
  - injection Hd as ->. by rewrite lookup_insert_eq.
  - by rewrite lookup_insert_ne by congruence.
Qed.

Section moves.
Context (sl : gset Z) (ta ta' : gmap nat Task) (th th' : gmap nat Thread).
Hypothesis Hok : slots_ok sl ta th.

(** Nobody takes a slot. *)
Lemma slots_keep :
  (forall h x, slot_of ta' th' h = Some x -> slot_of ta th h = Some x) -> slots_ok sl ta' th'.
Proof. intros Hle. destruct Hok as [H1 H2]. split; eauto. Qed.

(** A slot nobody has any more is free. *)
Lemma slots_give h0 x0 :
  slot_of ta th h0 = Some x0 -> slot_of ta' th' h0 = None ->
  (forall h x, slot_of ta' th' h = Some x -> slot_of ta th h = Some x) -> slots_ok ({[ x0 ]} ∪ sl) ta' th'.
Proof.
  intros Hh0 Hn Hle. destruct Hok as [H1 H2]. split; [|eauto].
  intros h x Hx [->%elem_of_singleton|Hin]%elem_of_union; [|by apply (H1 h x); eauto].
  assert (h = h0) as -> by eauto. congruence.
Qed.

(** A free slot is taken. *)
Lemma slots_take h0 x0 :
  x0 ∈ sl -> slot_of ta' th' h0 = Some x0 ->
  (forall h x, h <> h0 -> slot_of ta' th' h = Some x -> slot_of ta th h = Some x) -> slots_ok (sl ∖ {[ x0 ]}) ta' th'.
Proof.
  intros Hin Hh0 Hle. destruct Hok as [H1 H2]. split.
  - intros h x Hx [Hs Hne]%elem_of_difference. rewrite elem_of_singleton in Hne.
    destruct (decide (h = h0)) as [->|Hh]; [congruence|]. by apply (H1 h x); eauto.
  - intros h h' x Hx Hx'. destruct (decide (h = h0)) as [->|Hh], (decide (h' = h0)) as [->|Hh']; [done| | |eauto].
    + rewrite Hh0 in Hx. injection Hx as ->. by destruct (H1 h' x (Hle h' x Hh' Hx')).
    + rewrite Hh0 in Hx'. injection Hx' as ->. by destruct (H1 h x (Hle h x Hh Hx)).
Qed.

(** A slot goes from one user to the next. *)
Lemma slots_pass h0 h1 x0 :
  slot_of ta th h0 = Some x0 -> slot_of ta' th' h0 = None -> slot_of ta' th' h1 = Some x0 ->
  (forall h x, h <> h1 -> slot_of ta' th' h = Some x -> slot_of ta th h = Some x) -> slots_ok sl ta' th'.
Proof.
  intros Hh0 Hn Hh1 Hle. destruct Hok as [H1 H2]. split.
  - intros h x Hx. destruct (decide (h = h1)) as [->|Hh]; [|by apply (H1 h x); eauto].
    rewrite Hh1 in Hx. injection Hx as ->. by apply (H1 h0 x).
  - assert (forall h x, h <> h1 -> slot_of ta' th' h = Some x -> x <> x0) as Hd.
    { intros h x Hh Hx ->. assert (h = h0) as -> by eauto. congruence. }
    intros h h' x Hx Hx'. destruct (decide (h = h1)) as [->|Hh], (decide (h' = h1)) as [->|Hh']; [done| | |eauto].
    + destruct (Hd h' x Hh' Hx'). congruence.
    + destruct (Hd h x Hh Hx). congruence.
Qed.
End moves.

Definition node_slots (s : Node) : Prop := slots_ok (n_slots s) (n_tasks s) (n_threads s).

Lemma first_slot_in x y : first_slot x = Some y -> y ∈ x.
Proof.
  unfold first_slot. destruct (elements x) as [|z zs] eqn:He; [done|]. intros [= <-].
  assert (fold_left Z.min zs z ∈ z :: zs) as Hin.
  { clear He. revert z. induction zs as [|w zs IH]; intros z; cbn [fold_left]; [left|].
    specialize (IH (Z.min z w)). apply elem_of_cons in IH as [IH|IH]; [|by right; right].
    rewrite IH. destruct (Z.min_spec z w) as [[_ ->]|[_ ->]]; [left|right; left]. }
  rewrite <- He in Hin. by apply elem_of_elements in Hin.
Qed.

Section task.
Context (s : Node) (t : nat) (T : Task).
Hypothesis Hok : node_slots s.
Hypothesis Ht : n_tasks s !! t = Some T.

Lemma task_slot_keep th h x T' :
  (forall y, task_slot T' = Some y -> task_slot T = Some y) ->
  slot_of (<[ t := T' ]> (n_tasks s)) th h = Some x -> slot_of (n_tasks s) th h = Some x.
Proof. intros HT'. rewrite slot_of_task. case_decide as Hd; [|done]. subst. intros Hx%HT'. cbn. by rewrite Ht. Qed.

Lemma task_slots_keep T' :
  (forall y, task_slot T' = Some y -> task_slot T = Some y) ->
  slots_ok (n_slots s) (<[ t := T' ]> (n_tasks s)) (n_threads s).
Proof. intros HT'. apply (slots_keep _ (n_tasks s) _ (n_threads s)); [done|]. intros h x. by apply task_slot_keep. Qed.

Lemma task_slots_quiet T' : task_slot T' = None -> slots_ok (n_slots s) (<[ t := T' ]> (n_tasks s)) (n_threads s).
Proof. intros HT'. apply task_slots_keep. by rewrite HT'. Qed.

Lemma task_slots_stop v V g T' :
  task_slot T' = None -> n_threads s !! v = Some V ->
  slots_ok (n_slots s) (<[ t := T' ]> (n_tasks s)) (<[ v := with_stop V g ]> (n_threads s)).
Proof.
  intros HT' HV. apply (slots_keep _ (n_tasks s) _ (n_threads s)); [done|]. intros h x Hx.
  apply task_slot_keep in Hx; [|by rewrite HT']. rewrite slot_of_thread in Hx. case_decide as Hd; [|done]. subst. cbn. by rewrite HV.
Qed.

Lemma task_slots_give x T' :
  task_slot T = Some x -> task_slot T' = None ->
  slots_ok ({[ x ]} ∪ n_slots s) (<[ t := T' ]> (n_tasks s)) (n_threads s).
Proof.
  intros Hx HT'. apply (slots_give _ (n_tasks s) _ (n_threads s) _ Hok (inl t)).
  - cbn. by rewrite Ht.
  - rewrite slot_of_task. by case_decide.
  - intros h y. apply task_slot_keep. by rewrite HT'.
Qed.

Lemma task_slots_spawn x v V T' :
  task_slot T = Some x -> task_slot T' = None -> thread_slot V = Some x -> n_threads s !! v = None ->
  slots_ok (n_slots s) (<[ t := T' ]> (n_tasks s)) (<[ v := V ]> (n_threads s)).
Proof.
  intros Hx HT' HV Hf. apply (slots_pass _ (n_tasks s) _ (n_threads s) _ Hok (inl t) (inr v) x).
  - cbn. by rewrite Ht.
  - rewrite slot_of_task. by case_decide.
  - rewrite slot_of_thread. by case_decide.
  - intros h y Hh. rewrite slot_of_thread. case_decide; [done|]. apply task_slot_keep. by rewrite HT'.
Qed.

Lemma task_slots_take x T' :
  x ∈ n_slots s -> task_slot T' = Some x -> slots_ok (n_slots s ∖ {[ x ]}) (<[ t := T' ]> (n_tasks s)) (n_threads s).
Proof.
  intros Hx HT'. apply (slots_take _ (n_tasks s) _ (n_threads s) _ Hok (inl t)); [done| |].
  - rewrite slot_of_task. by case_decide.
  - intros h y Hh. rewrite slot_of_task. by case_decide.
Qed.
End task.

Lemma task_step_slots s t a s' : node_slots s -> task_step s t a = Some s' -> node_slots s'.
Proof.
  intros Hok. unfold task_step. destruct (n_tasks s !! t) as [T|] eqn:Ht; [|done].
  destruct (t_pc T) eqn:Hpc.
  4-25: destruct (t_entry T) as [e|] eqn:He; [|done]; destruct (n_entries s !! e) as [E|] eqn:HE; [|done].
  all: unfold op_permit, op_check, find in *; operations.
  all: intros Hs; repeat case_match; simplify_eq; try done; unfold node_slots; cbn.
  all: try (by eapply task_slots_quiet). all: try (by eapply task_slots_stop).
  all: try (by eapply task_slots_give; [..|unfold task_slot; rewrite Hpc|]).
  all: try (by eapply task_slots_keep; [..|unfold task_slot; rewrite Hpc]).
  - eapply task_slots_take; [done| |done]. by apply first_slot_in.
  - case_bool_decide as Hf; [done|]. eapply task_slots_spawn; [done|done|by unfold task_slot; rewrite Hpc|done|done|].
    by apply eq_None_not_Some.
Qed.

Lemma thread_step_slots s v h s' : node_slots s -> thread_step s v h = Some s' -> node_slots s'.
Proof.
  intros Hok. unfold thread_step. destruct (n_threads s !! v) as [V|] eqn:HV; [|done].
  destruct (n_entries s !! v_entry V) as [E|] eqn:HE; [|done].
  assert (forall V' h0 x, (forall y, thread_slot V' = Some y -> thread_slot V = Some y) ->
    slot_of (n_tasks s) (<[ v := V' ]> (n_threads s)) h0 = Some x -> slot_of (n_tasks s) (n_threads s) h0 = Some x) as Hkeep.
  { intros V' h0 x HV'. rewrite slot_of_thread. case_decide; [|done]. subst. intros Hx%HV'. cbn. by rewrite HV. }
  assert (forall V', (forall y, thread_slot V' = Some y -> thread_slot V = Some y) ->
    slots_ok (n_slots s) (n_tasks s) (<[ v := V' ]> (n_threads s))) as Hquiet.
  { intros V' HV'. apply (slots_keep _ (n_tasks s) _ (n_threads s)); [done|]. eauto. }
  assert (forall V', v_phase V <> VDone -> thread_slot V' = None ->
    slots_ok ({[ v_slot V ]} ∪ n_slots s) (n_tasks s) (<[ v := V' ]> (n_threads s))) as Hgive.
  { intros V' Hph HV'. apply (slots_give _ (n_tasks s) _ (n_threads s) _ Hok (inr v)).
    - cbn. rewrite HV. cbn. unfold thread_slot. by destruct (v_phase V).
    - rewrite slot_of_thread. by case_decide.
    - intros h0 x. apply Hkeep. by rewrite HV'. }
  destruct (v_phase V) eqn:Hph, h; try done.
  all: repeat case_match; intros [= <-]; unfold node_slots, release; repeat case_match; cbn.
  all: try (by apply Hgive). all: apply Hquiet; intros y; unfold thread_slot; cbn; by rewrite ?Hph.
Qed.

Lemma slots_any sl ta th t T' : slots_ok sl ta th -> task_slot T' = None -> slots_ok sl (<[ t := T' ]> ta) th.
Proof. intros Hok HT'. apply (slots_keep _ ta _ th); [done|]. intros h x. rewrite slot_of_task. by case_decide; [rewrite HT'|]. Qed.

(** ** Boots *)

Definition task_boot (T : Task) : option Z := match t_pc T with PSave _ b | PSpawn _ b => Some b | _ => None end.

(** The number of a start: of the thread, or of the task that is about to make it. *)
Definition boot_of (ta : gmap nat Task) (th : gmap nat Thread) (h : nat + nat) : option Z :=
  match h with
  | inl t => T ← ta !! t; task_boot T
  | inr v => v_boot <$> th !! v
  end.

(** What the point of a task says of its boot. *)
Definition boot_placed (E : Entry) (pc : Pc) : Prop :=
  match pc with
  | PSave _ b => e_last_boot E < b
  | PSpawn _ b => e_last_boot E = b
  | _ => True
  end.

Record boots (last : Z) (en : gmap nat Entry) (ta : gmap nat Task) (th : gmap nat Thread) : Prop := {
  bo_last : 0 <= last;
  bo_le : forall h b, boot_of ta th h = Some b -> 0 <= b <= last;
  bo_inj : forall h h' b, boot_of ta th h = Some b -> boot_of ta th h' = Some b -> h = h';
  bo_entry : forall e E, en !! e = Some E -> 0 <= e_last_boot E <= last;
  bo_thread : forall v V E, th !! v = Some V -> en !! v_entry V = Some E ->
    v_boot V <= e_last_boot E /\ (live V -> e_last_boot E = v_boot V);
  bo_task : forall t T e E, ta !! t = Some T -> t_entry T = Some e -> en !! e = Some E -> boot_placed E (t_pc T);
}.
Definition node_boots (s : Node) : Prop := boots (n_last_boot s) (n_entries s) (n_tasks s) (n_threads s).

Lemma boot_of_task ta th t T' h :
  boot_of (<[ t := T' ]> ta) th h = if decide (h = inl t) then task_boot T' else boot_of ta th h.
Proof.
  destruct h as [t'|v]; cbn; case_decide as Hd; try done.
  - injection Hd as ->. by rewrite lookup_insert_eq.
  - by rewrite lookup_insert_ne by congruence.
Qed.

Lemma boot_of_thread ta th v V' h :
  boot_of ta (<[ v := V' ]> th) h = if decide (h = inr v) then Some (v_boot V') else boot_of ta th h.
Proof.
  destruct h as [t'|v']; cbn; case_decide as Hd; try done.
  - injection Hd as ->. by rewrite lookup_insert_eq.
  - by rewrite lookup_insert_ne by congruence.
Qed.

(** A task that has no number of its own moves. *)
Lemma boots_any last en ta th t T' :
  boots last en ta th -> task_boot T' = None -> boots last en (<[ t := T' ]> ta) th.
Proof.
  intros [H0 H1 H2 H3 H4 H5] Hn.
  assert (forall h b, boot_of (<[ t := T' ]> ta) th h = Some b -> boot_of ta th h = Some b) as Hle.
  { intros h b. rewrite boot_of_task. case_decide; [congruence|done]. }
  split; [done|eauto|eauto|done|done|].
  intros t0 T0 e0 E0 [[<- <-]|[_ HT0]]%lookup_insert_Some He0 HE0; [|eauto].
  unfold task_boot in Hn. by destruct (t_pc T').
Qed.

(** A thread that keeps its number changes. *)
Lemma boots_thread last en ta th v V V' :
  boots last en ta th -> th !! v = Some V -> v_entry V' = v_entry V -> v_boot V' = v_boot V -> (live V' -> live V) ->
  boots last en ta (<[ v := V' ]> th).
Proof.
  intros [H0 H1 H2 H3 H4 H5] HV He Hb Hl.
  assert (forall h b, boot_of ta (<[ v := V' ]> th) h = Some b -> boot_of ta th h = Some b) as Hle.
  { intros h b. rewrite boot_of_thread. case_decide; [|done]. subst. intros [= <-]. cbn. rewrite HV. cbn. congruence. }
  split; [done|eauto|eauto|done| |done].
  intros v0 V0 E [[<- <-]|[_ HV0]]%lookup_insert_Some HE; [|eauto].
  rewrite He in HE. destruct (H4 v V E HV HE). rewrite Hb. auto.
Qed.

(** An entry keeps the number of its last start. *)
Lemma boots_entry last en ta th e E E' :
  boots last en ta th -> en !! e = Some E -> e_last_boot E' = e_last_boot E -> boots last (<[ e := E' ]> en) ta th.
Proof.
  intros [H0 H1 H2 H3 H4 H5] HE Hlb.
  assert (forall e0 E0, <[ e := E' ]> en !! e0 = Some E0 -> exists E1, en !! e0 = Some E1 /\ e_last_boot E0 = e_last_boot E1) as Hen.
  { intros e0 E0 [[<- <-]|[_ HE0]]%lookup_insert_Some; eauto. }
  split; [done..| | |].
  - intros e0 E0 HE0. destruct (Hen e0 E0 HE0) as (E1 & HE1 & ->). eauto.
  - intros v V E0 HV HE0. destruct (Hen _ E0 HE0) as (E1 & HE1 & ->). eauto.
  - intros t T e0 E0 HT He0 HE0. destruct (Hen e0 E0 HE0) as (E1 & HE1 & Hl).
    specialize (H5 t T e0 E1 HT He0 HE1). unfold boot_placed in *. destruct (t_pc T); try done; lia.
Qed.

(** A number above all before is given to a task. *)
Lemma boots_number last en ta th t T' slot b :
  boots last en ta th -> last < b -> t_pc T' = PSave slot b -> boots b en (<[ t := T' ]> ta) th.
Proof.
  intros [H0 H1 H2 H3 H4 H5] Hb Hpc.
  assert (forall h x, boot_of (<[ t := T' ]> ta) th h = Some x -> x = b /\ h = inl t \/ x < b /\ boot_of ta th h = Some x) as Hle.
  { intros h x. rewrite boot_of_task. case_decide; [|intros Hx; right; split; [specialize (H1 h x Hx); lia|done]].
    unfold task_boot. rewrite Hpc. intros [= <-]. by left. }
  split.
  - lia.
  - intros h x Hx. destruct (Hle h x Hx) as [[-> _] | [_ Hx']]; [lia|]. specialize (H1 h x Hx'). lia.
  - intros h h' x Hx Hx'. destruct (Hle h x Hx) as [[-> ->] | [Hlt Hy]], (Hle h' _ Hx') as [[? ->] | [? Hy']]; try lia; eauto.
  - intros e E HE. specialize (H3 e E HE). lia.
  - done.
  - intros t0 T0 e0 E0 [[<- <-]|[_ HT0]]%lookup_insert_Some He0 HE0; [|eauto].
    rewrite Hpc. cbn. specialize (H3 e0 E0 HE0). lia.
Qed.

(** An entry without a VM takes a number above those it had, under the lock. *)
Lemma boots_save last en ta th t T' e E b :
  boots last en ta th -> en !! e = Some E -> e_last_boot E < b -> b <= last ->
  (forall v V, th !! v = Some V -> v_entry V = e -> ~ live V) ->
  (forall t0 T0, ta !! t0 = Some T0 -> t0 <> t -> t_entry T0 = Some e -> task_boot T0 = None) ->
  t_entry T' = Some e -> (forall E', e_last_boot E' = b -> boot_placed E' (t_pc T')) ->
  (forall x, task_boot T' = Some x -> exists T, ta !! t = Some T /\ task_boot T = Some x) ->
  boots last (<[ e := with_last_boot E b ]> en) (<[ t := T' ]> ta) th.
Proof.
  intros [H0 H1 H2 H3 H4 H5] HE Hlt Hle Hdead Hothers He Hp Hb.
  assert (forall h x, boot_of (<[ t := T' ]> ta) th h = Some x -> boot_of ta th h = Some x) as Hsame.
  { intros h x. rewrite boot_of_task. case_decide; [|done]. subst. intros Hx. destruct (Hb x Hx) as (T & HT & Hx').
    cbn. by rewrite HT. }
  split; [done|eauto|eauto| | |].
  - intros e0 E0 [[<- <-]|[_ HE0]]%lookup_insert_Some; [|eauto]. cbn. specialize (H3 e E HE). lia.
  - intros v V E0 HV [[Heq <-]|[_ HE0]]%lookup_insert_Some; [|eauto]. cbn. rewrite Heq in HE.
    destruct (H4 v V E HV HE). split; [lia|]. intros Hlv. by destruct (Hdead v V HV).
  - intros t0 T0 e0 E0 HT0 He0 HE0. apply lookup_insert_Some in HT0 as [[<- <-]|[Hne HT0]].
    + rewrite He in He0. injection He0 as <-. rewrite lookup_insert_eq in HE0. injection HE0 as <-. by apply Hp.
    + apply lookup_insert_Some in HE0 as [[<- <-]|[_ HE0]]; [|eauto].
      specialize (Hothers t0 T0 HT0 ltac:(done) He0). unfold task_boot in Hothers. by destruct (t_pc T0).
Qed.

(** The number of a task goes to the thread it makes. *)
Lemma boots_spawn last en ta th t T T' e E slot b v V :
  boots last en ta th -> ta !! t = Some T -> t_pc T = PSpawn slot b -> t_entry T = Some e -> en !! e = Some E ->
  task_boot T' = None -> th !! v = None -> v_entry V = e -> v_boot V = b ->
  boots last en (<[ t := T' ]> ta) (<[ v := V ]> th).
Proof.
  intros [H0 H1 H2 H3 H4 H5] HT Hpc He HE Hn Hf HVe HVb.
  assert (boot_of ta th (inl t) = Some b) as Ht by (cbn; rewrite HT; cbn; unfold task_boot; by rewrite Hpc).
  assert (forall h x, boot_of (<[ t := T' ]> ta) (<[ v := V ]> th) h = Some x ->
    h = inr v /\ x = b \/ h <> inl t /\ boot_of ta th h = Some x) as Hle.
  { intros h x. rewrite boot_of_thread. case_decide; [intros [= <-]; left; done|]. rewrite boot_of_task.
    case_decide; [congruence|]. by right. }
  split; [done| | |done| |].
  - intros h x Hx. destruct (Hle h x Hx) as [[-> ->] | [_ Hx']]; eauto.
  - intros h h' x Hx Hx'. destruct (Hle h x Hx) as [[-> Hb] | [Hn1 Hy]], (Hle h' x Hx') as [[-> Hb'] | [Hn2 Hy']]; [done| | |eauto].
    + subst. by destruct (Hn2 (H2 _ _ _ Hy' Ht)).
    + subst. by destruct (Hn1 (H2 _ _ _ Hy Ht)).
  - intros v0 V0 E0 [[<- <-]|[_ HV0]]%lookup_insert_Some HE0; [|eauto]. replace E0 with E in * by congruence.
    specialize (H5 t T e E HT He HE). rewrite Hpc in H5. cbn in H5. split; [lia|]. intros _. congruence.
  - intros t0 T0 e0 E0 [[<- <-]|[_ HT0]]%lookup_insert_Some He0 HE0; [|eauto].
    unfold task_boot in Hn. by destruct (t_pc T').
Qed.

Lemma boot_after_above last now : 0 <= last < 2 ^ 64 - 1 -> last < boot_after last now <= Z.max now (last + 1).
Proof. intros. unfold boot_after, wrapping_add. rewrite wrap_small by (unfold in_width; lia). lia. Qed.

(** A vacant entry whose holder waits for nothing has no VM. *)
Lemma vacant_dead s t T e E :
  node_inv s -> n_tasks s !! t = Some T -> t_entry T = Some e -> n_entries s !! e = Some E ->
  vacant (t_pc T) = true -> awaits (t_pc T) = None ->
  (forall v V, n_threads s !! v = Some V -> v_entry V = e -> ~ live V) /\
  (forall t0 T0, n_tasks s !! t0 = Some T0 -> t0 <> t -> t_entry T0 = Some e -> task_boot T0 = None).
Proof.
  intros Hi HT He HE Hv Ha. assert (holds (t_pc T) = true) as Hh by by destruct (t_pc T). split.
  - intros v V HV Hve Hlv. pose proof (eo_live _ _ _ _ (in_entry _ _ _ Hi e E HE) v V HV Hve Hlv) as Hc.
    rewrite (current_holder _ _ _ t T e E Hi HT Hh He HE) in Hc. unfold next_current in Hc.
    rewrite (to_vacant _ _ _ _ (in_task _ _ _ Hi t T HT) e E Hv He HE) in Hc. congruence.
  - intros t0 T0 HT0 Hne He0. destruct (task_boot T0) eqn:Hb; [|done].
    destruct Hne. apply (holder_unique _ _ _ t T t0 T0 e Hi HT Hh He HT0); [|done].
    unfold task_boot in Hb. by destruct (t_pc T0).
Qed.

Lemma boots_grow last last' en ta th : boots last en ta th -> last <= last' -> boots last' en ta th.
Proof.
  intros [H0 H1 H2 H3 H4 H5] Hle. split; try done.
  - lia.
  - intros h b Hb. specialize (H1 h b Hb). lia.
  - intros e E HE. specialize (H3 e E HE). lia.
Qed.

(** A new entry has started nothing. *)
Lemma boots_new last en ta th e E :
  boots last en ta th -> en !! e = None -> e_last_boot E = 0 ->
  (forall v V, th !! v = Some V -> v_entry V <> e) -> (forall t T, ta !! t = Some T -> t_entry T <> Some e) ->
  boots last (<[ e := E ]> en) ta th.
Proof.
  intros [H0 H1 H2 H3 H4 H5] Hf Hz Hth Hta. split; try done.
  - intros e0 E0 [[<- <-]|[_ HE0]]%lookup_insert_Some; [lia|eauto].
  - intros v V E0 HV [[Heq <-]|[_ HE0]]%lookup_insert_Some; [by destruct (Hth v V HV)|eauto].
  - intros t T e0 E0 HT He0 [[Heq <-]|[_ HE0]]%lookup_insert_Some; [by destruct (Hta t T HT); subst|eauto].
Qed.

Lemma task_step_boots s t a s' :
  node_inv s -> node_boots s -> n_last_boot s < 2 ^ 64 - 1 -> task_step s t a = Some s' ->
  node_boots s' /\ n_last_boot s <= n_last_boot s' <= Z.max (a_now a) (n_last_boot s + 1).
Proof.
  intros Hi Hb Hlast. pose proof (bo_last _ _ _ _ Hb) as H0.
  pose proof (boot_after_above (n_last_boot s) (a_now a) ltac:(lia)) as Hnew.
  unfold task_step. destruct (n_tasks s !! t) as [T|] eqn:HT; [|done].
  destruct (t_pc T) eqn:Hpc.
  4-25: destruct (t_entry T) as [e|] eqn:He; [|done]; destruct (n_entries s !! e) as [E|] eqn:HE; [|done].
  all: unfold op_permit, op_check, find in *; operations.
  all: intros Hs; repeat case_match; simplify_eq; try done; unfold node_boots; (split; [|cbn; lia]); cbn.
  all: try (by apply boots_any).
  all: try (by apply boots_any; [eapply boots_entry|]).
  all: try (by apply boots_any; [eapply boots_thread; [eapply boots_entry|..]|]).
  - case_bool_decide as Hf; [done|]. apply eq_None_not_Some in Hf. apply boots_any; [|done]. apply boots_new; try done.
    + intros v V HV Heq. destruct (in_thread _ _ _ Hi v V HV). congruence.
    + intros t0 T0 HT0 He0. destruct (to_entry _ _ _ _ (in_task _ _ _ Hi t0 T0 HT0) _ He0). congruence.
  - destruct (vacant_dead s t T e E Hi HT He HE) as [Hd Ho]; [by rewrite Hpc..|].
    pose proof (bo_entry _ _ _ _ Hb e E HE). apply boots_save; try done; [|lia].
    eapply boots_grow; [done|lia].
  - eapply boots_number; [done|lia|done].
  - destruct (vacant_dead s t T e E Hi HT He HE) as [Hd Ho]; [by rewrite Hpc..|].
    pose proof (bo_task _ _ _ _ Hb t T e E HT He HE) as Hpl. rewrite Hpc in Hpl. cbn in Hpl.
    assert (boot_of (n_tasks s) (n_threads s) (inl t) = Some boot) as Hbt by (cbn; rewrite HT; cbn; unfold task_boot; by rewrite Hpc).
    pose proof (bo_le _ _ _ _ Hb _ _ Hbt). apply boots_save; try done; [lia|].
    intros x Hx. exists T. split; [done|]. unfold task_boot in *. by rewrite Hpc.
  - case_bool_decide as Hf; [done|]. eapply boots_spawn; try done. by apply eq_None_not_Some.
Qed.

Lemma thread_step_boots s v h s' :
  node_boots s -> thread_step s v h = Some s' -> node_boots s' /\ n_last_boot s' = n_last_boot s.
Proof.
  intros Hb. unfold thread_step. destruct (n_threads s !! v) as [V|] eqn:HV; [|done].
  destruct (n_entries s !! v_entry V) as [E|] eqn:HE; [|done].
  destruct (v_phase V) eqn:Hph, h; try done.
  all: assert (live V) as Hlv by (unfold live; congruence).
  all: repeat case_match; intros [= <-]; unfold node_boots, release; repeat case_match; (split; [|done]); cbn.
  all: eapply boots_thread; try done; by eapply boots_entry.
Qed.
