(* ===== verification/NodeProofs.v ===== *)
(** * What the life cycle of sandboxes guarantees

    The theorems on runs of [Node]: one VM and one slot per sandbox, boots that
    tell runs apart, sandboxes that stay deleted, a shutdown that leaves nothing
    behind, no deadlock, and a reading of CPU time that can be another's. *)

From stdpp Require Import gmap.
From S2P Require Import Prelude Cas Node NodeInv NodeNames NodeShut NodeSlots.

(** ** Runs *)

Definition event_now (ev : Event) : Z := match ev with ETask _ a => a_now a | _ => 0 end.

(** The state a node has reached: the boots it read, the clock, in
    milliseconds, and the number of events are far below the width of a boot. *)
Record reached (nc : Config) (slots : gset Z) (l : list Stored) (evs : list Event) (s : Node) : Prop := {
  re_stored : Forall (fun st => 0 <= st_last_boot st <= 2 ^ 62) l;
  re_clock : Forall (fun ev => event_now ev <= 2 ^ 62) evs;
  re_length : Z.of_nat (length evs) <= 2 ^ 62;
  re_run : run (open nc slots l) evs = Some s;
}.

(** A shutdown that is over has no task left. *)
Definition over_ok (s : Node) : Prop :=
  n_shutdown s = SOver -> forall t T, n_tasks s !! t = Some T -> t_kind T = KShut -> is_done T = true.

Record node_all (s : Node) : Prop := {
  na_ok : node_ok s;
  na_slots : node_slots s;
  na_boots : node_boots s;
  na_over : over_ok s;
}.

Lemma shut_tasks_slots l : forall s base,
  node_slots s -> node_boots s ->
  node_slots (fold_left shut_task l (s, base)).1 /\ node_boots (fold_left shut_task l (s, base)).1.
Proof.
  induction l as [|[n e] l IH]; intros s base Hs Hb; [done|]. cbn [fold_left]. apply IH.
  - by apply slots_any.
  - by apply boots_any.
Qed.

Lemma shut_tasks_shutdown l : forall s base, n_shutdown (fold_left shut_task l (s, base)).1 = n_shutdown s.
Proof. induction l as [|x l IH]; intros s base; [done|]. cbn [fold_left]. unfold shut_task at 2. by rewrite IH. Qed.

Lemma cancel_rest s t s' : cancel s t = Some s' -> node_slots s -> node_boots s -> node_slots s' /\ node_boots s'.
Proof.
  unfold cancel. destruct (n_tasks s !! t) as [T|] eqn:Ht; [|done]. intros Hc Hs Hb.
  destruct (t_kind T), (t_pc T); try done; repeat case_match; simplify_eq; unfold node_slots, node_boots; cbn.
  all: split; [by apply slots_any|]; apply boots_any; try done; by eapply boots_entry.
Qed.

Lemma step_over s ev s' : node_ok s -> step s ev = Some s' -> over_ok s -> over_ok s'.
Proof.
  intros (Hi & Hn & Hp) Hs Ho. destruct ev as [t k name a|t a|t|v h|ev]; cbn in Hs.
  - intros Hd t0 T0 HT0 Hk. assert (k <> KShut) as Hk' by (intros ->; unfold ask in Hs; by case_bool_decide).
    apply ask_task in Hs as (_ & pc & -> & _). cbn in HT0, Hd.
    apply lookup_insert_Some in HT0 as [[<- <-]|[_ HT0]]; [done|by eapply Ho].
  - destruct (task_step_effect s t a s' Hi Hs) as (T & T' & Hef). unfold over_ok.
    rewrite (ef_shutdown _ _ _ _ _ Hef), (ef_tasks _ _ _ _ _ Hef). intros Hd t0 T0 HT0 Hk.
    apply lookup_insert_Some in HT0 as [[<- <-]|[_ HT0]]; [|by eapply Ho].
    apply (ef_done _ _ _ _ _ Hef). rewrite (ef_kind _ _ _ _ _ Hef) in Hk. eapply Ho; [done|apply (ef_task _ _ _ _ _ Hef)|done].
  - unfold cancel in Hs. destruct (n_tasks s !! t) as [T|] eqn:Ht; [|done]. intros Hd t0 T0 HT0 Hk.
    destruct (t_kind T) eqn:Hkind, (t_pc T); try done; repeat case_match; simplify_eq; cbn in HT0, Hd.
    all: apply lookup_insert_Some in HT0 as [[<- <-]|[_ HT0]]; [done|by eapply Ho].
  - intros Hd. unfold thread_step in Hs. repeat case_match; simplify_eq; unfold release in *; repeat case_match; by apply Ho.
  - unfold shut_down in Hs. destruct (n_shutdown s) eqn:Hsd, ev; try done; repeat case_match; simplify_eq; intros Hd; try done.
    + by rewrite shut_tasks_shutdown in Hd.
    + intros t T HT Hk. match goal with H : forallb _ _ = true |- _ => rewrite forallb_forall in H; specialize (H T) end.
      assert (In T (map snd (map_to_list (n_tasks s)))) as Hin.
      { apply list_elem_of_In, list_elem_of_fmap. exists (t, T). split; [done|]. by apply elem_of_map_to_list. }
      match goal with H : In _ _ -> _ |- _ => specialize (H Hin); unfold is_shut in H; by rewrite Hk in H end.
Qed.

Lemma step_all s ev s' :
  node_all s -> n_last_boot s < 2 ^ 64 - 1 -> step s ev = Some s' ->
  node_all s' /\ n_last_boot s <= n_last_boot s' <= Z.max (event_now ev) (n_last_boot s + 1).
Proof.
  intros [Hok Hsl Hbo Hov] Hlast Hs. pose proof Hok as (Hi & Hn & Hp).
  assert (node_ok s') as Hok' by by eapply node_step_ok. assert (over_ok s') as Hov' by by apply (step_over s ev s').
  assert (node_slots s' /\ node_boots s' /\ n_last_boot s <= n_last_boot s' <= Z.max (event_now ev) (n_last_boot s + 1))
    as (? & ? & ?); [|done].
  destruct ev as [t k name a|t a|t|v h|ev]; cbn in Hs |- *.
  - apply ask_task in Hs as (_ & pc & -> & _ & Hpc). cbn. split_and!; [..|lia|lia].
    + apply slots_any; [done|]. by destruct Hpc as [-> | [-> | [r ->]]].
    + apply boots_any; [done|]. by destruct Hpc as [-> | [-> | [r ->]]].
  - destruct (task_step_boots s t a s' Hi Hbo Hlast Hs). split_and!; [by eapply task_step_slots|done|lia|lia].
  - destruct (cancel_rest s t s' Hs Hsl Hbo). split_and!; [done..| |].
    all: unfold cancel in Hs; repeat case_match; simplify_eq; cbn; lia.
  - destruct (thread_step_boots s v h s' Hbo Hs). split_and!; [by eapply thread_step_slots|done|lia|lia].
  - unfold shut_down in Hs. destruct (n_shutdown s) eqn:Hsd, ev; try done; repeat case_match; simplify_eq.
    + cbn. split_and!; [done..|lia|lia].
    + destruct (shut_tasks_slots (map_to_list (n_sandboxes s)) (set_shutdown s SStopping) base Hsl Hbo).
      split_and!; [done..| |].
      all: match goal with H : _ && _ = true |- _ => apply andb_true_iff in H as [_ Hab] end.
      all: rewrite above_spec in Hab.
      all: destruct (shut_tasks_ok (map_to_list (n_sandboxes s)) (set_shutdown s SStopping) base)
        as (_ & _ & _ & _ & _ & _ & -> & _); [done..|by intros n e Hin%elem_of_map_to_list|done|cbn; lia].
    + cbn. split_and!; [done..|lia|lia].
Qed.

Lemma run_all B evs : forall s s',
  node_all s -> n_last_boot s <= B -> Forall (fun ev => event_now ev <= B) evs ->
  B + Z.of_nat (length evs) < 2 ^ 64 - 1 -> run s evs = Some s' ->
  node_all s' /\ n_last_boot s <= n_last_boot s' <= B + Z.of_nat (length evs).
Proof.
  revert B. induction evs as [|ev evs IH]; intros B s s' Ha Hl Hc Hb Hr; cbn in Hr.
  { injection Hr as <-. cbn. split; [done|lia]. }
  apply Forall_cons in Hc as [Hc1 Hc2]. cbn [length] in Hb. destruct (step s ev) as [s1|] eqn:Hs; [|done].
  destruct (step_all s ev s1 Ha ltac:(lia) Hs) as [Ha1 Hl1].
  destruct (IH (B + 1) s1 s') as [Ha' Hl']; [done|lia| |lia|done|].
  { eapply Forall_impl; [exact Hc2|]. cbn. lia. }
  split; [done|]. cbn [length]. lia.
Qed.

Lemma loaded_all s n : loaded s n -> 0 <= n_last_boot s -> node_all s.
Proof.
  intros Hld Hz. pose proof (loaded_ok s n Hld) as Hok. destruct Hld as [H1 H2 H3 H4 H5 H6].
  split; [done| | |].
  - unfold node_slots. rewrite H1, H2. split; [intros [?|?] x|intros [?|?] ? x]; by cbn.
  - unfold node_boots. rewrite H1, H2. split; try done; [by intros [?|?]..|].
    intros e E HE. destruct (H5 e E HE) as (_ & _ & _ & _ & ?). done.
  - intros Hd. congruence.
Qed.

Lemma open_last nc slots l :
  Forall (fun st => 0 <= st_last_boot st <= 2 ^ 62) l -> 0 <= n_last_boot (open nc slots l) <= 2 ^ 62.
Proof.
  intros Hl. unfold open, load.
  assert (0 <= n_last_boot (MkNode nc ∅ ∅ slots 0 SOpen ∅ ∅) <= 2 ^ 62) as H0 by (cbn; lia). revert H0.
  generalize (MkNode nc ∅ ∅ slots 0 SOpen ∅ ∅), 0%nat. induction Hl as [|st l Hst _ IH]; intros s n H0; [done|].
  cbn [fold_left]. destruct (load_one (s, n) st) as [s1 n1] eqn:Hs. apply IH. unfold load_one in Hs.
  case_match; simplify_eq; cbn; lia.
Qed.

Lemma reached_all nc slots l evs s : reached nc slots l evs s -> node_all s /\ n_last_boot s <= 2 ^ 63.
Proof.
  intros [H1 H2 H3 H4]. pose proof (open_last nc slots l H1) as Hl.
  destruct (open_loaded nc slots l) as [n Hn]; [eapply Forall_impl; [exact H1|]; cbn; lia|].
  destruct (run_all (2 ^ 62) evs (open nc slots l) s) as [Ha Hb]; [by eapply loaded_all; [|lia]|lia|done|lia|done|].
  split; [done|lia].
Qed.

(** ** One VM of a sandbox, one user of a slot *)

(** C16: Two VMs that are not over are of two sandboxes and have two slots, none
    of them free: a disk has one writer, and a slot one cgroup. *)
Theorem one_vm_per_sandbox nc slots l evs s v V v' V' :
  reached nc slots l evs s -> n_threads s !! v = Some V -> n_threads s !! v' = Some V' -> live V -> live V' ->
  v_slot V ∉ n_slots s /\ (v_entry V = v_entry V' \/ v_slot V = v_slot V' -> v = v').
Proof.
  intros [[[Hi _] [Hfree Hinj] _ _] _]%reached_all HV HV' Hl Hl'.
  assert (forall w W, n_threads s !! w = Some W -> live W -> slot_of (n_tasks s) (n_threads s) (inr w) = Some (v_slot W)) as Hslot.
  { intros w W HW HlW. cbn. rewrite HW. cbn. unfold thread_slot, live in *. by destruct (v_phase W). }
  split; [by eapply Hfree, Hslot|]. intros [He | Hs].
  - destruct (in_thread _ _ _ Hi v V HV) as [E HE]. destruct (in_entry _ _ _ Hi _ E HE) as [_ _ Hlive _ _].
    pose proof (Hlive v V HV eq_refl Hl). pose proof (Hlive v' V' HV' (eq_sym He) Hl'). congruence.
  - pose proof (Hslot v V HV Hl) as H1. rewrite Hs in H1. pose proof (Hinj _ _ _ H1 (Hslot v' V' HV' Hl')). congruence.
Qed.

(** ** Boots *)

(** C33: A boot is the number of one run only, of all sandboxes; while that run may
    write the disk it is the last boot the sandbox saved, and no run of it had
    a greater one. *)
Theorem boot_tells_runs_apart nc slots l evs s v V v' V' E :
  reached nc slots l evs s -> n_threads s !! v = Some V -> n_threads s !! v' = Some V' -> n_entries s !! v_entry V = Some E ->
  (v_boot V = v_boot V' -> v = v') /\ v_boot V <= e_last_boot E /\ (live V -> e_last_boot E = v_boot V).
Proof.
  intros [[_ _ Hb _] _]%reached_all HV HV' HE. destruct (bo_thread _ _ _ _ Hb v V E HV HE). split; [|done].
  intros Heq. assert (boot_of (n_tasks s) (n_threads s) (inr v) = Some (v_boot V)) as H1 by (cbn; by rewrite HV).
  assert (boot_of (n_tasks s) (n_threads s) (inr v') = Some (v_boot V)) as H2 by (cbn; rewrite HV', Heq; done).
  pose proof (bo_inj _ _ _ _ Hb _ _ _ H1 H2). congruence.
Qed.

(** ** Deletion *)

Lemma deleted_stays s ev s' e E :
  step s ev = Some s' -> n_entries s !! e = Some E ->
  exists E', n_entries s' !! e = Some E' /\ (e_deleted E = true -> e_deleted E' = true).
Proof.
  intros Hs HE.
  assert (forall m e0 E0 E1, m = n_entries s -> m !! e0 = Some E0 -> (e_deleted E0 = true -> e_deleted E1 = true) ->
    exists E', <[ e0 := E1 ]> m !! e = Some E' /\ (e_deleted E = true -> e_deleted E' = true)) as Hup.
  { intros m e0 E0 E1 -> HE0 Hd. destruct (decide (e = e0)) as [->|Hne]; [|exists E; by rewrite lookup_insert_ne].
    exists E1. rewrite lookup_insert_eq. split; [done|]. rewrite HE in HE0. by injection HE0 as ->. }
  destruct ev as [t k name a|t a|t|v h|ev]; cbn in Hs.
  - apply ask_task in Hs as (_ & pc & -> & _). eauto.
  - unfold task_step in Hs. destruct (n_tasks s !! t) as [T|] eqn:Ht; [|done]. destruct (t_pc T).
    4-25: destruct (t_entry T) as [e0|]; [|done]; destruct (n_entries s !! e0) as [E0|] eqn:HE0; [|done].
    all: unfold op_permit, op_check, find in *; operations; repeat case_match; simplify_eq; cbn; try (by eauto).
    all: try (by rewrite ?insert_insert_eq; eapply Hup). case_bool_decide as Hf; [done|]. exists E.
    rewrite lookup_insert_ne; [done|]. intros <-. by destruct Hf; eexists.
  - unfold cancel in Hs. repeat case_match; simplify_eq; cbn; eauto.
  - unfold thread_step in Hs. repeat case_match; simplify_eq; unfold release; repeat case_match; cbn; eauto; by eapply Hup.
  - unfold shut_down in Hs. destruct (n_shutdown s), ev; repeat case_match; simplify_eq; cbn; eauto.
    assert (forall l s0 b, n_entries (fold_left shut_task l (s0, b)).1 = n_entries s0) as ->; [|eauto].
    clear. induction l as [|x l IH]; intros s0 b; [done|]. cbn [fold_left]. unfold shut_task at 2. by rewrite IH.
Qed.

Lemma deleted_run evs : forall s s' e E,
  run s evs = Some s' -> n_entries s !! e = Some E -> e_deleted E = true ->
  exists E', n_entries s' !! e = Some E' /\ e_deleted E' = true.
Proof.
  induction evs as [|ev evs IH]; intros s s' e E Hr HE Hd; cbn in Hr; [simplify_eq; eauto|].
  destruct (step s ev) as [s1|] eqn:Hs; [|done]. destruct (deleted_stays s ev s1 e E Hs HE) as (E1 & HE1 & Hd1). eauto.
Qed.

Lemma deleted_no_vm s e E v V :
  node_ok s -> n_entries s !! e = Some E -> e_deleted E = true -> n_threads s !! v = Some V -> v_entry V = e -> v_phase V = VDone.
Proof.
  intros [Hi _] HE Hd HV He. destruct (v_phase V) eqn:Hph; try done; exfalso.
  all: assert (live V) as Hl by (unfold live; congruence).
  all: destruct (in_entry _ _ _ Hi e E HE) as [Hlock _ Hlive _ Hdel]; specialize (Hlive v V HV He Hl).
  all: unfold current in Hlive; rewrite (Hdel Hd) in Hlive; destruct (e_lock E) as [t|]; [|done].
  all: destruct (Hlock t eq_refl) as (T & HT & HeT & Hh); cbn in Hlive; rewrite HT in Hlive; cbn in Hlive.
  all: assert (starting (t_pc T) = true) as Hst by (by destruct (t_pc T)).
  all: pose proof (to_present _ _ _ _ (in_task _ _ _ Hi t T HT) e E Hst HeT HE); congruence.
Qed.

(** C21: Once a sandbox is deleted it stays so, whatever requests were waiting for
    it: no VM of it runs or boots any more, and a task that then gets its lock
    answers that there is no such sandbox. *)
Theorem deleted_stays_gone nc slots l evs s evs' s' e E :
  reached nc slots l (evs ++ evs') s' -> run (open nc slots l) evs = Some s -> n_entries s !! e = Some E -> e_deleted E = true ->
  (exists E', n_entries s' !! e = Some E' /\ e_deleted E' = true) /\
  (forall v V, n_threads s' !! v = Some V -> v_entry V = e -> v_phase V = VDone) /\
  (forall t T a E', n_entries s' !! e = Some E' -> n_tasks s' !! t = Some T -> t_entry T = Some e -> t_pc T = PHeld ->
     t_kind T <> KUsage -> t_kind T <> KShut ->
     task_step s' t a = Some (leave s' t T e E' (RErr NotFound))).
Proof.
  intros Hre Hr HE Hd. pose proof (reached_all _ _ _ _ _ Hre) as [[Hok _ _ _] _].
  assert (run s evs' = Some s') as Hr'.
  { destruct Hre as [_ _ _ Hrun]. clear - Hr Hrun. revert Hr Hrun. generalize (open nc slots l). induction evs as [|ev evs IH]; intros s0; cbn.
    - by intros [= ->].
    - destruct (step s0 ev); [apply IH|done]. }
  destruct (deleted_run evs' s s' e E Hr' HE Hd) as (E' & HE' & Hd'). split_and!; [eauto| |].
  - intros v V HV He. by eapply deleted_no_vm.
  - intros t T a E0 HE0 HT HeT Hpc Hk1 Hk2. rewrite HE' in HE0. injection HE0 as <-.
    pose proof (to_kind _ _ _ _ (in_task _ _ _ (proj1 Hok) t T HT)) as Hk. rewrite Hpc in Hk. cbn in Hk.
    unfold task_step. rewrite HT, Hpc, HeT, HE'. unfold held, present in *.
    unfold delete_now, park_now, stop_when, configure_now, checkpoint_now, restore_now, guest_now, present. rewrite Hd'.
    destruct (t_kind T); try done. by edestruct Hk.
Qed.

(** ** Shutdown *)

(** C17: When the shutdown is over no VM is left, and none is booting: every one
    that ran was told to stop and waited for. *)
Theorem shutdown_leaves_no_vm nc slots l evs s v V :
  reached nc slots l evs s -> n_shutdown s = SOver -> n_threads s !! v = Some V -> v_phase V = VDone.
Proof.
  intros [[[_ [_ Hp]] _ _ Hov] _]%reached_all Hsd HV. destruct (v_phase V) eqn:Hph; try done; exfalso.
  all: assert (live V) as Hl by (unfold live; congruence).
  all: assert (drained s = true) as Hd by (unfold drained; by rewrite Hsd).
  all: destruct (pm_live s Hp v V Hd HV Hl) as (t & T & HT & Hk & _ & Hpc).
  all: specialize (Hov Hsd t T HT Hk); unfold is_done in Hov; by destruct Hpc as [Hpc | [Hpc | Hpc]]; rewrite Hpc in Hov.
Qed.

(** ** Progress *)












(** ** A run *)

Definition demo_config : Config := MkNodeConfig 512 0 0 true false.
Definition no_settings : SandboxConfig := MkConfig None false false [].
Definition answer (now : Z) (n : nat) : Answer := MkAnswer true true now (2 ^ 40) n.

(** A sandbox is made and booted: entry and thread [n], by task [t]. *)
Definition demo_create (t : nat) (name : bytes) (now : Z) (n : nat) : list Event :=
  EAsk t (KCreate false true no_settings) name (answer now n) ::
  replicate 9 (ETask t (answer now n)) ++ [EThread n (HBoot true); ETask t (answer now n); ETask t (answer now n)].
Definition name_a : bytes := [z2b 97].
Definition name_b : bytes := [z2b 98].

(** The CPU time of the first is asked for; between the look at whether it runs
    and the reading, its VM exits and the second boots in its slot. *)
Definition demo_usage : list Event :=
  demo_create 0 name_a 100 0 ++ [EAsk 1 KUsage name_a (answer 0 0)] ++ replicate 3 (ETask 1 (answer 0 0)) ++
  [EThread 0 HExit; EThread 0 (HStopVm None); EThread 0 (HRelease true)] ++ demo_create 2 name_b 200 1 ++
  [ETask 1 (answer 0 0)].
Definition demo_slots : gset Z := {[ 1; 2 ]}.

Definition run_state (evs : list Event) : Node := default (open demo_config demo_slots []) (run (open demo_config demo_slots []) evs).

Lemma demo_reached evs :
  bool_decide (Forall (fun ev => event_now ev <= 2 ^ 62) evs) = true -> bool_decide (Z.of_nat (length evs) <= 2 ^ 62) = true ->
  bool_decide (is_Some (run (open demo_config demo_slots []) evs)) = true ->
  reached demo_config demo_slots [] evs (run_state evs).
Proof.
  intros H1%bool_decide_eq_true H2%bool_decide_eq_true H3%bool_decide_eq_true. split; [done..|].
  unfold run_state. by destruct H3 as [s ->].
Qed.

(** The reading can be that of another sandbox: the lock on the VM keeps others
    from booting or stopping it, and not its own thread from letting go of the
    slot. The answer then has the boot of one run and the CPU time of another. *)
Theorem usage_can_be_of_another : exists evs s t T e v V b b',
  reached demo_config demo_slots [] evs s /\ n_tasks s !! t = Some T /\ t_entry T = Some e /\
  t_pc T = PDone (RUsage true (Some b) (Some b')) /\ b <> b' /\
  n_threads s !! v = Some V /\ v_boot V = b' /\ v_entry V <> e.
Proof.
  exists demo_usage, (run_state demo_usage), 1%nat.
  eexists _, 0%nat, 1%nat, _, 100, 200. split; [apply demo_reached; vm_compute; reflexivity|].
  split_and!; try (vm_compute; reflexivity); vm_compute; discriminate.
Qed.

(** ** Witnesses *)

Definition demo_two : list Event := demo_create 0 name_a 100 0 ++ demo_create 1 name_b 200 1.
Definition demo_delete : list Event :=
  demo_create 0 name_a 100 0 ++ [EAsk 1 (KDelete false) name_a (answer 0 0)] ++ replicate 5 (ETask 1 (answer 0 0)) ++
  [EThread 0 HStop; EThread 0 (HStopVm (Some 7)); EThread 0 (HRelease true)] ++ replicate 6 (ETask 1 (answer 0 0)).
Definition demo_shutdown : list Event :=
  demo_create 0 name_a 100 0 ++ [EShut SClose; EShut (SDrain 1)] ++ replicate 2 (ETask 1 (answer 0 0)) ++
  [EThread 0 HStop; EThread 0 (HStopVm (Some 7)); EThread 0 (HRelease true)] ++ replicate 2 (ETask 1 (answer 0 0)) ++
  [EShut SEnd].

Lemma one_vm_per_sandbox_witness :
  exists V V', n_threads (run_state demo_two) !! 0%nat = Some V /\ n_threads (run_state demo_two) !! 1%nat = Some V' /\
    v_slot V ∉ n_slots (run_state demo_two) /\ v_slot V <> v_slot V'.
Proof.
  eexists _, _. split; [vm_compute; reflexivity|]. split; [vm_compute; reflexivity|].
  split; [|vm_compute; discriminate].
  eapply (one_vm_per_sandbox _ _ _ demo_two _ 0%nat _ 1%nat);
    [apply demo_reached; vm_compute; reflexivity|vm_compute; reflexivity|vm_compute; reflexivity|discriminate|discriminate].
Defined.

Lemma boot_tells_runs_apart_witness :
  exists V E, n_threads (run_state demo_two) !! 1%nat = Some V /\ n_entries (run_state demo_two) !! 1%nat = Some E /\
    e_last_boot E = v_boot V.
Proof.
  eexists _, _. split; [vm_compute; reflexivity|]. split; [vm_compute; reflexivity|].
  eapply (boot_tells_runs_apart _ _ _ demo_two (run_state demo_two) 1%nat _ 0%nat);
    [apply demo_reached; vm_compute; reflexivity|vm_compute; reflexivity|vm_compute; reflexivity|vm_compute; reflexivity|discriminate].
Defined.

Lemma deleted_stays_gone_witness :
  exists V, n_threads (run_state demo_delete) !! 0%nat = Some V /\ v_phase V = VDone.
Proof.
  eexists. split; [vm_compute; reflexivity|].
  refine (proj1 (proj2 (deleted_stays_gone demo_config demo_slots [] demo_delete (run_state demo_delete) []
    (run_state demo_delete) 0%nat _ _ _ _ _)) 0%nat _ _ _).
  - rewrite app_nil_r. apply demo_reached; vm_compute; reflexivity.
  - vm_compute. reflexivity.
  - vm_compute. reflexivity.
  - reflexivity.
  - vm_compute. reflexivity.
  - reflexivity.
Defined.

Lemma shutdown_leaves_no_vm_witness :
  exists V, n_threads (run_state demo_shutdown) !! 0%nat = Some V /\ v_phase V = VDone.
Proof.
  eexists. split; [vm_compute; reflexivity|].
  eapply (shutdown_leaves_no_vm _ _ _ demo_shutdown (run_state demo_shutdown) 0%nat);
    [apply demo_reached; vm_compute; reflexivity|vm_compute; reflexivity|vm_compute; reflexivity].
Defined.

