(* ===== verification/SandboxFiles.v ===== *)
(** * The files of a sandbox, across crashes

    [crates/shuru-node/src/serve/sandboxes.rs]: how the directory of a sandbox
    is made, its record and config replaced, its disk restored, parked and
    removed, so that a crash of the host never leaves one that looks complete
    and is not.

    Names are those the code builds, by constructor. A program is a tree of
    file system calls, each of which may fail; a crash may come before any of
    them. A crash may undo the last changes of a directory since it was
    synced, of each directory on its own, and a file whose bytes were not
    synced may hold anything. *)

From stdpp Require Import gmap.
From S2P Require Import Prelude Cas.

(** ** File system *)

(** [<id>], [.<id>.partial], [.<id>.deleted]; [sandbox.json], [config.json] and
    their partial files; [disk]; a file of [import]; [<name>.disk] and its
    partial file of [parked]. *)
Inductive Name :=
  | NId (id : nat) | NPartial (id : nat) | NDeleted (id : nat)
  | NRecord | NRecordPartial | NConfig | NConfigPartial | NDisk
  | NFile (n : nat) | NParked (n : nat) | NParkedPartial (n : nat).
#[export] Instance Name_eq_dec : EqDecision Name.
Proof. solve_decision. Defined.
#[export] Instance Name_countable : Countable Name.
Proof.
  refine (inj_countable' (fun n => match n with
      | NId i => (0, i)%nat | NPartial i => (1, i)%nat | NDeleted i => (2, i)%nat | NRecord => (3, 0)%nat
      | NRecordPartial => (4, 0)%nat | NConfig => (5, 0)%nat | NConfigPartial => (6, 0)%nat
      | NDisk => (7, 0)%nat | NFile i => (8, i)%nat | NParked i => (9, i)%nat | NParkedPartial i => (10, i)%nat end)
    (fun p => match p with
      | (0, i)%nat => NId i | (1, i)%nat => NPartial i | (2, i)%nat => NDeleted i | (3, _)%nat => NRecord
      | (4, _)%nat => NRecordPartial | (5, _)%nat => NConfig | (6, _)%nat => NConfigPartial | (7, _)%nat => NDisk
      | (8, i)%nat => NFile i | (9, i)%nat => NParked i | (_, i) => NParkedPartial i end) _).
  by intros [].
Defined.

Inductive FNode := FileAt (i : nat) | DirAt (d : nat).
#[export] Instance FNode_eq_dec : EqDecision FNode.
Proof. solve_decision. Defined.
Notation Entries := (gmap Name FNode).

(** A directory: its names, and what they were since it was last synced. *)
Record Dir := MkDir { d_now : Entries; d_past : list Entries }.
(** A file: its bytes, and whether they are on disk. *)
Record Bytes := MkBytes { f_data : bytes; f_synced : bool }.
Record FS := MkFS { fs_dirs : gmap nat Dir; fs_files : gmap nat Bytes; fs_next : nat }.

(** The state directories. *)
Definition SANDBOXES : nat := 0.
Definition IMPORT : nat := 1.
Definition PARKED : nat := 2.

(** A state directory, a name in one, or a name in a directory of one. *)
Inductive Loc := Top (d : nat) | At (d : nat) (n : Name) | In (d : nat) (sub n : Name).

Definition entry (fs : FS) (d : nat) (n : Name) : option FNode := D ← fs_dirs fs !! d; d_now D !! n.
(** The directory a path leads to, and the name in it. *)
Definition parent (fs : FS) (l : Loc) : option (nat * Name) :=
  match l with
  | Top _ => None
  | At d n => _ ← fs_dirs fs !! d; Some (d, n)
  | In d sub n =>
      match entry fs d sub with
      | Some (DirAt d') => _ ← fs_dirs fs !! d'; Some (d', n)
      | _ => None
      end
  end.
Definition resolve_at (fs : FS) (l : Loc) : option FNode :=
  match l with
  | Top d => _ ← fs_dirs fs !! d; Some (DirAt d)
  | _ => p ← parent fs l; entry fs p.1 p.2
  end.

Definition edit (f : Entries -> Entries) (d : nat) (fs : FS) : FS :=
  MkFS (alter (fun D => MkDir (f (d_now D)) (d_now D :: d_past D)) d (fs_dirs fs)) (fs_files fs) (fs_next fs).
Definition set_file (i : nat) (f : Bytes) (fs : FS) : FS := MkFS (fs_dirs fs) (<[ i := f ]> (fs_files fs)) (fs_next fs).
Definition new_file (fs : FS) : FS :=
  MkFS (fs_dirs fs) (<[ fs_next fs := MkBytes [] false ]> (fs_files fs)) (S (fs_next fs)).
Definition new_dir (fs : FS) : FS :=
  MkFS (<[ fs_next fs := MkDir ∅ [] ]> (fs_dirs fs)) (fs_files fs) (S (fs_next fs)).

Inductive Call :=
  | Mkdir (l : Loc)
  | Create (l : Loc)
  | Open (l : Loc)
  | Write (i : nat) (data : bytes)
  | CloneFrom (i : nat) (src : nat)
  | Size (i : nat)
  | SetLen (i : nat) (size : nat)
  | Sync (i : nat)
  | Rename (from to : Loc)
  | Remove (l : Loc)
  | RemoveAll (l : Loc).

(** How a call goes: whether it works, what a write that does not leaves in
    the file, and the order in which the names of a removed directory go,
    which is as far as a removal that fails got. A crash in the middle of a
    call is one after it failed there. *)
Record Outcome := MkOutcome { o_ok : bool; o_left : bytes; o_order : list Name }.

(** A handle or a size, or the error. *)
Inductive Answer := Got (i : nat) | NotFound | Refused.

Definition write (i : nat) (data : bytes) (o : Outcome) (fs : FS) : FS * Answer :=
  match fs_files fs !! i with
  | Some _ => if o_ok o then (set_file i (MkBytes data false) fs, Got i)
              else (set_file i (MkBytes (o_left o) false) fs, Refused)
  | None => (fs, Refused)
  end.

(** Whether [x] may take the place of [old]: a file of a file, a directory of
    an empty one. *)
Definition replaces (fs : FS) (x : FNode) (old : option FNode) : bool :=
  match x, old with
  | _, None | FileAt _, Some (FileAt _) => true
  | DirAt _, Some (DirAt d) => if fs_dirs fs !! d is Some D then bool_decide (d_now D = ∅) else false
  | _, _ => false
  end.

Definition call (c : Call) (o : Outcome) (fs : FS) : FS * Answer :=
  match c with
  | Mkdir l =>
      match parent fs l with
      | Some (d, n) =>
          if entry fs d n is Some _ then (fs, Refused)
          else if o_ok o then (edit <[ n := DirAt (fs_next fs) ]> d (new_dir fs), Got (fs_next fs)) else (fs, Refused)
      | None => (fs, NotFound)
      end
  | Create l =>
      match parent fs l with
      | Some (d, n) =>
          if entry fs d n is Some _ then (fs, Refused)
          else if o_ok o then (edit <[ n := FileAt (fs_next fs) ]> d (new_file fs), Got (fs_next fs)) else (fs, Refused)
      | None => (fs, NotFound)
      end
  | Open l =>
      match resolve_at fs l with
      | Some (FileAt i | DirAt i) => if o_ok o then (fs, Got i) else (fs, Refused)
      | None => (fs, NotFound)
      end
  | Write i data => write i data o fs
  | CloneFrom i src => if fs_files fs !! src is Some f then write i (f_data f) o fs else (fs, Refused)
  | Size i => if fs_files fs !! i is Some f then if o_ok o then (fs, Got (length (f_data f))) else (fs, Refused) else (fs, Refused)
  | SetLen i size =>
      match fs_files fs !! i with
      | Some f => if o_ok o then (set_file i (MkBytes (resize size (z2b 0) (f_data f)) false) fs, Got i) else (fs, Refused)
      | None => (fs, Refused)
      end
  | Sync i =>
      if negb (o_ok o) then (fs, Refused) else
      match fs_files fs !! i, fs_dirs fs !! i with
      | Some f, _ => (set_file i (MkBytes (f_data f) true) fs, Got i)
      | None, Some D => (MkFS (<[ i := MkDir (d_now D) [] ]> (fs_dirs fs)) (fs_files fs) (fs_next fs), Got i)
      | None, None => (fs, Refused)
      end
  | Rename from to =>
      match parent fs from, parent fs to, resolve_at fs from with
      | Some (d, n), Some (d', n'), Some x =>
          if o_ok o && replaces fs x (entry fs d' n') then (edit <[ n' := x ]> d' (edit (delete n) d fs), Got 0)
          else (fs, Refused)
      | _, _, _ => (fs, NotFound)
      end
  | Remove l =>
      match parent fs l, resolve_at fs l with
      | Some (d, n), Some (FileAt _) => if o_ok o then (edit (delete n) d fs, Got 0) else (fs, Refused)
      | Some _, Some (DirAt _) => (fs, Refused)
      | _, _ => (fs, NotFound)
      end
  | RemoveAll l =>
      match parent fs l, resolve_at fs l with
      | Some (d, n), Some (DirAt d') =>
          let fs := foldl (fun fs n => edit (delete n) d' fs) fs (o_order o) in
          if o_ok o then (edit (delete n) d fs, Got 0) else (fs, Refused)
      | Some _, Some (FileAt _) => (fs, Refused)
      | _, _ => (fs, NotFound)
      end
  end.

(** ** Programs *)

Inductive prog (A : Type) : Type :=
  | Ret (a : A)
  | Do (c : Call) (k : Answer -> prog A).
Arguments Ret {A} a.
Arguments Do {A} c k.

Fixpoint bind {A B} (p : prog A) (f : A -> prog B) : prog B :=
  match p with Ret a => f a | Do c k => Do c (fun r => bind (k r) f) end.

(** [c?]: goes on with the handle, or answers the error. *)
Definition tryc {A} (c : Call) (k : nat -> prog (option A)) : prog (option A) :=
  Do c (fun r => match r with Got i => k i | _ => Ret None end).
(** [let _ = c] *)
Definition ignore {A} (c : Call) (k : prog A) : prog A := Do c (fun _ => k).
(** [p?] *)
Definition andthen {A B} (p : prog (option A)) (k : A -> prog (option B)) : prog (option B) :=
  bind p (fun r => match r with Some a => k a | None => Ret None end).
Notation "'let*' x ':=' c 'in' k" := (tryc c (fun x => k)) (at level 10, x name, c at level 100, k at level 200) : shuru_scope.
Notation "c ';;*' k" := (ignore c k) (at level 60, right associativity) : shuru_scope.

(** A run: each call goes as the next of [os] says, and a crash comes before
    call number [n]. *)
Fixpoint exec {A} (n : nat) (os : list Outcome) (p : prog A) (fs : FS) : FS * option A :=
  match p, n with
  | Ret a, _ => (fs, Some a)
  | Do _ _, O => (fs, None)
  | Do c k, S n => let '(fs, r) := call c (default (MkOutcome true [] []) (head os)) fs in exec n (tail os) (k r) fs
  end.

(** What a crash leaves. *)
Record Disk := MkDisk { k_dirs : gmap nat Entries; k_files : gmap nat bytes }.

(** Each directory is as it was at some moment since it was last synced. Bytes
    that were synced are there. *)
Definition after_crash (fs : FS) (k : Disk) : Prop :=
  (forall d D, fs_dirs fs !! d = Some D -> exists E, k_dirs k !! d = Some E /\ E ∈ d_now D :: d_past D) /\
  (forall i f, fs_files fs !! i = Some f -> f_synced f = true -> k_files k !! i = Some (f_data f)).

(** The bytes of the file of that name in directory [d]. *)
Definition reads (k : Disk) (d : nat) (n : Name) : option bytes :=
  E ← k_dirs k !! d; x ← E !! n; match x with FileAt i => k_files k !! i | DirAt _ => None end.
Definition subdir (k : Disk) (d : nat) (n : Name) : option nat :=
  E ← k_dirs k !! d; x ← E !! n; match x with DirAt d' => Some d' | FileAt _ => None end.

(** ** What the daemon does *)

Section sandbox.
Context (id : nat).

Definition dir : Loc := At SANDBOXES (NId id).
Definition staging : Loc := At SANDBOXES (NPartial id).
Definition grave : Loc := At SANDBOXES (NDeleted id).
Definition in_dir (n : Name) : Loc := In SANDBOXES (NId id) n.
Definition in_staging (n : Name) : Loc := In SANDBOXES (NPartial id) n.

(** [File::open(dir)?.sync_all()?] *)
Definition sync_at {A} (l : Loc) (k : prog (option A)) : prog (option A) :=
  let* d := Open l in let* _ := Sync d in k.

(** [replace_json] of [name] in the directory of the sandbox, through a file
    synced under [partial]. *)
Definition written_json (name partial : Name) (value : bytes) : prog (option unit) :=
  let* i := Create (in_dir partial) in let* _ := Write i value in let* _ := Sync i in
  let* _ := Rename (in_dir partial) (in_dir name) in sync_at dir (Ret (Some tt)).
Definition replace_json (name partial : Name) (value : bytes) : prog (option unit) :=
  Remove (in_dir partial) ;;*
  bind (written_json name partial value) (fun written =>
    if written is Some u then Ret (Some u) else Remove (in_dir partial) ;;* Ret None).

(** The record with its boot, as [serde_json] writes it. *)
Context (record_json : Z -> bytes).

Definition save_boot (boot : Z) : prog (option unit) := replace_json NRecord NRecordPartial (record_json boot).

Definition restore_disk (boot : Z) (from : Loc) : prog (option unit) :=
  andthen (save_boot boot) (fun _ =>
    sync_at from (let* _ := Rename from (in_dir NDisk) in sync_at dir (Ret (Some tt)))).

(** [clone_file]: the handle of the copy. *)
Definition clone_file {A} (src dst : Loc) (k : nat -> prog (option A)) : prog (option A) :=
  let* from := Open src in let* to := Create dst in let* _ := CloneFrom to from in k to.

(** The answer is the size of the copy. *)
Definition copied_disk (n : nat) : prog (option nat) :=
  clone_file (in_dir NDisk) (At PARKED (NParkedPartial n)) (fun copy =>
    let* _ := Sync copy in let* size := Size copy in
    let* _ := Rename (At PARKED (NParkedPartial n)) (At PARKED (NParked n)) in
    sync_at (Top PARKED) (Ret (Some size))).
Definition park_copy (n : nat) : prog (option nat) :=
  Remove (At PARKED (NParkedPartial n)) ;;*
  bind (copied_disk n) (fun copied =>
    if copied is Some size then Ret (Some size) else Remove (At PARKED (NParkedPartial n)) ;;* Ret None).

(** Where the disk of a new sandbox comes from: a copy of the file [path],
    grown to [size], or the file itself. *)
Inductive NewDisk := Base (path : Loc) (size : nat) | Import (path : Loc).

Definition grow {A} (disk : nat) (size : nat) (k : prog (option A)) : prog (option A) :=
  let* len := Size disk in
  if (len <? size)%nat then let* _ := SetLen disk size in let* _ := Sync disk in k else k.

Definition make_disk {A} (disk : NewDisk) (k : nat -> prog (option A)) : prog (option A) :=
  match disk with
  | Base path size => clone_file path (in_staging NDisk) (fun i => grow i size (k i))
  | Import path => let* _ := Rename path (in_staging NDisk) in let* i := Open (in_staging NDisk) in k i
  end.
(** All is synced, then the staging directory gets its name. *)
Definition make_sync (disk file config_file : nat) : prog (option unit) :=
  let* _ := Sync disk in let* _ := Sync file in let* _ := Sync config_file in
  sync_at staging (let* _ := Rename staging dir in sync_at (Top SANDBOXES) (Ret (Some tt))).
Definition make_inner (disk : NewDisk) (config : bytes) : prog (option unit) :=
  let* file := Create (in_staging NRecord) in let* _ := Write file (record_json 0) in
  let* config_file := Create (in_staging NConfig) in let* _ := Write config_file config in
  make_disk disk (fun disk => make_sync disk file config_file).
Definition make (disk : NewDisk) (config : bytes) : prog (option unit) :=
  let* _ := Mkdir staging in
  bind (make_inner disk config) (fun made =>
    if made is Some u then Ret (Some u) else
    let clean := RemoveAll staging ;;* Ret None in
    match disk with Import path => Rename (in_staging NDisk) path ;;* clean | Base _ _ => clean end).

(** [bury]: aside first, which a crash leaves for the next start to finish. *)
Definition bury : prog (option unit) :=
  Do (Rename dir grave) (fun renamed =>
    andthen (match renamed with
             | Got _ => sync_at (Top SANDBOXES) (Ret (Some tt))
             | NotFound => Ret (Some tt)
             | Refused => Ret None
             end) (fun _ => RemoveAll grave ;;* Ret (Some tt))).

(** What [load] does with what an unfinished create or delete left. *)
Definition load_clean : prog unit := RemoveAll staging ;;* RemoveAll grave ;;* Ret tt.

(** The files of [create_now], where [started] is whether the VM started: after
    an error an imported disk goes back, and what was made is buried. *)
Definition uncreate (disk : NewDisk) : prog (option unit) :=
  match disk with
  | Import path => Rename (in_dir NDisk) path ;;* bind bury (fun _ => Ret None)
  | Base _ _ => bind bury (fun _ => Ret None)
  end.
Definition create_now (disk : NewDisk) (config : bytes) (started : bool) : prog (option unit) :=
  bind (make disk config) (fun made =>
    match made with Some u => if started then Ret (Some u) else uncreate disk | None => uncreate disk end).
End sandbox.
