(* ===== verification/SandboxCrash.v ===== *)
(** * Crash safety of the files of a sandbox

    [wpc] is a weakest precondition with a condition that holds at every point
    of a run, which is where a crash may come. With it: what a crash leaves of
    [make]. *)

From stdpp Require Import gmap.
From S2P Require Import Prelude Cas SandboxFiles.
Open Scope shuru_scope.

(** ** Runs and crashes *)

Fixpoint wpc {A} (p : prog A) (fs : FS) (C : FS -> Prop) (Q : A -> FS -> Prop) : Prop :=
  C fs /\
  match p with
  | Ret a => Q a fs
  | Do c k => forall o fs' r, call c o fs = (fs', r) -> wpc (k r) fs' C Q
  end.

Lemma wpc_sound {A} (p : prog A) C Q n os fs fs' r :
  wpc p fs C Q -> exec n os p fs = (fs', r) -> C fs' /\ (forall a, r = Some a -> Q a fs').
Proof.
  revert n os fs; induction p as [a|c k IH]; intros n os fs [HC H] He.
  - destruct n; injection He as <- <-; (split; [done|]); by intros ? [= <-].
  - destruct n as [|n]; cbn in He; [by injection He as <- <-|].
    destruct (call _ _ _) as [fs1 r1] eqn:Hc. by eapply IH; [eapply H|].
Qed.

Lemma wpc_mono {A} (p : prog A) (C C' : FS -> Prop) (Q Q' : A -> FS -> Prop) fs :
  wpc p fs C Q -> (forall fs, C fs -> C' fs) -> (forall a fs, Q a fs -> Q' a fs) -> wpc p fs C' Q'.
Proof. revert fs; induction p as [a|c k IH]; intros fs [HC H] HCC HQQ; split; eauto. Qed.

Lemma wpc_bind {A B} (p : prog A) (f : A -> prog B) C Q fs :
  wpc p fs C (fun a fs => wpc (f a) fs C Q) -> wpc (bind p f) fs C Q.
Proof. revert fs; induction p as [a|c k IH]; intros fs [HC H]; [done|split; eauto]. Qed.

Lemma wpc_try {A} c (k : nat -> prog (option A)) C Q fs :
  C fs ->
  (forall o fs' r, call c o fs = (fs', r) -> match r with Got i => wpc (k i) fs' C Q | _ => C fs' /\ Q None fs' end) ->
  wpc (tryc c k) fs C Q.
Proof. intros HC H; split; [done|]. intros o fs' r Hc. specialize (H _ _ _ Hc). by destruct r. Qed.

(** Where every call keeps [I], which gives the answer to an error, only a
    call that works has something to show. *)
Lemma wpc_try_keep {A} c (k : nat -> prog (option A)) (I C : FS -> Prop) Q fs :
  I fs -> (forall fs, I fs -> C fs /\ Q None fs) -> (forall o, I (call c o fs).1) ->
  (forall o fs' i, call c o fs = (fs', Got i) -> I fs' -> wpc (k i) fs' C Q) ->
  wpc (tryc c k) fs C Q.
Proof.
  intros HI HIC Hc Hk. apply wpc_try; [by apply HIC|]. intros o fs' r Hcall. specialize (Hc o).
  rewrite Hcall in Hc. destruct r; eauto.
Qed.

Lemma wpc_ret {A} (a : A) (C : FS -> Prop) (Q : A -> FS -> Prop) fs : C fs -> Q a fs -> wpc (Ret a) fs C Q.
Proof. done. Qed.

(** ** File systems *)

(** Numbers are of one file or directory, made before the next. *)
Definition wf (fs : FS) : Prop :=
  map_Forall (fun i _ => (i < fs_next fs)%nat /\ fs_dirs fs !! i = None) (fs_files fs) /\
  map_Forall (fun d _ => (d < fs_next fs)%nat) (fs_dirs fs).

#[export] Instance wf_dec fs : Decision (wf fs).
Proof. unfold wf. apply _. Defined.

(** All that directory [d] may be after a crash satisfies [P]. *)
Definition versions (fs : FS) (d : nat) (P : Entries -> Prop) : Prop :=
  match fs_dirs fs !! d with Some D => Forall P (d_now D :: d_past D) | None => False end.

Lemma versions_mono fs d (P Q : Entries -> Prop) : versions fs d P -> (forall E, P E -> Q E) -> versions fs d Q.
Proof. unfold versions. destruct (fs_dirs fs !! d); [|done]. intros H HPQ. eapply Forall_impl; eauto. Qed.

Lemma versions_entry fs d P : versions fs d P -> exists E, (forall n, entry fs d n = E !! n) /\ P E /\ is_Some (fs_dirs fs !! d).
Proof.
  unfold versions, entry. destruct (fs_dirs fs !! d); [|done]. intros H%Forall_cons. eexists. split; [intros n; reflexivity|].
  split; [apply H|eauto].
Qed.

Lemma versions_edit fs d f d' (P : Entries -> Prop) :
  versions fs d P -> (d = d' -> forall E, P E -> P (f E)) -> versions (edit f d' fs) d P.
Proof.
  unfold versions, edit; cbn. intros H Hf. destruct (decide (d = d')) as [->|Hd].
  - rewrite lookup_alter_eq. destruct (fs_dirs fs !! d') as [D|]; [|done]. cbn.
    apply Forall_cons; split; [|done]. apply Hf; [done|]. by apply Forall_cons in H as [].
  - by rewrite lookup_alter_ne.
Qed.

Lemma versions_file fs d P i b : versions (set_file i b fs) d P <-> versions fs d P.
Proof. done. Qed.

Lemma crash_versions fs d P k :
  versions fs d P -> after_crash fs k -> exists E, k_dirs k !! d = Some E /\ P E.
Proof.
  unfold versions. intros H [Hd _]. destruct (fs_dirs fs !! d) as [D|] eqn:HD; [|done].
  destruct (Hd _ _ HD) as (E & HE & Hin). exists E. split; [done|]. by eapply Forall_forall in H.
Qed.

Lemma crash_file fs k i b : fs_files fs !! i = Some (MkBytes b true) -> after_crash fs k -> k_files k !! i = Some b.
Proof. intros Hi [_ Hf]. by apply (Hf i (MkBytes b true)). Qed.

(** A crash that undoes nothing. *)
Definition disk_now (fs : FS) : Disk := MkDisk (d_now <$> fs_dirs fs) (f_data <$> fs_files fs).
Lemma crash_now fs : after_crash fs (disk_now fs).
Proof.
  split; cbn.
  - intros d D HD. exists (d_now D). rewrite lookup_fmap, HD. split; [done|]. apply elem_of_cons. by left.
  - intros i f Hf _. by rewrite lookup_fmap, Hf.
Qed.

Lemma entry_insert fs d n x d' n' :
  is_Some (fs_dirs fs !! d) ->
  entry (edit <[ n := x ]> d fs) d' n' = if bool_decide (d = d' /\ n = n') then Some x else entry fs d' n'.
Proof.
  intros [D HD]. unfold entry, edit; cbn. destruct (decide (d = d')) as [<-|Hd].
  - rewrite lookup_alter_eq, HD. cbn. destruct (decide (n = n')) as [<-|Hn].
    + rewrite lookup_insert_eq. by rewrite bool_decide_true.
    + rewrite lookup_insert_ne by done. rewrite bool_decide_false; [done|naive_solver].
  - rewrite lookup_alter_ne by done. rewrite bool_decide_false; [done|naive_solver].
Qed.
Lemma entry_delete fs d n d' n' :
  entry (edit (delete n) d fs) d' n' = if bool_decide (d = d' /\ n = n') then None else entry fs d' n'.
Proof.
  unfold entry, edit; cbn. destruct (decide (d = d')) as [<-|Hd].
  - rewrite lookup_alter_eq. destruct (fs_dirs fs !! d) as [D|]; cbn; [|by case_bool_decide].
    destruct (decide (n = n')) as [<-|Hn].
    + rewrite lookup_delete_eq. by rewrite bool_decide_true.
    + rewrite lookup_delete_ne by done. rewrite bool_decide_false; [done|naive_solver].
  - rewrite lookup_alter_ne by done. rewrite bool_decide_false; [done|naive_solver].
Qed.
Lemma entry_edit_other f d fs d' n : d' <> d -> entry (edit f d fs) d' n = entry fs d' n.
Proof. intros Hd. unfold entry, edit; cbn. by rewrite lookup_alter_ne. Qed.
Lemma dirs_edit f d fs d' : is_Some (fs_dirs (edit f d fs) !! d') <-> is_Some (fs_dirs fs !! d').
Proof. unfold edit; cbn. by rewrite lookup_alter_is_Some. Qed.

(** *** Calls keep file systems well formed *)

Lemma wf_edit f d fs : wf fs -> wf (edit f d fs).
Proof.
  intros [Hf Hd]. split; intros i x Hi; cbn in *.
  - destruct (Hf _ _ Hi) as [? Hn]. by rewrite lookup_alter_None.
  - apply mk_is_Some, lookup_alter_is_Some in Hi as [D HD]. by apply Hd in HD.
Qed.
Lemma wf_set_file i b fs : wf fs -> is_Some (fs_files fs !! i) -> wf (set_file i b fs).
Proof.
  intros [Hf Hd] [b' Hi]. split; cbn; [|done]. apply map_Forall_insert_2; [|done]. by apply (Hf _ _ Hi).
Qed.
Lemma wf_new_file fs : wf fs -> wf (new_file fs).
Proof.
  intros [Hf Hd]. split; cbn.
  - apply map_Forall_insert_2.
    + split; [lia|]. destruct (fs_dirs fs !! fs_next fs) eqn:HD; [|done]. apply Hd in HD. lia.
    + intros i b Hi. apply Hf in Hi as []. split; [lia|done].
  - intros d D HD. apply Hd in HD. lia.
Qed.
Lemma wf_new_dir fs : wf fs -> wf (new_dir fs).
Proof.
  intros [Hf Hd]. split; cbn.
  - intros i b Hi. apply Hf in Hi as []. split; [lia|]. rewrite lookup_insert_ne by lia. done.
  - apply map_Forall_insert_2; [lia|]. intros d D HD. apply Hd in HD. lia.
Qed.
Lemma wf_write i data o fs : wf fs -> wf (write i data o fs).1.
Proof. intros Hwf. unfold write. repeat case_match; cbn; try done; apply wf_set_file; eauto. Qed.
Lemma wf_fold_edit d l fs : wf fs -> wf (foldl (fun fs n => edit (delete n) d fs) fs l).
Proof. revert fs; induction l; intros fs Hwf; cbn; [done|]. apply IHl. by apply wf_edit. Qed.
Create HintDb crash.
#[export] Hint Resolve wf_edit wf_new_file wf_new_dir wf_write wf_fold_edit : crash.

Lemma wf_call c o fs : wf fs -> wf (call c o fs).1.
Proof.
  intros Hwf. destruct c; cbn; repeat case_match; cbn; eauto with crash; try by apply wf_set_file; eauto.
  destruct Hwf as [Hf Hd]. split; cbn.
  - intros j b Hj. destruct (Hf _ _ Hj). split; [done|]. rewrite lookup_insert_ne; congruence.
  - apply map_Forall_insert_2; [|done]. by eapply Hd.
Qed.

(** A call changes the versions of directory [d] only by the name it ends in. *)
Definition last_name (l : Loc) : option Name := match l with Top _ => None | At _ n | In _ _ n => Some n end.
Lemma parent_last fs l d n : parent fs l = Some (d, n) -> last_name l = Some n /\ is_Some (fs_dirs fs !! d).
Proof. destruct l; cbn; intros; simplify_option_eq; repeat case_match; simplify_option_eq; eauto. Qed.
Definition puts (c : Call) : option Name :=
  match c with Mkdir l | Create l | Rename _ l => last_name l | _ => None end.

Lemma versions_new_dir fs d P : wf fs -> versions fs d P -> versions (new_dir fs) d P.
Proof.
  intros [_ Hd]. unfold versions; cbn. destruct (fs_dirs fs !! d) eqn:HD; [|done]. apply Hd in HD as ?.
  rewrite lookup_insert_ne by lia. by rewrite HD.
Qed.
Lemma versions_fold fs d l d' (P : Entries -> Prop) :
  (forall n E, P E -> P (delete n E)) -> versions fs d P -> versions (foldl (fun fs n => edit (delete n) d' fs) fs l) d P.
Proof. intros HP. revert fs; induction l; intros fs H; cbn; [done|]. apply IHl. apply versions_edit; auto. Qed.
Lemma versions_sync fs d P i D :
  versions fs d P -> fs_dirs fs !! i = Some D ->
  versions (MkFS (<[ i := MkDir (d_now D) [] ]> (fs_dirs fs)) (fs_files fs) (fs_next fs)) d P.
Proof.
  unfold versions; cbn. intros H HD. destruct (decide (i = d)) as [->|Hi].
  - rewrite lookup_insert_eq. rewrite HD in H. cbn. apply Forall_cons in H as []. auto.
  - by rewrite lookup_insert_ne.
Qed.
Lemma versions_write fs d P i data o : versions fs d P -> versions (write i data o fs).1 d P.
Proof. unfold write. repeat case_match; done. Qed.
#[export] Hint Resolve versions_new_dir versions_write versions_sync : crash.

Lemma versions_call c o fs d (P : Entries -> Prop) :
  wf fs -> versions fs d P -> (forall n E, P E -> P (delete n E)) ->
  (forall n x E, puts c = Some n -> P E -> P (<[ n := x ]> E)) -> versions (call c o fs).1 d P.
Proof.
  intros Hwf HP Hdel Hput. destruct c; cbn in *;
    try destruct (parent fs l) as [[dp np]|] eqn:Hp; try destruct (parent fs from) as [[df nf]|];
    try destruct (parent fs to) as [[dp np]|] eqn:Hp; repeat case_match; cbn; try done; eauto with crash;
    try (apply parent_last in Hp as [Hp _]); repeat (apply versions_edit; [|by eauto]); eauto with crash;
    try by apply versions_fold.
Qed.

Section made.
Context (id : nat).

(** No version of the directory of sandboxes has the name of this one. *)
Definition absent (fs : FS) : Prop := wf fs /\ versions fs SANDBOXES (fun E => E !! NId id = None).

Lemma absent_call c o fs : puts c <> Some (NId id) -> absent fs -> absent (call c o fs).1.
Proof.
  intros Hc [Hwf H]. split; [by apply wf_call|]. apply versions_call; try done.
  - intros n E HE. by apply lookup_delete_None; right.
  - intros n x E Hn HE. rewrite lookup_insert_ne by congruence. done.
Qed.

Lemma wpc_absent_try {A} c (k : nat -> prog (option A)) (C : FS -> Prop) Q fs :
  absent fs -> puts c <> Some (NId id) -> (forall fs, absent fs -> C fs /\ Q None fs) ->
  (forall o fs' i, call c o fs = (fs', Got i) -> absent fs' -> wpc (k i) fs' C Q) ->
  wpc (tryc c k) fs C Q.
Proof. intros Ha Hc HC Hk. apply (wpc_try_keep _ _ absent); auto using absent_call. Qed.
(** *** The staging directory

    It is directory [d], and has the files of [M]. *)
Record staged (fs : FS) (d : nat) (M : gmap Name (nat * Bytes)) : Prop := {
  st_name : entry fs SANDBOXES (NPartial id) = Some (DirAt d);
  st_dir : is_Some (fs_dirs fs !! d);
  st_ne : d <> SANDBOXES;
  st_files : map_Forall (fun n p => entry fs d n = Some (FileAt p.1) /\ fs_files fs !! p.1 = Some p.2) M;
  st_inj : forall n n' p p', M !! n = Some p -> M !! n' = Some p' -> p.1 = p'.1 -> n = n'
}.

(** The file the disk is made of is still where it was, and is none of those. *)
Record source (fs : FS) (d : nat) (M : gmap Name (nat * Bytes)) (dp : nat) (np : Name) (s : nat) (b : bytes) : Prop := {
  so_dir : dp <> d;
  so_entry : entry fs dp np = Some (FileAt s);
  so_file : exists synced, fs_files fs !! s = Some (MkBytes b synced);
  so_ne : forall n p, M !! n = Some p -> p.1 <> s
}.

Lemma entry_exists fs d n x : entry fs d n = Some x -> is_Some (fs_dirs fs !! d).
Proof. unfold entry. destruct (fs_dirs fs !! d); [eauto|done]. Qed.
Lemma file_fresh fs i b : wf fs -> fs_files fs !! i = Some b -> i <> fs_next fs.
Proof. intros [Hf _] Hi. apply Hf in Hi as []. lia. Qed.
Lemma dir_fresh fs d n x : wf fs -> entry fs d n = Some x -> d <> fs_next fs.
Proof. intros [_ Hd] [D HD]%entry_exists. apply Hd in HD. lia. Qed.

Lemma create_got l o fs fs' i :
  call (Create l) o fs = (fs', Got i) ->
  exists d n, parent fs l = Some (d, n) /\ entry fs d n = None /\ i = fs_next fs /\
    fs' = edit <[ n := FileAt (fs_next fs) ]> d (new_file fs).
Proof. cbn. intros H. repeat case_match; simplify_eq. eauto 10. Qed.
Lemma write_got i data o fs fs' j :
  write i data o fs = (fs', Got j) -> is_Some (fs_files fs !! i) /\ fs' = set_file i (MkBytes data false) fs.
Proof. unfold write. intros H. repeat case_match; simplify_eq. eauto. Qed.
Lemma clone_got i src o fs fs' j :
  call (CloneFrom i src) o fs = (fs', Got j) ->
  exists b, fs_files fs !! src = Some b /\ is_Some (fs_files fs !! i) /\ fs' = set_file i (MkBytes (f_data b) false) fs.
Proof. cbn. intros H. case_match; [|done]. apply write_got in H as []. eauto. Qed.
Lemma sync_file_got i o fs fs' j b :
  fs_files fs !! i = Some b -> call (Sync i) o fs = (fs', Got j) -> fs' = set_file i (MkBytes (f_data b) true) fs.
Proof. intros Hi. cbn. rewrite Hi. intros H. repeat case_match; by simplify_eq. Qed.
Lemma sync_dir_got i o fs fs' j D :
  wf fs -> fs_dirs fs !! i = Some D -> call (Sync i) o fs = (fs', Got j) ->
  fs' = MkFS (<[ i := MkDir (d_now D) [] ]> (fs_dirs fs)) (fs_files fs) (fs_next fs).
Proof.
  intros [Hf _] HD. cbn. rewrite HD. destruct (fs_files fs !! i) eqn:Hi; [apply Hf in Hi as []; congruence|].
  intros H. repeat case_match; by simplify_eq.
Qed.
Lemma open_got l o fs fs' i : call (Open l) o fs = (fs', Got i) -> fs' = fs /\ (resolve_at fs l = Some (FileAt i) \/ resolve_at fs l = Some (DirAt i)).
Proof. cbn. intros H. repeat case_match; simplify_eq; auto. Qed.
Lemma rename_got from to o fs fs' i :
  call (Rename from to) o fs = (fs', Got i) ->
  exists d n d' n' x, parent fs from = Some (d, n) /\ parent fs to = Some (d', n') /\ resolve_at fs from = Some x /\
    replaces fs x (entry fs d' n') = true /\ fs' = edit <[ n' := x ]> d' (edit (delete n) d fs).
Proof.
  cbn. intros H. destruct (parent fs from) as [[d n]|]; [|done]. destruct (parent fs to) as [[d' n']|]; [|done].
  destruct (resolve_at fs from) as [x|]; [|done]. destruct (o_ok o && _) eqn:Hok; [|done].
  apply andb_true_iff in Hok as []. injection H as <- <-. eauto 12.
Qed.

Lemma parent_staging fs d M n : staged fs d M -> parent fs (in_staging id n) = Some (d, n).
Proof. intros [Hn [D HD] _ _ _]. cbn. rewrite Hn. by rewrite HD. Qed.

Lemma staged_create fs d M n o fs' i :
  wf fs -> staged fs d M -> call (Create (in_staging id n)) o fs = (fs', Got i) ->
  staged fs' d (<[ n := (i, MkBytes [] false) ]> M) /\
  (forall dp np s b, source fs d M dp np s b -> source fs' d (<[ n := (i, MkBytes [] false) ]> M) dp np s b).
Proof.
  intros Hwf Hst (d' & n' & Hp & Hnone & -> & ->)%create_got.
  rewrite (parent_staging _ _ _ _ Hst) in Hp. injection Hp as <- <-. destruct Hst as [H1 H2 H3 H4 H5].
  assert (Hent : forall dd m, entry (edit <[ n := FileAt (fs_next fs) ]> d (new_file fs)) dd m =
    if bool_decide (d = dd /\ n = m) then Some (FileAt (fs_next fs)) else entry fs dd m)
    by (intros; by rewrite entry_insert).
  assert (HM : forall m p, M !! m = Some p -> p.1 <> fs_next fs).
  { intros m p Hm. apply H4 in Hm as [_ Hm]. by eapply file_fresh. }
  split; [split|].
  - rewrite Hent. rewrite bool_decide_false; [done|]. naive_solver.
  - by apply dirs_edit.
  - done.
  - intros m p Hm. rewrite Hent. cbn. apply lookup_insert_Some in Hm as [[<- <-]|[Hne Hm]].
    + rewrite bool_decide_true by done. by rewrite lookup_insert_eq.
    + apply H4 in Hm as Hm'. specialize (HM _ _ Hm). rewrite bool_decide_false by naive_solver.
      rewrite lookup_insert_ne by done. done.
  - intros m m' p p' Hm Hm' Hpp. apply lookup_insert_Some in Hm as [[<- <-]|[Hne Hm]], Hm' as [[<- <-]|[Hne' Hm']];
      cbn in *; [done|by apply HM in Hm'|by apply HM in Hm|eauto].
  - intros dp np s b [S1 S2 [sy S3] S4]. split; [done|..].
    + rewrite Hent. rewrite bool_decide_false; [done|naive_solver].
    + exists sy. cbn. rewrite lookup_insert_ne; [done|]. intros <-. by apply file_fresh in S3.
    + intros m p [[<- <-]|[Hne Hm]]%lookup_insert_Some; [|by eauto]. cbn. intros <-. by apply file_fresh in S3.
Qed.

(** The file of [n] gets other bytes. *)
Lemma staged_set fs d M n i b b' :
  M !! n = Some (i, b) -> staged fs d M ->
  staged (set_file i b' fs) d (<[ n := (i, b') ]> M) /\
  (forall dp np s x, source fs d M dp np s x -> source (set_file i b' fs) d (<[ n := (i, b') ]> M) dp np s x).
Proof.
  intros Hn [H1 H2 H3 H4 H5]. split; [split; try done|].
  - intros m p [[<- <-]|[Hne Hm]]%lookup_insert_Some; cbn.
    + rewrite lookup_insert_eq. split; [|done]. by apply H4 in Hn as [].
    + rewrite lookup_insert_ne; [by apply H4 in Hm|]. intros Heq. apply Hne. by eapply (H5 n m (i, b) p).
  - intros m m' p p' Hm Hm' Hpp.
    apply lookup_insert_Some in Hm as [[<- <-]|[Hne Hm]], Hm' as [[<- <-]|[Hne' Hm']]; cbn in *; eauto.
  - intros dp np s x [S1 S2 [sy S3] S4]. split; [done|done|..].
    + exists sy. cbn. rewrite lookup_insert_ne; [done|]. by apply (S4 n (i, b)).
    + intros m p [[<- <-]|[Hne Hm]]%lookup_insert_Some; [by apply (S4 n (i, b))|eauto].
Qed.

(** The file itself becomes the disk. *)
Lemma staged_import fs d M dp np s b o fs' i :
  staged fs d M -> source fs d M dp np s b -> call (Rename (At dp np) (in_staging id NDisk)) o fs = (fs', Got i) ->
  M !! NDisk = None -> exists f, f_data f = b /\ staged fs' d (<[ NDisk := (s, f) ]> M).
Proof.
  intros Hst [S1 S2 [sy S3] S4] (d1 & n1 & d2 & n2 & x & Hp1 & Hp2 & Hr & _ & ->)%rename_got HM.
  rewrite (parent_staging _ _ _ _ Hst) in Hp2. injection Hp2 as <- <-.
  cbn in Hp1, Hr. destruct (entry_exists _ _ _ _ S2) as [D HD]. rewrite HD in Hp1, Hr. cbn in Hp1, Hr.
  injection Hp1 as <- <-. rewrite S2 in Hr. injection Hr as <-. destruct Hst as [H1 H2 H3 H4 H5].
  assert (Hent : forall dd m, (dd, m) <> (dp, np) ->
    entry (edit <[ NDisk := FileAt s ]> d (edit (delete np) dp fs)) dd m =
    if bool_decide (d = dd /\ NDisk = m) then Some (FileAt s) else entry fs dd m).
  { intros dd m Hne. rewrite entry_insert by by apply dirs_edit. case_bool_decide; [done|].
    rewrite entry_delete. rewrite bool_decide_false; [done|naive_solver]. }
  exists (MkBytes b sy). split; [done|]. split.
  - rewrite Hent by naive_solver. rewrite bool_decide_false; [done|naive_solver].
  - by apply dirs_edit, dirs_edit.
  - done.
  - intros m p Hm. rewrite Hent by naive_solver. cbn. apply lookup_insert_Some in Hm as [[<- <-]|[Hne Hm]].
    + by rewrite bool_decide_true.
    + rewrite bool_decide_false by naive_solver. by apply H4 in Hm.
  - intros m m' p p' Hm Hm' Hpp.
    apply lookup_insert_Some in Hm as [[<- <-]|[Hne Hm]], Hm' as [[<- <-]|[Hne' Hm']]; cbn in *; [done| |..].
    + by apply S4 in Hm'.
    + by apply S4 in Hm.
    + eauto.
Qed.
(** *** A whole sandbox *)

Context (record config disk : bytes).

(** Directory [d] has the three files, whatever is undone. *)
Definition sealed (fs : FS) (d : nat) : Prop :=
  versions fs d (fun E => Forall (fun p : Name * bytes => exists i,
    E !! p.1 = Some (FileAt i) /\ fs_files fs !! i = Some (MkBytes p.2 true))
    [(NRecord, record); (NConfig, config); (NDisk, disk)]).
Definition named (fs : FS) (E : Entries) : Prop := exists d, E !! NId id = Some (DirAt d) /\ sealed fs d.
(** Each version of the directory of sandboxes has none or a whole one. *)
Definition whole (fs : FS) : Prop := versions fs SANDBOXES (fun E => E !! NId id = None \/ named fs E).
Definition moved (fs : FS) : Prop := whole fs /\ entry fs SANDBOXES (NPartial id) = None.
Definition finished (fs : FS) : Prop := versions fs SANDBOXES (named fs).

Lemma absent_whole fs : absent fs -> whole fs.
Proof. intros [_ H]. eapply versions_mono; [done|]. auto. Qed.

Lemma staged_sync_file fs d M n i b o fs' j :
  staged fs d M -> M !! n = Some (i, b) -> call (Sync i) o fs = (fs', Got j) ->
  staged fs' d (<[ n := (i, MkBytes (f_data b) true) ]> M).
Proof.
  intros Hst Hn Hc. pose proof (st_files _ _ _ Hst _ _ Hn) as [_ Hi]. cbn in Hi.
  apply (sync_file_got _ _ _ _ _ _ Hi) in Hc as ->. by eapply staged_set.
Qed.

Lemma staged_sealed fs d M i1 i2 i3 o fs' j :
  wf fs -> staged fs d M ->
  M !! NRecord = Some (i1, MkBytes record true) -> M !! NConfig = Some (i2, MkBytes config true) ->
  M !! NDisk = Some (i3, MkBytes disk true) -> call (Sync d) o fs = (fs', Got j) -> staged fs' d M /\ sealed fs' d.
Proof.
  intros Hwf [H1 [D HD] H3 H4 H5] Hr Hg Hk Hc. apply (sync_dir_got _ _ _ _ _ _ Hwf HD) in Hc as ->.
  assert (Hent : forall dd m, entry (MkFS (<[ d := MkDir (d_now D) [] ]> (fs_dirs fs)) (fs_files fs) (fs_next fs)) dd m = entry fs dd m).
  { intros dd m. unfold entry; cbn. destruct (decide (d = dd)) as [<-|]; [by rewrite lookup_insert_eq, HD|by rewrite lookup_insert_ne]. }
  split.
  - split; try done; [by rewrite Hent|cbn; rewrite lookup_insert_eq; eauto|]. intros n p Hp. rewrite Hent. by apply H4.
  - unfold sealed, versions; cbn. rewrite lookup_insert_eq. apply Forall_singleton. cbn.
    repeat (apply Forall_cons; split); [..|by apply Forall_nil]; cbn;
      [apply H4 in Hr as [He Hf]|apply H4 in Hg as [He Hf]|apply H4 in Hk as [He Hf]];
      cbn in *; unfold entry in He; rewrite HD in He; cbn in He; eauto.
Qed.

Lemma sealed_edit fs d d' f : d <> d' -> sealed fs d -> sealed (edit f d' fs) d.
Proof. intros Hd H. by apply versions_edit. Qed.

Lemma staged_rename fs d M o fs' j :
  absent fs -> staged fs d M -> sealed fs d -> call (Rename (staging id) (dir id)) o fs = (fs', Got j) ->
  moved fs' /\ wf fs' /\ exists D, fs_dirs fs' !! SANDBOXES = Some D /\ named fs' (d_now D).
Proof.
  intros [Hwf Ha] Hst Hs Hc. pose proof Hc as (d1 & n1 & d2 & n2 & x & Hp1 & Hp2 & Hr & _ & ->)%rename_got.
  destruct Hst as [H1 _ H3 _ _]. destruct (entry_exists _ _ _ _ H1) as [D HD]. cbn in Hp1, Hp2, Hr.
  rewrite HD in Hp1, Hp2, Hr. cbn in Hp1, Hp2, Hr. injection Hp1 as <- <-. injection Hp2 as <- <-. rewrite H1 in Hr. injection Hr as <-.
  set (fs' := edit _ _ _). assert (Hs' : sealed fs' d) by (by apply sealed_edit, sealed_edit).
  assert (HD' : fs_dirs fs' !! SANDBOXES = Some (MkDir (<[ NId id := DirAt d ]> (delete (NPartial id) (d_now D)))
    (delete (NPartial id) (d_now D) :: d_now D :: d_past D))).
  { unfold fs', edit; cbn. by rewrite !lookup_alter_eq, HD. }
  split; [split|split].
  - unfold whole, versions. rewrite HD'. unfold versions in Ha. rewrite HD in Ha. cbn in *. apply Forall_cons; split.
    + right. exists d. split; [by rewrite lookup_insert_eq|done].
    + apply Forall_cons; split.
      * left. apply Forall_cons in Ha as [Ha _]. by rewrite lookup_delete_ne.
      * eapply Forall_impl; [done|]. auto.
  - unfold entry. rewrite HD'. cbn. by rewrite lookup_insert_ne, lookup_delete_eq.
  - by repeat apply wf_edit.
  - eexists. split; [done|]. exists d. cbn. by rewrite lookup_insert_eq.
Qed.

Lemma moved_sync o fs fs' D r :
  wf fs -> moved fs -> fs_dirs fs !! SANDBOXES = Some D -> named fs (d_now D) -> call (Sync SANDBOXES) o fs = (fs', r) ->
  whole fs' /\ match r with Got _ => finished fs' | _ => moved fs' end.
Proof.
  intros Hwf Hm HD Hn Hc. pose proof Hc as Hc'. destruct r as [j| |].
  - apply (sync_dir_got _ _ _ _ _ _ Hwf HD) in Hc as ->.
    assert (Hs : forall E, named fs E -> named (MkFS (<[ SANDBOXES := MkDir (d_now D) [] ]> (fs_dirs fs)) (fs_files fs) (fs_next fs)) E).
    { intros E (d & HE & Hs). exists d. split; [done|]. by apply versions_sync. }
    assert (Hf : finished (MkFS (<[ SANDBOXES := MkDir (d_now D) [] ]> (fs_dirs fs)) (fs_files fs) (fs_next fs))).
    { unfold finished, versions. cbn [fs_dirs]. rewrite lookup_insert_eq. apply Forall_singleton. cbn. by apply Hs. }
    split; [|done]. eapply versions_mono; [done|]. by right.
  - cbn in Hc. repeat case_match; by simplify_eq.
  - cbn in Hc. repeat case_match; simplify_eq; by split; [apply Hm|].
Qed.
(** *** [make] *)

Definition made_post (r : option unit) (fs : FS) : Prop :=
  if r is Some _ then finished fs else absent fs \/ moved fs.

Lemma absent_post fs : absent fs -> whole fs /\ made_post None fs.
Proof. intros H. split; [by apply absent_whole|by left]. Qed.

Ltac step := apply wpc_absent_try; [done|done|exact absent_post|].

Lemma open_staging fs d M o fs' i : staged fs d M -> call (Open (staging id)) o fs = (fs', Got i) -> fs' = fs /\ i = d.
Proof.
  intros [H1 _ _ _ _] [-> Hr]%open_got. split; [done|]. cbn in Hr. destruct (entry_exists _ _ _ _ H1) as [D HD].
  rewrite HD in Hr. cbn in Hr. rewrite H1 in Hr. by destruct Hr; simplify_eq.
Qed.

Lemma wpc_named fs d M :
  absent fs -> staged fs d M -> sealed fs d ->
  wpc (let* _ := Rename (staging id) (dir id) in sync_at (Top SANDBOXES) (Ret (Some tt))) fs whole made_post.
Proof.
  intros Ha Hst Hs. pose proof (absent_whole _ Ha) as Hw. apply wpc_try; [done|]. intros o fs1 r Hc. destruct r as [j| |].
  - destruct (staged_rename _ _ _ _ _ _ Ha Hst Hs Hc) as (Hm & Hwf & D & HD & Hn).
    apply wpc_try; [by apply Hm|]. intros o2 fs2 r2 Hc2. cbn in Hc2. rewrite HD in Hc2. cbn in Hc2.
    destruct (o_ok o2); injection Hc2 as <- <-; [|by split; [apply Hm|right]].
    apply wpc_try; [by apply Hm|]. intros o3 fs3 r3 Hc3.
    destruct (moved_sync _ _ _ _ _ Hwf Hm HD Hn Hc3) as [Hw3 H3]. destruct r3; split; try done; by right.
  - cbn in Hc. repeat case_match; simplify_eq; by apply absent_post.
  - cbn in Hc. repeat case_match; simplify_eq; by apply absent_post.
Qed.

Lemma wpc_make_sync fs d M i1 i2 i3 f1 f2 f3 :
  absent fs -> staged fs d M -> M !! NRecord = Some (i1, f1) -> M !! NConfig = Some (i2, f2) -> M !! NDisk = Some (i3, f3) ->
  f_data f1 = record -> f_data f2 = config -> f_data f3 = disk ->
  wpc (make_sync id i3 i1 i2) fs whole made_post.
Proof.
  intros Ha Hst Hr Hg Hk Hf1 Hf2 Hf3. unfold make_sync, sync_at.
  step. intros o1 fs1 j1 Hc1 Ha1. apply (staged_sync_file _ _ _ NDisk _ f3 _ _ _ Hst) in Hc1; [|done].
  step. intros o2 fs2 j2 Hc2 Ha2. apply (staged_sync_file _ _ _ NRecord _ f1 _ _ _ Hc1) in Hc2; [|by rewrite lookup_insert_ne].
  step. intros o3 fs3 j3 Hc3 Ha3. apply (staged_sync_file _ _ _ NConfig _ f2 _ _ _ Hc2) in Hc3; [|by rewrite !lookup_insert_ne].
  step. intros o4 fs4 j4 Hc4 Ha4. apply (open_staging _ _ _ _ _ _ Hc3) in Hc4 as [-> ->].
  step. intros o5 fs5 j5 Hc5 Ha5. rewrite Hf1, Hf2, Hf3 in Hc3.
  apply (staged_sealed _ _ _ i1 i2 i3 _ _ _ (proj1 Ha4) Hc3) in Hc5 as [Hst5 Hs5]; [|by simplify_map_eq..].
  by eapply wpc_named.
Qed.

(** The disk of the source, as it ends up. *)
Definition disk_of (nd : NewDisk) (b : bytes) : bytes :=
  match nd with
  | Base _ size => if (length b <? size)%nat then resize size (z2b 0) b else b
  | Import _ => b
  end.
Definition disk_path (nd : NewDisk) : Loc := match nd with Base path _ | Import path => path end.

Lemma set_len_got i size o fs fs' j b :
  fs_files fs !! i = Some b -> call (SetLen i size) o fs = (fs', Got j) ->
  fs' = set_file i (MkBytes (resize size (z2b 0) (f_data b)) false) fs.
Proof. intros Hi. cbn. rewrite Hi. destruct (o_ok o); intros H; by simplify_eq. Qed.
Lemma size_got i o fs fs' j b :
  fs_files fs !! i = Some b -> call (Size i) o fs = (fs', Got j) -> fs' = fs /\ j = length (f_data b).
Proof. intros Hi. cbn. rewrite Hi. destruct (o_ok o); intros H; by simplify_eq. Qed.

Lemma wpc_grow fs d M i b size (k : prog (option unit)) :
  absent fs -> staged fs d M -> M !! NDisk = Some (i, b) ->
  (forall fs M' b', absent fs -> staged fs d M' -> M' !! NDisk = Some (i, b') -> (forall n, n <> NDisk -> M' !! n = M !! n) ->
    f_data b' = (if (length (f_data b) <? size)%nat then resize size (z2b 0) (f_data b) else f_data b) ->
    wpc k fs whole made_post) ->
  wpc (grow i size k) fs whole made_post.
Proof.
  intros Ha Hst HM Hk. pose proof (st_files _ _ _ Hst _ _ HM) as [_ Hi]. cbn in Hi. unfold grow.
  step. intros o1 fs1 j1 Hc1 _. apply (size_got _ _ _ _ _ _ Hi) in Hc1 as [-> ->]. case_match eqn:Hlt; [|by eapply Hk].
  step. intros o2 fs2 j2 Hc2 Ha2. apply (set_len_got _ _ _ _ _ _ _ Hi) in Hc2 as ->.
  destruct (staged_set _ _ _ _ _ _ (MkBytes (resize size (z2b 0) (f_data b)) false) HM Hst) as [Hst2 _].
  step. intros o3 fs3 j3 Hc3 Ha3. eapply (staged_sync_file _ _ _ NDisk i _ _ _ _ Hst2) in Hc3; [|by rewrite lookup_insert_eq].
  eapply Hk; [done|done|by rewrite lookup_insert_eq| |done]. intros n Hn. by rewrite !lookup_insert_ne.
Qed.

Lemma open_source fs d M dp np s b o fs' i :
  source fs d M dp np s b -> call (Open (At dp np)) o fs = (fs', Got i) -> fs' = fs /\ i = s.
Proof.
  intros [_ H2 _ _] [-> Hr]%open_got. split; [done|]. cbn in Hr. destruct (entry_exists _ _ _ _ H2) as [D HD].
  rewrite HD in Hr. cbn in Hr. rewrite H2 in Hr. by destruct Hr; simplify_eq.
Qed.
Lemma open_staged fs d M n i b o fs' j :
  staged fs d M -> M !! n = Some (i, b) -> call (Open (in_staging id n)) o fs = (fs', Got j) -> fs' = fs /\ j = i.
Proof.
  intros Hst HM [-> Hr]%open_got. split; [done|]. unfold resolve_at in Hr. rewrite (parent_staging _ _ _ _ Hst) in Hr.
  pose proof (st_files _ _ _ Hst _ _ HM) as [He _]. cbn in Hr, He. rewrite He in Hr. by destruct Hr; simplify_eq.
Qed.

Lemma wpc_make_disk fs d M nd dp np s b (k : nat -> prog (option unit)) :
  absent fs -> staged fs d M -> source fs d M dp np s b -> disk_path nd = At dp np -> np <> NId id -> M !! NDisk = None ->
  (forall fs M' i f, absent fs -> staged fs d M' -> M' !! NDisk = Some (i, f) -> (forall n, n <> NDisk -> M' !! n = M !! n) ->
    f_data f = disk_of nd b -> wpc (k i) fs whole made_post) ->
  wpc (make_disk id nd k) fs whole made_post.
Proof.
  intros Ha Hst Hso Hpath Hnp HM Hk. destruct nd as [path size|path]; cbn in Hpath; subst path; cbn [make_disk].
  - unfold clone_file. step. intros o1 fs1 j1 Hc1 _. apply (open_source _ _ _ _ _ _ _ _ _ _ Hso) in Hc1 as [-> ->].
    step. intros o2 fs2 j2 Hc2 Ha2. destruct (staged_create _ _ _ _ _ _ _ (proj1 Ha) Hst Hc2) as [Hst2 Hso2].
    specialize (Hso2 _ _ _ _ Hso).
    step. intros o3 fs3 j3 Hc3 Ha3. apply clone_got in Hc3 as (bb & Hs & _ & ->).
    destruct (so_file _ _ _ _ _ _ _ Hso2) as [sy Hs']. rewrite Hs in Hs'. injection Hs' as ->. cbn [f_data] in *.
    destruct (staged_set _ _ _ NDisk j2 _ (MkBytes b false) ltac:(by rewrite lookup_insert_eq) Hst2) as [Hst3 _].
    eapply wpc_grow; [done|done|by rewrite lookup_insert_eq|]. cbn [f_data]. intros fs4 M' b' Ha4 Hst4 HM4 Hrest Hb'.
    eapply Hk; [done|done|done| |done]. intros n Hn. rewrite Hrest by done. by rewrite !lookup_insert_ne.
  - step. intros o1 fs1 j1 Hc1 Ha1. destruct (staged_import _ _ _ _ _ _ _ _ _ _ Hst Hso Hc1 HM) as (f & Hf & Hst1).
    step. intros o2 fs2 j2 Hc2 Ha2. apply (open_staged _ _ _ NDisk s f _ _ _ Hst1) in Hc2 as [-> ->]; [|by rewrite lookup_insert_eq].
    eapply Hk; [done|done|by rewrite lookup_insert_eq| |done]. intros n Hn. by rewrite lookup_insert_ne.
Qed.
Lemma staged_mkdir o fs fs' d dp np s b :
  wf fs -> versions fs SANDBOXES (fun _ => True) -> entry fs dp np = Some (FileAt s) ->
  (exists synced, fs_files fs !! s = Some (MkBytes b synced)) ->
  call (Mkdir (staging id)) o fs = (fs', Got d) -> staged fs' d ∅ /\ source fs' d ∅ dp np s b.
Proof.
  intros Hwf Hv He Hs Hc. cbn in Hc. unfold versions in Hv.
  destruct (fs_dirs fs !! SANDBOXES) as [D|] eqn:HD; [|done]. cbn in Hc.
  destruct (entry fs SANDBOXES (NPartial id)) eqn:Hn; [done|]. destruct (o_ok o); [|done]. injection Hc as <- <-.
  assert (Hne : SANDBOXES <> fs_next fs). { intros Heq. apply Hwf in HD. lia. }
  assert (Hent : forall dd m, dd <> fs_next fs -> entry (edit <[ NPartial id := DirAt (fs_next fs) ]> SANDBOXES (new_dir fs)) dd m =
    if bool_decide (SANDBOXES = dd /\ NPartial id = m) then Some (DirAt (fs_next fs)) else entry fs dd m).
  { intros dd m Hdd. rewrite entry_insert by (cbn; rewrite lookup_insert_ne by done; eauto). case_bool_decide; [done|].
    unfold entry; cbn. by rewrite lookup_insert_ne. }
  split; split; try done.
  - rewrite Hent by done. by rewrite bool_decide_true.
  - apply dirs_edit. cbn. rewrite lookup_insert_eq. eauto.
  - by eapply dir_fresh.
  - rewrite Hent by by eapply dir_fresh. rewrite bool_decide_false; [done|]. intros [<- <-]. congruence.
Qed.

Context (record_json : Z -> bytes) (nd : NewDisk) (dp : nat) (np : Name) (s : nat) (b : bytes).
Context (Hrecord : record_json 0 = record) (Hdisk : disk_of nd b = disk).
Context (Hpath : disk_path nd = At dp np) (Hnp : np <> NId id).

Lemma wpc_make_inner fs d :
  absent fs -> staged fs d ∅ -> source fs d ∅ dp np s b ->
  wpc (make_inner id record_json nd config) fs whole made_post.
Proof.
  intros Ha Hst Hso. unfold make_inner.
  step. intros o1 fs1 i1 Hc1 Ha1. destruct (staged_create _ _ _ _ _ _ _ (proj1 Ha) Hst Hc1) as [Hst1 Hso1].
  specialize (Hso1 _ _ _ _ Hso).
  step. intros o2 fs2 j2 Hc2 Ha2. apply write_got in Hc2 as [_ ->].
  destruct (staged_set _ _ _ NRecord i1 _ (MkBytes (record_json 0) false) ltac:(by rewrite lookup_insert_eq) Hst1) as [Hst2 Hso2].
  specialize (Hso2 _ _ _ _ Hso1).
  step. intros o3 fs3 i3 Hc3 Ha3. destruct (staged_create _ _ _ _ _ _ _ (proj1 Ha2) Hst2 Hc3) as [Hst3 Hso3].
  specialize (Hso3 _ _ _ _ Hso2).
  step. intros o4 fs4 j4 Hc4 Ha4. apply write_got in Hc4 as [_ ->].
  destruct (staged_set _ _ _ NConfig i3 _ (MkBytes config false) ltac:(by rewrite lookup_insert_eq) Hst3) as [Hst4 Hso4].
  specialize (Hso4 _ _ _ _ Hso3).
  eapply wpc_make_disk; [done|done|done|done|done|by simplify_map_eq|].
  intros fs5 M5 i5 f5 Ha5 Hst5 HM5 Hrest Hf5.
  eapply (wpc_make_sync _ _ M5 _ _ _ (MkBytes (record_json 0) false) (MkBytes config false)); try done.
  - rewrite Hrest by done. by simplify_map_eq.
  - rewrite Hrest by done. by simplify_map_eq.
  - by rewrite Hf5.
Qed.

(** After an error the cleanup leaves either none or, where only the last sync
    failed, the sandbox, whose staging directory is no more. *)
Lemma wpc_clean fs :
  absent fs \/ moved fs -> wpc (RemoveAll (staging id) ;;* Ret None) fs whole (fun r fs => r = Some tt -> finished fs).
Proof.
  intros [Ha|[Hw Hn]].
  - split; [by apply absent_whole|]. intros o fs1 r Hc. apply wpc_ret; [|done]. apply absent_whole.
    pose proof (absent_call (RemoveAll (staging id)) o fs ltac:(done) Ha) as Ha1. by rewrite Hc in Ha1.
  - split; [done|]. intros o fs1 r Hc. apply wpc_ret; [|done]. cbn in Hc.
    assert (entry fs SANDBOXES (NPartial id) = None) by done.
    destruct (fs_dirs fs !! SANDBOXES); cbn in Hc; [|by simplify_eq]. rewrite Hn in Hc. by simplify_eq.
Qed.
Lemma wpc_back fs :
  absent fs \/ moved fs ->
  wpc (Rename (in_staging id NDisk) (disk_path nd) ;;* RemoveAll (staging id) ;;* Ret None) fs whole (fun r fs => r = Some tt -> finished fs).
Proof.
  rewrite Hpath. intros [Ha|[Hw Hn]].
  - split; [by apply absent_whole|]. intros o fs1 r Hc. apply wpc_clean. left.
    pose proof (absent_call (Rename (in_staging id NDisk) (At dp np)) o fs ltac:(cbn; congruence) Ha) as Ha1.
    by rewrite Hc in Ha1.
  - split; [done|]. intros o fs1 r Hc. apply wpc_clean. right. cbn in Hc. rewrite Hn in Hc. injection Hc as <- <-. done.
Qed.

Lemma wpc_make fs :
  absent fs -> entry fs dp np = Some (FileAt s) -> (exists synced, fs_files fs !! s = Some (MkBytes b synced)) ->
  wpc (make id record_json nd config) fs whole (fun r fs => r = Some tt -> finished fs).
Proof.
  intros Ha He Hs. unfold make. apply (wpc_absent_try); [done|done| |].
  { intros fs1 Ha1. by split; [apply absent_whole|]. }
  intros o fs1 d Hc Ha1. apply wpc_bind.
  eapply staged_mkdir in Hc as [Hst Hso]; [|by apply Ha|by eapply versions_mono; [apply Ha|]|done|done].
  eapply wpc_mono; [by eapply wpc_make_inner|done|]. intros [[]|] fs2 Hp; cbn in Hp.
  - apply wpc_ret; [|done]. eapply versions_mono; [done|]. by right.
  - pose proof (wpc_back fs2 Hp) as Hb. pose proof (wpc_clean fs2 Hp) as Hclean. by destruct nd.
Qed.
End made.

(** *** After a crash *)

(** The sandbox after a crash: a directory of its name with the three files. *)
Definition found_whole (k : Disk) (id : nat) (record config disk : bytes) : Prop :=
  exists d, subdir k SANDBOXES (NId id) = Some d /\
    reads k d NRecord = Some record /\ reads k d NConfig = Some config /\ reads k d NDisk = Some disk.

Lemma named_complete id record config disk fs k E :
  k_dirs k !! SANDBOXES = Some E -> named id record config disk fs E -> after_crash fs k -> found_whole k id record config disk.
Proof.
  intros HE (d & Hd & Hs) Hk. exists d. unfold subdir, reads. rewrite HE. cbn. rewrite Hd. split; [done|].
  destruct (crash_versions _ _ _ _ Hs Hk) as (E' & HE' & Hf).
  rewrite !Forall_cons in Hf. destruct Hf as ((i1 & H1 & F1) & (i2 & H2 & F2) & (i3 & H3 & F3) & _).
  rewrite HE'. cbn in *. rewrite H1, H2, H3. split_and!; by eapply crash_file.
Qed.

(** The file the disk is made of is there, with bytes [b]. *)
Definition source_file (fs : FS) (l : Loc) (b : bytes) : Prop :=
  match l with
  | At d n => exists s synced, entry fs d n = Some (FileAt s) /\ fs_files fs !! s = Some (MkBytes b synced)
  | _ => False
  end.

(** C19: A crash at any point of [make], with any calls failing before it, leaves
    no sandbox of that name or a whole one: its record, its config and its
    disk, grown where it is a copy, all on disk. Once [make] answers that it is
    made, it is there. *)
Theorem make_is_all_or_nothing id record_json nd config b fs n os fs' r k :
  absent id fs -> source_file fs (disk_path nd) b -> last_name (disk_path nd) <> Some (NId id) ->
  exec n os (make id record_json nd config) fs = (fs', r) -> after_crash fs' k ->
  match E ← k_dirs k !! SANDBOXES; E !! NId id with
  | Some _ => found_whole k id (record_json 0) config (disk_of nd b)
  | None => r <> Some (Some tt)
  end.
Proof.
  intros Ha Hs Hl He Hk. destruct (disk_path nd) as [|dp np|] eqn:Hp; cbn in Hs; try done.
  destruct Hs as (s & sy & Hent & Hs). cbn in Hl.
  pose proof (wpc_make id _ config _ record_json nd dp np s b eq_refl eq_refl Hp ltac:(congruence) fs Ha Hent (ex_intro _ sy Hs)) as Hw.
  destruct (wpc_sound _ _ _ _ _ _ _ _ Hw He) as [HC HQ].
  destruct (crash_versions _ _ _ _ HC Hk) as (E & HE & HE'). rewrite HE. cbn.
  destruct HE' as [HE'|HE']; [rewrite HE'|].
  - intros ->. destruct (crash_versions _ _ _ _ (HQ _ eq_refl eq_refl) Hk) as (E2 & HE2 & d & Hd & _). congruence.
  - assert (Hcomplete : found_whole k id (record_json 0) config (disk_of nd b)) by by eapply named_complete.
    destruct HE' as (d & -> & _). done.
Qed.

(** Sandboxes, import and parked are directories 0 to 2; a disk to import is
    file 3. *)
Definition small_fs : FS :=
  MkFS {[ SANDBOXES := MkDir ∅ []; IMPORT := MkDir {[ NFile 0 := FileAt 3 ]} []; PARKED := MkDir ∅ [] ]}
    {[ 3%nat := MkBytes [z2b 1; z2b 2] true ]} 4.
Definition small_json (boot : Z) : bytes := [z2b boot].

Definition small_make : FS * option (option unit) := exec 100 [] (make 7 small_json (Import (At IMPORT (NFile 0))) []) small_fs.
Lemma small_absent : absent 7 small_fs.
Proof. split; [by apply (bool_decide_unpack _)|by vm_compute; repeat constructor]. Qed.

Lemma make_is_all_or_nothing_witness :
  match E ← k_dirs (disk_now small_make.1) !! SANDBOXES; E !! NId 7 with
  | Some _ => found_whole (disk_now small_make.1) 7 (small_json 0) [] [z2b 1; z2b 2]
  | None => small_make.2 <> Some (Some tt)
  end /\ small_make.2 = Some (Some tt).
Proof.
  split; [|by vm_compute].
  apply (make_is_all_or_nothing 7 small_json (Import (At IMPORT (NFile 0))) [] [z2b 1; z2b 2] small_fs 100 [] small_make.1 small_make.2 (disk_now small_make.1)).
  - exact small_absent.
  - exists 3%nat, true. done.
  - done.
  - apply surjective_pairing.
  - apply crash_now.
Defined.
