(* ===== verification/SandboxSwap.v ===== *)
(** * Crash safety of the files of a sandbox: replacing and removing

    What a crash leaves of [replace_json], [park_copy], [restore_disk] and
    [bury], and of a disk that is imported. *)

From stdpp Require Import gmap.
From S2P Require Import Prelude Cas SandboxFiles SandboxCrash.
Open Scope shuru_scope.

(** ** Files replaced

    A file is put in place of name [n] of directory [d] through name [partial]:
    in each version [n] is what it was, [x], or a file with the bytes [data] on
    disk. [F] is what else is kept of the versions, given the files, and [src] a
    file that stays where it is, in another directory. The directory is a state
    directory, or one at name [n0] of directory [d0]. *)

(** Files on disk stay. *)
Definition stays (files files' : gmap nat Bytes) : Prop :=
  forall i b, files !! i = Some (MkBytes b true) -> files' !! i = Some (MkBytes b true).
Record Src := MkSrc { src_dir : nat; src_name : Name; src_file : nat; src_bytes : Bytes }.

(** The name is of a file with the bytes on disk. *)
Definition has_file (n : Name) (data : bytes) (files : gmap nat Bytes) (E : Entries) : Prop :=
  exists i, E !! n = Some (FileAt i) /\ files !! i = Some (MkBytes data true).
Lemma has_file_stays n data files files' E : stays files files' -> has_file n data files E -> has_file n data files' E.
Proof. intros Hst (i & Hi & Hb). exists i. auto. Qed.

Section replaced.
Context (d : nat) (sub : option (nat * Name)) (n partial : Name) (x : option FNode) (data : bytes).
Context (F : gmap nat Bytes -> Entries -> Prop) (src : option Src).
Context (Hpartial : partial <> n).
Context (HF : forall fl E m y, m = n \/ m = partial -> F fl E -> F fl (<[ m := y ]> E) /\ F fl (delete m E)).
Context (HFs : forall fl fl' E, stays fl fl' -> F fl E -> F fl' E).

Definition loc (m : Name) : Loc := match sub with None => At d m | Some (d0, n0) => In d0 n0 m end.
Definition top : Loc := match sub with None => Top d | Some (d0, n0) => At d0 n0 end.
Definition here (fs : FS) : Prop :=
  is_Some (fs_dirs fs !! d) /\ match sub with None => True | Some (d0, n0) => d0 <> d /\ entry fs d0 n0 = Some (DirAt d) end.
Definition kept (fs : FS) : Prop :=
  match src with
  | Some sr => src_dir sr <> d /\ entry fs (src_dir sr) (src_name sr) = Some (FileAt (src_file sr)) /\
      fs_files fs !! src_file sr = Some (src_bytes sr)
  | None => True
  end.

Definition either (fs : FS) : Prop :=
  wf fs /\ here fs /\ kept fs /\ versions fs d (fun E => F (fs_files fs) E /\ (E !! n = x \/ has_file n data (fs_files fs) E)).
Definition replaced (fs : FS) : Prop :=
  wf fs /\ here fs /\ kept fs /\ versions fs d (fun E => F (fs_files fs) E /\ has_file n data (fs_files fs) E).

Lemma replaced_either fs : replaced fs -> either fs.
Proof. intros (Hwf & Hh & Hk & H). split_and!; [done..|]. eapply versions_mono; [done|]. intros E []; auto. Qed.

Lemma here_parent fs m : here fs -> parent fs (loc m) = Some (d, m).
Proof. unfold here, loc. intros [[D HD] H]. destruct sub as [[d0 n0]|]; cbn; [destruct H as [_ ->]|]; by rewrite HD. Qed.
Lemma here_resolve fs m : here fs -> resolve_at fs (loc m) = entry fs d m.
Proof. intros H. pose proof (here_parent fs m H) as Hp. unfold resolve_at, loc in *. destruct sub as [[]|]; by rewrite Hp. Qed.
Lemma here_top fs : here fs -> resolve_at fs top = Some (DirAt d).
Proof.
  unfold here, top. intros [[D HD] H]. destruct sub as [[d0 n0]|]; cbn; [|by rewrite HD].
  destruct H as [_ H]. destruct (entry_exists _ _ _ _ H) as [D0 HD0]. rewrite HD0. cbn. by rewrite H.
Qed.
Lemma here_edit f fs : here fs -> here (edit f d fs).
Proof.
  unfold here. intros [H1 H2]. split; [by apply dirs_edit|]. destruct sub as [[d0 n0]|]; [|done]. destruct H2 as [Hne He].
  split; [done|]. by rewrite entry_edit_other.
Qed.
Lemma kept_edit f fs : kept fs -> kept (edit f d fs).
Proof. unfold kept. destruct src; [|done]. intros (Hd & He & Hf). by rewrite entry_edit_other. Qed.

Lemma either_edit f fs :
  either fs -> (forall E, f E !! n = E !! n) -> (forall fl E, F fl E -> F fl (f E)) -> either (edit f d fs).
Proof.
  intros (Hwf & Hh & Hk & H) Hn Hf. split_and!; [by apply wf_edit|by apply here_edit|by apply kept_edit|].
  apply versions_edit; [done|]. intros _ E [HE HE']. unfold has_file. rewrite Hn. auto.
Qed.
Lemma either_files fs fs' :
  either fs -> wf fs' -> fs_dirs fs' = fs_dirs fs -> stays (fs_files fs) (fs_files fs') ->
  (forall sr, src = Some sr -> fs_files fs' !! src_file sr = fs_files fs !! src_file sr) -> either fs'.
Proof.
  intros (Hwf & Hh & Hk & H) Hwf' Hd Hst Hsrc. unfold either, here, kept, versions, entry in *. rewrite Hd. split; [done|]. split; [done|]. split.
  - destruct src as [sr|]; [|done]. by rewrite Hsrc.
  - destruct (fs_dirs fs !! d); [|done]. eapply Forall_impl; [done|]. intros E [HE HE']. split; [by eapply HFs|].
    destruct HE'; [by left|right]. by eapply has_file_stays.
Qed.
(** A file that is not on disk gets other bytes. *)
Lemma either_set i c c' fs :
  either fs -> fs_files fs !! i = Some c -> (f_synced c = true -> c' = c) -> (forall sr, src = Some sr -> src_file sr <> i) ->
  either (set_file i c' fs).
Proof.
  intros He Hi Hc Hsrc. eapply either_files; [done|apply wf_set_file; [apply He|eauto]|done|..].
  - intros j b Hj. cbn. destruct (decide (i = j)) as [<-|]; [|by rewrite lookup_insert_ne].
    rewrite lookup_insert_eq. rewrite Hi in Hj. injection Hj as ->. by rewrite Hc.
  - intros sr Hsr. cbn. rewrite lookup_insert_ne; [done|]. by apply not_eq_sym, Hsrc.
Qed.
Lemma either_new_file fs : either fs -> either (new_file fs).
Proof.
  intros He. pose proof He as (Hwf & _ & Hk & _). eapply either_files; [done|by apply wf_new_file|done|..].
  - intros j b Hj. cbn. apply file_fresh in Hj as ?; [|done]. by rewrite lookup_insert_ne.
  - intros sr Hsr. cbn. unfold kept in Hk. rewrite Hsr in Hk. destruct Hk as (_ & _ & Hk). apply file_fresh in Hk; [|done].
    by rewrite lookup_insert_ne.
Qed.
Lemma either_write i c b o fs :
  either fs -> fs_files fs !! i = Some (MkBytes c false) -> (forall sr, src = Some sr -> src_file sr <> i) ->
  either (write i b o fs).1.
Proof. intros He Hi Hs. unfold write. rewrite Hi. destruct (o_ok o); by eapply either_set. Qed.

(** *** The calls that put it there *)

Lemma either_remove o fs : either fs -> either (call (Remove (loc partial)) o fs).1.
Proof.
  intros He. pose proof He as (Hwf & Hh & _). cbn. rewrite (here_parent _ _ Hh), (here_resolve _ _ Hh).
  repeat case_match; try done. cbn. apply either_edit; [done|..].
  - intros E0. by rewrite lookup_delete_ne.
  - intros fl E0 HE. by apply (HF fl E0 partial (FileAt 0)); [right|].
Qed.
Lemma either_create o fs : either fs -> either (call (Create (loc partial)) o fs).1.
Proof.
  intros He. pose proof He as (Hwf & Hh & _). cbn. rewrite (here_parent _ _ Hh).
  repeat case_match; try done. cbn. apply either_edit; [by apply either_new_file|..].
  - intros E0. by rewrite lookup_insert_ne.
  - intros fl E0 HE. by apply HF; [right|].
Qed.
Lemma either_clone i s c o fs :
  either fs -> fs_files fs !! i = Some (MkBytes c false) -> (forall sr, src = Some sr -> src_file sr <> i) ->
  either (call (CloneFrom i s) o fs).1.
Proof. intros He Hi Hs. cbn. case_match; [|done]. by eapply either_write. Qed.
Lemma either_sync_file i c o fs :
  either fs -> fs_files fs !! i = Some c -> (forall sr, src = Some sr -> src_file sr <> i) -> either (call (Sync i) o fs).1.
Proof.
  intros He Hi Hs. cbn. rewrite Hi. destruct (o_ok o); [|done]. cbn. eapply either_set; [done|done| |done]. by destruct c as [? []].
Qed.
Lemma either_open l o fs : either fs -> either (call (Open l) o fs).1.
Proof. intros He. cbn. by repeat case_match. Qed.
Lemma either_size i o fs : either fs -> either (call (Size i) o fs).1.
Proof. intros He. cbn. by repeat case_match. Qed.

Lemma create_partial o fs fs' i :
  either fs -> call (Create (loc partial)) o fs = (fs', Got i) ->
  entry fs' d partial = Some (FileAt i) /\ fs_files fs' !! i = Some (MkBytes [] false) /\
  (forall sr, src = Some sr -> src_file sr <> i).
Proof.
  intros (Hwf & Hh & Hk & _) (d' & n' & Hp & Hnone & -> & ->)%create_got.
  rewrite (here_parent _ _ Hh) in Hp. injection Hp as <- <-. split_and!; cbn.
  - rewrite entry_insert by apply Hh. by rewrite bool_decide_true.
  - by rewrite lookup_insert_eq.
  - intros sr Hsr. unfold kept in Hk. rewrite Hsr in Hk. destruct Hk as (_ & _ & Hk). by eapply file_fresh.
Qed.

Definition put_post {A} (a : A) (r : option A) (fs : FS) : Prop :=
  if r is Some a' then a' = a /\ replaced fs else either fs.

Lemma replaced_sync o fs fs' j i :
  either fs -> entry fs d n = Some (FileAt i) -> fs_files fs !! i = Some (MkBytes data true) ->
  call (Sync d) o fs = (fs', Got j) -> replaced fs'.
Proof.
  intros He Hn Hi Hc. pose proof He as (Hwf & Hh & Hk & Hv). destruct (proj1 Hh) as [D HD].
  pose proof (wf_call (Sync d) o fs Hwf) as Hwf'. rewrite Hc in Hwf'.
  apply (sync_dir_got _ _ _ _ _ _ Hwf HD) in Hc as ->.
  assert (Hent : forall d' m, d' <> d -> entry (MkFS (<[ d := MkDir (d_now D) [] ]> (fs_dirs fs)) (fs_files fs) (fs_next fs)) d' m = entry fs d' m).
  { intros d' m Hd'. unfold entry; cbn. by rewrite lookup_insert_ne. }
  split_and!; [done|..].
  - destruct Hh as [_ Hs]. unfold here. cbn [fs_dirs]. rewrite lookup_insert_eq. split; [eauto|]. destruct sub as [[d0 n0]|]; [|done].
    destruct Hs as [Hne Hs]. split; [done|]. by rewrite Hent.
  - unfold kept in *. destruct src; [|done]. destruct Hk as (Hd & Hk1 & Hk2). by rewrite Hent.
  - unfold versions. cbn [fs_dirs]. rewrite lookup_insert_eq. apply Forall_singleton. cbn.
    unfold versions in Hv. rewrite HD in Hv. apply Forall_cons in Hv as [[HE _] _]. split; [done|]. exists i.
    unfold entry in Hn. by rewrite HD in Hn.
Qed.

(** A file on disk, elsewhere or under the partial name, is renamed. *)
Lemma either_rename from df nf i fs :
  either fs -> parent fs from = Some (df, nf) -> entry fs df nf = Some (FileAt i) -> fs_files fs !! i = Some (MkBytes data true) ->
  (df = d -> nf = partial) -> (forall sr, src = Some sr -> df <> src_dir sr) ->
  either (edit <[ n := FileAt i ]> d (edit (delete nf) df fs)) /\
  entry (edit <[ n := FileAt i ]> d (edit (delete nf) df fs)) d n = Some (FileAt i).
Proof.
  intros (Hwf & Hh & Hk & Hv) Hp He Hi Hd Hsrc.
  assert (Hex : is_Some (fs_dirs (edit (delete nf) df fs) !! d)) by by apply dirs_edit, Hh.
  split; [|rewrite entry_insert by done; by rewrite bool_decide_true]. split_and!.
  - by apply wf_edit, wf_edit.
  - apply here_edit. destruct Hh as [_ Hh]. split; [done|]. destruct sub as [[d0 n0]|]; [|done]. destruct Hh as [Hne Hh].
    split; [done|]. rewrite entry_delete. rewrite bool_decide_false; [done|]. intros [-> ->]. congruence.
  - apply kept_edit. unfold kept in *. destruct src as [sr|]; [|done]. destruct Hk as (? & ? & ?). split_and!; [done| |done].
    rewrite entry_edit_other; [done|]. by apply not_eq_sym, Hsrc.
  - apply (versions_mono _ _ (fun E => F (fs_files fs) E /\ (E !! n = x \/ has_file n data (fs_files fs) E))); [|done].
    apply versions_edit; [apply versions_edit; [done|]|].
    + intros -> E [HE HE']. rewrite (Hd eq_refl). unfold has_file. rewrite lookup_delete_ne by done.
      split; [|done]. by apply (HF _ E partial (FileAt 0)); [right|].
    + intros _ E [HE HE']. split; [by apply HF; [left|]|]. right. exists i. by rewrite lookup_insert_eq.
Qed.

(** From there on: the file is named, and the directory synced. *)
Lemma wpc_put {A} fs from df nf i (a : A) :
  either fs -> parent fs from = Some (df, nf) -> resolve_at fs from = entry fs df nf -> entry fs df nf = Some (FileAt i) ->
  fs_files fs !! i = Some (MkBytes data true) -> (df = d -> nf = partial) -> (forall sr, src = Some sr -> df <> src_dir sr) ->
  wpc (let* _ := Rename from (loc n) in sync_at top (Ret (Some a))) fs either (put_post a).
Proof.
  intros He Hp Hr0 Hpn Hi Hd Hs. pose proof He as (_ & Hh & _). apply wpc_try; [done|]. intros o fs1 r Hc.
  cbn in Hc. rewrite (here_parent _ _ Hh), Hp, Hr0, Hpn in Hc. destruct (o_ok o && _); injection Hc as <- <-; [|done].
  destruct (either_rename _ _ _ _ _ He Hp Hpn Hi Hd Hs) as [He1 Hn1]. set (fs1 := edit _ _ _) in *.
  apply (wpc_try_keep _ _ either); [done|done|intros; by apply either_open|]. intros o2 fs2 j Hc2 He2.
  apply open_got in Hc2 as [-> Hr]. rewrite (here_top _ (proj1 (proj2 He1))) in Hr. assert (j = d) as -> by (destruct Hr; congruence).
  apply wpc_try; [done|]. intros o3 fs3 r3 Hc3. destruct r3 as [j3| |].
  - eapply replaced_sync in Hc3; [|done..]. split; [by apply replaced_either|done].
  - cbn in Hc3. repeat case_match; by simplify_eq.
  - assert (fs3 = fs1) as -> by (cbn in Hc3; repeat case_match; congruence). done.
Qed.

(** An error ends with the partial file removed. *)
Lemma wpc_or_remove {A} (a : A) (p : prog (option A)) fs :
  wpc p fs either (put_post a) ->
  wpc (bind p (fun r => if r is Some a then Ret (Some a) else Remove (loc partial) ;;* Ret None)) fs either (put_post a).
Proof.
  intros H. apply wpc_bind. eapply wpc_mono; [done|done|]. intros [a'|] fs1 H1; cbn in H1.
  - destruct H1 as [-> H1]. apply wpc_ret; [by apply replaced_either|done].
  - split; [done|]. intros o fs2 r Hc. pose proof (either_remove o fs1 H1) as H2. rewrite Hc in H2. done.
Qed.

(** The partial file with the bytes, on disk once synced, takes the name. *)
Lemma wpc_put_partial {A} fs i b o fs' j (a : A) :
  either fs -> entry fs d partial = Some (FileAt i) -> fs_files fs !! i = Some (MkBytes data b) ->
  (forall sr, src = Some sr -> src_file sr <> i) -> call (Sync i) o fs = (fs', Got j) ->
  wpc (let* _ := Rename (loc partial) (loc n) in sync_at top (Ret (Some a))) fs' either (put_post a).
Proof.
  intros He Hp Hi Hs Hc. pose proof (either_sync_file i _ o fs He Hi Hs) as He'. rewrite Hc in He'.
  apply (sync_file_got _ _ _ _ _ _ Hi) in Hc as ->. pose proof He' as (_ & Hh & Hk & _).
  eapply (wpc_put _ _ d partial); [done|by apply here_parent|by apply here_resolve|done|cbn; by rewrite lookup_insert_eq|done|].
  intros sr Hsr. unfold kept in Hk. rewrite Hsr in Hk. by apply not_eq_sym, Hk.
Qed.
End replaced.

(** *** [replace_json], [park_copy] *)

Lemma wpc_replace_json id d name partial x value F src fs :
  let sb := Some (SANDBOXES, NId id) in
  partial <> name -> (forall fl E m y, m = name \/ m = partial -> F fl E -> F fl (<[ m := y ]> E) /\ F fl (delete m E)) ->
  (forall fl fl' E, stays fl fl' -> F fl E -> F fl' E) -> either d sb name x value F src fs ->
  wpc (replace_json id name partial value) fs (either d sb name x value F src) (put_post d sb name x value F src tt).
Proof.
  intros sb Hne HF HFs He. pose (I := either d sb name x value F src). fold I.
  split; [done|]. intros o fs1 r Hc. pose proof (either_remove d sb name partial x value F src Hne HF o fs He) as He1.
  change (call (Remove (loc d sb partial)) o fs = (fs1, r)) in Hc. rewrite Hc in He1. clear dependent fs. rename fs1 into fs, He1 into He.
  apply (wpc_or_remove d sb name partial); [done..|].
  apply (wpc_try_keep _ _ I); [done|done|intros; by apply (either_create d sb name partial)|]. intros o1 fs1 i Hc1 He1.
  apply (create_partial d sb name partial x value F src) in Hc1 as (Hent & Hf & Hsrc); [|done].
  apply (wpc_try_keep _ _ I); [done|done|intros; by eapply either_write|]. intros o2 fs2 j2 Hc2 He2.
  apply write_got in Hc2 as [_ ->].
  assert (Hi2 : fs_files (set_file i (MkBytes value false) fs1) !! i = Some (MkBytes value false)) by (cbn; by rewrite lookup_insert_eq).
  apply (wpc_try_keep _ _ I); [done|done|intros; by eapply either_sync_file|]. intros o3 fs3 j3 Hc3 _.
  by eapply (wpc_put_partial d sb name partial x value F src Hne HF HFs _ i _ _ _ _ tt He2).
Qed.

Lemma wpc_park_copy id n x b d s sy fs :
  let sr := Some (MkSrc d NDisk s (MkBytes b sy)) in
  entry fs SANDBOXES (NId id) = Some (DirAt d) -> either PARKED None (NParked n) x b (fun _ _ => True) sr fs ->
  wpc (park_copy id n) fs (either PARKED None (NParked n) x b (fun _ _ => True) sr)
    (put_post PARKED None (NParked n) x b (fun _ _ => True) sr (length b)).
Proof.
  intros sr Hid He. pose (I := either PARKED None (NParked n) x b (fun _ _ => True) sr). fold I.
  split; [done|]. intros o fs1 r Hc.
  pose proof (either_remove PARKED None (NParked n) (NParkedPartial n) x b (fun _ _ => True) sr ltac:(done) ltac:(done) o fs He) as He1.
  change (call (Remove (loc PARKED None (NParkedPartial n))) o fs = (fs1, r)) in Hc. rewrite Hc in He1.
  assert (Hid1 : entry fs1 SANDBOXES (NId id) = Some (DirAt d)).
  { cbn in Hc. repeat case_match; simplify_eq; try done. by rewrite entry_edit_other; [|simplify_option_eq]. }
  clear dependent fs. rename fs1 into fs, He1 into He.
  apply (wpc_or_remove PARKED None (NParked n) (NParkedPartial n)); [done..|].
  apply (wpc_try_keep _ _ I); [done|done|intros; by apply either_open|]. intros o1 fs1 i1 Hc1 _.
  apply open_got in Hc1 as [-> Hr]. pose proof He as (_ & _ & (Hd & Hdisk & Hs) & _).
  assert (i1 = s) as ->.
  { cbn in Hr. rewrite Hid1 in Hr. destruct (entry_exists _ _ _ _ Hdisk) as [D HD]. cbn in HD. rewrite HD in Hr. cbn in Hr, Hdisk.
    rewrite Hdisk in Hr. by destruct Hr; simplify_eq. }
  apply (wpc_try_keep _ _ I); [done|done|intros; by apply (either_create PARKED None (NParked n) (NParkedPartial n))|].
  intros o2 fs2 i Hc2 He2.
  apply (create_partial PARKED None (NParked n) (NParkedPartial n) x b (fun _ _ => True) sr) in Hc2 as (Hent & Hf & Hsrc); [|done].
  apply (wpc_try_keep _ _ I); [done|done|intros; by eapply either_clone|]. intros o3 fs3 j3 Hc3 He3.
  apply clone_got in Hc3 as (bb & Hbb & _ & ->). destruct He2 as (_ & _ & (_ & _ & Hs2) & _). cbn in Hs2.
  rewrite Hbb in Hs2. injection Hs2 as ->. cbn [f_data] in *.
  assert (Hi3 : fs_files (set_file i (MkBytes b false) fs2) !! i = Some (MkBytes b false)) by (cbn; by rewrite lookup_insert_eq).
  apply (wpc_try_keep _ _ I); [done|done|intros; by eapply either_sync_file|]. intros o4 fs4 j4 Hc4 He4.
  pose proof (sync_file_got _ _ _ _ _ _ Hi3 Hc4) as Hfs4.
  assert (Hi4 : fs_files fs4 !! i = Some (MkBytes b true)) by (rewrite Hfs4; cbn; by rewrite lookup_insert_eq).
  apply (wpc_try_keep _ _ I); [done|done|intros; by apply either_size|]. intros o5 fs5 j5 Hc5 _.
  apply (size_got _ _ _ _ _ _ Hi4) in Hc5 as [-> ->].
  apply (wpc_put_partial PARKED None (NParked n) (NParkedPartial n) x b (fun _ _ => True) sr ltac:(done) ltac:(done) ltac:(done)
    _ i _ _ _ _ (length b) He3 Hent Hi3 Hsrc Hc4).
Qed.

(** Parking a disk leaves at its place, whatever crash comes, what was there
    before or the whole disk; once it answers, the whole disk, of the size it
    answers. *)
Theorem parked_copy_is_whole id n d s b sy x fs m os fs' r k :
  entry fs SANDBOXES (NId id) = Some (DirAt d) -> entry fs d NDisk = Some (FileAt s) -> fs_files fs !! s = Some (MkBytes b sy) ->
  wf fs -> d <> PARKED -> versions fs PARKED (fun E => E !! NParked n = x) ->
  exec m os (park_copy id n) fs = (fs', r) -> after_crash fs' k ->
  (r = Some (Some (length b)) /\ reads k PARKED (NParked n) = Some b) \/
  (forall size, r <> Some (Some size)) /\
    ((E ← k_dirs k !! PARKED; E !! NParked n) = x \/ reads k PARKED (NParked n) = Some b).
Proof.
  intros Hid Hdisk Hs Hwf Hd Hx He Hk.
  assert (H0 : either PARKED None (NParked n) x b (fun _ _ => True) (Some (MkSrc d NDisk s (MkBytes b sy))) fs).
  { split; [done|]. split; [|split; [done|]].
    - split; [|done]. unfold versions in Hx. destruct (fs_dirs fs !! PARKED); [eauto|done].
    - eapply versions_mono; [done|]. auto. }
  destruct (wpc_sound _ _ _ _ _ _ _ _ (wpc_park_copy _ _ _ _ _ _ _ _ Hid H0) He) as [HC HQ].
  assert (Hread : forall E, k_dirs k !! PARKED = Some E -> has_file (NParked n) b (fs_files fs') E -> reads k PARKED (NParked n) = Some b).
  { intros E HE (i & Hi & Hf). unfold reads. rewrite HE. cbn. rewrite Hi. cbn. by eapply crash_file. }
  destruct r as [[size|]|].
  - left. destruct (HQ _ eq_refl) as [-> (_ & _ & _ & Hv)]. destruct (crash_versions _ _ _ _ Hv Hk) as (E & HE & _ & HE'). eauto.
  - right. split; [done|]. destruct HC as (_ & _ & _ & Hv). destruct (crash_versions _ _ _ _ Hv Hk) as (E & HE & _ & HE').
    rewrite HE. cbn. destruct HE'; eauto.
  - right. split; [done|]. destruct HC as (_ & _ & _ & Hv). destruct (crash_versions _ _ _ _ Hv Hk) as (E & HE & _ & HE').
    rewrite HE. cbn. destruct HE'; eauto.
Qed.

(** A sandbox that exists: its directory, 4, with a record of boot 1, a config
    and a disk, and a disk to restore, file 3. *)
Definition made_fs : FS :=
  MkFS {[ SANDBOXES := MkDir {[ NId 7 := DirAt 4 ]} []; IMPORT := MkDir {[ NFile 0 := FileAt 3 ]} []; PARKED := MkDir ∅ [];
          4%nat := MkDir {[ NRecord := FileAt 5; NConfig := FileAt 6; NDisk := FileAt 8 ]} [] ]}
    {[ 3%nat := MkBytes [z2b 1; z2b 2] false; 5%nat := MkBytes [z2b 1] true; 6%nat := MkBytes [] true;
       8%nat := MkBytes [z2b 9] true ]} 9.
Lemma made_wf : wf made_fs.
Proof. by apply (bool_decide_unpack _). Qed.

Lemma parked_copy_is_whole_witness :
  let run := exec 100 [] (park_copy 7 0) made_fs in
  (run.2 = Some (Some 1%nat) /\ reads (disk_now run.1) PARKED (NParked 0) = Some [z2b 9]) \/
  (forall size, run.2 <> Some (Some size)) /\
    ((E ← k_dirs (disk_now run.1) !! PARKED; E !! NParked 0) = None \/ reads (disk_now run.1) PARKED (NParked 0) = Some [z2b 9]).
Proof.
  intros run. apply (parked_copy_is_whole 7 0 4 8 [z2b 9] true None made_fs 100 [] run.1).
  - done.
  - done.
  - done.
  - exact made_wf.
  - done.
  - by vm_compute; repeat constructor.
  - apply surjective_pairing.
  - apply crash_now.
Defined.

(** *** [restore_disk] *)

Lemma wpc_andthen {A B} (p : prog (option A)) (k : A -> prog (option B)) C Q fs :
  wpc p fs C (fun r fs => match r with Some a => wpc (k a) fs C Q | None => C fs /\ Q None fs end) -> wpc (andthen p k) fs C Q.
Proof. intros H. apply wpc_bind. eapply wpc_mono; [done|done|]. by intros []. Qed.

Section restored.
Context (id d ri di df : nat) (nf : Name) (s : nat) (old new nb : bytes) (sy : bool).

Let sb := Some (SANDBOXES, NId id).
(** First the record is replaced, while the disk is the one before. *)
Definition old_disk (fl : gmap nat Bytes) (E : Entries) : Prop :=
  E !! NDisk = Some (FileAt di) /\ fl !! ri = Some (MkBytes old true).
Definition restoring : FS -> Prop :=
  either d sb NRecord (Some (FileAt ri)) new old_disk (Some (MkSrc df nf s (MkBytes nb sy))).
(** Then the disk, under the new record. *)
Definition swapping : FS -> Prop := either d sb NDisk (Some (FileAt di)) nb (has_file NRecord new) None.

Lemma has_file_other n m b fl E y : m <> n -> has_file n b fl E -> has_file n b fl (<[ m := y ]> E) /\ has_file n b fl (delete m E).
Proof. intros Hm (i & Hi & Hf). split; exists i; (split; [|done]); [by rewrite lookup_insert_ne|by rewrite lookup_delete_ne]. Qed.

Lemma wpc_swap fs :
  replaced d sb NRecord new old_disk (Some (MkSrc df nf s (MkBytes nb sy))) fs ->
  wpc (sync_at (At df nf) (let* _ := Rename (At df nf) (in_dir id NDisk) in sync_at (dir id) (Ret (Some tt)))) fs swapping
    (put_post d sb NDisk (Some (FileAt di)) nb (has_file NRecord new) None tt).
Proof.
  intros (Hwf & Hh & (Hd & Hent & Hs) & Hv). cbn in Hd, Hent, Hs. destruct (entry_exists _ _ _ _ Hent) as [D HD].
  assert (He : swapping fs).
  { split; [done|]. split; [done|]. split; [done|]. eapply versions_mono; [done|]. intros E [[HE _] HE']. auto. }
  assert (HFs : forall fl fl' E, stays fl fl' -> has_file NRecord new fl E -> has_file NRecord new fl' E)
    by (intros; by eapply has_file_stays).
  apply (wpc_try_keep _ _ swapping); [done|done|intros; by apply either_open|]. intros o1 fs1 i1 Hc1 _.
  apply open_got in Hc1 as [-> Hr]. assert (i1 = s) as ->.
  { cbn in Hr. rewrite HD in Hr. cbn in Hr. rewrite Hent in Hr. by destruct Hr; simplify_eq. }
  apply (wpc_try_keep _ _ swapping); [done|done|intros; by eapply either_sync_file|]. intros o2 fs2 j2 Hc2 He2.
  apply (sync_file_got _ _ _ _ _ _ Hs) in Hc2 as ->.
  apply (wpc_put d sb NDisk (NFile 0) _ nb (has_file NRecord new) None) with (df := df) (nf := nf) (i := s); try done.
  - intros fl E m y [->| ->]; by apply has_file_other.
  - cbn. by rewrite HD.
  - cbn. by rewrite HD.
  - cbn. by rewrite lookup_insert_eq.
Qed.

Context (record_json : Z -> bytes) (boot : Z) (Hnew : record_json boot = new).
Lemma wpc_restore fs :
  restoring fs ->
  wpc (restore_disk id record_json boot (At df nf)) fs (fun fs => restoring fs \/ swapping fs)
    (fun r fs => if r is Some _ then replaced d sb NDisk nb (has_file NRecord new) None fs else restoring fs \/ swapping fs).
Proof.
  intros He. unfold restore_disk, save_boot. rewrite Hnew. apply wpc_andthen.
  eapply wpc_mono; [apply (wpc_replace_json id d NRecord NRecordPartial (Some (FileAt ri)) new old_disk); try done|by left|].
  - unfold old_disk. intros fl E m y [->| ->] [HE Hr]; by rewrite lookup_insert_ne, lookup_delete_ne.
  - intros fl fl' E Hst [HE Hr]. split; auto.
  - intros [[]|] fs1 H1; [|by split; left]. destruct H1 as [_ H1].
    eapply wpc_mono; [by apply wpc_swap|by right|]. intros [[]|] fs2 H2; [apply H2|by right].
Qed.
End restored.

(** C20: A crash at any point of a restore, with any calls failing before it,
    leaves the disk before under the record before or the new one, or the
    restored disk, whole, under the new record: never the restored disk under
    the boot before. Once it answers, the restored disk is there. *)
Theorem restore_never_under_old_boot id record_json boot df nf d ri di s old nb sy fs m os fs' r k :
  wf fs -> entry fs SANDBOXES (NId id) = Some (DirAt d) -> d <> SANDBOXES -> df <> d ->
  entry fs df nf = Some (FileAt s) -> fs_files fs !! s = Some (MkBytes nb sy) ->
  versions fs d (fun E => E !! NRecord = Some (FileAt ri) /\ E !! NDisk = Some (FileAt di)) ->
  fs_files fs !! ri = Some (MkBytes old true) ->
  exec m os (restore_disk id record_json boot (At df nf)) fs = (fs', r) -> after_crash fs' k ->
  reads k d NRecord = Some (record_json boot) /\ reads k d NDisk = Some nb \/
  r <> Some (Some tt) /\ (E ← k_dirs k !! d; E !! NDisk) = Some (FileAt di) /\
    (reads k d NRecord = Some old \/ reads k d NRecord = Some (record_json boot)).
Proof.
  intros Hwf Hid Hd Hdf Hs Hf Hv Hri He Hk.
  assert (H0 : restoring id d ri di df nf s old (record_json boot) nb sy fs).
  { split; [done|]. split; [|split; [done|]].
    - split; [|done]. unfold versions in Hv. destruct (fs_dirs fs !! d); [eauto|done].
    - eapply versions_mono; [done|]. intros E [HE1 HE2]. split; [done|]. by left. }
  destruct (wpc_sound _ _ _ _ _ _ _ _ (wpc_restore _ _ _ _ _ _ _ _ _ _ _ record_json boot eq_refl fs H0) He) as [HC HQ].
  assert (Hread : forall n b E, k_dirs k !! d = Some E -> has_file n b (fs_files fs') E -> reads k d n = Some b).
  { intros n b E HE (i & Hi & Hb). unfold reads. rewrite HE. cbn. rewrite Hi. cbn. by eapply crash_file. }
  destruct (decide (r = Some (Some tt))) as [->|Hr].
  - left. destruct (HQ _ eq_refl) as (_ & _ & _ & Hv'). destruct (crash_versions _ _ _ _ Hv' Hk) as (E & HE & HE1 & HE2). eauto.
  - destruct HC as [(_ & _ & _ & Hv')|(_ & _ & _ & Hv')];
      destruct (crash_versions _ _ _ _ Hv' Hk) as (E & HE & HE1 & HE2); rewrite HE; cbn.
    + right. destruct HE1 as [HE1 Hro]. split_and!; [done..|]. destruct HE2 as [HE2|HE2]; [left|by right; eauto].
      unfold reads. rewrite HE. cbn. rewrite HE2. cbn. by eapply crash_file.
    + destruct HE2 as [HE2|HE2]; [right|left; eauto]. split_and!; [done..|]. right. eauto.
Qed.

Lemma restore_never_under_old_boot_witness :
  let run := exec 9 [] (restore_disk 7 small_json 2 (At IMPORT (NFile 0))) made_fs in
  reads (disk_now run.1) 4 NRecord = Some [z2b 2] /\ reads (disk_now run.1) 4 NDisk = Some [z2b 1; z2b 2] \/
  run.2 <> Some (Some tt) /\ (E ← k_dirs (disk_now run.1) !! 4%nat; E !! NDisk) = Some (FileAt 8) /\
    (reads (disk_now run.1) 4 NRecord = Some [z2b 1] \/ reads (disk_now run.1) 4 NRecord = Some [z2b 2]).
Proof.
  intros run. apply (restore_never_under_old_boot 7 small_json 2 IMPORT (NFile 0) 4 5 8 3 [z2b 1] [z2b 1; z2b 2] false made_fs 9 [] run.1).
  - exact made_wf.
  - done.
  - done.
  - done.
  - done.
  - done.
  - by vm_compute; repeat constructor.
  - done.
  - apply surjective_pairing.
  - apply crash_now.
Defined.

(** ** Sandboxes removed *)

Lemma versions_now fs d P D : versions fs d P -> fs_dirs fs !! d = Some D -> P (d_now D).
Proof. unfold versions. intros H HD. rewrite HD in H. by apply Forall_cons in H as []. Qed.

Section buried.
Context (id d : nat) (record config disk : bytes).

Let whole := whole id record config disk.

Lemma bury_rename o fs fs' j :
  wf fs -> d <> SANDBOXES -> versions fs SANDBOXES (fun E => E !! NId id = Some (DirAt d)) -> sealed record config disk fs d ->
  call (Rename (dir id) (grave id)) o fs = (fs', Got j) ->
  wf fs' /\ whole fs' /\ exists D, fs_dirs fs' !! SANDBOXES = Some D /\ d_now D !! NId id = None.
Proof.
  intros Hwf Hd Hv Hs (d1 & n1 & d2 & n2 & x & Hp1 & Hp2 & Hr & _ & ->)%rename_got.
  pose proof (versions_entry _ _ _ Hv) as (E & HE & Hid & [D HD]). cbn in Hp1, Hp2. rewrite HD in Hp1, Hp2. cbn in Hp1, Hp2.
  injection Hp1 as <- <-. injection Hp2 as <- <-. split_and!.
  - by apply wf_edit, wf_edit.
  - apply (versions_mono _ _ (fun E => E !! NId id = None \/ E !! NId id = Some (DirAt d))).
    + apply versions_edit; [apply versions_edit; [eapply versions_mono; [exact Hv|]; by right|]|]; intros _ E'.
      * intros _. left. by rewrite lookup_delete_eq.
      * by rewrite lookup_insert_ne.
    + intros E' [HE'|HE']; [by left|right]. exists d. split; [done|]. by apply sealed_edit, sealed_edit.
  - eexists. unfold edit; cbn. rewrite !lookup_alter_eq, HD. split; [done|]. cbn. by rewrite lookup_insert_ne, lookup_delete_eq.
Qed.

Lemma wpc_bury fs :
  wf fs -> d <> SANDBOXES -> versions fs SANDBOXES (fun E => E !! NId id = Some (DirAt d)) -> sealed record config disk fs d ->
  wpc (bury id) fs whole (fun r fs => r = Some tt -> absent id fs).
Proof.
  intros Hwf Hd Hv Hs. assert (Hw : whole fs).
  { eapply versions_mono; [done|]. intros E HE. right. by exists d. }
  split; [done|]. intros o fs1 r Hc. destruct r as [j| |].
  - destruct (bury_rename _ _ _ _ Hwf Hd Hv Hs Hc) as (Hwf1 & Hw1 & D & HD & Hn). apply wpc_andthen.
    apply (wpc_try_keep _ _ (fun fs' => fs' = fs1)); [done|by intros ? ->| |].
    { intros o2. cbn. by repeat case_match. }
    intros o2 fs2 j2 Hc2 ->. apply open_got in Hc2 as [_ Hr]. cbn in Hr. rewrite HD in Hr. cbn in Hr.
    assert (j2 = SANDBOXES) as -> by (destruct Hr; congruence).
    apply wpc_try; [done|]. intros o3 fs3 r3 Hc3. destruct r3 as [j3| |].
    + assert (Ha : absent id fs3).
      { split; [pose proof (wf_call (Sync SANDBOXES) o3 fs1 Hwf1) as H; by rewrite Hc3 in H|].
        apply (sync_dir_got _ _ _ _ _ _ Hwf1 HD) in Hc3 as ->. unfold versions. cbn [fs_dirs]. rewrite lookup_insert_eq.
        by apply Forall_singleton. }
      apply wpc_ret; [by apply absent_whole|]. split; [by apply absent_whole|]. intros o4 fs4 r4 Hc4.
      pose proof (absent_call id (RemoveAll (grave id)) o4 fs3 ltac:(done) Ha) as Ha4. rewrite Hc4 in Ha4.
      apply wpc_ret; [by apply absent_whole|done].
    + cbn in Hc3. repeat case_match; by simplify_eq.
    + assert (fs3 = fs1) as -> by (cbn in Hc3; repeat case_match; congruence). done.
  - exfalso. pose proof (versions_entry _ _ _ Hv) as (E & HE & Hid & [D HD]). cbn in Hc. rewrite HD in Hc. cbn in Hc.
    rewrite HE, Hid in Hc. by repeat case_match.
  - assert (fs1 = fs) as -> by (cbn in Hc; repeat case_match; congruence). done.
Qed.
End buried.

(** A crash at any point of a removal leaves the sandbox whole or no sandbox
    of that name; once it is answered, none. *)
Theorem bury_is_all_or_nothing id d record config disk fs n os fs' r k :
  wf fs -> d <> SANDBOXES -> versions fs SANDBOXES (fun E => E !! NId id = Some (DirAt d)) -> sealed record config disk fs d ->
  exec n os (bury id) fs = (fs', r) -> after_crash fs' k ->
  match E ← k_dirs k !! SANDBOXES; E !! NId id with
  | Some _ => found_whole k id record config disk /\ r <> Some (Some tt)
  | None => True
  end.
Proof.
  intros Hwf Hd Hv Hs He Hk. destruct (wpc_sound _ _ _ _ _ _ _ _ (wpc_bury _ _ _ _ _ _ Hwf Hd Hv Hs) He) as [HC HQ].
  destruct (crash_versions _ _ _ _ HC Hk) as (E & HE & HE'). rewrite HE. cbn. destruct HE' as [->|HE']; [done|].
  assert (Hc : found_whole k id record config disk) by by eapply named_complete.
  destruct HE' as (d' & Hd' & _). rewrite Hd'. split; [done|]. intros ->.
  destruct (crash_versions _ _ _ _ (proj2 (HQ _ eq_refl eq_refl)) Hk) as (E2 & HE2 & HE2'). congruence.
Qed.

Lemma bury_is_all_or_nothing_witness :
  let k := disk_now (exec 1 [] (bury 7) made_fs).1 in
  match E ← k_dirs k !! SANDBOXES; E !! NId 7 with
  | Some _ => found_whole k 7 [z2b 1] [] [z2b 9] /\ (exec 1 [] (bury 7) made_fs).2 <> Some (Some tt)
  | None => True
  end.
Proof.
  intros k. apply (bury_is_all_or_nothing 7 4 [z2b 1] [] [z2b 9] made_fs 1 [] (exec 1 [] (bury 7) made_fs).1).
  - exact made_wf.
  - done.
  - by vm_compute; repeat constructor.
  - vm_compute. repeat constructor; eauto.
  - apply surjective_pairing.
  - apply crash_now.
Defined.

(** ** An imported disk *)



Definition works (order : list Name) : Outcome := MkOutcome true [] order.

(** A create of which any one call fails, or whose VM does not start, leaves the
    file where it was. *)
Lemma failed_create_gives_disk_back :
  forallb (fun i =>
    let run := exec 100 (replicate i (works []) ++ [MkOutcome false [] []]) (create_now 7 small_json (Import (At IMPORT (NFile 0))) [] true) small_fs in
    bool_decide (run.2 = Some (Some tt)) || bool_decide (entry run.1 IMPORT (NFile 0) = Some (FileAt 3))) (seq 0 30) = true /\
  entry (exec 100 [] (create_now 7 small_json (Import (At IMPORT (NFile 0))) [] false) small_fs).1 IMPORT (NFile 0) = Some (FileAt 3).
Proof. split; vm_compute; reflexivity. Qed.

