(* ===== verification/Services.v ===== *)
(** * Services of the guest

    [crates/shuru-guest/src/services.rs]: the processes an image declares, which
    the guest starts at boot, whose readiness commands wait for, which it
    starts again, and stops when it shuts down.

    Each access to the registry is under its lock, so threads are interleaved at
    those, at the reads and writes of an [Exit], and where they sleep. A run of a
    service is a process, by its number; [stage] is how far its end has come: a
    zombie, reaped, its [Exit] set, and recorded in the registry. Times are
    milliseconds. *)

From Stdlib Require Import Strings.Byte Strings.String.
From stdpp Require Import gmap sorting.
From S2P Require Import Prelude Text Cas.

(** ** Service files *)

Inductive Restart := RestartNo | RestartAlways.
#[export] Instance Restart_eq_dec : EqDecision Restart.
Proof. solve_decision. Defined.

(** [shuru_proto::Owner] and [RunAs] *)
Inductive Owner := OwnerName (name : bytes) | OwnerId (id : Z).
Record RunAs := MkRunAs { ra_user : option Owner; ra_group : option Owner }.

Record Spec := MkSpec {
  sp_name : bytes;
  sp_exec : list bytes;
  sp_ready : option (list bytes);
  sp_ready_timeout : Z;
  sp_stop_timeout : Z;
  sp_env : gmap bytes bytes;
  sp_cwd : option bytes;
  sp_run_as : RunAs;
  sp_restart : Restart
}.

(** A JSON value; a number has its value when that is a [u64]. *)
Inductive Value :=
  | VNull | VBool (b : bool) | VNum (n : option Z) | VStr (s : bytes)
  | VArr (items : list Value) | VObj (fields : list (bytes * Value)).

Definition READY_POLL : Z := 250.
Definition READY_SETTLE : Z := 500.
Definition HOST_ENV_WAIT : Z := 5000.
Definition DEFAULT_READY_TIMEOUT : Z := 30.
Definition DEFAULT_STOP_TIMEOUT : Z := 15.
Definition LOG_TAIL_LINES : nat := 20.
Definition MAX_LOG_BYTES : Z := 2 ^ 20.
Definition RESTART_FIRST : Z := 1000.
Definition RESTART_MAX : Z := 60000.
Definition RESTART_RESET : Z := 60000.

Definition lower_or_digit (b : byte) : bool := in_range 97 122 b || digit b.
Definition valid_name (name : bytes) : bool :=
  match name with
  | c :: chars => lower_or_digit c && forallb (fun c => lower_or_digit c || (b2z c =? 45)) chars
  | [] => false
  end.

(** [value.get(key)] *)
Definition get (value : Value) (key : bytes) : option Value :=
  match value with VObj fields => snd <$> find (fun f => bool_decide (f.1 = key)) fields | _ => None end.
Definition as_str (v : Value) : option bytes := match v with VStr s => Some s | _ => None end.

Definition argv_field (value : Value) (key : bytes) : option (option (list bytes)) :=
  match get value key with
  | None | Some VNull => Some None
  | Some (VArr items) =>
      match mapM as_str items with
      | Some [] | None => None
      | Some argv => Some (Some argv)
      end
  | Some _ => None
  end.
Definition secs_field (value : Value) (key : bytes) (d : Z) : option Z :=
  match get value key with
  | None | Some VNull => Some (1000 * d)
  | Some (VNum (Some n)) => Some (1000 * n)
  | Some _ => None
  end.
Definition env_field (value : Value) : option (gmap bytes bytes) :=
  match get value (str "env") with
  | None | Some VNull => Some ∅
  | Some (VObj fields) =>
      vs ← mapM (fun f => v ← as_str f.2; Some (f.1, v)) fields;
      Some (fold_left (fun m f => <[ f.1 := f.2 ]> m) vs ∅)
  | Some _ => None
  end.
Definition cwd_field (value : Value) : option (option bytes) :=
  match get value (str "cwd") with
  | None | Some VNull => Some None
  | Some v => Some <$> as_str v
  end.
Definition restart_field (value : Value) : option Restart :=
  match get value (str "restart") with
  | None | Some VNull => Some RestartNo
  | Some (VStr s) =>
      if bool_decide (s = str "no") then Some RestartNo else
      if bool_decide (s = str "always") then Some RestartAlways else None
  | Some _ => None
  end.

(** [serde_json::from_str], and [from_value] of a [RunAs]. *)
Section files.
Context (from_str : bytes -> option Value) (run_as_of : Value -> option RunAs).

Definition parse_spec (name text : bytes) : option Spec :=
  value ← from_str text;
  match value with VObj _ => Some tt | _ => None end ≫= fun _ =>
  exec ← argv_field value (str "exec");
  exec ← exec;
  ready ← argv_field value (str "ready");
  ready_timeout ← secs_field value (str "ready_timeout_secs") DEFAULT_READY_TIMEOUT;
  stop_timeout ← secs_field value (str "stop_timeout_secs") DEFAULT_STOP_TIMEOUT;
  env ← env_field value;
  cwd ← cwd_field value;
  run_as ← run_as_of value;
  restart ← restart_field value;
  Some (MkSpec name exec ready ready_timeout stop_timeout env cwd run_as restart).

(** The stem of a file name that ends in [.json]. *)
Definition json_stem (file : bytes) : option bytes :=
  if ends_with (str ".json") file && (5 <? zlen file) then Some (ztake (zlen file - 5) file) else None.

Fixpoint bytes_le (a b : bytes) : bool :=
  match a, b with
  | [], _ => true
  | _ :: _, [] => false
  | x :: a, y :: b => (b2z x <? b2z y) || ((b2z x =? b2z y) && bytes_le a b)
  end.
Definition name_le (a b : Spec) : Prop := bytes_le (sp_name a) (sp_name b) = true.
#[export] Instance name_le_dec : RelDecision name_le.
Proof. intros a b. unfold name_le. apply _. Defined.

(** The files of the directory, with the text of those that can be read. *)
Definition load_one (f : bytes * option bytes) : option Spec :=
  name ← json_stem f.1;
  if valid_name name then text ← f.2; parse_spec name text else None.
Definition load_specs (dir : list (bytes * option bytes)) : list Spec := merge_sort name_le (omap load_one dir).
Definition declares_services (dir : list (bytes * option bytes)) : bool :=
  existsb (fun f => bool_decide (is_Some (json_stem f.1))) dir.
End files.

(** The env of the file is over the host's. *)
Definition with_env (env : gmap bytes bytes) (spec : Spec) : Spec :=
  MkSpec (sp_name spec) (sp_exec spec) (sp_ready spec) (sp_ready_timeout spec) (sp_stop_timeout spec)
    (sp_env spec ∪ env) (sp_cwd spec) (sp_run_as spec) (sp_restart spec).

Definition next_delay (last ran : Z) : Z :=
  if (RESTART_RESET <=? ran) || (last =? 0) then RESTART_FIRST else Z.min (last * 2) RESTART_MAX.

(** ** Registry *)

(** [describe_exit], and the other texts of a failure. *)
Inductive Reason := ExitedWith (status : Z) | KilledBy (signal : Z) | ExitedOther | NotReady (secs : Z) | FailedToStart.
Definition describe_exit (status : Z) : Reason :=
  let low := Z.land status 127 in
  if low =? 0 then ExitedWith (Z.land (Z.shiftr status 8) 255) else if low <? 127 then KilledBy low else ExitedOther.

Inductive State := Starting | Ready | Restarting | Failed (reason : Reason) | Stopped.
#[export] Instance State_eq_dec : EqDecision State.
Proof. assert (EqDecision Reason) by solve_decision. solve_decision. Defined.

(** [sv_run] is the child and its [Exit]. *)
Record Service := MkService {
  sv_spec : Spec;
  sv_run : option nat;
  sv_state : State;
  sv_gate_until : Z;
  sv_ever_ready : bool;
  sv_started : Z;
  sv_delay : Z
}.
Definition sv_name (s : Service) : bytes := sp_name (sv_spec s).
Definition running (s : Service) : bool := match sv_state s with Starting | Ready => true | _ => false end.

Record Registry := MkRegistry { services : list Service; begun : bool; shutting_down : bool }.

(** ** Runs *)

Inductive Stage := Alive | Zombie (st : Z) | Reaped (st : Z) | Told (st : Z) | Recorded (st : Z).

(** [rn_killed], that SIGKILL was sent while it ran; [rn_passed], that it was
    seen to pass its ready check, or to settle. *)
Record Run := MkRun { rn_name : bytes; rn_stage : Stage; rn_termed : bool; rn_killed : bool; rn_passed : bool }.
Definition alive (r : Run) : bool := match rn_stage r with Alive => true | _ => false end.
(** [Exit::get] *)
Definition exit_get (r : Run) : option Z := match rn_stage r with Told st | Recorded st => Some st | _ => None end.

Definition set_stage (r : Run) (st : Stage) : Run := MkRun (rn_name r) st (rn_termed r) (rn_killed r) (rn_passed r).
Definition set_passed (r : Run) : Run := MkRun (rn_name r) (rn_stage r) (rn_termed r) (rn_killed r) true.
(** [children::signal] of SIGTERM or SIGKILL: it reaches a child not reaped yet. *)
Definition term (r : Run) : Run :=
  match rn_stage r with Alive | Zombie _ => MkRun (rn_name r) (rn_stage r) true (rn_killed r) (rn_passed r) | _ => r end.
Definition kill (r : Run) : Run :=
  match rn_stage r with Alive | Zombie _ => MkRun (rn_name r) (rn_stage r) (rn_termed r) true (rn_passed r) | _ => r end.

(** ** Threads *)

(** [watch_until_ready] of a run. *)
Inductive WatchPc :=
  | WBegin
  | WLoop (deadline : Z)
  | WSettle (until : Z)
  | WProbe (deadline : Z)
  | WProbed (deadline : Z) (passed : bool)
  | WSleep (deadline until : Z)
  | WSet (st : State).

(** [wait_ready]: reaping, with the closures of what it reaped to run, then
    waiting for the registry. *)
Inductive Answer := Runs | Refused | FailedBy (name : bytes) (reason : Reason).
Inductive WaitPc := QBegin | QReap | QTell (rs : list nat) | QWait | QDone (answer : Answer).

(** [shutdown]: a target is a service, its run and its timeout. *)
Record Target := MkTarget { tg_name : bytes; tg_run : nat; tg_timeout : Z }.
Record Response := MkResponse { rp_stopped : list bytes; rp_killed : list bytes }.
Inductive StopPc :=
  | SBegin
  | STerm (targets : list Target)
  | SLoop (start : Z) (pending : list Target) (resp : Response)
  | SExpire (start : Z) (pending : list Target) (resp : Response)
  | SKilled (start : Z) (expired : list Target) (tries : nat) (pending : list Target) (resp : Response)
  | SSleep (start : Z) (until : Z) (pending : list Target) (resp : Response)
  | SStopped (names : list bytes) (resp : Response)
  | SDone (resp : Response).

(** [start_all], perhaps after a sleep: the services to start, once loaded; what
    it answered, which is none when it was refused. *)
Inductive StartPc := BSleep (until : Z) | BLoad | BLock (specs : list Spec) | BDone (started : option nat).

Inductive Thread :=
  | TReap (rs : list nat)
  | TRestart (name : bytes) (due : Z)
  | TWatch (spec : Spec) (run : nat) (pc : WatchPc)
  | TWait (pc : WaitPc)
  | TStop (pc : StopPc)
  | TStart (env : gmap bytes bytes) (pc : StartPc)
  | TGone.

Record Sys := MkSys { now : Z; reg : Registry; runs : list Run; threads : list Thread }.

Definition set_reg (s : Sys) (r : Registry) : Sys := MkSys (now s) r (runs s) (threads s).
Definition set_services (s : Sys) (l : list Service) : Sys :=
  set_reg s (MkRegistry l (begun (reg s)) (shutting_down (reg s))).
Definition set_runs (s : Sys) (l : list Run) : Sys := MkSys (now s) (reg s) l (threads s).
Definition set_thread (s : Sys) (i : nat) (t : Thread) : Sys := MkSys (now s) (reg s) (runs s) (<[ i := t ]> (threads s)).
Definition add_threads (s : Sys) (l : list Thread) : Sys := MkSys (now s) (reg s) (runs s) (threads s ++ l).

(** The first service that satisfies [p] is changed by [f]. *)
Fixpoint update_first (p : Service -> bool) (f : Service -> Service) (l : list Service) : list Service :=
  match l with
  | [] => []
  | s :: l => if p s then f s :: l else s :: update_first p f l
  end.
Definition named (name : bytes) (s : Service) : bool := bool_decide (sv_name s = name).

Definition with_state (s : Service) (st : State) : Service :=
  MkService (sv_spec s) (sv_run s) st (sv_gate_until s) (sv_ever_ready s) (sv_started s) (sv_delay s).

(** A service that is stopped stays so, and only one that is starting gets
    ready. *)
Definition state_set (st : State) (s : Service) : Service :=
  if bool_decide (sv_state s = Stopped) || (bool_decide (st = Ready) && negb (bool_decide (sv_state s = Starting))) then s else
  MkService (sv_spec s) (sv_run s) st (sv_gate_until s) (bool_decide (st = Ready) || sv_ever_ready s) (sv_started s) (sv_delay s).
Definition set_state (s : Sys) (name : bytes) (st : State) : Sys :=
  set_services s (update_first (named name) (state_set st) (services (reg s))).

(** [restart_after] *)
Definition restart_after (s : Sys) (name : bytes) (delay : Z) : Sys := add_threads s [TRestart name (now s + delay)].

Definition exited (now : Z) (status : Z) (s : Service) : Service :=
  match sp_restart (sv_spec s) with
  | RestartAlways =>
      MkService (sv_spec s) (sv_run s) Restarting (sv_gate_until s) (sv_ever_ready s) (sv_started s)
        (next_delay (sv_delay s) (now - sv_started s))
  | RestartNo => with_state s (Failed (describe_exit status))
  end.
Definition record_exit (s : Sys) (name : bytes) (status : Z) : Sys :=
  if shutting_down (reg s) then s else
  match find (fun sv => named name sv && running sv) (services (reg s)) with
  | None => s
  | Some sv =>
      let s' := set_services s (update_first (fun sv => named name sv && running sv) (exited (now s) status) (services (reg s))) in
      match sp_restart (sv_spec sv) with
      | RestartAlways => restart_after s' name (sv_delay (exited (now s) status sv))
      | RestartNo => s'
      end
  end.

(** The closure of a reaped run: its [Exit], then the registry. *)
Definition tell (s : Sys) (r : nat) : Sys :=
  match runs s !! r with
  | Some run => if rn_stage run is Reaped st then set_runs s (<[ r := set_stage run (Told st) ]> (runs s)) else s
  | None => s
  end.
Definition record (s : Sys) (r : nat) : Sys :=
  match runs s !! r with
  | Some run =>
      if rn_stage run is Told st
      then record_exit (set_runs s (<[ r := set_stage run (Recorded st) ]> (runs s))) (rn_name run) st else s
  | None => s
  end.
(** One of the two, and whether there is more to do for the run. *)
Definition closure (s : Sys) (r : nat) : Sys * bool :=
  match runs s !! r with
  | Some run => match rn_stage run with Reaped _ => (tell s r, true) | _ => (record s r, false) end
  | None => (s, false)
  end.

(** [waitpid] of those that have exited. *)
Definition reap_one (acc : Sys * list nat) (r : nat) : Sys * list nat :=
  match runs acc.1 !! r with
  | Some run =>
      if rn_stage run is Zombie st
      then (set_runs acc.1 (<[ r := set_stage run (Reaped st) ]> (runs acc.1)), acc.2 ++ [r]) else acc
  | None => acc
  end.
Definition reap (rs : list nat) (s : Sys) : Sys * list nat := fold_left reap_one rs (s, []).

Definition new_run (name : bytes) : Run := MkRun name Alive false false false.
(** [spawn], which works or not. *)
Definition spawn (s : Sys) (spec : Spec) (ok : bool) : Sys * option nat :=
  if ok then (set_runs s (runs s ++ [new_run (sp_name spec)]), Some (length (runs s))) else (s, None).

Definition respawned (now : Z) (r : nat) (s : Service) : Service :=
  MkService (sv_spec s) (Some r) Starting (sv_gate_until s) (sv_ever_ready s) now (sv_delay s).
Definition redelayed (s : Service) : Service :=
  MkService (sv_spec s) (sv_run s) (sv_state s) (sv_gate_until s) (sv_ever_ready s) (sv_started s) (next_delay (sv_delay s) 0).
Definition restarting (name : bytes) (sv : Service) : bool := named name sv && bool_decide (sv_state sv = Restarting).
Definition respawn (s : Sys) (name : bytes) (ok : bool) : Sys :=
  if shutting_down (reg s) then s else
  match find (restarting name) (services (reg s)) with
  | None => s
  | Some sv =>
      match spawn s (sv_spec sv) ok with
      | (s, Some r) =>
          add_threads (set_services s (update_first (restarting name) (respawned (now s) r) (services (reg s)))) [TWatch (sv_spec sv) r WBegin]
      | (s, None) =>
          restart_after (set_services s (update_first (restarting name) redelayed (services (reg s)))) name (sv_delay (redelayed sv))
      end
  end.

(** ** Watching *)

Definition run_exit (s : Sys) (r : nat) : option Z := run ← runs s !! r; exit_get run.
(** The watcher saw its run pass. *)
Definition passed (s : Sys) (r : nat) : Sys := set_runs s (alter set_passed r (runs s)).

Definition watch_step (s : Sys) (i : nat) (spec : Spec) (r : nat) (pc : WatchPc) (ok : bool) : Sys :=
  let at_ pc := set_thread s i (TWatch spec r pc) in
  let gone := set_thread s i TGone in
  match pc with
  | WBegin => at_ (WLoop (now s + sp_ready_timeout spec))
  | WLoop deadline =>
      if run_exit s r is Some _ then gone else
      match sp_ready spec with
      | None => at_ (WSettle (now s + READY_SETTLE))
      | Some _ => at_ (WProbe deadline)
      end
  | WSettle until =>
      if run_exit s r is Some _ then gone else
      if until <=? now s then set_thread (passed s r) i (TWatch spec r (WSet Ready)) else s
  | WProbe deadline => at_ (WProbed deadline ok)
  | WProbed deadline ok =>
      if run_exit s r is Some _ then gone else
      if ok then set_thread (passed s r) i (TWatch spec r (WSet Ready)) else
      if deadline <=? now s then
        at_ (WSet match sp_restart spec with RestartAlways => Ready | RestartNo => Failed (NotReady (sp_ready_timeout spec / 1000)) end)
      else at_ (WSleep deadline (now s + READY_POLL))
  | WSleep deadline until => if until <=? now s then at_ (WLoop deadline) else s
  | WSet st => set_thread (set_state s (sp_name spec) st) i TGone
  end.

(** ** Starting *)

Definition new_service (now : Z) (spec : Spec) (run : option nat) (st : State) (delay : Z) : Service :=
  MkService spec run st (now + sp_ready_timeout spec) false now delay.

(** One service: it is spawned, and registered with what came of it. *)
Definition start_one (s : Sys) (spec : Spec) (ok : bool) : Sys :=
  let '(s, run) := spawn s spec ok in
  let register sv := set_services s (services (reg s) ++ [sv]) in
  match run with
  | Some r => add_threads (register (new_service (now s) spec (Some r) Starting 0)) [TWatch spec r WBegin]
  | None =>
      match sp_restart spec with
      | RestartAlways => restart_after (register (new_service (now s) spec None Restarting RESTART_FIRST)) (sp_name spec) RESTART_FIRST
      | RestartNo => register (new_service (now s) spec None (Failed FailedToStart) 0)
      end
  end.
Fixpoint start_each (s : Sys) (specs : list Spec) (oks : list bool) : Sys :=
  match specs with
  | [] => s
  | spec :: specs => start_each (start_one s spec (default false (head oks))) specs (tail oks)
  end.

Definition start_locked (s : Sys) (specs : list Spec) (oks : list bool) : Sys * option nat :=
  if begun (reg s) then if services (reg s) is [] then (s, Some 0%nat) else (s, None) else
  let s' := set_reg s (MkRegistry (services (reg s)) true (shutting_down (reg s))) in
  if shutting_down (reg s) then (s', Some 0%nat) else
  (start_each s' specs oks, Some (length (filter (fun ok => ok = true) (take (length specs) oks)))).

(** ** The gate of commands *)

Definition holds (s : Service) (now : Z) : bool :=
  match sp_restart (sv_spec s) with
  | RestartNo => bool_decide (sv_state s = Starting)
  | RestartAlways =>
      negb (sv_ever_ready s) && (now <? sv_gate_until s) &&
      match sv_state s with Starting | Restarting => true | _ => false end
  end.
Definition failed (s : Service) : option (bytes * Reason) :=
  match sv_state s, sp_restart (sv_spec s) with
  | Failed reason, RestartNo => Some (sv_name s, reason)
  | _, _ => None
  end.

(** What it answers with the lock held, or that it waits. *)
Definition decide_ready (s : Sys) : option Answer :=
  if shutting_down (reg s) then Some Refused else
  if negb (begun (reg s)) || existsb (fun sv => holds sv (now s)) (services (reg s)) then None else
  Some match head (omap failed (services (reg s))) with None => Runs | Some (name, reason) => FailedBy name reason end.

Definition wait_step (s : Sys) (i : nat) (pc : WaitPc) (ok : bool) : Sys :=
  match pc with
  | QBegin => set_thread s i (TWait (if shutting_down (reg s) then QDone Refused else QReap))
  | QReap =>
      if ok then let '(s, rs) := reap (seq 0 (length (runs s))) s in set_thread s i (TWait (QTell rs))
      else set_thread s i (TWait QWait)
  | QTell [] => set_thread s i (TWait QWait)
  | QTell (r :: rs) => let '(s, more) := closure s r in set_thread s i (TWait (QTell (if more then r :: rs else rs)))
  | QWait => if decide_ready s is Some a then set_thread s i (TWait (QDone a)) else s
  | QDone _ => s
  end.

(** ** Stopping *)

Definition target (sv : Service) : option Target :=
  if running sv then r ← sv_run sv; Some (MkTarget (sv_name sv) r (sp_stop_timeout (sv_spec sv))) else None.
Definition signal_all (f : Run -> Run) (l : list Target) (s : Sys) : Sys :=
  fold_left (fun s t => set_runs s (alter f (tg_run t) (runs s))) l s.
Definition has_exited (s : Sys) (t : Target) : bool := bool_decide (is_Some (run_exit s (tg_run t))).

(** The loop is over: the names are marked one by one. *)
Definition bytes_leP (a b : bytes) : Prop := bytes_le a b = true.
#[export] Instance bytes_leP_dec : RelDecision bytes_leP.
Proof. intros a b. unfold bytes_leP. apply _. Defined.
Definition stopping_over (resp : Response) : StopPc :=
  let resp := MkResponse (merge_sort bytes_leP (rp_stopped resp)) (merge_sort bytes_leP (rp_killed resp)) in
  SStopped (rp_stopped resp ++ rp_killed resp) resp.
Definition KILL_TRIES : nat := 100.

Definition stop_step (s : Sys) (i : nat) (pc : StopPc) : Sys :=
  let at_ s pc := set_thread s i (TStop pc) in
  match pc with
  | SBegin =>
      at_ (set_reg s (MkRegistry (services (reg s)) (begun (reg s)) true)) (STerm (omap target (services (reg s))))
  | STerm [] => at_ s (SDone (MkResponse [] []))
  | STerm targets => at_ (signal_all term targets s) (SLoop (now s) targets (MkResponse [] []))
  | SLoop start pending resp =>
      let resp := MkResponse (rp_stopped resp ++ (tg_name <$> filter (fun t => has_exited s t = true) pending)) (rp_killed resp) in
      let pending := filter (fun t => has_exited s t = false) pending in
      at_ s (if pending is [] then stopping_over resp else SExpire start pending resp)
  | SExpire start pending resp =>
      let expired := filter (fun t => tg_timeout t <= now s - start) pending in
      let pending := filter (fun t => ~ tg_timeout t <= now s - start) pending in
      at_ (signal_all kill expired s) (SKilled start expired KILL_TRIES pending resp)
  | SKilled start (t :: expired) tries pending resp =>
      if has_exited s t || Nat.eqb tries 0
      then at_ s (SKilled start expired KILL_TRIES pending (MkResponse (rp_stopped resp) (rp_killed resp ++ [tg_name t])))
      else at_ s (SKilled start (t :: expired) (pred tries) pending resp)
  | SKilled start [] _ pending resp =>
      at_ s (if pending is [] then stopping_over resp else SSleep start (now s + 50) pending resp)
  | SSleep start until pending resp => if until <=? now s then at_ s (SLoop start pending resp) else s
  | SStopped (name :: names) resp => at_ (set_state s name Stopped) (SStopped names resp)
  | SStopped [] resp => at_ s (SDone resp)
  | SDone _ => s
  end.

(** ** Steps *)

Section steps.
Context (from_str : bytes -> option Value) (run_as_of : Value -> option RunAs) (dir : list (bytes * option bytes)).

Definition start_step (s : Sys) (i : nat) (env : gmap bytes bytes) (pc : StartPc) (oks : list bool) : Sys :=
  match pc with
  | BSleep until => if until <=? now s then set_thread s i (TStart env BLoad) else s
  | BLoad => set_thread s i (TStart env (BLock (with_env env <$> load_specs from_str run_as_of dir)))
  | BLock specs => let '(s, started) := start_locked s specs oks in set_thread s i (TStart env (BDone started))
  | BDone _ => s
  end.

(** [start_after_wait] *)
Definition start_after_wait (s : Sys) : Thread :=
  TStart ∅ (if declares_services dir then BSleep (now s + HOST_ENV_WAIT) else BLoad).

Definition go (s : Sys) (i : nat) (oks : list bool) : Sys :=
  let ok := default false (head oks) in
  match threads s !! i with
  | Some (TReap (r :: rs)) => let '(s, more) := closure s r in set_thread s i (TReap (if more then r :: rs else rs))
  | Some (TReap []) => set_thread s i TGone
  | Some (TRestart name due) => if due <=? now s then respawn (set_thread s i TGone) name ok else s
  | Some (TWatch spec r pc) => watch_step s i spec r pc ok
  | Some (TWait pc) => wait_step s i pc ok
  | Some (TStop pc) => stop_step s i pc
  | Some (TStart env pc) => start_step s i env pc oks
  | Some TGone | None => s
  end.

Inductive Event :=
  | Tick (dt : Z)
  | Die (r : nat) (status : Z)
  | ReapAll (order : list nat)
  | Boot | Env (env : gmap bytes bytes) | Command | Shut
  | Go (i : nat) (oks : list bool).

Definition step (e : Event) (s : Sys) : Sys :=
  match e with
  | Tick dt => MkSys (now s + Z.max 0 dt) (reg s) (runs s) (threads s)
  | Die r status =>
      match runs s !! r with
      | Some run => if alive run then set_runs s (<[ r := set_stage run (Zombie status) ]> (runs s)) else s
      | None => s
      end
  | ReapAll order => let '(s, rs) := reap order s in add_threads s [TReap rs]
  | Boot => add_threads s [start_after_wait s]
  | Env env => add_threads s [TStart env BLoad]
  | Command => add_threads s [TWait QBegin]
  | Shut => add_threads s [TStop SBegin]
  | Go i oks => go s i oks
  end.

Definition Sys_new : Sys := MkSys 0 (MkRegistry [] false false) [] [].

Inductive reachable : Sys -> Prop :=
  | re_new : reachable Sys_new
  | re_step s e : reachable s -> reachable (step e s).
End steps.

(** ** Logs *)

(** A file of bytes, or none. A log over [max] goes to the older file, and is
    emptied. *)
Record Log := MkLog { lg_log : option bytes; lg_older : option bytes }.
Definition cap_log (max : Z) (l : Log) : Log * bool :=
  match lg_log l with
  | Some text => if zlen text <=? max then (l, false) else (MkLog (Some []) (Some text), true)
  | None => (l, false)
  end.
