(* ===== verification/ServicesProofs.v ===== *)
(** * Services of the guest: proofs

    The invariant of the registry, the runs and the threads of [Services], kept
    by every step, and what follows for runs, restarts, commands and the
    shutdown. *)

From Stdlib Require Import Strings.Byte Strings.String.
From stdpp Require Import gmap sorting.
From S2P Require Import Prelude Text Cas Services.

(** ** The first of a name *)

Lemma update_first_map p f name l :
  NoDup (sv_name <$> l) -> (forall sv, p sv = true -> sv_name sv = name) ->
  update_first p f l = (fun sv => if p sv then f sv else sv) <$> l.
Proof.
  intros Hnd Hp. induction l as [|sv l IH]; [done|]. cbn in *. apply NoDup_cons in Hnd as [Hn Hnd].
  destruct (p sv) eqn:Hsv; [|by rewrite IH]. f_equal. symmetry. etrans; [|apply list_fmap_id].
  apply list_fmap_ext. intros i x Hx. cbn. destruct (p x) eqn:Hpx; [|done]. exfalso. apply Hn.
  rewrite (Hp _ Hsv), <- (Hp _ Hpx). apply list_elem_of_fmap. exists x. split; [done|]. by eapply list_elem_of_lookup_2.
Qed.

Lemma named_true name sv : named name sv = true -> sv_name sv = name.
Proof. apply bool_decide_eq_true. Qed.
Lemma named_and name p sv : named name sv && p sv = true -> sv_name sv = name.
Proof. intros [H _]%andb_true_iff. by apply named_true. Qed.

Lemma find_In {A} (p : A -> bool) l x : List.find p l = Some x -> x ∈ l /\ p x = true.
Proof. intros H. apply List.find_some in H as [H1 H2]. by rewrite list_elem_of_In. Qed.
Lemma find_None {A} (p : A -> bool) l : List.find p l = None -> forall x, x ∈ l -> p x = false.
Proof. intros H x Hx%list_elem_of_In. by apply (List.find_none _ _ H). Qed.

Lemma name_inj l (sv sv' : Service) : NoDup (sv_name <$> l) -> sv ∈ l -> sv' ∈ l -> sv_name sv = sv_name sv' -> sv = sv'.
Proof.
  intros Hnd [i Hi]%list_elem_of_lookup_1 [j Hj]%list_elem_of_lookup_1 Heq.
  assert (i = j) as -> by (eapply (NoDup_lookup _ _ _ (sv_name sv)); [done|..]; rewrite list_lookup_fmap, ?Hi, ?Hj; cbn; congruence).
  congruence.
Qed.

(** ** Runs *)

Definition recorded (r : Run) : bool := match rn_stage r with Recorded _ => true | _ => false end.
(** It is over, or SIGKILL was sent to it. *)
Definition settled (rs : list Run) (r : nat) : Prop :=
  exists run, rs !! r = Some run /\ (alive run = true -> rn_killed run = true).

(** What may happen to runs, but for being recorded or passed. *)
Definition run_le (a b : Run) : Prop :=
  rn_name b = rn_name a /\ (recorded a = true -> recorded b = true) /\ (alive b = true -> alive a = true) /\
  (rn_killed a = true -> rn_killed b = true) /\ (rn_passed a = true -> rn_passed b = true).
Definition runs_le (rs rs' : list Run) : Prop := forall r run, rs !! r = Some run -> exists run', rs' !! r = Some run' /\ run_le run run'.

#[export] Instance run_le_refl : Reflexive run_le.
Proof. by intros a. Qed.
#[export] Instance runs_le_refl : Reflexive runs_le.
Proof. intros rs r run Hr. by exists run. Qed.
#[export] Instance runs_le_trans : Transitive runs_le.
Proof.
  intros a b c Hab Hbc r run Hr. destruct (Hab _ _ Hr) as (r1 & H1 & L1). destruct (Hbc _ _ H1) as (r2 & H2 & L2).
  exists r2. split; [done|]. unfold run_le in *. destruct L1 as (? & ? & ? & ? & ?), L2 as (? & ? & ? & ? & ?).
  split_and!; auto; congruence.
Qed.
Lemma runs_le_alter f r rs : (forall a, run_le a (f a)) -> runs_le rs (alter f r rs).
Proof.
  intros Hf i run Hi. destruct (decide (i = r)) as [->|].
  - exists (f run). by rewrite list_lookup_alter_eq, Hi.
  - exists run. by rewrite list_lookup_alter_ne.
Qed.
Lemma runs_le_insert r run run' rs : rs !! r = Some run -> run_le run run' -> runs_le rs (<[ r := run' ]> rs).
Proof.
  intros Hr Hle i x Hi. destruct (decide (i = r)) as [->|].
  - exists run'. rewrite list_lookup_insert_eq by (by eapply lookup_lt_Some). rewrite Hr in Hi. injection Hi as <-. done.
  - exists x. by rewrite list_lookup_insert_ne.
Qed.
Lemma runs_le_app rs l : runs_le rs (rs ++ l).
Proof. intros r run Hr. exists run. by rewrite lookup_app_l by (by eapply lookup_lt_Some). Qed.

Lemma settled_le rs rs' r : runs_le rs rs' -> settled rs r -> settled rs' r.
Proof.
  intros Hle (run & Hr & Hs). destruct (Hle _ _ Hr) as (run' & Hr' & _ & _ & H1 & H2 & _). exists run'. auto.
Qed.

(** ** Services *)

Record svc_ok (sd : bool) (rs : list Run) (sv : Service) : Prop := {
  so_run : forall r, sv_run sv = Some r -> exists run, rs !! r = Some run /\ rn_name run = sv_name sv;
  so_restarting : sv_state sv = Restarting -> forall r run, sv_run sv = Some r -> rs !! r = Some run -> recorded run = true;
  so_running : running sv = true -> sd = false -> exists r run, sv_run sv = Some r /\ rs !! r = Some run /\ recorded run = false;
  so_always : sp_restart (sv_spec sv) = RestartAlways -> forall reason, sv_state sv <> Failed reason;
  so_no : sp_restart (sv_spec sv) = RestartNo -> sv_state sv <> Restarting;
  so_ready : sp_restart (sv_spec sv) = RestartNo -> sv_state sv = Ready ->
    exists r run, sv_run sv = Some r /\ rs !! r = Some run /\ rn_passed run = true;
  so_stopped : sv_state sv = Stopped -> sd = true /\ forall r, sv_run sv = Some r -> settled rs r;
  so_delay : 0 <= sv_delay sv <= RESTART_MAX
}.

(** Services keep their specs, and those that do not restart their runs. *)
Definition same_ids (l l' : list Service) : Prop :=
  forall sv', sv' ∈ l' -> exists sv, sv ∈ l /\ sv_spec sv = sv_spec sv' /\ sv_run sv = sv_run sv'.

(** ** Threads *)

(** Targets that a shutdown has still to see end, and those it has killed. *)
Definition todo (pc : StopPc) : list Target :=
  match pc with
  | STerm l => l
  | SLoop _ l _ | SExpire _ l _ | SKilled _ _ _ l _ | SSleep _ _ l _ => l
  | SBegin | SStopped _ _ | SDone _ => []
  end.
Definition expired (pc : StopPc) : list Target := match pc with SKilled _ l _ _ _ => l | _ => [] end.
Definition marked (pc : StopPc) : list bytes :=
  match pc with
  | SLoop _ _ resp | SExpire _ _ resp | SKilled _ _ _ _ resp | SSleep _ _ _ resp => rp_stopped resp ++ rp_killed resp
  | SStopped names _ => names
  | SBegin | STerm _ | SDone _ => []
  end.

Record stop_ok (sd : bool) (rs : list Run) (l : list Service) (pc : StopPc) : Prop := {
  sk_down : pc <> SBegin -> sd = true;
  sk_target : forall t, t ∈ todo pc ++ expired pc -> forall sv, sv ∈ l -> sv_name sv = tg_name t -> sv_run sv = Some (tg_run t);
  sk_all : pc <> SBegin -> forall sv r, sv ∈ l -> sv_run sv = Some r ->
    (exists t, t ∈ todo pc /\ tg_run t = r) \/ settled rs r \/ exists reason, sv_state sv = Failed reason;
  sk_lt : forall t, t ∈ todo pc -> is_Some (rs !! tg_run t);
  sk_expired : forall t, t ∈ expired pc -> settled rs (tg_run t);
  sk_marked : forall name, name ∈ marked pc -> forall sv r, sv ∈ l -> sv_name sv = name -> sv_run sv = Some r -> settled rs r
}.

Definition watch_ok (rs : list Run) (l : list Service) (spec : Spec) (r : nat) (pc : WatchPc) : Prop :=
  (exists sv, sv ∈ l /\ sv_spec sv = spec) /\
  (sp_restart spec = RestartNo -> forall sv, sv ∈ l -> sv_spec sv = spec -> sv_run sv = Some r) /\
  (forall st, pc = WSet st ->
    st = Ready /\ (sp_restart spec = RestartNo -> exists run, rs !! r = Some run /\ rn_passed run = true) \/
    sp_restart spec = RestartNo /\ exists reason, st = Failed reason).

Definition thread_ok (sd : bool) (rs : list Run) (l : list Service) (t : Thread) : Prop :=
  match t with
  | TWatch spec r pc => watch_ok rs l spec r pc
  | TStop pc => stop_ok sd rs l pc
  | TStart _ (BLock specs) => NoDup (sp_name <$> specs)
  | _ => True
  end.

Definition has_timer (now : Z) (ts : list Thread) (name : bytes) : Prop :=
  exists due, TRestart name due ∈ ts /\ due <= now + RESTART_MAX.

(** [ex] are services a restart of which is under way. *)
Record Inv_ (ex : bytes -> Prop) (s : Sys) : Prop := {
  i_names : NoDup (sv_name <$> services (reg s));
  i_svcs : forall sv, sv ∈ services (reg s) -> svc_ok (shutting_down (reg s)) (runs s) sv;
  i_runs : forall r run, runs s !! r = Some run -> recorded run = false -> exists sv, sv ∈ services (reg s) /\ sv_run sv = Some r;
  i_begun : begun (reg s) = false -> services (reg s) = [];
  i_timers : shutting_down (reg s) = false -> forall sv, sv ∈ services (reg s) -> sv_state sv = Restarting ->
    ~ ex (sv_name sv) -> has_timer (now s) (threads s) (sv_name sv);
  i_threads : forall t, t ∈ threads s -> thread_ok (shutting_down (reg s)) (runs s) (services (reg s)) t
}.

Notation Inv := (Inv_ (fun _ => False)).

(** ** What keeps the invariant *)

(** Runs change, and none is recorded. *)
Definition runs_eq (rs rs' : list Run) : Prop :=
  length rs' = length rs /\
  forall r run, rs !! r = Some run -> exists run', rs' !! r = Some run' /\ run_le run run' /\ recorded run' = recorded run.
Lemma runs_eq_le rs rs' : runs_eq rs rs' -> runs_le rs rs'.
Proof. intros [_ H] r run Hr. destruct (H _ _ Hr) as (run' & ? & ? & _). eauto. Qed.
Lemma runs_eq_back rs rs' r run' : runs_eq rs rs' -> rs' !! r = Some run' ->
  exists run, rs !! r = Some run /\ run_le run run' /\ recorded run' = recorded run.
Proof.
  intros [Hlen H] Hr. apply lookup_lt_Some in Hr as Hlt. rewrite Hlen in Hlt. apply lookup_lt_is_Some_2 in Hlt as [run Hrun].
  destruct (H _ _ Hrun) as (x & Hx & ? & ?). exists run. rewrite Hr in Hx. injection Hx as ->. done.
Qed.
Lemma runs_eq_alter f r rs : (forall a, run_le a (f a) /\ recorded (f a) = recorded a) -> runs_eq rs (alter f r rs).
Proof.
  intros Hf. split; [apply length_alter|]. intros i run Hi. destruct (decide (i = r)) as [->|].
  - exists (f run). rewrite list_lookup_alter_eq, Hi. split; [done|]. apply Hf.
  - exists run. by rewrite list_lookup_alter_ne.
Qed.
Lemma runs_eq_insert r run run' rs :
  rs !! r = Some run -> run_le run run' -> recorded run' = recorded run -> runs_eq rs (<[ r := run' ]> rs).
Proof.
  intros Hr Hle Hrec. split; [apply length_insert|]. intros i x Hi. destruct (decide (i = r)) as [->|].
  - exists run'. rewrite list_lookup_insert_eq by (by eapply lookup_lt_Some). rewrite Hr in Hi. by injection Hi as <-.
  - exists x. by rewrite list_lookup_insert_ne.
Qed.

Lemma svc_ok_runs sd rs rs' sv : svc_ok sd rs sv -> runs_eq rs rs' -> svc_ok sd rs' sv.
Proof.
  intros [H1 H2 H3 H4 H5 H6 H7 H8] Heq. pose proof (runs_eq_le _ _ Heq) as Hle. split; try done.
  - intros r Hr. destruct (H1 _ Hr) as (run & Hrun & Hn). destruct (Hle _ _ Hrun) as (run' & ? & Hn' & _). exists run'. split; congruence.
  - intros Hst r run' Hr Hrun'. destruct (runs_eq_back _ _ _ _ Heq Hrun') as (run & Hrun & _ & ->). by eapply H2.
  - intros Hrun Hsd. destruct (H3 Hrun Hsd) as (r & run & Hr & Hr' & Hrec). destruct (proj2 Heq _ _ Hr') as (run' & ? & _ & ?).
    exists r, run'. split_and!; congruence.
  - intros Hno Hst. destruct (H6 Hno Hst) as (r & run & Hr & Hr' & Hp). destruct (Hle _ _ Hr') as (run' & ? & _ & _ & _ & _ & Hp').
    exists r, run'. auto.
  - intros Hst. destruct (H7 Hst) as [Hsd Hs]. split; [done|]. intros r Hr. by eapply settled_le, Hs.
Qed.

Lemma stop_ok_runs sd rs rs' l pc : stop_ok sd rs l pc -> runs_le rs rs' -> stop_ok sd rs' l pc.
Proof.
  intros [H1 H2 H3 HL H4 H5] Hle. split; try done.
  - intros Hpc sv r Hsv Hr. destruct (H3 Hpc sv r Hsv Hr) as [?|[?|?]]; auto. right. left. by eapply settled_le.
  - intros t Ht. destruct (HL t Ht) as [run Hrun]. destruct (Hle _ _ Hrun) as (run' & ? & _). eauto.
  - intros t Ht. eapply settled_le; eauto.
  - intros name Hname sv r Hsv Hn Hr. eapply settled_le; eauto.
Qed.
Lemma thread_ok_runs sd rs rs' l t : thread_ok sd rs l t -> runs_le rs rs' -> thread_ok sd rs' l t.
Proof.
  intros H Hle. destruct t as [| |spec r pc| |pc| |]; cbn in *; try done; [|by eapply stop_ok_runs].
  destruct H as (H1 & H2 & H3). split_and!; [done..|]. intros st Hst. destruct (H3 st Hst) as [[-> Hp]|?]; [left|by right].
  split; [done|]. intros Hno. destruct (Hp Hno) as (run & Hrun & Hp'). destruct (Hle _ _ Hrun) as (run' & ? & _ & _ & _ & _ & ?). eauto.
Qed.

Lemma Inv_runs s rs' : Inv s -> runs_eq (runs s) rs' -> Inv (set_runs s rs').
Proof.
  intros [H1 H2 H3 H4 H5 H6] Heq. split; cbn; try done.
  - intros sv Hsv. by eapply svc_ok_runs; [apply H2|].
  - intros r run' Hr Hrec. destruct (runs_eq_back _ _ _ _ Heq Hr) as (run & Hrun & _ & Hrr). apply (H3 r run); congruence.
  - intros t Ht. eapply thread_ok_runs; [by apply H6|by apply runs_eq_le].
Qed.

(** The states of services change. *)
Definition kept (g : Service -> Service) : Prop := forall sv, sv_spec (g sv) = sv_spec sv /\ sv_run (g sv) = sv_run sv.
Lemma thread_ok_map sd rs l g t :
  kept g -> thread_ok sd rs l t ->
  (forall sv r, sv ∈ l -> sv_run sv = Some r -> (exists reason, sv_state sv = Failed reason) ->
    settled rs r \/ exists reason, sv_state (g sv) = Failed reason) ->
  thread_ok sd rs (g <$> l) t.
Proof.
  intros Hg H Hf. assert (Hin : forall sv', sv' ∈ g <$> l -> exists sv, sv ∈ l /\ sv' = g sv).
  { intros sv' (sv & -> & Hsv)%list_elem_of_fmap. eauto. }
  assert (Hn : forall sv, sv_name (g sv) = sv_name sv) by (intros sv; unfold sv_name; by rewrite (proj1 (Hg sv))).
  destruct t as [| |spec r pc| |pc| |]; cbn in *; try done.
  - destruct H as ((sv & Hsv & Hspec) & H2 & H3). split_and!; [|..|done].
    + exists (g sv). rewrite (proj1 (Hg sv)). split; [|done]. by apply list_elem_of_fmap_2.
    + intros Hno sv' (sv1 & Hsv1 & ->)%Hin Hsp. rewrite (proj1 (Hg _)) in Hsp. rewrite (proj2 (Hg _)). auto.
  - destruct H as [K1 K2 K3 KL K4 K5]. split; try done.
    + intros t0 Ht0 sv' (sv & Hsv & ->)%Hin. rewrite Hn, (proj2 (Hg _)). by apply K2.
    + intros Hpc sv' r (sv & Hsv & ->)%Hin. rewrite (proj2 (Hg _)). intros Hr.
      destruct (K3 Hpc sv r Hsv Hr) as [?|[?|Hfail]]; [by left|by right; left|right; by apply Hf].
    + intros name Hname sv' r (sv & Hsv & ->)%Hin. rewrite Hn, (proj2 (Hg _)). by apply K5.
Qed.

Lemma Inv_update ex s rs' g extra :
  Inv_ ex s -> kept g -> runs_le (runs s) rs' ->
  (forall r run', rs' !! r = Some run' -> recorded run' = false -> exists run, runs s !! r = Some run /\ recorded run = false) ->
  (forall sv, sv ∈ services (reg s) -> svc_ok (shutting_down (reg s)) rs' (g sv)) ->
  (forall sv r, sv ∈ services (reg s) -> sv_run sv = Some r -> (exists reason, sv_state sv = Failed reason) ->
    settled rs' r \/ exists reason, sv_state (g sv) = Failed reason) ->
  (forall sv, sv ∈ services (reg s) -> sv_state (g sv) = Restarting ->
    sv_state sv = Restarting /\ ~ ex (sv_name sv) \/ has_timer (now s) extra (sv_name sv)) ->
  Forall (thread_ok (shutting_down (reg s)) rs' (g <$> services (reg s))) extra ->
  Inv (add_threads (set_services (set_runs s rs') (g <$> services (reg s))) extra).
Proof.
  intros [H1 H2 H3 H4 H5 H6] Hg Hle Hback Hok Hf Hre Hex. split; cbn.
  - rewrite <- list_fmap_compose. erewrite list_fmap_ext; [exact H1|]. intros i sv _. cbn. unfold sv_name. by rewrite (proj1 (Hg _)).
  - intros sv' (sv & -> & Hsv)%list_elem_of_fmap. auto.
  - intros r run' Hr Hrec. destruct (Hback _ _ Hr Hrec) as (run & Hrun & Hrec').
    destruct (H3 r run Hrun Hrec') as (sv & Hsv & Hr'). exists (g sv). rewrite (proj2 (Hg _)).
    split; [|done]. by apply list_elem_of_fmap_2.
  - intros Hb. by rewrite H4.
  - intros Hsd sv' (sv & -> & Hsv)%list_elem_of_fmap Hst _. assert (sv_name (g sv) = sv_name sv) as ->.
    { unfold sv_name. by rewrite (proj1 (Hg _)). }
    destruct (Hre sv Hsv Hst) as [[Hst' Hne]|(due & Hin & Hle')]; [destruct (H5 Hsd sv Hsv Hst' Hne) as (due & Hin & Hle')|];
      exists due; (split; [|done]); apply elem_of_app; auto.
  - intros t [Ht|Ht]%elem_of_app; [|by eapply Forall_forall in Hex].
    apply thread_ok_map; [done|by eapply thread_ok_runs; [apply H6|]|done].
Qed.

Lemma add_threads_nil s : add_threads s [] = s.
Proof. destruct s. unfold add_threads; cbn. by rewrite app_nil_r. Qed.
Lemma set_runs_same s : set_runs s (runs s) = s.
Proof. by destruct s. Qed.

Lemma Inv_map s g :
  Inv s -> kept g ->
  (forall sv, sv ∈ services (reg s) -> svc_ok (shutting_down (reg s)) (runs s) (g sv)) ->
  (forall sv r, sv ∈ services (reg s) -> sv_run sv = Some r -> (exists reason, sv_state sv = Failed reason) ->
    settled (runs s) r \/ exists reason, sv_state (g sv) = Failed reason) ->
  (forall sv, sv ∈ services (reg s) -> sv_state (g sv) = Restarting -> sv_state sv = Restarting) ->
  Inv (set_services s (g <$> services (reg s))).
Proof.
  intros HI Hg Hok Hf Hre.
  cut (Inv (add_threads (set_services (set_runs s (runs s)) (g <$> services (reg s))) [])); [by rewrite add_threads_nil, set_runs_same|].
  eapply Inv_update; [done|done|done|eauto|done|done| |done]. intros sv Hsv Hst. left. split; [eauto|auto].
Qed.

(** Threads change. *)
Lemma Inv_set_thread s i t :
  Inv s -> thread_ok (shutting_down (reg s)) (runs s) (services (reg s)) t ->
  (forall name due, threads s !! i = Some (TRestart name due) -> False) -> Inv (set_thread s i t).
Proof.
  intros [H1 H2 H3 H4 H5 H6] Ht Hi. split; cbn; try done.
  - intros Hsd sv Hsv Hst Hne. destruct (H5 Hsd sv Hsv Hst Hne) as (due & [j Hj]%list_elem_of_lookup_1 & Hle). exists due. split; [|done].
    apply list_elem_of_lookup_2 with j. rewrite list_lookup_insert_ne; [done|]. intros <-. eauto.
  - intros t' Ht'. apply list_elem_of_lookup_1 in Ht' as [j Hj]. destruct (decide (i = j)) as [<-|].
    + apply list_lookup_insert_Some in Hj as [(_ & -> & _)|[Hne _]]; [done|by destruct Hne].
    + rewrite list_lookup_insert_ne in Hj by done. apply H6. by eapply list_elem_of_lookup_2.
Qed.
Lemma Inv_add_threads s l :
  Inv s -> Forall (thread_ok (shutting_down (reg s)) (runs s) (services (reg s))) l -> Inv (add_threads s l).
Proof.
  intros [H1 H2 H3 H4 H5 H6] Hl. split; cbn; try done.
  - intros Hsd sv Hsv Hst Hne. destruct (H5 Hsd sv Hsv Hst Hne) as (due & Hin & Hle). exists due. split; [|done].
    apply elem_of_app. by left.
  - intros t [Ht|Ht]%elem_of_app; [auto|]. by eapply Forall_forall in Hl.
Qed.

(** *** A state set *)

Lemma kept_if (p : Service -> bool) f : kept f -> kept (fun sv => if p sv then f sv else sv).
Proof. intros Hf sv. destruct (p sv); [apply Hf|done]. Qed.
Lemma kept_state_set st : kept (state_set st).
Proof. intros sv. unfold state_set. by case_match. Qed.

Lemma Inv_set_state s name st :
  Inv s -> st <> Restarting -> st <> Starting ->
  (forall sv, sv ∈ services (reg s) -> sv_name sv = name -> svc_ok (shutting_down (reg s)) (runs s) (state_set st sv)) ->
  (st = Stopped -> forall sv r, sv ∈ services (reg s) -> sv_name sv = name -> sv_run sv = Some r -> settled (runs s) r) ->
  Inv (set_state s name st).
Proof.
  intros HI Hst Hst' Hok Hstop. unfold set_state. rewrite (update_first_map _ _ name) by (apply HI || apply named_true).
  apply Inv_map; [done|apply kept_if, kept_state_set|..].
  - intros sv Hsv. destruct (named name sv) eqn:Hn; [apply Hok; [done|by apply named_true]|by apply HI].
  - intros sv r Hsv Hr [reason Hf]. destruct (named name sv) eqn:Hn; [|eauto]. apply named_true in Hn. unfold state_set.
    rewrite Hf. destruct st as [| | |reason'|]; cbn; try done; eauto.
  - intros sv Hsv. destruct (named name sv); [|done]. unfold state_set. case_match; [done|]. by cbn.
Qed.

(** A watcher's. *)
Lemma svc_ok_watched sd rs l spec r st sv :
  watch_ok rs l spec r (WSet st) -> NoDup (sv_name <$> l) -> sv ∈ l -> sv_name sv = sp_name spec ->
  svc_ok sd rs sv -> svc_ok sd rs (state_set st sv).
Proof.
  intros ((sv0 & Hsv0 & Hspec) & Hno & Hset) Hnd Hsv Hname Hok.
  assert (sv0 = sv) as -> by (eapply name_inj; [done..|]; unfold sv_name in *; congruence).
  unfold state_set. case_match eqn:Hc; [done|]. apply orb_false_iff in Hc as [Hns Hrd]. apply bool_decide_eq_false in Hns.
  destruct Hok as [H1 H2 H3 H4 H5 H6 H7 H8].
  destruct (Hset st eq_refl) as [[-> Hp]|[Hn [reason ->]]]; cbn in Hrd.
  - apply negb_false_iff, bool_decide_eq_true in Hrd. split; cbn; try done.
    + intros _ Hsd. apply H3; [|done]. unfold running. by rewrite Hrd.
    + intros Hn _. rewrite Hspec in Hn. destruct (Hp Hn) as (run & Hrun & Hpass). exists r, run. auto.
  - split; cbn; try done. intros Ha. congruence.
Qed.

(** *** Runs that end *)

Lemma next_delay_bounds last ran : 0 <= last <= RESTART_MAX -> RESTART_FIRST <= next_delay last ran <= RESTART_MAX \/ 0 < last < 500.
Proof. unfold next_delay, RESTART_FIRST, RESTART_MAX. intros H. repeat case_test; lia. Qed.
Lemma next_delay_range last ran : 0 <= last <= RESTART_MAX -> 0 <= next_delay last ran <= RESTART_MAX.
Proof. unfold next_delay, RESTART_FIRST, RESTART_MAX. intros H. repeat case_test; lia. Qed.

Lemma Inv_die s r status : Inv s -> Inv (step (fun _ => None) (fun _ => None) [] (Die r status) s).
Proof.
  intros HI. cbn. destruct (runs s !! r) as [run|] eqn:Hr; [|done]. destruct (alive run) eqn:Ha; [|done].
  apply Inv_runs; [done|]. unfold alive in Ha. destruct (rn_stage run) eqn:Hs; try done.
  eapply runs_eq_insert; [done|..]; unfold run_le, recorded, alive; cbn; rewrite Hs; auto.
Qed.
Lemma Inv_tell s r : Inv s -> Inv (tell s r).
Proof.
  intros HI. unfold tell. destruct (runs s !! r) as [run|] eqn:Hr; [|done]. destruct (rn_stage run) eqn:Hs; try done.
  apply Inv_runs; [done|]. eapply runs_eq_insert; [done|..]; unfold run_le, recorded, alive; cbn; rewrite Hs; auto.
Qed.
Lemma reap_one_inv acc r :
  (Inv acc.1 -> Inv (reap_one acc r).1) /\
  reg (reap_one acc r).1 = reg acc.1 /\ threads (reap_one acc r).1 = threads acc.1 /\ now (reap_one acc r).1 = now acc.1.
Proof.
  unfold reap_one. destruct (runs acc.1 !! r) as [run|] eqn:Hr; [|done]. destruct (rn_stage run) eqn:Hs; try done.
  split; [|done]. intros HI. apply Inv_runs; [done|].
  eapply runs_eq_insert; [done|..]; unfold run_le, recorded, alive; cbn; rewrite Hs; auto.
Qed.
Lemma reap_ok rs s :
  (Inv s -> Inv (reap rs s).1) /\ reg (reap rs s).1 = reg s /\ threads (reap rs s).1 = threads s /\ now (reap rs s).1 = now s.
Proof.
  unfold reap. change s with (s, @nil nat).1 at 1 4 6 8. generalize (s, @nil nat). clear s.
  induction rs as [|r rs IH]; intros acc; [done|]. cbn [fold_left].
  destruct (IH (reap_one acc r)) as (H1 & H2 & H3 & H4), (reap_one_inv acc r) as (G1 & G2 & G3 & G4).
  split_and!; [auto|congruence..].
Qed.

Lemma kept_exited t st : kept (exited t st).
Proof. intros sv. unfold exited. by destruct (sp_restart (sv_spec sv)). Qed.

(** The run [r] is recorded: its service, if it was running, is over. *)
Section record.
Context (s : Sys) (r : nat) (run : Run) (st : Z).
Context (HI : Inv s) (Hr : runs s !! r = Some run) (Hst : rn_stage run = Told st).

Let rs' := <[ r := set_stage run (Recorded st) ]> (runs s).
Let p sv := named (rn_name run) sv && running sv.
Let g sv := if p sv then exited (now s) st sv else sv.

Lemma record_runs : runs_le (runs s) rs' /\ rs' !! r = Some (set_stage run (Recorded st)).
Proof.
  split; [|unfold rs'; rewrite list_lookup_insert_eq; [done|by eapply lookup_lt_Some]].
  eapply runs_le_insert; [done|]. unfold run_le, recorded, alive; cbn. rewrite Hst. auto.
Qed.
Lemma record_other r' run' : rs' !! r' = Some run' -> r' <> r -> runs s !! r' = Some run'.
Proof. intros H Hne. unfold rs' in H. by rewrite list_lookup_insert_ne in H. Qed.

Lemma record_owner : exists sv0, sv0 ∈ services (reg s) /\ sv_run sv0 = Some r /\ sv_name sv0 = rn_name run.
Proof.
  destruct (i_runs _ _ HI r run Hr) as (sv0 & Hsv0 & Hr0); [unfold recorded; by rewrite Hst|].
  exists sv0. split_and!; [done..|]. destruct (so_run _ _ _ (i_svcs _ _ HI _ Hsv0) _ Hr0) as (run0 & Hrun0 & Hn). congruence.
Qed.

Lemma record_svc sv : sv ∈ services (reg s) -> shutting_down (reg s) = false -> svc_ok false rs' (g sv).
Proof.
  intros Hsv Hsd. destruct record_runs as [Hle Hrs]. pose proof (i_svcs _ _ HI _ Hsv) as Hok. rewrite Hsd in Hok.
  destruct record_owner as (sv0 & Hsv0 & Hr0 & Hn0). destruct Hok as [H1 H2 H3 H4 H5 H6 H7 H8].
  assert (H1' : forall r0, sv_run sv = Some r0 -> exists run0, rs' !! r0 = Some run0 /\ rn_name run0 = sv_name sv).
  { intros r0 Hr0'. destruct (H1 _ Hr0') as (x & Hx & Hn). destruct (Hle _ _ Hx) as (x' & Hx' & Hn' & _). exists x'. split; congruence. }
  assert (Hpass : sp_restart (sv_spec sv) = RestartNo -> sv_state sv = Ready ->
    exists r0 run0, sv_run sv = Some r0 /\ rs' !! r0 = Some run0 /\ rn_passed run0 = true).
  { intros Hno Hrd. destruct (H6 Hno Hrd) as (r0 & x & Hx & Hx' & Hp). destruct (Hle _ _ Hx') as (x' & ? & _ & _ & _ & _ & ?). eauto 6. }
  unfold g, p. destruct (named (rn_name run) sv) eqn:Hn; cbn.
  - apply named_true in Hn. assert (sv = sv0) as -> by (eapply name_inj; [apply HI|done..|congruence]).
    destruct (running sv0) eqn:Hrun.
    + unfold exited. destruct (sp_restart (sv_spec sv0)) eqn:Hre; split; cbn; try done.
      * by rewrite Hre.
      * intros _ r1 run1 Hr1 Hrun1. rewrite Hr0 in Hr1. injection Hr1 as <-. rewrite Hrs in Hrun1. by injection Hrun1 as <-.
      * by rewrite Hre.
      * by apply next_delay_range.
    + split; try done.
      * intros Hst' r1 run1 Hr1 Hrun1. rewrite Hr0 in Hr1. injection Hr1 as <-. rewrite Hrs in Hrun1. by injection Hrun1 as <-.
      * by rewrite Hrun.
      * intros Hs. by destruct (H7 Hs).
  - split; try done.
    + intros Hst' r1 run1 Hr1 Hrun1. destruct (decide (r1 = r)) as [->|]; [rewrite Hrs in Hrun1; by injection Hrun1 as <-|].
      eapply H2; [done|done|]. by apply record_other.
    + intros Hrun _. destruct (H3 Hrun eq_refl) as (r1 & run1 & Hr1 & Hrun1 & Hrec). exists r1, run1. split_and!; [done| |done].
      unfold rs'. rewrite list_lookup_insert_ne; [done|]. intros ->. destruct (H1 _ Hr1) as (x & Hx & Hnx). rewrite Hr in Hx.
      injection Hx as <-. unfold named in Hn. apply bool_decide_eq_false in Hn. congruence.
    + intros Hs. by destruct (H7 Hs).
Qed.

Lemma Inv_record : Inv (record s r).
Proof.
  destruct record_runs as [Hle Hrs]. unfold record. rewrite Hr, Hst. unfold record_exit. cbn.
  assert (Hback : forall r0 run', rs' !! r0 = Some run' -> recorded run' = false -> exists run, runs s !! r0 = Some run /\ recorded run = false).
  { intros r0 run' Hr0 Hrec. destruct (decide (r0 = r)) as [->|]; [rewrite Hrs in Hr0; by injection Hr0 as <-|].
    apply record_other in Hr0; eauto. }
  destruct (shutting_down (reg s)) eqn:Hsd.
  - cut (Inv (add_threads (set_services (set_runs s rs') (id <$> services (reg s))) [])).
    { rewrite add_threads_nil, list_fmap_id. by destruct s as [? []]. }
    eapply Inv_update; [done|done|done|done| |eauto| |done].
    + intros sv Hsv. rewrite Hsd. change (id sv) with sv. pose proof (i_svcs _ _ HI _ Hsv) as [H1 H2 H3 H4 H5 H6 H7 H8]. rewrite Hsd in *. split; try done.
      * intros r0 Hr0. destruct (H1 _ Hr0) as (x & Hx & Hn). destruct (Hle _ _ Hx) as (x' & Hx' & Hn' & _). exists x'. split; congruence.
      * intros Hst' r1 run1 Hr1 Hrun1. destruct (decide (r1 = r)) as [->|]; [rewrite Hrs in Hrun1; by injection Hrun1 as <-|].
        eapply H2; [done|done|]. by apply record_other.
      * intros Hno Hrd. destruct (H6 Hno Hrd) as (r0 & x & Hx & Hx' & Hp). destruct (Hle _ _ Hx') as (x' & ? & _ & _ & _ & _ & ?). eauto 6.
      * intros Hs. destruct (H7 Hs) as [_ Hset]. split; [done|]. intros r0 Hr0. by eapply settled_le, Hset.
    + intros sv Hsv Hs. left. auto.
  - assert (Hup : update_first p (exited (now s) st) (services (reg s)) = g <$> services (reg s)).
    { apply (update_first_map _ _ (rn_name run)); [apply HI|]. intros sv. apply named_and. }
    assert (Hfail : forall sv r0, sv ∈ services (reg s) -> sv_run sv = Some r0 -> (exists reason, sv_state sv = Failed reason) ->
      settled rs' r0 \/ exists reason, sv_state (g sv) = Failed reason).
    { intros sv r0 Hsv Hr0 [reason Hf]. right. exists reason. unfold g, p, running. rewrite Hf. by rewrite andb_false_r. }
    assert (Hkept : kept g) by apply kept_if, kept_exited.
    destruct (find p (services (reg s))) as [sv|] eqn:Hfind; fold p; rewrite Hfind.
    + apply find_In in Hfind as [Hsv Hp]. pose proof (record_svc sv Hsv Hsd) as Hok. fold p. rewrite Hup.
      assert (Hone : forall sv', sv' ∈ services (reg s) -> p sv' = true -> sv' = sv).
      { intros sv' Hsv' Hp'. apply named_and in Hp, Hp'. eapply name_inj; [apply HI|done..|congruence]. }
      destruct (sp_restart (sv_spec sv)) eqn:Hre.
      * change (Inv (set_services (set_runs s rs') (g <$> services (reg s)))). rewrite <- (add_threads_nil (set_services _ _)).
        eapply Inv_update; [done|done|done|done| |done| |done].
        -- intros sv' Hsv'. rewrite Hsd. by apply record_svc.
        -- intros sv' Hsv' Hs. left. unfold g in Hs. destruct (p sv') eqn:Hp'; [|auto].
           rewrite (Hone _ Hsv' Hp') in Hs. unfold exited in Hs. by rewrite Hre in Hs.
      * eapply Inv_update; [done|done|done|done| |done| |by repeat constructor].
        -- intros sv' Hsv'. rewrite Hsd. by apply record_svc.
        -- intros sv' Hsv' Hs. unfold g in Hs. destruct (p sv') eqn:Hp'; [|left; auto]. right.
           pose proof (Hone _ Hsv' Hp') as ->. eexists. apply named_and in Hp'. rewrite <- Hp'. split; [apply elem_of_cons; by left|].
           cbn [now set_services set_reg set_runs]. destruct Hok as [_ _ _ _ _ _ _ Hd]. unfold g in Hd. rewrite Hp in Hd. lia.
    + rewrite <- (add_threads_nil (set_runs _ _)).
      cut (Inv (add_threads (set_services (set_runs s rs') (g <$> services (reg s))) [])).
      { assert (g <$> services (reg s) = services (reg s)) as ->; [|by destruct s as [? []]].
        etrans; [|apply list_fmap_id]. apply list_fmap_ext. intros i sv Hi. unfold g.
        by rewrite (find_None _ _ Hfind) by (by eapply list_elem_of_lookup_2). }
      eapply Inv_update; [done|done|done|done| |done| |done].
      * intros sv' Hsv'. rewrite Hsd. by apply record_svc.
      * intros sv' Hsv' Hs. left. unfold g in Hs. rewrite (find_None _ _ Hfind) in Hs by done. auto.
Qed.
End record.

(** *** Runs that start *)

Lemma svc_ok_app sd rs l sv : svc_ok sd rs sv -> svc_ok sd (rs ++ l) sv.
Proof.
  intros [H1 H2 H3 H4 H5 H6 H7 H8]. pose proof (runs_le_app rs l) as Hle.
  assert (Hl : forall r run, rs !! r = Some run -> (rs ++ l) !! r = Some run) by (intros; by apply lookup_app_l_Some).
  split; try done.
  - intros r Hr. destruct (H1 _ Hr) as (run & Hrun & Hn). eauto.
  - intros Hst r run Hr Hrun. destruct (H1 _ Hr) as (run0 & Hrun0 & _). rewrite (Hl _ _ Hrun0) in Hrun. injection Hrun as <-. eauto.
  - intros Hrun Hsd. destruct (H3 Hrun Hsd) as (r & run & ? & ? & ?). eauto 6.
  - intros Hno Hst. destruct (H6 Hno Hst) as (r & run & ? & ? & ?). eauto 6.
  - intros Hst. destruct (H7 Hst) as [? Hs]. split; [done|]. intros r Hr. by eapply settled_le, Hs.
Qed.

(** While the guest does not shut down, a shutdown has not begun. *)
Lemma stop_ok_idle rs rs' l l' pc : stop_ok false rs l pc -> stop_ok false rs' l' pc.
Proof.
  intros [H _ _ _ _ _]. assert (pc = SBegin) as ->; [|by split; cbn; intros; try done; set_solver].
  destruct pc; try done; by discriminate H.
Qed.

Lemma Inv_done ex s : Inv_ ex s -> (shutting_down (reg s) = false -> forall sv, sv ∈ services (reg s) -> sv_state sv = Restarting -> ~ ex (sv_name sv)) -> Inv s.
Proof. intros [H1 H2 H3 H4 H5 H6] Hex. split; try done. intros Hsd sv Hsv Hst _. apply H5; auto. Qed.

Lemma Inv_fire s i name due t :
  Inv s -> threads s !! i = Some (TRestart name due) -> thread_ok (shutting_down (reg s)) (runs s) (services (reg s)) t ->
  Inv_ (eq name) (set_thread s i t).
Proof.
  intros [H1 H2 H3 H4 H5 H6] Hi Ht. split; cbn; try done.
  - intros Hsd sv Hsv Hst Hne. destruct (H5 Hsd sv Hsv Hst) as (due' & [j Hj]%list_elem_of_lookup_1 & Hle); [auto|].
    exists due'. split; [|done]. apply list_elem_of_lookup_2 with j. rewrite list_lookup_insert_ne; [done|]. intros <-. congruence.
  - intros t' Ht'. apply list_elem_of_lookup_1 in Ht' as [j Hj]. destruct (decide (i = j)) as [<-|].
    + apply list_lookup_insert_Some in Hj as [(_ & -> & _)|[Hne _]]; [done|by destruct Hne].
    + rewrite list_lookup_insert_ne in Hj by done. apply H6. by eapply list_elem_of_lookup_2.
Qed.

Lemma restarting_true name sv : restarting name sv = true -> sv_name sv = name /\ sv_state sv = Restarting.
Proof. unfold restarting. intros [H1 H2]%andb_true_iff. by apply named_true in H1; apply bool_decide_eq_true in H2. Qed.

Lemma restarting_false name sv : restarting name sv = false -> sv_state sv = Restarting -> name <> sv_name sv.
Proof.
  unfold restarting, named. intros H Hst Hn. rewrite bool_decide_true in H by done. by rewrite bool_decide_true in H.
Qed.

Lemma Inv_retry s name sv :
  Inv_ (eq name) s -> sv ∈ services (reg s) -> restarting name sv = true ->
  Inv (restart_after (set_services s (update_first (restarting name) redelayed (services (reg s)))) name (sv_delay (redelayed sv))).
Proof.
  intros HI Hsv Hre. rewrite (update_first_map _ _ name); [|apply HI|intros sv' H; by apply restarting_true in H as []].
  unfold restart_after. rewrite <- (set_runs_same s) at 1.
  assert (Hok : forall sv', sv' ∈ services (reg s) -> svc_ok (shutting_down (reg s)) (runs s) (redelayed sv')).
  { intros sv' Hsv'. destruct (i_svcs _ _ HI _ Hsv') as [H1 H2 H3 H4 H5 H6 H7 H8]. split; try done. by apply next_delay_range. }
  eapply Inv_update; [done|by apply kept_if|done|eauto|..].
  - intros sv' Hsv'. destruct (restarting name sv'); [auto|by apply HI].
  - intros sv' r Hsv' Hr Hf. right. by destruct (restarting name sv').
  - intros sv' Hsv' Hst. destruct (restarting name sv') eqn:Hr'.
    + right. apply restarting_true in Hr' as [<- _]. eexists. split; [apply elem_of_cons; by left|].
      destruct (Hok _ Hsv) as [_ _ _ _ _ _ _ Hd]. cbn [now set_services set_reg set_runs]. lia.
    + left. split; [done|]. by apply restarting_false.
  - by repeat constructor.
Qed.

Lemma Inv_restarted s name sv :
  Inv_ (eq name) s -> shutting_down (reg s) = false -> sv ∈ services (reg s) -> restarting name sv = true ->
  Inv (add_threads (set_services (set_runs s (runs s ++ [new_run (sp_name (sv_spec sv))]))
    (update_first (restarting name) (respawned (now s) (length (runs s))) (services (reg s)))) [TWatch (sv_spec sv) (length (runs s)) WBegin]).
Proof.
  intros HI Hsd Hsv Hre. rewrite (update_first_map _ _ name); [|apply HI|intros sv' H; by apply restarting_true in H as []].
  set (g := fun sv => if restarting name sv then _ else sv). apply restarting_true in Hre as Hre'. destruct Hre' as [Hn Hst].
  assert (Halways : sp_restart (sv_spec sv) = RestartAlways).
  { pose proof (so_no _ _ _ (i_svcs _ _ HI _ Hsv)) as Hno. destruct (sp_restart (sv_spec sv)); [by destruct Hno|done]. }
  assert (Hone : forall sv', sv' ∈ services (reg s) -> restarting name sv' = true -> sv' = sv).
  { intros sv' Hsv' [Hn' _]%restarting_true. eapply name_inj; [apply HI|done..|congruence]. }
  assert (Hspec : forall sv', sv_spec (g sv') = sv_spec sv') by (intros sv'; unfold g; by destruct (restarting name sv')).
  assert (Hname : forall sv', sv_name (g sv') = sv_name sv') by (intros; unfold sv_name; by rewrite Hspec).
  assert (Hnew : (runs s ++ [new_run (sp_name (sv_spec sv))]) !! length (runs s) = Some (new_run (sp_name (sv_spec sv)))).
  { by rewrite list_lookup_middle. }
  pose proof HI as [H1 H2 H3 H4 H5 H6]. split; cbn.
  - rewrite <- list_fmap_compose. erewrite list_fmap_ext; [exact H1|]. intros i sv' _. apply Hname.
  - intros sv' (sv1 & -> & Hsv1)%list_elem_of_fmap. unfold g. destruct (restarting name sv1) eqn:Hr1.
    + rewrite (Hone _ Hsv1 Hr1). pose proof (so_delay _ _ _ (H2 _ Hsv)). split; cbn; try done.
      * intros r [= <-]. eauto.
      * intros _ _. eauto.
    + by apply svc_ok_app, H2.
  - intros r run Hr Hrec. apply lookup_app_Some in Hr as [Hr|[Hlt Hr]].
    + destruct (H3 r run Hr Hrec) as (sv1 & Hsv1 & Hr1). exists (g sv1). split; [by apply list_elem_of_fmap_2|].
      unfold g. destruct (restarting name sv1) eqn:Hre1; [|done]. apply restarting_true in Hre1 as [_ Hst1].
      pose proof (so_restarting _ _ _ (H2 _ Hsv1) Hst1 _ _ Hr1 Hr). congruence.
    + exists (g sv). split; [by apply list_elem_of_fmap_2|]. unfold g. rewrite Hre. cbn.
      apply list_lookup_singleton_Some in Hr as [Hr _]. f_equal. lia.
  - intros Hb. by rewrite H4.
  - intros _ sv' (sv1 & -> & Hsv1)%list_elem_of_fmap Hst1 _. rewrite Hname. unfold g in Hst1.
    destruct (restarting name sv1) eqn:Hr1; [done|]. destruct (H5 Hsd sv1 Hsv1 Hst1) as (due & Hin & Hle).
    { by apply restarting_false. }
    exists due. split; [|done]. apply elem_of_app. by left.
  - intros t [Ht|Ht%list_elem_of_singleton]%elem_of_app.
    + apply H6 in Ht. destruct t as [| |spec r pc| |pc| |]; cbn in *; try done; [|rewrite Hsd in *; by eapply stop_ok_idle].
      eapply (thread_ok_runs false _ _ _ (TWatch spec r pc)); [|apply runs_le_app]. destruct Ht as ((sv1 & Hsv1 & Hsp) & W2 & W3).
      split_and!; [|..|done].
      * exists (g sv1). rewrite Hspec. split; [|done]. by apply list_elem_of_fmap_2.
      * intros Hno sv' (sv2 & -> & Hsv2)%list_elem_of_fmap. rewrite Hspec. intros Hsp2. unfold g.
        destruct (restarting name sv2) eqn:Hr2; [|auto]. rewrite (Hone _ Hsv2 Hr2) in Hsp2. congruence.
    + subst t. split_and!; [|congruence|done]. exists (g sv). rewrite Hspec. split; [|done]. by apply list_elem_of_fmap_2.
Qed.

Lemma Inv_respawn s name ok : Inv_ (eq name) s -> Inv (respawn s name ok).
Proof.
  intros HI. unfold respawn. destruct (shutting_down (reg s)) eqn:Hsd; [eapply Inv_done; [done|]; congruence|].
  destruct (find (restarting name) (services (reg s))) as [sv|] eqn:Hf.
  - apply find_In in Hf as [Hsv Hre]. destruct ok; cbn [spawn]; [exact (Inv_restarted s name sv HI Hsd Hsv Hre)|by apply Inv_retry].
  - eapply Inv_done; [done|]. intros _ sv Hsv Hst. apply restarting_false; [|done]. by apply (find_None _ _ Hf).
Qed.

(** *** Services that are registered *)

Lemma Inv_register s spec run st delay extra rs' :
  Inv s -> begun (reg s) = true -> shutting_down (reg s) = false -> sp_name spec ∉ sv_name <$> services (reg s) ->
  (exists l, rs' = runs s ++ l) -> svc_ok false rs' (new_service (now s) spec run st delay) ->
  (forall r x, rs' !! r = Some x -> recorded x = false -> runs s !! r = Some x \/ run = Some r) ->
  (st = Restarting -> has_timer (now s) extra (sp_name spec)) ->
  Forall (thread_ok false rs' (services (reg s) ++ [new_service (now s) spec run st delay])) extra ->
  Inv (add_threads (set_services (set_runs s rs') (services (reg s) ++ [new_service (now s) spec run st delay])) extra).
Proof.
  intros [H1 H2 H3 H4 H5 H6] Hb Hsd Hnew [l ->] Hok Hr Ht Hex. set (sv := new_service _ _ _ _ _) in *. split; cbn.
  - rewrite fmap_app. apply NoDup_app. split_and!; [done| |apply NoDup_singleton].
    intros n Hn ->%list_elem_of_singleton. by apply Hnew.
  - rewrite Hsd. intros sv' [Hsv'| ->%list_elem_of_singleton]%elem_of_app; [|done].
    apply svc_ok_app. rewrite <- Hsd. by apply H2.
  - intros r x Hx Hrec. destruct (Hr _ _ Hx Hrec) as [Hx'| ->].
    + destruct (H3 _ _ Hx' Hrec) as (sv' & Hsv' & ?). exists sv'. split; [|done]. apply elem_of_app. by left.
    + exists sv. split; [|done]. apply elem_of_app. right. by apply list_elem_of_singleton.
  - congruence.
  - intros _ sv' [Hsv'| ->%list_elem_of_singleton]%elem_of_app Hst _.
    + destruct (H5 Hsd sv' Hsv' Hst) as (due & Hin & Hle); [auto|]. exists due. split; [|done]. apply elem_of_app. by left.
    + destruct (Ht Hst) as (due & Hin & Hle). exists due. split; [|done]. apply elem_of_app. by right.
  - rewrite Hsd. intros t [Hin|Hin]%elem_of_app; [|by eapply Forall_forall in Hex].
    apply H6 in Hin. rewrite Hsd in Hin. apply (thread_ok_runs false (runs s)); [|apply runs_le_app].
    destruct t as [| |sp r pc| |pc| |]; cbn in *; try done; [|by eapply stop_ok_idle].
    destruct Hin as ((sv' & Hsv' & Hsp) & W2 & W3). split_and!; [|..|done].
    + exists sv'. split; [|done]. apply elem_of_app. by left.
    + intros Hno sv1 [Hsv1| ->%list_elem_of_singleton]%elem_of_app Hsp1; [by apply W2|]. exfalso. apply Hnew.
      apply list_elem_of_fmap. exists sv'. split; [|done]. unfold sv_name. rewrite Hsp. by rewrite <- Hsp1.
Qed.

Lemma Inv_start_one s spec ok :
  Inv s -> begun (reg s) = true -> shutting_down (reg s) = false -> sp_name spec ∉ sv_name <$> services (reg s) ->
  Inv (start_one s spec ok).
Proof.
  intros HI Hb Hsd Hn. unfold start_one. destruct ok; cbn [spawn].
  - assert (Hnew : (runs s ++ [new_run (sp_name spec)]) !! length (runs s) = Some (new_run (sp_name spec))) by by rewrite list_lookup_middle.
    apply (Inv_register s spec (Some (length (runs s))) Starting 0 [TWatch spec (length (runs s)) WBegin] (runs s ++ [new_run (sp_name spec)]));
      try done; eauto.
    + split; cbn; try done; [|eauto]. intros r [= <-]. eauto.
    + intros r x Hx _. apply lookup_app_Some in Hx as [Hx|[Hlt Hx]]; [by left|right].
      apply list_lookup_singleton_Some in Hx as [Hx _]. f_equal. lia.
    + constructor; [|done]. split_and!; [|..|done].
      * eexists. split; [apply elem_of_app; right; by apply list_elem_of_singleton|done].
      * intros _ sv [Hsv| ->%list_elem_of_singleton]%elem_of_app Hsp; [|done]. exfalso. apply Hn.
        apply list_elem_of_fmap. exists sv. unfold sv_name. by rewrite Hsp.
  - destruct (sp_restart spec) eqn:Hre.
    + change (Inv (set_services s (services (reg s) ++ [new_service (now s) spec None (Failed FailedToStart) 0]))).
      rewrite <- (add_threads_nil (set_services _ _)), <- (set_runs_same s) at 1.
      apply (Inv_register s spec None (Failed FailedToStart) 0 [] (runs s)); try done; eauto.
      * exists []. by rewrite app_nil_r.
      * split; cbn; try done. congruence.
    + unfold restart_after. rewrite <- (set_runs_same s) at 1.
      apply (Inv_register s spec None Restarting RESTART_FIRST _ (runs s)); try done; eauto.
      * exists []. by rewrite app_nil_r.
      * split; cbn; try done. congruence.
      * intros _. eexists. split; [apply elem_of_cons; by left|]. cbn. unfold RESTART_FIRST, RESTART_MAX. lia.
      * by repeat constructor.
Qed.

Lemma start_one_facts s spec ok :
  begun (reg (start_one s spec ok)) = begun (reg s) /\ shutting_down (reg (start_one s spec ok)) = shutting_down (reg s) /\
  exists sv, services (reg (start_one s spec ok)) = services (reg s) ++ [sv] /\ sv_name sv = sp_name spec.
Proof. unfold start_one. destruct ok; cbn; [eauto|]. destruct (sp_restart spec); cbn; eauto. Qed.

Lemma Inv_start_each specs s oks :
  Inv s -> begun (reg s) = true -> shutting_down (reg s) = false -> NoDup ((sv_name <$> services (reg s)) ++ (sp_name <$> specs)) ->
  Inv (start_each s specs oks).
Proof.
  revert s oks. induction specs as [|spec specs IH]; intros s oks HI Hb Hsd Hnd; [done|]. cbn in *.
  destruct (start_one_facts s spec (default false (head oks))) as (F1 & F2 & sv & F3 & F4).
  apply IH; [|congruence..|].
  - apply Inv_start_one; [done..|]. intros Hin. apply NoDup_app in Hnd as (_ & Hnd & _). apply (Hnd _ Hin). apply elem_of_cons. by left.
  - rewrite F3, fmap_app. cbn. rewrite F4, <- app_assoc. done.
Qed.

Lemma Inv_start_locked s specs oks : Inv s -> NoDup (sp_name <$> specs) -> Inv (start_locked s specs oks).1.
Proof.
  intros HI Hnd. unfold start_locked. destruct (begun (reg s)) eqn:Hb; [by destruct (services (reg s))|].
  pose proof (i_begun _ _ HI Hb) as Hnil.
  assert (HI' : Inv (set_reg s (MkRegistry (services (reg s)) true (shutting_down (reg s))))).
  { destruct HI as [H1 H2 H3 H4 H5 H6]. by split. }
  destruct (shutting_down (reg s)) eqn:Hsd; [done|]. cbn. apply Inv_start_each; [done..|]. cbn. by rewrite Hnil.
Qed.

(** *** Shutdowns *)

Lemma signal_all_keeps f l s :
  reg (signal_all f l s) = reg s /\ threads (signal_all f l s) = threads s /\ now (signal_all f l s) = now s.
Proof. unfold signal_all. revert s. induction l as [|t l IH]; intros s; [done|]. cbn. destruct (IH (set_runs s (alter f (tg_run t) (runs s)))) as (? & ? & ?). done. Qed.
Lemma term_le a : run_le a (term a) /\ recorded (term a) = recorded a.
Proof. unfold run_le, term, recorded, alive. destruct (rn_stage a) eqn:Hs; cbn; rewrite ?Hs; auto 10. Qed.
Lemma kill_le a : run_le a (kill a) /\ recorded (kill a) = recorded a.
Proof. unfold run_le, kill, recorded, alive. destruct (rn_stage a) eqn:Hs; cbn; rewrite ?Hs; auto 10. Qed.
Lemma runs_eq_refl rs : runs_eq rs rs.
Proof. split; [done|]. intros r run Hr. by exists run. Qed.
Lemma runs_eq_trans a b c : runs_eq a b -> runs_eq b c -> runs_eq a c.
Proof.
  intros Hab Hbc. split; [destruct Hab, Hbc; congruence|]. intros r run Hr. destruct (proj2 Hab _ _ Hr) as (r1 & H1 & L1 & E1).
  destruct (proj2 Hbc _ _ H1) as (r2 & H2 & L2 & E2). exists r2. split_and!; [done| |congruence].
  unfold run_le in *. destruct L1 as (? & ? & ? & ? & ?), L2 as (? & ? & ? & ? & ?). split_and!; auto; congruence.
Qed.
Lemma signal_all_runs f l s :
  (forall a, run_le a (f a) /\ recorded (f a) = recorded a) -> runs_eq (runs s) (runs (signal_all f l s)).
Proof.
  intros Hf. unfold signal_all. revert s. induction l as [|t l IH]; intros s; [apply runs_eq_refl|]. cbn.
  eapply runs_eq_trans; [by apply (runs_eq_alter f (tg_run t))|]. exact (IH (set_runs s (alter f (tg_run t) (runs s)))).
Qed.
Lemma Inv_signal f l s : (forall a, run_le a (f a) /\ recorded (f a) = recorded a) -> Inv s -> Inv (signal_all f l s).
Proof.
  intros Hf HI. pose proof (signal_all_runs f l s Hf) as Heq. destruct (signal_all_keeps f l s) as (E1 & E2 & E3).
  pose proof (Inv_runs _ _ HI Heq) as HI'. unfold set_runs in HI'. rewrite <- E1, <- E2, <- E3 in HI'. by destruct (signal_all f l s).
Qed.
(** A run that SIGKILL was sent to is settled. *)
Lemma kill_settles l s t : t ∈ l -> (tg_run t < length (runs s))%nat -> settled (runs (signal_all kill l s)) (tg_run t).
Proof.
  unfold signal_all. revert s. induction l as [|t' l IH]; intros s Hin Hlt; [by apply elem_of_nil in Hin|]. cbn.
  apply elem_of_cons in Hin as [->|Hin].
  - eapply settled_le; [apply runs_eq_le, (signal_all_runs kill l (set_runs s (alter kill (tg_run t') (runs s)))), kill_le|].
    apply lookup_lt_is_Some_2 in Hlt as [run Hrun]. exists (kill run). cbn. rewrite list_lookup_alter_eq, Hrun. split; [done|].
    unfold kill, alive. by destruct (rn_stage run) eqn:Hs; cbn; rewrite ?Hs.
  - apply IH; [done|]. cbn. by rewrite length_alter.
Qed.
Lemma exited_settled s t : has_exited s t = true -> settled (runs s) (tg_run t).
Proof.
  unfold has_exited, run_exit. intros [st Hst]%bool_decide_eq_true. destruct (runs s !! tg_run t) as [run|] eqn:Hr; [|done].
  exists run. split; [done|]. cbn in Hst. unfold exit_get in Hst. unfold alive. by destruct (rn_stage run).
Qed.

Lemma Inv_begin_stop s : Inv s -> Inv (set_reg s (MkRegistry (services (reg s)) (begun (reg s)) true)).
Proof.
  intros [H1 H2 H3 H4 H5 H6]. split; cbn; try done.
  - intros sv Hsv. destruct (H2 _ Hsv) as [K1 K2 K3 K4 K5 K6 K7 K8]. split; try done. intros Hs. by destruct (K7 Hs).
  - intros t Ht. apply H6 in Ht. destruct t as [| |spec r pc| |pc| |]; cbn in *; try done. by destruct Ht as [? ? ? ? ? ?]; split.
Qed.

Lemma targets_ok s : Inv s -> stop_ok true (runs s) (services (reg s)) (STerm (omap target (services (reg s)))).
Proof.
  intros HI. assert (Htg : forall t, t ∈ omap target (services (reg s)) -> exists sv, sv ∈ services (reg s) /\ sv_name sv = tg_name t /\ sv_run sv = Some (tg_run t)).
  { intros t (sv & Hsv & Ht)%list_elem_of_omap. unfold target in Ht. destruct (running sv); [|done].
    destruct (sv_run sv) as [r|] eqn:Hr; [|done]. injection Ht as <-. eauto. }
  split; cbn; try done.
  - intros t Ht. rewrite app_nil_r in Ht. destruct (Htg _ Ht) as (sv0 & Hsv0 & Hn0 & Hr0). intros sv Hsv Hn.
    assert (sv = sv0) as -> by (eapply name_inj; [apply HI|done..|congruence]). done.
  - intros _ sv r Hsv Hr. pose proof (i_svcs _ _ HI _ Hsv) as Hok. destruct (so_run _ _ _ Hok _ Hr) as (run & Hrun & _).
    destruct (running sv) eqn:Hrunning.
    + left. exists (MkTarget (sv_name sv) r (sp_stop_timeout (sv_spec sv))). split; [|done]. apply list_elem_of_omap. exists sv.
      split; [done|]. unfold target. by rewrite Hrunning, Hr.
    + right. unfold running in Hrunning. destruct (sv_state sv) eqn:Hst; try done; [|right; eauto|].
      * left. exists run. split; [done|]. pose proof (so_restarting _ _ _ Hok Hst _ _ Hr Hrun) as Hrec.
        unfold recorded in Hrec. unfold alive. by destruct (rn_stage run).
      * left. destruct (so_stopped _ _ _ Hok Hst) as [_ Hset]. auto.
  - intros t Ht. destruct (Htg _ Ht) as (sv0 & Hsv0 & Hn0 & Hr0).
    destruct (so_run _ _ _ (i_svcs _ _ HI _ Hsv0) _ Hr0) as (run & Hrun & _). eauto.
  - intros t Ht. by apply elem_of_nil in Ht.
  - intros n Hn. by apply elem_of_nil in Hn.
Qed.

(** A thread goes on, in a state with the same services. *)
Lemma stop_ok_loop s start pending resp :
  stop_ok (shutting_down (reg s)) (runs s) (services (reg s)) (SLoop start pending resp) ->
  let resp' := MkResponse (rp_stopped resp ++ (tg_name <$> filter (fun t => has_exited s t = true) pending)) (rp_killed resp) in
  let pending' := filter (fun t => has_exited s t = false) pending in
  stop_ok (shutting_down (reg s)) (runs s) (services (reg s)) (SExpire start pending' resp').
Proof.
  intros [K1 K2 K3 KL K4 K5] resp' pending'. cbn in *. split; cbn; try done.
  - by intros _; apply K1.
  - intros t Ht. apply K2. rewrite app_nil_r in *. by apply list_elem_of_filter in Ht as [].
  - intros _ sv r Hsv Hr. destruct (K3 ltac:(done) sv r Hsv Hr) as [(t & Ht & <-)|?]; [|by right].
    destruct (has_exited s t) eqn:He; [right; left; by apply exited_settled|left]. exists t. split; [|done]. by apply list_elem_of_filter.
  - intros t [_ Ht]%list_elem_of_filter. auto.
  - intros name Hname sv r Hsv Hn Hr. rewrite <- app_assoc in Hname. apply elem_of_app in Hname as [Hname|Hname]; [eapply K5; eauto; apply elem_of_app; by left|].
    apply elem_of_app in Hname as [Hname|Hname]; [|eapply K5; eauto; apply elem_of_app; by right].
    apply list_elem_of_fmap in Hname as (t & -> & [He Ht]%list_elem_of_filter).
    rewrite (K2 t) in Hr; [|rewrite app_nil_r; done|done|done]. injection Hr as <-. by apply exited_settled.
Qed.

Lemma stop_ok_over s sd rs start pending resp :
  pending = [] -> stop_ok sd rs s (SExpire start pending resp) -> stop_ok sd rs s (stopping_over resp).
Proof.
  intros -> [K1 K2 K3 KL K4 K5]. cbn in *. split; cbn; try done.
  - by intros _; apply K1.
  - by intros _; apply K3.
  - intros name Hname. apply K5. rewrite !merge_sort_Permutation in Hname. done.
Qed.

Lemma stop_ok_kill s start pending resp :
  Inv s -> stop_ok (shutting_down (reg s)) (runs s) (services (reg s)) (SExpire start pending resp) ->
  let ex := filter (fun t => tg_timeout t <= now s - start) pending in
  stop_ok (shutting_down (reg s)) (runs (signal_all kill ex s)) (services (reg s))
    (SKilled start ex KILL_TRIES (filter (fun t => ~ tg_timeout t <= now s - start) pending) resp).
Proof.
  intros HI Hok ex. pose proof (sk_lt _ _ _ _ Hok) as Hlt. eapply stop_ok_runs in Hok; [|apply runs_eq_le, (signal_all_runs kill ex s), kill_le].
  destruct Hok as [K1 K2 K3 KL K4 K5]. cbn in *. rewrite app_nil_r in K2.
  assert (Hset : forall t, t ∈ ex -> settled (runs (signal_all kill ex s)) (tg_run t)).
  { intros t Ht. apply kill_settles; [done|]. apply lookup_lt_is_Some_1, Hlt. by apply list_elem_of_filter in Ht as []. }
  split; cbn; try done.
  - by intros _; apply K1.
  - intros t [Ht|Ht]%elem_of_app; apply K2; by apply list_elem_of_filter in Ht as [].
  - intros _ sv r Hsv Hr. destruct (K3 ltac:(done) sv r Hsv Hr) as [(t & Ht & <-)|?]; [|by right].
    destruct (decide (tg_timeout t <= now s - start)).
    + right. left. apply Hset. by apply list_elem_of_filter.
    + left. exists t. split; [|done]. by apply list_elem_of_filter.
  - intros t [_ Ht]%list_elem_of_filter. auto.
Qed.

Ltac stop_keep H1 H3 := split; cbn in *; try done; try (by intros _; apply H1); try (by intros _; apply H3).

Lemma Inv_stop s i pc : Inv s -> threads s !! i = Some (TStop pc) -> Inv (stop_step s i pc).
Proof.
  intros HI Hi. pose proof (i_threads _ _ HI (TStop pc) ltac:(by eapply list_elem_of_lookup_2)) as Hok. cbn in Hok.
  assert (Hno : forall name due, threads s !! i = Some (TRestart name due) -> False) by (intros; congruence).
  destruct pc as [|[|t l]|start pending resp|start pending resp|start [|t ex] tries pending resp|start until pending resp|[|name names] resp|resp];
    cbn [stop_step].
  - apply Inv_set_thread; [by apply Inv_begin_stop| |done]. exact (targets_ok s HI).
  - apply Inv_set_thread; [done| |done]. destruct Hok as [K1 K2 K3 KL K4 K5]. stop_keep K1 K3.
  - destruct (signal_all_keeps term (t :: l) s) as (E1 & E2 & E3). apply Inv_set_thread; [by apply Inv_signal; [apply term_le|]| |by rewrite E2].
    rewrite E1. eapply stop_ok_runs; [|apply runs_eq_le, signal_all_runs, term_le].
    destruct Hok as [K1 K2 K3 KL K4 K5]. stop_keep K1 K3.
  - apply Inv_set_thread; [done| |done]. pose proof (stop_ok_loop s start pending resp Hok) as Hok'. cbn in Hok'.
    destruct (filter (fun t => has_exited s t = false) pending) eqn:Hp; [exact (stop_ok_over _ _ _ _ _ _ eq_refl Hok')|done].
  - destruct (signal_all_keeps kill (filter (fun t => tg_timeout t <= now s - start) pending) s) as (E1 & E2 & E3).
    apply Inv_set_thread; [by apply Inv_signal; [apply kill_le|]| |by rewrite E2]. cbn. rewrite E1. by apply stop_ok_kill.
  - apply Inv_set_thread; [done| |done]. destruct Hok as [K1 K2 K3 KL K4 K5]. cbn in *.
    destruct pending; [apply (stop_ok_over _ _ _ start []); [done|]|]; stop_keep K1 K3.
  - assert (Hnext : stop_ok (shutting_down (reg s)) (runs s) (services (reg s))
      (SKilled start ex KILL_TRIES pending (MkResponse (rp_stopped resp) (rp_killed resp ++ [tg_name t])))).
    { destruct Hok as [K1 K2 K3 KL K4 K5]. cbn in *. split; cbn; try done.
      - by intros _; apply K1.
      - intros t' Ht'. apply K2. apply elem_of_app in Ht' as [?|?]; apply elem_of_app; [by left|right]. apply elem_of_cons. by right.
      - by intros _; apply K3.
      - intros t' Ht'. apply K4. apply elem_of_cons. by right.
      - intros n Hn sv r Hsv Hname Hr. rewrite app_assoc in Hn. apply elem_of_app in Hn as [Hn| ->%list_elem_of_singleton]; [by eapply K5|].
        rewrite (K2 t) in Hr; [|apply elem_of_app; right; apply elem_of_cons; by left|done|done]. injection Hr as <-.
        apply K4. apply elem_of_cons. by left. }
    case_match; apply Inv_set_thread; try done.
    destruct Hok as [K1 K2 K3 KL K4 K5]. stop_keep K1 K3.
  - case_match; [|done]. apply Inv_set_thread; [done| |done]. destruct Hok as [K1 K2 K3 KL K4 K5].
    stop_keep K1 K3.
  - apply Inv_set_thread; [done| |done]. destruct Hok as [K1 K2 K3 KL K4 K5].
    stop_keep K1 K3.
  - pose proof Hok as [K1 K2 K3 KL K4 K5]. cbn in *.
    assert (Hset : forall sv r, sv ∈ services (reg s) -> sv_name sv = name -> sv_run sv = Some r -> settled (runs s) r).
    { intros sv r Hsv Hn Hr. eapply K5; [apply elem_of_cons; by left|done..]. }
    assert (HI' : Inv (set_state s name Stopped)).
    { apply Inv_set_state; [done..| |done]. intros sv Hsv Hn. unfold state_set. case_match; [by apply HI|].
      pose proof (i_svcs _ _ HI _ Hsv) as [H1 H2 H3 H4 H5 H6 H7 H8]. split; cbn; try done.
      split; [by apply K1|]. intros r Hr. by eapply Hset. }
    apply Inv_set_thread; [done| |done].
    pose proof (i_threads _ _ HI' (TStop (SStopped (name :: names) resp)) ltac:(by eapply list_elem_of_lookup_2)) as [L1 L2 L3 LL L4 L5].
    stop_keep L1 L3.
    intros n Hn. apply L5. apply elem_of_cons. by right.
  - done.
Qed.

(** *** Threads *)

Lemma passed_le a : run_le a (set_passed a) /\ recorded (set_passed a) = recorded a.
Proof. by split. Qed.

Lemma Inv_watch s i spec r pc ok : Inv s -> threads s !! i = Some (TWatch spec r pc) -> Inv (watch_step s i spec r pc ok).
Proof.
  intros HI Hi. pose proof (i_threads _ _ HI (TWatch spec r pc) ltac:(by eapply list_elem_of_lookup_2)) as Hok. cbn in Hok.
  assert (Hno : forall name due, threads s !! i = Some (TRestart name due) -> False) by (intros; congruence).
  assert (Hat : forall pc', (forall st, pc' <> WSet st) -> Inv (set_thread s i (TWatch spec r pc'))).
  { intros pc' Hpc. apply Inv_set_thread; [done| |done]. destruct Hok as (W1 & W2 & _). split_and!; [done..|]. intros st ->. by destruct (Hpc st). }
  assert (Hgone : Inv (set_thread s i TGone)) by by apply Inv_set_thread.
  assert (Hpass : Inv (set_thread (passed s r) i (TWatch spec r (WSet Ready)))).
  { apply Inv_set_thread; [apply Inv_runs; [done|]; apply runs_eq_alter, passed_le| |done].
    destruct Hok as (W1 & W2 & _). split_and!; [done..|]. intros st [= <-]. left. split; [done|]. intros Hn.
    destruct W1 as (sv & Hsv & Hsp). destruct (so_run _ _ _ (i_svcs _ _ HI _ Hsv) r (W2 Hn _ Hsv Hsp)) as (run & Hrun & _).
    exists (set_passed run). cbn. by rewrite list_lookup_alter_eq, Hrun. }
  destruct pc as [|deadline|until|deadline|deadline pass|deadline until|st]; cbn [watch_step].
  - by apply Hat.
  - destruct (run_exit s r); [done|]. destruct (sp_ready spec); by apply Hat.
  - destruct (run_exit s r); [done|]. by case_match.
  - by apply Hat.
  - destruct (run_exit s r); [done|]. destruct pass; [done|]. case_match; [|by apply Hat].
    apply Inv_set_thread; [done| |done]. destruct Hok as (W1 & W2 & _). split_and!; [done..|]. intros st [= <-].
    destruct (sp_restart spec); [right; eauto|by left].
  - case_match; [by apply Hat|done].
  - assert (HI' : Inv (set_state s (sp_name spec) st)).
    { assert (Hst : (exists x, st = Failed x) \/ st = Ready) by (destruct Hok as (_ & _ & W3); destruct (W3 st eq_refl) as [[-> _]|[_ ?]]; auto).
      apply Inv_set_state; [done|by destruct Hst as [[x ->]| ->]..| |by destruct Hst as [[x ->]| ->]].
      intros sv Hsv Hn. eapply svc_ok_watched; [done|apply HI|done|done|by apply HI]. }
    by apply Inv_set_thread.
Qed.

Lemma closure_threads s r : (forall i t, threads s !! i = Some t -> threads (closure s r).1 !! i = Some t).
Proof.
  intros i t Hi. unfold closure, tell, record, record_exit. destruct (runs s !! r) as [run|] eqn:Hr; [|done].
  destruct (rn_stage run) eqn:Hs; cbn; rewrite ?Hr, ?Hs; try done. cbn. repeat case_match; cbn; try done. by apply lookup_app_l_Some.
Qed.
Lemma Inv_closure s r : Inv s -> Inv (closure s r).1.
Proof.
  intros HI. unfold closure. destruct (runs s !! r) as [run|] eqn:Hr; [|done].
  destruct (rn_stage run) eqn:Hs; cbn; try (unfold record; rewrite Hr, Hs; done); [by apply Inv_tell|by eapply Inv_record].
Qed.

Lemma Inv_wait s i pc ok : Inv s -> threads s !! i = Some (TWait pc) -> Inv (wait_step s i pc ok).
Proof.
  intros HI Hi. assert (Hno : forall name due, threads s !! i = Some (TRestart name due) -> False) by (intros; congruence).
  destruct pc as [| |[|r rs]| |a]; cbn [wait_step].
  - by apply Inv_set_thread.
  - destruct ok; [|by apply Inv_set_thread]. destruct (reap_ok (seq 0 (length (runs s))) s) as (R1 & R2 & R3 & R4).
    destruct (reap _ s) as [s1 rs]. cbn in *. apply Inv_set_thread; [auto|done|]. by rewrite R3.
  - by apply Inv_set_thread.
  - pose proof (Inv_closure s r HI) as HI'. pose proof (closure_threads s r _ _ Hi) as Hi'. destruct (closure s r) as [s1 more]. cbn in *.
    apply Inv_set_thread; [done|done|]. congruence.
  - case_match; [by apply Inv_set_thread|done].
  - done.
Qed.

Section reachable.
Context (from_str : bytes -> option Value) (run_as_of : Value -> option RunAs) (dir : list (bytes * option bytes)).
Context (Hdir : NoDup (fst <$> dir)).

Lemma ends_with_take w l : ends_with w l = true -> l = ztake (zlen l - zlen w) l ++ w.
Proof.
  unfold ends_with. intros [_ H]%andb_true_iff. apply bool_decide_eq_true in H. rewrite <- H at 2. unfold ztake, zdrop. by rewrite take_drop.
Qed.
Lemma json_stem_inj a b x : json_stem a = Some x -> json_stem b = Some x -> a = b.
Proof.
  unfold json_stem. destruct (ends_with _ a) eqn:Ha; [|done]. destruct (ends_with _ b) eqn:Hb; [|done]. cbn.
  repeat case_match; try done. intros [= Ha'] [= Hb']. apply ends_with_take in Ha, Hb. change (zlen (str ".json")) with 5 in *.
  rewrite Ha, Hb. congruence.
Qed.
Lemma load_one_name f spec : load_one from_str run_as_of f = Some spec -> json_stem f.1 = Some (sp_name spec).
Proof.
  unfold load_one. destruct (json_stem f.1) as [name|]; [|done]. cbn. destruct (valid_name name); [|done].
  destruct (f.2) as [text|]; [|done]. cbn. unfold parse_spec. intros H. simplify_option_eq. done.
Qed.
Lemma load_specs_names : NoDup (sp_name <$> load_specs from_str run_as_of dir).
Proof.
  unfold load_specs. rewrite merge_sort_Permutation. clear -Hdir. induction dir as [|f l IH]; [constructor|]. cbn in *.
  apply NoDup_cons in Hdir as [Hf Hl]. destruct (load_one from_str run_as_of f) as [spec|] eqn:Hs; [|auto]. cbn.
  apply NoDup_cons. split; [|auto]. intros (spec' & Hn & (f' & Hf' & Hs')%list_elem_of_omap)%list_elem_of_fmap.
  apply load_one_name in Hs, Hs'. rewrite Hn in Hs. apply Hf. apply list_elem_of_fmap. exists f'. split; [|done]. by eapply json_stem_inj.
Qed.
Lemma with_env_names env (l : list Spec) : sp_name <$> (with_env env <$> l) = sp_name <$> l.
Proof. rewrite <- list_fmap_compose. by apply list_fmap_ext. Qed.

Notation step := (step from_str run_as_of dir).
Notation reachable := (reachable from_str run_as_of dir).

Lemma start_locked_threads s specs oks i t : threads s !! i = Some t -> threads (start_locked s specs oks).1 !! i = Some t.
Proof.
  intros Hi.
  assert (Heach : forall specs s oks, threads s !! i = Some t -> threads (start_each s specs oks) !! i = Some t).
  { intros specs0. induction specs0 as [|sp l IH]; intros s0 oks0 H0; [done|]. cbn. apply IH. unfold start_one.
    destruct (default false (head oks0)); cbn; [by apply lookup_app_l_Some|]. destruct (sp_restart sp); cbn; [done|by apply lookup_app_l_Some]. }
  unfold start_locked. repeat case_match; try done. cbn. by apply Heach.
Qed.

Lemma Inv_go s i oks : Inv s -> Inv (go from_str run_as_of dir s i oks).
Proof.
  intros HI. unfold go. destruct (threads s !! i) as [t|] eqn:Hi; [|done].
  assert (Hno : (forall name due, t <> TRestart name due) -> forall name due, threads s !! i = Some (TRestart name due) -> False)
    by (intros Ht name due; rewrite Hi; intros [= ->]; by eapply Ht).
  destruct t as [[|r rs]|name due|spec r pc|pc|pc|env pc|].
  - by apply Inv_set_thread; [| |apply Hno].
  - pose proof (Inv_closure s r HI) as HI'. pose proof (closure_threads s r _ _ Hi) as Hi'. destruct (closure s r) as [s1 more]. cbn in *.
    apply Inv_set_thread; [done|done|]. congruence.
  - case_match; [|done]. apply Inv_respawn. by eapply Inv_fire.
  - by apply Inv_watch.
  - by apply Inv_wait.
  - by apply Inv_stop.
  - destruct pc as [until| |specs|]; cbn.
    + case_match; [|done]. by apply Inv_set_thread; [| |apply Hno].
    + apply Inv_set_thread; [done| |by apply Hno]. cbn. rewrite with_env_names. apply load_specs_names.
    + pose proof (i_threads _ _ HI _ (list_elem_of_lookup_2 _ _ _ Hi)) as Hnd. cbn in Hnd.
      pose proof (Inv_start_locked s specs oks HI Hnd) as HI'. pose proof (start_locked_threads s specs oks _ _ Hi) as Hi'.
      destruct (start_locked s specs oks) as [s1 st]. cbn in *. apply Inv_set_thread; [done|done|]. congruence.
    + done.
  - done.
Qed.

Lemma Inv_step e s : Inv s -> Inv (step e s).
Proof.
  intros HI. destruct e as [dt|r st|order| |env| | |i oks]; cbn.
  - destruct HI as [H1 H2 H3 H4 H5 H6]. split; try done. cbn. intros Hsd sv Hsv Hst Hne.
    destruct (H5 Hsd sv Hsv Hst Hne) as (due & Hin & Hle). exists due. split; [done|lia].
  - by apply Inv_die.
  - destruct (reap_ok order s) as (R1 & _). destruct (reap order s) as [s1 rs]. cbn in *. apply Inv_add_threads; [auto|by repeat constructor].
  - apply Inv_add_threads; [done|]. repeat constructor. cbn. by destruct (declares_services dir).
  - by apply Inv_add_threads; [|repeat constructor].
  - by apply Inv_add_threads; [|repeat constructor].
  - apply Inv_add_threads; [done|]. repeat constructor; cbn; intros; try done; set_solver.
  - by apply Inv_go.
Qed.

Lemma Inv_reachable s : reachable s -> Inv s.
Proof.
  induction 1 as [|s e _ IH]; [|by apply Inv_step]. split; cbn; try done; try constructor; intros; set_solver.
Qed.
End reachable.
