(* ===== verification/ServicesResults.v ===== *)
(** * Services of the guest: results

    What the invariant of [ServicesProofs] gives for the runs of a service, for
    restarts, for commands and for the shutdown; and two ways in which the
    services do not behave as they are documented to. *)

From Stdlib Require Import Strings.Byte Strings.String.
From stdpp Require Import gmap sorting.
From S2P Require Import Prelude Text Cas Services ServicesProofs.

Section results.
Context (from_str : bytes -> option Value) (run_as_of : Value -> option RunAs) (dir : list (bytes * option bytes)).

Definition run_events (l : list Event) : Sys := fold_left (fun s e => step from_str run_as_of dir e s) l Sys_new.
Lemma run_events_reachable l : reachable from_str run_as_of dir (run_events l).
Proof.
  unfold run_events. assert (H : reachable from_str run_as_of dir Sys_new) by constructor. revert H. generalize Sys_new.
  induction l as [|e l IH]; intros s Hs; [done|]. cbn. apply IH. by constructor.
Qed.

(** C23: No service ever has two processes at a time, however exits, restarts, env
    requests, commands and shutdowns interleave. *)
Theorem one_run_per_service s r r' a b :
  NoDup (fst <$> dir) -> reachable from_str run_as_of dir s ->
  runs s !! r = Some a -> runs s !! r' = Some b -> alive a = true -> alive b = true -> rn_name a = rn_name b -> r = r'.
Proof.
  intros Hdir Hs Hr Hr' Ha Hb Hn. apply Inv_reachable in Hs as HI; [|done].
  assert (Hrec : forall x, alive x = true -> recorded x = false) by (intros x; unfold alive, recorded; by destruct (rn_stage x)).
  destruct (i_runs _ _ HI _ _ Hr (Hrec _ Ha)) as (sv & Hsv & Hsr). destruct (i_runs _ _ HI _ _ Hr' (Hrec _ Hb)) as (sv' & Hsv' & Hsr').
  destruct (so_run _ _ _ (i_svcs _ _ HI _ Hsv) _ Hsr) as (x & Hx & Hxn). destruct (so_run _ _ _ (i_svcs _ _ HI _ Hsv') _ Hsr') as (y & Hy & Hyn).
  assert (sv = sv') as -> by (eapply name_inj; [apply HI|done..|congruence]). congruence.
Qed.

(** Until the guest shuts down, a service that asks to be restarted has a run
    whose end is not recorded yet, or a restart due within a minute: it is never
    given up, and none of its ends is lost. *)
Theorem restarts_are_not_lost s sv :
  NoDup (fst <$> dir) -> reachable from_str run_as_of dir s -> shutting_down (reg s) = false ->
  sv ∈ services (reg s) -> sp_restart (sv_spec sv) = RestartAlways ->
  (running sv = true /\ exists r run, sv_run sv = Some r /\ runs s !! r = Some run /\ recorded run = false) \/
  (sv_state sv = Restarting /\ exists due, TRestart (sv_name sv) due ∈ threads s /\ due <= now s + RESTART_MAX).
Proof.
  intros Hdir Hs Hsd Hsv Ha. apply Inv_reachable in Hs as HI; [|done]. pose proof (i_svcs _ _ HI _ Hsv) as Hok.
  destruct (sv_state sv) eqn:Hst.
  1,2: left; assert (Hrun : running sv = true) by (unfold running; by rewrite Hst); split; [done|]; by apply (so_running _ _ _ Hok).
  - right. split; [done|]. apply (i_timers _ _ HI Hsd sv Hsv Hst). auto.
  - by destruct (so_always _ _ _ Hok Ha reason).
  - destruct (so_stopped _ _ _ Hok Hst) as [? _]. congruence.
Qed.

(** C22: A command runs only once every service that does not restart is ready,
    the run of it having itself passed its ready check, or settled; and each
    that does was ready once, or is, or its ready timeout since boot has passed. *)
Theorem commands_wait_for_services s :
  NoDup (fst <$> dir) -> reachable from_str run_as_of dir s -> decide_ready s = Some Runs ->
  begun (reg s) = true /\ forall sv, sv ∈ services (reg s) ->
    match sp_restart (sv_spec sv) with
    | RestartNo => sv_state sv = Ready /\ exists r run, sv_run sv = Some r /\ runs s !! r = Some run /\ rn_passed run = true
    | RestartAlways => sv_ever_ready sv = true \/ sv_state sv = Ready \/ sv_gate_until sv <= now s
    end.
Proof.
  intros Hdir Hs Hd. apply Inv_reachable in Hs as HI; [|done]. unfold decide_ready in Hd.
  destruct (shutting_down (reg s)) eqn:Hsd; [done|]. destruct (begun (reg s)) eqn:Hb; [|done]. cbn in Hd.
  destruct (existsb _ _) eqn:He; [done|]. destruct (head (omap failed (services (reg s)))) as [[]|] eqn:Hh; [done|].
  split; [done|]. intros sv Hsv. pose proof (i_svcs _ _ HI _ Hsv) as Hok.
  assert (Hhold : holds sv (now s) = false).
  { destruct (holds sv (now s)) eqn:Hh'; [|done]. rewrite <- He. symmetry. apply existsb_exists. exists sv. split; [by apply list_elem_of_In|done]. }
  assert (Hfail : failed sv = None).
  { destruct (failed sv) as [x|] eqn:Hx; [|done]. assert (x ∈ omap failed (services (reg s))) by (apply list_elem_of_omap; eauto).
    destruct (omap failed (services (reg s))); [by apply elem_of_nil in H|done]. }
  unfold holds in Hhold. unfold failed in Hfail. destruct (sp_restart (sv_spec sv)) eqn:Hre.
  - apply bool_decide_eq_false in Hhold. destruct (sv_state sv) eqn:Hst; try done.
    + split; [done|]. by apply (so_ready _ _ _ Hok).
    + by destruct (so_no _ _ _ Hok).
    + destruct (so_stopped _ _ _ Hok Hst). congruence.
  - destruct (sv_ever_ready sv); [by left|right]. cbn in Hhold. destruct (now s <? sv_gate_until sv) eqn:Hlt; [|right; lia]. left.
    destruct (sv_state sv) eqn:Hst; try done; [by destruct (so_always _ _ _ Hok Hre reason)|].
    destruct (so_stopped _ _ _ Hok Hst). congruence.
Qed.

(** C24: When a shutdown is over, a process of a service that still runs was sent
    SIGKILL, or is of a service that has failed. *)
Theorem shutdown_stops_services s resp r run :
  NoDup (fst <$> dir) -> reachable from_str run_as_of dir s -> TStop (SDone resp) ∈ threads s ->
  runs s !! r = Some run -> alive run = true ->
  rn_killed run = true \/ exists sv reason, sv ∈ services (reg s) /\ sv_run sv = Some r /\ sv_state sv = Failed reason.
Proof.
  intros Hdir Hs Ht Hr Ha. apply Inv_reachable in Hs as HI; [|done]. pose proof (i_threads _ _ HI _ Ht) as [_ _ K3 _ _ _].
  destruct (i_runs _ _ HI _ _ Hr) as (sv & Hsv & Hsr); [unfold recorded; unfold alive in Ha; by destruct (rn_stage run)|].
  destruct (K3 ltac:(done) sv r Hsv Hsr) as [(t & Ht' & _)|[(x & Hx & Hk)|[reason Hf]]].
  - by apply elem_of_nil in Ht'.
  - left. rewrite Hr in Hx. injection Hx as <-. auto.
  - right. eauto.
Qed.
End results.

(** ** Concrete services *)

(** One service with a ready check that times out at once. *)
Definition one_file : list (bytes * option bytes) := [(str "web.json", Some [])].
Definition one_value (restart : string) (_ : bytes) : option Value :=
  Some (VObj [(str "exec", VArr [VStr (str "web")]); (str "ready", VArr [VStr (str "check")]);
              (str "ready_timeout_secs", VNum (Some 0)); (str "restart", VStr (str restart))]).
Definition no_owner (_ : Value) : option RunAs := Some (MkRunAs None None).

Definition begin : list Event := [Env ∅; Go 0 []; Go 0 [true]; Go 1 []; Go 1 []].
Definition run_one (restart : string) (l : list Event) : Sys := run_events (one_value restart) no_owner one_file l.

Lemma one_file_nodup : NoDup (fst <$> one_file).
Proof. apply NoDup_singleton. Qed.

(** It exits while it starts, and is started again. *)
Definition restarted : list Event := begin ++ [Die 0 256; ReapAll [0%nat]; Go 2 []; Go 2 []; Tick 1000; Go 3 [true]].
(** Its check passes. *)
Definition checked : list Event := begin ++ [Go 1 [true]; Go 1 []; Go 1 []].
(** Its check times out, and the guest shuts down. *)
Definition shut : list Event := begin ++ [Go 1 [false]; Go 1 []; Go 1 []; Shut; Go 2 []; Go 2 []].

Lemma one_run_per_service_witness :
  let s := run_one "always" restarted in
  length (runs s) = 2%nat /\ alive <$> runs s !! 1%nat = Some true /\
  (forall a, runs s !! 1%nat = Some a -> alive a = true -> 1%nat = 1%nat).
Proof.
  intros s. split; [by vm_compute|]. split; [by vm_compute|]. intros a Ha Hal.
  exact (one_run_per_service (one_value "always") no_owner one_file s 1 1 a a one_file_nodup
    (run_events_reachable _ _ _ _) Ha Ha Hal Hal eq_refl).
Defined.

Lemma restarts_are_not_lost_witness :
  let s := run_one "always" (take 9 restarted) in
  exists sv, services (reg s) = [sv] /\
  ((running sv = true /\ exists r run, sv_run sv = Some r /\ runs s !! r = Some run /\ recorded run = false) \/
   (sv_state sv = Restarting /\ exists due, TRestart (sv_name sv) due ∈ threads s /\ due <= now s + RESTART_MAX)).
Proof.
  intros s. destruct (services (reg s)) as [|sv [|]] eqn:Hs; [by vm_compute in Hs| |by vm_compute in Hs]. exists sv. split; [done|].
  apply (restarts_are_not_lost (one_value "always") no_owner one_file s sv).
  - exact one_file_nodup.
  - apply run_events_reachable.
  - by vm_compute.
  - rewrite Hs. apply elem_of_cons. by left.
  - vm_compute in Hs. by injection Hs as <-.
Defined.

Lemma commands_wait_for_services_witness :
  let s := run_one "no" checked in
  begun (reg s) = true /\ forall sv, sv ∈ services (reg s) ->
    match sp_restart (sv_spec sv) with
    | RestartNo => sv_state sv = Ready /\ exists r run, sv_run sv = Some r /\ runs s !! r = Some run /\ rn_passed run = true
    | RestartAlways => sv_ever_ready sv = true \/ sv_state sv = Ready \/ sv_gate_until sv <= now s
    end.
Proof.
  intros s. apply (commands_wait_for_services (one_value "no") no_owner one_file s).
  - exact one_file_nodup.
  - apply run_events_reachable.
  - by vm_compute.
Defined.

Lemma shutdown_stops_services_witness :
  let s := run_one "no" shut in
  exists run, runs s !! 0%nat = Some run /\
  (rn_killed run = true \/ exists sv reason, sv ∈ services (reg s) /\ sv_run sv = Some 0%nat /\ sv_state sv = Failed reason).
Proof.
  intros s. destruct (runs s !! 0%nat) as [run|] eqn:Hr; [|by vm_compute in Hr]. exists run. split; [done|].
  apply (shutdown_stops_services (one_value "no") no_owner one_file s (MkResponse [] []) 0 run).
  - exact one_file_nodup.
  - apply run_events_reachable.
  - apply list_elem_of_lookup_2 with 2%nat. by vm_compute.
  - done.
  - vm_compute in Hr. by injection Hr as <-.
Defined.


(** A ready check that does not come back holds commands for any time past the
    ready timeout, which is nought here. *)
Theorem hung_check_holds_commands T :
  exists s, reachable (one_value "no") no_owner one_file s /\ T <= now s /\ decide_ready s = None /\
    forall sv, sv ∈ services (reg s) -> sv_gate_until sv = 0.
Proof.
  exists (run_one "no" (begin ++ [Tick T])). split; [apply run_events_reachable|].
  assert (Hs : exists s0, run_one "no" (begin ++ [Tick T]) = MkSys (0 + Z.max 0 T) (reg s0) (runs s0) (threads s0) /\
    s0 = run_one "no" begin) by (eexists; split; [|reflexivity]; vm_compute; reflexivity).
  destruct Hs as (s0 & -> & Hs0). cbn [now]. split; [lia|]. split.
  - unfold decide_ready. cbn [reg now]. subst s0. vm_compute. reflexivity.
  - cbn [reg]. subst s0. intros sv Hsv. vm_compute in Hsv. apply list_elem_of_singleton in Hsv as ->. reflexivity.
Qed.

(** ** A shutdown ends *)

Section ends.
Context (from_str : bytes -> option Value) (run_as_of : Value -> option RunAs) (dir : list (bytes * option bytes)).
Context (i : nat).

(** The thread of the shutdown goes on, [n] times. *)
Definition go_on (n : nat) (s : Sys) : Sys := Nat.iter n (fun s => go from_str run_as_of dir s i []) s.
Definition ends_within (n : nat) (s : Sys) : Prop :=
  exists m resp, (m <= n)%nat /\ threads (go_on m s) !! i = Some (TStop (SDone resp)).

Lemma ends_step n s pc : threads s !! i = Some (TStop pc) -> ends_within n (stop_step s i pc) -> ends_within (S n) s.
Proof.
  intros Hi (m & resp & Hm & He). exists (S m), resp. split; [lia|]. unfold go_on. rewrite Nat.iter_succ_r.
  unfold go at 2. rewrite Hi. exact He.
Qed.
Lemma ends_more n n' s : (n <= n')%nat -> ends_within n s -> ends_within n' s.
Proof. intros Hle (m & resp & Hm & He). exists m, resp. split; [lia|done]. Qed.
Lemma set_thread_same s t t' : threads s !! i = Some t' -> threads (set_thread s i t) !! i = Some t.
Proof. intros Hi. cbn. apply list_lookup_insert_eq. by eapply lookup_lt_Some. Qed.

Lemma stopped_ends names resp s : threads s !! i = Some (TStop (SStopped names resp)) -> ends_within (S (length names)) s.
Proof.
  revert s. induction names as [|name names IH]; intros s Hi; (eapply ends_step; [done|]); cbn [stop_step].
  - exists 0%nat, resp. split; [lia|]. by eapply set_thread_same.
  - apply IH. by eapply (set_thread_same (set_state s name Stopped)).
Qed.

Lemma over_ends resp s n :
  threads s !! i = Some (TStop (stopping_over resp)) -> (length (rp_stopped resp) + length (rp_killed resp) <= n)%nat -> ends_within (S n) s.
Proof.
  intros Hi Hn. eapply ends_more; [|by eapply stopped_ends]. rewrite length_app. cbn.
  rewrite !(Permutation_length (merge_sort_Permutation _ _)). lia.
Qed.

(** Each process killed is waited for at most a hundred times. *)
Lemma killed_ends start ex tries resp s n :
  threads s !! i = Some (TStop (SKilled start ex tries [] resp)) -> (tries <= KILL_TRIES)%nat ->
  (length (rp_stopped resp) + length (rp_killed resp) + length ex <= n)%nat ->
  ends_within (match ex with [] => 0 | _ :: ex => S tries + S KILL_TRIES * length ex end + S (S n))%nat s.
Proof.
  revert tries resp s. induction ex as [|t ex IH]; intros tries resp s Hi Htr Hn.
  - eapply ends_step; [done|]. cbn [stop_step]. eapply over_ends; [by eapply set_thread_same|]. cbn in Hn. lia.
  - revert s Hi. induction tries as [|tries IHt]; intros s Hi;
      [apply (ends_step (S KILL_TRIES * length ex + S (S n)) _ _ Hi)|apply (ends_step (S tries + S KILL_TRIES * length ex + S (S n)) _ _ Hi)];
      cbn [stop_step Nat.eqb]; rewrite ?orb_true_r, ?orb_false_r; [|destruct (has_exited s t); [|eapply ends_more; [reflexivity|apply IHt; [lia|by eapply set_thread_same]]]].
    all: eapply ends_more; [|eapply IH; [by eapply set_thread_same|done|]]; [destruct ex; cbn [length]; lia|].
    all: cbn in *; rewrite length_app; cbn; lia.
Qed.

(** Once the stop timeouts of the services a shutdown waits for have passed, it
    ends within a bounded number of steps of its own, whatever the processes do. *)
Theorem shutdown_ends s start pending resp :
  threads s !! i = Some (TStop (SLoop start pending resp)) -> Forall (fun t => tg_timeout t <= now s - start) pending ->
  ends_within (length (rp_stopped resp) + length (rp_killed resp) + 103 * length pending + 5)%nat s.
Proof.
  intros Hi Hto. rewrite Nat.add_comm. eapply ends_step; [done|]. cbn [stop_step].
  set (resp' := MkResponse _ _). set (p' := filter (fun t => has_exited s t = false) pending).
  assert (Hlen : (length (tg_name <$> filter (fun t => has_exited s t = true) pending) + length p' <= length pending)%nat).
  { rewrite length_fmap. subst p'. clear. induction pending as [|t l IH]; [done|]. rewrite !filter_cons. repeat case_decide; cbn; try congruence; lia. }
  assert (Hr : length (rp_stopped resp') = (length (rp_stopped resp) + length (tg_name <$> filter (fun t => has_exited s t = true) pending))%nat)
    by (cbn; by rewrite length_app).
  assert (Hk : rp_killed resp' = rp_killed resp) by done. clearbody resp'.
  destruct p' as [|t p] eqn:Hp'.
  - eapply ends_more; [|eapply (over_ends resp'); [by eapply set_thread_same|reflexivity]]. rewrite Hk. lia.
  - set (s1 := set_thread s i _). assert (H1 : threads s1 !! i = Some (TStop (SExpire start (t :: p) resp'))) by by eapply set_thread_same.
    assert (Hex : Forall (fun t => tg_timeout t <= now s1 - start) (t :: p)).
    { rewrite <- Hp'. subst p'. apply Forall_forall. intros x [_ Hx]%list_elem_of_filter. cbn. by eapply Forall_forall in Hto. }
    clearbody s1. eapply ends_step; [done|]. cbn [stop_step].
    assert (Hall : filter (fun t => tg_timeout t <= now s1 - start) (t :: p) = t :: p /\ filter (fun t => ~ tg_timeout t <= now s1 - start) (t :: p) = []).
    { clear -Hex. induction Hex as [|x l Hx _ [IH1 IH2]]; [done|]. rewrite !filter_cons. rewrite !decide_True by done.
      rewrite decide_False by tauto. by rewrite IH1. }
    destruct Hall as [-> ->]. destruct (signal_all_keeps kill (t :: p) s1) as (_ & E2 & _).
    eapply ends_more; [|eapply killed_ends; [eapply set_thread_same; by rewrite E2|done|reflexivity]].
    cbn [length] in *. unfold KILL_TRIES. rewrite Hk. lia.
Qed.
End ends.

(** A service that is ready is told to stop, and ignores it. *)
Definition ignored : list Event := checked ++ [Shut; Go 2 []; Go 2 []; Tick 15000].
Lemma shutdown_ends_witness :
  exists pending, threads (run_one "no" ignored) !! 2%nat = Some (TStop (SLoop 0 pending (MkResponse [] []))) /\
    ends_within (one_value "no") no_owner one_file 2 (103 * length pending + 5)%nat (run_one "no" ignored).
Proof.
  destruct (threads (run_one "no" ignored) !! 2%nat) as [t|] eqn:Ht; [|by vm_compute in Ht].
  assert (exists pending, t = TStop (SLoop 0 pending (MkResponse [] [])) /\ pending = [MkTarget (str "web") 0 15000]) as (pending & -> & Hp).
  { vm_compute in Ht. injection Ht as <-. by eexists. }
  exists pending. split; [done|].
  apply (shutdown_ends (one_value "no") no_owner one_file 2 (run_one "no" ignored) 0 pending (MkResponse [] [])).
  - exact Ht.
  - subst pending. constructor; [|done]. vm_compute. done.
Defined.

(** ** Waits before restarts *)

(** The wait after each of a series of runs. *)
Definition delay_after (rans : list Z) : Z := fold_left next_delay rans 0.

(** Runs that are not healthy wait a second, then twice as long each time, up to
    a minute. *)
Lemma waits_double rans ran :
  Forall (fun ran => ran < RESTART_RESET) (rans ++ [ran]) ->
  delay_after (rans ++ [ran]) = Z.min (RESTART_FIRST * 2 ^ zlen rans) RESTART_MAX.
Proof.
  revert ran. induction rans as [|r rans IH] using rev_ind; intros ran Hf; unfold delay_after; rewrite fold_left_app; cbn.
  - unfold next_delay. rewrite orb_true_r. done.
  - apply Forall_app in Hf as [Hf Hran]. apply (proj1 (Forall_singleton _ _)) in Hran. specialize (IH r Hf). unfold delay_after in IH. rewrite IH.
    unfold zlen in *. rewrite length_app. cbn. rewrite Nat2Z.inj_add, Z.pow_add_r by lia. change (2 ^ Z.of_nat 1) with 2.
    assert (0 < 2 ^ Z.of_nat (length rans)) by (apply Z.pow_pos_nonneg; lia).
    unfold next_delay, RESTART_FIRST, RESTART_RESET, RESTART_MAX in *.
    rewrite (proj2 (Z.leb_gt _ _)), (proj2 (Z.eqb_neq _ _)) by lia. cbn [orb]. lia.
Qed.
(** After a healthy one it is a second again. *)
Lemma waits_reset rans ran : RESTART_RESET <= ran -> delay_after (rans ++ [ran]) = RESTART_FIRST.
Proof. intros H. unfold delay_after. rewrite fold_left_app. cbn. unfold next_delay. by rewrite (proj2 (Z.leb_le _ _) H). Qed.

(** The env of the file of a service is over that of the host. *)
Lemma file_env_over_host env spec k :
  sp_env (with_env env spec) !! k = match sp_env spec !! k with Some v => Some v | None => env !! k end.
Proof. cbn. rewrite lookup_union. destruct (sp_env spec !! k), (env !! k); done. Qed.

(** A log is not over the cap once it is looked at, and no byte of it is lost then. *)
Lemma logs_capped max l : 0 <= max -> zlen (default [] (lg_log (cap_log max l).1)) <= max /\
  ((cap_log max l).2 = true -> lg_older (cap_log max l).1 = lg_log l).
Proof. intros H. unfold cap_log. destruct (lg_log l) eqn:Hl; [case_test|]; cbn; rewrite ?Hl; cbn; auto; split; try done; lia. Qed.
