(* ===== verification/Seal.v ===== *)
(** * Saving the disk of a running guest

    [crates/shuru-guest/src/disk.rs] and [ext4.rs], the seal of the root file
    system, which freezes it for a lease; with [save_disk] of
    [crates/shuru-vm/src/sandbox.rs] and [publish] of [checkpoint.rs], which seal,
    copy, thaw and only then publish the copy.

    The requests of the host run as threads of the guest, a reply may get lost or
    come too late, and the guest writes to its disk whenever that is not frozen.
    The copy is read piece by piece. What the kernels answer comes with each
    step. *)

From Stdlib Require Import Strings.Byte.
From stdpp Require Import gmap.
From S2P Require Import Prelude Frame Cas.

(** ** The superblock *)

Record Superblock := MkSuperblock { sb_blocks : Z; sb_errors : Z; sb_needs_recovery : bool }.

Definition u16_at (sb : bytes) (n : Z) : Z := le_val (zslice n (n + 2) sb).
Definition u32_at (sb : bytes) (n : Z) : Z := le_val (zslice n (n + 4) sb).

Definition parse (sb : bytes) : option Superblock :=
  if negb (u16_at sb 56 =? 0xef53) then None else
  if negb (Z.land (u16_at sb 58) 2 =? 0) then None else
  let incompat := u32_at sb 96 in
  let high := if negb (Z.land incompat 0x80 =? 0) then u32_at sb 336 else 0 in
  Some (MkSuperblock (Z.lor (u32_at sb 4) (wrap 64 (Z.shiftl high 32))) (u32_at sb 404) (negb (Z.land incompat 4 =? 0))).

(** [superblock]: 1024 bytes at 1024 of the device. *)
Definition superblock (disk : bytes) : option Superblock :=
  if zlen disk <? 2048 then None else parse (zslice 1024 2048 disk).

(** ** State *)

Record SealRequest := MkSealRequest { sr_id : Z; sr_stop_services : bool; sr_lease_ms : Z }.
(** [SealResponse], or the error. *)
Inductive Reply := Sealed | Thawed | Expired | Error.

(** [le_image] is the disk that was found in order once frozen. *)
Record Lease := MkLease { le_id : Z; le_deadline : Z; le_expired : bool; le_image : bytes }.

(** A request in the guest: waiting for the lock, with it, with the root frozen. *)
Inductive SealPc := SealBegin | SealLocked | SealFrozen.
Inductive Handler := GSeal (req : SealRequest) (pc : SealPc) | GThaw (id : Z) | GDone (r : Reply).

Inductive AfterSave := AThaw | APowerOff.
#[export] Instance AfterSave_eq_dec : EqDecision AfterSave.
Proof. solve_decision. Defined.
(** A save on the host; [q] is the request it waits for, [c] what is copied. *)
Inductive SavePc :=
  | VBegin | VSealing (q : nat) | VReserve | VCopy (c : bytes) | VThawing (c : bytes) (q : nat) | VPublish (c : bytes)
  | VFail | VDone (ok : bool).
Record Save := MkSave { v_id : Z; v_after : AfterSave; v_pc : SavePc }.

(** The guest: its clock, [BUSY], [LEASE] and who holds its lock; its root, frozen
    or not, and the disk under it, and whether it was powered off. [images] are
    the disks that seals found in order, [published] what saves published. *)
Record World := MkWorld {
  now : Z;
  busy : bool;
  lease : option Lease;
  held : option nat;
  frozen : bool;
  off : bool;
  disk : bytes;
  handlers : list Handler;
  saves : list Save;
  images : list bytes;
  published : list bytes
}.

Definition set_guest (w : World) (b : bool) (l : option Lease) (h : option nat) (f : bool) : World :=
  MkWorld (now w) b l h f (off w) (disk w) (handlers w) (saves w) (images w) (published w).
Definition set_handler (w : World) (q : nat) (h : Handler) : World :=
  MkWorld (now w) (busy w) (lease w) (held w) (frozen w) (off w) (disk w) (<[ q := h ]> (handlers w)) (saves w) (images w) (published w).
Definition set_disk (w : World) (d : bytes) : World :=
  MkWorld (now w) (busy w) (lease w) (held w) (frozen w) (off w) d (handlers w) (saves w) (images w) (published w).
Definition add_image (w : World) : World :=
  MkWorld (now w) (busy w) (lease w) (held w) (frozen w) (off w) (disk w) (handlers w) (saves w) (disk w :: images w) (published w).
Definition power_off (w : World) : World :=
  MkWorld (now w) (busy w) (lease w) (held w) (frozen w) true (disk w) (handlers w) (saves w) (images w) (published w).
Definition set_save (w : World) (i : nat) (v : Save) : World :=
  MkWorld (now w) (busy w) (lease w) (held w) (frozen w) (off w) (disk w) (handlers w) (<[ i := v ]> (saves w)) (images w) (published w).
(** A request reaches the guest. *)
Definition send (w : World) (h : Handler) : World :=
  MkWorld (now w) (busy w) (lease w) (held w) (frozen w) (off w) (disk w) (handlers w ++ [h]) (saves w) (images w) (published w).
Definition publish_image (w : World) (c : bytes) : World :=
  MkWorld (now w) (busy w) (lease w) (held w) (frozen w) (off w) (disk w) (handlers w) (saves w) (images w) (c :: published w).

(** ** The guest *)

(** What the kernel answers: whether the calls of [writable] work, whether the root
    is mounted read-only, its count of errors; whether the sync, the trim, the second
    look at the superblock and the freeze work ([an_freeze]) and what is then on the
    disk; and whether a thaw works. *)
Record Ans := MkAns { an_calls : bool; an_rdonly : bool; an_errors : option Z; an_freeze : bool; an_thaw : bool; an_flushed : bytes }.

Section guest.
(** [BOOT_ERRORS] *)
Context (boot_errors : Z).

Definition writable (a : Ans) (d : bytes) : bool :=
  an_calls a && negb (an_rdonly a) && bool_decide (is_Some (superblock d)) && bool_decide (an_errors a = Some boot_errors).

Definition LEASE_MIN : Z := 1000.
Definition LEASE_MAX : Z := 300000.

(** The closure of [seal] failed: the root is not sealed. *)
Definition seal_failed (w : World) (q : nat) (f : bool) : World := set_handler (set_guest w false (lease w) None f) q (GDone Error).

Definition seal_step (w : World) (q : nat) (req : SealRequest) (pc : SealPc) (a : Ans) : World :=
  match pc with
  | SealBegin =>
      if negb ((LEASE_MIN <=? sr_lease_ms req) && (sr_lease_ms req <=? LEASE_MAX)) then set_handler w q (GDone Error) else
      if held w is Some _ then w else
      if busy w then set_handler w q (GDone Error) else
      set_handler (set_guest w true (lease w) (Some q) (frozen w)) q (GSeal req SealLocked)
  | SealLocked =>
      (* [FIFREEZE] flushes what is not on the disk yet *)
      if writable a (disk w) && an_freeze a && negb (frozen w) && (zlen (an_flushed a) =? zlen (disk w))
      then set_handler (set_guest (set_disk w (an_flushed a)) (busy w) (lease w) (held w) true) q (GSeal req SealFrozen)
      else seal_failed w q (frozen w)
  | SealFrozen =>
      match writable a (disk w), superblock (disk w) with
      | true, Some (MkSuperblock _ _ false) =>
          set_handler (set_guest (add_image w) (busy w)
            (Some (MkLease (sr_id req) (now w + sr_lease_ms req) false (disk w))) None (frozen w)) q (GDone Sealed)
      | _, _ => if an_thaw a then seal_failed w q false else power_off (seal_failed w q (frozen w))
      end
  end.

Definition thaw_step (w : World) (q : nat) (id : Z) (a : Ans) : World :=
  if held w is Some _ then w else
  match lease w with
  | None => set_handler w q (GDone Error)
  | Some l =>
      if negb (le_id l =? id) then set_handler w q (GDone Error) else
      let expired := le_expired l || (le_deadline l <=? now w) in
      let reply := GDone (if expired then Expired else Thawed) in
      if le_expired l then set_handler (set_guest w false None None (frozen w)) q reply else
      if an_thaw a then set_handler (set_guest w false None None false) q reply else set_handler w q (GDone Error)
  end.

Definition watchdog (w : World) (a : Ans) : World :=
  if held w is Some _ then w else
  match lease w with
  | Some l =>
      if negb (le_expired l) && (le_deadline l <=? now w) && an_thaw a
      then set_guest w false (Some (MkLease (le_id l) (le_deadline l) true (le_image l))) (held w) false else w
  | None => w
  end.

Definition handler_step (w : World) (q : nat) (a : Ans) : World :=
  if off w then w else
  match handlers w !! q with
  | Some (GSeal req pc) => seal_step w q req pc a
  | Some (GThaw id) => thaw_step w q id a
  | Some (GDone _) | None => w
  end.

(** ** The host *)

(** The reply to a request, if it came: none is an error of the connection. *)
Definition reply (w : World) (q : nat) : option Reply :=
  match handlers w !! q with Some (GDone r) => Some r | _ => None end.

(** [kill], for a save that powers off. *)
Definition kill_if (w : World) (v : Save) : World := if bool_decide (v_after v = APowerOff) then power_off w else w.
Definition v_at (v : Save) (pc : SavePc) : Save := MkSave (v_id v) (v_after v) pc.

(** [publish], which copies, calls [finish], renames and syncs. [ok] is whether what
    the step does works, and the reply comes in time; [n] is how much a copy reads. *)
Definition publish_step (w : World) (i : nat) (v : Save) (ok : bool) (n : nat) : World :=
  let at_ w pc := set_save w i (v_at v pc) in
  match v_pc v with
  | VReserve => at_ w (if ok then VCopy [] else VFail)
  | VCopy c =>
      if negb ok then at_ w VFail else
      if zlen c <? zlen (disk w) then at_ w (VCopy (c ++ take n (zdrop (zlen c) (disk w)))) else
      at_ (send w (GThaw (v_id v))) (VThawing c (length (handlers w)))
  | VThawing c q =>
      if negb ok then at_ w VFail else
      match reply w q with
      (* a VM that does not stop, for [n] other than 0 *)
      | Some Thawed => if bool_decide (v_after v = APowerOff) && negb (Nat.eqb n 0) then at_ w VFail else at_ (kill_if w v) (VPublish c)
      | Some _ => at_ w VFail
      | None => w
      end
  | VPublish c =>
      (* a sync that fails after the rename, for [n] other than 0 *)
      if ok then at_ (publish_image w c) (if Nat.eqb n 0 then VDone true else VFail) else at_ w VFail
  | _ => w
  end.

(** [save_disk] *)
Definition save_step (w : World) (i : nat) (v : Save) (ok : bool) (n : nat) : World :=
  let at_ w pc := set_save w i (v_at v pc) in
  match v_pc v with
  | VBegin =>
      if ok then at_ (send w (GSeal (MkSealRequest (v_id v) (bool_decide (v_after v = APowerOff)) 300000) SealBegin)) (VSealing (length (handlers w)))
      else at_ w (VDone false)
  | VSealing q =>
      if negb ok then at_ (kill_if w v) (VDone false) else
      match reply w q with
      | Some Sealed => at_ w VReserve
      | Some _ => at_ (kill_if w v) (VDone false)
      | None => w
      end
  | VReserve | VCopy _ | VThawing _ _ | VPublish _ => publish_step w i v ok n
  | VFail => at_ (kill_if (if ok then send w (GThaw (v_id v)) else w) v) (VDone false)
  | VDone _ => w
  end.

(** ** Steps *)

Inductive Event :=
  | Tick (dt : Z)
  | GuestWrites (d : bytes)
  | Watchdog (a : Ans)
  | NewSave (id : Z) (after : AfterSave)
  | GoHandler (q : nat) (a : Ans)
  | GoSave (i : nat) (ok : bool) (n : nat).

(** The random id of a save is one that none had before. *)
Definition step (e : Event) (w : World) : World :=
  match e with
  | Tick dt => MkWorld (now w + Z.max 0 dt) (busy w) (lease w) (held w) (frozen w) (off w) (disk w) (handlers w) (saves w) (images w) (published w)
  | GuestWrites d => if frozen w || off w || negb (zlen d =? zlen (disk w)) then w else set_disk w d
  | Watchdog a => if off w then w else watchdog w a
  | NewSave id after =>
      if existsb (fun v => v_id v =? id) (saves w) then w else
      MkWorld (now w) (busy w) (lease w) (held w) (frozen w) (off w) (disk w) (handlers w) (saves w ++ [MkSave id after VBegin]) (images w) (published w)
  | GoHandler q a => handler_step w q a
  | GoSave i ok n => if saves w !! i is Some v then save_step w i v ok n else w
  end.

Definition World_new (d : bytes) : World := MkWorld 0 false None None false false d [] [] [] [].

Inductive reachable (d : bytes) : World -> Prop :=
  | re_new : reachable d (World_new d)
  | re_step w e : reachable d w -> reachable d (step e w).
End guest.

(** [handle_connection] refuses a request while the root is sealed, but for those
    that seal and thaw. *)
Definition refuses (w : World) (msg_type : byte) : bool :=
  busy w && negb (bool_decide (msg_type = THAW_REQ \/ msg_type = SEAL_REQ)).
