(* ===== verification/SealProofs.v ===== *)
(** * Saving the disk of a running guest: proofs

    A copy that is published is a disk that a seal found in order, frozen from
    then until the whole of it was copied; and a frozen root never lacks a lease
    that ends. *)

From Stdlib Require Import Strings.Byte.
From stdpp Require Import gmap.
From S2P Require Import Prelude Frame Cas Seal.

Definition live (w : World) (id : Z) : Prop := exists l, lease w = Some l /\ le_id l = id /\ le_expired l = false.
(** A seal with that id is under way. *)
Definition sealing (hs : list Handler) (id : Z) (q : nat) : Prop :=
  exists req pc, hs !! q = Some (GSeal req pc) /\ sr_id req = id.
Definition no_seal (hs : list Handler) (id : Z) : Prop := forall q, ~ sealing hs id q.

(** In order: no journal to replay. *)
Definition in_order (d : bytes) : Prop := exists sb, superblock d = Some sb /\ sb_needs_recovery sb = false.

Definition save_ok (w : World) (v : Save) : Prop :=
  match v_pc v with
  | VBegin | VReserve => no_seal (handlers w) (v_id v)
  | VSealing q => forall q', sealing (handlers w) (v_id v) q' -> q' = q
  | VCopy c => no_seal (handlers w) (v_id v) /\ (live w (v_id v) -> c = take (length c) (disk w))
  | VThawing c q =>
      no_seal (handlers w) (v_id v) /\
      match handlers w !! q with
      | Some (GThaw id) => id = v_id v /\ (live w (v_id v) -> c = disk w)
      | Some (GDone Thawed) => c ∈ images w
      | Some (GDone _) => True
      | _ => False
      end
  | VPublish c => c ∈ images w
  | VFail | VDone _ => True
  end.

(** The lock is held by a seal that is past its beginning. *)
Definition locked_ok (w : World) : Prop :=
  forall q, held w = Some q <-> exists req pc, handlers w !! q = Some (GSeal req pc) /\ pc <> SealBegin.

Record Inv (w : World) : Prop := {
  i_locked : locked_ok w;
  i_held : is_Some (held w) -> busy w = true /\ forall l, lease w = Some l -> le_expired l = true;
  i_lease : forall l, lease w = Some l -> le_expired l = false ->
    frozen w = true /\ busy w = true /\ disk w = le_image l /\ le_image l ∈ images w;
  i_frozen : off w = false -> frozen w = true ->
    (exists l, lease w = Some l /\ le_expired l = false) \/ (exists q req, held w = Some q /\ handlers w !! q = Some (GSeal req SealFrozen));
  i_sealfrozen : forall q req, handlers w !! q = Some (GSeal req SealFrozen) -> frozen w = true;
  i_ids : (forall id q, sealing (handlers w) id q -> id ∈ v_id <$> saves w) /\ (forall l, lease w = Some l -> le_id l ∈ v_id <$> saves w);
  i_nodup : NoDup (v_id <$> saves w);
  i_saves : forall v, v ∈ saves w -> save_ok w v;
  i_images : forall d, d ∈ images w -> in_order d;
  i_published : forall c, c ∈ published w -> c ∈ images w
}.

(** ** What keeps the invariant *)

(** Steps of the guest. *)
Lemma save_ok_guest w w' v :
  (forall id q, sealing (handlers w') id q -> sealing (handlers w) id q) ->
  (forall id, no_seal (handlers w) id -> live w' id -> live w id /\ disk w' = disk w) ->
  (forall d, d ∈ images w -> d ∈ images w') ->
  (forall q id, handlers w !! q = Some (GThaw id) -> handlers w' !! q = Some (GThaw id) \/
    exists r, handlers w' !! q = Some (GDone r) /\ (r = Thawed -> live w id /\ disk w ∈ images w')) ->
  (forall q r, handlers w !! q = Some (GDone r) -> handlers w' !! q = Some (GDone r)) ->
  save_ok w v -> save_ok w' v.
Proof.
  intros H1 H2 H3 H4 H5 Hv. assert (Hno : forall id, no_seal (handlers w) id -> no_seal (handlers w') id).
  { intros id Hid q Hq. by apply (Hid q), H1. }
  unfold save_ok in *. destruct (v_pc v) as [|q| |c|c q|c| |b]; auto.
  - destruct Hv as [Hns Hc]. split; [auto|]. intros Hl. destruct (H2 _ Hns Hl) as [Hl' ->]. auto.
  - destruct Hv as [Hns Hq]. split; [auto|]. destruct (handlers w !! q) as [[req pc|id|r]|] eqn:Hh; try done.
    + destruct Hq as [-> Hc]. destruct (H4 _ _ Hh) as [->|(r & -> & Hr)].
      * split; [done|]. intros Hl. destruct (H2 _ Hns Hl) as [Hl' ->]. auto.
      * destruct r; try done. destruct (Hr eq_refl) as [Hl Hin]. by rewrite (Hc Hl).
    + rewrite (H5 _ _ Hh). destruct r; auto.
Qed.

(** A save goes on. *)
Lemma Inv_set_save w i v pc :
  Inv w -> saves w !! i = Some v -> save_ok w (v_at v pc) -> Inv (set_save w i (v_at v pc)).
Proof.
  intros [J1 J2 J3 J4 J5 [J6 J6'] J7 J8 J9 J10] Hi Hok.
  assert (Hids : v_id <$> (<[ i := v_at v pc ]> (saves w)) = v_id <$> saves w).
  { rewrite list_fmap_insert. cbn. apply list_insert_id. by rewrite list_lookup_fmap, Hi. }
  split; cbn; rewrite ?Hids; try done.
  intros v' [j Hj]%list_elem_of_lookup_1. apply list_lookup_insert_Some in Hj as [(_ & <- & _)|[_ Hj]]; [done|].
  apply (J8 v'). by eapply list_elem_of_lookup_2.
Qed.

Lemma Inv_power_off w : Inv w -> Inv (power_off w).
Proof. intros [J1 J2 J3 J4 J5 J6 J7 J8 J9 J10]. by split. Qed.
Lemma Inv_kill_if w v : Inv w -> Inv (kill_if w v).
Proof. intros H. unfold kill_if. case_match; [by apply Inv_power_off|done]. Qed.

Lemma sealing_snoc hs h id q : sealing (hs ++ [h]) id q -> sealing hs id q \/ q = length hs /\ exists req pc, h = GSeal req pc /\ sr_id req = id.
Proof.
  intros (req & pc & Hq & Hid). apply lookup_app_Some in Hq as [Hq|[Hlt Hq]]; [left; by exists req, pc|right].
  apply list_lookup_singleton_Some in Hq as [Hq ->]. split; [lia|eauto].
Qed.
Lemma sealing_app hs h id q : sealing hs id q -> sealing (hs ++ [h]) id q.
Proof. intros (req & pc & Hq & Hid). exists req, pc. split; [by apply lookup_app_l_Some|done]. Qed.

(** A request is sent: what a save waits for is of another. *)
Lemma save_ok_send w h v :
  (forall req pc, h = GSeal req pc -> sr_id req <> v_id v) -> save_ok w v -> save_ok (send w h) v.
Proof.
  intros Hne Hv. assert (Hback : forall q, sealing (handlers w ++ [h]) (v_id v) q -> sealing (handlers w) (v_id v) q).
  { intros q [Hq|(-> & req & pc & -> & Hid)]%sealing_snoc; [done|]. by destruct (Hne req pc eq_refl). }
  assert (Hno : no_seal (handlers w) (v_id v) -> no_seal (handlers w ++ [h]) (v_id v)) by (intros Hid q Hq; by apply (Hid q), Hback).
  unfold save_ok, live in *. cbn. destruct (v_pc v) as [|q| |c|c q|c| |b]; auto.
  - destruct Hv. auto.
  - destruct Hv as [Hns Hq]. split; [auto|]. destruct (handlers w !! q) eqn:Hh; [|done]. by rewrite (lookup_app_l_Some _ _ _ _ Hh).
Qed.

Lemma Inv_send_thaw w id : Inv w -> Inv (send w (GThaw id)).
Proof.
  intros [J1 J2 J3 J4 J5 [J6 J6'] J7 J8 J9 J10].
  assert (Hl : forall q req pc, (handlers w ++ [GThaw id]) !! q = Some (GSeal req pc) <-> handlers w !! q = Some (GSeal req pc)).
  { intros q req pc. split; [|by apply lookup_app_l_Some]. intros [Hq|[_ Hq]]%lookup_app_Some; [done|].
    by apply list_lookup_singleton_Some in Hq as [_ ?]. }
  split; cbn; try done.
  - intros q. rewrite (J1 q). by setoid_rewrite Hl.
  - intros Ho Hf. destruct (J4 Ho Hf) as [?|(q & req & ? & ?)]; [by left|right]. exists q, req. by rewrite Hl.
  - intros q req Hq%Hl. by eapply J5.
  - split; [|done]. intros id' q [Hq|(_ & req & pc & Heq & _)]%sealing_snoc; [by eapply J6|done].
  - intros v Hv. by apply save_ok_send; [|auto].
Qed.

Lemma id_inj w v v' : NoDup (v_id <$> saves w) -> v ∈ saves w -> v' ∈ saves w -> v_id v = v_id v' -> v = v'.
Proof.
  intros Hnd [i Hi]%list_elem_of_lookup_1 [j Hj]%list_elem_of_lookup_1 Heq.
  assert (i = j) as -> by (eapply (NoDup_lookup _ _ _ (v_id v)); [done|..]; rewrite list_lookup_fmap, ?Hi, ?Hj; cbn; congruence).
  congruence.
Qed.

Lemma Inv_send_seal w i v req :
  Inv w -> saves w !! i = Some v -> v_pc v = VBegin -> sr_id req = v_id v ->
  Inv (set_save (send w (GSeal req SealBegin)) i (v_at v (VSealing (length (handlers w))))).
Proof.
  intros [J1 J2 J3 J4 J5 [J6 J6'] J7 J8 J9 J10] Hi Hpc Hid. set (h := GSeal req SealBegin).
  assert (Hin : v ∈ saves w) by by eapply list_elem_of_lookup_2.
  assert (Hids : v_id <$> (<[ i := v_at v (VSealing (length (handlers w))) ]> (saves w)) = v_id <$> saves w).
  { rewrite list_fmap_insert. cbn. apply list_insert_id. by rewrite list_lookup_fmap, Hi. }
  assert (Hl : forall q req' pc, pc <> SealBegin -> (handlers w ++ [h]) !! q = Some (GSeal req' pc) <-> handlers w !! q = Some (GSeal req' pc)).
  { intros q req' pc Hpc'. split; [|by apply lookup_app_l_Some]. intros [Hq|[_ Hq]]%lookup_app_Some; [done|].
    apply list_lookup_singleton_Some in Hq as [_ Hq]. unfold h in Hq. congruence. }
  split; cbn; rewrite ?Hids; try done.
  - intros q. rewrite (J1 q). split; intros (req' & pc & Hq & Hne); exists req', pc; split; try done; by apply Hl.
  - intros Ho Hf. destruct (J4 Ho Hf) as [?|(q & req' & ? & Hq)]; [by left|right]. exists q, req'. by rewrite Hl.
  - intros q req' Hq%Hl; [|done]. by eapply J5.
  - split; [|done]. intros id q [Hq|(_ & req' & pc & Heq & <-)]%sealing_snoc; [by eapply J6|]. injection Heq as <- <-. rewrite Hid.
    by apply list_elem_of_fmap_2.
  - intros v' [j Hj]%list_elem_of_lookup_1. apply list_lookup_insert_Some in Hj as [(_ & <- & _)|[Hne Hj]].
    + cbn. intros q [Hq|[-> _]]%sealing_snoc; [|done]. pose proof (J8 _ Hin) as Hok. unfold save_ok in Hok. rewrite Hpc in Hok. by destruct (Hok q).
    + assert (Hv' : v' ∈ saves w) by by eapply list_elem_of_lookup_2.
      apply (save_ok_send w h v'); [|auto]. intros req' pc [= <- _] Heq. apply Hne. apply (NoDup_lookup (v_id <$> saves w) i j (v_id v)); [done|..].
      * by rewrite list_lookup_fmap, Hi.
      * rewrite list_lookup_fmap, Hj. cbn. congruence.
Qed.

(** *** Seals *)

Section handler.
Context (w : World) (q : nat) (req : SealRequest) (pc : SealPc) (Hq : handlers w !! q = Some (GSeal req pc)).

Lemma lookup_set h q' : <[ q := h ]> (handlers w) !! q' = if decide (q = q') then Some h else handlers w !! q'.
Proof.
  case_decide as Hd; [subst q'; apply list_lookup_insert_eq; by eapply lookup_lt_Some|by apply list_lookup_insert_ne].
Qed.
Lemma sealing_done r id q' : sealing (<[ q := GDone r ]> (handlers w)) id q' -> sealing (handlers w) id q' /\ q' <> q.
Proof. intros (req' & pc' & Hl & Hid). rewrite lookup_set in Hl. case_decide as Hd; [done|]. split; [by exists req', pc'|congruence]. Qed.
Lemma sealing_next pc' id q' : sealing (<[ q := GSeal req pc' ]> (handlers w)) id q' -> sealing (handlers w) id q'.
Proof.
  intros (req' & pc'' & Hl & Hid). rewrite lookup_set in Hl. case_decide as Hd; [|by exists req', pc''].
  subst q'. injection Hl as <- <-. by exists req, pc.
Qed.
Lemma thaws_stay h q' id : handlers w !! q' = Some (GThaw id) -> <[ q := h ]> (handlers w) !! q' = Some (GThaw id).
Proof. intros H. rewrite lookup_set. case_decide; congruence. Qed.
Lemma dones_stay h q' r : handlers w !! q' = Some (GDone r) -> <[ q := h ]> (handlers w) !! q' = Some (GDone r).
Proof. intros H. rewrite lookup_set. case_decide; congruence. Qed.

(** It ends without the lock. *)
Lemma Inv_seal_refused : Inv w -> pc = SealBegin -> Inv (set_handler w q (GDone Error)).
Proof.
  intros [J1 J2 J3 J4 J5 [J6 J6'] J7 J8 J9 J10] Hpc. split; cbn; try done.
  - intros q'. cbn. rewrite (J1 q'), lookup_set. case_decide as Hd; [|done]. subst q'. rewrite Hq.
    split; intros (req' & pc' & Heq & Hne); [|done]. congruence.
  - intros Ho Hf. destruct (J4 Ho Hf) as [?|(q' & req' & Hh & Hl)]; [by left|right]. exists q', req'. rewrite lookup_set.
    case_decide as Hd; [|done]. subst q'. congruence.
  - intros q' req'. rewrite lookup_set. case_decide; [done|]. apply J5.
  - split; [|done]. intros id q' [Hs _]%sealing_done. by eapply J6.
  - intros v Hv. eapply save_ok_guest; [..|by apply J8]; cbn.
    + by intros id q' [Hs _]%sealing_done.
    + by intros id _ Hl.
    + done.
    + intros q' id Hl. left. by apply thaws_stay.
    + intros q' r Hl. by apply dones_stay.
Qed.

(** It gets the lock. *)
Lemma Inv_seal_locked :
  Inv w -> pc = SealBegin -> held w = None -> busy w = false ->
  Inv (set_handler (set_guest w true (lease w) (Some q) (frozen w)) q (GSeal req SealLocked)).
Proof.
  intros [J1 J2 J3 J4 J5 [J6 J6'] J7 J8 J9 J10] Hpc Hh Hb.
  assert (Hexp : forall l, lease w = Some l -> le_expired l = true).
  { intros l Hl. destruct (le_expired l) eqn:He; [done|]. destruct (J3 l Hl He) as (_ & ? & _). congruence. }
  assert (Hnl : forall q' req' pc', handlers w !! q' = Some (GSeal req' pc') -> pc' = SealBegin).
  { intros q' req' pc' Hl. assert (Hne : pc' <> SealBegin -> held w = Some q') by (intros; apply J1; eauto).
    destruct pc'; [done|..]; by rewrite Hh in Hne; discriminate Hne. }
  split; cbn; try done.
  - intros q'. cbn. rewrite lookup_set. case_decide as Hd; [subst q'; split; [|done]; intros _; by exists req, SealLocked|].
    split; [congruence|]. intros (req' & pc' & Hl & Hne). by apply Hnl in Hl.
  - intros l Hl He. rewrite (Hexp _ Hl) in He. done.
  - intros Ho Hf. destruct (J4 Ho Hf) as [?|(q' & req' & Hh' & Hl)]; [by left|]. congruence.
  - intros q' req'. rewrite lookup_set. case_decide; [done|]. apply J5.
  - split; [|done]. intros id q' Hs%sealing_next. by eapply J6.
  - intros v Hv. eapply save_ok_guest; [..|by apply J8]; cbn.
    + by intros id q' Hs%sealing_next.
    + by intros id _ Hl.
    + done.
    + intros q' id Hl. left. by apply thaws_stay.
    + intros q' r Hl. by apply dones_stay.
Qed.

(** It has frozen the root. *)
Lemma Inv_seal_frozen d :
  Inv w -> pc = SealLocked ->
  Inv (set_handler (set_guest (set_disk w d) (busy w) (lease w) (held w) true) q (GSeal req SealFrozen)).
Proof.
  intros [J1 J2 J3 J4 J5 [J6 J6'] J7 J8 J9 J10] Hpc.
  assert (Hq' : handlers w !! q = Some (GSeal req SealLocked)) by (rewrite Hq; congruence).
  assert (Hh : held w = Some q) by (apply J1; by exists req, SealLocked). destruct (J2 ltac:(eauto)) as [Hb Hexp].
  split; cbn; try done.
  - intros q'. cbn. rewrite (J1 q'), lookup_set. case_decide as Hd; [|done]. subst q'. split; intros _; [by exists req, SealFrozen|by exists req, SealLocked].
  - intros l Hl He. by rewrite (Hexp _ Hl) in He.
  - intros _ _. right. exists q, req. rewrite lookup_set. by rewrite decide_True.
  - split; [|done]. intros id q' Hs%sealing_next. by eapply J6.
  - intros v Hv. eapply save_ok_guest; [..|by apply J8]; cbn.
    + by intros id q' Hs%sealing_next.
    + intros id _ (l & Hl & _ & He). cbn in Hl. by rewrite (Hexp _ Hl) in He.
    + done.
    + intros q' id Hl. left. by apply thaws_stay.
    + intros q' r Hl. by apply dones_stay.
Qed.

(** It fails with the lock, and the root is not frozen, or the guest is off. *)
Lemma Inv_seal_failed (f : bool) :
  Inv w -> pc <> SealBegin -> Inv (set_handler (set_guest (if f then power_off w else w) false (lease w) None (if f then frozen w else false)) q (GDone Error)).
Proof.
  intros [J1 J2 J3 J4 J5 [J6 J6'] J7 J8 J9 J10] Hpc.
  assert (Hh : held w = Some q) by (apply J1; by exists req, pc). destruct (J2 ltac:(eauto)) as [Hb Hexp].
  assert (Hone : forall q' req' pc', handlers w !! q' = Some (GSeal req' pc') -> pc' <> SealBegin -> q' = q).
  { intros q' req' pc' Hl Hne. assert (held w = Some q') by (apply J1; eauto). congruence. }
  assert (Hhs : handlers (if f then power_off w else w) = handlers w) by by destruct f.
  assert (Hsv : saves (if f then power_off w else w) = saves w) by by destruct f.
  assert (Him : images (if f then power_off w else w) = images w) by by destruct f.
  assert (Hpu : published (if f then power_off w else w) = published w) by by destruct f.
  split; cbn; rewrite ?Hhs, ?Hsv, ?Him, ?Hpu; try done.
  - intros q'. cbn. rewrite Hhs, lookup_set. split; [done|]. intros (req' & pc' & Hl & Hne). case_decide as Hd; [done|].
    destruct Hd. symmetry. by eapply Hone.
  - intros l Hl He. by rewrite (Hexp _ Hl) in He.
  - destruct f; done.
  - intros q' req'. rewrite lookup_set. case_decide as Hd; [done|]. intros Hl. destruct Hd. symmetry. by eapply Hone.
  - split; [|done]. intros id q' [Hs _]%sealing_done. by eapply J6.
  - intros v Hv. eapply save_ok_guest; [..|by apply J8]; cbn; rewrite ?Hhs, ?Him.
    + by intros id q' [Hs _]%sealing_done.
    + intros id _ (l & Hl & _ & He). cbn in Hl. by rewrite (Hexp _ Hl) in He.
    + done.
    + intros q' id Hl. left. by apply thaws_stay.
    + intros q' r Hl. by apply dones_stay.
Qed.

(** It is done. *)
Lemma Inv_sealed :
  Inv w -> pc = SealFrozen -> in_order (disk w) ->
  Inv (set_handler (set_guest (add_image w) (busy w) (Some (MkLease (sr_id req) (now w + sr_lease_ms req) false (disk w))) None (frozen w))
    q (GDone Sealed)).
Proof.
  intros [J1 J2 J3 J4 J5 [J6 J6'] J7 J8 J9 J10] Hpc Hord.
  assert (Hq' : handlers w !! q = Some (GSeal req SealFrozen)) by (rewrite Hq; congruence).
  assert (Hh : held w = Some q) by (apply J1; by exists req, SealFrozen). destruct (J2 ltac:(eauto)) as [Hb Hexp].
  assert (Hone : forall q' req' pc', handlers w !! q' = Some (GSeal req' pc') -> pc' <> SealBegin -> q' = q).
  { intros q' req' pc' Hl Hne. assert (held w = Some q') by (apply J1; eauto). congruence. }
  split; cbn; try done.
  - intros q'. cbn. rewrite lookup_set. split; [done|]. intros (req' & pc' & Hl & Hne). case_decide as Hd; [done|].
    destruct Hd. symmetry. by eapply Hone.
  - intros l [= <-] _. cbn. split_and!; [by eapply J5|done|done|]. apply elem_of_cons. by left.
  - intros _ _. left. eexists. by split.
  - intros q' req'. rewrite lookup_set. case_decide as Hd; [done|]. intros Hl. destruct Hd. symmetry. by eapply Hone.
  - split; [|intros l [= <-]; cbn; eapply J6; by exists req, SealFrozen]. intros id q' [Hs _]%sealing_done. by eapply J6.
  - intros v Hv. eapply save_ok_guest; [..|by apply J8]; cbn.
    + by intros id q' [Hs _]%sealing_done.
    + intros id Hns (l & Hl & Hid & _). injection Hl as <-. cbn in Hid. destruct (Hns q). by exists req, SealFrozen.
    + intros d Hd. apply elem_of_cons. by right.
    + intros q' id Hl. left. by apply thaws_stay.
    + intros q' r Hl. by apply dones_stay.
  - intros d [->|Hd]%elem_of_cons; auto.
  - intros c Hc. apply elem_of_cons. auto.
Qed.
End handler.

(** *** Thaws *)

Section thaw.
Context (w : World) (q : nat) (id : Z) (Hq : handlers w !! q = Some (GThaw id)).

Lemma lookup_thaw h q' : <[ q := h ]> (handlers w) !! q' = if decide (q = q') then Some h else handlers w !! q'.
Proof.
  case_decide as Hd; [subst q'; apply list_lookup_insert_eq; by eapply lookup_lt_Some|by apply list_lookup_insert_ne].
Qed.
Lemma seals_same r q' req pc : <[ q := GDone r ]> (handlers w) !! q' = Some (GSeal req pc) <-> handlers w !! q' = Some (GSeal req pc).
Proof. rewrite lookup_thaw. case_decide as Hd; [|done]. subst q'. rewrite Hq. done. Qed.
Lemma sealing_same r id' q' : sealing (<[ q := GDone r ]> (handlers w)) id' q' <-> sealing (handlers w) id' q'.
Proof. unfold sealing. by setoid_rewrite seals_same. Qed.
Lemma thaw_handlers r q' id' (P : Prop) :
  handlers w !! q' = Some (GThaw id') -> (id' = id -> r = Thawed -> P) ->
  <[ q := GDone r ]> (handlers w) !! q' = Some (GThaw id') \/
  exists r', <[ q := GDone r ]> (handlers w) !! q' = Some (GDone r') /\ (r' = Thawed -> P).
Proof.
  intros Hl HP. rewrite lookup_thaw. case_decide as Hd; [|by left]. subst q'. right. exists r. split; [done|].
  rewrite Hq in Hl. injection Hl as ->. auto.
Qed.
Lemma thaw_dones r q' r' : handlers w !! q' = Some (GDone r') -> <[ q := GDone r ]> (handlers w) !! q' = Some (GDone r').
Proof. intros Hl. rewrite lookup_thaw. case_decide; congruence. Qed.

Lemma Inv_thaw_refused : Inv w -> Inv (set_handler w q (GDone Error)).
Proof.
  intros [J1 J2 J3 J4 J5 [J6 J6'] J7 J8 J9 J10]. split; cbn; try done.
  - intros q'. cbn. rewrite (J1 q'). by setoid_rewrite seals_same.
  - intros Ho Hf. destruct (J4 Ho Hf) as [?|(q' & req' & Hh & Hl)]; [by left|right]. exists q', req'. by rewrite seals_same.
  - intros q' req'. rewrite seals_same. apply J5.
  - split; [|done]. intros id' q'. rewrite sealing_same. apply J6.
  - intros v Hv. eapply save_ok_guest; [..|by apply J8]; cbn.
    + intros id' q'. by rewrite sealing_same.
    + by intros id' _ Hl.
    + done.
    + intros q' id' Hl. by apply thaw_handlers.
    + intros q' r Hl. by apply thaw_dones.
Qed.

Lemma Inv_thawed l f r :
  Inv w -> held w = None -> lease w = Some l -> le_id l = id -> (f = true -> frozen w = true /\ le_expired l = true) ->
  (r = Thawed -> le_expired l = false) ->
  Inv (set_handler (set_guest w false None None f) q (GDone r)).
Proof.
  intros [J1 J2 J3 J4 J5 [J6 J6'] J7 J8 J9 J10] Hh Hl Hid Hf Hr. split; cbn; try done.
  - intros q'. cbn. rewrite <- Hh, (J1 q'). by setoid_rewrite seals_same.
  - intros Ho Hfr. exfalso. destruct (Hf Hfr) as [Hfw He]. destruct (J4 Ho Hfw) as [(l' & Hl' & He')|(q' & _ & Hq' & _)]; congruence.
  - intros q' req'. rewrite seals_same. intros Hs. exfalso. assert (held w = Some q') by (apply J1; by exists req', SealFrozen). congruence.
  - split; [|done]. intros id' q'. rewrite sealing_same. apply J6.
  - intros v Hv. eapply save_ok_guest; [..|by apply J8]; cbn.
    + intros id' q'. by rewrite sealing_same.
    + by intros id' _ (l' & ? & _).
    + done.
    + intros q' id' Hl'. apply thaw_handlers; [done|]. intros -> Ht. specialize (Hr Ht). destruct (J3 _ Hl Hr) as (_ & _ & -> & Hin).
      split; [|done]. by exists l.
    + intros q' r' Hl'. by apply thaw_dones.
Qed.
End thaw.

Lemma Inv_watchdog w a : Inv w -> Inv (watchdog w a).
Proof.
  intros HI. unfold watchdog. destruct (held w) as [q|] eqn:Hh; [done|]. destruct (lease w) as [l|] eqn:Hl; [|done].
  destruct (negb (le_expired l) && _ && _) eqn:Hc; [|done]. destruct HI as [J1 J2 J3 J4 J5 [J6 J6'] J7 J8 J9 J10].
  split; cbn; try done.
  - intros q. cbn. rewrite <- Hh. apply J1.
  - by intros l' [= <-].
  - intros q req Hs. exfalso. assert (held w = Some q) by (apply J1; by exists req, SealFrozen). congruence.
  - split; [done|]. intros l' [= <-]. by apply (J6' l).
  - intros v Hv. eapply save_ok_guest; [..|by apply J8]; cbn; try done; [|by auto].
    intros id _ (l' & [= <-] & _ & ?). done.
Qed.

Lemma Inv_writes w d : Inv w -> frozen w = false -> Inv (set_disk w d).
Proof.
  intros [J1 J2 J3 J4 J5 [J6 J6'] J7 J8 J9 J10] Hf.
  assert (Hnl : forall id, ~ live w id) by (intros id (l & Hl & _ & He); destruct (J3 l Hl He); congruence).
  split; cbn; try done.
  - intros l Hl He. destruct (J3 l Hl He). congruence.
  - intros v Hv. eapply save_ok_guest; [..|by apply J8]; cbn; try done; [|by auto].
    intros id _ Hl. by destruct (Hnl id).
Qed.

Section steps.
Context (boot_errors : Z).

Lemma Inv_handler w q a : Inv w -> Inv (handler_step boot_errors w q a).
Proof.
  intros HI. unfold handler_step. destruct (off w) eqn:Hoff; [done|]. destruct (handlers w !! q) as [[req pc|id|r]|] eqn:Hq; try done.
  - destruct pc; cbn [seal_step].
    + case_match; [by eapply Inv_seal_refused|]. destruct (held w) eqn:Hh; [done|].
      destruct (busy w) eqn:Hb; [by eapply Inv_seal_refused|by eapply Inv_seal_locked].
    + case_match; [by eapply Inv_seal_frozen|]. assert (Hfr : frozen w = false).
      { destruct (frozen w) eqn:Hf; [|done]. destruct HI as [J1 J2 J3 J4 _ _ _ _ _ _].
        assert (Hh : held w = Some q) by (apply J1; by exists req, SealLocked). destruct (J2 ltac:(eauto)) as [_ Hexp].
        destruct (J4 Hoff Hf) as [(l & Hl & He)|(q' & req' & Hh' & Hq')]; [by rewrite (Hexp _ Hl) in He|]. congruence. }
      unfold seal_failed. rewrite Hfr. by apply (Inv_seal_failed w q req SealLocked Hq false).
    + assert (Hbad : Inv (if an_thaw a then seal_failed w q false else power_off (seal_failed w q (frozen w)))).
      { destruct (an_thaw a); [by apply (Inv_seal_failed w q req SealFrozen Hq false)|by apply (Inv_seal_failed w q req SealFrozen Hq true)]. }
      destruct (writable _ _ _); [|done]. destruct (superblock (disk w)) as [[bl er []]|] eqn:Hsb; try done.
      eapply Inv_sealed; [done|done|done|]. by eexists.
  - unfold thaw_step. destruct (held w) eqn:Hh; [done|]. destruct (lease w) as [l|] eqn:Hl; [|by eapply Inv_thaw_refused].
    destruct (le_id l =? id) eqn:Hid; cbn; [|by eapply Inv_thaw_refused]. apply Z.eqb_eq in Hid.
    destruct (le_expired l) eqn:He.
    + by eapply (Inv_thawed w q id Hq l).
    + destruct (an_thaw a); [|by eapply Inv_thaw_refused]. by eapply (Inv_thawed w q id Hq l).
Qed.

Lemma prefix_grows (c d : bytes) n :
  c = take (length c) d -> c ++ take n (zdrop (zlen c) d) = take (length (c ++ take n (zdrop (zlen c) d))) d.
Proof.
  intros Hc. unfold zdrop, zlen. rewrite Nat2Z.id. rewrite length_app, length_take, length_drop.
  rewrite <- take_take_drop. f_equal; [done|].
  destruct (decide (n <= length d - length c)%nat); [by rewrite Nat.min_l|]. rewrite Nat.min_r by lia.
  rewrite !take_ge; [done|rewrite length_drop; lia..].
Qed.
Lemma prefix_whole (c d : bytes) : c = take (length c) d -> zlen d <= zlen c -> c = d.
Proof. intros Hc Hle. rewrite Hc. unfold zlen in Hle. apply take_ge. lia. Qed.

Lemma Inv_publish w c : Inv w -> c ∈ images w -> Inv (publish_image w c).
Proof.
  intros [J1 J2 J3 J4 J5 J6 J7 J8 J9 J10] Hc. split; cbn; try done. by intros c' [->|Hc']%elem_of_cons; auto.
Qed.

Lemma Inv_save w i v ok n : Inv w -> saves w !! i = Some v -> Inv (save_step w i v ok n).
Proof.
  intros HI Hi. pose proof (i_saves _ HI v ltac:(by eapply list_elem_of_lookup_2)) as Hok. unfold save_ok in Hok. unfold save_step, publish_step.
  assert (Hend : forall w' pc, Inv w' -> saves w' = saves w -> (pc = VFail \/ exists b, pc = VDone b) -> Inv (set_save w' i (v_at v pc))).
  { intros w' pc HI' Hs Hpc. apply Inv_set_save; [done|by rewrite Hs|]. by destruct Hpc as [->|[b ->]]. }
  assert (Hkill : saves (kill_if w v) = saves w) by (unfold kill_if; by destruct (bool_decide _)).
  destruct (v_pc v) as [|q| |c|c q|c| |b] eqn:Hpc.
  - destruct ok; [by apply Inv_send_seal|]. apply Hend; eauto.
  - destruct ok; cbn; [|apply Hend; eauto using Inv_kill_if]. unfold reply. destruct (handlers w !! q) as [[| |r]|] eqn:Hq; try done.
    destruct r; try (apply Hend; eauto using Inv_kill_if; fail). apply Inv_set_save; [done..|]. cbn. intros q' Hs.
    rewrite (Hok _ Hs) in Hs. destruct Hs as (req & pc & Hs & _). congruence.
  - destruct ok; [|apply Hend; auto]. apply Inv_set_save; [done..|]. split; [done|]. done.
  - destruct ok; cbn; [|apply Hend; auto]. destruct Hok as [Hns Hc]. destruct (zlen c <? zlen (disk w)) eqn:Hlt.
    + apply Inv_set_save; [done..|]. split; [done|]. intros Hl. apply prefix_grows. auto.
    + apply (Inv_set_save (send w (GThaw (v_id v)))); [by apply Inv_send_thaw|done|]. split.
      * intros q' [Hs|(_ & req & pc & Heq & _)]%sealing_snoc; [by apply (Hns q')|done].
      * cbn. rewrite list_lookup_middle by done. split; [done|]. intros Hl. apply prefix_whole; [by apply Hc|]. lia.
  - destruct ok; cbn; [|apply Hend; auto]. destruct Hok as [Hns Hq]. unfold reply.
    destruct (handlers w !! q) as [[| |r]|] eqn:Hh; try done. destruct r; try (apply Hend; auto; fail).
    case_match; [apply Hend; auto|]. apply Inv_set_save; [by apply Inv_kill_if|by rewrite Hkill|]. unfold kill_if. by case_match.
  - destruct ok; [|apply Hend; auto]. destruct (Nat.eqb n 0); apply Hend; eauto using Inv_publish.
  - apply Hend; [|unfold kill_if; repeat case_match; done|eauto]. apply Inv_kill_if. destruct ok; [by apply Inv_send_thaw|done].
  - done.
Qed.

Lemma Inv_seal_event e w : Inv w -> Inv (step boot_errors e w).
Proof.
  intros HI. destruct e as [dt|d|a|id after|q a|i ok n]; cbn.
  - destruct HI as [J1 J2 J3 J4 J5 J6 J7 J8 J9 J10]. split; cbn; try done.
  - destruct (frozen w) eqn:Hf; [done|]. cbn. case_match; [done|by apply Inv_writes].
  - destruct (off w); [done|by apply Inv_watchdog].
  - destruct (existsb _ _) eqn:He; [done|]. assert (Hnew : id ∉ v_id <$> saves w).
    { intros (v & -> & Hv)%list_elem_of_fmap. assert (existsb (fun v' => v_id v' =? v_id v) (saves w) = true) as Ht; [|congruence].
      apply existsb_exists. exists v. split; [by apply list_elem_of_In|]. apply Z.eqb_refl. }
    destruct HI as [J1 J2 J3 J4 J5 [J6 J6'] J7 J8 J9 J10]. split; cbn; try done.
    + rewrite fmap_app. split; [intros id' q Hs; apply elem_of_app; left; by eapply J6|intros l Hl; apply elem_of_app; left; auto].
    + rewrite fmap_app. apply NoDup_app. split_and!; [done| |apply NoDup_singleton]. intros x Hx ->%list_elem_of_singleton. done.
    + intros v [Hv| ->%list_elem_of_singleton]%elem_of_app; [by apply J8|]. cbn. intros q Hs. by apply Hnew, (J6 _ q).
  - by apply Inv_handler.
  - destruct (saves w !! i) as [v|] eqn:Hi; [by apply Inv_save|done].
Qed.

Lemma Inv_sealing d w : reachable boot_errors d w -> Inv w.
Proof.
  induction 1 as [|w e _ IH]; [|by apply Inv_seal_event]. split; cbn; try done.
  - intros q. split; [done|]. by intros (req & pc & ? & _).
  - split; [|done]. by intros id q (req & pc & ? & _).
  - constructor.
  - intros v Hv. by apply elem_of_nil in Hv.
  - intros x Hx. by apply elem_of_nil in Hx.
Qed.
End steps.

(** ** Results *)

Section results.
Context (boot_errors : Z).
#[local] Notation run := (foldl (fun w e => step boot_errors e w)).

Lemma reachable_run d es w : reachable boot_errors d w -> reachable boot_errors d (run w es).
Proof. revert w. induction es as [|e es IH]; intros w Hw; [done|]. apply IH. by constructor. Qed.

(** Only a seal adds to [images], and it adds the disk under the frozen root. *)
Definition sealed_from (w : World) (c : bytes) : Prop := frozen w = true /\ off w = false /\ disk w = c.

Lemma image_added_handler w q a c :
  Inv w -> c ∈ images (handler_step boot_errors w q a) -> c ∈ images w \/ sealed_from w c.
Proof.
  intros HI. unfold handler_step. destruct (off w) eqn:Hoff; [auto|]. destruct (handlers w !! q) as [[req pc|id|r]|] eqn:Hq; auto.
  - destruct pc; cbn [seal_step].
    + repeat case_match; auto.
    + case_match; auto.
    + destruct (writable _ _ _); [|case_match; auto]. destruct (superblock (disk w)) as [[bl er []]|]; [case_match; auto| |case_match; auto].
      intros [->|Hc]%elem_of_cons; [|auto]. right. split_and!; [|done..]. by eapply (i_sealfrozen w HI).
  - unfold thaw_step. repeat case_match; auto.
Qed.

Lemma images_save w i v ok n : images (save_step w i v ok n) = images w.
Proof. unfold save_step, publish_step, kill_if. repeat case_match; done. Qed.

Lemma image_added w e c : Inv w -> c ∈ images (step boot_errors e w) -> c ∈ images w \/ sealed_from w c.
Proof.
  intros HI. destruct e as [dt|d|a|id after|q a|i ok n]; cbn; auto.
  - case_match; auto.
  - unfold watchdog. repeat case_match; auto.
  - case_match; auto.
  - by apply image_added_handler.
  - case_match; [rewrite images_save|]; auto.
Qed.

Lemma image_was_sealed d w c :
  reachable boot_errors d w -> c ∈ images w ->
  exists w0 es, reachable boot_errors d w0 /\ w = run w0 es /\ sealed_from w0 c.
Proof.
  intros Hr. induction Hr as [|w e Hr IH]; [by intros ?%elem_of_nil|].
  intros [Hc|Hs]%image_added; [| |by eapply Inv_sealing].
  - destruct (IH Hc) as (w0 & es & Hr0 & -> & Hs). exists w0, (es ++ [e]). by rewrite foldl_app.
  - by exists w, [e].
Qed.

(** C18: whatever the guest writes and whenever, whichever replies get lost or come
    late, and however the seals, the thaws, the watchdog and the copies of several
    saves interleave, an image that a save publishes is, byte for byte, the disk
    that lay under the frozen root at one moment before, an ext4 with no journal to
    replay. *)
Theorem published_disk_was_sealed d w c :
  reachable boot_errors d w -> c ∈ published w ->
  in_order c /\
  exists w0 es, reachable boot_errors d w0 /\ w = run w0 es /\ frozen w0 = true /\ off w0 = false /\ disk w0 = c.
Proof.
  intros Hr Hc. pose proof (Inv_sealing boot_errors d w Hr) as HI. apply (i_published w HI) in Hc.
  split; [by apply (i_images w HI)|by eapply image_was_sealed].
Qed.

(** *** The lease *)

Definition bounded_req (h : Handler) : Prop := if h is GSeal req _ then sr_lease_ms req <= LEASE_MAX else True.
Definition bounded (w : World) : Prop :=
  (forall h, h ∈ handlers w -> bounded_req h) /\ (forall l, lease w = Some l -> le_deadline l <= now w + LEASE_MAX).

Lemma bounded_set_handler w q h : bounded w -> bounded_req h -> bounded (set_handler w q h).
Proof.
  intros [H1 H2] Hh. split; [|done]. cbn. intros h' [j Hj]%list_elem_of_lookup_1.
  apply list_lookup_insert_Some in Hj as [(_ & <- & _)|[_ Hj]]; [done|]. by eapply H1, list_elem_of_lookup_2.
Qed.
Lemma bounded_guest w b l h f : bounded w -> l = None \/ l = lease w -> bounded (set_guest w b l h f).
Proof. intros [H1 H2] [->| ->]; by split. Qed.
Lemma bounded_send w h : bounded w -> bounded_req h -> bounded (send w h).
Proof. intros [H1 H2] Hh. split; [|done]. cbn. intros h' [?| ->%list_elem_of_singleton]%elem_of_app; auto. Qed.

Lemma bounded_handler w q a : bounded w -> bounded (handler_step boot_errors w q a).
Proof.
  intros HB. unfold handler_step. destruct (off w); [done|]. destruct (handlers w !! q) as [[req pc|id|r]|] eqn:Hq; try done.
  - assert (Hreq : sr_lease_ms req <= LEASE_MAX) by (apply (proj1 HB (GSeal req pc)); by eapply list_elem_of_lookup_2).
    destruct pc; cbn [seal_step]; unfold seal_failed.
    + repeat case_match; try done; apply bounded_set_handler; try done; auto using bounded_guest.
    + case_match; apply bounded_set_handler; try done; apply bounded_guest; auto.
    + repeat case_match; try (apply (bounded_set_handler (set_guest w _ _ _ _)); [by apply bounded_guest; auto|done]).
      apply bounded_set_handler; [|done]. split; [apply HB|]. cbn. intros l [= <-]. cbn. lia.
  - unfold thaw_step. repeat case_match; try done; apply bounded_set_handler; try done; auto using bounded_guest.
Qed.

Lemma bounded_save w i v ok n : bounded w -> bounded (save_step w i v ok n).
Proof.
  intros HB. assert (Hsend : forall h, bounded_req h -> bounded (send w h)) by (intros; by apply bounded_send).
  unfold save_step, publish_step, kill_if. repeat case_match; try done; by apply Hsend.
Qed.

Lemma bounded_reachable d w : reachable boot_errors d w -> bounded w.
Proof.
  induction 1 as [|w e _ IH]; [split; [by intros h ?%elem_of_nil|done]|]. destruct e as [dt|d'|a|id after|q a|i ok n]; cbn.
  - destruct IH as [H1 H2]. split; [done|]. cbn. intros l Hl. specialize (H2 l Hl). lia.
  - by case_match.
  - unfold watchdog. repeat case_match; try done. destruct IH as [J1 J2]. split; [done|]. cbn. intros l' [= <-]. cbn. auto.
  - by case_match.
  - by apply bounded_handler.
  - case_match; [by apply bounded_save|done].
Qed.

(** C37: a root that is frozen, with no seal under way, has a lease that has not
    expired, and the guest refuses every request but a seal or a thaw; and the
    watchdog ends that within five minutes even if the host never asks again: when
    it looks after that time and the kernel thaws the root, the root is no longer
    frozen, the guest takes requests again, and the disk is untouched. *)
Theorem frozen_root_is_thawed d w a :
  reachable boot_errors d w -> off w = false -> held w = None -> frozen w = true -> an_thaw a = true ->
  (exists l, lease w = Some l /\ le_expired l = false) /\
  (forall msg_type, refuses w msg_type = negb (bool_decide (msg_type = THAW_REQ \/ msg_type = SEAL_REQ))) /\
  let w' := step boot_errors (Watchdog a) (step boot_errors (Tick LEASE_MAX) w) in
  frozen w' = false /\ disk w' = disk w /\ (forall msg_type, refuses w' msg_type = false).
Proof.
  intros Hr Hoff Hh Hf Ha. pose proof (Inv_sealing boot_errors d w Hr) as HI. destruct (bounded_reachable d w Hr) as [_ HB].
  destruct (i_frozen w HI Hoff Hf) as [(l & Hl & He)|(q & req & Hh' & _)]; [|congruence].
  destruct (i_lease w HI l Hl He) as (_ & Hb & _). split; [by exists l|]. split; [intros m; unfold refuses; by rewrite Hb|].
  cbn [step off]. rewrite Hoff. unfold watchdog. cbn [held lease now]. rewrite Hh, Hl, He, Ha.
  destruct (Z.leb_spec (le_deadline l) (now w + Z.max 0 LEASE_MAX)); [done|]. specialize (HB l Hl). lia.
Qed.
End results.

(** *** A save of a small disk *)

(** An ext4 superblock with nothing to replay, and a disk the guest writes later. *)
Definition a_disk : bytes := replicate 1080 x00 ++ [x53; xef] ++ replicate 966 x00.
Definition dirty_disk : bytes := replicate 2048 xaa.
Definition works : Ans := MkAns true false (Some 0) true true a_disk.

(** The seal, and a copy in two pieces while the guest tries to write; then the
    thaw, more writes, and the publishing. *)
Definition sealing_events : list Event :=
  [GuestWrites dirty_disk; GuestWrites a_disk; NewSave 7 AThaw; GoSave 0 true 0; GoHandler 0 works; GoHandler 0 works; GoHandler 0 works;
   GoSave 0 true 0; GoSave 0 true 0; GuestWrites dirty_disk].
Definition saving_events : list Event :=
  sealing_events ++
  [GoSave 0 true 1000; Tick 5; GoSave 0 true 2000; GoSave 0 true 0; GoHandler 1 works; GuestWrites dirty_disk; GoSave 0 true 0; GoSave 0 true 0].
#[local] Notation after es := (foldl (fun w e => step 0 e w) (World_new a_disk) es).

Lemma published_disk_was_sealed_witness :
  disk (after saving_events) = dirty_disk /\ in_order a_disk.
Proof.
  split; [by vm_compute|].
  refine (proj1 (published_disk_was_sealed 0 a_disk (after saving_events) a_disk _ _)).
  - apply reachable_run. constructor.
  - apply list_elem_of_In. vm_compute. by left.
Defined.

Lemma frozen_root_is_thawed_witness :
  frozen (after sealing_events) = true /\
  frozen (step 0 (Watchdog works) (step 0 (Tick LEASE_MAX) (after sealing_events))) = false.
Proof.
  split; [by vm_compute|].
  refine (proj1 (proj2 (proj2 (frozen_root_is_thawed 0 a_disk (after sealing_events) works _ _ _ _ _)))); try (by vm_compute).
  apply reachable_run. constructor.
Defined.
