(* ===== verification/WorkDisk.v ===== *)
(** * Working disks

    [crates/shuru-vm/src/workdisk.rs] and [validate_disk_size] of [lib.rs]: the
    copy of a base image that a VM runs on, made as a reflink or, with the zeros
    left out, piece by piece; and the layout of a base image.

    A file is its bytes. What the kernel answers to each call comes from a script;
    a call past its end works and reads a whole buffer. *)

From Stdlib Require Import Strings.Byte.
From stdpp Require Import prelude.
From S2P Require Import Prelude Block.

(** ** Definitions *)

Definition MIN_DISK_MB : Z := 4096.

Definition validate_disk_size (size_mb : Z) : option Z :=
  if size_mb <? MIN_DISK_MB then None else
  let n := size_mb * (1024 * 1024) in
  if (n <? 2 ^ 64) && (n <=? 2 ^ 63 - 1) then Some n else None.

(** [File::set_len] *)
Definition set_len (f : bytes) (len : Z) : bytes := ztake len (f ++ replicate (Z.to_nat (len - zlen f)) x00).

(** One turn of a copy: what the read gives, if it works, and whether the write
    does. *)
Record Turn := MkTurn { t_read : option Z; t_write : bool }.
Definition whole (buf : Z) : Turn := MkTurn (Some buf) true.
Definition next_turn (buf : Z) (ts : list Turn) : Turn * list Turn :=
  match ts with [] => (whole buf, []) | t :: ts => (t, ts) end.

(** [read_at]: at least a byte when there is one, at most the buffer. *)
Definition read_at (buf : Z) (src : bytes) (off n : Z) : bytes := ztake (Z.min buf (Z.max 1 n)) (zdrop off src).

Definition COPY_BUF : Z := 1048576.

(** The loop of [copy_contents]; every turn that does not fail reads a byte, so
    that the fuel is the bytes left. [None] is an error. *)
Fixpoint copy_loop (fuel : nat) (ts : list Turn) (src dst : bytes) (off len : Z) : option bytes :=
  if off <? len then
    match fuel with
    | O => None
    | S fuel =>
        let '(t, ts) := next_turn COPY_BUF ts in
        match t_read t with
        | None => None
        | Some n =>
            let part := read_at COPY_BUF src off n in
            if zlen part =? 0 then None else
            if existsb (fun b => negb (Byte.eqb b x00)) part then
              if t_write t then copy_loop fuel ts src (splice dst off part) (off + zlen part) len else None
            else copy_loop fuel ts src dst (off + zlen part) len
        end
    end
  else Some (set_len dst len).

Definition copy_contents (ts : list Turn) (src dst : bytes) : option bytes :=
  copy_loop (length src) ts src dst 0 (zlen src).

(** What [reflink] answers: cloned, not supported, an error. *)
Inductive Reflink := Cloned | NotSupported | ReflinkFailed.

(** [clone_anonymous] of a Linux host, whose file is new; the body of [save_to],
    whose file is new too, is the same. *)
Definition clone_anonymous (r : Reflink) (ts : list Turn) (base : bytes) : option bytes :=
  match r with
  | Cloned => Some base
  | NotSupported => copy_contents ts base []
  | ReflinkFailed => None
  end.

Definition clone_from (r : Reflink) (ts : list Turn) (base : bytes) (size_mb : Z) : option bytes :=
  let! target := validate_disk_size size_mb in
  let! disk := clone_anonymous r ts base in
  let current := zlen disk in
  if target <? current then None else
  Some (if current <? target then set_len disk target else disk).

Definition REWRITE_BUF : Z := 8388608.

(** The loop of [rewrite_sequential]: it reads until there is nothing. *)
Fixpoint rewrite_loop (fuel : nat) (ts : list Turn) (input output : bytes) : option bytes :=
  let '(t, ts) := next_turn REWRITE_BUF ts in
  match t_read t with
  | None => None
  | Some n =>
      let part := read_at REWRITE_BUF input 0 n in
      if zlen part =? 0 then Some output else
      if negb (t_write t) then None else
      match fuel with
      | O => None
      | S fuel => rewrite_loop fuel ts (zdrop (zlen part) input) (output ++ part)
      end
  end.

(** [ok]: whether the new file is made, extended and synced. *)
Definition rewrite_sequential (ok : bool) (ts : list Turn) (src : bytes) (len : Z) : option bytes :=
  let! output := rewrite_loop (length src) ts src [] in
  if ok then Some (set_len output len) else None.

(** [prepare_base]: whether it works, and what is then at the path. *)
Definition prepare_base (ok renamed : bool) (ts : list Turn) (base : bytes) : bool * bytes :=
  match validate_disk_size MIN_DISK_MB with
  | None => (false, base)
  | Some target =>
      if target <=? zlen base then (true, base) else
      match rewrite_sequential ok ts base target with
      | Some f => if renamed then (true, f) else (false, base)
      | None => (false, base)
      end
  end.

(** ** Lemmas *)

Definition grown (f : bytes) (n : Z) : bytes := f ++ replicate (Z.to_nat (n - zlen f)) x00.

Lemma set_len_grows f n : zlen f <= n -> set_len f n = grown f n.
Proof. intros H. unfold set_len, grown. apply ztake_ge. rewrite zlen_app, zlen_replicate. lia. Qed.
Lemma zlen_grown f n : zlen f <= n -> zlen (grown f n) = n.
Proof. intros H. unfold grown. rewrite zlen_app, zlen_replicate. lia. Qed.

Lemma zeros_part part : existsb (fun b => negb (Byte.eqb b x00)) part = false -> part = replicate (length part) x00.
Proof.
  induction part as [|b part IH]; [done|]. cbn. intros [Hb Hp]%orb_false_iff. apply negb_false_iff, Byte.byte_dec_bl in Hb as ->.
  by rewrite <- IH.
Qed.

(** A part that was left out and one that was written. *)
Lemma grown_skip dst off part :
  zlen dst <= off -> existsb (fun b => negb (Byte.eqb b x00)) part = false -> grown dst (off + zlen part) = grown dst off ++ part.
Proof.
  intros Hle Hz. rewrite (zeros_part _ Hz) at 2. unfold grown, zlen in *. rewrite <- app_assoc, <- replicate_add. do 2 f_equal. lia.
Qed.
Lemma grown_splice dst off part :
  zlen dst <= off -> grown (splice dst off part) (off + zlen part) = grown dst off ++ part.
Proof.
  intros Hle. assert (Hs : splice dst off part = grown dst off ++ part).
  { unfold splice. fold (grown dst off). pose proof (zlen_grown dst off Hle). pose proof (zlen_nonneg part).
    rewrite ztake_ge, zdrop_ge by lia. by rewrite app_nil_r. }
  rewrite Hs. unfold grown at 1. rewrite zlen_app, zlen_grown by done. rewrite Z.sub_diag. apply app_nil_r.
Qed.

Lemma zlen_read_at buf src off n :
  0 < buf -> 0 <= off < zlen src -> 0 < zlen (read_at buf src off n) <= zlen src - off.
Proof. intros Hb Ho. unfold read_at. rewrite zlen_take, zlen_drop. lia. Qed.
Lemma read_at_next buf src off n :
  0 <= off -> ztake off src ++ read_at buf src off n = ztake (off + zlen (read_at buf src off n)) src.
Proof.
  intros Ho. unfold read_at. set (k := Z.min buf (Z.max 1 n)). rewrite zlen_take.
  pose proof (zlen_nonneg (zdrop off src)). rewrite ztake_plus by lia. f_equal.
  destruct (Z.le_ge_cases k 0); [by rewrite !ztake_nonpos by lia|].
  destruct (Z.le_ge_cases k (zlen (zdrop off src))); [by rewrite Z.max_r, Z.min_l by lia|].
  rewrite Z.max_r, Z.min_r by lia. by rewrite !ztake_ge by lia.
Qed.

Definition faultless (ts : list Turn) : Prop := Forall (fun t => is_Some (t_read t) /\ t_write t = true) ts.
Lemma next_turn_faultless buf ts t ts' :
  faultless ts -> next_turn buf ts = (t, ts') -> (exists n, t_read t = Some n) /\ t_write t = true /\ faultless ts'.
Proof.
  intros Hf. destruct ts as [|t0 ts]; cbn; intros [= <- <-]; [by split_and!; [eexists|..]|].
  apply Forall_cons in Hf as [[[n Hn] Hw] Hf]. split_and!; [by exists n|done..].
Qed.

Lemma copy_loop_copies fuel ts src dst off :
  0 <= off <= zlen src -> zlen dst <= off -> grown dst off = ztake off src -> zlen src - off <= Z.of_nat fuel ->
  (forall f, copy_loop fuel ts src dst off (zlen src) = Some f -> f = src) /\
  (faultless ts -> copy_loop fuel ts src dst off (zlen src) = Some src).
Proof.
  revert ts dst off. induction fuel as [|fuel IH]; intros ts dst off Ho Hd Hg Hfu; cbn [copy_loop].
  all: destruct (Z.ltb_spec off (zlen src)) as [Hlt|Hge];
    [|assert (off = zlen src) as -> by lia; rewrite set_len_grows, Hg, ztake_ge by lia; by split; [intros ? [= <-]|]].
  { lia. }
  destruct (next_turn COPY_BUF ts) as [t ts'] eqn:Ht. pose proof (fun H => next_turn_faultless COPY_BUF ts t ts' H Ht) as Hok.
  destruct (t_read t) as [n|] eqn:Hr; [|split; [done|]; intros H; destruct (Hok H) as [[? ?] _]; congruence].
  pose proof (zlen_read_at COPY_BUF src off n ltac:(done) ltac:(lia)) as Hl. pose proof (read_at_next COPY_BUF src off n ltac:(lia)) as Hn.
  cbv zeta. set (part := read_at COPY_BUF src off n) in *. rewrite (proj2 (Z.eqb_neq _ _)) by lia.
  destruct (existsb _ part) eqn:Hz.
  - destruct (t_write t) eqn:Hw; [|split; [done|]; intros H; destruct (Hok H) as (_ & ? & _); congruence].
    pose proof (grown_splice dst off part Hd) as Hgs.
    assert (Hle : zlen (splice dst off part) <= off + zlen part).
    { unfold splice. fold (grown dst off). pose proof (zlen_grown dst off Hd). rewrite ztake_ge, zdrop_ge, app_nil_r, zlen_app by lia. lia. }
    destruct (IH ts' (splice dst off part) (off + zlen part)) as [IH1 IH2]; [lia|done|by rewrite Hgs, Hg|lia|].
    split; [done|]. intros H. by apply IH2, Hok.
  - destruct (IH ts' dst (off + zlen part)) as [IH1 IH2]; [lia|lia|by rewrite grown_skip, Hg|lia|].
    split; [done|]. intros H. by apply IH2, Hok.
Qed.

(** A copy that succeeds is the source, whatever the reads give at a time and
    though parts of zeros are never written; and it succeeds when no call fails. *)
Theorem sparse_copy_is_whole ts src :
  (forall f, copy_contents ts src [] = Some f -> f = src) /\ (faultless ts -> copy_contents ts src [] = Some src).
Proof.
  pose proof (zlen_nonneg src). apply copy_loop_copies; [lia|done|by rewrite ztake_nonpos|unfold zlen; lia].
Qed.

(** The size a disk gets is what was asked for, at least 4 GiB, and fits a file. *)
Lemma disk_size_spec size_mb n :
  validate_disk_size size_mb = Some n <-> n = size_mb * 2 ^ 20 /\ MIN_DISK_MB <= size_mb /\ n < 2 ^ 63.
Proof.
  unfold validate_disk_size, MIN_DISK_MB. destruct (Z.ltb_spec size_mb 4096); [split; [done|lia]|].
  destruct (Z.ltb_spec (size_mb * (1024 * 1024)) (2 ^ 64)), (Z.leb_spec (size_mb * (1024 * 1024)) (2 ^ 63 - 1)); cbn [andb];
    split; try done; try lia.
  - intros [= <-]. lia.
  - by intros (-> & _ & _).
Qed.

(** A working disk is the base image and zeros up to exactly the size asked for;
    a base that is larger is refused, never cut. *)
Theorem working_disk_extends_base r ts base size_mb f :
  clone_from r ts base size_mb = Some f -> f = grown base (size_mb * 2 ^ 20) /\ zlen f = size_mb * 2 ^ 20.
Proof.
  unfold clone_from. destruct (validate_disk_size size_mb) as [target|] eqn:Hv; [|done]. apply disk_size_spec in Hv as (-> & _).
  destruct (clone_anonymous r ts base) as [d|] eqn:Hc; [|done].
  assert (d = base) as ->.
  { destruct r; cbn in Hc; [congruence|by apply (proj1 (sparse_copy_is_whole ts base))|done]. }
  destruct (Z.ltb_spec (size_mb * 2 ^ 20) (zlen base)); [done|]. intros [= <-].
  destruct (Z.ltb_spec (zlen base) (size_mb * 2 ^ 20)).
  - rewrite set_len_grows, zlen_grown by lia. done.
  - replace (size_mb * 2 ^ 20) with (zlen base) by lia. unfold grown. by rewrite Z.sub_diag, app_nil_r.
Qed.

Lemma rewrite_loop_copies fuel ts input output f :
  rewrite_loop fuel ts input output = Some f -> f = output ++ input.
Proof.
  revert ts input output. induction fuel as [|fuel IH]; intros ts input output; cbn [rewrite_loop]; destruct (next_turn _ ts) as [t ts'];
    destruct (t_read t) as [n|]; try done; cbv zeta; set (part := read_at _ _ _ _);
    assert (Hp : zlen part = 0 -> input = []) by
      (intros Hz; destruct (decide (zlen input = 0)) as [?|Hne]; [by apply zlen_zero|]; pose proof (zlen_nonneg input);
       pose proof (zlen_read_at REWRITE_BUF input 0 n ltac:(done) ltac:(lia)) as Hl; fold part in Hl; lia);
    (destruct (Z.eqb_spec (zlen part) 0) as [Hz|_]; [intros [= <-]; by rewrite (Hp Hz), app_nil_r|]); destruct (negb (t_write t)); try done.
  intros ->%IH. rewrite <- app_assoc. f_equal. pose proof (read_at_next REWRITE_BUF input 0 n ltac:(lia)) as Hn.
  rewrite (ztake_nonpos 0) in Hn by lia. cbn in Hn. fold part in Hn. rewrite Hn at 1. apply ztake_zdrop.
Qed.

(** Whatever fails, the base image stays as it was or becomes the same image
    followed by zeros, at least 4 GiB. *)
Theorem prepared_base_is_same ok renamed ts base done_ f :
  prepare_base ok renamed ts base = (done_, f) ->
  f = (if done_ then grown base (2 ^ 32) else base).
Proof.
  unfold prepare_base. replace (validate_disk_size MIN_DISK_MB) with (Some (2 ^ 32)) by reflexivity.
  generalize (2 ^ 32); intros target. destruct (Z.leb_spec target (zlen base)).
  - intros [= <- <-]. unfold grown. rewrite Z2Nat.nonpos by lia. by rewrite app_nil_r.
  - unfold rewrite_sequential. destruct (rewrite_loop _ ts base []) as [g|] eqn:Hg; [|by intros [= <- <-]].
    apply rewrite_loop_copies in Hg as ->. destruct ok; [|by intros [= <- <-]]. destruct renamed; intros [= <- <-]; [|done].
    cbn [app]. by rewrite set_len_grows by lia.
Qed.

(** Short reads, with a part of zeros between two others. *)
Example sparse_copy_example :
  copy_contents [MkTurn (Some 2) true; MkTurn (Some 3) false; MkTurn (Some 1) true] [x01; x00; x00; x00; x00; x07; x00] [] =
  Some [x01; x00; x00; x00; x00; x07; x00].
Proof. reflexivity. Qed.
